(* ===== verification/_CoqProject ===== *)
-Q . S2P
Prelude.v
Text.v
Types.v
Resource.v
Session.v
Filters.v
Snapshot.v
Order.v
PluginApi.v
MinMax.v
Policies.v
Drf.v
PluginManager.v
SchedCtx.v
Actions.v
Capacity.v
Scheduling.v
Gang.v
SessionLimit.v
Events.v
Engine.v
Storage.v
StorageInv.v
Executors.v
Nodes.v
Connections.v
Draining.v
Controller.v
Frames.v
Lifecycle.v
Codes.v
FsDisk.v
FsRecord.v
FsEngine.v
FsDemo.v
FsInv.v
FsTasks.v
FsDurable.v
FsFaults.v
Rpc.v
Frontend.v
Backend.v
Server.v
Requests.v
Worker.v
Answers.v
Fleet.v
Ledger.v
Gpu.v
GpuInv.v
Devices.v
DevicesInv.v
Notify.v
Watch.v
Forward.v
ClientWatch.v
ClientTypes.v
Config.v
Waiting.v
Lru.v
ObjKey.v
ObjStore.v
ObjOs.v
EventFiles.v
EventFilesInv.v
EventFilesOps.v
EventFilesLog.v
ObjDisk.v
Resident.v
CacheOnly.v
ObjCache.v
ObjCacheInv.v
ObjGc.v
ObjDiskInv.v
ObjTree.v
ObjCreate.v
ObjDelete.v
FileStore.v
ObjScan.v
ObjDemo.v
