(* ===== verification/Prelude.v ===== *)
(** * Flame: a verification development of the session manager and its peers

    Flame runs the tasks of distributed applications.  A session manager keeps
    applications, sessions and tasks, schedules executors on nodes and serves
    clients and the executor managers of the nodes over gRPC; an executor manager
    runs executors on the devices of its node; an object cache keeps the objects
    the tasks exchange.  This library is a shallow embedding of these programs: a
    Rust function is a Rocq function on the state it works on, in the monad [M]
    of this file (a state that survives an error, and a [result] with [Panic]
    for an [unwrap] that fails), and its theorems are about these functions.

    ** The parts, and the files that model them

    - Text.  [Text] has the functions of Rust's standard library on strings
      that the sources use.

    - Data.  [Types], [Resource], [Session], [Filters] and [Codes] model
      [common/src/apis]: the records, resource arithmetic at its width and
      requirements as text, the tasks of a session with their index by state,
      the filters of list requests, and the numbers of the states on the wire
      and on disk.  [Config] is the configuration file, its checks and its
      defaults ([common/src/ctx.rs]).

    - Scheduler ([session_manager/src/scheduler]).  [Snapshot] is the cluster
      as a cycle sees it ([controller/snapshot.rs]); [Order] the heap sessions
      are taken from; [PluginApi], [MinMax], [Policies], [Drf] and
      [PluginManager] the plugins and the manager that combines their opinions;
      [SchedCtx] the context of a cycle and statements, which stage binds and
      commit or discard them; [Actions] Dispatch, Allocate and Shuffle and the
      cycle [run_cycle].  The controller is a parameter of a cycle, the class
      [SchedController].

    - Storage ([common/src/storage]).  [Engine] has the contract of engines,
      the class [EngineSpec], and the engine in memory; [Events] the event
      manager in memory; [Storage] the caches over an engine.  [FsDisk] is a
      disk whose calls can fail and leave part of their effect; [FsRecord] and
      [FsEngine] are the filesystem engine on it.  [EventFiles] is the event
      manager on files ([common/src/events/fs.rs]) with the storages of objects
      and of messages under it.

    - Controller ([session_manager/src/controller]).  [Executors], [Nodes] and
      [Connections] are its state machines, [Draining] is the manager of
      connections once more, with its critical sections as steps; [Controller]
      has its operations over the storage.  Its instance of [SchedController]
      closes the loop with the scheduler.

    - API server ([session_manager/src/apiserver], [notify.rs]).  [Rpc] has the
      messages and their conversions, [Frontend] the calls of clients, [Backend]
      those of executor managers; [Notify] the fan-out of events, [Watch] the
      stream of a client that watches tasks and [Forward] the queue of a node's
      notifications with the streams that drain it, as transition systems.

    - Executor manager ([executor_manager/src]).  [Worker] is an executor as a
      program that asks the session manager, a shim or the devices and goes on
      with the answer; [Ledger] and [Gpu] the managers of countable resources
      and of GPUs, the latter with its files; [Devices] the managers behind
      their trait and the executors of a node.

    - Client library ([sdk/rust/src/client]).  [ClientTypes] has the options,
      requests and records of a client, [ClientWatch] its waiters on the stream
      of task updates.

    - Object cache ([object_cache/src]).  [Lru] is the eviction policy;
      [ObjKey] and [ObjStore] keys, objects and the record of operations of an
      engine; [ObjOs] an operating system with names, inodes and handles;
      [ObjDisk] objects as files on it; [Resident] objects and open files in
      memory; [ObjCache] the cache, its gRPC service and the response stream as
      a state machine; [ObjGc] the collector.

    ** What the theorems show

    - Scheduling.  [Capacity]: a cycle takes no node beyond its resources or
      its executor limit and no application beyond its own.  [SessionLimit]: the
      executors a session holds after a cycle are within its limit.  [Gang]: a
      session with room for a gang gets all of its executors; otherwise nothing is
      left of the attempt, unless the controller refuses a bind half-way.
      [Scheduling]: the loops end, with the fuel their queues
      give, and the chosen executor is a best one.  [MinMax], [Drf],
      [PluginApi] and [PluginManager]: what the plugins compute and decide.
      [Snapshot]: listing through the indexes is listing by a scan.

    - Storage.  [StorageInv]: the caches stay well formed through every
      operation on any engine that meets its contract, and what closing,
      evicting and recovering do.  [FsInv]: the filesystem engine meets the
      contract.  [FsTasks] and [FsDurable]: whatever I/O errors there were, what
      an operation answers is the task it was asked for with the update it was
      asked for, and that is returned again after any other operations and after
      a restart.  [FsFaults]: what single faults do that they should not.

    - Controller.  [Frames] and [Lifecycle]: every operation moves executors
      along a small life cycle, keeps their fields in agreement with their
      states, and keeps running tasks on their executors; and the case in which
      it does not.  [Connections]: exactly the draining connections have a live
      timer along every run of whole calls.  [Draining]: under every interleaving
      of their critical sections a connection that drains is closed or connected
      again; and two races.

    - Event files.  [EventFilesInv] and [EventFilesOps]: what the files of a
      session hold and what each operation makes of them.  [EventFilesLog]: on a
      disk that works the manager is a log per session, across restarts; and
      what two failed writes and [clear] leave behind.

    - Configuration.  [Config]: a configuration is accepted exactly if it keeps
      to a grammar that is written apart from the parsers, and the amounts that
      come of it are those written; a resource requirement with a whole number of
      units is read alike by the server and by the client library.

    - API server.  [Server]: whatever is requested, a request keeps the
      invariant of the controller and moves executors along their life cycle
      only.  [Requests]: what requests are answered.  [Notify], [Watch] and
      [Forward]: no event is lost between its source and a stream that lives,
      and a watch that can go on is never stuck.

    - Executors and nodes.  [Answers] and [Fleet]: the worker of an executor and
      the session manager stay in step while no reply is lost, and a result
      reaches the task it is of.  [GpuInv] and [DevicesInv]: whichever calls
      fail, no GPU is given twice, an assignment lasts until its release, and a
      node promises no more than it has.

    - Clients.  [ClientWatch]: a waiter has an answer or a live stream that will
      bring it.  [Waiting]: with the server's watch, nobody waits for a task
      that has ended once nothing is under way.  [ClientTypes]: what a client
      asks for is what the server reads, and an application that was registered is
      read back, through the engine that keeps it.

    - Object cache.  [Lru]: the linked list is a queue by last use.
      [Resident]: eviction ends and keeps what was used last; it loses
      everything in a small cache.  [ObjStore] states what an engine promises,
      as a class; [CacheOnly] discharges it for the cache in memory, which may
      lose objects, and [FileStore], with [ObjDiskInv], [ObjTree], [ObjCreate]
      and [ObjDelete], for the cache over a disk, which does not.
      [ObjCacheInv]: over the contract, the cache is a store of append-only
      versioned objects and a response is the bytes the client lacks.  [ObjGc]:
      the collector spares what is in use under any interleaving and removes
      what is stale.  [ObjScan]: a restart recovers every object.  [ObjDemo]
      has concrete instances, and a run whose eviction never ends.

    ** Conventions

    A handler is one step, also where the code takes and releases a lock more
    than once: what is proved of the storage, the controller and the requests
    ([StorageInv], [Lifecycle], [Server], [Fleet]) is about requests served one at
    a time.  [unbind_during_launch] of [Lifecycle] is a run the steps leave out, in
    which an unbind falls between the two halves of a launch.  Where the order of
    the halves is the point, the steps are smaller: [Draining], [Notify], [Watch],
    [Forward], [ClientWatch], and [ObjGc], whose collector runs against steps of
    others.  [cache_delete] of [ObjCache] is one step though its locks are one for
    each object.  Integers are
    [Z] with the wrap-around or saturation of their width written out.  A map
    is a [gmap]; the order a [HashMap] is iterated in is the parameter
    [hm_iter] of the class [Env], any order of its entries; the clock and fresh
    identifiers are parameters of [Env] too.  Code of other crates is a class
    with the laws its documentation gives ([Crates], [Json], [Disk], [StdHeap],
    [Broadcast], [WatchChan], [EventCodec], [ConfigLibs], [Unicode]), and each
    has a concrete instance on which the theorems are applied.

    Loops that are not structural take fuel: the queue and the idle set bound
    Dispatch and Allocate ([Scheduling]), the closed sessions bound eviction
    ([StorageInv]), the tracked keys bound [run_eviction], where
    [evict_loop_adequate] shows that more rounds would not help, and a response
    takes one step for each message ([ObjCacheInv]).

    ** Not modelled

    The SQLite engine, whose behaviour is that of SQL statements run by a
    library.  The shims of the executor manager, with processes, control groups,
    containers and WebAssembly instances, the installation of application
    packages, the client of the container runtime and the sandbox: they drive
    external programs, and what they answer is arbitrary in [Worker].  The
    discovery of GPUs, which asks a library; what it finds is a parameter of
    [Devices].  The stream of a node on the side of the executor manager, its
    timers and reconnections; what the session manager sees of it are requests
    of [Server].  The command line tools, the other client libraries and the
    generated messages.  Of the modelled programs, start-up, certificates,
    logging, metrics, locks and the text of error messages are left out. *)

From Stdlib Require Export ZArith Lia.
From stdpp Require Export base tactics option list gmap strings fin_maps sets sorting numbers.

(** ** Errors and results

    [FlameError] is the error type of [common/src/lib.rs]; the message a
    variant carries is text for people and is not modelled (no code of the
    program reads it back).  A Rust function that returns
    [Result<A, FlameError>] returns a [result A]: [Panic] stands for an
    [unwrap] or [expect] that fails. *)
Inductive FlameError :=
  | ENotFound
  | EAlreadyExist
  | EInternal
  | ENetwork
  | EInvalidConfig
  | EUninitialized
  | EInvalidState
  | EStorage
  | EVersionMismatch
  | EInvalidVersion.

#[export] Instance FlameError_eq_dec : EqDecision FlameError.
Proof. solve_decision. Defined.

Inductive result (A : Type) :=
  | Ok (a : A)
  | Err (e : FlameError)
  | Panic.
Arguments Ok {A} _.
Arguments Err {A} _.
Arguments Panic {A}.

Definition is_ok {A} (r : result A) : bool :=
  match r with Ok _ => true | _ => false end.

#[export] Instance result_ret : MRet result := fun A a => Ok a.
#[export] Instance result_bind : MBind result := fun A B f r =>
  match r with Ok a => f a | Err e => Err e | Panic => Panic end.

#[export] Instance result_fmap : FMap result := fun A B f r =>
  match r with Ok a => Ok (f a) | Err e => Err e | Panic => Panic end.

(** [opt.ok_or(e)]. *)
Definition ok_or {A} (o : option A) (e : FlameError) : result A :=
  match o with Some a => Ok a | None => Err e end.

(** The [ensure!] macro of [stdng/src/lib.rs]. *)
Definition ensure (cond : bool) (e : FlameError) : result unit :=
  if cond then Ok tt else Err e.

(** ** Stateful code

    A method that mutates a shared object and returns a [Result] is a
    function of the object's state.  The state is returned with an error
    too: what was written before the [?] stays written. *)
Definition M (S A : Type) : Type := S -> result A * S.

#[export] Instance M_ret {S} : MRet (M S) := fun A a s => (Ok a, s).
#[export] Instance M_bind {S} : MBind (M S) := fun A B f m s =>
  match m s with
  | (Ok a, s') => f a s'
  | (Err e, s') => (Err e, s')
  | (Panic, s') => (Panic, s')
  end.

Definition get {S} : M S S := fun s => (Ok s, s).
Definition gets {S A} (f : S -> A) : M S A := fun s => (Ok (f s), s).
Definition modify {S} (f : S -> S) : M S unit := fun s => (Ok tt, f s).
Definition throw {S A} (e : FlameError) : M S A := fun s => (Err e, s).
Definition lift {S A} (r : result A) : M S A := fun s => (r, s).

(** [match op().await { Ok(..) => .., Err(..) => .. }]: the caller sees the
    error as a value; a panic is not caught. *)
Definition attempt {S A} (m : M S A) : M S (result A) := fun s =>
  match m s with
  | (Panic, s') => (Panic, s')
  | (r, s') => (Ok r, s')
  end.

(** [m] run on the part of the state [get_part] reads and [set_part] writes. *)
Definition zoom {S T A} (get_part : S -> T) (set_part : T -> S -> S) (m : M T A) : M S A :=
  fun s => let '(r, t) := m (get_part s) in (r, set_part t s).

(** [for x in l { body(x)?; }]. *)
Fixpoint for_each {S A} (l : list A) (body : A -> M S unit) : M S unit :=
  match l with
  | [] => mret tt
  | x :: l => body x ≫= fun _ => for_each l body
  end.

(** ** Machine integers

    A [u32], [u64] or [i32] value is a [Z]; an arithmetic operator of the
    release build wraps at the width, the [saturating_*] methods clamp. *)
Definition u32_max : Z := 2 ^ 32 - 1.
Definition u64_max : Z := 2 ^ 64 - 1.
Definition i32_max : Z := 2 ^ 31 - 1.
Definition i32_min : Z := - 2 ^ 31.

Definition wrap_u32 (z : Z) : Z := z mod 2 ^ 32.
Definition wrap_u64 (z : Z) : Z := z mod 2 ^ 64.
Definition wrap_i32 (z : Z) : Z := (z + 2 ^ 31) mod 2 ^ 32 - 2 ^ 31.

Definition u32_saturating_add (a b : Z) : Z := Z.min u32_max (a + b).
Definition u64_saturating_sub (a b : Z) : Z := Z.max 0 (a - b).
Definition i32_saturating_sub (a b : Z) : Z := Z.min i32_max (Z.max i32_min (a - b)).

Definition is_u32 (z : Z) : Prop := (0 <= z <= u32_max)%Z.
Definition is_u64 (z : Z) : Prop := (0 <= z <= u64_max)%Z.
Definition is_i32 (z : Z) : Prop := (i32_min <= z <= i32_max)%Z.
Definition is_i64 (z : Z) : Prop := (- 2 ^ 63 <= z < 2 ^ 63)%Z.

(** ** What the program does not determine

    The iteration order of a [HashMap], the readings of the clock and the
    identifiers [Uuid::new_v4] draws are parameters: every theorem holds for
    each choice of them.  [utc_now n] is the [n]-th reading of [Utc::now()],
    [new_uuid n] the [n]-th identifier. *)
Class Env := {
  utc_now : nat -> Z;
  new_uuid : nat -> string;
  hm_iter : forall V, gmap string V -> list (string * V);
  hm_iter_perm : forall V (m : gmap string V), hm_iter V m ≡ₚ map_to_list m
}.
Arguments hm_iter {_ _} _.
Arguments hm_iter_perm {_ _} _.

(** [map.values()] and [map.iter()] of a [HashMap<String, V>]. *)
Definition hm_values `{Env} {V} (m : gmap string V) : list V := (hm_iter m).*2.

(** [iter.collect::<HashMap<_, _>>()]: a later pair replaces an earlier one. *)
Definition hm_collect {K V} `{Countable K} (l : list (K * V)) : gmap K V :=
  foldl (fun m kv => <[kv.1 := kv.2]> m) ∅ l.

(** [*map.entry(k).or_default() += 1] of a map of counters. *)
Definition hm_incr {K} `{Countable K} (k : K) (m : gmap K nat) : gmap K nat :=
  <[k := S (default 0 (m !! k))]> m.

(** [*c = map.entry(k).or_default(); *c = c.saturating_sub(1)]. *)
Definition hm_decr {K} `{Countable K} (k : K) (m : gmap K nat) : gmap K nat :=
  <[k := pred (default 0 (m !! k))]> m.

(** [Option::min]-free helpers of the sources. *)
Definition is_some_and {A} (o : option A) (f : A -> bool) : bool :=
  match o with Some a => f a | None => false end.
Definition is_none_or {A} (o : option A) (f : A -> bool) : bool :=
  match o with Some a => f a | None => true end.

(** [cond.then_some(v)]. *)
Definition then_some {A} (cond : bool) (v : A) : option A := if cond then Some v else None.

(** [std::cmp::Ordering] is [comparison]; [then_with] breaks a tie. *)
Definition then_with (o1 o2 : comparison) : comparison :=
  match o1 with Eq => o2 | _ => o1 end.

(** ** Lemmas the components share *)

Section monad_lemmas.
Context {S A B : Type}.

Lemma bind_Ok (m : M S A) (f : A -> M S B) s a s1 :
  m s = (Ok a, s1) -> (m ≫= f) s = f a s1.
Proof. unfold mbind, M_bind. by intros ->. Qed.

(** What is returned does not matter to the state. *)
Lemma bind_ret_snd (m : M S A) (g : A -> B) s : ((m ≫= fun a => mret (g a)) s).2 = (m s).2.
Proof. unfold mbind, M_bind. by destruct (m s) as [[] ?]. Qed.

Lemma bind_inv_Ok (m : M S A) (f : A -> M S B) s b s2 :
  (m ≫= f) s = (Ok b, s2) -> exists a s1, m s = (Ok a, s1) /\ f a s1 = (Ok b, s2).
Proof.
  unfold mbind, M_bind. destruct (m s) as [[a|e|] s1]; intros H; [eauto| |]; inversion H.
Qed.

(** An operation that keeps [P] whatever it returns. *)
Definition keeps (P : S -> Prop) (m : M S A) : Prop := forall s, P s -> P (m s).2.
End monad_lemmas.

Lemma bind_gets {S A B} (f : S -> A) (g : A -> M S B) st : (gets f ≫= g) st = g (f st) st.
Proof. done. Qed.

Lemma bind_modify {S B} (f : S -> S) (g : unit -> M S B) st : (modify f ≫= g) st = g tt (f st).
Proof. done. Qed.

Lemma bind_lift_Ok {S A B} (a : A) (g : A -> M S B) s : (lift (Ok a) ≫= g) s = g a s.
Proof. done. Qed.

Lemma bind_assoc {S A B C} (c : M S A) (f : A -> M S B) (g : B -> M S C) st :
  (c ≫= fun a => f a ≫= g) st = ((c ≫= f) ≫= g) st.
Proof. unfold mbind, M_bind. by destruct (c st) as [[]]. Qed.

Lemma keeps_ret {S A} (P : S -> Prop) (a : A) : keeps P (mret a : M S A).
Proof. by intros s. Qed.
Lemma keeps_throw {S A} (P : S -> Prop) e : keeps P (throw e : M S A).
Proof. by intros s. Qed.
Lemma keeps_lift {S A} (P : S -> Prop) (r : result A) : keeps P (lift r : M S A).
Proof. by intros s. Qed.
Lemma keeps_get {S} (P : S -> Prop) : keeps P (get : M S S).
Proof. by intros s. Qed.
Lemma keeps_gets {S A} (P : S -> Prop) (f : S -> A) : keeps P (gets f).
Proof. by intros s. Qed.
Lemma keeps_modify {S} (P : S -> Prop) (f : S -> S) :
  (forall s, P s -> P (f s)) -> keeps P (modify f).
Proof. by intros H s ?; apply H. Qed.

Lemma keeps_bind {S A B} (P : S -> Prop) (m : M S A) (f : A -> M S B) :
  keeps P m -> (forall a, keeps P (f a)) -> keeps P (m ≫= f).
Proof.
  intros Hm Hf s Hs. unfold mbind, M_bind. specialize (Hm s Hs).
  destruct (m s) as [[a|e|] s1]; [by apply Hf|done|done].
Qed.

Lemma keeps_attempt {S A} (P : S -> Prop) (m : M S A) : keeps P m -> keeps P (attempt m).
Proof. intros Hm s Hs. unfold attempt. specialize (Hm s Hs). by destruct (m s) as [[]]. Qed.

Lemma keeps_for_each {S A} (P : S -> Prop) (l : list A) (body : A -> M S unit) :
  (forall x, x ∈ l -> keeps P (body x)) -> keeps P (for_each l body).
Proof.
  induction l as [|x l IH]; simpl; intros Hb; [apply keeps_ret|].
  apply keeps_bind; [apply Hb; left|]. intros _. apply IH. intros y Hy. apply Hb. by right.
Qed.

Create HintDb flame discriminated.
#[export] Hint Resolve keeps_ret keeps_throw keeps_lift keeps_get keeps_gets
  keeps_attempt : flame.

(** Split a run of a monadic program that returned [Ok] at its binds. *)
Ltac inv_bind H :=
  lazymatch type of H with
  | (_ ≫= _) _ = (Ok _, _) =>
      let a := fresh "a" in let s := fresh "s" in let H1 := fresh H "a" in
      apply bind_inv_Ok in H as (a & s & H1 & H)
  end.

(** Close the arithmetic side goals of machine-width bounds. *)
Ltac width := unfold is_u32, is_u64, is_i32, u32_max, u64_max, i32_max, i32_min in *; lia.

Lemma wrap_u32_small z : is_u32 z -> wrap_u32 z = z.
Proof. intros. unfold wrap_u32. apply Z.mod_small. width. Qed.
Lemma wrap_u64_small z : is_u64 z -> wrap_u64 z = z.
Proof. intros. unfold wrap_u64. apply Z.mod_small. width. Qed.
Lemma wrap_i32_small z : is_i32 z -> wrap_i32 z = z.
Proof. intros. unfold wrap_i32. rewrite Z.mod_small; width. Qed.
Lemma wrap_u64_range z : is_u64 (wrap_u64 z).
Proof. unfold wrap_u64. pose proof (Z.mod_pos_bound z (2 ^ 64)). width. Qed.
Lemma wrap_i32_range z : is_i32 (wrap_i32 z).
Proof. unfold wrap_i32. pose proof (Z.mod_pos_bound (z + 2 ^ 31) (2 ^ 32)). width. Qed.

#[export] Hint Resolve wrap_u64_range wrap_i32_range : flame.

Section order_lemmas.
Context `{Env}.

Lemma hm_iter_elem {V} (m : gmap string V) k v : (k, v) ∈ hm_iter m <-> m !! k = Some v.
Proof. rewrite (hm_iter_perm m). apply elem_of_map_to_list. Qed.

Lemma hm_iter_NoDup {V} (m : gmap string V) : NoDup (hm_iter m).*1.
Proof. rewrite (hm_iter_perm m). apply NoDup_fst_map_to_list. Qed.

Lemma hm_values_elem {V} (m : gmap string V) v : v ∈ hm_values m <-> exists k, m !! k = Some v.
Proof.
  unfold hm_values. rewrite list_elem_of_fmap. split.
  - intros ([k v'] & -> & Hkv). exists k. by apply hm_iter_elem.
  - intros [k Hk]. exists (k, v). by rewrite hm_iter_elem.
Qed.

Lemma hm_values_perm {V} (m : gmap string V) : hm_values m ≡ₚ (map_to_list m).*2.
Proof. unfold hm_values. by rewrite (hm_iter_perm m). Qed.

Lemma hm_values_insert {V} (m : gmap string V) k v :
  m !! k = None -> hm_values (<[k := v]> m) ≡ₚ v :: hm_values m.
Proof. intros Hk. rewrite !hm_values_perm. by rewrite map_to_list_insert. Qed.

Lemma hm_values_length {V} (m : gmap string V) : length (hm_values m) = size m.
Proof. rewrite hm_values_perm, length_fmap. apply length_map_to_list. Qed.
End order_lemmas.

Lemma foldl_insert_lookup {K V} `{Countable K} (l : list (K * V)) (m : gmap K V) k v :
  NoDup l.*1 -> (k, v) ∈ l -> foldl (fun m kv => <[kv.1 := kv.2]> m) m l !! k = Some v.
Proof.
  revert m. induction l as [|[k' v'] l IH]; intros m; simpl; [by intros _ ?%elem_of_nil|].
  intros [Hnin Hnd]%list.NoDup_cons [[= -> ->]|Hin]%elem_of_cons; [|by apply IH].
  clear IH Hnd. revert m. induction l as [|[k1 v1] l IH]; intros m; simpl.
  { by rewrite lookup_insert_eq. }
  simpl in Hnin. apply not_elem_of_cons in Hnin as [Hne Hnin].
  rewrite insert_insert_ne by done. by apply IH.
Qed.

Lemma foldl_insert_lookup_None {K V} `{Countable K} (l : list (K * V)) (m : gmap K V) k :
  k ∉ l.*1 -> foldl (fun m kv => <[kv.1 := kv.2]> m) m l !! k = m !! k.
Proof.
  revert m. induction l as [|[k' v'] l IH]; intros m; simpl; [done|].
  intros [Hne Hnin]%not_elem_of_cons. rewrite IH by done. by rewrite lookup_insert_ne.
Qed.

Lemma foldl_fun_ext {A B} (f g : A -> B -> A) (l : list B) a :
  (forall a b, f a b = g a b) -> foldl f a l = foldl g a l.
Proof. intros Hfg. revert a. induction l as [|b l IH]; simpl; intros a; [done|]. by rewrite Hfg. Qed.

(** A loop that inserts [g x] under [f x]. *)
Lemma foldl_insert_fmap {A K V} `{Countable K} (f : A -> K) (g : A -> V) (l : list A)
    (m : gmap K V) :
  foldl (fun m x => <[f x := g x]> m) m l =
  foldl (fun m kv => <[kv.1 := kv.2]> m) m ((fun x => (f x, g x)) <$> l).
Proof. revert m. induction l; simpl; auto. Qed.

(** Collecting pairs with distinct keys is the map of those pairs. *)
Lemma hm_collect_lookup {K V} `{Countable K} (l : list (K * V)) k v :
  NoDup l.*1 -> hm_collect l !! k = Some v <-> (k, v) ∈ l.
Proof.
  intros Hnd. unfold hm_collect. split.
  - intros Hk. destruct (decide (k ∈ l.*1)) as [Hin|Hnin].
    + apply list_elem_of_fmap in Hin as ([k' v'] & -> & Hin). simpl in *.
      rewrite (foldl_insert_lookup l ∅ k' v') in Hk by done. by simplify_eq.
    + rewrite foldl_insert_lookup_None in Hk by done. by rewrite lookup_empty in Hk.
  - by intros; apply foldl_insert_lookup.
Qed.

Lemma hm_incr_lookup {K} `{Countable K} (k k' : K) m :
  default 0 (hm_incr k m !! k') =
    (default 0 (m !! k') + if decide (k = k') then 1 else 0)%nat.
Proof.
  unfold hm_incr. destruct (decide (k = k')) as [->|].
  - rewrite lookup_insert_eq. simpl. lia.
  - rewrite lookup_insert_ne by done. lia.
Qed.

Lemma hm_decr_lookup {K} `{Countable K} (k k' : K) m :
  default 0 (hm_decr k m !! k') =
    (default 0 (m !! k') - if decide (k = k') then 1 else 0)%nat.
Proof.
  unfold hm_decr. destruct (decide (k = k')) as [->|].
  - rewrite lookup_insert_eq. simpl. lia.
  - rewrite lookup_insert_ne by done. lia.
Qed.

(** The sum of [f] over a list of integers-valued items. *)
Definition Zsum {A} (f : A -> Z) (l : list A) : Z := foldr (fun x acc => f x + acc)%Z 0%Z l.

Lemma Zsum_perm {A} (f : A -> Z) l1 l2 : l1 ≡ₚ l2 -> Zsum f l1 = Zsum f l2.
Proof. induction 1; simpl in *; lia. Qed.

#[export] Instance Zsum_Permutation {A} (f : A -> Z) : Proper ((≡ₚ) ==> eq) (Zsum f).
Proof. intros l1 l2. apply Zsum_perm. Qed.

Lemma Zsum_app {A} (f : A -> Z) l1 l2 : Zsum f (l1 ++ l2) = (Zsum f l1 + Zsum f l2)%Z.
Proof. induction l1; simpl; lia. Qed.

Lemma Zsum_nonneg {A} (f : A -> Z) l : (forall x, x ∈ l -> 0 <= f x)%Z -> (0 <= Zsum f l)%Z.
Proof.
  induction l as [|x l IH]; simpl; intros Hf; [lia|].
  pose proof (Hf x ltac:(left)). assert (forall y, y ∈ l -> (0 <= f y)%Z).
  { intros y Hy. apply Hf. by right. } specialize (IH H0). lia.
Qed.

(** The number of items of a list that satisfy a test. *)
Definition count {A} (P : A -> bool) (l : list A) : nat := length (List.filter P l).

Lemma count_cons {A} (P : A -> bool) x l :
  count P (x :: l) = ((if P x then 1 else 0) + count P l)%nat.
Proof. unfold count. simpl. by destruct (P x). Qed.

#[export] Instance filter_Permutation {A} (P : A -> bool) : Proper ((≡ₚ) ==> (≡ₚ)) (List.filter P).
Proof.
  induction 1 as [|x l1 l2 _ IH|x y l|l1 l2 l3 _ IH1 _ IH2]; simpl; [done| | |by etrans].
  - destruct (P x); by rewrite IH.
  - destruct (P x), (P y); try done. apply Permutation_swap.
Qed.

#[export] Instance count_Permutation {A} (P : A -> bool) : Proper ((≡ₚ) ==> eq) (count P).
Proof. intros l1 l2 Hl. unfold count. by rewrite Hl. Qed.

Lemma count_le_length {A} (P : A -> bool) l : (count P l <= length l)%nat.
Proof. induction l; rewrite ?count_cons; simpl; [done|]. destruct (P a); lia. Qed.

Lemma wrap_u64_add_l a b : wrap_u64 (wrap_u64 a + b) = wrap_u64 (a + b).
Proof. unfold wrap_u64. apply Zplus_mod_idemp_l. Qed.
Lemma wrap_i32_add_l a b : wrap_i32 (wrap_i32 a + b) = wrap_i32 (a + b).
Proof.
  unfold wrap_i32. f_equal.
  replace ((a + 2 ^ 31) mod 2 ^ 32 - 2 ^ 31 + b + 2 ^ 31)%Z
    with ((a + 2 ^ 31) mod 2 ^ 32 + b)%Z by lia.
  rewrite Zplus_mod_idemp_l. f_equal. lia.
Qed.

(** [keeps] with a property of the result. *)
Definition spec {S A} (P : S -> Prop) (m : M S A) (Q : A -> Prop) : Prop :=
  forall s, P s -> P (m s).2 /\ forall a, (m s).1 = Ok a -> Q a.

Section spec_lemmas.
Context {S A B : Type} (P : S -> Prop).
Implicit Types (Q : A -> Prop) (R : B -> Prop).

Lemma spec_keeps (m : M S A) Q : spec P m Q -> keeps P m.
Proof. intros H s Hs. by apply H. Qed.

Lemma keeps_spec (m : M S A) : keeps P m -> spec P m (fun _ => True).
Proof. intros H s Hs. split; [by apply H|done]. Qed.

Lemma spec_ret (a : A) Q : Q a -> spec P (mret a) Q.
Proof. intros Ha s Hs. split; [done|]. by intros ? [= <-]. Qed.

Lemma spec_gets (f : S -> A) : spec P (gets f) (fun a => exists s, P s /\ a = f s).
Proof. intros s Hs. split; [done|]. intros ? [= <-]. eauto. Qed.

Lemma spec_lift (r : result A) Q : (forall a, r = Ok a -> Q a) -> spec P (lift r) Q.
Proof. intros Hr s Hs. split; [done|]. apply Hr. Qed.

Lemma spec_bind (m : M S A) (f : A -> M S B) Q R :
  spec P m Q -> (forall a, Q a -> spec P (f a) R) -> spec P (m ≫= f) R.
Proof.
  intros Hm Hf s Hs. unfold mbind, M_bind. destruct (Hm s Hs) as [H1 H2].
  destruct (m s) as [[a|e|] s1]; simpl in *; [|done|done]. apply Hf; auto.
Qed.

Lemma spec_weaken (m : M S A) Q Q' : spec P m Q -> (forall a, Q a -> Q' a) -> spec P m Q'.
Proof. intros Hm HQ s Hs. destruct (Hm s Hs). eauto. Qed.
End spec_lemmas.

(** [keeps] and [spec] for the combinators that are not binds. *)
Lemma keeps_zoom {S T A} (P : S -> Prop) (g : S -> T) (p : T -> S -> S) (m : M T A) :
  (forall s t, P s -> P (p t s)) -> keeps P (zoom g p m).
Proof. intros Hp s Hs. unfold zoom. destruct (m (g s)). by apply Hp. Qed.

Lemma keeps_if {S A} (P : S -> Prop) (b : bool) (m1 m2 : M S A) :
  (b = true -> keeps P m1) -> (b = false -> keeps P m2) -> keeps P (if b then m1 else m2).
Proof. destruct b; auto. Qed.

Lemma spec_conj {S A} (P : S -> Prop) (m : M S A) (Q1 Q2 : A -> Prop) :
  spec P m Q1 -> spec P m Q2 -> spec P m (fun a => Q1 a /\ Q2 a).
Proof. intros H1 H2 s Hs. destruct (H1 s Hs), (H2 s Hs). eauto. Qed.

Lemma spec_bind_keeps {S A B} (P : S -> Prop) (m : M S A) (f : A -> M S B) (Q : A -> Prop) :
  spec P m Q -> (forall a, Q a -> keeps P (f a)) -> keeps P (m ≫= f).
Proof.
  intros Hm Hf. apply (spec_keeps P _ (fun _ => True)).
  eapply spec_bind; [done|]. intros a Ha. by apply keeps_spec, Hf.
Qed.

(** Reading the state: what follows may use the state it was read from. *)
Lemma keeps_bind_gets {S A B} (P : S -> Prop) (g : S -> A) (f : A -> M S B) :
  (forall s, P s -> P (f (g s) s).2) -> keeps P (gets g ≫= f).
Proof. intros Hf s Hs. unfold mbind, M_bind, gets. by apply Hf. Qed.

(** ** Weakest preconditions: the result and the state together *)

Definition wp {S A} (m : M S A) (Q : result A -> S -> Prop) (s : S) : Prop :=
  let '(r, s') := m s in Q r s'.

Section wp_lemmas.
Context {S A B : Type}.
Implicit Types (Q : result A -> S -> Prop) (R : result B -> S -> Prop).

Lemma wp_ret (a : A) Q s : Q (Ok a) s -> wp (mret a) Q s.
Proof. done. Qed.
Lemma wp_throw e Q s : Q (Err e) s -> wp (throw e) Q s.
Proof. done. Qed.
Lemma wp_lift (r : result A) Q s : Q r s -> wp (lift r) Q s.
Proof. done. Qed.
Lemma wp_gets (f : S -> A) Q s : Q (Ok (f s)) s -> wp (gets f) Q s.
Proof. done. Qed.

Lemma wp_bind (m : M S A) (f : A -> M S B) R s :
  wp m (fun r s' => match r with
                    | Ok a => wp (f a) R s'
                    | Err e => R (Err e) s'
                    | Panic => R Panic s'
                    end) s ->
  wp (m ≫= f) R s.
Proof. unfold wp, mbind, M_bind. by destruct (m s) as [[] ?]. Qed.

Lemma wp_mono (m : M S A) Q Q' s :
  wp m Q s -> (forall r s', Q r s' -> Q' r s') -> wp m Q' s.
Proof. unfold wp. destruct (m s). auto. Qed.

Lemma wp_and (m : M S A) Q Q' s :
  wp m Q s -> wp m Q' s -> wp m (fun r s' => Q r s' /\ Q' r s') s.
Proof. unfold wp. destruct (m s). auto. Qed.

Lemma wp_keeps P (m : M S A) s : keeps P m -> P s -> wp m (fun _ s' => P s') s.
Proof. intros Hm Hs. specialize (Hm s Hs). unfold wp. by destruct (m s). Qed.

Lemma keeps_wp P (m : M S A) : (forall s, P s -> wp m (fun _ s' => P s') s) -> keeps P m.
Proof. intros Hm s Hs. specialize (Hm s Hs). unfold wp in Hm. by destruct (m s). Qed.

Lemma wp_spec P (m : M S A) (F : A -> Prop) s :
  spec P m F -> P s -> wp m (fun r s' => P s' /\ forall a, r = Ok a -> F a) s.
Proof. intros Hm Hs. destruct (Hm s Hs) as [H1 H2]. unfold wp. by destruct (m s). Qed.
End wp_lemmas.

Lemma wp_modify {S} (f : S -> S) (Q : result unit -> S -> Prop) s : Q (Ok tt) (f s) -> wp (modify f) Q s.
Proof. done. Qed.

Lemma wp_attempt {S A} (m : M S A) (Q : result (result A) -> S -> Prop) s :
  wp m (fun r s' => match r with Panic => Q Panic s' | r => Q (Ok r) s' end) s ->
  wp (attempt m) Q s.
Proof. unfold wp, attempt. by destruct (m s) as [[] ?]. Qed.

#[export] Hint Resolve keeps_modify : flame.

(** A step that may fail without touching the state. *)
Lemma keeps_bind_lift {S A B} (P : S -> Prop) (r : result A) (f : A -> M S B) :
  (forall a, r = Ok a -> keeps P (f a)) -> keeps P (lift r ≫= f).
Proof. intros Hf s Hs. destruct r as [a|err|]; [by apply Hf|done..]. Qed.

(** Walk through a program whose every step keeps the property. *)
Ltac keeps_step :=
  lazymatch goal with
  | |- keeps _ (_ ≫= _) => apply keeps_bind; [|intros ?]
  | |- keeps _ (match ?x with _ => _ end) => destruct x eqn:?
  | |- _ => progress eauto with flame
  end.
Ltac keeps_tac := repeat keeps_step.
