(* ===== verification/Text.v ===== *)
(** * Strings as the standard library of Rust handles them

    A [str] is the [string] of its bytes.  The methods the sources use on them:
    tests of characters, prefixes, suffixes and parts, white space, numbers, and
    validity as UTF-8. *)
From Stdlib Require Import Ascii.
From stdpp Require Import pretty.
From S2P Require Import Prelude.
Local Open Scope Z_scope.

(** ** Characters *)

Definition is_ascii_alphanumeric (c : Ascii.ascii) : bool :=
  let n := Ascii.nat_of_ascii c in
  ((48 <=? n) && (n <=? 57) || (65 <=? n) && (n <=? 90) || (97 <=? n) && (n <=? 122))%nat.

Definition is_ascii_alphabetic (c : Ascii.ascii) : bool :=
  let n := Ascii.nat_of_ascii c in ((65 <=? n) && (n <=? 90) || (97 <=? n) && (n <=? 122))%nat.

Fixpoint string_forall (f : Ascii.ascii -> bool) (s : string) : bool :=
  match s with EmptyString => true | String c s => f c && string_forall f s end.

Definition contains_char (c : Ascii.ascii) (s : string) : bool :=
  negb (string_forall (fun c' => negb (Ascii.eqb c c')) s).

(** [s.contains(pat)] for a string pattern. *)
Fixpoint contains_str (pat s : string) : bool :=
  String.prefix pat s || match s with EmptyString => false | String _ s => contains_str pat s end.

(** ** Parts *)

(** [s.strip_prefix(pre)]. *)
Fixpoint strip_prefix (pre s : string) : option string :=
  match pre, s with
  | EmptyString, s => Some s
  | String a pre, String b s => if Ascii.eqb a b then strip_prefix pre s else None
  | String _ _, EmptyString => None
  end.

(** [s.strip_suffix(suf)]. *)
Fixpoint strip_suffix (suf s : string) : option string :=
  if bool_decide (s = suf) then Some EmptyString
  else match s with
       | EmptyString => None
       | String a s => String a <$> strip_suffix suf s
       end.

Lemma strip_suffix_eq suf s :
  strip_suffix suf s = if bool_decide (s = suf) then Some EmptyString
    else match s with EmptyString => None | String a s => String a <$> strip_suffix suf s end.
Proof. by destruct s. Qed.

Lemma string_length_app s s' : String.length (s +:+ s') = (String.length s + String.length s')%nat.
Proof. induction s as [|a s IH]; simpl; [done|]. f_equal. apply IH. Qed.

Lemma strip_suffix_app suf s : strip_suffix suf (s +:+ suf) = Some s.
Proof.
  induction s as [|a s IH]; rewrite strip_suffix_eq.
  - by rewrite bool_decide_eq_true_2.
  - rewrite bool_decide_eq_false_2; [simpl; by rewrite IH|]. intros Heq.
    apply (f_equal String.length) in Heq. simpl in Heq. rewrite string_length_app in Heq. lia.
Qed.

(** [s.split(c)]: at least one part. *)
Fixpoint split (c : ascii) (s : string) : list string :=
  match s with
  | EmptyString => [EmptyString]
  | String a s =>
      if Ascii.eqb a c then EmptyString :: split c s
      else match split c s with
           | p :: l => String a p :: l
           | [] => [String a EmptyString]
           end
  end.

(** [s.split_once(c)]. *)
Fixpoint split_once (c : ascii) (s : string) : option (string * string) :=
  match s with
  | EmptyString => None
  | String a s =>
      if Ascii.eqb a c then Some (EmptyString, s)
      else (fun p => (String a p.1, p.2)) <$> split_once c s
  end.

(** [s.lines()]: a line ends before its newline, and before a carriage return in
    front of it; nothing follows the last newline. *)
Definition newline : ascii := ascii_of_nat 10.
Definition line_end (l : string) : string :=
  default l (strip_suffix (String (ascii_of_nat 13) EmptyString) l).

Fixpoint lines_of (l : list string) : list string :=
  match l with
  | [] | [EmptyString] => []
  | [x] => [x]
  | x :: l => line_end x :: lines_of l
  end.

Definition lines (s : string) : list string := lines_of (split newline s).

Definition to_ascii_lowercase (s : string) : string :=
  String.string_of_list_ascii ((fun a => let n := nat_of_ascii a in
    if (65 <=? n)%nat && (n <=? 90)%nat then ascii_of_nat (n + 32) else a) <$> String.list_ascii_of_string s).

Definition to_ascii_uppercase (s : string) : string :=
  String.string_of_list_ascii ((fun a => let n := nat_of_ascii a in
    if (97 <=? n)%nat && (n <=? 122)%nat then ascii_of_nat (n - 32) else a) <$> String.list_ascii_of_string s).

(** [s.split_at(n)], where [n] is at most the length. *)
Fixpoint split_at (n : nat) (s : string) : string * string :=
  match n, s with
  | S n, String a s => let '(l, r) := split_at n s in (String a l, r)
  | _, _ => (EmptyString, s)
  end.

(** ** White space *)

(** The characters [char::is_whitespace] accepts, as the one, two or three bytes
    of their encoding. *)
Definition space1 (a : ascii) : bool :=
  let n := nat_of_ascii a in ((9 <=? n) && (n <=? 13) || (n =? 32))%nat.
Definition space2 (a b : ascii) : bool :=
  let '(m, n) := (nat_of_ascii a, nat_of_ascii b) in ((m =? 194) && ((n =? 133) || (n =? 160)))%nat.
Definition space3 (a b c : ascii) : bool :=
  let '(m, n, k) := (nat_of_ascii a, nat_of_ascii b, nat_of_ascii c) in
  ((m =? 225) && (n =? 154) && (k =? 128) ||
   (m =? 226) && (n =? 128) && ((128 <=? k) && (k <=? 138) || (k =? 168) || (k =? 169) || (k =? 175)) ||
   (m =? 226) && (n =? 129) && (k =? 159) ||
   (m =? 227) && (n =? 128) && (k =? 128))%nat.

Fixpoint trim_start (s : list ascii) : list ascii :=
  match s with
  | a :: s1 =>
      if space1 a then trim_start s1
      else match s1 with
           | b :: s2 =>
               if space2 a b then trim_start s2
               else match s2 with
                    | c :: s3 => if space3 a b c then trim_start s3 else s
                    | [] => s
                    end
           | [] => s
           end
  | [] => s
  end.

(** The same on the bytes in reverse. *)
Fixpoint trim_back (s : list ascii) : list ascii :=
  match s with
  | a :: s1 =>
      if space1 a then trim_back s1
      else match s1 with
           | b :: s2 =>
               if space2 b a then trim_back s2
               else match s2 with
                    | c :: s3 => if space3 c b a then trim_back s3 else s
                    | [] => s
                    end
           | [] => s
           end
  | [] => s
  end.

(** [s.trim()]. *)
Definition trim (s : string) : string :=
  String.string_of_list_ascii (reverse (trim_back (reverse (trim_start (String.list_ascii_of_string s))))).

(** ** UTF-8 *)

(** What may follow in a UTF-8 text: the number of bytes a character still
    needs, and the range of the first of them. *)
Definition utf8_step (need : nat * Z * Z) (b : Z) : option (nat * Z * Z) :=
  let '(n, lo, hi) := need in
  match n with
  | O =>
      if b <? 128 then Some (0%nat, 0, 0)
      else if (194 <=? b) && (b <=? 223) then Some (1%nat, 128, 191)
      else if b =? 224 then Some (2%nat, 160, 191)
      else if b =? 237 then Some (2%nat, 128, 159)
      else if (225 <=? b) && (b <=? 239) then Some (2%nat, 128, 191)
      else if b =? 240 then Some (3%nat, 144, 191)
      else if (241 <=? b) && (b <=? 243) then Some (3%nat, 128, 191)
      else if b =? 244 then Some (3%nat, 128, 143)
      else None
  | S n => if (lo <=? b) && (b <=? hi) then Some (n, 128, 191) else None
  end.

Fixpoint utf8_from (need : nat * Z * Z) (s : string) : bool :=
  match s with
  | EmptyString => Nat.eqb need.1.1 0
  | String a s =>
      match utf8_step need (Z.of_nat (nat_of_ascii a)) with
      | Some need => utf8_from need s
      | None => false
      end
  end.

(** [OsString::into_string] succeeds. *)
Definition is_utf8 (s : string) : bool := utf8_from (0%nat, 0, 0) s.

(** ** Numbers *)

Definition digit (c : Ascii.ascii) : option Z :=
  let n := Z.of_nat (Ascii.nat_of_ascii c) in
  if (48 <=? n) && (n <=? 57) then Some (n - 48) else None.

Fixpoint digits_value (s : string) (acc : Z) : option Z :=
  match s with
  | EmptyString => Some acc
  | String c s => match digit c with Some d => digits_value s (acc * 10 + d) | None => None end
  end.

(** [s.parse()] as an integer type with this range: an optional sign, [-] only
    if the type has negative numbers, and at least one digit; a number out of the
    range is refused. *)
Definition parse_int (lo hi : Z) (s : string) : option Z :=
  let checked z := if (lo <=? z) && (z <=? hi) then Some z else None in
  match s with
  | EmptyString => None
  | String c rest =>
      if (Ascii.eqb c "-"%char && (lo <? 0)) || Ascii.eqb c "+"%char then
        match rest with
        | EmptyString => None
        | _ => match digits_value rest 0 with
               | Some v => checked (if Ascii.eqb c "-"%char then - v else v)
               | None => None
               end
        end
      else match digits_value s 0 with Some v => checked v | None => None end
  end.

Definition parse_i64 : string -> option Z := parse_int (- 2 ^ 63) (2 ^ 63 - 1).
Definition parse_u64 : string -> option Z := parse_int 0 u64_max.
Definition parse_i32 : string -> option Z := parse_int i32_min i32_max.

Lemma parse_int_range lo hi s z : parse_int lo hi s = Some z -> lo <= z <= hi.
Proof.
  assert (Hc : forall v, (if (lo <=? v) && (v <=? hi) then Some v else None) = Some z -> lo <= z <= hi).
  { intros v. destruct (Z.leb_spec lo v), (Z.leb_spec v hi); simpl; try done. intros [= <-]. lia. }
  unfold parse_int. destruct s as [|c rest]; [done|]. destruct (_ || _).
  - destruct rest; [done|]. destruct (digits_value _ 0); [apply Hc|done].
  - destruct (digits_value _ 0); [apply Hc|done].
Qed.

Lemma digit_pretty n : (n < 10)%N -> digit (pretty_N_char n) = Some (Z.of_N n).
Proof.
  intros Hn. destruct n as [|p]; [done|].
  repeat (destruct p as [p|p|]; try (vm_compute; reflexivity); try lia).
Qed.

Lemma digits_value_pretty (n : N) (s : string) :
  digits_value (pretty_N_go n s) 0 = digits_value s (Z.of_N n).
Proof.
  revert s. induction n as [n IH] using (well_founded_induction N.lt_wf_0). intros s.
  destruct (decide (n = 0%N)) as [->|Hn]; [by rewrite pretty_N_go_0|].
  rewrite pretty_N_go_step by lia. rewrite IH by (apply N.div_lt; lia). simpl.
  rewrite digit_pretty by (apply N.mod_lt; lia).
  f_equal. rewrite N2Z.inj_div, N2Z.inj_mod. pose proof (Z.div_mod (Z.of_N n) 10). lia.
Qed.

Lemma pretty_N_go_digits n s c r :
  pretty_N_go n s = String c r -> (0 < n)%N -> digit c <> None.
Proof.
  revert s. induction n as [n IH] using (well_founded_induction N.lt_wf_0). intros s Hs Hn.
  rewrite pretty_N_go_step in Hs by lia.
  destruct (decide (n `div` 10 = 0)%N) as [E|E].
  - rewrite E, pretty_N_go_0 in Hs. injection Hs as <- _.
    rewrite digit_pretty by (apply N.mod_lt; lia). done.
  - apply (IH (n `div` 10)%N (N.div_lt n 10 Hn eq_refl) _ Hs). by apply N.neq_0_lt_0.
Qed.

(** A printed number in the range parses back to itself. *)
Lemma parse_int_pretty lo hi z : lo <= z <= hi -> parse_int lo hi (pretty z) = Some z.
Proof.
  intros Hz. assert (Hc : forall v, v = z -> (if (lo <=? v) && (v <=? hi) then Some v else None) = Some z)
    by (intros v ->; by rewrite (proj2 (Z.leb_le _ _)), (proj2 (Z.leb_le _ _)) by lia).
  destruct z as [|p|p].
  - change (pretty 0) with "0"%string. unfold parse_int. simpl andb. cbv iota beta. simpl orb. by apply Hc.
  - change (pretty (Z.pos p)) with (pretty_N_go (N.pos p) "").
    unfold parse_int. pose proof (digits_value_pretty (N.pos p) "") as Hv.
    destruct (pretty_N_go (N.pos p) "") as [|c r] eqn:Ep.
    { by rewrite pretty_N_go_step in Ep by done. }
    pose proof (pretty_N_go_digits _ _ _ _ Ep eq_refl) as Hd.
    destruct (Ascii.eqb_spec c "-"%char) as [->|]; [done|].
    destruct (Ascii.eqb_spec c "+"%char) as [->|]; [done|]. simpl orb. cbv iota.
    rewrite Hv. by apply Hc.
  - change (pretty (Z.neg p)) with (String "-" (pretty_N_go (N.pos p) "")).
    unfold parse_int. rewrite (proj2 (Z.ltb_lt lo 0)) by lia. simpl orb. cbv iota.
    pose proof (digits_value_pretty (N.pos p) "") as Hv.
    destruct (pretty_N_go (N.pos p) "") as [|c r] eqn:Ep.
    { by rewrite pretty_N_go_step in Ep by done. }
    rewrite Hv. by apply Hc.
Qed.

Lemma parse_i64_pretty z : - 2 ^ 63 <= z < 2 ^ 63 -> parse_i64 (pretty z) = Some z.
Proof. intros. apply parse_int_pretty. lia. Qed.
Lemma parse_u64_pretty z : is_u64 z -> parse_u64 (pretty z) = Some z.
Proof. intros. by apply parse_int_pretty. Qed.

(** ** Lines of a text *)

Lemma string_forall_app f s s' : string_forall f (s +:+ s') = string_forall f s && string_forall f s'.
Proof. induction s as [|a s IH]; [done|]. simpl. by rewrite <-andb_assoc, <-IH. Qed.

Lemma string_forall_impl (f g : ascii -> bool) s :
  (forall c, f c = true -> g c = true) -> string_forall f s = true -> string_forall g s = true.
Proof.
  intros Hfg. induction s as [|a s IH]; [done|]. simpl. rewrite !andb_true_iff. naive_solver.
Qed.

Lemma string_app_assoc s1 s2 s3 : s1 +:+ (s2 +:+ s3) = (s1 +:+ s2) +:+ s3.
Proof. induction s1 as [|a s1 IH]; [done|]. cbn. apply (f_equal (String a)), IH. Qed.

Lemma string_app_nil s : s +:+ EmptyString = s.
Proof. induction s as [|a s IH]; [done|]. cbn. apply (f_equal (String a)), IH. Qed.

Lemma length_bytes s : length (String.list_ascii_of_string s) = String.length s.
Proof. induction s as [|a s IH]; [done|]. simpl. by rewrite IH. Qed.

Lemma string_of_app s b :
  String.string_of_list_ascii (String.list_ascii_of_string s ++ b) = s +:+ String.string_of_list_ascii b.
Proof. induction s as [|a s IH]; [done|]. simpl. by rewrite IH. Qed.

Definition lacks (c : ascii) (s : string) : bool := string_forall (fun c' => negb (Ascii.eqb c' c)) s.

Lemma split_lacks c s : lacks c s = true -> split c s = [s].
Proof.
  unfold lacks. induction s as [|a s IH]; [done|]. simpl. intros [Ha Hs]%andb_true_iff.
  apply negb_true_iff in Ha. by rewrite Ha, IH.
Qed.

Lemma split_app c s s' : lacks c s = true -> split c (s +:+ String c s') = s :: split c s'.
Proof.
  unfold lacks. induction s as [|a s IH]; simpl.
  - intros _. by rewrite Ascii.eqb_refl.
  - intros [Ha Hs]%andb_true_iff. apply negb_true_iff in Ha. rewrite Ha.
    specialize (IH Hs). simpl in IH. by rewrite IH.
Qed.

Lemma split_not_nil c s : split c s <> [].
Proof. destruct s as [|a s]; [done|]. simpl. destruct (Ascii.eqb a c); [done|]. by destruct (split c s). Qed.

Lemma line_end_lacks s : lacks (ascii_of_nat 13) s = true -> line_end s = s.
Proof.
  intros Hs. unfold line_end. replace (strip_suffix _ s) with (@None string); [done|]. symmetry.
  revert Hs. unfold lacks. induction s as [|a s IH]; [done|]. cbn [string_forall].
  intros [Ha Hs]%andb_true_iff. rewrite strip_suffix_eq, bool_decide_eq_false_2.
  - by rewrite IH.
  - intros [= -> ->]. done.
Qed.

(** The first line of a text, when it has no line break inside. *)
Lemma lines_app s s' : lacks newline s = true -> lacks (ascii_of_nat 13) s = true ->
  lines (s +:+ String newline s') = s :: lines s'.
Proof.
  intros Hn Hr. unfold lines. rewrite split_app by done.
  pose proof (split_not_nil newline s') as Hs. destruct (split newline s') as [|y l]; [done|].
  assert (E : lines_of (s :: y :: l) = line_end s :: lines_of (y :: l)) by (by destruct s).
  by rewrite E, line_end_lacks.
Qed.

Definition is_digit (c : ascii) : bool := bool_decide (is_Some (digit c)).

Lemma pretty_N_go_forall n s : string_forall is_digit s = true -> string_forall is_digit (pretty_N_go n s) = true.
Proof.
  revert s. induction n as [n IH] using (well_founded_induction N.lt_wf_0). intros s Hs.
  destruct (decide (n = 0%N)) as [->|Hn]; [by rewrite pretty_N_go_0|].
  rewrite pretty_N_go_step by lia. apply IH; [apply N.div_lt; lia|]. simpl. rewrite Hs, andb_true_r.
  unfold is_digit. rewrite digit_pretty by (apply N.mod_lt; lia). by apply bool_decide_eq_true_2.
Qed.

Lemma pretty_digits z : 0 <= z -> string_forall is_digit (pretty z) = true.
Proof.
  intros Hz. destruct z as [|p|p]; [done| |lia].
  change (pretty (Z.pos p)) with (pretty_N_go (N.pos p) ""). by apply pretty_N_go_forall.
Qed.

Lemma lacks_digits c s : is_digit c = false -> string_forall is_digit s = true -> lacks c s = true.
Proof.
  intros Hc. apply string_forall_impl. intros a Ha. destruct (Ascii.eqb_spec a c) as [->|]; [congruence|done].
Qed.

Lemma pretty_N_go_length (k : nat) n s : (n < 10 ^ N.of_nat k)%N ->
  (String.length (pretty_N_go n s) <= k + String.length s)%nat.
Proof.
  revert n s. induction k as [|k IH]; intros n s Hn.
  - assert (n = 0%N) as -> by lia. by rewrite pretty_N_go_0.
  - destruct (decide (n = 0%N)) as [->|]; [rewrite pretty_N_go_0; lia|].
    rewrite pretty_N_go_step by lia. etrans; [apply IH|simpl; lia].
    apply N.Div0.div_lt_upper_bound. rewrite Nat2N.inj_succ, N.pow_succ_r' in Hn. lia.
Qed.

(** A number of 64 bits has at most 20 digits. *)
Lemma pretty_length z : is_u64 z -> (String.length (pretty z) <= 20)%nat.
Proof.
  intros Hz. destruct z as [|p|p]; [vm_compute; lia| |width].
  change (pretty (Z.pos p)) with (pretty_N_go (N.pos p) "").
  etrans; [apply (pretty_N_go_length 20)|cbn [String.length]; lia].
  replace (10 ^ N.of_nat 20)%N with 100000000000000000000%N by reflexivity. width.
Qed.

(** ASCII text is UTF-8, and so is text after it. *)
Definition is_ascii (c : ascii) : bool := (nat_of_ascii c <? 128)%nat.

Lemma is_utf8_app s s' : string_forall is_ascii s = true -> is_utf8 (s +:+ s') = is_utf8 s'.
Proof.
  unfold is_utf8. induction s as [|a s IH]; [done|]. simpl. intros [Ha Hs]%andb_true_iff.
  unfold is_ascii in Ha. apply Nat.ltb_lt in Ha. rewrite (proj2 (Z.ltb_lt _ _)) by lia. by apply IH.
Qed.

Lemma ascii_digits s : string_forall is_digit s = true -> string_forall is_ascii s = true.
Proof.
  apply string_forall_impl. intros c Hc%bool_decide_eq_true. unfold digit in Hc. unfold is_ascii.
  apply Nat.ltb_lt. destruct (Z.leb_spec (Z.of_nat (nat_of_ascii c)) 57); [lia|].
  by rewrite andb_false_r in Hc; destruct Hc.
Qed.
