(* ===== verification/Types.v ===== *)
(** * The domain types of [common/src/apis/types.rs] and [apis/executor.rs]

    Strings and [Bytes] are [string]s (sequences of bytes), a [DateTime<Utc>]
    and a [Duration] are [Z] (nanoseconds), a [u32], [u64] or [i32] is a [Z],
    a [HashMap] or [BTreeMap] is a [gmap], a [HashSet] a [gset].  A [TaskPtr]
    is the task itself: no code writes through one, [Session::update_task]
    replaces it. *)
From Stdlib Require Import Ascii.
From S2P Require Import Prelude Text.

(** ** Enumerations *)

Inductive ApplicationState := AppEnabled | AppDisabled.

Inductive Shim := ShimHost | ShimWasm | ShimCri.

Inductive SessionState := SsnOpen | SsnClosed | SsnSuspending | SsnSuspended.

Inductive TaskState := TaskPending | TaskRunning | TaskSucceed | TaskFailed | TaskCancelled.

Inductive Signal := SigInterrupt | SigSuspend.

Inductive ExecutorState :=
  | ExecUnknown
  | ExecVoid
  | ExecIdle
  | ExecBinding
  | ExecBound
  | ExecUnbinding
  | ExecReleasing
  | ExecReleased.

Inductive NodeState := NodeUnknown | NodeReady | NodeNotReady.

#[export] Instance ApplicationState_eq_dec : EqDecision ApplicationState.
Proof. solve_decision. Defined.
#[export] Instance Shim_eq_dec : EqDecision Shim.
Proof. solve_decision. Defined.
#[export] Instance SessionState_eq_dec : EqDecision SessionState.
Proof. solve_decision. Defined.
#[export] Instance TaskState_eq_dec : EqDecision TaskState.
Proof. solve_decision. Defined.
#[export] Instance Signal_eq_dec : EqDecision Signal.
Proof. solve_decision. Defined.
#[export] Instance ExecutorState_eq_dec : EqDecision ExecutorState.
Proof. solve_decision. Defined.
#[export] Instance NodeState_eq_dec : EqDecision NodeState.
Proof. solve_decision. Defined.

(** The states that key an index are countable. *)
#[export] Instance SessionState_countable : Countable SessionState.
Proof.
  refine (inj_countable'
    (fun s => match s with
      | SsnOpen => 0 | SsnClosed => 1 | SsnSuspending => 2 | SsnSuspended => 3 end)
    (fun n => match n with
      | 0 => SsnOpen | 1 => SsnClosed | 2 => SsnSuspending | _ => SsnSuspended end) _).
  by intros [].
Defined.

#[export] Instance TaskState_countable : Countable TaskState.
Proof.
  refine (inj_countable'
    (fun s => match s with
      | TaskPending => 0 | TaskRunning => 1 | TaskSucceed => 2 | TaskFailed => 3
      | TaskCancelled => 4 end)
    (fun n => match n with
      | 0 => TaskPending | 1 => TaskRunning | 2 => TaskSucceed | 3 => TaskFailed
      | _ => TaskCancelled end) _).
  by intros [].
Defined.

#[export] Instance ExecutorState_countable : Countable ExecutorState.
Proof.
  refine (inj_countable'
    (fun s => match s with
      | ExecUnknown => 0 | ExecVoid => 1 | ExecIdle => 2 | ExecBinding => 3
      | ExecBound => 4 | ExecUnbinding => 5 | ExecReleasing => 6 | ExecReleased => 7 end)
    (fun n => match n with
      | 0 => ExecUnknown | 1 => ExecVoid | 2 => ExecIdle | 3 => ExecBinding
      | 4 => ExecBound | 5 => ExecUnbinding | 6 => ExecReleasing | _ => ExecReleased end) _).
  by intros [].
Defined.

Definition is_terminal (s : TaskState) : bool :=
  match s with TaskSucceed | TaskFailed | TaskCancelled => true | _ => false end.

(** ** Constants *)

Definition BIND_RESULT_OK : Z := 0.
Definition SESSION_EVENT_TASK_ID : Z := 0.
Definition SESSION_BIND_FAILED : Z := 1001.
Definition SESSION_RETRY_LIMIT_REACHED : Z := 1002.

(** ** Records *)

Record ResourceRequirement := mkRR { rr_cpu : Z; rr_memory : Z; rr_gpu : Z }.

#[export] Instance ResourceRequirement_eq_dec : EqDecision ResourceRequirement.
Proof. solve_decision. Defined.

Record Event := mkEvent {
  ev_code : Z;
  ev_message : option string;
  ev_creation_time : Z
}.

Record EventOwner := mkEventOwner { eo_task_id : Z; eo_session_id : string }.

(** [EventOwner::session]. *)
Definition session_owner (session_id : string) : EventOwner :=
  mkEventOwner SESSION_EVENT_TASK_ID session_id.

Record FlameResult := mkFlameResult { fr_return_code : Z; fr_message : option string }.

Record TaskResult := mkTaskResult {
  tr_state : TaskState;
  tr_output : option string;
  tr_message : option string
}.

Record ApplicationSchema := mkSchema {
  as_input : option string;
  as_output : option string;
  as_common_data : option string
}.

Record ApplicationAttributes := mkAppAttr {
  aa_shim : Shim;
  aa_image : option string;
  aa_description : option string;
  aa_labels : list string;
  aa_command : option string;
  aa_arguments : list string;
  aa_environments : gmap string string;
  aa_working_directory : option string;
  aa_max_instances : Z;
  aa_delay_release : Z;
  aa_schema : option ApplicationSchema;
  aa_url : option string;
  aa_installer : option string
}.

Record Application := mkApp {
  app_name : string;
  app_version : Z;
  app_state : ApplicationState;
  app_creation_time : Z;
  app_shim : Shim;
  app_image : option string;
  app_description : option string;
  app_labels : list string;
  app_command : option string;
  app_arguments : list string;
  app_environments : gmap string string;
  app_working_directory : option string;
  app_max_instances : Z;
  app_delay_release : Z;
  app_schema : option ApplicationSchema;
  app_url : option string;
  app_installer : option string
}.

Record SessionAttributes := mkSsnAttr {
  sa_id : string;
  sa_application : string;
  sa_common_data : option string;
  sa_tokens : gmap string string;
  sa_min_instances : Z;
  sa_max_instances : option Z;
  sa_batch_size : Z;
  sa_priority : Z;
  sa_resreq : option ResourceRequirement
}.

Record Task := mkTask {
  task_id : Z;
  task_ssn_id : string;
  task_version : Z;
  task_input : option string;
  task_output : option string;
  task_affinity : gset string;
  task_creation_time : Z;
  task_completion_time : option Z;
  task_events : list Event;
  task_state : TaskState
}.

Record TaskOptions := mkTaskOptions { to_affinity : gset string }.

Record TaskGID := mkGID { gid_ssn_id : string; gid_task_id : Z }.

Definition is_completed (t : Task) : bool := is_terminal (task_state t).

Definition gid (t : Task) : TaskGID := mkGID (task_ssn_id t) (task_id t).

Record Session := mkSession {
  ssn_id : string;
  ssn_application : string;
  ssn_version : Z;
  ssn_common_data : option string;
  ssn_tokens : gmap string string;
  ssn_tasks : gmap Z Task;
  ssn_tasks_index : gmap TaskState (gmap Z Task);
  ssn_creation_time : Z;
  ssn_completion_time : option Z;
  ssn_events : list Event;
  ssn_state : SessionState;
  ssn_min_instances : Z;
  ssn_max_instances : option Z;
  ssn_batch_size : Z;
  ssn_priority : Z;
  ssn_resreq : option ResourceRequirement;
  ssn_retry_count : Z
}.

(** [NodeInfo] of [types.rs], the platform of a node. *)
Record Platform := mkPlatform { pf_arch : string; pf_os : string }.

Record Node := mkNode {
  node_name : string;
  node_capacity : ResourceRequirement;
  node_allocatable : ResourceRequirement;
  node_info : Platform;
  node_state : NodeState;
  node_shims : list Shim
}.

Record Executor := mkExecutor {
  ex_id : string;
  ex_node : string;
  ex_resreq : ResourceRequirement;
  ex_shim : Shim;
  ex_application : string;
  ex_task_id : option Z;
  ex_ssn_id : option string;
  ex_attributes : gset string;
  ex_creation_time : Z;
  ex_latest_updated_timestamp : Z;
  ex_state : ExecutorState;
  ex_signal : option Signal
}.

(** ** Field updates *)

Definition session_with_state (st : SessionState) (s : Session) : Session :=
  mkSession (ssn_id s) (ssn_application s) (ssn_version s) (ssn_common_data s) (ssn_tokens s)
    (ssn_tasks s) (ssn_tasks_index s) (ssn_creation_time s) (ssn_completion_time s)
    (ssn_events s) st (ssn_min_instances s) (ssn_max_instances s) (ssn_batch_size s)
    (ssn_priority s) (ssn_resreq s) (ssn_retry_count s).

Definition session_with_tasks (tasks : gmap Z Task) (index : gmap TaskState (gmap Z Task))
    (s : Session) : Session :=
  mkSession (ssn_id s) (ssn_application s) (ssn_version s) (ssn_common_data s) (ssn_tokens s)
    tasks index (ssn_creation_time s) (ssn_completion_time s)
    (ssn_events s) (ssn_state s) (ssn_min_instances s) (ssn_max_instances s) (ssn_batch_size s)
    (ssn_priority s) (ssn_resreq s) (ssn_retry_count s).

Definition session_with_events (evs : list Event) (s : Session) : Session :=
  mkSession (ssn_id s) (ssn_application s) (ssn_version s) (ssn_common_data s) (ssn_tokens s)
    (ssn_tasks s) (ssn_tasks_index s) (ssn_creation_time s) (ssn_completion_time s)
    evs (ssn_state s) (ssn_min_instances s) (ssn_max_instances s) (ssn_batch_size s)
    (ssn_priority s) (ssn_resreq s) (ssn_retry_count s).

Definition session_with_retry_count (n : Z) (s : Session) : Session :=
  mkSession (ssn_id s) (ssn_application s) (ssn_version s) (ssn_common_data s) (ssn_tokens s)
    (ssn_tasks s) (ssn_tasks_index s) (ssn_creation_time s) (ssn_completion_time s)
    (ssn_events s) (ssn_state s) (ssn_min_instances s) (ssn_max_instances s) (ssn_batch_size s)
    (ssn_priority s) (ssn_resreq s) n.

(** [ssn.status.state = st; ssn.completion_time = ct; ssn.version = v]. *)
Definition session_with_completion (st : SessionState) (ct : option Z) (v : Z) (s : Session)
    : Session :=
  mkSession (ssn_id s) (ssn_application s) v (ssn_common_data s) (ssn_tokens s)
    (ssn_tasks s) (ssn_tasks_index s) (ssn_creation_time s) ct
    (ssn_events s) st (ssn_min_instances s) (ssn_max_instances s) (ssn_batch_size s)
    (ssn_priority s) (ssn_resreq s) (ssn_retry_count s).

Definition task_with_state (st : TaskState) (v : Z) (t : Task) : Task :=
  mkTask (task_id t) (task_ssn_id t) v (task_input t) (task_output t) (task_affinity t)
    (task_creation_time t) (task_completion_time t) (task_events t) st.

Definition task_with_completion (st : TaskState) (v : Z) (ct : option Z) (out : option string)
    (t : Task) : Task :=
  mkTask (task_id t) (task_ssn_id t) v (task_input t) out (task_affinity t)
    (task_creation_time t) ct (task_events t) st.

Definition task_with_events (evs : list Event) (t : Task) : Task :=
  mkTask (task_id t) (task_ssn_id t) (task_version t) (task_input t) (task_output t)
    (task_affinity t) (task_creation_time t) (task_completion_time t) evs (task_state t).

Definition executor_with_binding (task : option Z) (ssn : option string) (e : Executor)
    : Executor :=
  mkExecutor (ex_id e) (ex_node e) (ex_resreq e) (ex_shim e) (ex_application e) task ssn
    (ex_attributes e) (ex_creation_time e) (ex_latest_updated_timestamp e) (ex_state e)
    (ex_signal e).

Definition executor_with_signal (sig : option Signal) (e : Executor) : Executor :=
  mkExecutor (ex_id e) (ex_node e) (ex_resreq e) (ex_shim e) (ex_application e) (ex_task_id e)
    (ex_ssn_id e) (ex_attributes e) (ex_creation_time e) (ex_latest_updated_timestamp e)
    (ex_state e) sig.

Definition executor_with_attributes (attrs : gset string) (e : Executor) : Executor :=
  mkExecutor (ex_id e) (ex_node e) (ex_resreq e) (ex_shim e) (ex_application e) (ex_task_id e)
    (ex_ssn_id e) attrs (ex_creation_time e) (ex_latest_updated_timestamp e)
    (ex_state e) (ex_signal e).

Definition executor_with_state (st : ExecutorState) (e : Executor) : Executor :=
  mkExecutor (ex_id e) (ex_node e) (ex_resreq e) (ex_shim e) (ex_application e) (ex_task_id e)
    (ex_ssn_id e) (ex_attributes e) (ex_creation_time e) (ex_latest_updated_timestamp e)
    st (ex_signal e).

Definition executor_with_timestamp (now : Z) (e : Executor) : Executor :=
  mkExecutor (ex_id e) (ex_node e) (ex_resreq e) (ex_shim e) (ex_application e) (ex_task_id e)
    (ex_ssn_id e) (ex_attributes e) (ex_creation_time e) now (ex_state e) (ex_signal e).

Definition node_with_state (st : NodeState) (n : Node) : Node :=
  mkNode (node_name n) (node_capacity n) (node_allocatable n) (node_info n) st (node_shims n).

(** ** Executor methods *)

Definition is_interrupted (e : Executor) : bool := bool_decide (ex_signal e = Some SigInterrupt).

Definition is_unbinding (e : Executor) (ssn : string) : bool :=
  match ex_state e with
  | ExecUnbinding | ExecReleasing | ExecReleased => true
  | _ => negb (bool_decide (ex_ssn_id e = Some ssn))
  end.

(** [Executor::set_state]; the clock reading is an argument. *)
Definition set_state (st : ExecutorState) (now : Z) (e : Executor) : Executor :=
  let e := executor_with_state st e in
  let e := if decide (st = ExecIdle) then executor_with_signal None e else e in
  executor_with_timestamp now e.

(** ** Application names *)

Definition validate_application_name (name : string) : result unit :=
  if String.eqb name "" then Err EInvalidConfig
  else if (253 <? String.length name)%nat then Err EInvalidConfig
  else if contains_str ".." name || contains_char "/"%char name || contains_char "\"%char name
  then Err EInvalidConfig
  else if String.prefix "." name || String.prefix "-" name then Err EInvalidConfig
  else if negb (string_forall (fun c => is_ascii_alphanumeric c || Ascii.eqb c "-"%char
                                        || Ascii.eqb c "_"%char || Ascii.eqb c "."%char) name)
  then Err EInvalidConfig
  else Ok tt.
