(* ===== verification/Resource.v ===== *)
(** * [ResourceRequirement] arithmetic ([common/src/apis/types.rs])

    CPU and memory are [u64], the GPU count is [i32]; the operators wrap as
    those of the release build do. *)
From Stdlib Require Import Ascii.
From S2P Require Import Prelude Text Types.
Local Open Scope Z_scope.

(** [ResourceRequirement::default()]. *)
Definition rr_default : ResourceRequirement := mkRR 0 0 0.

(** [n as i32] of a [u32]. *)
Definition u32_as_i32 (n : Z) : Z := wrap_i32 n.

Definition mul (r : ResourceRequirement) (n : Z) : ResourceRequirement :=
  mkRR (wrap_u64 (rr_cpu r * n)) (wrap_u64 (rr_memory r * n))
       (wrap_i32 (rr_gpu r * u32_as_i32 n)).

Definition min (r other : ResourceRequirement) : ResourceRequirement :=
  mkRR (Z.min (rr_cpu r) (rr_cpu other)) (Z.min (rr_memory r) (rr_memory other))
       (Z.min (rr_gpu r) (rr_gpu other)).

Definition max (r other : ResourceRequirement) : ResourceRequirement :=
  mkRR (Z.max (rr_cpu r) (rr_cpu other)) (Z.max (rr_memory r) (rr_memory other))
       (Z.max (rr_gpu r) (rr_gpu other)).

Definition equal (r other : ResourceRequirement) : bool :=
  (rr_cpu r =? rr_cpu other) && (rr_memory r =? rr_memory other) && (rr_gpu r =? rr_gpu other).

Definition less_equal (r other : ResourceRequirement) : bool :=
  (rr_cpu r <=? rr_cpu other) && (rr_memory r <=? rr_memory other)
  && (rr_gpu r <=? rr_gpu other).

Definition less (r other : ResourceRequirement) : bool :=
  (rr_cpu r <? rr_cpu other) && (rr_memory r <? rr_memory other) && (rr_gpu r <? rr_gpu other).

Definition great_equal (r other : ResourceRequirement) : bool :=
  (rr_cpu r >=? rr_cpu other) && (rr_memory r >=? rr_memory other)
  && (rr_gpu r >=? rr_gpu other).

Definition great (r other : ResourceRequirement) : bool :=
  (rr_cpu r >? rr_cpu other) && (rr_memory r >? rr_memory other) && (rr_gpu r >? rr_gpu other).

(** [self.add(other)], in place: the new value of [self]. *)
Definition add (r other : ResourceRequirement) : ResourceRequirement :=
  mkRR (wrap_u64 (rr_cpu r + rr_cpu other)) (wrap_u64 (rr_memory r + rr_memory other))
       (wrap_i32 (rr_gpu r + rr_gpu other)).

(** [self.sub(other)], in place: the new value of [self], or the error, which
    leaves [self] as it is. *)
Definition sub (r other : ResourceRequirement) : result ResourceRequirement :=
  if negb (great_equal r other) then Err EInvalidConfig
  else Ok (mkRR (wrap_u64 (rr_cpu r - rr_cpu other))
                (wrap_u64 (rr_memory r - rr_memory other))
                (wrap_i32 (rr_gpu r - rr_gpu other))).

(** ** Ranges *)

(** The field values a Rust [ResourceRequirement] can hold. *)
Definition rr_wf (r : ResourceRequirement) : Prop :=
  is_u64 (rr_cpu r) /\ is_u64 (rr_memory r) /\ is_i32 (rr_gpu r).

(** A request or a capacity: in range and with no negative GPU count. *)
Definition rr_nonneg (r : ResourceRequirement) : Prop := rr_wf r /\ 0 <= rr_gpu r.

(** [r + other] fits the fields. *)
Definition rr_fits (r other : ResourceRequirement) : Prop :=
  rr_cpu r + rr_cpu other <= u64_max /\ rr_memory r + rr_memory other <= u64_max
  /\ rr_gpu r + rr_gpu other <= i32_max.

(** Fieldwise order. *)
Definition rr_le (r other : ResourceRequirement) : Prop :=
  rr_cpu r <= rr_cpu other /\ rr_memory r <= rr_memory other /\ rr_gpu r <= rr_gpu other.

#[export] Instance rr_le_dec r other : Decision (rr_le r other).
Proof. unfold rr_le. apply _. Defined.

#[export] Instance rr_le_preorder : PreOrder rr_le.
Proof. split; [intros r|intros r1 r2 r3]; unfold rr_le; lia. Qed.

Lemma rr_eq r1 r2 :
  rr_cpu r1 = rr_cpu r2 -> rr_memory r1 = rr_memory r2 -> rr_gpu r1 = rr_gpu r2 -> r1 = r2.
Proof. destruct r1, r2; simpl; congruence. Qed.

Lemma great_equal_spec r other : great_equal r other = true <-> rr_le other r.
Proof. unfold great_equal, rr_le. rewrite !andb_true_iff, !Z.geb_le. tauto. Qed.

Lemma less_equal_spec r other : less_equal r other = true <-> rr_le r other.
Proof. unfold less_equal, rr_le. rewrite !andb_true_iff, !Z.leb_le. tauto. Qed.

Lemma equal_spec r other : equal r other = true <-> r = other.
Proof.
  unfold equal. rewrite !andb_true_iff, !Z.eqb_eq. split; [|by intros ->].
  intros [[??]?]. by apply rr_eq.
Qed.

Lemma rr_default_nonneg : rr_nonneg rr_default.
Proof. repeat split; simpl; width. Qed.

Lemma add_wf r other : rr_wf (add r other).
Proof. repeat split; simpl; apply wrap_u64_range || apply wrap_i32_range. Qed.

Lemma add_exact r other :
  rr_nonneg r -> rr_nonneg other -> rr_fits r other ->
  rr_cpu (add r other) = rr_cpu r + rr_cpu other /\
  rr_memory (add r other) = rr_memory r + rr_memory other /\
  rr_gpu (add r other) = rr_gpu r + rr_gpu other.
Proof.
  intros [(?&?&?) ?] [(?&?&?) ?] (?&?&?). simpl.
  repeat split; (rewrite wrap_u64_small || rewrite wrap_i32_small); width.
Qed.

Lemma add_nonneg r other :
  rr_nonneg r -> rr_nonneg other -> rr_fits r other -> rr_nonneg (add r other).
Proof.
  intros Hr Ho Hf. destruct (add_exact r other Hr Ho Hf) as (_ & _ & Hg).
  split; [apply add_wf|]. rewrite Hg. destruct Hr, Ho. lia.
Qed.

(** Subtraction is exact and never wraps: it fails exactly when a field of
    the subtrahend is larger. *)
Lemma sub_spec r other :
  rr_nonneg r -> rr_nonneg other ->
  if decide (rr_le other r)
  then sub r other = Ok (mkRR (rr_cpu r - rr_cpu other) (rr_memory r - rr_memory other)
                              (rr_gpu r - rr_gpu other))
  else sub r other = Err EInvalidConfig.
Proof.
  intros [(?&?&?) ?] [(?&?&?) ?]. unfold sub. case_decide as Hle.
  - apply great_equal_spec in Hle as Hge. rewrite Hge. simpl. destruct Hle as (?&?&?).
    f_equal. apply rr_eq; simpl; (rewrite wrap_u64_small || rewrite wrap_i32_small); width.
  - destruct (great_equal r other) eqn:Hge; [|done]. by apply great_equal_spec in Hge.
Qed.

(** Adding an amount and taking it back restores the value. *)
Lemma add_sub r other :
  rr_nonneg r -> rr_nonneg other -> rr_fits r other -> sub (add r other) other = Ok r.
Proof.
  intros Hr Ho Hf. destruct (add_exact r other Hr Ho Hf) as (Hc & Hm & Hg).
  pose proof (sub_spec (add r other) other (add_nonneg _ _ Hr Ho Hf) Ho) as Hs.
  destruct Hr as [(?&?&?) ?], Ho as [(?&?&?) ?].
  rewrite decide_True in Hs by (unfold rr_le; width).
  rewrite Hs. f_equal. apply rr_eq; simpl in *; lia.
Qed.

(** ** Totals *)

(** What a running total of requests holds: the exact sums, wrapped. *)
Definition rr_sum (l : list ResourceRequirement) : ResourceRequirement :=
  mkRR (wrap_u64 (Zsum rr_cpu l)) (wrap_u64 (Zsum rr_memory l)) (wrap_i32 (Zsum rr_gpu l)).

(** The exact sums stay below a capacity. *)
Definition total_le (l : list ResourceRequirement) (cap : ResourceRequirement) : Prop :=
  Zsum rr_cpu l <= rr_cpu cap /\ Zsum rr_memory l <= rr_memory cap /\ Zsum rr_gpu l <= rr_gpu cap.

#[export] Instance rr_sum_Permutation : Proper ((≡ₚ) ==> eq) rr_sum.
Proof. intros l1 l2 Hl. unfold rr_sum. by rewrite Hl. Qed.

#[export] Instance total_le_Permutation : Proper ((≡ₚ) ==> eq ==> iff) total_le.
Proof. intros l1 l2 Hl ? cap ->. unfold total_le. by rewrite Hl. Qed.

Lemma rr_sum_nil : rr_sum [] = rr_default.
Proof. done. Qed.

Lemma rr_sum_cons r l : add (rr_sum l) r = rr_sum (r :: l).
Proof.
  unfold rr_sum, add. simpl. rewrite !wrap_u64_add_l, wrap_i32_add_l.
  f_equal; f_equal; lia.
Qed.

Lemma Zsum_rr_nonneg l :
  Forall rr_nonneg l -> 0 <= Zsum rr_cpu l /\ 0 <= Zsum rr_memory l /\ 0 <= Zsum rr_gpu l.
Proof.
  induction 1 as [|r l [(?&?&?) ?] _ IH]; simpl; [done|]. width.
Qed.

(** A total below a capacity never wrapped. *)
Lemma rr_sum_exact l cap :
  Forall rr_nonneg l -> rr_wf cap -> total_le l cap ->
  rr_sum l = mkRR (Zsum rr_cpu l) (Zsum rr_memory l) (Zsum rr_gpu l).
Proof.
  intros Hl (?&?&?) (?&?&?). destruct (Zsum_rr_nonneg l Hl) as (?&?&?).
  unfold rr_sum. rewrite !wrap_u64_small, wrap_i32_small by width. done.
Qed.

(** ** Requirements as text

    [ResourceRequirement::parse], which the SDK has a copy of; the two read a
    memory size in different ways. *)

Definition requirement_in_range (r : ResourceRequirement) : Prop :=
  is_u64 (rr_cpu r) /\ is_u64 (rr_memory r) /\ is_i32 (rr_gpu r).

Section parse.
Context (parse_memory : string -> result Z).

(** One entry [key=value]. *)
Definition parse_entry (part : string) (r : ResourceRequirement) : result ResourceRequirement :=
  let part := trim part in
  if String.eqb part EmptyString then Err EInvalidConfig
  else
    kv ← ok_or (split_once "="%char part) EInvalidConfig;
    if contains_char "="%char kv.2 then Err EInvalidConfig
    else
      let key := to_ascii_lowercase (trim kv.1) in
      let value := trim kv.2 in
      if String.eqb value EmptyString then Err EInvalidConfig
      else if String.eqb key "cpu" then
        cpu ← ok_or (parse_u64 value) EInvalidConfig;
        Ok (mkRR cpu (rr_memory r) (rr_gpu r))
      else if String.eqb key "memory" || String.eqb key "mem" then
        memory ← parse_memory value;
        Ok (mkRR (rr_cpu r) memory (rr_gpu r))
      else if String.eqb key "gpu" then
        gpu ← ok_or (parse_i32 value) EInvalidConfig;
        Ok (mkRR (rr_cpu r) (rr_memory r) gpu)
      else Err EInvalidConfig.

Fixpoint parse_entries (parts : list string) (r : ResourceRequirement) : result ResourceRequirement :=
  match parts with
  | [] => Ok r
  | part :: parts => r ← parse_entry part r; parse_entries parts r
  end.

Definition parse_requirement (s : string) : result ResourceRequirement :=
  let s := trim s in
  if String.eqb s EmptyString then Err EInvalidConfig
  else parse_entries (split ","%char s) rr_default.

Hypothesis memory_range : forall s n, parse_memory s = Ok n -> is_u64 n.

Lemma parse_entry_range part r r' :
  requirement_in_range r -> parse_entry part r = Ok r' -> requirement_in_range r'.
Proof.
  intros (Hc & Hm & Hg). unfold parse_entry, mbind, result_bind.
  destruct (String.eqb _ _); [done|]. destruct (split_once _ _) as [[k v]|]; [|done]. simpl.
  destruct (contains_char _ _); [done|]. destruct (String.eqb _ _); [done|].
  destruct (String.eqb _ "cpu").
  { destruct (parse_u64 _) as [n|] eqn:Hn; [|done]. simpl. intros [= <-]. by apply parse_int_range in Hn. }
  destruct (_ || _).
  { destruct (parse_memory _) as [n| |] eqn:Hn; [|done|done]. intros [= <-]. by apply memory_range in Hn. }
  destruct (String.eqb _ "gpu"); [|done]. destruct (parse_i32 _) as [n|] eqn:Hn; [|done]. simpl.
  intros [= <-]. by apply parse_int_range in Hn.
Qed.

Lemma parse_entries_range parts r r' :
  requirement_in_range r -> parse_entries parts r = Ok r' -> requirement_in_range r'.
Proof.
  revert r. induction parts as [|p parts IH]; intros r Hr; simpl; [by intros [= <-]|]. unfold mbind, result_bind.
  destruct (parse_entry p r) as [r1| |] eqn:H1; [|done|done]. apply IH. by eapply parse_entry_range.
Qed.

Lemma parse_requirement_range s r : parse_requirement s = Ok r -> requirement_in_range r.
Proof.
  unfold parse_requirement. destruct (String.eqb _ _); [done|]. apply parse_entries_range. by vm_compute.
Qed.
End parse.
