(* ===== verification/Session.v ===== *)
(** * Sessions and their tasks ([common/src/apis/session.rs])

    A session keeps its tasks twice: by identifier in [tasks], and by state in
    [tasks_index], whose entries are ordered by identifier (a [BTreeMap]). *)
From S2P Require Import Prelude Types.
Local Open Scope Z_scope.

Definition is_closed (s : Session) : bool := bool_decide (ssn_state s = SsnClosed).
Definition is_open (s : Session) : bool := bool_decide (ssn_state s = SsnOpen).
Definition is_suspending (s : Session) : bool := bool_decide (ssn_state s = SsnSuspending).
Definition is_suspended (s : Session) : bool := bool_decide (ssn_state s = SsnSuspended).

Definition is_ready (retry_limits : Z) (s : Session) : bool := ssn_retry_count s <? retry_limits.

(** [self.tasks_index.entry(state).or_default()]. *)
Definition index_entry (st : TaskState) (idx : gmap TaskState (gmap Z Task))
    : gmap TaskState (gmap Z Task) :=
  match idx !! st with Some _ => idx | None => <[st := ∅]> idx end.

(** The three steps on the index: make the entry, remove the task from every
    entry, insert it in the entry of its state. *)
Definition index_move (t : Task) (idx : gmap TaskState (gmap Z Task))
    : gmap TaskState (gmap Z Task) :=
  let idx := index_entry (task_state t) idx in
  let idx := (fun m => delete (task_id t) m) <$> idx in
  alter (fun m => <[task_id t := t]> m) (task_state t) idx.

(** A task with a version no newer than the stored one is ignored. *)
Definition update_task (t : Task) (s : Session) : Session :=
  let stale := is_some_and (ssn_tasks s !! task_id t)
                 (fun old => task_version old >=? task_version t) in
  if stale then s
  else session_with_tasks (<[task_id t := t]> (ssn_tasks s)) (index_move t (ssn_tasks_index s)) s.

(** [btree.keys().next()]: the least key. *)
Definition btree_first {V} (m : gmap Z V) : option Z :=
  foldr (fun k acc => match acc with None => Some k | Some k' => Some (Z.min k k') end)
    None (map_to_list m).*1.

(** Remove the oldest pending task from the index; it stays in [tasks]. *)
Definition pop_pending_task (s : Session) : option Task * Session :=
  match ssn_tasks_index s !! TaskPending with
  | None => (None, s)
  | Some pending =>
      match btree_first pending with
      | None => (None, s)
      | Some id =>
          (pending !! id,
           session_with_tasks (ssn_tasks s)
             (<[TaskPending := delete id pending]> (ssn_tasks_index s)) s)
      end
  end.

Definition validate_spec (s : Session) (attr : SessionAttributes) : result unit :=
  if negb (bool_decide (ssn_application s = sa_application attr)) then Err EInvalidConfig
  else if negb (bool_decide (ssn_resreq s = sa_resreq attr)) then Err EInvalidConfig
  else if negb (ssn_min_instances s =? sa_min_instances attr) then Err EInvalidConfig
  else if negb (ssn_batch_size s =? sa_batch_size attr) then Err EInvalidConfig
  else if negb (bool_decide (ssn_max_instances s = sa_max_instances attr))
  then Err EInvalidConfig
  else if negb (ssn_priority s =? sa_priority attr) then Err EInvalidConfig
  else Ok tt.

(** ** The index invariant *)

Definition index_lookup (s : Session) (st : TaskState) (id : Z) : option Task :=
  ssn_tasks_index s !! st ≫= fun m => m !! id.

(** What the index says is true of [tasks], and every task that is not
    pending is indexed (a pending one is not, once it was popped for launch). *)
Record index_wf (s : Session) : Prop := {
  iw_key : forall id t, ssn_tasks s !! id = Some t -> task_id t = id;
  iw_sound : forall st id t, index_lookup s st id = Some t ->
    ssn_tasks s !! id = Some t /\ task_state t = st;
  iw_complete : forall id t, ssn_tasks s !! id = Some t -> task_state t <> TaskPending ->
    index_lookup s (task_state t) id = Some t
}.

(** ** Lemmas *)

Lemma index_move_lookup t idx st id :
  index_move t idx !! st ≫= (fun m => m !! id) =
  if decide (id = task_id t)
  then (if decide (st = task_state t) then Some t else None)
  else idx !! st ≫= fun m => m !! id.
Proof.
  unfold index_move, index_entry.
  set (idx1 := match idx !! task_state t with Some _ => idx | None => _ end).
  assert (Hid : forall st, idx1 !! st ≫= (fun m => m !! id) = idx !! st ≫= (fun m => m !! id)).
  { intros st'. unfold idx1. destruct (idx !! task_state t) eqn:E; [done|].
    destruct (decide (st' = task_state t)) as [->|].
    - by rewrite lookup_insert_eq, E.
    - by rewrite lookup_insert_ne. }
  assert (Hst : is_Some (idx1 !! task_state t)).
  { unfold idx1. destruct (idx !! task_state t) eqn:E; [by rewrite E|].
    rewrite lookup_insert_eq. eauto. }
  rewrite <-Hid. clear Hid. destruct (decide (st = task_state t)) as [->|Hne].
  - destruct Hst as [m Hm]. rewrite lookup_alter_eq, lookup_fmap, Hm. simpl.
    case_decide as Hk; [subst; by rewrite lookup_insert_eq|].
    by rewrite lookup_insert_ne, lookup_delete_ne by done.
  - rewrite lookup_alter_ne by done. rewrite lookup_fmap.
    destruct (idx1 !! st) as [m|]; simpl; [|by case_decide].
    case_decide as Hk; [subst; by rewrite lookup_delete_eq|].
    by rewrite lookup_delete_ne.
Qed.

Lemma btree_first_spec {V} (m : gmap Z V) :
  match btree_first m with
  | None => m = ∅
  | Some k => is_Some (m !! k) /\ forall k', is_Some (m !! k') -> k <= k'
  end.
Proof.
  unfold btree_first.
  assert (Hin : forall k, k ∈ (map_to_list m).*1 <-> is_Some (m !! k)).
  { intros k. rewrite list_elem_of_fmap. split.
    - intros ([? v] & -> & Hkv). apply elem_of_map_to_list in Hkv. eauto.
    - intros [v Hv]. exists (k, v). by rewrite elem_of_map_to_list. }
  assert (Hmin : match foldr (fun k acc => match acc with None => Some k
                     | Some k' => Some (Z.min k k') end) None (map_to_list m).*1 with
    | None => (map_to_list m).*1 = []
    | Some k => k ∈ (map_to_list m).*1 /\ forall k', k' ∈ (map_to_list m).*1 -> k <= k' end).
  { generalize ((map_to_list m).*1). clear. induction l as [|k l IH]; simpl; [done|].
    destruct (foldr _ None l) as [k0|].
    - destruct IH as [Hk0 IH]. split.
      + destruct (Z.min_spec k k0) as [[_ ->]|[_ ->]]; [left|by right].
      + intros k' [->|Hk']%elem_of_cons; [lia|]. specialize (IH k' Hk'). lia.
    - subst. split; [left|]. intros k' [->|?%elem_of_nil]%elem_of_cons; [lia|done]. }
  destruct (foldr _ None _) as [k|].
  - destruct Hmin as [Hk Hmin]. split; [by apply Hin|]. intros k' Hk'. by apply Hmin, Hin.
  - apply map_empty. intros k. apply eq_None_not_Some. rewrite <-Hin, Hmin. by intros ?%elem_of_nil.
Qed.

Lemma update_task_lookup t s id :
  ssn_tasks (update_task t s) !! id =
  if decide (id = task_id t)
  then (if is_some_and (ssn_tasks s !! id) (fun old => task_version old >=? task_version t)
        then ssn_tasks s !! id else Some t)
  else ssn_tasks s !! id.
Proof.
  unfold update_task. case_decide as Hid.
  - subst. destruct (is_some_and _ _); simpl; [done|]. by rewrite lookup_insert_eq.
  - destruct (is_some_and _ _); simpl; [done|]. by rewrite lookup_insert_ne.
Qed.

Lemma update_task_wf t s : index_wf s -> index_wf (update_task t s).
Proof.
  intros [Hkey Hsound Hcomp]. unfold update_task. destruct (is_some_and _ _); [done|].
  split; unfold index_lookup; simpl.
  - intros id t' Ht'. destruct (decide (id = task_id t)) as [->|].
    + rewrite lookup_insert_eq in Ht'. by simplify_eq.
    + rewrite lookup_insert_ne in Ht' by done. by apply Hkey.
  - intros st id t'. rewrite index_move_lookup. repeat case_decide; subst; intros; simplify_eq.
    + by rewrite lookup_insert_eq.
    + rewrite lookup_insert_ne by done. by apply Hsound.
  - intros id t' Ht' Hp. rewrite index_move_lookup. case_decide as Hid.
    + subst. rewrite lookup_insert_eq in Ht'. simplify_eq. by rewrite decide_True.
    + rewrite lookup_insert_ne in Ht' by done. by apply Hcomp.
Qed.

Lemma pop_pending_task_lookup s :
  index_wf s ->
  match pop_pending_task s with
  | (None, s') => s' = s /\ forall id, index_lookup s TaskPending id = None
  | (Some t, s') =>
      index_lookup s TaskPending (task_id t) = Some t /\
      (forall id t', index_lookup s TaskPending id = Some t' -> task_id t <= id) /\
      ssn_tasks s' = ssn_tasks s /\
      (forall st id, index_lookup s' st id =
        if decide (st = TaskPending /\ id = task_id t) then None else index_lookup s st id)
  end.
Proof.
  intros Hwf. unfold pop_pending_task, index_lookup.
  destruct (ssn_tasks_index s !! TaskPending) as [m|] eqn:Hm; simpl; [|done].
  pose proof (btree_first_spec m) as Hf. destruct (btree_first m) as [k|].
  - destruct Hf as [[t Ht] Hmin]. rewrite Ht.
    assert (Hk : task_id t = k).
    { assert (index_lookup s TaskPending k = Some t) as Hl by (unfold index_lookup; by rewrite Hm).
      apply (iw_sound s Hwf) in Hl as [Hl _]. by apply (iw_key s Hwf). }
    subst k. split_and!; [done| |done|].
    + intros id t' Ht'. apply Hmin. eauto.
    + intros st id. simpl. destruct (decide (st = TaskPending)) as [->|].
      * rewrite lookup_insert_eq, Hm. simpl. destruct (decide (id = task_id t)) as [->|].
        -- rewrite decide_True by done. by rewrite lookup_delete_eq.
        -- rewrite decide_False by tauto. by rewrite lookup_delete_ne.
      * rewrite lookup_insert_ne by done. by rewrite decide_False by tauto.
  - subst m. by split.
Qed.

Lemma pop_pending_task_wf s : index_wf s -> index_wf (pop_pending_task s).2.
Proof.
  intros Hwf. pose proof (pop_pending_task_lookup s Hwf) as Hp.
  destruct (pop_pending_task s) as [[t|] s']; simpl; [|by destruct Hp as [-> _]].
  destruct Hp as (_ & _ & Htasks & Hidx), Hwf as [Hkey Hsound Hcomp]. split; rewrite ?Htasks.
  - done.
  - intros st id t'. rewrite Hidx. case_decide; [done|]. apply Hsound.
  - intros id t' Ht' Hne. rewrite Hidx, decide_False by tauto. by apply Hcomp.
Qed.

(** ** Sequences of updates *)

(** What the storage does to the tasks of a session. *)
Inductive ssn_op := OpUpdate (t : Task) | OpPop.

Definition ssn_apply (op : ssn_op) (s : Session) : Session :=
  match op with OpUpdate t => update_task t s | OpPop => (pop_pending_task s).2 end.

Definition ssn_run (ops : list ssn_op) (s : Session) : Session :=
  foldl (fun s op => ssn_apply op s) s ops.

Lemma ssn_apply_wf op s : index_wf s -> index_wf (ssn_apply op s).
Proof. destruct op; [apply update_task_wf|apply pop_pending_task_wf]. Qed.

Lemma ssn_apply_version op s id t :
  index_wf s -> ssn_tasks s !! id = Some t ->
  exists t', ssn_tasks (ssn_apply op s) !! id = Some t' /\ task_version t <= task_version t'
             /\ (task_version t' = task_version t -> t' = t).
Proof.
  intros Hwf Ht. destruct op as [u|]; simpl.
  - rewrite update_task_lookup. case_decide as Hid; [|eauto with lia].
    rewrite Ht. simpl. destruct (Z.geb_spec (task_version t) (task_version u)).
    + eauto with lia.
    + exists u. split_and!; [done|lia|lia].
  - pose proof (pop_pending_task_lookup s Hwf) as Hp.
    destruct (pop_pending_task s) as [[u|] s']; simpl.
    + destruct Hp as (_ & _ & -> & _). eauto with lia.
    + destruct Hp as [-> _]. eauto with lia.
Qed.

Lemma ssn_run_version ops s id t :
  index_wf s -> ssn_tasks s !! id = Some t ->
  exists t', ssn_tasks (ssn_run ops s) !! id = Some t' /\ task_version t <= task_version t'
             /\ (task_version t' = task_version t -> t' = t).
Proof.
  revert s t. induction ops as [|op ops IH]; simpl; intros s t Hwf Ht; [eauto with lia|].
  destruct (ssn_apply_version op s id t Hwf Ht) as (t1 & Ht1 & Hv1 & He1).
  destruct (IH _ _ (ssn_apply_wf op s Hwf) Ht1) as (t2 & Ht2 & Hv2 & He2).
  exists t2. split_and!; [done|lia|]. intros He.
  assert (task_version t1 = task_version t) by lia. rewrite He2 by lia. by apply He1.
Qed.

(** Popping until nothing is pending, as the executors of a session do. *)
Fixpoint drain (fuel : nat) (s : Session) : list Z * Session :=
  match fuel with
  | O => ([], s)
  | S fuel =>
      match pop_pending_task s with
      | (None, s') => ([], s')
      | (Some t, s') => let '(ids, s'') := drain fuel s' in (task_id t :: ids, s'')
      end
  end.

Definition pending_index (s : Session) : gmap Z Task :=
  default ∅ (ssn_tasks_index s !! TaskPending).

Lemma index_lookup_pending s id : index_lookup s TaskPending id = pending_index s !! id.
Proof.
  unfold index_lookup, pending_index. destruct (_ !! TaskPending); simpl; [done|].
  by rewrite lookup_empty.
Qed.

Lemma pop_pending_task_pending s t s' :
  index_wf s -> pop_pending_task s = (Some t, s') ->
  pending_index s !! task_id t = Some t /\
  (forall id, is_Some (pending_index s !! id) -> task_id t <= id) /\
  pending_index s' = delete (task_id t) (pending_index s).
Proof.
  intros Hwf Hpop. pose proof (pop_pending_task_lookup s Hwf) as Hp. rewrite Hpop in Hp.
  destruct Hp as (Hl & Hmin & _ & Hidx). rewrite <-index_lookup_pending. split_and!; [done| |].
  - intros id [t' Ht']. rewrite <-index_lookup_pending in Ht'. eauto.
  - apply map_eq. intros id. rewrite <-index_lookup_pending, Hidx, index_lookup_pending.
    case_decide as Hd; [destruct Hd as [_ ->]; by rewrite lookup_delete_eq|].
    rewrite lookup_delete_ne; [done|]. intros <-. by apply Hd.
Qed.

Lemma drain_sorted fuel s :
  index_wf s -> (size (pending_index s) <= fuel)%nat ->
  StronglySorted Z.lt (drain fuel s).1 /\
  (forall id, id ∈ (drain fuel s).1 <-> is_Some (pending_index s !! id)) /\
  pending_index (drain fuel s).2 = ∅.
Proof.
  revert s. induction fuel as [|fuel IH]; simpl; intros s Hwf Hsz.
  { assert (pending_index s = ∅) as -> by (apply map_size_empty_inv; lia).
    split_and!; [constructor| |done]. intros id. rewrite elem_of_nil, lookup_empty.
    split; [done|by intros []]. }
  destruct (pop_pending_task s) as [[t|] s'] eqn:Hpop.
  - pose proof (pop_pending_task_wf s Hwf) as Hwf'. rewrite Hpop in Hwf'. simpl in Hwf'.
    destruct (pop_pending_task_pending s t s' Hwf Hpop) as (Hl & Hmin & Hdel).
    assert (size (pending_index s') <= fuel)%nat as Hsz'.
    { rewrite Hdel, map_size_delete_Some by eauto. lia. }
    destruct (IH s' Hwf' Hsz') as (Hs & Hin & He).
    destruct (drain fuel s') as [ids s'']. simpl in *. rewrite Hdel in Hin.
    split_and!; [constructor; [done|]| |done].
    + apply list.Forall_forall. intros id Hid. apply Hin in Hid as [t' Ht'].
      apply lookup_delete_Some in Ht' as [Hne Ht']. specialize (Hmin id ltac:(eauto)). lia.
    + intros id. rewrite elem_of_cons, Hin. destruct (decide (id = task_id t)) as [->|].
      * split; [by rewrite Hl|by left].
      * rewrite lookup_delete_ne by done. tauto.
  - pose proof (pop_pending_task_lookup s Hwf) as Hp. rewrite Hpop in Hp. destruct Hp as [-> Hn].
    simpl. assert (pending_index s = ∅) as ->.
    { apply map_empty. intros id. by rewrite <-index_lookup_pending. }
    split_and!; [constructor| |done]. intros id. rewrite elem_of_nil, lookup_empty.
    split; [done|by intros []].
Qed.

(** ** Properties *)

(** C24 Whatever sequence of task updates and pops a session goes through, its
    state index agrees with its tasks, no task is lost, and a task is replaced
    only by a strictly newer version. *)
Theorem session_index_invariant ops s :
  index_wf s ->
  index_wf (ssn_run ops s) /\
  forall id t, ssn_tasks s !! id = Some t ->
    exists t', ssn_tasks (ssn_run ops s) !! id = Some t' /\ task_version t <= task_version t'
               /\ (task_version t' = task_version t -> t' = t).
Proof.
  intros Hwf. split; [|by intros; apply ssn_run_version].
  revert s Hwf. induction ops as [|op ops IH]; simpl; intros s Hwf; [done|].
  by apply IH, ssn_apply_wf.
Qed.

(** Popping pending tasks until none is left terminates after as many pops
    as there are indexed pending tasks, and hands out each of them exactly
    once, oldest (least identifier) first. *)
Theorem pop_pending_fifo s :
  index_wf s ->
  let n := size (pending_index s) in
  StronglySorted Z.lt (drain n s).1 /\
  (forall id, id ∈ (drain n s).1 <-> is_Some (pending_index s !! id)) /\
  pending_index (drain n s).2 = ∅.
Proof. intros Hwf. by apply drain_sorted. Qed.

(** accepts an attribute set exactly when it names the
    session's application, resources, instance bounds, batch size and
    priority; every mismatch is an [InvalidConfig] error. *)
Theorem validate_spec_iff s attr :
  (validate_spec s attr = Ok tt <->
    ssn_application s = sa_application attr /\ ssn_resreq s = sa_resreq attr /\
    ssn_min_instances s = sa_min_instances attr /\ ssn_batch_size s = sa_batch_size attr /\
    ssn_max_instances s = sa_max_instances attr /\ ssn_priority s = sa_priority attr) /\
  (validate_spec s attr = Ok tt \/ validate_spec s attr = Err EInvalidConfig).
Proof.
  unfold validate_spec.
  repeat match goal with
  | |- context [bool_decide ?P] => destruct (bool_decide_reflect P); simpl
  | |- context [?a =? ?b] => destruct (Z.eqb_spec a b); simpl
  end; split; try tauto; split; intros; try done; intuition congruence.
Qed.

(** ** Witnesses *)

Definition demo_task (id v : Z) (st : TaskState) : Task :=
  mkTask id "ssn" v None None ∅ 0 None [] st.

Definition demo_session : Session :=
  mkSession "ssn" "app" 1 None ∅ ∅ ∅ 0 None [] SsnOpen 0 None 1 0 None 0.

Lemma demo_session_wf : index_wf demo_session.
Proof. split; unfold index_lookup; simpl; intros *; rewrite ?lookup_empty; done. Qed.

Definition demo_ops : list ssn_op :=
  [OpUpdate (demo_task 2 1 TaskPending); OpUpdate (demo_task 1 1 TaskPending); OpPop;
   OpUpdate (demo_task 1 2 TaskRunning); OpUpdate (demo_task 1 1 TaskFailed)].

Lemma session_index_invariant_witness :
  index_wf (ssn_run demo_ops demo_session) /\
  (task_state <$> ssn_tasks (ssn_run demo_ops demo_session) !! 1) = Some TaskRunning /\
  (drain 5 (ssn_run demo_ops demo_session)).1 = [2].
Proof.
  split; [exact (proj1 (session_index_invariant demo_ops demo_session demo_session_wf))|].
  by vm_compute.
Defined.

Definition demo_session_two : Session :=
  ssn_run [OpUpdate (demo_task 2 1 TaskPending); OpUpdate (demo_task 1 1 TaskPending)] demo_session.

Lemma demo_session_two_wf : index_wf demo_session_two.
Proof. repeat apply update_task_wf. apply demo_session_wf. Qed.

Lemma pop_pending_fifo_witness :
  (drain (size (pending_index demo_session_two)) demo_session_two).1 = [1; 2] /\
  pending_index (drain (size (pending_index demo_session_two)) demo_session_two).2 = ∅.
Proof.
  split; [by vm_compute|].
  exact (proj2 (proj2 (pop_pending_fifo demo_session_two demo_session_two_wf))).
Defined.
