(* ===== verification/Filters.v ===== *)
(** * Filters for listing objects ([common/src/apis/filters.rs], and
    [NodeFilter] of [session_manager/src/controller/snapshot.rs])

    A field that is [None] is ignored; [Some v] must match. *)
From S2P Require Import Prelude Types.
Local Open Scope Z_scope.

Inductive SessionPredicate := PredReady.

(** [SessionPredicate::matches]. *)
Definition matches (p : SessionPredicate) (retry_count retry_limits : Z) : bool :=
  match p with PredReady => retry_count <? retry_limits end.

Record TaskFilter := mkTaskFilter {
  tf_session : string;
  tf_states : option (list TaskState)
}.

Definition by_session (session : string) : TaskFilter := mkTaskFilter session None.
Definition by_session_states (session : string) (states : list TaskState) : TaskFilter :=
  mkTaskFilter session (Some states).
Definition non_terminal (session : string) : TaskFilter :=
  by_session_states session [TaskPending; TaskRunning].

Record SessionFilter := mkSessionFilter {
  sf_application : option string;
  sf_state : option SessionState;
  sf_ids : option (list string);
  sf_predicate : option SessionPredicate;
  sf_limit : option nat
}.

Definition session_by_state (st : SessionState) : SessionFilter :=
  mkSessionFilter None (Some st) None None None.
Definition session_by_application (app : string) : SessionFilter :=
  mkSessionFilter (Some app) None None None None.
Definition session_by_application_state (app : string) (st : SessionState) : SessionFilter :=
  mkSessionFilter (Some app) (Some st) None None None.
Definition with_predicate (p : SessionPredicate) (f : SessionFilter) : SessionFilter :=
  mkSessionFilter (sf_application f) (sf_state f) (sf_ids f) (Some p) (sf_limit f).
Definition with_limit (n : nat) (f : SessionFilter) : SessionFilter :=
  mkSessionFilter (sf_application f) (sf_state f) (sf_ids f) (sf_predicate f) (Some n).

Definition OPEN_SESSION : option SessionFilter := Some (session_by_state SsnOpen).
Definition READY_SESSION : option SessionFilter :=
  Some (with_predicate PredReady (session_by_state SsnOpen)).

Record ExecutorFilter := mkExecutorFilter {
  ef_state : option ExecutorState;
  ef_ids : option (list string);
  ef_node : option string
}.

Definition executor_by_state (st : ExecutorState) : ExecutorFilter :=
  mkExecutorFilter (Some st) None None.
Definition executor_by_node (node : string) : ExecutorFilter :=
  mkExecutorFilter None None (Some node).

Definition IDLE_EXECUTOR : option ExecutorFilter := Some (executor_by_state ExecIdle).
Definition VOID_EXECUTOR : option ExecutorFilter := Some (executor_by_state ExecVoid).
Definition UNBINDING_EXECUTOR : option ExecutorFilter := Some (executor_by_state ExecUnbinding).
Definition BOUND_EXECUTOR : option ExecutorFilter := Some (executor_by_state ExecBound).
Definition BINDING_EXECUTOR : option ExecutorFilter := Some (executor_by_state ExecBinding).
Definition ALL_EXECUTOR : option ExecutorFilter := None.

Record ApplicationFilter := mkApplicationFilter { af_state : option ApplicationState }.

Definition ALL_APPLICATION : option ApplicationFilter := None.

Record NodeFilter := mkNodeFilter {
  nf_state : option NodeState;
  nf_names : option (list string)
}.

Definition ALL_NODE : option NodeFilter := None.
Definition READY_NODE : option NodeFilter := Some (mkNodeFilter (Some NodeReady) None).

(** [match opt { None => l, Some(v) => l.filter(|x| f(v, x)) }], the step the
    listings repeat for every field of a filter. *)
Definition filter_opt {A B} (o : option A) (f : A -> B -> bool) (l : list B) : list B :=
  match o with None => l | Some v => List.filter (f v) l end.

(** [items.map(|x| (key(x), x)).collect::<HashMap<_, _>>()]. *)
Definition collect_by {A} (key : A -> string) (l : list A) : gmap string A :=
  hm_collect ((fun x => (key x, x)) <$> l).

(** ** Lemmas *)

(** [names.contains(&s)]. *)
Definition contains (names : list string) (s : string) : bool := bool_decide (s ∈ names).

Lemma filter_opt_elem {A B} (o : option A) (f : A -> B -> bool) l x :
  x ∈ filter_opt o f l <-> x ∈ l /\ is_none_or o (fun v => f v x) = true.
Proof.
  destruct o as [v|]; simpl; [|tauto].
  rewrite !list_elem_of_In, filter_In. tauto.
Qed.

Lemma filter_opt_sublist {A B} (o : option A) (f : A -> B -> bool) l :
  filter_opt o f l `sublist_of` l.
Proof.
  destruct o as [v|]; simpl; [|done]. induction l as [|x l IH]; simpl; [done|].
  destruct (f v x); by constructor.
Qed.

Lemma collect_by_lookup {A} (key : A -> string) (l : list A) k x :
  NoDup (key <$> l) -> collect_by key l !! k = Some x <-> x ∈ l /\ key x = k.
Proof.
  intros Hnd. unfold collect_by. rewrite hm_collect_lookup.
  - rewrite list_elem_of_fmap. split.
    + intros (y & [= -> ->] & Hy). done.
    + intros [Hx <-]. by exists x.
  - by rewrite <-list_fmap_compose.
Qed.

(** A map whose keys are the items' own identifiers. *)
Definition keyed {A} (key : A -> string) (m : gmap string A) : Prop :=
  forall k x, m !! k = Some x -> key x = k.

Lemma keyed_insert {A} (key : A -> string) m x :
  keyed key m -> keyed key (<[key x := x]> m).
Proof. intros Hm k y [[<- ->]|[_ ?]]%lookup_insert_Some; auto. Qed.

Lemma keyed_delete {A} (key : A -> string) m k : keyed key m -> keyed key (delete k m).
Proof. intros Hm k' y [_ ?]%lookup_delete_Some. auto. Qed.

#[export] Hint Resolve keyed_insert keyed_delete : flame.

Section listing.
Context `{Env} {A : Type} (key : A -> string).

Lemma keyed_values_NoDup m : keyed key m -> NoDup (key <$> hm_values m).
Proof.
  intros Hm. assert (key <$> hm_values m = (hm_iter m).*1) as ->; [|apply hm_iter_NoDup].
  unfold hm_values. rewrite <-list_fmap_compose. apply list_fmap_ext.
  intros i [k x] Hx. simpl. apply Hm, hm_iter_elem. by eapply list_elem_of_lookup_2.
Qed.

Lemma filter_opt_NoDup {B} (o : option B) (f : B -> A -> bool) l :
  NoDup (key <$> l) -> NoDup (key <$> filter_opt o f l).
Proof. intros Hl. eapply sublist_NoDup; [done|]. apply fmap_sublist, filter_opt_sublist. Qed.

(** Collecting by key the values of a keyed map that satisfy [P] is filtering
    the map. *)
Lemma collect_values (m : gmap string A) (l : list A) (P : A -> bool) :
  keyed key m -> NoDup (key <$> l) ->
  (forall x, x ∈ l <-> x ∈ hm_values m /\ P x = true) ->
  collect_by key l = filter (fun kx => P kx.2 = true) m.
Proof.
  intros Hm Hnd Hl. apply map_eq. intros k. apply option_eq. intros x.
  rewrite collect_by_lookup, Hl, hm_values_elem, map_lookup_filter_Some by done. simpl. split.
  - intros [[(k' & Hk') HP] <-]. by rewrite (Hm _ _ Hk').
  - intros [Hk HP]. eauto.
Qed.

Lemma collect_all (m : gmap string A) : keyed key m -> collect_by key (hm_values m) = m.
Proof.
  intros Hm. rewrite (collect_values m _ (fun _ => true)) by (by auto using keyed_values_NoDup || (intros; tauto)).
  apply map_eq. intros k. apply option_eq. intros x. rewrite map_lookup_filter_Some. tauto.
Qed.
End listing.

#[export] Hint Resolve filter_opt_NoDup keyed_values_NoDup : flame.
