(* ===== verification/Snapshot.v ===== *)
(** * The scheduler's snapshot ([session_manager/src/controller/snapshot.rs])

    A copy of the storage the scheduler works on: applications, nodes,
    sessions and executors by identifier, the latter two also by state. *)
From stdpp Require Import pretty.
From S2P Require Import Prelude Types Filters.
Local Open Scope Z_scope.

Record TaskInfo := mkTaskInfo {
  ti_id : Z;
  ti_ssn_id : string;
  ti_creation_time : Z;
  ti_completion_time : option Z;
  ti_state : TaskState;
  ti_affinity : gset string
}.

Record SessionInfo := mkSessionInfo {
  si_id : string;
  si_application : string;
  si_tasks_status : gmap TaskState Z;
  si_creation_time : Z;
  si_completion_time : option Z;
  si_state : SessionState;
  si_min_instances : Z;
  si_max_instances : option Z;
  si_batch_size : Z;
  si_priority : Z;
  si_resreq : option ResourceRequirement;
  si_retry_count : Z;
  si_task_index : gmap TaskState (gmap Z TaskInfo)
}.

Definition si_is_open (s : SessionInfo) : bool := bool_decide (si_state s = SsnOpen).
Definition si_is_ready (retry_limits : Z) (s : SessionInfo) : bool :=
  si_retry_count s <? retry_limits.

Record ExecutorInfo := mkExecutorInfo {
  ei_id : string;
  ei_node : string;
  ei_resreq : ResourceRequirement;
  ei_shim : Shim;
  ei_application : string;
  ei_task_id : option Z;
  ei_ssn_id : option string;
  ei_creation_time : Z;
  ei_latest_updated_timestamp : Z;
  ei_state : ExecutorState;
  ei_signal : option Signal;
  ei_attributes : gset string
}.

Definition ei_is_interrupted (e : ExecutorInfo) : bool :=
  bool_decide (ei_signal e = Some SigInterrupt).

Definition ei_is_binding (e : ExecutorInfo) (ssn : string) : bool :=
  bool_decide (ei_ssn_id e = Some ssn) &&
  match ei_state e with ExecBinding | ExecBound => true | _ => false end.

Record NodeInfo := mkNodeInfo {
  ni_name : string;
  ni_allocatable : ResourceRequirement;
  ni_state : NodeState;
  ni_shims : list Shim
}.

Definition ni_is_ready (n : NodeInfo) : bool := bool_decide (ni_state n = NodeReady).

Record AppInfo := mkAppInfo {
  ai_name : string;
  ai_state : ApplicationState;
  ai_shim : Shim;
  ai_max_instances : Z;
  ai_delay_release : Z
}.

Record SnapShot := mkSnapShot {
  ss_session_retry_limits : Z;
  ss_applications : gmap string AppInfo;
  ss_sessions : gmap string SessionInfo;
  ss_ssn_index : gmap SessionState (gmap string SessionInfo);
  ss_executors : gmap string ExecutorInfo;
  ss_exec_index : gmap ExecutorState (gmap string ExecutorInfo);
  ss_nodes : gmap string NodeInfo
}.

Definition new_with_session_retry_limits (limits : Z) : SnapShot :=
  mkSnapShot limits ∅ ∅ ∅ ∅ ∅ ∅.

(** ** Conversions from the stored objects *)

Definition NodeInfo_from (n : Node) : NodeInfo :=
  mkNodeInfo (node_name n) (node_allocatable n) (node_state n) (node_shims n).

Definition AppInfo_from (a : Application) : AppInfo :=
  mkAppInfo (app_name a) (app_state a) (app_shim a) (app_max_instances a) (app_delay_release a).

Definition ExecutorInfo_from (e : Executor) : ExecutorInfo :=
  mkExecutorInfo (ex_id e) (ex_node e) (ex_resreq e) (ex_shim e) (ex_application e)
    (ex_task_id e) (ex_ssn_id e) (ex_creation_time e) (ex_latest_updated_timestamp e)
    (ex_state e) (ex_signal e) (ex_attributes e).

Definition TaskInfo_from (t : Task) : TaskInfo :=
  mkTaskInfo (task_id t) (task_ssn_id t) (task_creation_time t) (task_completion_time t)
    (task_state t) (task_affinity t).

(** [v.len() as i32] is a cast, which wraps. *)
Definition SessionInfo_from (s : Session) : SessionInfo :=
  mkSessionInfo (ssn_id s) (ssn_application s)
    ((fun v : gmap Z Task => wrap_i32 (Z.of_nat (size v))) <$> ssn_tasks_index s)
    (ssn_creation_time s) (ssn_completion_time s) (ssn_state s) (ssn_min_instances s)
    (ssn_max_instances s) (ssn_batch_size s) (ssn_priority s) (ssn_resreq s)
    (ssn_retry_count s)
    ((fun v : gmap Z Task => TaskInfo_from <$> v) <$>
       filter (fun kv => is_terminal kv.1 = false) (ssn_tasks_index s)).

(** ** Field updates *)

Definition with_sessions m idx (s : SnapShot) : SnapShot :=
  mkSnapShot (ss_session_retry_limits s) (ss_applications s) m idx (ss_executors s)
    (ss_exec_index s) (ss_nodes s).

Definition with_executors m idx (s : SnapShot) : SnapShot :=
  mkSnapShot (ss_session_retry_limits s) (ss_applications s) (ss_sessions s) (ss_ssn_index s)
    m idx (ss_nodes s).

(** [index.entry(st).or_default(); index.get_mut(st).insert(k, x)]. *)
Definition state_index_add {St A} `{Countable St} (st : St) (k : string) (x : A)
    (idx : gmap St (gmap string A)) : gmap St (gmap string A) :=
  let idx := match idx !! st with Some _ => idx | None => <[st := ∅]> idx end in
  match idx !! st with Some m => <[st := <[k := x]> m]> idx | None => idx end.

(** [for list in index.values_mut() { list.remove(k) }]. *)
Definition state_index_remove {St A} `{Countable St} (k : string)
    (idx : gmap St (gmap string A)) : gmap St (gmap string A) :=
  (fun m => delete k m) <$> idx.

(** ** Operations *)

Definition get_application (app : string) (s : SnapShot) : option AppInfo :=
  ss_applications s !! app.

Definition get_node (name : string) (s : SnapShot) : option NodeInfo := ss_nodes s !! name.

Definition add_node (n : NodeInfo) (s : SnapShot) : SnapShot :=
  mkSnapShot (ss_session_retry_limits s) (ss_applications s) (ss_sessions s) (ss_ssn_index s)
    (ss_executors s) (ss_exec_index s) (<[ni_name n := n]> (ss_nodes s)).

Definition add_application (a : AppInfo) (s : SnapShot) : SnapShot :=
  mkSnapShot (ss_session_retry_limits s) (<[ai_name a := a]> (ss_applications s))
    (ss_sessions s) (ss_ssn_index s) (ss_executors s) (ss_exec_index s) (ss_nodes s).

Definition add_session (x : SessionInfo) (s : SnapShot) : SnapShot :=
  with_sessions (<[si_id x := x]> (ss_sessions s))
    (state_index_add (si_state x) (si_id x) x (ss_ssn_index s)) s.

Definition get_session (id : string) (s : SnapShot) : result SessionInfo :=
  ok_or (ss_sessions s !! id) ENotFound.

Definition delete_session (x : SessionInfo) (s : SnapShot) : SnapShot :=
  with_sessions (delete (si_id x) (ss_sessions s))
    (state_index_remove (si_id x) (ss_ssn_index s)) s.

Definition update_session (x : SessionInfo) (s : SnapShot) : SnapShot :=
  add_session x (delete_session x s).

Definition add_executor (e : ExecutorInfo) (s : SnapShot) : SnapShot :=
  with_executors (<[ei_id e := e]> (ss_executors s))
    (state_index_add (ei_state e) (ei_id e) e (ss_exec_index s)) s.

Definition delete_executor (e : ExecutorInfo) (s : SnapShot) : SnapShot :=
  with_executors (delete (ei_id e) (ss_executors s))
    (state_index_remove (ei_id e) (ss_exec_index s)) s.

Definition update_executor (e : ExecutorInfo) (s : SnapShot) : SnapShot :=
  add_executor e (delete_executor e s).

(** The executor with a new state, and the clock reading as its timestamp. *)
Definition ei_with_state (st : ExecutorState) (now : Z) (e : ExecutorInfo) : ExecutorInfo :=
  mkExecutorInfo (ei_id e) (ei_node e) (ei_resreq e) (ei_shim e) (ei_application e)
    (ei_task_id e) (ei_ssn_id e) (ei_creation_time e) now st (ei_signal e) (ei_attributes e).

Definition update_executor_state (e : ExecutorInfo) (st : ExecutorState) (now : Z)
    (s : SnapShot) : SnapShot :=
  update_executor (ei_with_state st now e) s.

Section listings.
Context `{Env}.

(** [index.get(&state).map(|m| m.values().cloned().collect()).unwrap_or_default()]. *)
Definition index_values {St A} `{Countable St} (st : St) (idx : gmap St (gmap string A))
    : list A :=
  match idx !! st with Some m => hm_values m | None => [] end.

Definition find_nodes_by_filter (f : NodeFilter) (s : SnapShot) : gmap string NodeInfo :=
  let candidates := hm_values (ss_nodes s) in
  let filtered := filter_opt (nf_state f) (fun st n => bool_decide (ni_state n = st))
                    candidates in
  let filtered := filter_opt (nf_names f) (fun names n => contains names (ni_name n))
                    filtered in
  collect_by ni_name filtered.

Definition find_all_nodes (s : SnapShot) : gmap string NodeInfo :=
  collect_by ni_name (hm_values (ss_nodes s)).

Definition find_nodes (f : option NodeFilter) (s : SnapShot) : gmap string NodeInfo :=
  match f with Some f => find_nodes_by_filter f s | None => find_all_nodes s end.

Definition find_applications_by_filter (f : ApplicationFilter) (s : SnapShot)
    : gmap string AppInfo :=
  collect_by ai_name (filter_opt (af_state f) (fun st a => bool_decide (ai_state a = st))
                        (hm_values (ss_applications s))).

Definition find_all_applications (s : SnapShot) : gmap string AppInfo :=
  collect_by ai_name (hm_values (ss_applications s)).

Definition find_applications (f : option ApplicationFilter) (s : SnapShot)
    : gmap string AppInfo :=
  match f with Some f => find_applications_by_filter f s | None => find_all_applications s end.

Definition find_sessions_by_filter (f : SessionFilter) (s : SnapShot)
    : gmap string SessionInfo :=
  let candidates := match sf_state f with
                    | None => hm_values (ss_sessions s)
                    | Some st => index_values st (ss_ssn_index s)
                    end in
  let filtered := filter_opt (sf_ids f) (fun ids x => contains ids (si_id x)) candidates in
  let filtered := filter_opt (sf_application f)
                    (fun app x => bool_decide (si_application x = app)) filtered in
  let filtered := filter_opt (sf_predicate f)
                    (fun p x => matches p (si_retry_count x) (ss_session_retry_limits s))
                    filtered in
  collect_by si_id filtered.

Definition find_all_sessions (s : SnapShot) : gmap string SessionInfo :=
  collect_by si_id (hm_values (ss_sessions s)).

Definition find_sessions (f : option SessionFilter) (s : SnapShot) : gmap string SessionInfo :=
  match f with Some f => find_sessions_by_filter f s | None => find_all_sessions s end.

Definition find_executors_by_filter (f : ExecutorFilter) (s : SnapShot)
    : gmap string ExecutorInfo :=
  let candidates := match ef_state f with
                    | None => hm_values (ss_executors s)
                    | Some st => index_values st (ss_exec_index s)
                    end in
  let filtered := filter_opt (ef_ids f) (fun ids x => contains ids (ei_id x)) candidates in
  let filtered := filter_opt (ef_node f) (fun node x => bool_decide (ei_node x = node))
                    filtered in
  collect_by ei_id filtered.

Definition find_all_executors (s : SnapShot) : gmap string ExecutorInfo :=
  collect_by ei_id (hm_values (ss_executors s)).

Definition find_executors (f : option ExecutorFilter) (s : SnapShot)
    : gmap string ExecutorInfo :=
  match f with Some f => find_executors_by_filter f s | None => find_all_executors s end.

(** Void and idle executors that run the session's application's shim and, if
    the session asks for resources, have exactly those. *)
Definition pipelined_executors (ssn : SessionInfo) (s : SnapShot) : list ExecutorInfo :=
  let void_execs := find_executors VOID_EXECUTOR s in
  let idle_execs := find_executors IDLE_EXECUTOR s in
  let executors := hm_values void_execs ++ hm_values idle_execs in
  let app_shim := match get_application (si_application ssn) s with
                  | Some app => ai_shim app
                  | None => ShimHost
                  end in
  List.filter (fun e =>
    bool_decide (ei_shim e = app_shim) &&
    is_none_or (si_resreq ssn) (fun rr => bool_decide (rr = ei_resreq e))) executors.
End listings.
Arguments find_nodes {_} _ _ : simpl never.
Arguments find_applications {_} _ _ : simpl never.
Arguments find_sessions {_} _ _ : simpl never.
Arguments find_executors {_} _ _ : simpl never.

(** ** The invariant: items are keyed by their identifiers and the state
    indexes hold exactly the items of each state *)

Definition index_ok {St A} `{Countable St} (state : A -> St) (m : gmap string A)
    (idx : gmap St (gmap string A)) : Prop :=
  forall st k x, (idx !! st ≫= fun ms => ms !! k) = Some x <-> m !! k = Some x /\ state x = st.

Record snap_wf (s : SnapShot) : Prop := {
  sw_apps : keyed ai_name (ss_applications s);
  sw_nodes : keyed ni_name (ss_nodes s);
  sw_ssns : keyed si_id (ss_sessions s);
  sw_execs : keyed ei_id (ss_executors s);
  sw_ssn_index : index_ok si_state (ss_sessions s) (ss_ssn_index s);
  sw_exec_index : index_ok ei_state (ss_executors s) (ss_exec_index s)
}.

Section index.
Context {St A : Type} `{Countable St} (state : A -> St).
Implicit Types (m : gmap string A) (idx : gmap St (gmap string A)).

Lemma state_index_add_lookup st k (x : A) idx st' k' :
  (state_index_add st k x idx !! st' ≫= fun ms => ms !! k') =
  if decide (st' = st /\ k' = k) then Some x else idx !! st' ≫= fun ms => ms !! k'.
Proof.
  unfold state_index_add. destruct (idx !! st) as [ms|] eqn:E; [rewrite E|rewrite lookup_insert_eq];
  (destruct (decide (st' = st)) as [->|];
   [rewrite lookup_insert_eq, ?E; simpl; destruct (decide (k' = k)) as [->|];
    [by rewrite lookup_insert_eq, decide_True|
     rewrite lookup_insert_ne, decide_False by (done || tauto); rewrite ?lookup_empty; done]|
    rewrite !lookup_insert_ne by done; by rewrite decide_False by tauto]).
Qed.

Lemma state_index_remove_lookup k idx st' k' :
  (state_index_remove k idx !! st' ≫= fun ms => ms !! k') =
  if decide (k' = k) then None else idx !! st' ≫= fun ms => ms !! k'.
Proof.
  unfold state_index_remove. rewrite lookup_fmap. destruct (idx !! st') as [ms|]; simpl.
  - case_decide; subst; [by rewrite lookup_delete_eq|by rewrite lookup_delete_ne].
  - by case_decide.
Qed.

Lemma index_ok_remove m idx k :
  index_ok state m idx -> index_ok state (delete k m) (state_index_remove k idx).
Proof.
  intros Hok st k' y. rewrite state_index_remove_lookup. case_decide; subst.
  - rewrite lookup_delete_eq. by split; [|intros [? _]].
  - by rewrite lookup_delete_ne.
Qed.

Context `{Env}.

Lemma index_values_elem m idx st x :
  index_ok state m idx -> x ∈ index_values st idx <-> x ∈ hm_values m /\ state x = st.
Proof.
  intros Hok. unfold index_values. rewrite hm_values_elem.
  assert (forall ms, idx !! st = Some ms -> forall k, ms !! k = Some x <-> m !! k = Some x /\ state x = st) as Hms.
  { intros ms Hms k. specialize (Hok st k x). by rewrite Hms in Hok. }
  destruct (idx !! st) as [ms|] eqn:E.
  - rewrite hm_values_elem. setoid_rewrite (Hms ms eq_refl). split; [intros (k & ? & ?); eauto|intros [[k ?] ?]; eauto].
  - rewrite elem_of_nil. split; [done|]. intros [[k Hk] <-].
    destruct (Hok (state x) k x) as [_ Hr]. rewrite E in Hr. by specialize (Hr (conj Hk eq_refl)).
Qed.

Variable key : A -> string.

Lemma index_ok_add m idx x :
  index_ok state m idx -> m !! key x = None ->
  index_ok state (<[key x := x]> m) (state_index_add (state x) (key x) x idx).
Proof.
  intros Hok Hnew st k y. rewrite state_index_add_lookup.
  case_decide as Hd; [destruct Hd as [-> ->]; rewrite lookup_insert_eq;
    split; [by intros [= ->]|by intros [[= ->] _]]|].
  rewrite (Hok st k y). destruct (decide (k = key x)) as [->|].
  - rewrite lookup_insert_eq, Hnew. split; [by intros [? _]|]. intros [[= ->] <-]. by destruct Hd.
  - by rewrite lookup_insert_ne.
Qed.

Lemma index_values_NoDup m idx st :
  keyed key m -> index_ok state m idx -> NoDup (key <$> index_values st idx).
Proof.
  intros Hm Hok. unfold index_values. destruct (idx !! st) as [ms|] eqn:E; [|constructor].
  apply keyed_values_NoDup. intros k x Hx. apply Hm. apply (Hok st). by rewrite E.
Qed.
End index.

#[export] Hint Resolve index_values_NoDup sw_apps sw_nodes sw_ssns sw_execs sw_ssn_index
  sw_exec_index : flame.

(** ** What the operations do *)

Lemma new_snap_wf limits : snap_wf (new_with_session_retry_limits limits).
Proof.
  split; simpl; [intros k x H.. | |].
  1-4: by rewrite lookup_empty in H.
  all: intros st k x; rewrite !lookup_empty; simpl; split; [done|by intros [? _]].
Qed.

Lemma add_node_wf n s : snap_wf s -> snap_wf (add_node n s).
Proof. intros []. split; simpl; auto with flame. Qed.

Lemma add_application_wf a s : snap_wf s -> snap_wf (add_application a s).
Proof. intros []. split; simpl; auto with flame. Qed.

Lemma add_session_wf x s : snap_wf s -> ss_sessions s !! si_id x = None -> snap_wf (add_session x s).
Proof. intros [] ?. split; simpl; auto using index_ok_add with flame. Qed.

Lemma delete_session_wf x s : snap_wf s -> snap_wf (delete_session x s).
Proof. intros []. split; simpl; auto with flame. by apply index_ok_remove. Qed.

Lemma update_session_wf x s : snap_wf s -> snap_wf (update_session x s).
Proof. intros. apply add_session_wf; [by apply delete_session_wf|apply lookup_delete_eq]. Qed.

Lemma add_executor_wf e s :
  snap_wf s -> ss_executors s !! ei_id e = None -> snap_wf (add_executor e s).
Proof. intros [] ?. split; simpl; auto using index_ok_add with flame. Qed.

Lemma delete_executor_wf e s : snap_wf s -> snap_wf (delete_executor e s).
Proof. intros []. split; simpl; auto with flame. by apply index_ok_remove. Qed.

Lemma update_executor_wf e s : snap_wf s -> snap_wf (update_executor e s).
Proof. intros. apply add_executor_wf; [by apply delete_executor_wf|apply lookup_delete_eq]. Qed.

Lemma update_executor_state_wf e st now s : snap_wf s -> snap_wf (update_executor_state e st now s).
Proof. apply update_executor_wf. Qed.

#[export] Hint Resolve new_snap_wf add_node_wf add_application_wf delete_session_wf
  update_session_wf delete_executor_wf update_executor_wf update_executor_state_wf : flame.

Lemma update_executor_executors e s :
  ss_executors (update_executor e s) = <[ei_id e := e]> (ss_executors s).
Proof. simpl. by rewrite insert_delete_eq. Qed.

(** The items a filter selects. *)
Definition executor_matches (f : ExecutorFilter) (e : ExecutorInfo) : bool :=
  is_none_or (ef_state f) (fun st => bool_decide (ei_state e = st)) &&
  is_none_or (ef_ids f) (fun ids => contains ids (ei_id e)) &&
  is_none_or (ef_node f) (fun node => bool_decide (ei_node e = node)).

Definition session_matches (limits : Z) (f : SessionFilter) (x : SessionInfo) : bool :=
  is_none_or (sf_state f) (fun st => bool_decide (si_state x = st)) &&
  is_none_or (sf_ids f) (fun ids => contains ids (si_id x)) &&
  is_none_or (sf_application f) (fun app => bool_decide (si_application x = app)) &&
  is_none_or (sf_predicate f) (fun p => matches p (si_retry_count x) limits).

Definition node_matches (f : NodeFilter) (n : NodeInfo) : bool :=
  is_none_or (nf_state f) (fun st => bool_decide (ni_state n = st)) &&
  is_none_or (nf_names f) (fun names => contains names (ni_name n)).

Section find.
Context `{Env}.

Lemma find_executors_spec f s :
  snap_wf s ->
  find_executors (Some f) s = filter (fun kx => executor_matches f kx.2 = true) (ss_executors s).
Proof.
  intros Hwf. unfold find_executors, find_executors_by_filter. apply collect_values.
  - auto with flame.
  - destruct (ef_state f); eauto 10 with flame.
  - intros x. rewrite !filter_opt_elem. unfold executor_matches. rewrite !andb_true_iff.
    destruct (ef_state f) as [st|]; simpl; [|tauto].
    rewrite (index_values_elem ei_state (ss_executors s)), bool_decide_eq_true by auto with flame.
    tauto.
Qed.

Lemma find_all_executors_spec s : snap_wf s -> find_executors None s = ss_executors s.
Proof. intros. apply collect_all. auto with flame. Qed.

Lemma find_sessions_spec f s :
  snap_wf s ->
  find_sessions (Some f) s =
  filter (fun kx => session_matches (ss_session_retry_limits s) f kx.2 = true) (ss_sessions s).
Proof.
  intros Hwf. unfold find_sessions, find_sessions_by_filter. apply collect_values.
  - auto with flame.
  - destruct (sf_state f); eauto 10 with flame.
  - intros x. rewrite !filter_opt_elem. unfold session_matches. rewrite !andb_true_iff.
    destruct (sf_state f) as [st|]; simpl; [|tauto].
    rewrite (index_values_elem si_state (ss_sessions s)), bool_decide_eq_true by auto with flame.
    tauto.
Qed.

Lemma find_all_sessions_spec s : snap_wf s -> find_sessions None s = ss_sessions s.
Proof. intros. apply collect_all. auto with flame. Qed.

Lemma find_nodes_spec f s :
  snap_wf s ->
  find_nodes (Some f) s = filter (fun kx => node_matches f kx.2 = true) (ss_nodes s).
Proof.
  intros Hwf. unfold find_nodes, find_nodes_by_filter. apply collect_values.
  - auto with flame.
  - auto with flame.
  - intros x. rewrite !filter_opt_elem. unfold node_matches. rewrite !andb_true_iff. tauto.
Qed.

Lemma find_all_nodes_spec s : snap_wf s -> find_nodes None s = ss_nodes s.
Proof. intros. apply collect_all. auto with flame. Qed.

Lemma find_all_applications_spec s : snap_wf s -> find_applications None s = ss_applications s.
Proof. intros. apply collect_all. auto with flame. Qed.
End find.

(** ** Reachable snapshots

    The storage fills an empty snapshot with each object once; the scheduler
    then replaces or removes sessions and executors. *)
Inductive snap_step : SnapShot -> SnapShot -> Prop :=
  | step_add_node n s : snap_step s (add_node n s)
  | step_add_application a s : snap_step s (add_application a s)
  | step_add_session x s : ss_sessions s !! si_id x = None -> snap_step s (add_session x s)
  | step_add_executor e s : ss_executors s !! ei_id e = None -> snap_step s (add_executor e s)
  | step_update_session x s : snap_step s (update_session x s)
  | step_delete_session x s : snap_step s (delete_session x s)
  | step_update_executor e s : snap_step s (update_executor e s)
  | step_update_executor_state e st now s : snap_step s (update_executor_state e st now s)
  | step_delete_executor e s : snap_step s (delete_executor e s).

Definition snap_reachable (s : SnapShot) : Prop :=
  exists limits, rtc snap_step (new_with_session_retry_limits limits) s.

Lemma snap_step_wf s1 s2 : snap_step s1 s2 -> snap_wf s1 -> snap_wf s2.
Proof. destruct 1; eauto using add_session_wf, add_executor_wf with flame. Qed.

Lemma snap_reachable_wf s : snap_reachable s -> snap_wf s.
Proof.
  intros [limits Hr]. remember (new_with_session_retry_limits limits) as s0 eqn:E.
  assert (snap_wf s0) as H0 by (subst; apply new_snap_wf). clear E.
  induction Hr; eauto using snap_step_wf.
Qed.

(** C38 On every snapshot the storage and the scheduler can build, the listings
    that go through the state indexes return exactly the objects a scan of the
    whole map would, whatever order the hash maps are iterated in. *)
Theorem snapshot_find_complete `{Env} s ef sf nf :
  snap_reachable s ->
  find_executors (Some ef) s =
    filter (fun kx => executor_matches ef kx.2 = true) (ss_executors s) /\
  find_sessions (Some sf) s =
    filter (fun kx => session_matches (ss_session_retry_limits s) sf kx.2 = true)
      (ss_sessions s) /\
  find_nodes (Some nf) s = filter (fun kx => node_matches nf kx.2 = true) (ss_nodes s) /\
  find_executors None s = ss_executors s /\ find_sessions None s = ss_sessions s /\
  find_nodes None s = ss_nodes s.
Proof.
  intros Hwf%snap_reachable_wf.
  split_and!; auto using find_executors_spec, find_sessions_spec, find_nodes_spec,
    find_all_executors_spec, find_all_sessions_spec, find_all_nodes_spec.
Qed.

(** ** Witnesses *)

(** An environment: maps in the order of [map_to_list]. *)
Definition demo_env : Env := {|
  utc_now := fun n => Z.of_nat n;
  new_uuid := fun n => "id" +:+ pretty (N.of_nat n);
  hm_iter := fun V m => map_to_list m;
  hm_iter_perm := fun V m => reflexivity _
|}.

Definition demo_exec (id : string) (st : ExecutorState) : ExecutorInfo :=
  mkExecutorInfo id "n1" (mkRR 1 1 0) ShimHost "app" None None 0 0 st None ∅.

Definition demo_snap : SnapShot :=
  update_executor_state (demo_exec "e1" ExecIdle) ExecBinding 7
    (add_executor (demo_exec "e2" ExecIdle)
      (add_executor (demo_exec "e1" ExecIdle) (new_with_session_retry_limits 5))).

Lemma demo_snap_reachable : snap_reachable demo_snap.
Proof.
  exists 5. eapply rtc_l; [by apply (step_add_executor (demo_exec "e1" ExecIdle))|].
  eapply rtc_l; [by apply (step_add_executor (demo_exec "e2" ExecIdle))|]. eapply rtc_l;
    [exact (step_update_executor_state (demo_exec "e1" ExecIdle) ExecBinding 7 _)|].
  apply rtc_refl.
Qed.

Lemma snapshot_find_complete_witness :
  map_to_list (@find_executors demo_env IDLE_EXECUTOR demo_snap) = [("e2", demo_exec "e2" ExecIdle)].
Proof.
  unfold IDLE_EXECUTOR.
  rewrite (proj1 (@snapshot_find_complete demo_env demo_snap (executor_by_state ExecIdle)
    (session_by_state SsnOpen) (mkNodeFilter None None) demo_snap_reachable)).
  by vm_compute.
Defined.
