(* ===== verification/Order.v ===== *)
(** * Orders, sorting and priority queues

    Comparison functions as Rust's [Ord] and [sort_by] use them, the stable
    sort of the standard library, and the [BinaryHeap] of
    [stdng/src/collections/bin_heap.rs], a wrapper of the standard library's
    max-heap with the order as a value. *)
From Stdlib Require Import OrderedTypeEx.
From S2P Require Import Prelude.

(** ** Comparison functions *)

(** What [Ord] asks of [cmp]: a total preorder. *)
Class TotalCmp {T} (cmp : T -> T -> comparison) : Prop := {
  cmp_opp : forall x y, cmp x y = CompOpp (cmp y x);
  cmp_trans : forall x y z, cmp x y <> Gt -> cmp y z <> Gt -> cmp x z <> Gt
}.
Arguments cmp_opp {T} cmp {_} x y.
Arguments cmp_trans {T} cmp {_} x y z.

Section cmp_lemmas.
Context {T} (cmp : T -> T -> comparison) `{!TotalCmp cmp}.

Lemma cmp_refl x : cmp x x = Eq.
Proof. pose proof (cmp_opp cmp x x). by destruct (cmp x x). Qed.

Lemma cmp_total x y : cmp x y <> Gt \/ cmp y x <> Gt.
Proof. rewrite (cmp_opp cmp y x). destruct (cmp x y); naive_solver. Qed.

Lemma cmp_flip : TotalCmp (fun x y => cmp y x).
Proof.
  split; [intros; apply (cmp_opp cmp)|]. intros x y z Hxy Hyz. by apply (cmp_trans cmp _ y).
Qed.
End cmp_lemmas.

#[export] Instance Z_cmp : TotalCmp Z.compare.
Proof.
  split; [intros; by rewrite Z.compare_antisym|].
  intros x y z. change (x <= y -> y <= z -> x <= z)%Z. lia.
Qed.

#[export] Instance nat_cmp : TotalCmp Nat.compare.
Proof.
  split; [intros; by rewrite Nat.compare_antisym|].
  intros x y z. rewrite !Nat.compare_le_iff. lia.
Qed.

#[export] Instance string_cmp : TotalCmp String.compare.
Proof.
  split; [apply String.compare_antisym|]. intros x y z Hxy Hyz Hxz.
  change String.compare with String_as_OT.cmp in *.
  assert (Hzx : String_as_OT.cmp z x = Lt) by (by rewrite String_as_OT.cmp_antisym, Hxz).
  destruct (String_as_OT.cmp x y) eqn:E1; [apply String_as_OT.cmp_eq in E1; congruence| |done].
  destruct (String_as_OT.cmp y z) eqn:E2; [|rewrite String_as_OT.cmp_lt in *|done].
  - apply String_as_OT.cmp_eq in E2. subst. congruence.
  - apply (String_as_OT.lt_not_eq x x); [|done]. eauto using String_as_OT.lt_trans.
Qed.

Lemma cmp_on {A B} (f : A -> B) cmp `{!TotalCmp cmp} :
  TotalCmp (fun x y => cmp (f x) (f y)).
Proof. split; [intros; apply (cmp_opp cmp)|]. intros x y z. apply (cmp_trans cmp). Qed.

Lemma cmp_then {T} (c1 c2 : T -> T -> comparison) :
  TotalCmp c1 -> TotalCmp c2 -> TotalCmp (fun x y => then_with (c1 x y) (c2 x y)).
Proof.
  intros H1 H2. split.
  - intros x y. rewrite (cmp_opp c1 x y), (cmp_opp c2 x y). by destruct (c1 y x).
  - intros x y z Hxy Hyz.
    pose proof (cmp_trans c1 x y z) as T1. pose proof (cmp_trans c2 x y z) as T2.
    pose proof (cmp_trans c1 z x y) as T3. pose proof (cmp_trans c1 y z x) as T4.
    rewrite (cmp_opp c1 z x), (cmp_opp c1 z y), (cmp_opp c1 y x) in *.
    destruct (c1 x y), (c1 y z), (c1 x z); simpl in *; naive_solver.
Qed.

(** ** [slice::sort_by], a stable sort *)

Section sort.
Context {T : Type} (cmp : T -> T -> comparison).

Fixpoint sort_insert (x : T) (l : list T) : list T :=
  match l with
  | [] => [x]
  | y :: l' => match cmp x y with Gt => y :: sort_insert x l' | _ => x :: l end
  end.

Definition sort_by (l : list T) : list T := foldr sort_insert [] l.

Lemma sort_insert_perm x l : sort_insert x l ≡ₚ x :: l.
Proof.
  induction l as [|y l IH]; simpl; [done|].
  destruct (cmp x y); [done|done|]. rewrite IH. apply Permutation_swap.
Qed.

Lemma sort_by_perm l : sort_by l ≡ₚ l.
Proof. induction l as [|x l IH]; simpl; [done|]. by rewrite sort_insert_perm, IH. Qed.

Context `{!TotalCmp cmp}.

Lemma sort_insert_sorted x l :
  StronglySorted (fun a b => cmp a b <> Gt) l ->
  StronglySorted (fun a b => cmp a b <> Gt) (sort_insert x l).
Proof.
  induction 1 as [|y l Hs IH Hall]; simpl; [repeat constructor|].
  assert (Hle : cmp x y <> Gt -> Forall (fun b => cmp x b <> Gt) (y :: l)).
  { intros Hxy. constructor; [done|]. eapply list.Forall_impl; [done|].
    intros b Hb. by apply (cmp_trans cmp _ y). }
  destruct (cmp x y) eqn:E; [constructor; [by constructor|by apply Hle]..|].
  constructor; [done|]. rewrite sort_insert_perm. constructor; [|done].
  rewrite (cmp_opp cmp), E. done.
Qed.

Lemma sort_by_sorted l : StronglySorted (fun a b => cmp a b <> Gt) (sort_by l).
Proof. induction l; simpl; [constructor|by apply sort_insert_sorted]. Qed.

(** The first item of a sorted list is one of its least. *)
Lemma sort_by_head l x l' :
  sort_by l = x :: l' -> x ∈ l /\ forall y, y ∈ l -> cmp x y <> Gt.
Proof.
  intros Hs. assert (x :: l' ≡ₚ l) as Hp by (rewrite <-Hs; apply sort_by_perm).
  assert (forall y, y ∈ l <-> y ∈ x :: l') as Hin by (intros; by rewrite Hp).
  split; [apply Hin; left|]. intros y [->|Hy]%Hin%elem_of_cons; [by rewrite (cmp_refl cmp)|].
  pose proof (sort_by_sorted l) as Hss. rewrite Hs in Hss.
  inversion Hss as [|?? _ Hall]; subst. rewrite list.Forall_forall in Hall. by apply Hall.
Qed.
End sort.

(** ** The standard library's [BinaryHeap], a max-heap

    The heap is its backing vector.  Which of several greatest items [pop]
    takes, and where [push] puts an item, is the library's choice; the order
    is an argument of each call, because the scheduler's order reads plugin
    counters that change while the queue is in use.  [is_heap cmp] is the
    heap property: it holds as long as the order has not changed. *)
Class StdHeap := {
  std_push : forall {T}, (T -> T -> comparison) -> T -> list T -> list T;
  std_pop : forall {T}, (T -> T -> comparison) -> list T -> option (T * list T);
  is_heap : forall {T}, (T -> T -> comparison) -> list T -> Prop;
  std_push_perm : forall T cmp (x : T) h, std_push cmp x h ≡ₚ x :: h;
  std_pop_nil : forall T cmp, @std_pop T cmp [] = None;
  std_pop_perm : forall T cmp (h : list T), h <> [] ->
    exists x h', std_pop cmp h = Some (x, h') /\ h ≡ₚ x :: h';
  is_heap_nil : forall T cmp, @is_heap T cmp [];
  is_heap_push : forall T cmp (x : T) h, TotalCmp cmp ->
    is_heap cmp h -> is_heap cmp (std_push cmp x h);
  is_heap_pop : forall T cmp (x : T) h h', TotalCmp cmp ->
    is_heap cmp h -> std_pop cmp h = Some (x, h') ->
    is_heap cmp h' /\ forall y, y ∈ h -> cmp y x <> Gt
}.

Section heap.
Context `{StdHeap}.

(** [BinaryHeap::push], [pop] and [is_empty] of [bin_heap.rs]. *)
Definition heap_push {T} (cmp : T -> T -> comparison) (t : T) (h : list T) : list T :=
  std_push cmp t h.

Definition heap_pop {T} (cmp : T -> T -> comparison) (h : list T) : option (T * list T) :=
  match std_pop cmp h with
  | None => None
  | Some (item, h') => Some (item, h')
  end.

Definition heap_is_empty {T} (h : list T) : bool :=
  match h with [] => true | _ => false end.

(** Pushing the items of a list one after the other. *)
Definition heap_push_all {T} (cmp : T -> T -> comparison) (l h : list T) : list T :=
  foldl (fun h x => heap_push cmp x h) h l.

Lemma heap_pop_eq {T} (cmp : T -> T -> comparison) h : heap_pop cmp h = std_pop cmp h.
Proof. unfold heap_pop. by destruct (std_pop cmp h) as [[]|]. Qed.

Lemma heap_pop_perm {T} (cmp : T -> T -> comparison) h x h' :
  heap_pop cmp h = Some (x, h') -> h ≡ₚ x :: h'.
Proof.
  rewrite heap_pop_eq. intros Hp. destruct h as [|y h]; [by rewrite std_pop_nil in Hp|].
  destruct (std_pop_perm T cmp (y :: h)) as (x1 & h1 & Hp1 & Hperm); [done|].
  rewrite Hp in Hp1. by simplify_eq.
Qed.

Lemma heap_pop_some {T} (cmp : T -> T -> comparison) h :
  heap_is_empty h = false -> exists x h', heap_pop cmp h = Some (x, h').
Proof.
  destruct h as [|y h]; [done|]. intros _. rewrite heap_pop_eq.
  destruct (std_pop_perm T cmp (y :: h)) as (x1 & h1 & ? & _); eauto.
Qed.

Lemma heap_push_all_perm {T} (cmp : T -> T -> comparison) l h :
  heap_push_all cmp l h ≡ₚ l ++ h.
Proof.
  unfold heap_push_all. revert h. induction l as [|x l IH]; intros h; simpl; [done|].
  rewrite IH. unfold heap_push. rewrite std_push_perm. symmetry. apply Permutation_middle.
Qed.

Lemma heap_push_all_heap {T} (cmp : T -> T -> comparison) `{!TotalCmp cmp} l h :
  is_heap cmp h -> is_heap cmp (heap_push_all cmp l h).
Proof.
  revert h. induction l as [|x l IH]; intros h Hh; simpl; [done|].
  apply IH. by apply is_heap_push.
Qed.
End heap.

(** A reference implementation: an unordered vector, [pop] takes the first
    greatest item. *)
Module ListHeap.
Section list_heap.
Context {T : Type} (cmp : T -> T -> comparison).

Fixpoint list_pop (h : list T) : option (T * list T) :=
  match h with
  | [] => None
  | x :: h => match list_pop h with
              | None => Some (x, [])
              | Some (m, rest) =>
                  match cmp x m with Lt => Some (m, x :: rest) | _ => Some (x, m :: rest) end
              end
  end.

Lemma list_pop_perm h :
  match list_pop h with Some (x, h') => h ≡ₚ x :: h' | None => h = [] end.
Proof.
  induction h as [|x h IH]; simpl; [done|]. destruct (list_pop h) as [[m rest]|]; [|by subst].
  destruct (cmp x m); rewrite IH; [done|apply Permutation_swap|done].
Qed.

Lemma list_pop_max h x h' :
  TotalCmp cmp -> list_pop h = Some (x, h') -> forall y, y ∈ h -> cmp y x <> Gt.
Proof.
  intros Hc. revert x h'. induction h as [|a h IH]; simpl; intros x h' Hp y Hy; [done|].
  pose proof (list_pop_perm h) as Hperm. destruct (list_pop h) as [[m rest]|].
  - specialize (IH m rest eq_refl). destruct (cmp a m) eqn:E; simplify_eq;
      apply elem_of_cons in Hy as [->|Hy].
    1,5: by rewrite (cmp_refl cmp).
    2: by rewrite E. 2: by apply IH.
    1,2: apply (cmp_trans cmp _ m); [by apply IH|]; rewrite (cmp_opp cmp), E; done.
  - simplify_eq. apply elem_of_cons in Hy as [->|[]%elem_of_nil]. by rewrite (cmp_refl cmp).
Qed.
End list_heap.

Definition heap : StdHeap.
Proof.
  refine {| std_push := fun T _ x h => x :: h; std_pop := @list_pop;
            is_heap := fun _ _ _ => True |}.
  - done.
  - done.
  - intros T cmp h Hne. pose proof (list_pop_perm cmp h) as Hp.
    destruct (list_pop cmp h) as [[x h']|]; [eauto|done].
  - done.
  - done.
  - intros T cmp x h h' Hc _ Hp. split; [done|]. by eapply list_pop_max.
Defined.
End ListHeap.
