(* ===== verification/PluginApi.v ===== *)
(** * The plugin interface of the scheduler ([scheduler/plugins/mod.rs],
    [common/src/ctx.rs])

    The demand helpers the plugins share, the configured limits, and the
    trait [Plugin] as a type class.  A callback can panic (the [expect] of the
    DRF plugin), so it returns a [result]. *)
From S2P Require Import Prelude Types Snapshot.
Local Open Scope Z_scope.

(** [FlameLimits], the limits of the cluster configuration. *)
Record FlameLimits := mkLimits {
  fl_max_sessions : option nat;
  fl_application_max_executors : option Z;
  fl_session_max_executors : option Z;
  fl_node_max_executors : Z
}.

Record PluginsOptions := mkOptions { po_policies : list string; po_limits : FlameLimits }.

(** Executors a session needs together before it can run. *)
Definition batch_size (ssn : SessionInfo) : Z :=
  let pending := default 0 (si_tasks_status ssn !! TaskPending) in
  if (pending >? 0) && (si_batch_size ssn >? 1) then si_batch_size ssn else 0.

(** Bounded executor demand: tasks, gang size, minimum and maximum. *)
Definition compute_demand (ssn : SessionInfo) : Z :=
  if negb (si_is_open ssn) then 0
  else
    let task_count :=
      foldl (fun count tasks => u32_saturating_add count (Z.max tasks 0)) 0
        (omap (fun st => si_tasks_status ssn !! st) [TaskPending; TaskRunning]) in
    let demand := Z.max (Z.max task_count (si_min_instances ssn)) (batch_size ssn) in
    match si_max_instances ssn with
    | None => demand
    | Some maximum => Z.min demand maximum
    end.

(** The trait [Plugin].  [None] is "no opinion". *)
Class Plugin (P : Type) := {
  name : P -> string;
  setup : SnapShot -> P -> result P;
  ssn_order_fn : P -> SessionInfo -> SessionInfo -> option comparison;
  node_order_fn : P -> NodeInfo -> NodeInfo -> option comparison;
  executor_order_fn : P -> SessionInfo -> ExecutorInfo -> ExecutorInfo -> option comparison;
  is_underused : P -> SessionInfo -> option bool;
  is_ready : P -> SessionInfo -> option bool;
  is_satisfied : P -> SessionInfo -> option bool;
  is_overused : P -> SessionInfo -> option bool;
  is_available : P -> ExecutorInfo -> SessionInfo -> option bool;
  is_allocatable : P -> NodeInfo -> SessionInfo -> result (option bool);
  is_reclaimable : P -> ExecutorInfo -> option bool;
  on_session_bind : ExecutorInfo -> SessionInfo -> P -> result P;
  on_session_unbind : ExecutorInfo -> SessionInfo -> P -> result P;
  on_executor_interrupt : ExecutorInfo -> SessionInfo -> P -> result P;
  on_executor_create : ExecutorInfo -> SessionInfo -> P -> result P;
  on_executor_pipeline : ExecutorInfo -> SessionInfo -> P -> result P
}.

(** ** Lemmas *)

(** A session as the service admits it: counters in range and the bounds
    [validate_instance_limits] accepts. *)
Record si_wf (s : SessionInfo) : Prop := {
  sw_min : is_u32 (si_min_instances s);
  sw_batch : is_u32 (si_batch_size s);
  sw_max : forall m, si_max_instances s = Some m -> is_u32 m;
  sw_min_max : forall m, si_max_instances s = Some m -> si_min_instances s <= m;
  sw_batch_max : forall m, si_max_instances s = Some m -> 1 < si_batch_size s -> si_batch_size s <= m
}.

(** The number of pending and running tasks, before saturation. *)
Definition active_tasks (s : SessionInfo) : Z :=
  Z.max 0 (default 0 (si_tasks_status s !! TaskPending)) +
  Z.max 0 (default 0 (si_tasks_status s !! TaskRunning)).

Lemma compute_demand_task_count s :
  foldl (fun count tasks => u32_saturating_add count (Z.max tasks 0)) 0
    (omap (fun st => si_tasks_status s !! st) [TaskPending; TaskRunning]) =
  Z.min u32_max (active_tasks s).
Proof.
  unfold active_tasks, u32_saturating_add. simpl.
  destruct (si_tasks_status s !! TaskPending), (si_tasks_status s !! TaskRunning); simpl; width.
Qed.

Lemma batch_size_cases s :
  batch_size s = 0 \/
  (batch_size s = si_batch_size s /\ 1 < si_batch_size s /\ 0 < active_tasks s).
Proof.
  unfold batch_size, active_tasks.
  destruct (Z.gtb_spec (default 0 (si_tasks_status s !! TaskPending)) 0); [|by left].
  destruct (Z.gtb_spec (si_batch_size s) 1); [|by left]. right. simpl. lia.
Qed.

Lemma compute_demand_bounds s :
  si_wf s ->
  is_u32 (compute_demand s) /\
  (forall m, si_max_instances s = Some m -> compute_demand s <= m) /\
  (si_is_open s = true ->
     si_min_instances s <= compute_demand s /\ batch_size s <= compute_demand s).
Proof.
  intros [Hmin Hb Hm Hmm Hbm]. unfold compute_demand. rewrite compute_demand_task_count.
  assert (0 <= active_tasks s) by (unfold active_tasks; lia).
  destruct (batch_size_cases s) as [Hbs|(Hbs & ? & ?)]; rewrite Hbs;
  destruct (si_is_open s); simpl;
  destruct (si_max_instances s) as [m|];
    try (specialize (Hm m eq_refl); specialize (Hmm m eq_refl); specialize (Hbm m eq_refl));
    (split; [|split]); try intros ? [= <-]; try (intros; split); try intros; try done; width.
Qed.

(** The demand the plugins share is bounded as documented: a closed session
    demands nothing; an open one demands at least its minimum and its gang,
    never more than its maximum, and otherwise exactly its pending and running
    tasks, saturated at the counter's width. *)
Theorem compute_demand_spec s :
  si_wf s ->
  is_u32 (compute_demand s) /\
  (forall m, si_max_instances s = Some m -> compute_demand s <= m) /\
  (si_is_open s = false -> compute_demand s = 0) /\
  (si_is_open s = true ->
     si_min_instances s <= compute_demand s /\ batch_size s <= compute_demand s) /\
  (si_is_open s = true -> si_max_instances s = None ->
     si_min_instances s <= active_tasks s <= u32_max -> si_batch_size s <= 1 ->
     compute_demand s = active_tasks s).
Proof.
  intros Hwf. destruct (compute_demand_bounds s Hwf) as (? & ? & ?). split_and!; [done|done| |done|].
  - unfold compute_demand. by intros ->.
  - intros Ho Hmax Hact Hbs. unfold compute_demand. rewrite compute_demand_task_count, Ho, Hmax.
    simpl. destruct (batch_size_cases s) as [->|(? & ? & ?)]; unfold active_tasks in *; lia.
Qed.

Definition demo_ssn_info : SessionInfo :=
  mkSessionInfo "s1" "app" (<[TaskPending := 3]> ∅) 0 None SsnOpen 1 (Some 4) 2 0
    (Some (mkRR 1 1 0)) 0 ∅.

Lemma demo_ssn_info_wf : si_wf demo_ssn_info.
Proof. split; simpl; try intros m [= <-]; width. Qed.

Lemma compute_demand_spec_witness : compute_demand demo_ssn_info = 3 /\ is_u32 (compute_demand demo_ssn_info).
Proof.
  split; [by vm_compute|]. exact (proj1 (compute_demand_spec demo_ssn_info demo_ssn_info_wf)).
Defined.
