(* ===== verification/MinMax.v ===== *)
(** * The MinMax plugin ([scheduler/plugins/minmax.rs])

    Instance bounds and capacity: how many executors a session, an
    application and a node hold, and which resources of a node are reserved.
    It is the first plugin the manager asks. *)
From S2P Require Import Prelude Types Resource Filters Snapshot PluginApi.
Local Open Scope Z_scope.

Record MinMaxPlugin := mkMinMax {
  mm_limits : FlameLimits;
  mm_node_executors : gmap string nat;
  mm_node_resources : gmap string ResourceRequirement;
  mm_application_limits : gmap string Z;
  mm_application_executors : gmap string nat;
  mm_session_executors : gmap string nat;
  mm_session_interrupted : gmap string nat
}.

(** [MinMaxPlugin::new_ptr]. *)
Definition new_ptr (options : PluginsOptions) : MinMaxPlugin :=
  mkMinMax (po_limits options) ∅ ∅ ∅ ∅ ∅ ∅.

Definition with_capacity ne nr ae (p : MinMaxPlugin) : MinMaxPlugin :=
  mkMinMax (mm_limits p) ne nr (mm_application_limits p) ae (mm_session_executors p)
    (mm_session_interrupted p).

Definition with_session_counts se si (p : MinMaxPlugin) : MinMaxPlugin :=
  mkMinMax (mm_limits p) (mm_node_executors p) (mm_node_resources p) (mm_application_limits p)
    (mm_application_executors p) se si.

Definition account_capacity (e : ExecutorInfo) (p : MinMaxPlugin) : MinMaxPlugin :=
  with_capacity
    (hm_incr (ei_node e) (mm_node_executors p))
    (<[ei_node e := add (default rr_default (mm_node_resources p !! ei_node e)) (ei_resreq e)]>
       (mm_node_resources p))
    (hm_incr (ei_application e) (mm_application_executors p)) p.

Definition executor_limit (entity cluster : option Z) : option Z :=
  match entity, cluster with
  | Some e, Some c => Some (Z.min e c)
  | Some e, None => Some e
  | None, c => c
  end.

(** One turn of the loop of [setup]. *)
Definition setup_executor (p : MinMaxPlugin) (e : ExecutorInfo) : MinMaxPlugin :=
  if bool_decide (ei_state e = ExecReleased) then p
  else
    let p := account_capacity e p in
    match ei_ssn_id e with
    | None => p
    | Some session =>
        with_session_counts
          (hm_incr session (mm_session_executors p))
          (if ei_is_interrupted e then hm_incr session (mm_session_interrupted p)
           else mm_session_interrupted p) p
    end.

Section setup.
Context `{Env}.

Definition minmax_setup (snapshot : SnapShot) (p : MinMaxPlugin) : result MinMaxPlugin :=
  let limits := hm_collect ((fun a => (ai_name a, ai_max_instances a)) <$>
                  hm_values (find_applications ALL_APPLICATION snapshot)) in
  let p := mkMinMax (mm_limits p) ∅ ∅ limits ∅ ∅ ∅ in
  Ok (foldl setup_executor p (hm_values (find_executors ALL_EXECUTOR snapshot))).
End setup.

Definition session_instances (p : MinMaxPlugin) (ssn : SessionInfo) : Z :=
  Z.of_nat (default 0%nat (mm_session_executors p !! si_id ssn)).

(** [executor_limit(ssn.max_instances, self.limits.session.max_executors)]. *)
Definition session_limit (p : MinMaxPlugin) (ssn : SessionInfo) : option Z :=
  executor_limit (si_max_instances ssn) (fl_session_max_executors (mm_limits p)).

Definition minmax_is_underused (p : MinMaxPlugin) (ssn : SessionInfo) : option bool :=
  let instances := session_instances p ssn in
  if is_some_and (session_limit p ssn) (fun maximum => instances >=? maximum)
  then Some false
  else then_some (instances <? compute_demand ssn) true.

Definition minmax_is_ready (p : MinMaxPlugin) (ssn : SessionInfo) : option bool :=
  let instances := session_instances p ssn in
  if is_some_and (session_limit p ssn) (fun maximum => instances >=? maximum)
  then Some true
  else if instances <? Z.max (si_min_instances ssn) (batch_size ssn) then Some false
  else then_some (instances >=? compute_demand ssn) true.

Definition minmax_is_satisfied (p : MinMaxPlugin) (ssn : SessionInfo) : option bool :=
  let kept_warm := if si_batch_size ssn >? 1 then si_min_instances ssn else 0 in
  let gang := Z.max (batch_size ssn) kept_warm in
  let minimum := match executor_limit (Some gang) (fl_session_max_executors (mm_limits p)) with
                 | None => gang
                 | Some limit => Z.min limit gang
                 end in
  Some (session_instances p ssn >=? minimum).

Definition minmax_is_overused (p : MinMaxPlugin) (ssn : SessionInfo) : option bool :=
  let executors := default 0%nat (mm_session_executors p !! si_id ssn) in
  let interrupted := default 0%nat (mm_session_interrupted p !! si_id ssn) in
  let effective := Z.of_nat (executors - interrupted) in
  let demand := match session_limit p ssn with
                | None => compute_demand ssn
                | Some maximum => Z.min (compute_demand ssn) maximum
                end in
  then_some (effective >? demand) true.

Definition minmax_is_allocatable (p : MinMaxPlugin) (node : NodeInfo) (ssn : SessionInfo)
    : option bool :=
  let used := default rr_default (mm_node_resources p !! ni_name node) in
  let request := default rr_default (si_resreq ssn) in
  let alloc := ni_allocatable node in
  if (rr_cpu request >? u64_saturating_sub (rr_cpu alloc) (rr_cpu used))
     || (rr_memory request >? u64_saturating_sub (rr_memory alloc) (rr_memory used))
     || (rr_gpu request >? i32_saturating_sub (rr_gpu alloc) (rr_gpu used))
  then Some false
  else
    let active := Z.of_nat (default 0%nat (mm_node_executors p !! ni_name node)) in
    if negb (active <? fl_node_max_executors (mm_limits p)) then Some false
    else
      match executor_limit (mm_application_limits p !! si_application ssn)
              (fl_application_max_executors (mm_limits p)) with
      | None => Some true
      | Some max_instances =>
          let instances :=
            Z.of_nat (default 0%nat (mm_application_executors p !! si_application ssn)) in
          Some (instances <? max_instances)
      end.

Definition minmax_is_available (p : MinMaxPlugin) (e : ExecutorInfo) (_ : SessionInfo)
    : option bool :=
  then_some (ei_is_interrupted e) false.

Definition minmax_is_reclaimable (p : MinMaxPlugin) (e : ExecutorInfo) : option bool :=
  then_some (ei_is_interrupted e) false.

Definition minmax_on_executor_create (e : ExecutorInfo) (ssn : SessionInfo) (p : MinMaxPlugin)
    : result MinMaxPlugin :=
  let p := account_capacity e p in
  Ok (with_session_counts (hm_incr (si_id ssn) (mm_session_executors p))
        (mm_session_interrupted p) p).

Definition minmax_on_executor_pipeline (e : ExecutorInfo) (ssn : SessionInfo)
    (p : MinMaxPlugin) : result MinMaxPlugin :=
  if negb (bool_decide (ei_ssn_id e = Some (si_id ssn)))
  then Ok (with_session_counts (hm_incr (si_id ssn) (mm_session_executors p))
             (mm_session_interrupted p) p)
  else Ok p.

Definition minmax_on_session_bind (e : ExecutorInfo) (ssn : SessionInfo) (p : MinMaxPlugin)
    : result MinMaxPlugin :=
  if negb (bool_decide (ei_ssn_id e = Some (si_id ssn)))
  then Ok (with_session_counts (hm_incr (si_id ssn) (mm_session_executors p))
             (mm_session_interrupted p) p)
  else Ok p.

Definition minmax_on_executor_interrupt (_ : ExecutorInfo) (ssn : SessionInfo)
    (p : MinMaxPlugin) : result MinMaxPlugin :=
  Ok (with_session_counts (mm_session_executors p)
        (hm_incr (si_id ssn) (mm_session_interrupted p)) p).

Definition minmax_on_session_unbind (e : ExecutorInfo) (ssn : SessionInfo) (p : MinMaxPlugin)
    : result MinMaxPlugin :=
  let p := with_session_counts (hm_decr (si_id ssn) (mm_session_executors p))
             (mm_session_interrupted p) p in
  if ei_is_interrupted e
  then Ok (with_session_counts (mm_session_executors p)
             (hm_decr (si_id ssn) (mm_session_interrupted p)) p)
  else Ok p.

#[export] Instance MinMax_plugin `{Env} : Plugin MinMaxPlugin := {
  name := fun _ => "minmax";
  setup := minmax_setup;
  ssn_order_fn := fun _ _ _ => None;
  node_order_fn := fun _ _ _ => None;
  executor_order_fn := fun _ _ _ _ => None;
  is_underused := minmax_is_underused;
  is_ready := minmax_is_ready;
  is_satisfied := minmax_is_satisfied;
  is_overused := minmax_is_overused;
  is_available := minmax_is_available;
  is_allocatable := fun p n s => Ok (minmax_is_allocatable p n s);
  is_reclaimable := minmax_is_reclaimable;
  on_session_bind := minmax_on_session_bind;
  on_session_unbind := minmax_on_session_unbind;
  on_executor_interrupt := minmax_on_executor_interrupt;
  on_executor_create := minmax_on_executor_create;
  on_executor_pipeline := minmax_on_executor_pipeline
}.

(** ** The counters count the executors *)

Definition on_node (n : string) (e : ExecutorInfo) : bool := bool_decide (ei_node e = n).
Definition of_app (a : string) (e : ExecutorInfo) : bool := bool_decide (ei_application e = a).
Definition of_ssn (s : string) (e : ExecutorInfo) : bool := bool_decide (ei_ssn_id e = Some s).
Definition live (e : ExecutorInfo) : bool := negb (bool_decide (ei_state e = ExecReleased)).

(** The resources reserved on a node. *)
Definition node_load (n : string) (l : list ExecutorInfo) : list ResourceRequirement :=
  ei_resreq <$> List.filter (on_node n) l.

(** The capacity counters agree with the executors [l] that hold capacity. *)
Record capacity_of (p : MinMaxPlugin) (l : list ExecutorInfo) : Prop := {
  co_node : forall n, default 0%nat (mm_node_executors p !! n) = count (on_node n) l;
  co_res : forall n, default rr_default (mm_node_resources p !! n) = rr_sum (node_load n l);
  co_app : forall a, default 0%nat (mm_application_executors p !! a) = count (of_app a) l
}.

(** The session counters agree with the executors [l]. *)
Record sessions_of (p : MinMaxPlugin) (l : list ExecutorInfo) : Prop := {
  so_exec : forall s, default 0%nat (mm_session_executors p !! s) = count (of_ssn s) l;
  so_int : forall s, default 0%nat (mm_session_interrupted p !! s) =
    count (fun e => of_ssn s e && ei_is_interrupted e) l
}.

#[export] Instance node_load_Permutation n : Proper ((≡ₚ) ==> (≡ₚ)) (node_load n).
Proof. intros l1 l2 Hl. unfold node_load. by rewrite Hl. Qed.

#[export] Instance capacity_of_Permutation p : Proper ((≡ₚ) ==> iff) (capacity_of p).
Proof.
  apply proper_sym_impl_iff; [apply _|]. intros l1 l2 Hl [H1 H2 H3].
  split; intros; rewrite <-Hl; auto.
Qed.

#[export] Instance sessions_of_Permutation p : Proper ((≡ₚ) ==> iff) (sessions_of p).
Proof.
  apply proper_sym_impl_iff; [apply _|]. intros l1 l2 Hl [H1 H2].
  split; intros; rewrite <-Hl; auto.
Qed.

Lemma node_load_cons n e l :
  node_load n (e :: l) = if on_node n e then ei_resreq e :: node_load n l else node_load n l.
Proof. unfold node_load. simpl. by destruct (on_node n e). Qed.

Lemma hm_incr_count {A} (f : A -> bool) (k k' : string) m x l :
  (f x = true <-> k = k') -> default 0%nat (m !! k') = count f l ->
  default 0%nat (hm_incr k m !! k') = count f (x :: l).
Proof.
  intros Hf Hm. rewrite hm_incr_lookup, Hm, count_cons.
  destruct (decide (k = k')) as [He|Hne]; [rewrite (proj2 Hf He); lia|].
  destruct (f x); [|lia]. by destruct Hne; apply Hf.
Qed.

Lemma account_capacity_of e p l :
  capacity_of p l -> capacity_of (account_capacity e p) (e :: l).
Proof.
  intros [Hn Hr Ha]. split; simpl.
  - intros n. apply hm_incr_count; [apply bool_decide_eq_true|auto].
  - intros n. rewrite node_load_cons. unfold on_node.
    destruct (decide (ei_node e = n)) as [<-|Hne].
    + rewrite lookup_insert_eq, bool_decide_true by done. rewrite Hr. apply rr_sum_cons.
    + rewrite lookup_insert_ne, bool_decide_false by done. apply Hr.
  - intros a. apply hm_incr_count; [apply bool_decide_eq_true|auto].
Qed.

Lemma with_session_counts_of se si p l :
  capacity_of p l -> capacity_of (with_session_counts se si p) l.
Proof. by intros []. Qed.

Lemma setup_executor_of e p l :
  capacity_of p l -> sessions_of p l ->
  let l' := if live e then e :: l else l in
  capacity_of (setup_executor p e) l' /\ sessions_of (setup_executor p e) l'.
Proof.
  intros Hc Hs. unfold setup_executor, live.
  destruct (bool_decide (ei_state e = ExecReleased)); simpl; [done|].
  pose proof (account_capacity_of e p l Hc) as [Hn Hr Ha]. destruct Hs as [He Hi].
  destruct (ei_ssn_id e) as [s|] eqn:Essn; (split; [by split|]); split; simpl; intros s'.
  - apply hm_incr_count; [|auto]. unfold of_ssn. rewrite Essn, bool_decide_eq_true. naive_solver.
  - destruct (ei_is_interrupted e) eqn:Eint.
    + apply (hm_incr_count (fun e => of_ssn s' e && ei_is_interrupted e)); [|auto].
      unfold of_ssn. rewrite Essn, Eint, andb_true_r, bool_decide_eq_true. naive_solver.
    + rewrite count_cons, Eint, andb_false_r. auto.
  - rewrite count_cons, He. unfold of_ssn at 2. by rewrite bool_decide_false by congruence.
  - rewrite count_cons, Hi. unfold of_ssn at 2. by rewrite bool_decide_false by congruence.
Qed.

Lemma setup_executors_of l p acc :
  capacity_of p acc -> sessions_of p acc ->
  capacity_of (foldl setup_executor p l) (List.filter live l ++ acc) /\
  sessions_of (foldl setup_executor p l) (List.filter live l ++ acc).
Proof.
  revert p acc. induction l as [|e l IH]; simpl; intros p acc Hc Hs; [done|].
  destruct (setup_executor_of e p acc Hc Hs) as [Hc' Hs'].
  destruct (IH _ _ Hc' Hs') as [Hc2 Hs2].
  assert ((if live e then e :: List.filter live l else List.filter live l) ++ acc ≡ₚ
          List.filter live l ++ (if live e then e :: acc else acc)) as Hp.
  { destruct (live e); [|done]. simpl. apply Permutation_middle. }
  by rewrite Hp.
Qed.

(** ** Admission *)

(** The limits a fresh executor of an application is held to. *)
Definition application_limit (p : MinMaxPlugin) (app : string) : option Z :=
  executor_limit (mm_application_limits p !! app) (fl_application_max_executors (mm_limits p)).

(** No node of [nodes] is loaded beyond what it can allocate, in resources and
    in number of executors. *)
Definition node_ok (limits : FlameLimits) (l : list ExecutorInfo) (n : NodeInfo) : Prop :=
  total_le (node_load (ni_name n) l) (ni_allocatable n) /\
  Z.of_nat (count (on_node (ni_name n)) l) <= fl_node_max_executors limits.

Lemma node_load_nonneg n l :
  Forall (fun e => rr_nonneg (ei_resreq e)) l -> Forall rr_nonneg (node_load n l).
Proof.
  intros Hl. unfold node_load. apply Forall_fmap. apply list.Forall_forall. intros e He.
  rewrite list_elem_of_In, filter_In in He. rewrite list.Forall_forall in Hl.
  apply Hl, list_elem_of_In. tauto.
Qed.

(** What an admitted request leaves of a node. *)
Lemma minmax_is_allocatable_true p node ssn l e :
  capacity_of p l -> Forall (fun e => rr_nonneg (ei_resreq e)) l ->
  rr_nonneg (ei_resreq e) -> rr_wf (ni_allocatable node) ->
  node_ok (mm_limits p) l node ->
  minmax_is_allocatable p node ssn = Some true ->
  ei_node e = ni_name node -> ei_resreq e = default rr_default (si_resreq ssn) ->
  node_ok (mm_limits p) (e :: l) node.
Proof.
  intros Hc Hl He Hwf [Hle Hcnt] Hadm Hnode Hreq.
  unfold minmax_is_allocatable in Hadm. rewrite (co_res p l Hc), (co_node p l Hc), <-Hreq in Hadm.
  pose proof (node_load_nonneg (ni_name node) l Hl) as Hnn.
  rewrite (rr_sum_exact _ _ Hnn Hwf Hle) in Hadm.
  destruct (Zsum_rr_nonneg _ Hnn) as (?&?&?), Hle as (?&?&?), Hwf as (?&?&?), He as [(?&?&?) ?].
  destruct (_ || _) eqn:Hres in Hadm; [done|].
  rewrite !orb_false_iff, !Z.gtb_ltb, !Z.ltb_ge in Hres. destruct Hres as [[Hr1 Hr2] Hr3].
  unfold u64_saturating_sub, i32_saturating_sub in *. simpl in Hr1, Hr2, Hr3.
  destruct (_ <? _) eqn:Hnl in Hadm; [|done]. apply Z.ltb_lt in Hnl.
  split.
  - rewrite node_load_cons. unfold on_node. rewrite bool_decide_true by done.
    unfold total_le. simpl. width.
  - rewrite count_cons. unfold on_node at 1. rewrite bool_decide_true by done. lia.
Qed.

Lemma minmax_is_allocatable_app p node ssn l e lim :
  capacity_of p l -> minmax_is_allocatable p node ssn = Some true ->
  ei_application e = si_application ssn ->
  application_limit p (si_application ssn) = Some lim ->
  Z.of_nat (count (of_app (si_application ssn)) (e :: l)) <= lim.
Proof.
  intros Hc Hadm Happ Hlim. unfold minmax_is_allocatable in Hadm.
  unfold application_limit in Hlim. rewrite Hlim, (co_app p l Hc) in Hadm.
  destruct (_ || _); [done|]. destruct (_ <? _) in Hadm; [|done]. simpl in Hadm.
  injection Hadm as Hadm. apply Z.ltb_lt in Hadm. rewrite count_cons. unfold of_app at 1.
  rewrite bool_decide_true by done. lia.
Qed.

(** ** Binding and taking it back *)

(** Plugin states that answer every question alike: a counter that is absent
    reads as zero. *)
Definition mm_equiv (p q : MinMaxPlugin) : Prop :=
  mm_limits p = mm_limits q /\
  mm_application_limits p = mm_application_limits q /\
  (forall n, default 0%nat (mm_node_executors p !! n) = default 0%nat (mm_node_executors q !! n)) /\
  (forall n, default rr_default (mm_node_resources p !! n) =
             default rr_default (mm_node_resources q !! n)) /\
  (forall a, default 0%nat (mm_application_executors p !! a) =
             default 0%nat (mm_application_executors q !! a)) /\
  (forall s, default 0%nat (mm_session_executors p !! s) =
             default 0%nat (mm_session_executors q !! s)) /\
  (forall s, default 0%nat (mm_session_interrupted p !! s) =
             default 0%nat (mm_session_interrupted q !! s)).

#[export] Instance MinMax_Equiv : Equiv MinMaxPlugin := mm_equiv.

#[export] Instance mm_equiv_equivalence : Equivalence (≡@{MinMaxPlugin}).
Proof.
  split; unfold equiv, MinMax_Equiv, mm_equiv.
  - done.
  - intros p q (?&?&?&?&?&?&?). split_and!; intros; symmetry; auto.
  - intros p q r (A1&A2&A3&A4&A5&A6&A7) (B1&B2&B3&B4&B5&B6&B7).
    split_and!; intros; [congruence|congruence|by rewrite A3|by rewrite A4|by rewrite A5
      |by rewrite A6|by rewrite A7].
Qed.

Ltac mm_answers :=
  intros ?? (Hl & Hal & Hne & Hnr & Hae & Hse & Hsi) ? ? ->;
  unfold session_instances, session_limit;
  rewrite ?Hl, ?Hal, ?Hne, ?Hnr, ?Hae, ?Hse, ?Hsi; reflexivity.

#[export] Instance is_underused_Proper : Proper ((≡) ==> eq ==> eq) minmax_is_underused.
Proof. unfold minmax_is_underused. mm_answers. Qed.
#[export] Instance is_ready_Proper : Proper ((≡) ==> eq ==> eq) minmax_is_ready.
Proof. unfold minmax_is_ready. mm_answers. Qed.
#[export] Instance is_satisfied_Proper : Proper ((≡) ==> eq ==> eq) minmax_is_satisfied.
Proof. unfold minmax_is_satisfied. mm_answers. Qed.
#[export] Instance is_overused_Proper : Proper ((≡) ==> eq ==> eq) minmax_is_overused.
Proof. unfold minmax_is_overused. mm_answers. Qed.
#[export] Instance is_allocatable_Proper :
  Proper ((≡) ==> eq ==> eq ==> eq) minmax_is_allocatable.
Proof.
  intros ?? (Hl & Hal & Hne & Hnr & Hae & Hse & Hsi) ? ? -> ? ? ->.
  unfold minmax_is_allocatable. by rewrite Hl, Hal, Hne, Hnr, Hae.
Qed.

Lemma with_session_counts_Proper p q se1 si1 se2 si2 :
  p ≡ q -> (forall s, default 0%nat (se1 !! s) = default 0%nat (se2 !! s)) ->
  (forall s, default 0%nat (si1 !! s) = default 0%nat (si2 !! s)) ->
  with_session_counts se1 si1 p ≡ with_session_counts se2 si2 q.
Proof. intros (?&?&?&?&?&?&?) ??. by split_and!. Qed.

Lemma minmax_unbind_Proper e ssn p q p' :
  p ≡ q -> minmax_on_session_unbind e ssn p = Ok p' ->
  exists q', minmax_on_session_unbind e ssn q = Ok q' /\ p' ≡ q'.
Proof.
  intros Hpq. pose proof Hpq as (?&?&?&?&?&Hse&Hsi). unfold minmax_on_session_unbind. simpl.
  assert (Hdecr : forall k (m1 m2 : gmap string nat), (forall s, default 0%nat (m1 !! s) = default 0%nat (m2 !! s)) ->
    forall s, default 0%nat (hm_decr k m1 !! s) = default 0%nat (hm_decr k m2 !! s)).
  { intros k m1 m2 Hm s. by rewrite !hm_decr_lookup, Hm. }
  destruct (ei_is_interrupted e); intros [= <-]; eexists; (split; [done|]);
    apply with_session_counts_Proper; auto. apply with_session_counts_Proper; auto.
Qed.

(** Binding an executor no session holds, and unbinding it, leaves every
    answer as it was. *)
Lemma minmax_bind_unbind e ssn p p1 :
  ei_ssn_id e = None -> ei_is_interrupted e = false ->
  minmax_on_session_bind e ssn p = Ok p1 ->
  exists p2, minmax_on_session_unbind e ssn p1 = Ok p2 /\ p2 ≡ p.
Proof.
  intros Hssn Hint. unfold minmax_on_session_bind, minmax_on_session_unbind.
  rewrite Hssn, Hint, bool_decide_false by done. simpl. intros [= <-].
  eexists. split; [done|]. split_and!; try done. intros s. simpl.
  rewrite hm_decr_lookup, hm_incr_lookup. case_decide; lia.
Qed.

Lemma minmax_setup_spec `{Env} s p :
  snap_wf s ->
  exists p', minmax_setup s p = Ok p' /\ mm_limits p' = mm_limits p /\
    capacity_of p' (List.filter live (hm_values (ss_executors s))) /\
    sessions_of p' (List.filter live (hm_values (ss_executors s))) /\
    forall a, mm_application_limits p' !! a = ai_max_instances <$> ss_applications s !! a.
Proof.
  intros Hwf. unfold minmax_setup, ALL_EXECUTOR, ALL_APPLICATION.
  rewrite find_all_executors_spec, find_all_applications_spec by done.
  set (lims := hm_collect _). set (l := hm_values (ss_executors s)).
  set (p0 := mkMinMax _ _ _ _ _ _ _).
  destruct (setup_executors_of l p0 []) as [Hc Hs];
    [split; intros; simpl; by rewrite ?lookup_empty..|]. rewrite app_nil_r in *.
  assert (Hkeep : forall l p, mm_limits (foldl setup_executor p l) = mm_limits p /\
    mm_application_limits (foldl setup_executor p l) = mm_application_limits p).
  { clear. induction l as [|e l IH]; simpl; intros p; [done|].
    destruct (IH (setup_executor p e)) as [-> ->]. unfold setup_executor.
    destruct (bool_decide _); [done|]. by destruct (ei_ssn_id e). }
  eexists. split; [done|]. destruct (Hkeep l p0) as [-> ->]. split_and!; [done..|].
  intros a. subst p0 lims. simpl. apply option_eq. intros m. rewrite hm_collect_lookup.
  - rewrite list_elem_of_fmap, fmap_Some. split.
    + intros (x & [= -> ->] & (k & Hk)%hm_values_elem).
      exists x. by rewrite (sw_apps s Hwf _ _ Hk).
    + intros (x & Hx & ->). exists x. rewrite <-(sw_apps s Hwf _ _ Hx), hm_values_elem. eauto.
  - rewrite <-list_fmap_compose. apply (keyed_values_NoDup ai_name). auto with flame.
Qed.

(** ** Properties *)

(** After [setup], the plugin's counters are the counts and resource totals
    of the snapshot's executors that are not released: per node, per
    application and per session, whatever order the executors come in. *)
Theorem minmax_setup_counts `{Env} s p :
  snap_wf s ->
  exists p', minmax_setup s p = Ok p' /\
    let l := List.filter live (map_to_list (ss_executors s)).*2 in
    (forall n, default 0%nat (mm_node_executors p' !! n) = count (on_node n) l /\
               default rr_default (mm_node_resources p' !! n) = rr_sum (node_load n l)) /\
    (forall a, default 0%nat (mm_application_executors p' !! a) = count (of_app a) l /\
               mm_application_limits p' !! a = ai_max_instances <$> ss_applications s !! a) /\
    (forall x, default 0%nat (mm_session_executors p' !! x) = count (of_ssn x) l /\
               default 0%nat (mm_session_interrupted p' !! x) =
                 count (fun e => of_ssn x e && ei_is_interrupted e) l).
Proof.
  intros Hwf. destruct (minmax_setup_spec s p Hwf) as (p' & Hp & _ & Hc & Hs & Ha).
  exists p'. split; [done|]. rewrite hm_values_perm in Hc. rewrite hm_values_perm in Hs.
  destruct Hc, Hs. split_and!; auto.
Qed.

(** The plugin's opinions are consistent: a session at its limit is ready and
    not underused; one it calls underused is below demand and below its limit,
    so it is neither overused nor, once ready, asked for again. *)
Theorem minmax_opinions_consistent p s :
  (is_some_and (session_limit p s) (fun m => session_instances p s >=? m) = true ->
     minmax_is_underused p s = Some false /\ minmax_is_ready p s = Some true) /\
  (minmax_is_underused p s = Some true ->
     session_instances p s < compute_demand s /\
     (forall m, session_limit p s = Some m -> session_instances p s < m) /\
     minmax_is_ready p s <> Some true /\ minmax_is_overused p s <> Some true).
Proof.
  unfold minmax_is_underused, minmax_is_ready, minmax_is_overused. split; [by intros ->|].
  destruct (is_some_and _ _) eqn:Hlim; [done|]. unfold then_some.
  destruct (Z.ltb_spec (session_instances p s) (compute_demand s)) as [Hlt|]; [|done]. intros _.
  assert (Hm : forall m, session_limit p s = Some m -> session_instances p s < m).
  { intros m Hm. rewrite Hm in Hlim. simpl in Hlim. rewrite Z.geb_leb, Z.leb_gt in Hlim. lia. }
  split_and!; [done|done| |].
  - destruct (_ <? Z.max _ _); [done|]. destruct (Z.geb_spec (session_instances p s) (compute_demand s)); [lia|done].
  - unfold session_instances in *. destruct (session_limit p s) as [m|].
    + specialize (Hm m eq_refl). destruct (Z.gtb_spec (Z.of_nat (default 0%nat (mm_session_executors p !! si_id s)
        - default 0%nat (mm_session_interrupted p !! si_id s))) (Z.min (compute_demand s) m)); [lia|done].
    + destruct (Z.gtb_spec (Z.of_nat (default 0%nat (mm_session_executors p !! si_id s)
        - default 0%nat (mm_session_interrupted p !! si_id s))) (compute_demand s)); [lia|done].
Qed.

(** ** Witnesses *)

Lemma demo_snap_wf : snap_wf demo_snap.
Proof. apply snap_reachable_wf, demo_snap_reachable. Qed.

Definition demo_limits : FlameLimits := mkLimits None None None 4.

Lemma minmax_setup_counts_witness :
  exists p', @minmax_setup demo_env demo_snap (new_ptr (mkOptions [] demo_limits)) = Ok p' /\
    default 0%nat (mm_node_executors p' !! "n1") = 2%nat.
Proof.
  destruct (@minmax_setup_counts demo_env demo_snap (new_ptr (mkOptions [] demo_limits)) demo_snap_wf)
    as (p' & Hp & Hn & _).
  exists p'. split; [exact Hp|]. rewrite (proj1 (Hn "n1")). by vm_compute.
Defined.
