(* ===== verification/Policies.v ===== *)
(** * The priority, data-affinity and shim policies
    ([scheduler/plugins/priority.rs], [das.rs], [shim.rs]) *)
From S2P Require Import Prelude Types Filters Snapshot Order PluginApi.
Local Open Scope Z_scope.

(** ** Priority *)
Module Priority.

Record PriorityPlugin := mkPriority { ssn_priority : gmap string Z }.

Definition new_ptr : PriorityPlugin := mkPriority ∅.

Definition priority_setup `{Env} (ss : SnapShot) (_ : PriorityPlugin) : result PriorityPlugin :=
  Ok (mkPriority (foldl (fun m ssn => <[si_id ssn := si_priority ssn]> m) ∅
        (hm_values (find_sessions OPEN_SESSION ss)))).

(** [self.ssn_priority.get(&id).copied().unwrap_or(0)]. *)
Definition priority_of (p : PriorityPlugin) (s : SessionInfo) : Z :=
  default 0 (ssn_priority p !! si_id s).

Definition priority_ssn_order_fn (p : PriorityPlugin) (s1 s2 : SessionInfo)
    : option comparison :=
  let p1 := priority_of p s1 in
  let p2 := priority_of p s2 in
  if negb (p1 =? p2) then Some (Z.compare p2 p1) else None.

#[export] Instance Priority_plugin `{Env} : Plugin PriorityPlugin := {
  name := fun _ => "priority";
  setup := priority_setup;
  ssn_order_fn := priority_ssn_order_fn;
  node_order_fn := fun _ _ _ => None;
  executor_order_fn := fun _ _ _ _ => None;
  is_underused := fun _ _ => None;
  is_ready := fun _ _ => None;
  is_satisfied := fun _ _ => None;
  is_overused := fun _ _ => None;
  is_available := fun _ _ _ => None;
  is_allocatable := fun _ _ _ => Ok None;
  is_reclaimable := fun _ _ => None;
  on_session_bind := fun _ _ p => Ok p;
  on_session_unbind := fun _ _ p => Ok p;
  on_executor_interrupt := fun _ _ p => Ok p;
  on_executor_create := fun _ _ p => Ok p;
  on_executor_pipeline := fun _ _ p => Ok p
}.

Lemma priority_setup_spec `{Env} ss p0 x :
  snap_wf ss -> ss_sessions ss !! si_id x = Some x -> si_state x = SsnOpen ->
  exists p, priority_setup ss p0 = Ok p /\ priority_of p x = si_priority x.
Proof.
  intros Hwf Hx Hopen. eexists. split; [done|]. unfold priority_of. simpl.
  unfold OPEN_SESSION. rewrite find_sessions_spec by done.
  set (m := filter _ _). assert (Hk : keyed si_id m).
  { intros k y Hy. apply map_lookup_filter_Some in Hy as [Hy _]. by apply (sw_ssns ss Hwf). }
  rewrite (foldl_insert_fmap si_id si_priority), (foldl_insert_lookup _ _ _ (si_priority x)); [done| |].
  - rewrite <-list_fmap_compose. by apply (keyed_values_NoDup si_id).
  - apply list_elem_of_fmap. exists x. split; [done|]. apply hm_values_elem. exists (si_id x).
    apply map_lookup_filter_Some. split; [done|]. unfold session_matches. simpl.
    rewrite bool_decide_true by done. done.
Qed.
End Priority.

(** ** Data-affinity scheduling *)
Module Das.

Record DasPlugin := mkDas { affinity : gmap string (gset string) }.

Definition new_ptr : DasPlugin := mkDas ∅.

Definition score (p : DasPlugin) (e : ExecutorInfo) (s : SessionInfo) : nat :=
  match affinity p !! si_id s with
  | None => 0
  | Some aff => size (filter (fun key => key ∈ aff) (ei_attributes e))
  end.

(** [affinity.entry(id).or_default()], extended with the affinity of every
    pending task. *)
Definition setup_session (m : gmap string (gset string)) (s : SessionInfo)
    : gmap string (gset string) :=
  let aff := default ∅ (m !! si_id s) in
  let aff := match si_task_index s !! TaskPending with
             | None => aff
             | Some tasks => foldl (fun a t => a ∪ ti_affinity t) aff (map_to_list tasks).*2
             end in
  <[si_id s := aff]> m.

Definition das_setup `{Env} (ss : SnapShot) (_ : DasPlugin) : result DasPlugin :=
  Ok (mkDas (foldl setup_session ∅ (hm_values (ss_sessions ss)))).

Definition das_compare (p : DasPlugin) (session : SessionInfo) (e1 e2 : ExecutorInfo)
    : comparison :=
  then_with (Nat.compare (score p e1 session) (score p e2 session))
    (then_with (Nat.compare (size (ei_attributes e2)) (size (ei_attributes e1)))
       (then_with (Z.compare (ei_latest_updated_timestamp e2) (ei_latest_updated_timestamp e1))
          (String.compare (ei_id e2) (ei_id e1)))).

Definition das_executor_order_fn (p : DasPlugin) (session : SessionInfo)
    (e1 e2 : ExecutorInfo) : option comparison :=
  Some (das_compare p session e1 e2).

#[export] Instance Das_plugin `{Env} : Plugin DasPlugin := {
  name := fun _ => "das";
  setup := das_setup;
  ssn_order_fn := fun _ _ _ => None;
  node_order_fn := fun _ _ _ => None;
  executor_order_fn := das_executor_order_fn;
  is_underused := fun _ _ => None;
  is_ready := fun _ _ => None;
  is_satisfied := fun _ _ => None;
  is_overused := fun _ _ => None;
  is_available := fun _ _ _ => None;
  is_allocatable := fun _ _ _ => Ok None;
  is_reclaimable := fun _ _ => None;
  on_session_bind := fun _ _ p => Ok p;
  on_session_unbind := fun _ _ p => Ok p;
  on_executor_interrupt := fun _ _ p => Ok p;
  on_executor_create := fun _ _ p => Ok p;
  on_executor_pipeline := fun _ _ p => Ok p
}.

#[export] Instance das_compare_total p s : TotalCmp (das_compare p s).
Proof.
  unfold das_compare.
  apply cmp_then; [exact (cmp_on (fun e => score p e s) Nat.compare)|].
  apply cmp_then; [exact (cmp_on (fun e => size (ei_attributes e)) _ (TotalCmp0 := cmp_flip Nat.compare))|].
  apply cmp_then; [exact (cmp_on ei_latest_updated_timestamp _ (TotalCmp0 := cmp_flip Z.compare))|].
  exact (cmp_on ei_id _ (TotalCmp0 := cmp_flip String.compare)).
Qed.

Lemma das_compare_eq p s e1 e2 : das_compare p s e1 e2 = Eq -> ei_id e1 = ei_id e2.
Proof.
  unfold das_compare. do 3 (destruct (_ ?= _)%nat || destruct (_ ?= _)); simpl; try done.
  intros H%String.compare_eq_iff. congruence.
Qed.
End Das.

(** ** Shim compatibility *)
Module ShimSelect.

Record ShimPlugin := mkShimPlugin { ssn_shim_map : gmap string Shim }.

Definition new_ptr : ShimPlugin := mkShimPlugin ∅.

Definition shim_setup `{Env} (ss : SnapShot) (_ : ShimPlugin) : result ShimPlugin :=
  let apps := find_applications ALL_APPLICATION ss in
  let sessions := find_sessions None ss in
  Ok (mkShimPlugin (foldl (fun m ssn =>
        match apps !! si_application ssn with
        | Some app => <[si_id ssn := ai_shim app]> m
        | None => <[si_id ssn := ShimHost]> m
        end) ∅ (hm_values sessions))).

Definition shim_is_allocatable (p : ShimPlugin) (node : NodeInfo) (ssn : SessionInfo)
    : option bool :=
  match ssn_shim_map p !! si_id ssn with
  | None => None
  | Some required_shim => Some (bool_decide (required_shim ∈ ni_shims node))
  end.

Definition shim_is_available (p : ShimPlugin) (e : ExecutorInfo) (ssn : SessionInfo)
    : option bool :=
  match ssn_shim_map p !! si_id ssn with
  | None => None
  | Some required_shim => Some (bool_decide (ei_shim e = required_shim))
  end.

#[export] Instance Shim_plugin `{Env} : Plugin ShimPlugin := {
  name := fun _ => "shim";
  setup := shim_setup;
  ssn_order_fn := fun _ _ _ => None;
  node_order_fn := fun _ _ _ => None;
  executor_order_fn := fun _ _ _ _ => None;
  is_underused := fun _ _ => None;
  is_ready := fun _ _ => None;
  is_satisfied := fun _ _ => None;
  is_overused := fun _ _ => None;
  is_available := shim_is_available;
  is_allocatable := fun p n s => Ok (shim_is_allocatable p n s);
  is_reclaimable := fun _ _ => None;
  on_session_bind := fun _ _ p => Ok p;
  on_session_unbind := fun _ _ p => Ok p;
  on_executor_interrupt := fun _ _ p => Ok p;
  on_executor_create := fun _ _ p => Ok p;
  on_executor_pipeline := fun _ _ p => Ok p
}.

(** The shim a session's application runs on. *)
Definition required_shim (ss : SnapShot) (s : SessionInfo) : Shim :=
  match ss_applications ss !! si_application s with Some a => ai_shim a | None => ShimHost end.

Lemma shim_setup_spec `{Env} ss p0 :
  snap_wf ss ->
  exists p, shim_setup ss p0 = Ok p /\
    forall id, ssn_shim_map p !! id = required_shim ss <$> ss_sessions ss !! id.
Proof.
  intros Hwf. eexists. split; [done|]. simpl. unfold ALL_APPLICATION.
  rewrite find_all_applications_spec, find_all_sessions_spec by done.
  rewrite (foldl_fun_ext _ (fun m s => <[si_id s := required_shim ss s]> m)).
  2: { intros m s. unfold required_shim. by destruct (_ !! _). }
  intros id. rewrite foldl_insert_fmap. apply option_eq. intros sh.
  change (foldl _ ∅ ?l) with (hm_collect l). rewrite hm_collect_lookup.
  - rewrite list_elem_of_fmap, fmap_Some. split.
    + intros (x & [= -> ->] & (k & Hk)%hm_values_elem). exists x. by rewrite (sw_ssns ss Hwf _ _ Hk).
    + intros (x & Hx & ->). exists x. rewrite <-(sw_ssns ss Hwf _ _ Hx), hm_values_elem. eauto.
  - rewrite <-list_fmap_compose. apply (keyed_values_NoDup si_id). auto with flame.
Qed.
End ShimSelect.
