(* ===== verification/Drf.v ===== *)
(** * Dominant resource fairness ([scheduler/plugins/drf.rs])

    Shares are [f64] values: binary64 numbers of the standard library's
    [SpecFloat], with rounding to nearest even. *)
From Stdlib Require Import SpecFloat.
From S2P Require Import Prelude Types Resource Filters Snapshot Order PluginApi MinMax.
Local Open Scope Z_scope.

(** ** [f64] *)
Module F64.

Definition t : Type := spec_float.
Definition prec : Z := 53.
Definition emax : Z := 1024.

Definition zero : t := S754_zero false.
Definition one : t := S754_finite false 4503599627370496 (-52).
(** [f64::MAX]. *)
Definition MAX : t := S754_finite false 9007199254740991 971.
(** The double nearest to [1e-9]. *)
Definition e_minus_9 : t := S754_finite false 4835703278458517 (-82).

(** [n as f64] of an integer. *)
Definition of_Z (n : Z) : t := binary_normalize prec emax n 0 false.

Definition div : t -> t -> t := SFdiv prec emax.
Definition mul : t -> t -> t := SFmul prec emax.
Definition sub : t -> t -> t := SFsub prec emax.
Definition abs : t -> t := SFabs.
Definition gtb (a b : t) : bool := SFltb b a.
Definition ltb : t -> t -> bool := SFltb.
Definition geb (a b : t) : bool := SFleb b a.
Definition leb : t -> t -> bool := SFleb.
Definition eqb : t -> t -> bool := SFeqb.
Definition partial_cmp : t -> t -> option comparison := SFcompare.

(** [f64::max] and [f64::min]: the other operand when one is a NaN. *)
Definition max (a b : t) : t :=
  match SFcompare a b with
  | Some Lt => b
  | Some _ => a
  | None => match a with S754_nan => b | _ => a end
  end.
Definition min (a b : t) : t :=
  match SFcompare a b with
  | Some Gt => b
  | Some _ => a
  | None => match a with S754_nan => b | _ => a end
  end.

(** [f64::total_cmp]: the numeric order with -0 below +0 (a NaN, which no
    share is, is put on top). *)
Definition total_cmp (a b : t) : comparison :=
  match SFcompare a b with
  | Some Eq =>
      match a, b with
      | S754_zero true, S754_zero false => Lt
      | S754_zero false, S754_zero true => Gt
      | _, _ => Eq
      end
  | Some c => c
  | None => match a, b with
            | S754_nan, S754_nan => Eq
            | S754_nan, _ => Gt
            | _, _ => Lt
            end
  end.
End F64.

(** ** The plugin's state *)

Record DRFSessionInfo := mkDrfSsn {
  ds_unit : ResourceRequirement;
  ds_demand : Z;
  ds_min_instances : Z;
  ds_allocated : ResourceRequirement;
  ds_pipelined : ResourceRequirement;
  ds_dominant : F64.t;
  ds_desired : F64.t
}.

Record DRFPlugin := mkDrf {
  drf_total : ResourceRequirement;
  drf_ssn_map : gmap string DRFSessionInfo;
  drf_node_allocations : gmap string ResourceRequirement
}.

Definition new_ptr : DRFPlugin := mkDrf rr_default ∅ ∅.

Definition with_allocated (a : ResourceRequirement) (i : DRFSessionInfo) : DRFSessionInfo :=
  mkDrfSsn (ds_unit i) (ds_demand i) (ds_min_instances i) a (ds_pipelined i) (ds_dominant i)
    (ds_desired i).
Definition with_pipelined (a : ResourceRequirement) (i : DRFSessionInfo) : DRFSessionInfo :=
  mkDrfSsn (ds_unit i) (ds_demand i) (ds_min_instances i) (ds_allocated i) a (ds_dominant i)
    (ds_desired i).
Definition with_dominant (d : F64.t) (i : DRFSessionInfo) : DRFSessionInfo :=
  mkDrfSsn (ds_unit i) (ds_demand i) (ds_min_instances i) (ds_allocated i) (ds_pipelined i) d
    (ds_desired i).
Definition with_desired (d : F64.t) (i : DRFSessionInfo) : DRFSessionInfo :=
  mkDrfSsn (ds_unit i) (ds_demand i) (ds_min_instances i) (ds_allocated i) (ds_pipelined i)
    (ds_dominant i) d.
Definition with_ssn_map (m : gmap string DRFSessionInfo) (p : DRFPlugin) : DRFPlugin :=
  mkDrf (drf_total p) m (drf_node_allocations p).

(** ** Shares *)

Definition calculate_dominant_share (total allocated : ResourceRequirement) : F64.t :=
  foldl (fun dominant ut =>
      let '(used, total) := ut in
      if F64.gtb total F64.zero then F64.max dominant (F64.div used total)
      else if F64.gtb used F64.zero then F64.MAX
      else dominant)
    F64.zero
    [(F64.of_Z (rr_cpu allocated), F64.of_Z (rr_cpu total));
     (F64.of_Z (rr_memory allocated), F64.of_Z (rr_memory total));
     (F64.of_Z (Z.max (rr_gpu allocated) 0), F64.of_Z (Z.max (rr_gpu total) 0))].

Definition update_share (id : string) (p : DRFPlugin) : DRFPlugin :=
  match drf_ssn_map p !! id with
  | None => p
  | Some i =>
      let share := calculate_dominant_share (drf_total p) (ds_allocated i) in
      with_ssn_map (alter (with_dominant share) id (drf_ssn_map p)) p
  end.

Definition desire (p : DRFPlugin) (i : DRFSessionInfo) : F64.t :=
  let unit := calculate_dominant_share (drf_total p) (ds_unit i) in
  if F64.gtb unit F64.zero && F64.ltb unit F64.MAX
  then F64.mul unit (F64.of_Z (ds_demand i)) else F64.zero.

(** One turn of the division loop: the map, what remains of the cluster, and
    how many sessions that want some are left. *)
Definition divide_step (acc : gmap string DRFSessionInfo * F64.t * nat) (w : string * F64.t)
    : gmap string DRFSessionInfo * F64.t * nat :=
  let '(m, remaining, n_left) := acc in
  let '(id, want) := w in
  if F64.gtb want F64.zero then
    let desired := F64.min want (F64.div remaining (F64.of_Z (Z.of_nat n_left))) in
    (alter (with_desired desired) id m, F64.sub remaining desired, pred n_left)
  else (alter (with_desired F64.zero) id m, remaining, n_left).

Definition update_desired `{Env} (p : DRFPlugin) : DRFPlugin :=
  let wants := (fun kv => (kv.1, desire p kv.2)) <$> hm_iter (drf_ssn_map p) in
  let wants := sort_by (fun a b => then_with (F64.total_cmp a.2 b.2) (String.compare a.1 b.1))
                 wants in
  let n_left := count (fun w => F64.gtb w.2 F64.zero) wants in
  with_ssn_map (foldl divide_step (drf_ssn_map p, F64.one, n_left) wants).1.1 p.

(** [ssn.resreq.clone().expect(..)]. *)
Definition get_session_resreq (ssn : SessionInfo) : result ResourceRequirement :=
  match si_resreq ssn with Some r => Ok r | None => Panic end.

Definition release (allocated unit : ResourceRequirement) : ResourceRequirement :=
  mkRR (u64_saturating_sub (rr_cpu allocated) (rr_cpu unit))
       (u64_saturating_sub (rr_memory allocated) (rr_memory unit))
       (i32_saturating_sub (rr_gpu allocated) (rr_gpu unit)).

(** ** [setup] *)

Definition setup_node (p : DRFPlugin) (n : NodeInfo) : DRFPlugin :=
  mkDrf (add (drf_total p) (ni_allocatable n)) (drf_ssn_map p)
    (<[ni_name n := rr_default]> (drf_node_allocations p)).

(** The node allocations and the sessions' allocations after one executor. *)
Definition drf_setup_executor (acc : gmap string ResourceRequirement * gmap string ResourceRequirement)
    (e : ExecutorInfo) : gmap string ResourceRequirement * gmap string ResourceRequirement :=
  let '(nodes, allocated) := acc in
  let nodes := if negb (bool_decide (ei_state e = ExecReleased))
               then alter (fun a => add a (ei_resreq e)) (ei_node e) nodes else nodes in
  let allocated :=
    match ei_ssn_id e with
    | None => allocated
    | Some ssn_id =>
        if ei_is_binding e ssn_id && negb (ei_is_interrupted e)
        then <[ssn_id := add (default rr_default (allocated !! ssn_id)) (ei_resreq e)]> allocated
        else allocated
    end in
  (nodes, allocated).

Fixpoint setup_sessions (ssns : list SessionInfo) (allocated : gmap string ResourceRequirement)
    (p : DRFPlugin) : result DRFPlugin :=
  match ssns with
  | [] => Ok p
  | ssn :: ssns =>
      match get_session_resreq ssn with
      | Ok unit =>
          let i := mkDrfSsn unit (compute_demand ssn) (si_min_instances ssn)
                     (default rr_default (allocated !! si_id ssn)) rr_default F64.zero F64.zero in
          let p := with_ssn_map (<[si_id ssn := i]> (drf_ssn_map p)) p in
          setup_sessions ssns (delete (si_id ssn) allocated) (update_share (si_id ssn) p)
      | Err e => Err e
      | Panic => Panic
      end
  end.

Definition drf_setup `{Env} (ss : SnapShot) (_ : DRFPlugin) : result DRFPlugin :=
  let p := foldl setup_node (mkDrf rr_default ∅ ∅) (hm_values (find_nodes ALL_NODE ss)) in
  let '(nodes, allocated) :=
    foldl drf_setup_executor (drf_node_allocations p, ∅)
      (hm_values (find_executors ALL_EXECUTOR ss)) in
  p ← setup_sessions (hm_values (find_sessions OPEN_SESSION ss)) allocated
        (mkDrf (drf_total p) (drf_ssn_map p) nodes);
  Ok (update_desired p).

(** ** Opinions and callbacks *)

Definition drf_ssn_order_fn (p : DRFPlugin) (s1 s2 : SessionInfo) : option comparison :=
  let share s := match drf_ssn_map p !! si_id s with
                 | Some i => ds_dominant i | None => F64.zero end in
  F64.partial_cmp (share s2) (share s1).

Definition drf_is_overused (p : DRFPlugin) (ssn : SessionInfo) : option bool :=
  match drf_ssn_map p !! si_id ssn with
  | None => None
  | Some info =>
      if (ds_demand info >? 0) && F64.eqb (desire p info) F64.zero then None
      else if F64.eqb (ds_dominant info) F64.zero then None
      else
        let share := calculate_dominant_share (drf_total p) in
        let remaining := release (ds_allocated info) (ds_unit info) in
        let kept := share remaining in
        let floor := F64.max (ds_desired info)
                       (share (mul (ds_unit info) (ds_min_instances info))) in
        then_some (F64.geb kept floor ||
                   F64.leb (F64.abs (F64.sub kept floor))
                     (F64.mul F64.e_minus_9 (F64.max kept floor))) true
  end.

Definition drf_is_allocatable (p : DRFPlugin) (node : NodeInfo) (ssn : SessionInfo)
    : result (option bool) :=
  match drf_node_allocations p !! ni_name node with
  | None => Ok None
  | Some node_alloc =>
      req ← get_session_resreq ssn;
      let alloc := ni_allocatable node in
      let cpu_ok := wrap_u64 (rr_cpu node_alloc + rr_cpu req) <=? rr_cpu alloc in
      let mem_ok := wrap_u64 (rr_memory node_alloc + rr_memory req) <=? rr_memory alloc in
      let gpu_ok := if rr_gpu req >? 0
                    then wrap_i32 (rr_gpu node_alloc + rr_gpu req) <=? rr_gpu alloc
                    else true in
      Ok (Some (cpu_ok && mem_ok && gpu_ok))
  end.

(** [if let Some(entry) = self.ssn_map.get_mut(&id) { entry.allocated = f(..) }]. *)
Definition update_allocated (f : ResourceRequirement -> ResourceRequirement) (id : string)
    (p : DRFPlugin) : DRFPlugin :=
  with_ssn_map (alter (fun i => with_allocated (f (ds_allocated i)) i) id (drf_ssn_map p)) p.

Definition drf_on_executor_create (e : ExecutorInfo) (ssn : SessionInfo) (p : DRFPlugin)
    : result DRFPlugin :=
  let p := update_allocated (fun a => add a (ei_resreq e)) (si_id ssn) p in
  let p := mkDrf (drf_total p) (drf_ssn_map p)
             (alter (fun a => add a (ei_resreq e)) (ei_node e) (drf_node_allocations p)) in
  Ok (update_share (si_id ssn) p).

Definition drf_on_executor_pipeline (e : ExecutorInfo) (ssn : SessionInfo) (p : DRFPlugin)
    : result DRFPlugin :=
  Ok (with_ssn_map (alter (fun i => with_pipelined (add (ds_pipelined i) (ei_resreq e)) i)
                      (si_id ssn) (drf_ssn_map p)) p).

Definition drf_on_session_bind (_ : ExecutorInfo) (ssn : SessionInfo) (p : DRFPlugin)
    : result DRFPlugin :=
  unit ← get_session_resreq ssn;
  Ok (update_share (si_id ssn) (update_allocated (fun a => add a unit) (si_id ssn) p)).

Definition drf_on_executor_interrupt (e : ExecutorInfo) (ssn : SessionInfo) (p : DRFPlugin)
    : result DRFPlugin :=
  Ok (update_share (si_id ssn) (update_allocated (fun a => release a (ei_resreq e)) (si_id ssn) p)).

Definition drf_on_session_unbind (_ : ExecutorInfo) (ssn : SessionInfo) (p : DRFPlugin)
    : result DRFPlugin :=
  unit ← get_session_resreq ssn;
  Ok (update_share (si_id ssn) (update_allocated (fun a => release a unit) (si_id ssn) p)).

#[export] Instance Drf_plugin `{Env} : Plugin DRFPlugin := {
  name := fun _ => "drf";
  setup := drf_setup;
  ssn_order_fn := drf_ssn_order_fn;
  node_order_fn := fun _ _ _ => None;
  executor_order_fn := fun _ _ _ _ => None;
  is_underused := fun _ _ => None;
  is_ready := fun _ _ => None;
  is_satisfied := fun _ _ => None;
  is_overused := drf_is_overused;
  is_available := fun _ _ _ => None;
  is_allocatable := drf_is_allocatable;
  is_reclaimable := fun _ _ => None;
  on_session_bind := drf_on_session_bind;
  on_session_unbind := drf_on_session_unbind;
  on_executor_interrupt := drf_on_executor_interrupt;
  on_executor_create := drf_on_executor_create;
  on_executor_pipeline := drf_on_executor_pipeline
}.

(** ** Node allocations *)

Lemma setup_nodes_lookup l p n :
  drf_node_allocations (foldl setup_node p l) !! n =
  if decide (n ∈ (ni_name <$> l)) then Some rr_default else drf_node_allocations p !! n.
Proof.
  revert p. induction l as [|x l IH]; intros p; [reflexivity|].
  rewrite fmap_cons. change (foldl setup_node p (x :: l)) with (foldl setup_node (setup_node p x) l).
  rewrite IH. destruct (decide (n ∈ (ni_name <$> l))) as [Hin|Hnin].
  - rewrite decide_True; [done|]. by right.
  - destruct (decide (n = ni_name x)) as [->|Hne].
    + unfold setup_node. simpl. rewrite lookup_insert_eq, decide_True; [done|left].
    + unfold setup_node. simpl. rewrite lookup_insert_ne, decide_False; [done| |done]. intros [?|?]%elem_of_cons; auto.
Qed.

Lemma drf_setup_executors_fst l acc done n :
  acc.1 !! n = None \/ acc.1 !! n = Some (rr_sum (node_load n done)) ->
  (foldl drf_setup_executor acc l).1 !! n =
  (fun _ => rr_sum (node_load n (List.filter live l ++ done))) <$> acc.1 !! n.
Proof.
  revert acc done. induction l as [|e l IH]; simpl; intros [nodes alloc] done Hacc; simpl in *.
  { by destruct Hacc as [->| ->]. }
  unfold live at 1. destruct (bool_decide (ei_state e = ExecReleased)); simpl.
  { rewrite (IH _ done); [done|done]. }
  rewrite (IH _ (e :: done)).
  - simpl. rewrite lookup_alter.
    assert (rr_sum (node_load n (List.filter live l ++ e :: done)) =
            rr_sum (node_load n (e :: List.filter live l ++ done))) as ->.
    { by rewrite <-Permutation_middle. }
    case_decide as Hn; [rewrite Hn|]; by destruct (nodes !! n).
  - simpl. rewrite lookup_alter, node_load_cons. unfold on_node.
    case_decide as Hn; subst.
    + rewrite bool_decide_true by done. destruct Hacc as [->| ->]; simpl; [by left|right].
      by rewrite rr_sum_cons.
    + by rewrite bool_decide_false by done.
Qed.

Lemma update_share_nodes id p :
  drf_node_allocations (update_share id p) = drf_node_allocations p.
Proof. unfold update_share. by destruct (drf_ssn_map p !! id). Qed.

Lemma setup_sessions_nodes ssns allocated p p' :
  setup_sessions ssns allocated p = Ok p' -> drf_node_allocations p' = drf_node_allocations p.
Proof.
  revert allocated p. induction ssns as [|s ssns IH]; simpl; intros allocated p.
  { by intros [= ->]. }
  destruct (get_session_resreq s); [|done|done]. intros ->%IH. by rewrite update_share_nodes.
Qed.

Lemma setup_sessions_ok ssns allocated p :
  if forallb (fun s => bool_decide (is_Some (si_resreq s))) ssns
  then is_ok (setup_sessions ssns allocated p) = true
  else setup_sessions ssns allocated p = Panic.
Proof.
  revert allocated p. induction ssns as [|s ssns IH]; simpl; intros allocated p; [done|].
  unfold get_session_resreq. destruct (si_resreq s); simpl; [apply IH|done].
Qed.

Lemma drf_setup_nodes `{Env} ss p0 p n :
  snap_wf ss -> drf_setup ss p0 = Ok p ->
  drf_node_allocations p !! n =
  (fun _ => rr_sum (node_load n (List.filter live (hm_values (ss_executors ss))))) <$>
    ss_nodes ss !! n.
Proof.
  intros Hwf. unfold drf_setup, ALL_NODE, ALL_EXECUTOR.
  rewrite find_all_nodes_spec, find_all_executors_spec by done.
  set (q := foldl setup_node _ _).
  pose proof (drf_setup_executors_fst (hm_values (ss_executors ss)) (drf_node_allocations q, ∅) [] n)
    as Hf.
  destruct (foldl drf_setup_executor _ _) as [nodes allocated]. simpl in Hf.
  destruct (setup_sessions _ _ _) as [p1| |] eqn:Hs; intros [= <-]. simpl.
  rewrite (setup_sessions_nodes _ _ _ _ Hs). simpl.
  assert (Hq : drf_node_allocations q !! n = (fun _ => rr_default) <$> ss_nodes ss !! n).
  { unfold q. rewrite setup_nodes_lookup. simpl. rewrite lookup_empty.
    assert (n ∈ (ni_name <$> hm_values (ss_nodes ss)) <-> is_Some (ss_nodes ss !! n)) as Hin.
    { rewrite list_elem_of_fmap. split.
      - intros (x & -> & (k & Hk)%hm_values_elem). rewrite (sw_nodes ss Hwf _ _ Hk). eauto.
      - intros [x Hx]. exists x. rewrite (sw_nodes ss Hwf _ _ Hx), hm_values_elem. eauto. }
    case_decide as Hd; destruct (ss_nodes ss !! n); simpl; try done.
    - apply Hin in Hd as [? ?]. done.
    - destruct Hd. apply Hin. eauto. }
  rewrite app_nil_r in Hf. rewrite Hf; rewrite Hq; destruct (ss_nodes ss !! n); simpl; auto.
Qed.

(** The resource test of DRF passes whenever that of MinMax does, on the same
    executors. *)
Lemma drf_admits p q node ssn l req :
  capacity_of q l -> Forall (fun e => rr_nonneg (ei_resreq e)) l ->
  drf_node_allocations p !! ni_name node = Some (rr_sum (node_load (ni_name node) l)) ->
  si_resreq ssn = Some req -> rr_nonneg req -> rr_wf (ni_allocatable node) ->
  total_le (node_load (ni_name node) l) (ni_allocatable node) ->
  minmax_is_allocatable q node ssn = Some true ->
  drf_is_allocatable p node ssn = Ok (Some true).
Proof.
  intros Hc Hl Hp Hreq Hnn Hwf Hle Hadm. unfold drf_is_allocatable, get_session_resreq.
  rewrite Hp, Hreq. unfold minmax_is_allocatable in Hadm. rewrite (co_res q l Hc), Hreq in Hadm.
  pose proof (node_load_nonneg (ni_name node) l Hl) as Hln.
  rewrite (rr_sum_exact _ _ Hln Hwf Hle) in *. simpl in *.
  destruct (_ || _) eqn:Hres in Hadm; [done|]. clear Hadm.
  rewrite !orb_false_iff, !Z.gtb_ltb, !Z.ltb_ge in Hres. destruct Hres as [[Hr1 Hr2] Hr3].
  unfold u64_saturating_sub, i32_saturating_sub in *.
  destruct (Zsum_rr_nonneg _ Hln) as (?&?&?), Hle as (?&?&?), Hwf as (?&?&?), Hnn as [(?&?&?) ?].
  rewrite !wrap_u64_small, wrap_i32_small by width.
  rewrite !(proj2 (Z.leb_le _ _)) by width. by destruct (_ >? 0).
Qed.

(** The open sessions of a snapshot. *)
Lemma open_sessions_elem `{Env} ss x :
  snap_wf ss ->
  x ∈ hm_values (find_sessions OPEN_SESSION ss) <->
  exists id, ss_sessions ss !! id = Some x /\ si_state x = SsnOpen.
Proof.
  intros Hwf. unfold OPEN_SESSION. rewrite find_sessions_spec, hm_values_elem by done.
  setoid_rewrite map_lookup_filter_Some. unfold session_matches. simpl.
  setoid_rewrite andb_true_r. setoid_rewrite andb_true_r. setoid_rewrite andb_true_r.
  setoid_rewrite bool_decide_eq_true. done.
Qed.

(** ** Properties *)

(** Setting up DRF succeeds exactly when every open session carries its
    resource request; otherwise the [expect] of [get_session_resreq] panics. *)
Theorem drf_setup_total `{Env} ss p0 :
  snap_wf ss ->
  (is_ok (drf_setup ss p0) = true <->
     forall id s, ss_sessions ss !! id = Some s -> si_state s = SsnOpen -> is_Some (si_resreq s)) /\
  (is_ok (drf_setup ss p0) = true \/ drf_setup ss p0 = Panic).
Proof.
  intros Hwf. unfold drf_setup. set (p := foldl setup_node _ _).
  destruct (foldl drf_setup_executor _ _) as [nodes allocated].
  set (q := mkDrf _ _ _). pose proof (setup_sessions_ok (hm_values (find_sessions OPEN_SESSION ss))
    allocated q) as Hs.
  assert (Hall : forallb (fun s => bool_decide (is_Some (si_resreq s)))
      (hm_values (find_sessions OPEN_SESSION ss)) = true <->
    forall id s, ss_sessions ss !! id = Some s -> si_state s = SsnOpen -> is_Some (si_resreq s)).
  { rewrite forallb_forall. setoid_rewrite <-list_elem_of_In.
    setoid_rewrite bool_decide_eq_true. setoid_rewrite (open_sessions_elem ss); [|done].
    split; [intros Hx id s ??; apply Hx; eauto|intros Hx s (id & ? & ?); eauto]. }
  destruct (forallb _ _).
  - destruct (setup_sessions _ _ _); simpl in *; try done. split; [|by left].
    split; [by intros _; apply Hall|done].
  - rewrite Hs. simpl. split; [|by right]. split; [done|]. intros ?%Hall. done.
Qed.

(** The two plugins that account for node capacity agree: set up on the same
    snapshot, DRF admits on a node every request MinMax admits there, so
    enabling DRF never blocks capacity that is safe to use. *)
Theorem drf_admits_what_minmax_admits `{Env} ss p0 q0 p q node ssn req :
  snap_wf ss ->
  (forall id e, ss_executors ss !! id = Some e -> rr_nonneg (ei_resreq e)) ->
  drf_setup ss p0 = Ok p -> minmax_setup ss q0 = Ok q ->
  ss_nodes ss !! ni_name node = Some node -> rr_wf (ni_allocatable node) ->
  total_le (node_load (ni_name node) (List.filter live (map_to_list (ss_executors ss)).*2))
    (ni_allocatable node) ->
  si_resreq ssn = Some req -> rr_nonneg req ->
  minmax_is_allocatable q node ssn = Some true ->
  drf_is_allocatable p node ssn = Ok (Some true).
Proof.
  intros Hwf Hnn Hp Hq Hnode Hnwf Hle Hreq Hrnn Hadm.
  destruct (minmax_setup_spec ss q0 Hwf) as (q' & Hq' & _ & Hc & _).
  rewrite Hq in Hq'. injection Hq' as <-. rewrite <-hm_values_perm in Hle.
  eapply drf_admits; [done| |..|done]; try done.
  - apply list.Forall_forall. intros e He. rewrite list_elem_of_In, filter_In in He.
    destruct He as [He _]. apply list_elem_of_In, hm_values_elem in He as [id He]. eauto.
  - by rewrite (drf_setup_nodes ss p0 p _ Hwf Hp), Hnode.
Qed.

(** ** Witnesses *)

Definition demo_node : NodeInfo := mkNodeInfo "n1" (mkRR 4 8 0) NodeReady [ShimHost].

Definition demo_drf_snap : SnapShot := add_session demo_ssn_info (add_node demo_node demo_snap).

Lemma demo_drf_snap_wf : snap_wf demo_drf_snap.
Proof. apply add_session_wf; [apply add_node_wf, demo_snap_wf|done]. Qed.

Lemma drf_setup_total_witness : is_ok (@drf_setup demo_env demo_drf_snap new_ptr) = true.
Proof.
  apply (proj1 (@drf_setup_total demo_env demo_drf_snap new_ptr demo_drf_snap_wf)).
  intros id s Hs _. unfold demo_drf_snap in Hs. simpl in Hs.
  apply lookup_insert_Some in Hs as [[_ <-]|[_ Hs]]; [by eexists|].
  by rewrite lookup_empty in Hs.
Defined.

Definition drf_or_new (r : result DRFPlugin) : DRFPlugin :=
  match r with Ok p => p | _ => new_ptr end.
Definition mm_or_new (r : result MinMaxPlugin) : MinMaxPlugin :=
  match r with Ok p => p | _ => MinMax.new_ptr (mkOptions [] demo_limits) end.

Definition demo_drf : DRFPlugin := drf_or_new (@drf_setup demo_env demo_drf_snap new_ptr).
Definition demo_minmax : MinMaxPlugin :=
  mm_or_new (@minmax_setup demo_env demo_drf_snap (MinMax.new_ptr (mkOptions [] demo_limits))).

Lemma drf_admits_what_minmax_admits_witness :
  minmax_is_allocatable demo_minmax demo_node demo_ssn_info = Some true /\
  drf_is_allocatable demo_drf demo_node demo_ssn_info = Ok (Some true).
Proof.
  split; [by vm_compute|].
  apply (@drf_admits_what_minmax_admits demo_env demo_drf_snap new_ptr
    (MinMax.new_ptr (mkOptions [] demo_limits)) demo_drf demo_minmax demo_node demo_ssn_info (mkRR 1 1 0)
    demo_drf_snap_wf).
  - intros id e He. unfold demo_drf_snap, demo_snap in He. simpl in He.
    apply lookup_insert_Some in He as [[_ <-]|[_ He]]; [repeat split; simpl; width|].
    apply lookup_delete_Some in He as [_ He].
    apply lookup_insert_Some in He as [[_ <-]|[_ He]]; [repeat split; simpl; width|].
    apply lookup_insert_Some in He as [[_ <-]|[_ He]]; [repeat split; simpl; width|].
    by rewrite lookup_empty in He.
  - by vm_compute.
  - by vm_compute.
  - by vm_compute.
  - repeat split; simpl; width.
  - vm_compute. by split_and!.
  - done.
  - repeat split; simpl; width.
  - by vm_compute.
Defined.
