(* ===== verification/PluginManager.v ===== *)
(** * The plugin manager ([scheduler/plugins/mod.rs])

    [PluginPtr], a [Box<dyn Plugin>], is one of the plugins of the registry;
    the manager is the list of the enabled ones, in the order they are asked. *)
From S2P Require Import Prelude Types Filters Snapshot Order PluginApi MinMax Policies Drf.
Local Open Scope Z_scope.

Inductive PluginPtr :=
  | PMinMax (p : MinMaxPlugin)
  | PPriority (p : Priority.PriorityPlugin)
  | PDrf (p : DRFPlugin)
  | PDas (p : Das.DasPlugin)
  | PShim (p : ShimSelect.ShimPlugin).

(** Calling a method of the trait object. *)
Definition dyn {A} (ptr : PluginPtr) (f : forall P, Plugin P -> P -> A) `{Env} : A :=
  match ptr with
  | PMinMax p => f _ _ p
  | PPriority p => f _ Priority.Priority_plugin p
  | PDrf p => f _ _ p
  | PDas p => f _ Das.Das_plugin p
  | PShim p => f _ ShimSelect.Shim_plugin p
  end.

(** Calling a method that takes [&mut self]. *)
Definition dyn_mut (ptr : PluginPtr) (f : forall P, Plugin P -> P -> result P) `{Env}
    : result PluginPtr :=
  match ptr with
  | PMinMax p => PMinMax <$> f _ _ p
  | PPriority p => PPriority <$> f _ Priority.Priority_plugin p
  | PDrf p => PDrf <$> f _ _ p
  | PDas p => PDas <$> f _ Das.Das_plugin p
  | PShim p => PShim <$> f _ ShimSelect.Shim_plugin p
  end.

(** [PluginInfo] and [PLUGIN_REGISTRY]: name, constructor, configurable. *)
Record PluginInfo := mkPluginInfo {
  pi_name : string;
  pi_constructor : PluginPtr;
  pi_configurable : bool
}.

Definition PLUGIN_REGISTRY : list PluginInfo :=
  [ mkPluginInfo "priority" (PPriority Priority.new_ptr) true;
    mkPluginInfo "drf" (PDrf Drf.new_ptr) true;
    mkPluginInfo "das" (PDas Das.new_ptr) true;
    mkPluginInfo "shim" (PShim ShimSelect.new_ptr) false ].

Definition configurable_policy_names : list string :=
  pi_name <$> List.filter pi_configurable PLUGIN_REGISTRY.

Definition PluginManager : Type := list (string * PluginPtr).

Section manager.
Context `{Env}.

(** [for (_, plugin) in plugins.iter_mut() { f(plugin)?; }]. *)
Fixpoint for_plugins (f : PluginPtr -> result PluginPtr) (ps : PluginManager)
    : result PluginManager :=
  match ps with
  | [] => Ok []
  | (n, p) :: ps =>
      p' ← f p;
      ps' ← for_plugins f ps;
      Ok ((n, p') :: ps')
  end.

(** The plugins [setup] enables. *)
Definition enabled_plugins (options : PluginsOptions) : PluginManager :=
  ("minmax", PMinMax (MinMax.new_ptr options)) ::
  ((fun info => (pi_name info, pi_constructor info)) <$>
     List.filter (fun info => negb (pi_configurable info) ||
                              existsb (String.eqb (pi_name info)) (po_policies options))
       PLUGIN_REGISTRY).

Definition pm_setup (ss : SnapShot) (options : PluginsOptions) : result PluginManager :=
  if negb (forallb (contains configurable_policy_names) (po_policies options))
  then Err EInvalidConfig
  else for_plugins (fun p => dyn_mut p (fun P _ => setup ss)) (enabled_plugins options).

(** The first opinion that is not [None]. *)
Fixpoint first_opinion {A} (f : PluginPtr -> option A) (ps : PluginManager) : option A :=
  match ps with
  | [] => None
  | (_, p) :: ps => match f p with Some a => Some a | None => first_opinion f ps end
  end.

Definition pm_is_underused (ps : PluginManager) (ssn : SessionInfo) : bool :=
  default false (first_opinion (fun p => dyn p (fun P _ p => is_underused p ssn)) ps).

Definition pm_is_ready (ps : PluginManager) (ssn : SessionInfo) : bool :=
  default false (first_opinion (fun p => dyn p (fun P _ p => is_ready p ssn)) ps).

Definition pm_is_satisfied (ps : PluginManager) (ssn : SessionInfo) : bool :=
  default true (first_opinion (fun p => dyn p (fun P _ p => is_satisfied p ssn)) ps).

Definition pm_is_overused (ps : PluginManager) (ssn : SessionInfo) : bool :=
  default false (first_opinion (fun p => dyn p (fun P _ p => is_overused p ssn)) ps).

(** Every plugin agrees; no opinion counts as agreement. *)
Fixpoint pm_is_available (ps : PluginManager) (e : ExecutorInfo) (ssn : SessionInfo) : bool :=
  match ps with
  | [] => true
  | (_, p) :: ps =>
      match dyn p (fun P _ p => is_available p e ssn) with
      | Some false => false
      | Some true | None => pm_is_available ps e ssn
      end
  end.

(** [iter().all(..)], which stops at the first [false]. *)
Fixpoint pm_is_allocatable (ps : PluginManager) (node : NodeInfo) (ssn : SessionInfo)
    : result bool :=
  match ps with
  | [] => Ok true
  | (_, p) :: ps =>
      o ← dyn p (fun P _ p => is_allocatable p node ssn);
      if default true o then pm_is_allocatable ps node ssn else Ok false
  end.

Definition pm_is_reclaimable (ps : PluginManager) (e : ExecutorInfo) : bool :=
  forallb (fun np => default true (dyn np.2 (fun P _ p => is_reclaimable p e))) ps.

Definition pm_on_session_bind (e : ExecutorInfo) (ssn : SessionInfo) (ps : PluginManager)
    : result PluginManager :=
  for_plugins (fun p => dyn_mut p (fun P _ => on_session_bind e ssn)) ps.
Definition pm_on_session_unbind (e : ExecutorInfo) (ssn : SessionInfo) (ps : PluginManager)
    : result PluginManager :=
  for_plugins (fun p => dyn_mut p (fun P _ => on_session_unbind e ssn)) ps.
Definition pm_on_executor_interrupt (e : ExecutorInfo) (ssn : SessionInfo) (ps : PluginManager)
    : result PluginManager :=
  for_plugins (fun p => dyn_mut p (fun P _ => on_executor_interrupt e ssn)) ps.
Definition pm_on_executor_create (e : ExecutorInfo) (ssn : SessionInfo) (ps : PluginManager)
    : result PluginManager :=
  for_plugins (fun p => dyn_mut p (fun P _ => on_executor_create e ssn)) ps.
Definition pm_on_executor_pipeline (e : ExecutorInfo) (ssn : SessionInfo) (ps : PluginManager)
    : result PluginManager :=
  for_plugins (fun p => dyn_mut p (fun P _ => on_executor_pipeline e ssn)) ps.

(** The first order that is not [Equal]. *)
Definition first_order (f : PluginPtr -> option comparison) (ps : PluginManager) : comparison :=
  default Eq (first_opinion (fun p => match f p with Some Eq => None | o => o end) ps).

Definition pm_ssn_order_fn (ps : PluginManager) (t1 t2 : SessionInfo) : comparison :=
  first_order (fun p => dyn p (fun P _ p => ssn_order_fn p t1 t2)) ps.
Definition pm_node_order_fn (ps : PluginManager) (t1 t2 : NodeInfo) : comparison :=
  first_order (fun p => dyn p (fun P _ p => node_order_fn p t1 t2)) ps.
Definition pm_executor_order_fn (ps : PluginManager) (session : SessionInfo)
    (e1 e2 : ExecutorInfo) : comparison :=
  first_order (fun p => dyn p (fun P _ p => executor_order_fn p session e1 e2)) ps.

Definition find_available_executors (ps : PluginManager) (executors : gmap string ExecutorInfo)
    (ssn : SessionInfo) : list ExecutorInfo :=
  List.filter (fun e => pm_is_available ps e ssn) (hm_values executors).
End manager.

(** ** MinMax comes first and alone has opinions on demand *)

Definition is_minmax (np : string * PluginPtr) : bool :=
  match np.2 with PMinMax _ => true | _ => false end.

(** A manager with the MinMax plugin [mm] at its head. *)
Definition headed (mm : MinMaxPlugin) (ps : PluginManager) : Prop :=
  exists n rest, ps = (n, PMinMax mm) :: rest /\ forallb (fun np => negb (is_minmax np)) rest = true.

Lemma headed_unique mm1 mm2 ps : headed mm1 ps -> headed mm2 ps -> mm1 = mm2.
Proof. intros (n & r & -> & _) (n' & r' & [= -> -> ->] & _). done. Qed.

Section manager_lemmas.
Context `{Env}.

Lemma first_opinion_silent {A} (f : PluginPtr -> option A) rest :
  (forall p, (forall mm, p <> PMinMax mm) -> f p = None) ->
  forallb (fun np => negb (is_minmax np)) rest = true -> first_opinion f rest = None.
Proof.
  intros Hf. induction rest as [|[n p] rest IH]; simpl; [done|].
  intros [Hp Hr]%andb_true_iff. rewrite Hf; [by apply IH|]. by intros mm ->.
Qed.

Lemma pm_is_underused_headed mm ps ssn :
  headed mm ps -> pm_is_underused ps ssn = default false (minmax_is_underused mm ssn).
Proof.
  intros (n & rest & -> & Hr). unfold pm_is_underused. simpl.
  destruct (minmax_is_underused mm ssn); [done|].
  rewrite first_opinion_silent; [done| |done]. intros [] Hne; simpl; try done. by destruct (Hne p).
Qed.

Lemma pm_is_ready_headed mm ps ssn :
  headed mm ps -> pm_is_ready ps ssn = default false (minmax_is_ready mm ssn).
Proof.
  intros (n & rest & -> & Hr). unfold pm_is_ready. simpl.
  destruct (minmax_is_ready mm ssn); [done|].
  rewrite first_opinion_silent; [done| |done]. intros [] Hne; simpl; try done. by destruct (Hne p).
Qed.

Lemma pm_is_satisfied_headed mm ps ssn :
  headed mm ps -> Some (pm_is_satisfied ps ssn) = minmax_is_satisfied mm ssn.
Proof. by intros (n & rest & -> & Hr). Qed.

Lemma pm_is_available_headed mm ps e ssn :
  headed mm ps -> pm_is_available ps e ssn = true -> ei_is_interrupted e = false.
Proof.
  intros (n & rest & -> & Hr). simpl. unfold minmax_is_available.
  by destruct (ei_is_interrupted e).
Qed.

Lemma pm_is_allocatable_headed mm ps node ssn :
  headed mm ps -> pm_is_allocatable ps node ssn = Ok true ->
  minmax_is_allocatable mm node ssn = Some true.
Proof.
  intros (n & rest & -> & Hr). simpl. unfold mbind, result_bind.
  assert (Hs : exists b, minmax_is_allocatable mm node ssn = Some b).
  { unfold minmax_is_allocatable. destruct (_ || _); [eauto|]. destruct (negb _); [eauto|].
    destruct (executor_limit _ _); eauto. }
  destruct Hs as [[] ->]; simpl; done.
Qed.

Lemma for_plugins_length f ps ps' : for_plugins f ps = Ok ps' -> length ps' = length ps.
Proof.
  revert ps'. induction ps as [|[n p] ps IH]; simpl; intros ps'; [by intros [= <-]|].
  unfold mbind, result_bind. destruct (f p); [|done|done].
  destruct (for_plugins f ps) as [qs| |]; [|done|done]. intros [= <-]. simpl. by rewrite (IH qs).
Qed.

(** A callback updates the MinMax state by its own callback. *)
Lemma for_plugins_headed (f : forall P, Plugin P -> P -> result P) mm ps ps' :
  headed mm ps -> for_plugins (fun p => dyn_mut p f) ps = Ok ps' ->
  exists mm', f _ MinMax_plugin mm = Ok mm' /\ headed mm' ps'.
Proof.
  intros (n & rest & -> & Hr). simpl. unfold mbind, result_bind, fmap, result_fmap.
  destruct (f MinMaxPlugin MinMax_plugin mm) as [mm'| |]; [|done|done].
  destruct (for_plugins _ rest) as [rest'| |] eqn:Hf; [|done|done]. intros [= <-].
  exists mm'. split; [done|]. exists n, rest'. split; [done|].
  clear -Hr Hf. revert rest' Hf. induction rest as [|[n p] rest IH]; simpl; intros rest'.
  { by intros [= <-]. }
  simpl in Hr. apply andb_true_iff in Hr as [Hp Hr]. unfold mbind, result_bind.
  destruct (dyn_mut p f) as [p'| |] eqn:Hd; [|done|done].
  destruct (for_plugins _ rest) as [rest1| |]; [|done|done]. intros [= <-]. simpl.
  rewrite (IH Hr rest1 eq_refl), andb_true_r.
  destruct p; simpl in *; unfold fmap, result_fmap in Hd; repeat case_match; by simplify_eq.
Qed.

Lemma enabled_plugins_headed options :
  headed (MinMax.new_ptr options) (enabled_plugins options).
Proof.
  eexists _, _. split; [done|]. unfold PLUGIN_REGISTRY. simpl.
  repeat destruct (existsb _ _); done.
Qed.

(** The policy is named in the configuration. *)
Definition has_policy (options : PluginsOptions) (n : string) : bool :=
  existsb (String.eqb n) (po_policies options).

Lemma enabled_plugins_eq options :
  enabled_plugins options =
  ("minmax", PMinMax (MinMax.new_ptr options)) ::
  (if has_policy options "priority" then [("priority", PPriority Priority.new_ptr)] else []) ++
  (if has_policy options "drf" then [("drf", PDrf Drf.new_ptr)] else []) ++
  (if has_policy options "das" then [("das", PDas Das.new_ptr)] else []) ++
  [("shim", PShim ShimSelect.new_ptr)].
Proof.
  unfold enabled_plugins, PLUGIN_REGISTRY. cbn [List.filter pi_name pi_configurable negb orb].
  fold (has_policy options "priority") (has_policy options "drf") (has_policy options "das").
  by destruct (has_policy options "priority"), (has_policy options "drf"), (has_policy options "das").
Qed.

Lemma pm_setup_headed ss options ps :
  pm_setup ss options = Ok ps ->
  exists mm, minmax_setup ss (MinMax.new_ptr options) = Ok mm /\ headed mm ps.
Proof.
  unfold pm_setup. destruct (negb _); [done|]. intros Hf.
  exact (for_plugins_headed (fun P _ => setup ss) _ _ _ (enabled_plugins_headed options) Hf).
Qed.
End manager_lemmas.

(** ** The session order under the priority policy *)

Section priority_order.
Context `{Env}.

Lemma priority_order_fn n1 n2 n3 mm pr sh t1 t2 :
  pm_ssn_order_fn [(n1, PMinMax mm); (n2, PPriority pr); (n3, PShim sh)] t1 t2 =
  Z.compare (Priority.priority_of pr t2) (Priority.priority_of pr t1).
Proof.
  unfold pm_ssn_order_fn, first_order. simpl. unfold Priority.priority_ssn_order_fn.
  destruct (Z.eqb_spec (Priority.priority_of pr t1) (Priority.priority_of pr t2)) as [->|Hne]; simpl.
  - by rewrite Z.compare_refl.
  - destruct (Z.compare_spec (Priority.priority_of pr t2) (Priority.priority_of pr t1)); simpl;
      [congruence|done|done].
Qed.

Lemma pm_setup_priority ss limits ps :
  pm_setup ss (mkOptions ["priority"] limits) = Ok ps ->
  exists mm pr sh,
    ps = [("minmax", PMinMax mm); ("priority", PPriority pr); ("shim", PShim sh)] /\
    Priority.priority_setup ss Priority.new_ptr = Ok pr.
Proof.
  intros [= <-]. do 3 eexists. split; reflexivity.
Qed.

Lemma ready_sessions_elem ss x :
  snap_wf ss -> x ∈ hm_values (find_sessions READY_SESSION ss) ->
  ss_sessions ss !! si_id x = Some x /\ si_state x = SsnOpen.
Proof.
  intros Hwf. unfold READY_SESSION. rewrite find_sessions_spec, hm_values_elem by done.
  intros (k & [Hk Hm]%map_lookup_filter_Some). rewrite (sw_ssns ss Hwf _ _ Hk).
  split; [done|]. unfold session_matches in Hm. simpl in Hm.
  rewrite !andb_true_iff, bool_decide_eq_true in Hm. tauto.
Qed.
End priority_order.

(** ** Properties *)

(** rejects a configuration that names an unknown policy, before any
    plugin runs; otherwise the MinMax plugin, set up on the snapshot, is asked
    first, and its answers alone decide whether a session is underused, ready
    or holds its gang. *)
Theorem pm_setup_authority `{Env} ss options :
  (forallb (contains configurable_policy_names) (po_policies options) = false ->
     pm_setup ss options = Err EInvalidConfig) /\
  (forall ps, pm_setup ss options = Ok ps ->
     exists mm, minmax_setup ss (MinMax.new_ptr options) = Ok mm /\
       forall ssn,
         pm_is_underused ps ssn = default false (minmax_is_underused mm ssn) /\
         pm_is_ready ps ssn = default false (minmax_is_ready mm ssn) /\
         Some (pm_is_satisfied ps ssn) = minmax_is_satisfied mm ssn).
Proof.
  split; [unfold pm_setup; by intros ->|]. intros ps Hs.
  destruct (pm_setup_headed ss options ps Hs) as (mm & Hmm & Hh). exists mm. split; [done|].
  intros ssn. by rewrite (pm_is_underused_headed mm), (pm_is_ready_headed mm),
    (pm_is_satisfied_headed mm).
Qed.

(** Under the priority policy the scheduler's queue serves the session with
    the LEAST priority first: the plugin orders higher priorities as smaller,
    and the queue is a max-heap. *)
Theorem priority_serves_lowest_first `{Env} `{StdHeap} ss limits ps x h :
  snap_wf ss ->
  pm_setup ss (mkOptions ["priority"] limits) = Ok ps ->
  heap_pop (pm_ssn_order_fn ps)
    (heap_push_all (pm_ssn_order_fn ps) (hm_values (find_sessions READY_SESSION ss)) [])
    = Some (x, h) ->
  forall y, y ∈ hm_values (find_sessions READY_SESSION ss) -> si_priority x <= si_priority y.
Proof.
  intros Hwf Hps Hpop y Hy.
  destruct (pm_setup_priority ss limits ps Hps) as (mm & pr & sh & -> & Hpr).
  set (cmp := pm_ssn_order_fn _) in *. set (l := hm_values _) in *.
  assert (Hcmp : forall t1 t2, cmp t1 t2 =
    Z.compare (Priority.priority_of pr t2) (Priority.priority_of pr t1))
    by (intros; apply priority_order_fn).
  assert (TotalCmp cmp) as Htot.
  { split; intros *; rewrite !Hcmp; [apply Z.compare_antisym|].
    change (Priority.priority_of pr y0 <= Priority.priority_of pr x0 ->
            Priority.priority_of pr z <= Priority.priority_of pr y0 ->
            Priority.priority_of pr z <= Priority.priority_of pr x0). lia. }
  assert (Hin : forall z, z ∈ heap_push_all cmp l [] <-> z ∈ l)
    by (intros z; by rewrite heap_push_all_perm, app_nil_r).
  assert (Hprio : forall z, z ∈ l -> Priority.priority_of pr z = si_priority z).
  { intros z [Hz Ho]%ready_sessions_elem; [|done].
    destruct (Priority.priority_setup_spec ss Priority.new_ptr z Hwf Hz Ho) as (pr' & Hpr' & Hz').
    rewrite Hpr in Hpr'. by simplify_eq. }
  assert (x ∈ l) as Hx.
  { apply Hin. rewrite (heap_pop_perm _ _ _ _ Hpop). left. }
  rewrite heap_pop_eq in Hpop.
  destruct (is_heap_pop _ cmp x _ _ Htot (heap_push_all_heap cmp l [] (is_heap_nil _ _)) Hpop)
    as [_ Hmax].
  specialize (Hmax y (proj2 (Hin y) Hy)). rewrite Hcmp, !Hprio in Hmax by done. exact Hmax.
Qed.

(** ** Witnesses *)

Definition demo_ssn_prio (id : string) (prio : Z) : SessionInfo :=
  mkSessionInfo id "app" (<[TaskPending := 3]> ∅) 0 None SsnOpen 0 None 1 prio
    (Some (mkRR 1 1 0)) 0 ∅.

Definition demo_prio_snap : SnapShot :=
  add_session (demo_ssn_prio "low" 1) (add_session (demo_ssn_prio "high" 9)
    (new_with_session_retry_limits 5)).

Lemma demo_prio_snap_wf : snap_wf demo_prio_snap.
Proof. repeat (apply add_session_wf; [|done]). apply new_snap_wf. Qed.

Definition pm_or_nil (r : result PluginManager) : PluginManager :=
  match r with Ok p => p | _ => [] end.

Definition demo_prio_ps : PluginManager :=
  pm_or_nil (@pm_setup demo_env demo_prio_snap (mkOptions ["priority"] demo_limits)).

Definition demo_prio_list : list SessionInfo :=
  @hm_values demo_env _ (@find_sessions demo_env READY_SESSION demo_prio_snap).

Definition demo_prio_pop : option (SessionInfo * list SessionInfo) :=
  @heap_pop ListHeap.heap _ (@pm_ssn_order_fn demo_env demo_prio_ps)
    (@heap_push_all ListHeap.heap _ (@pm_ssn_order_fn demo_env demo_prio_ps) demo_prio_list []).

Lemma priority_serves_lowest_first_witness :
  fst <$> demo_prio_pop = Some (demo_ssn_prio "low" 1) /\
  demo_ssn_prio "high" 9 ∈ demo_prio_list /\
  si_priority (demo_ssn_prio "low" 1) <= si_priority (demo_ssn_prio "high" 9).
Proof.
  assert (Hin : demo_ssn_prio "high" 9 ∈ demo_prio_list).
  { vm_compute. (left || right; left). }
  split_and!; [by vm_compute|exact Hin|].
  apply (@priority_serves_lowest_first demo_env ListHeap.heap demo_prio_snap demo_limits demo_prio_ps
    (demo_ssn_prio "low" 1) [demo_ssn_prio "high" 9] demo_prio_snap_wf); [by vm_compute..|exact Hin].
Defined.
