(* ===== verification/SchedCtx.v ===== *)
(** * The scheduling context and statements ([scheduler/ctx.rs],
    [scheduler/statement.rs])

    One scheduling cycle works on a snapshot, the plugins set up on it, and
    the controller.  The controller is an interface here: the operations the
    scheduler calls, and what it relies on of them. *)
From S2P Require Import Prelude Types Resource Filters Snapshot Order PluginApi MinMax Policies.
From S2P Require Import Drf PluginManager.
Local Open Scope Z_scope.

(** The controller operations the scheduler calls. *)
Class SchedController (C : Type) := {
  create_executor : string -> string -> M C Executor;
  bind_session : string -> string -> M C unit;
  interrupt_executor : string -> M C unit;
  suspend_session : string -> M C unit;
  release_executor : string -> M C unit
}.

(** [Context]: the controller, the snapshot, the plugins; and how many times
    the cycle has read the clock. *)
Record Context (C : Type) := mkContext {
  cx_controller : C;
  cx_snapshot : SnapShot;
  cx_plugins : PluginManager;
  cx_clock : nat
}.
Arguments mkContext {C} _ _ _ _.
Arguments cx_controller {C} _.
Arguments cx_snapshot {C} _.
Arguments cx_plugins {C} _.
Arguments cx_clock {C} _.

Section ctx.
Context `{Env} {C : Type} `{SchedController C}.
Abbreviation MC := (M (Context C)).

Definition set_snapshot (ss : SnapShot) (c : Context C) : Context C :=
  mkContext (cx_controller c) ss (cx_plugins c) (cx_clock c).

(** A call of the controller. *)
Definition call {A} (m : M C A) : MC A :=
  zoom cx_controller (fun k c => mkContext k (cx_snapshot c) (cx_plugins c) (cx_clock c)) m.

(** A callback to the plugins. *)
Definition callback (f : PluginManager -> result PluginManager) : MC unit := fun c =>
  match f (cx_plugins c) with
  | Ok ps => (Ok tt, mkContext (cx_controller c) (cx_snapshot c) ps (cx_clock c))
  | Err e => (Err e, c)
  | Panic => (Panic, c)
  end.

(** [Utc::now()]. *)
Definition now : MC Z := fun c =>
  (Ok (utc_now (cx_clock c)),
   mkContext (cx_controller c) (cx_snapshot c) (cx_plugins c) (S (cx_clock c))).

Definition ctx_is_underused (ssn : SessionInfo) (c : Context C) : bool :=
  pm_is_underused (cx_plugins c) ssn.
Definition ctx_is_ready (ssn : SessionInfo) (c : Context C) : bool :=
  pm_is_ready (cx_plugins c) ssn.
Definition ctx_is_satisfied (ssn : SessionInfo) (c : Context C) : bool :=
  pm_is_satisfied (cx_plugins c) ssn.
Definition ctx_is_overused (ssn : SessionInfo) (c : Context C) : bool :=
  pm_is_overused (cx_plugins c) ssn.
Definition ctx_is_reclaimable (e : ExecutorInfo) (c : Context C) : bool :=
  pm_is_reclaimable (cx_plugins c) e.
Definition ctx_is_allocatable (node : NodeInfo) (ssn : SessionInfo) (c : Context C)
    : result bool :=
  pm_is_allocatable (cx_plugins c) node ssn.

Definition ctx_is_available (e : ExecutorInfo) (ssn : SessionInfo) (c : Context C) : bool :=
  if negb (bool_decide (ei_application e = si_application ssn)) then false
  else if negb (is_some_and (get_node (ei_node e) (cx_snapshot c)) ni_is_ready) then false
  else if is_some_and (si_resreq ssn) (fun r => negb (bool_decide (r = ei_resreq e)))
  then false
  else pm_is_available (cx_plugins c) e ssn.

Definition select_executor (ssn : SessionInfo) (idle_executors : gmap string ExecutorInfo)
    (c : Context C) : option ExecutorInfo :=
  let eligible := List.filter
    (fun e => bool_decide (ei_ssn_id e = None) && ctx_is_available e ssn c)
    (hm_values idle_executors) in
  let eligible := sort_by (fun e1 e2 => pm_executor_order_fn (cx_plugins c) ssn e2 e1)
                    eligible in
  head eligible.

Definition allocate_executor (node : NodeInfo) (ssn : SessionInfo) : MC unit :=
  e ← call (create_executor (ni_name node) (si_id ssn));
  let info := ExecutorInfo_from e in
  modify (fun c => set_snapshot (add_executor info (cx_snapshot c)) c) ≫= fun _ =>
  callback (pm_on_executor_create info ssn).

Definition pipeline_executor (e : ExecutorInfo) (ssn : SessionInfo) : MC unit :=
  callback (pm_on_executor_pipeline e ssn).

Definition ei_with_signal (sig : option Signal) (e : ExecutorInfo) : ExecutorInfo :=
  mkExecutorInfo (ei_id e) (ei_node e) (ei_resreq e) (ei_shim e) (ei_application e)
    (ei_task_id e) (ei_ssn_id e) (ei_creation_time e) (ei_latest_updated_timestamp e)
    (ei_state e) sig (ei_attributes e).

Definition ei_with_ssn (ssn : option string) (e : ExecutorInfo) : ExecutorInfo :=
  mkExecutorInfo (ei_id e) (ei_node e) (ei_resreq e) (ei_shim e) (ei_application e)
    (ei_task_id e) ssn (ei_creation_time e) (ei_latest_updated_timestamp e)
    (ei_state e) (ei_signal e) (ei_attributes e).

Definition ctx_interrupt_executor (e : ExecutorInfo) (ssn : SessionInfo) : MC unit :=
  call (interrupt_executor (ei_id e)) ≫= fun _ =>
  callback (pm_on_executor_interrupt e ssn) ≫= fun _ =>
  modify (fun c => set_snapshot
    (update_executor (ei_with_signal (Some SigInterrupt) e) (cx_snapshot c)) c).

Definition ctx_suspend_session (ssn : SessionInfo) : MC unit :=
  call (suspend_session (si_id ssn)).

(** [snapshot.update_executor_state(exec, state)], which reads the clock. *)
Definition snapshot_set_state (e : ExecutorInfo) (st : ExecutorState) : MC unit :=
  t ← now;
  modify (fun c => set_snapshot (update_executor_state e st t (cx_snapshot c)) c).

Definition ctx_release_executor (e : ExecutorInfo) : MC unit :=
  call (release_executor (ei_id e)) ≫= fun _ =>
  snapshot_set_state e ExecReleasing.

(** ** Statements: the staged binds, oldest first *)

Definition Statement : Type := list (ExecutorInfo * SessionInfo).

Definition stmt_bind (e : ExecutorInfo) (ssn : SessionInfo) (binds : Statement) : MC Statement :=
  callback (pm_on_session_bind e ssn) ≫= fun _ =>
  let bound := ei_with_ssn (Some (si_id ssn)) e in
  snapshot_set_state bound ExecBinding ≫= fun _ =>
  mret (binds ++ [(e, ssn)]).

(** The loop of [discard], on the binds newest first. *)
Fixpoint discard_loop (rev_binds : Statement) (execs : list ExecutorInfo)
    : MC (list ExecutorInfo) :=
  match rev_binds with
  | [] => mret execs
  | (e, ssn) :: rest =>
      callback (pm_on_session_unbind e ssn) ≫= fun _ =>
      snapshot_set_state e ExecIdle ≫= fun _ =>
      discard_loop rest (execs ++ [e])
  end.

Definition stmt_discard (binds : Statement) : MC (list ExecutorInfo) :=
  discard_loop (reverse binds) [].

(** The controller calls in order; on a failure the binds from the failed one
    on are discarded. *)
Fixpoint stmt_commit (binds : Statement) : MC unit :=
  match binds with
  | [] => mret tt
  | (e, ssn) :: rest =>
      r ← attempt (call (bind_session (ei_id e) (si_id ssn)));
      match r with
      | Ok _ => stmt_commit rest
      | Err err => stmt_discard binds ≫= fun _ => throw err
      | Panic => lift Panic
      end
  end.
End ctx.

(** ** Selection *)
Section select.
Context `{Env} {C : Type}.

Lemma select_executor_elem ssn idle (c : Context C) e :
  select_executor ssn idle c = Some e ->
  e ∈ hm_values idle /\ ei_ssn_id e = None /\ ctx_is_available e ssn c = true.
Proof.
  unfold select_executor. set (l := List.filter _ _). intros Hh.
  assert (e ∈ l) as He.
  { rewrite <-(sort_by_perm (fun e1 e2 => pm_executor_order_fn (cx_plugins c) ssn e2 e1) l).
    destruct (sort_by _ l); simplify_eq/=. left. }
  unfold l in He. rewrite list_elem_of_In, filter_In, andb_true_iff, bool_decide_eq_true in He.
  rewrite list_elem_of_In. tauto.
Qed.

Lemma ctx_is_available_true e ssn (c : Context C) :
  ctx_is_available e ssn c = true ->
  ei_application e = si_application ssn /\
  (exists n, ss_nodes (cx_snapshot c) !! ei_node e = Some n /\ ni_state n = NodeReady) /\
  (forall r, si_resreq ssn = Some r -> ei_resreq e = r) /\
  pm_is_available (cx_plugins c) e ssn = true.
Proof.
  unfold ctx_is_available. destruct (bool_decide_reflect (ei_application e = si_application ssn));
    simpl; [|done].
  unfold get_node. destruct (ss_nodes _ !! _) as [n|] eqn:Hn; simpl; [|done].
  unfold ni_is_ready. destruct (bool_decide_reflect (ni_state n = NodeReady)); simpl; [|done].
  destruct (si_resreq ssn) as [r|]; simpl; [|intros; split_and!; eauto; done].
  destruct (bool_decide_reflect (r = ei_resreq e)); simpl; [|done].
  intros. split_and!; eauto. by intros ? [= <-].
Qed.
End select.
