(* ===== verification/Actions.v ===== *)
(** * The scheduler's actions ([scheduler/actions/dispatch.rs],
    [allocate.rs], [shuffle.rs], [scheduler/mod.rs])

    The loops of Dispatch and Allocate run on fuel and return [None] when it
    runs out; [Scheduling.v] proves that the fuel given is enough. *)
From S2P Require Import Prelude Types Filters Snapshot Order PluginApi PluginManager SchedCtx.
Local Open Scope Z_scope.

Section actions.
Context `{Env} `{StdHeap} {C : Type} `{SchedController C}.
Abbreviation MC := (M (Context C)).

(** The session order of the queue, read off the plugins at each call. *)
Definition ssn_order_fn (c : Context C) : SessionInfo -> SessionInfo -> comparison :=
  pm_ssn_order_fn (cx_plugins c).

(** [let mut open_ssns = BinaryHeap::new(..); for ssn in .. { open_ssns.push(ssn) }]. *)
Definition open_queue (c : Context C) : list SessionInfo :=
  heap_push_all (ssn_order_fn c) (hm_values (find_sessions READY_SESSION (cx_snapshot c))) [].

(** ** Dispatch *)

(** Stage binds until the session holds its gang or no executor is left. *)
Fixpoint bind_loop (fuel : nat) (ssn : SessionInfo) (idle : gmap string ExecutorInfo)
    (binds : Statement) : MC (option (gmap string ExecutorInfo * Statement)) :=
  match fuel with
  | O => mret None
  | S fuel =>
      sel ← gets (select_executor ssn idle);
      match sel with
      | None => mret (Some (idle, binds))
      | Some e =>
          binds ← stmt_bind e ssn binds;
          let idle := delete (ei_id e) idle in
          satisfied ← gets (ctx_is_satisfied ssn);
          if (satisfied : bool) then mret (Some (idle, binds))
          else bind_loop fuel ssn idle binds
      end
  end.

(** One turn of the loop of Dispatch, for the popped session: the queue and
    the idle executors after it. *)
Definition dispatch_session (ssn : SessionInfo) (queue : list SessionInfo)
    (idle : gmap string ExecutorInfo)
    : MC (option (list SessionInfo * gmap string ExecutorInfo)) :=
  underused ← gets (ctx_is_underused ssn);
  if negb underused then mret (Some (queue, idle))
  else
    ready ← gets (ctx_is_ready ssn);
    if (ready : bool) then mret (Some (queue, idle))
    else
      r ← bind_loop (S (size idle)) ssn idle [];
      match r with
      | None => mret None
      | Some (idle, binds) =>
          satisfied ← gets (ctx_is_satisfied ssn);
          if bool_decide (binds = []) || negb satisfied then
            execs ← stmt_discard binds;
            mret (Some (queue, foldl (fun m e => <[ei_id e := e]> m) idle execs))
          else
            stmt_commit binds ≫= fun _ =>
            underused ← gets (ctx_is_underused ssn);
            ready ← gets (ctx_is_ready ssn);
            if negb (bool_decide (idle = ∅)) && underused && negb ready
            then order ← gets ssn_order_fn;
                 mret (Some (heap_push order ssn queue, idle))
            else mret (Some (queue, idle))
      end.

Fixpoint dispatch_loop (fuel : nat) (queue : list SessionInfo)
    (idle : gmap string ExecutorInfo) : MC (option unit) :=
  match fuel with
  | O => mret None
  | S fuel =>
      if heap_is_empty queue then mret (Some tt)
      else
        order ← gets ssn_order_fn;
        match heap_pop order queue with
        | None => lift Panic
        | Some (ssn, queue) =>
            r ← dispatch_session ssn queue idle;
            match r with
            | None => mret None
            | Some (queue, idle) => dispatch_loop fuel queue idle
            end
        end
  end.

(** [DispatchAction::execute]. *)
Definition dispatch_execute : MC (option unit) :=
  queue ← gets open_queue;
  idle ← gets (fun c => find_executors IDLE_EXECUTOR (cx_snapshot c));
  dispatch_loop (S (length queue + size idle)) queue idle.

(** ** Allocate *)

(** [nodes.iter().find(|node| ctx.is_allocatable(node, &ssn).unwrap_or(false))]. *)
Fixpoint find_node (nodes : list NodeInfo) (ssn : SessionInfo) : MC (option NodeInfo) :=
  match nodes with
  | [] => mret None
  | node :: nodes =>
      r ← gets (ctx_is_allocatable node ssn);
      match r with
      | Ok true => mret (Some node)
      | Ok false | Err _ => find_node nodes ssn
      | Panic => lift Panic
      end
  end.

(** One turn of the loop: the void and the unbinding executors not yet
    reserved after it. *)
Definition allocate_session (ssn : SessionInfo) (nodes : list NodeInfo)
    (void_executors unbinding_executors : gmap string ExecutorInfo)
    : MC (gmap string ExecutorInfo * gmap string ExecutorInfo) :=
  underused ← gets (ctx_is_underused ssn);
  if negb underused then mret (void_executors, unbinding_executors)
  else
    ready ← gets (ctx_is_ready ssn);
    if (ready : bool) then mret (void_executors, unbinding_executors)
    else
      c ← get;
      match List.find (fun e => ctx_is_available e ssn c) (hm_values void_executors) with
      | Some e =>
          pipeline_executor e ssn ≫= fun _ =>
          mret (delete (ei_id e) void_executors, unbinding_executors)
      | None =>
          match List.find (fun e => ctx_is_available e ssn c) (hm_values unbinding_executors) with
          | Some e =>
              pipeline_executor e ssn ≫= fun _ =>
              mret (void_executors, delete (ei_id e) unbinding_executors)
          | None =>
              o ← find_node nodes ssn;
              match o with
              | Some node =>
                  allocate_executor node ssn ≫= fun _ =>
                  mret (void_executors, unbinding_executors)
              | None => mret (void_executors, unbinding_executors)
              end
          end
      end.

Fixpoint allocate_loop (fuel : nat) (queue : list SessionInfo) (nodes : list NodeInfo)
    (void_executors unbinding_executors : gmap string ExecutorInfo) : MC (option unit) :=
  match fuel with
  | O => mret None
  | S fuel =>
      if heap_is_empty queue then mret (Some tt)
      else
        order ← gets ssn_order_fn;
        match heap_pop order queue with
        | None => lift Panic
        | Some (ssn, queue) =>
            r ← allocate_session ssn nodes void_executors unbinding_executors;
            allocate_loop fuel queue nodes r.1 r.2
        end
  end.

(** [AllocateAction::execute]. *)
Definition allocate_execute : MC (option unit) :=
  queue ← gets open_queue;
  nodes ← gets (fun c => hm_values (find_nodes READY_NODE (cx_snapshot c)));
  void_executors ← gets (fun c => find_executors VOID_EXECUTOR (cx_snapshot c));
  unbinding_executors ← gets (fun c => find_executors UNBINDING_EXECUTOR (cx_snapshot c));
  allocate_loop (S (length queue)) queue nodes void_executors unbinding_executors.

(** ** Shuffle *)

Definition idle_executor_expired (ss : SnapShot) (e : ExecutorInfo) : MC bool :=
  match get_application (ei_application e) ss with
  | None => mret true
  | Some application =>
      let idle_delay := Z.max (ai_delay_release application) 0 * 2 in
      t ← now;
      let idle_age := t - ei_latest_updated_timestamp e in
      mret ((idle_age <? 0) || (idle_age >=? idle_delay))
  end.

(** A session no executor serves becomes suspended; a failure is logged. *)
Definition complete_suspends : MC unit :=
  suspending ← gets (fun c =>
    find_sessions (Some (session_by_state SsnSuspending)) (cx_snapshot c));
  if bool_decide (suspending = ∅) then mret tt
  else
    serving ← gets (fun c => omap ei_ssn_id
                (hm_values (find_executors ALL_EXECUTOR (cx_snapshot c))));
    for_each (hm_values suspending) (fun ssn =>
      if bool_decide (si_id ssn ∈ serving) then mret tt
      else attempt (ctx_suspend_session ssn) ≫= fun _ => mret tt).

Definition reclaim_executor (e : ExecutorInfo) : MC unit :=
  reclaimable ← gets (ctx_is_reclaimable e);
  if negb reclaimable then mret tt
  else
    match ei_ssn_id e with
    | None => mret tt
    | Some session_id =>
        r ← gets (fun c => get_session session_id (cx_snapshot c));
        session ← lift r;
        overused ← gets (ctx_is_overused session);
        if (overused : bool) then ctx_interrupt_executor e session else mret tt
    end.

Definition expire_executor (e : ExecutorInfo) : MC unit :=
  ss ← gets cx_snapshot;
  expired ← idle_executor_expired ss e;
  if (expired : bool) then ctx_release_executor e else mret tt.

(** [ShuffleAction::execute]. *)
Definition shuffle_execute : MC unit :=
  complete_suspends ≫= fun _ =>
  bound ← gets (fun c => hm_values (find_executors BOUND_EXECUTOR (cx_snapshot c)));
  for_each bound reclaim_executor ≫= fun _ =>
  idle ← gets (fun c => hm_values (find_executors IDLE_EXECUTOR (cx_snapshot c)));
  for_each idle expire_executor.

(** ** One cycle of [ScheduleRunner::run]: an error of an action ends the
    cycle's actions *)

Definition run_cycle : MC unit :=
  d ← attempt dispatch_execute;
  match d with
  | Ok _ =>
      a ← attempt allocate_execute;
      match a with
      | Ok _ => attempt shuffle_execute ≫= fun _ => mret tt
      | _ => mret tt
      end
  | _ => mret tt
  end.

(** [Context::new]. *)
Definition new_context (k : C) (ss : SnapShot) (options : PluginsOptions) : result (Context C) :=
  ps ← pm_setup ss options;
  Ok (mkContext k ss ps 0%nat).
End actions.

(** ** Shapes of the results *)
Section shapes.
Context `{Env} `{StdHeap} {C : Type} `{SchedController C}.

(** Only the session itself is put back in the queue. *)
Lemma dispatch_session_queue ssn queue idle (c : Context C) q i :
  (dispatch_session ssn queue idle c).1 = Ok (Some (q, i)) ->
  forall x, x ∈ q -> x = ssn \/ x ∈ queue.
Proof.
  unfold dispatch_session. unfold mbind, M_bind, gets. cbv beta iota.
  destruct (negb _); [intros [= <- <-]; auto|].
  destruct (ctx_is_ready ssn c); [intros [= <- <-]; auto|].
  destruct (bind_loop _ ssn idle [] c) as [[[[i1 binds]|]|err|] c1]; [|done|done|done].
  destruct (_ || _).
  - destruct (stmt_discard binds c1) as [[]]; [intros [= <- <-]; auto|done|done].
  - destruct (stmt_commit binds c1) as [[] c2]; [|done|done].
    destruct (_ && _); intros [= <- <-]; [|auto]. intros x. unfold heap_push.
    rewrite std_push_perm. by intros [->|?]%elem_of_cons; auto.
Qed.

Lemma find_node_state ns ssn (c : Context C) : (find_node ns ssn c).2 = c.
Proof.
  induction ns as [|n ns IH]; [done|]. simpl. unfold mbind, M_bind, gets. cbv beta iota.
  by destruct (ctx_is_allocatable n ssn c) as [[]|e|].
Qed.
End shapes.
