(* ===== verification/Capacity.v ===== *)
(** * A scheduling cycle never overcommits the cluster

    The contract of the controller the scheduler relies on, the invariant that
    ties the MinMax counters to the snapshot's executors, and that every
    action of the cycle keeps it. *)
From S2P Require Import Prelude Types Resource Filters Snapshot Order PluginApi MinMax Policies.
From S2P Require Import Drf PluginManager SchedCtx Actions.
Local Open Scope Z_scope.

(** ** The controller's contract

    [ctl_specs] is the application and the request of each session the
    controller knows, [ctl_ids] the executor identifiers in use. *)
Class SchedControllerSpec (C : Type) `{SchedController C} := {
  ctl_specs : C -> string -> option (string * ResourceRequirement);
  ctl_ids : C -> gset string;
  create_executor_spec : forall node ssn k e k',
    create_executor node ssn k = (Ok e, k') ->
    ctl_specs k ssn = Some (ex_application e, ex_resreq e) /\
    ex_node e = node /\ ex_state e = ExecVoid /\ ex_ssn_id e = None /\ ex_signal e = None /\
    (ex_id e ∉ ctl_ids k) /\ (ex_id e ∈ ctl_ids k');
  create_executor_frame : forall node ssn k,
    ctl_specs (create_executor node ssn k).2 = ctl_specs k /\
    ctl_ids k ⊆ ctl_ids (create_executor node ssn k).2;
  bind_session_frame : forall id ssn k,
    ctl_specs (bind_session id ssn k).2 = ctl_specs k /\
    ctl_ids k ⊆ ctl_ids (bind_session id ssn k).2;
  interrupt_executor_frame : forall id k,
    ctl_specs (interrupt_executor id k).2 = ctl_specs k /\
    ctl_ids k ⊆ ctl_ids (interrupt_executor id k).2;
  suspend_session_frame : forall id k,
    ctl_specs (suspend_session id k).2 = ctl_specs k /\
    ctl_ids k ⊆ ctl_ids (suspend_session id k).2;
  release_executor_frame : forall id k,
    ctl_specs (release_executor id k).2 = ctl_specs k /\
    ctl_ids k ⊆ ctl_ids (release_executor id k).2
}.

(** ** What of an executor counts as capacity *)

Definition cap (e : ExecutorInfo) : string * ResourceRequirement * string :=
  (ei_node e, ei_resreq e, ei_application e).

(** The executors of a snapshot that hold capacity. *)
Definition live_execs (ss : SnapShot) : list ExecutorInfo :=
  List.filter live (map_to_list (ss_executors ss)).*2.

Lemma count_fmap {A B} (f : A -> B) (P : B -> bool) l :
  count P (f <$> l) = count (fun x => P (f x)) l.
Proof. induction l as [|x l IH]; [done|]. rewrite fmap_cons, !count_cons. by rewrite IH. Qed.

Lemma node_load_cap n l :
  node_load n l = snd ∘ fst <$> List.filter (fun t => bool_decide (t.1.1 = n)) (cap <$> l).
Proof.
  induction l as [|e l IH]; [done|]. rewrite node_load_cons, fmap_cons, IH. unfold on_node.
  simpl. by destruct (bool_decide _).
Qed.

Lemma on_node_cap n l : count (on_node n) l = count (fun t => bool_decide (t.1.1 = n)) (cap <$> l).
Proof. by rewrite count_fmap. Qed.

Lemma of_app_cap a l : count (of_app a) l = count (fun t => bool_decide (t.2 = a)) (cap <$> l).
Proof. by rewrite count_fmap. Qed.

Section same_caps.
Context (l1 l2 : list ExecutorInfo) (Hcap : cap <$> l1 ≡ₚ cap <$> l2).

Lemma node_load_same n : node_load n l1 ≡ₚ node_load n l2.
Proof using Hcap. rewrite !node_load_cap. by rewrite Hcap. Qed.

Lemma capacity_of_same p : capacity_of p l1 -> capacity_of p l2.
Proof using Hcap.
  intros [H1 H2 H3]. split; intros x.
  - by rewrite H1, !on_node_cap, Hcap.
  - by rewrite H2, node_load_same.
  - by rewrite H3, !of_app_cap, Hcap.
Qed.

Lemma node_ok_same limits n : node_ok limits l1 n -> node_ok limits l2 n.
Proof using Hcap.
  intros [H1 H2]. split; [by rewrite <-node_load_same|]. by rewrite on_node_cap, <-Hcap, <-on_node_cap.
Qed.

Lemma of_app_same a : count (of_app a) l1 = count (of_app a) l2.
Proof using Hcap. by rewrite !of_app_cap, Hcap. Qed.
End same_caps.

Lemma nonneg_cap l :
  Forall (fun e => rr_nonneg (ei_resreq e)) l <-> Forall (fun t => rr_nonneg t.1.2) (cap <$> l).
Proof. by rewrite Forall_fmap. Qed.

(** Replacing an executor by one with the same capacity. *)
Lemma live_execs_update e0 e ss :
  ss_executors ss !! ei_id e = Some e0 -> cap e = cap e0 -> live e = live e0 ->
  cap <$> live_execs (update_executor e ss) ≡ₚ cap <$> live_execs ss.
Proof.
  intros He Hcap Hlive. unfold live_execs. rewrite update_executor_executors.
  rewrite <-(insert_delete_id (ss_executors ss) (ei_id e) e0 He) at 2.
  rewrite <-(insert_delete_eq (ss_executors ss)).
  rewrite !map_to_list_insert by apply lookup_delete_eq. simpl. rewrite Hlive.
  destruct (live e0); simpl; [by rewrite Hcap|done].
Qed.

Lemma live_execs_add e ss :
  ss_executors ss !! ei_id e = None -> live e = true ->
  live_execs (add_executor e ss) ≡ₚ e :: live_execs ss.
Proof.
  intros He Hl. unfold live_execs. simpl. rewrite map_to_list_insert by done. simpl. by rewrite Hl.
Qed.

(** ** The invariant of a cycle *)

Section cycle.
Context `{Env} `{StdHeap} {C : Type} `{SchedControllerSpec C}.
(** The limits and the parts of the snapshot a cycle does not change, and the
    nodes and applications within their limits when it starts. *)
Context (limits : FlameLimits) (apps : gmap string AppInfo) (nodes : gmap string NodeInfo)
  (ssns : gmap string SessionInfo) (good_node good_app : string -> Prop).

Definition app_limit (a : string) : option Z :=
  executor_limit (ai_max_instances <$> apps !! a) (fl_application_max_executors limits).

Definition app_ok (l : list ExecutorInfo) (a : string) : Prop :=
  forall lim, app_limit a = Some lim -> Z.of_nat (count (of_app a) l) <= lim.

(** The counters of the plugins agree with the snapshot. *)
Definition plugins_agree (c : Context C) : Prop :=
  exists mm, headed mm (cx_plugins c) /\ mm_limits mm = limits /\
    capacity_of mm (live_execs (cx_snapshot c)) /\
    forall a, mm_application_limits mm !! a = ai_max_instances <$> apps !! a.

(** The executors of the snapshot are within the limits. *)
Record snapshot_ok (ss : SnapShot) : Prop := {
  so_wf : snap_wf ss;
  so_apps : ss_applications ss = apps;
  so_nodes : ss_nodes ss = nodes;
  so_ssns : ss_sessions ss = ssns;
  so_nonneg : Forall (fun e => rr_nonneg (ei_resreq e)) (live_execs ss);
  so_node_ok : forall id n, nodes !! id = Some n -> good_node id -> node_ok limits (live_execs ss) n;
  so_app_ok : forall a, good_app a -> app_ok (live_execs ss) a
}.

(** The snapshot is a view of the controller. *)
Definition controller_agrees (c : Context C) : Prop :=
  (forall id, is_Some (ss_executors (cx_snapshot c) !! id) -> id ∈ ctl_ids (cx_controller c)) /\
  (forall id s app rr, ssns !! id = Some s -> ctl_specs (cx_controller c) id = Some (app, rr) ->
     app = si_application s /\ si_resreq s = Some rr).

(** The snapshot still has this executor, with the same capacity. *)
Definition viewed (c : Context C) (e : ExecutorInfo) : Prop :=
  live e = true /\
  exists e0, ss_executors (cx_snapshot c) !! ei_id e = Some e0 /\ cap e0 = cap e /\
             live e0 = true.

(** [known] are the executors the running action works on. *)
Record cycle_inv (known : list ExecutorInfo) (c : Context C) : Prop := {
  ci_plugins : plugins_agree c;
  ci_snapshot : snapshot_ok (cx_snapshot c);
  ci_controller : controller_agrees c;
  ci_known : forall e, e ∈ known -> viewed c e
}.

(** The requests are not negative and the capacities are values of their
    types.  The service does not enforce the first: it takes a session whose
    [gpu] is negative, which is outside these theorems. *)
Hypothesis nodes_wf : forall id n, nodes !! id = Some n -> ni_name n = id /\ rr_wf (ni_allocatable n).
Hypothesis ssns_wf : forall id s rr, ssns !! id = Some s -> si_resreq s = Some rr -> rr_nonneg rr.

Section with_known.
Variable known : list ExecutorInfo.

Abbreviation keeps_inv := (keeps (cycle_inv known)).

(** A controller call within its frame. *)
Lemma call_keeps {A} (m : M C A) :
  (forall k, ctl_specs (m k).2 = ctl_specs k /\ ctl_ids k ⊆ ctl_ids (m k).2) ->
  keeps_inv (call m).
Proof using Type.
  intros Hf c [Hp Hs [Hi Hsp] Hk]. unfold call, zoom. specialize (Hf (cx_controller c)).
  destruct (m (cx_controller c)) as [r k]. simpl in *. destruct Hf as [Hf1 Hf2].
  split; [exact Hp|exact Hs| |exact Hk]. split; simpl.
  - intros id Hid. by apply Hf2, Hi.
  - intros id s app rr. rewrite Hf1. apply Hsp.
Qed.

(** A callback that leaves the capacity counters of MinMax alone. *)
Lemma callback_keeps (f : forall P, Plugin P -> P -> result P) :
  (forall mm mm', f _ MinMax_plugin mm = Ok mm' ->
     mm_limits mm' = mm_limits mm /\ mm_application_limits mm' = mm_application_limits mm /\
     forall l, capacity_of mm l -> capacity_of mm' l) ->
  keeps_inv (callback (for_plugins (fun p => dyn_mut p f))).
Proof using Type.
  intros Hf c Hinv. unfold callback.
  destruct (for_plugins _ _) as [ps| |] eqn:Hps; [|done|done]. destruct Hinv as [Hp Hs Hc Hk].
  destruct Hp as (mm & Hh & Hl & Hcap & Ha).
  destruct (for_plugins_headed f mm _ _ Hh Hps) as (mm' & Hmm & Hh').
  destruct (Hf mm mm' Hmm) as (Hl' & Ha' & Hcap'). split; [|exact Hs|exact Hc|exact Hk].
  exists mm'. simpl. rewrite Hl', Ha'. auto.
Qed.

Lemma now_keeps : keeps_inv now.
Proof using Type. by intros c [Hp Hs Hc Hk]. Qed.

(** Replacing an executor of the snapshot by one with the same capacity. *)
Lemma update_executor_keeps e0 e c :
  cycle_inv known c -> viewed c e0 -> ei_id e = ei_id e0 -> cap e = cap e0 -> live e = true ->
  cycle_inv known (set_snapshot (update_executor e (cx_snapshot c)) c).
Proof using Type.
  intros [(mm & Hh & Hl & Hcap & Ha) [Hwf Happ Hn Hss Hnn Hno Hao] [Hi Hsp] Hk]
    (Hl0 & e1 & He1 & Hc1 & Hl1) Hid Hcape Hlive. rewrite <-Hid in He1.
  pose proof (live_execs_update e1 e (cx_snapshot c) He1 ltac:(congruence) ltac:(congruence))
    as Hp. symmetry in Hp. split.
  - exists mm. split_and!; [done|done| |done]. simpl. by eapply capacity_of_same.
  - split; simpl; [by apply update_executor_wf|done|done|done| | |].
    + rewrite nonneg_cap, <-Hp, <-nonneg_cap. done.
    + intros id n Hn' Hg. eapply node_ok_same; eauto.
    + intros a Hg lim Hlim. rewrite <-(of_app_same _ _ Hp). by apply Hao.
  - split; simpl; [|exact Hsp]. intros id. rewrite insert_delete_eq.
    intros [<-|[_ ?]]%lookup_insert_is_Some; apply Hi; eauto.
  - intros x (Hlx & x0 & Hx0 & Hcx & Hlx0)%Hk. split; [done|]. simpl. rewrite insert_delete_eq.
    destruct (decide (ei_id e = ei_id x)) as [Heq|].
    + rewrite Heq, lookup_insert_eq. exists e. split_and!; [done| |done]. rewrite <-Heq, He1 in Hx0.
      assert (e1 = x0) as -> by congruence. congruence.
    + rewrite lookup_insert_ne by done. eauto.
Qed.

Lemma set_state_keeps e e' st :
  e ∈ known -> ei_id e' = ei_id e -> cap e' = cap e -> st <> ExecReleased ->
  keeps_inv (snapshot_set_state e' st).
Proof using Type.
  intros He Hid Hcap Hst. apply keeps_bind; [apply now_keeps|]. intros t c Hc. simpl.
  apply (update_executor_keeps e); [done|by eapply ci_known|done|done|].
  unfold live. simpl. by rewrite bool_decide_false.
Qed.

(** ** Statements *)

Lemma bind_callback_keeps e ssn : keeps_inv (callback (pm_on_session_bind e ssn)).
Proof using Type.
  apply callback_keeps. intros mm mm'. simpl. unfold minmax_on_session_bind.
  destruct (negb _); intros [= <-]; split_and!; try done. by intros l [].
Qed.

Lemma unbind_callback_keeps e ssn : keeps_inv (callback (pm_on_session_unbind e ssn)).
Proof using Type.
  apply callback_keeps. intros mm mm'. simpl. unfold minmax_on_session_unbind.
  destruct (ei_is_interrupted e); intros [= <-]; split_and!; try done; by intros l [].
Qed.

Lemma pipeline_callback_keeps e ssn : keeps_inv (callback (pm_on_executor_pipeline e ssn)).
Proof using Type.
  apply callback_keeps. intros mm mm'. simpl. unfold minmax_on_executor_pipeline.
  destruct (negb _); intros [= <-]; split_and!; try done. by intros l [].
Qed.

Lemma interrupt_callback_keeps e ssn : keeps_inv (callback (pm_on_executor_interrupt e ssn)).
Proof using Type.
  apply callback_keeps. intros mm mm'. simpl. intros [= <-]. split_and!; try done. by intros l [].
Qed.

(** The staged executors are known. *)
Definition stmt_known (binds : Statement) : Prop := forall b, b ∈ binds -> b.1 ∈ known.

Lemma discard_loop_execs binds execs (c : Context C) r :
  (discard_loop binds execs c).1 = Ok r -> r = execs ++ binds.*1.
Proof using Type.
  revert execs c. induction binds as [|[e ssn] binds IH]; simpl; intros execs c.
  { intros [= <-]. by rewrite app_nil_r. }
  unfold mbind, M_bind. destruct (callback _ c) as [[|?|] c1]; [|done|done].
  destruct (snapshot_set_state _ _ c1) as [[|?|] c2]; [|done|done].
  intros ->%IH. by rewrite <-app_assoc.
Qed.

Definition map_known (m : gmap string ExecutorInfo) : Prop := forall id e, m !! id = Some e -> e ∈ known.

Lemma map_known_extend m execs :
  map_known m -> (forall e, e ∈ execs -> e ∈ known) ->
  map_known (foldl (fun m e => <[ei_id e := e]> m) m execs).
Proof using Type.
  revert m. induction execs as [|e execs IH]; simpl; intros m Hm He; [done|].
  apply IH; [|intros x Hx; apply He; by right].
  intros id x [[_ <-]|[_ Hx]]%lookup_insert_Some; [apply He; left|eauto].
Qed.

Lemma stmt_bind_spec e ssn binds :
  e ∈ known -> stmt_known binds -> spec (cycle_inv known) (stmt_bind e ssn binds) stmt_known.
Proof using Type.
  intros He Hb. unfold stmt_bind.
  apply (spec_bind _ _ _ (fun _ => True)); [apply keeps_spec, bind_callback_keeps|]. intros _ _.
  apply (spec_bind _ _ _ (fun _ => True)); [by apply keeps_spec, (set_state_keeps e)|]. intros _ _.
  apply spec_ret. intros b [Hin|Hin%list_elem_of_singleton]%elem_of_app; [by apply Hb|by subst].
Qed.

Lemma discard_loop_keeps binds execs : stmt_known binds -> keeps_inv (discard_loop binds execs).
Proof using Type.
  revert execs. induction binds as [|[e ssn] binds IH]; simpl; intros execs Hb; [apply keeps_ret|].
  apply keeps_bind; [apply unbind_callback_keeps|]. intros _.
  apply keeps_bind; [apply (set_state_keeps e); [apply (Hb (e, ssn)); left|done..]|]. intros _.
  apply IH. intros b Hin. apply Hb. by right.
Qed.

Lemma stmt_discard_keeps binds : stmt_known binds -> keeps_inv (stmt_discard binds).
Proof using Type. intros Hb. apply discard_loop_keeps. intros b. rewrite elem_of_reverse. apply Hb. Qed.

Lemma stmt_commit_keeps binds : stmt_known binds -> keeps_inv (stmt_commit binds).
Proof using Type.
  induction binds as [|[e ssn] binds IH]; intros Hb; [apply keeps_ret|]. cbn [stmt_commit].
  apply keeps_bind; [apply keeps_attempt, call_keeps; intros; apply bind_session_frame|].
  intros [[]|err|]; [apply IH; intros b Hin; apply Hb; by right| |apply keeps_lift].
  apply keeps_bind; [by apply stmt_discard_keeps|]. intros _. apply keeps_throw.
Qed.

(** ** Dispatch *)

Definition dispatch_post (r : option (gmap string ExecutorInfo * Statement)) : Prop :=
  forall idle binds, r = Some (idle, binds) -> map_known idle /\ stmt_known binds.

Lemma bind_loop_spec fuel ssn idle binds :
  map_known idle -> stmt_known binds ->
  spec (cycle_inv known) (bind_loop fuel ssn idle binds) dispatch_post.
Proof using Type.
  revert idle binds. induction fuel as [|fuel IH]; simpl; intros idle binds Hi Hb.
  { by apply spec_ret. }
  eapply spec_bind; [apply spec_gets|]. intros [e|] (c & _ & Hsel).
  2: { apply spec_ret. by intros ?? [= <- <-]. }
  symmetry in Hsel. apply select_executor_elem in Hsel as ((id & Hid)%hm_values_elem & _ & _).
  assert (e ∈ known) as He by eauto.
  eapply spec_bind; [by apply stmt_bind_spec|]. intros binds' Hb'.
  assert (map_known (delete (ei_id e) idle)) as Hi'.
  { intros k x [_ Hx]%lookup_delete_Some. eauto. }
  eapply spec_bind; [apply spec_gets|]. intros [] _; [|by apply IH].
  apply spec_ret. by intros ?? [= <- <-].
Qed.

Lemma dispatch_session_spec ssn queue idle :
  map_known idle ->
  spec (cycle_inv known) (dispatch_session ssn queue idle)
    (fun r => forall q i, r = Some (q, i) -> map_known i).
Proof using Type.
  intros Hi. unfold dispatch_session.
  eapply spec_bind; [apply spec_gets|]. intros under _.
  destruct (negb under); [apply spec_ret; by intros ?? [= <- <-]|].
  eapply spec_bind; [apply spec_gets|]. intros ready _.
  destruct ready; [apply spec_ret; by intros ?? [= <- <-]|].
  eapply spec_bind; [apply bind_loop_spec; [done|by intros ? ?%elem_of_nil]|].
  intros [[i binds]|] Hpost; [|by apply spec_ret].
  destruct (Hpost i binds eq_refl) as [Hi' Hb'].
  eapply spec_bind; [apply spec_gets|]. intros sat _. destruct (_ || _).
  - eapply (spec_bind _ _ _ (fun execs => forall e, e ∈ execs -> e ∈ known)).
    + intros c Hc. split; [by apply stmt_discard_keeps|]. intros execs Hex.
      apply discard_loop_execs in Hex. intros e He. rewrite Hex in He. simpl in He.
      apply list_elem_of_fmap in He as (b & -> & Hb). apply Hb'. by apply elem_of_reverse.
    + intros execs Hex. apply spec_ret. intros ?? [= <- <-]. by apply map_known_extend.
  - eapply (spec_bind _ _ _ (fun _ => True)); [by apply keeps_spec, stmt_commit_keeps|]. intros _ _.
    eapply spec_bind; [apply spec_gets|]. intros u _.
    eapply spec_bind; [apply spec_gets|]. intros rd _.
    destruct (_ && _); [|apply spec_ret; by intros ?? [= <- <-]].
    eapply spec_bind; [apply spec_gets|]. intros order _. apply spec_ret. by intros ?? [= <- <-].
Qed.

Lemma dispatch_loop_keeps fuel queue idle :
  map_known idle -> keeps_inv (dispatch_loop fuel queue idle).
Proof using Type.
  revert queue idle. induction fuel as [|fuel IH]; simpl; intros queue idle Hi; [apply keeps_ret|].
  destruct (heap_is_empty queue); [apply keeps_ret|].
  apply keeps_bind; [apply keeps_gets|]. intros order.
  destruct (heap_pop order queue) as [[ssn q]|]; [|apply keeps_lift].
  apply (spec_keeps _ _ (fun _ => True)). eapply spec_bind; [by apply dispatch_session_spec|].
  intros [[q' i]|] Hq; apply keeps_spec; [eauto|apply keeps_ret].
Qed.

(** ** Allocate *)

Lemma on_executor_create_ok e ssn ps : exists ps', pm_on_executor_create e ssn ps = Ok ps'.
Proof using Type.
  unfold pm_on_executor_create. induction ps as [|[n p] ps [ps' IH]]; simpl; [eauto|].
  rewrite IH. destruct p; simpl; eauto.
Qed.

(** The snapshot with a new executor that was admitted. *)
Lemma add_executor_snapshot_ok mm ss node ssn e :
  snapshot_ok ss -> capacity_of mm (live_execs ss) -> mm_limits mm = limits ->
  (forall a, mm_application_limits mm !! a = ai_max_instances <$> apps !! a) ->
  nodes !! ni_name node = Some node -> minmax_is_allocatable mm node ssn = Some true ->
  ss_executors ss !! ei_id e = None -> live e = true -> ei_node e = ni_name node ->
  si_resreq ssn = Some (ei_resreq e) -> ei_application e = si_application ssn ->
  rr_nonneg (ei_resreq e) -> snapshot_ok (add_executor e ss).
Proof using nodes_wf.
  intros [Hwf Happ Hn Hss Hnn Hno Hao] Hc Hl Ha Hnode Hadm Hnew Hlive Hen Hreq Hea Hrr.
  pose proof (live_execs_add e ss Hnew Hlive) as Hp. destruct (nodes_wf _ _ Hnode) as [_ Hnwf].
  split; simpl; [by apply add_executor_wf|done|done|done| | |].
  - rewrite Hp. by constructor.
  - intros id n Hid Hg. destruct (nodes_wf _ _ Hid) as [Hname _].
    destruct (decide (id = ni_name node)) as [->|Hne].
    + assert (n = node) as -> by congruence.
      pose proof (minmax_is_allocatable_true mm node ssn (live_execs ss) e Hc Hnn Hrr Hnwf) as Hok.
      rewrite Hl, Hreq in Hok. specialize (Hok (Hno _ _ Hid Hg) Hadm Hen eq_refl).
      destruct Hok as [Hle Hcnt]. split; [by rewrite Hp|by rewrite Hp].
    + destruct (Hno _ _ Hid Hg) as [Hle Hcnt].
      assert (on_node (ni_name n) e = false) as Hoff
        by (unfold on_node; rewrite bool_decide_false; congruence).
      split; rewrite Hp; [by rewrite node_load_cons, Hoff|by rewrite count_cons, Hoff].
  - intros a Hg lim Hlim. rewrite Hp. destruct (decide (a = si_application ssn)) as [->|Hne].
    + eapply minmax_is_allocatable_app; [done|done|done|].
      unfold application_limit. by rewrite Ha, Hl.
    + rewrite count_cons. unfold of_app at 1. rewrite bool_decide_false by congruence.
      by apply Hao.
Qed.

Lemma allocate_executor_keeps node ssn c :
  cycle_inv known c -> nodes !! ni_name node = Some node -> ssns !! si_id ssn = Some ssn ->
  pm_is_allocatable (cx_plugins c) node ssn = Ok true ->
  cycle_inv known (allocate_executor node ssn c).2.
Proof using nodes_wf ssns_wf.
  intros Hinv Hnode Hssn Hadm.
  pose proof (call_keeps (create_executor (ni_name node) (si_id ssn))
    (fun k => create_executor_frame _ _ k) c Hinv) as Hinv1.
  unfold allocate_executor. unfold mbind at 1, M_bind at 1.
  destruct (call _ c) as [[e|err|] c1] eqn:Hcall; simpl in Hinv1; [|done|done].
  unfold call, zoom in Hcall. destruct (create_executor _ _ (cx_controller c)) as [r k'] eqn:Hcr.
  simplify_eq. destruct (create_executor_spec _ _ _ _ _ Hcr) as
    (Hspec & Hen & Hst & Hes & Hsig & Hfresh & Hin).
  destruct Hinv as [(mm & Hh & Hl & Hcap & Ha) Hok [Hi Hsp] Hk].
  destruct (Hsp _ _ _ _ Hssn Hspec) as [Happ Hreq].
  pose proof (pm_is_allocatable_headed mm _ _ _ Hh Hadm) as Hmm.
  set (info := ExecutorInfo_from e). set (ss := cx_snapshot c) in *.
  assert (Hnew : ss_executors ss !! ei_id info = None).
  { apply eq_None_not_Some. intros Hs. by apply Hfresh, Hi. }
  assert (Hlive : live info = true) by (unfold live; simpl; by rewrite Hst).
  unfold mbind, M_bind, modify, callback. simpl.
  destruct (on_executor_create_ok info ssn (cx_plugins c)) as [ps' Hps]. rewrite Hps. simpl.
  destruct (for_plugins_headed (fun P _ => on_executor_create info ssn) mm _ _ Hh Hps)
    as (mm' & Hmm' & Hh'). simpl in Hmm'. injection Hmm' as <-. split.
  - eexists. split; [exact Hh'|]. split_and!; [done| |done].
    apply with_session_counts_of. simpl. fold ss. rewrite (live_execs_add info ss Hnew Hlive).
    by apply account_capacity_of.
  - apply (add_executor_snapshot_ok mm ss node ssn info); auto. eauto.
  - split; simpl.
    + intros id [<-|[_ Hid]]%lookup_insert_is_Some; [done|]. by apply (ci_controller _ _ Hinv1).
    + apply (ci_controller _ _ Hinv1).
  - intros x Hx. destruct (Hk x Hx) as (Hlx & x0 & Hx0 & ? & ?). split; [done|]. simpl.
    exists x0. rewrite lookup_insert_ne; [done|]. intros Heq.
    change (ei_id info = ei_id x) in Heq. fold ss in Hx0. congruence.
Qed.

Lemma find_node_spec ns ssn :
  (forall n, n ∈ ns -> nodes !! ni_name n = Some n) ->
  forall c : Context C, (find_node ns ssn c).2 = c /\
    forall n, (find_node ns ssn c).1 = Ok (Some n) ->
      nodes !! ni_name n = Some n /\ pm_is_allocatable (cx_plugins c) n ssn = Ok true.
Proof using Type.
  induction ns as [|n ns IH]; intros Hns c; [done|]. simpl. unfold mbind, M_bind, gets.
  destruct (IH (fun n Hn => Hns n ltac:(by right)) c) as [IH1 IH2].
  destruct (ctx_is_allocatable n ssn c) as [[]|e|] eqn:Hadm; simpl; try done.
  split; [done|]. intros ? [= <-]. split; [apply Hns; left|exact Hadm].
Qed.

Lemma allocate_session_keeps ssn ns v u :
  ssns !! si_id ssn = Some ssn -> (forall n, n ∈ ns -> nodes !! ni_name n = Some n) ->
  keeps_inv (allocate_session ssn ns v u).
Proof using nodes_wf ssns_wf.
  intros Hssn Hns. unfold allocate_session.
  apply keeps_bind; [apply keeps_gets|]. intros under.
  destruct (negb under); [apply keeps_ret|].
  apply keeps_bind; [apply keeps_gets|]. intros [|]; [apply keeps_ret|].
  apply keeps_bind; [apply keeps_get|]. intros c0.
  destruct (List.find _ (hm_values v)) as [e|].
  { apply keeps_bind; [apply pipeline_callback_keeps|]. intros _. apply keeps_ret. }
  destruct (List.find _ (hm_values u)) as [e|].
  { apply keeps_bind; [apply pipeline_callback_keeps|]. intros _. apply keeps_ret. }
  intros c Hc. unfold mbind at 1, M_bind at 1. destruct (find_node_spec ns ssn Hns c) as [Hs Hf].
  destruct (find_node ns ssn c) as [[[n|]|e|] c1]; simpl in *; subst c1; try done.
  destruct (Hf n eq_refl) as [Hn Hadm].
  pose proof (allocate_executor_keeps n ssn c Hc Hn Hssn Hadm) as Hk.
  unfold mbind, M_bind. by destruct (allocate_executor n ssn c) as [[]].
Qed.

Lemma allocate_loop_keeps fuel queue ns v u :
  (forall x, x ∈ queue -> ssns !! si_id x = Some x) ->
  (forall n, n ∈ ns -> nodes !! ni_name n = Some n) ->
  keeps_inv (allocate_loop fuel queue ns v u).
Proof using nodes_wf ssns_wf.
  revert queue v u. induction fuel as [|fuel IH]; simpl; intros queue v u Hq Hns; [apply keeps_ret|].
  destruct (heap_is_empty queue); [apply keeps_ret|].
  apply keeps_bind; [apply keeps_gets|]. intros order.
  destruct (heap_pop order queue) as [[ssn q]|] eqn:Hpop; [|apply keeps_lift].
  apply heap_pop_perm in Hpop.
  apply keeps_bind; [apply allocate_session_keeps; [|done]; apply Hq; rewrite Hpop; left|].
  intros r. apply IH; [|done]. intros x Hx. apply Hq. rewrite Hpop. by right.
Qed.

(** ** Shuffle *)

Lemma complete_suspends_keeps : keeps_inv complete_suspends.
Proof using Type.
  apply keeps_bind; [apply keeps_gets|]. intros sus.
  destruct (bool_decide _); [apply keeps_ret|]. apply keeps_bind; [apply keeps_gets|].
  intros serving. apply keeps_for_each. intros ssn _. destruct (bool_decide _); [apply keeps_ret|].
  apply keeps_bind; [|intros; apply keeps_ret].
  apply keeps_attempt, call_keeps. intros. apply suspend_session_frame.
Qed.

Lemma interrupt_keeps e ssn : e ∈ known -> keeps_inv (ctx_interrupt_executor e ssn).
Proof using Type.
  intros He. apply keeps_bind; [apply call_keeps; intros; apply interrupt_executor_frame|].
  intros _. apply keeps_bind; [apply interrupt_callback_keeps|]. intros _.
  intros c Hc. pose proof (ci_known _ _ Hc e He) as Hv. simpl.
  apply (update_executor_keeps e); [done|done|done|done|]. by destruct Hv.
Qed.

Lemma reclaim_keeps e : e ∈ known -> keeps_inv (reclaim_executor e).
Proof using Type.
  intros He. apply keeps_bind; [apply keeps_gets|]. intros [|]; [|apply keeps_ret]. simpl.
  destruct (ei_ssn_id e); [|apply keeps_ret]. apply keeps_bind; [apply keeps_gets|]. intros r.
  apply keeps_bind; [apply keeps_lift|]. intros ssn. apply keeps_bind; [apply keeps_gets|].
  intros [|]; [by apply interrupt_keeps|apply keeps_ret].
Qed.

Lemma expire_keeps e : e ∈ known -> keeps_inv (expire_executor e).
Proof using Type.
  intros He. apply keeps_bind; [apply keeps_gets|]. intros ss. apply keeps_bind.
  - unfold idle_executor_expired. destruct (get_application _ _); [|apply keeps_ret].
    apply keeps_bind; [apply now_keeps|]. intros. apply keeps_ret.
  - intros [|]; [|apply keeps_ret].
    apply keeps_bind; [apply call_keeps; intros; apply release_executor_frame|].
    intros _. by apply (set_state_keeps e).
Qed.
End with_known.

(** ** The whole cycle *)

Lemma cycle_inv_weaken l c : cycle_inv l c -> cycle_inv [] c.
Proof using Type. intros []. split; try done. by intros ? ?%elem_of_nil. Qed.

(** An action may work on any executors of the snapshot in a live state. *)
Lemma cycle_inv_find st c :
  st <> ExecReleased -> cycle_inv [] c ->
  cycle_inv (hm_values (find_executors (Some (executor_by_state st)) (cx_snapshot c))) c.
Proof using Type.
  intros Hst [Hp Hs Hc _]. split; [done..|]. pose proof (so_wf _ Hs) as Hwf.
  intros e. rewrite find_executors_spec, hm_values_elem by done.
  intros (id & [Hid Hm]%map_lookup_filter_Some). unfold executor_matches in Hm. simpl in Hm.
  rewrite !andb_true_r, bool_decide_eq_true in Hm.
  assert (live e = true) as Hl by (unfold live; by rewrite bool_decide_false by congruence).
  split; [done|]. exists e. rewrite (sw_execs _ Hwf _ _ Hid). auto.
Qed.

(** Reading a list of executors of the snapshot, then working on it. *)
Lemma keeps_find {A} st (f : gmap string ExecutorInfo -> M (Context C) A) :
  st <> ExecReleased ->
  (forall m, keeps (cycle_inv (hm_values m)) (f m)) ->
  keeps (cycle_inv [])
    (gets (fun c => find_executors (Some (executor_by_state st)) (cx_snapshot c)) ≫= f).
Proof using Type.
  intros Hst Hf c Hc. unfold mbind, M_bind, gets. simpl.
  eapply cycle_inv_weaken, Hf. by apply cycle_inv_find.
Qed.

Lemma hm_values_known m : map_known (hm_values m) m.
Proof using Type. intros id e He. apply hm_values_elem. eauto. Qed.

Lemma dispatch_execute_keeps : keeps (cycle_inv []) dispatch_execute.
Proof using Type.
  apply keeps_bind; [apply keeps_gets|]. intros queue.
  apply keeps_find; [done|]. intros m. apply dispatch_loop_keeps, hm_values_known.
Qed.

Lemma open_queue_elem c x :
  cycle_inv [] c -> x ∈ open_queue c -> ssns !! si_id x = Some x.
Proof using Type.
  intros Hc Hx. unfold open_queue in Hx. rewrite heap_push_all_perm, app_nil_r in Hx.
  destruct (ci_snapshot _ _ Hc). apply ready_sessions_elem in Hx as [Hx _]; [|done]. congruence.
Qed.

Lemma allocate_execute_keeps : keeps (cycle_inv []) allocate_execute.
Proof using nodes_wf ssns_wf.
  intros c Hc. unfold allocate_execute, mbind, M_bind, gets. cbv beta iota.
  apply (allocate_loop_keeps []); [by intros; eapply open_queue_elem| |done].
  intros n. destruct (ci_snapshot _ _ Hc) as [Hwf _ Hn _ _ _ _].
  unfold READY_NODE. rewrite find_nodes_spec, hm_values_elem, Hn by done.
  intros (id & [Hid _]%map_lookup_filter_Some). by destruct (nodes_wf _ _ Hid) as [-> _].
Qed.

Lemma shuffle_execute_keeps : keeps (cycle_inv []) shuffle_execute.
Proof using Type.
  apply keeps_bind; [apply complete_suspends_keeps|]. intros _.
  assert (Hfor : forall st (f : ExecutorInfo -> M (Context C) unit), st <> ExecReleased ->
    (forall known e, e ∈ known -> keeps (cycle_inv known) (f e)) ->
    keeps (cycle_inv []) (gets (fun c => hm_values (find_executors
      (Some (executor_by_state st)) (cx_snapshot c))) ≫= fun l => for_each l f)).
  { intros st f Hst Hf c Hc. unfold mbind, M_bind, gets. simpl.
    eapply cycle_inv_weaken, (keeps_for_each _ _ f); [|by apply cycle_inv_find]. eauto. }
  intros c Hc. unfold mbind, M_bind at 1, gets at 1. simpl.
  set (l := hm_values _).
  assert (Hl : cycle_inv [] (for_each l reclaim_executor c).2).
  { exact (Hfor ExecBound reclaim_executor ltac:(done) reclaim_keeps c Hc). }
  unfold M_bind at 1. destruct (for_each l reclaim_executor c) as [[[]|e|] c1]; try done.
  exact (Hfor ExecIdle expire_executor ltac:(done) expire_keeps c1 Hl).
Qed.

Lemma run_cycle_keeps : keeps (cycle_inv []) run_cycle.
Proof using nodes_wf ssns_wf.
  apply keeps_bind; [apply keeps_attempt, dispatch_execute_keeps|].
  intros [u|e|]; [|apply keeps_ret..].
  apply keeps_bind; [apply keeps_attempt, allocate_execute_keeps|].
  intros [u'|e|]; [|apply keeps_ret..].
  apply keeps_bind; [apply keeps_attempt, shuffle_execute_keeps|]. intros. apply keeps_ret.
Qed.
End cycle.

(** ** Property *)

(** The executors of [ss] are within the limits of node [n]. *)
Definition within_node (limits : FlameLimits) (ss : SnapShot) (n : NodeInfo) : Prop :=
  node_ok limits (live_execs ss) n.

Definition within_app (limits : FlameLimits) (apps : gmap string AppInfo) (ss : SnapShot)
    (a : string) : Prop :=
  app_ok limits apps (live_execs ss) a.

(** What a snapshot taken from the controller looks like, as long as no node,
    session or executor has a negative amount. *)
Record snapshot_of {C} `{SchedControllerSpec C} (k : C) (ss : SnapShot) : Prop := {
  sp_wf : snap_wf ss;
  sp_execs : forall id e, ss_executors ss !! id = Some e -> rr_nonneg (ei_resreq e);
  sp_nodes : forall id n, ss_nodes ss !! id = Some n -> rr_wf (ni_allocatable n);
  sp_ssns : forall id s rr, ss_sessions ss !! id = Some s -> si_resreq s = Some rr -> rr_nonneg rr;
  sp_ids : forall id, is_Some (ss_executors ss !! id) -> id ∈ ctl_ids k;
  sp_specs : forall id s app rr, ss_sessions ss !! id = Some s ->
    ctl_specs k id = Some (app, rr) -> app = si_application s /\ si_resreq s = Some rr
}.

(** A cycle starts in its invariant. *)
Lemma new_context_inv `{Env} {C} `{SchedControllerSpec C} (k : C) ss options c :
  snapshot_of k ss -> new_context k ss options = Ok c ->
  cycle_inv (po_limits options) (ss_applications ss) (ss_nodes ss) (ss_sessions ss)
    (fun id => exists n, ss_nodes ss !! id = Some n /\ within_node (po_limits options) ss n)
    (within_app (po_limits options) (ss_applications ss) ss) [] c.
Proof.
  intros [Hwf He Hn Hs Hi Hsp] Hnew. unfold new_context, mbind, result_bind in Hnew.
  destruct (pm_setup ss options) as [ps| |] eqn:Hps; [|done|done]. injection Hnew as <-.
  destruct (pm_setup_headed ss options ps Hps) as (mm & Hmm & Hh).
  destruct (minmax_setup_spec ss (MinMax.new_ptr options) Hwf) as (mm' & Hmm' & Hl & Hc & _ & Ha).
  rewrite Hmm in Hmm'. injection Hmm' as <-. rewrite hm_values_perm in Hc. split; simpl.
  - exists mm. by split_and!.
  - split; try done.
    + apply list.Forall_forall. intros e Hin. unfold live_execs in Hin.
      rewrite list_elem_of_In, filter_In, <-list_elem_of_In in Hin. destruct Hin as [Hin _].
      apply list_elem_of_fmap in Hin as ([id e'] & -> & Hin%elem_of_map_to_list). eauto.
    + intros id n Hid (n' & Hn' & Hok). by simplify_eq.
  - by split.
  - by intros ? ?%elem_of_nil.
Qed.

(** C2 A scheduling cycle never overcommits the cluster: whatever the plugins,
    the hash orders and the failures of the controller, every node whose
    executors fit its allocatable resources and the node limit still fits them
    after the cycle (Dispatch, Allocate and Shuffle), and every application
    within its executor limit stays within it. *)
Theorem cycle_no_overcommit `{Env} `{StdHeap} {C} `{SchedControllerSpec C} (k : C) ss options c :
  snapshot_of k ss -> new_context k ss options = Ok c ->
  let ss' := cx_snapshot (run_cycle c).2 in
  (forall id n, ss_nodes ss !! id = Some n ->
     within_node (po_limits options) ss n -> within_node (po_limits options) ss' n) /\
  (forall a, within_app (po_limits options) (ss_applications ss) ss a ->
     within_app (po_limits options) (ss_applications ss) ss' a).
Proof.
  intros Hof Hnew ss'. pose proof (new_context_inv k ss options c Hof Hnew) as Hinv.
  apply run_cycle_keeps in Hinv as [_ Hs _ _].
  - split.
    + intros id n Hid Hok. eapply (so_node_ok _ _ _ _ _ _ _ Hs); eauto.
    + intros a Hok. by apply (so_app_ok _ _ _ _ _ _ _ Hs).
  - intros id n Hid. split; [by apply (sw_nodes _ (sp_wf _ _ Hof))|by eapply sp_nodes].
  - intros. by eapply sp_ssns.
Qed.

(** ** Witness: a controller that only keeps what the contract speaks of *)

Module DemoController.

Record t := mk { specs : gmap string (string * ResourceRequirement); ids : gset string;
                 binds : list (string * string) }.

Definition create (node ssn : string) : M t Executor := fun k =>
  match specs k !! ssn with
  | None => (Err ENotFound, k)
  | Some (app, rr) =>
      let id := fresh (ids k) in
      (Ok (mkExecutor id node rr ShimHost app None None ∅ 0 0 ExecVoid None),
       mk (specs k) ({[id]} ∪ ids k) (binds k))
  end.

Definition bind (id ssn : string) : M t unit := fun k =>
  (Ok tt, mk (specs k) (ids k) ((id, ssn) :: binds k)).

#[export] Instance ops : SchedController t := {
  create_executor := create;
  bind_session := bind;
  interrupt_executor := fun _ => mret tt;
  suspend_session := fun _ => mret tt;
  release_executor := fun _ => mret tt
}.

#[export] Instance laws : SchedControllerSpec t.
Proof.
  refine {| ctl_specs := fun k id => specs k !! id; ctl_ids := ids |}.
  - intros node ssn k e k'. simpl. unfold create.
    destruct (specs k !! ssn) as [[app rr]|]; [|done]. intros [= <- <-]. simpl.
    split_and!; try done; [apply is_fresh|set_solver].
  - intros node ssn k. simpl. unfold create.
    destruct (specs k !! ssn) as [[app rr]|]; simpl; [split; [done|set_solver]|done].
  - done.
  - done.
  - done.
  - done.
Defined.
End DemoController.
Export (hints) DemoController.

Definition demo_k : DemoController.t :=
  DemoController.mk (<["s1" := ("app", mkRR 1 1 0)]> ∅) {["e1"; "e2"]} [].

Definition demo_ctx : Context DemoController.t :=
  match @new_context demo_env _ demo_k demo_drf_snap (mkOptions [] demo_limits) with
  | Ok c => c
  | _ => mkContext demo_k demo_drf_snap [] 0
  end.

Lemma demo_snapshot_of : snapshot_of demo_k demo_drf_snap.
Proof.
  split; [apply demo_drf_snap_wf|..].
  - intros id e He. unfold demo_drf_snap, demo_snap in He. simpl in He.
    rewrite insert_delete_eq in He. repeat (apply lookup_insert_Some in He as [[_ <-]|[_ He]];
      [repeat split; simpl; width|]). by rewrite lookup_empty in He.
  - intros id n Hn. unfold demo_drf_snap in Hn. simpl in Hn.
    apply lookup_insert_Some in Hn as [[_ <-]|[_ Hn]];
      [repeat split; simpl; width|by rewrite lookup_empty in Hn].
  - intros id s rr Hs Hr. unfold demo_drf_snap in Hs. simpl in Hs.
    apply lookup_insert_Some in Hs as [[_ <-]|[_ Hs]];
      [injection Hr as <-; repeat split; simpl; width|by rewrite lookup_empty in Hs].
  - intros id He. unfold demo_drf_snap, demo_snap in He. simpl in He. rewrite insert_delete_eq in He.
    repeat (apply lookup_insert_is_Some in He as [<-|[_ He]]; [simpl; set_solver|]).
    by destruct He.
  - intros id s app rr Hs Hsp. unfold demo_drf_snap in Hs. simpl in Hs.
    apply lookup_insert_Some in Hs as [[<- <-]|[_ Hs]];
      [|by rewrite lookup_empty in Hs]. by injection Hsp as <- <-.
Qed.

Lemma cycle_no_overcommit_witness :
  new_context (H := demo_env) demo_k demo_drf_snap (mkOptions [] demo_limits) = Ok demo_ctx /\
  within_node demo_limits demo_drf_snap demo_node /\
  within_node demo_limits
    (cx_snapshot (run_cycle (H := demo_env) (H0 := ListHeap.heap) demo_ctx).2) demo_node.
Proof.
  assert (Hw : within_node demo_limits demo_drf_snap demo_node) by (vm_compute; by split_and!).
  split_and!; [by vm_compute|exact Hw|].
  apply (proj1 (@cycle_no_overcommit demo_env ListHeap.heap DemoController.t _ _ demo_k
    demo_drf_snap (mkOptions [] demo_limits) demo_ctx demo_snapshot_of ltac:(by vm_compute)) "n1");
    [by vm_compute|exact Hw].
Defined.
