(* ===== verification/Scheduling.v ===== *)
(** * Dispatch and Allocate: termination, gangs, session limits, selection *)
From S2P Require Import Prelude Types Resource Filters Snapshot Order PluginApi MinMax Policies.
From S2P Require Import Drf PluginManager SchedCtx Actions Capacity.
Local Open Scope Z_scope.

Section dispatch.
Context `{Env} `{StdHeap} {C : Type} `{SchedController C}.
Implicit Types (c : Context C) (idle : gmap string ExecutorInfo) (binds : Statement).

(** ** Termination *)

(** What [bind_loop] did to the idle executors: [new] are the staged binds. *)
Record staged (idle idle' : gmap string ExecutorInfo) (new : Statement) : Prop := {
  sg_sub : idle' ⊆ idle;
  sg_size : (size idle' + length new = size idle)%nat;
  sg_from : forall b, b ∈ new -> idle !! ei_id b.1 = Some b.1 /\ ei_ssn_id b.1 = None;
  sg_rest : forall k x, idle !! k = Some x ->
    idle' !! k = Some x \/ exists b, b ∈ new /\ ei_id b.1 = k
}.

Lemma staged_nil idle : staged idle idle [].
Proof using Type. split; [done|simpl; lia|by intros ? ?%elem_of_nil|by left]. Qed.

Lemma staged_cons e ssn idle idle' new :
  idle !! ei_id e = Some e -> ei_ssn_id e = None ->
  staged (delete (ei_id e) idle) idle' new -> staged idle idle' ((e, ssn) :: new).
Proof using Type.
  intros He Hs [Hsub Hsz Hfrom Hrest]. split.
  - etrans; [done|]. apply delete_subseteq.
  - simpl. rewrite map_size_delete_Some in Hsz by eauto.
    assert (size idle <> 0)%nat by (apply map_size_ne_0_lookup; eauto). lia.
  - intros b [->|Hb]%elem_of_cons; [done|]. destruct (Hfrom b Hb) as [Hl Hn].
    apply lookup_delete_Some in Hl as [_ Hl]. done.
  - intros k x Hk. destruct (decide (k = ei_id e)) as [->|Hne].
    + right. exists (e, ssn). split; [left|done].
    + destruct (Hrest k x) as [?|(b & Hb & <-)]; [by rewrite lookup_delete_ne|by left|].
      right. exists b. split; [by right|done].
Qed.

Lemma bind_loop_staged fuel ssn idle binds c r c' :
  keyed ei_id idle -> (size idle < fuel)%nat -> bind_loop fuel ssn idle binds c = (r, c') ->
  r <> Ok None /\
  forall idle' binds', r = Ok (Some (idle', binds')) ->
    exists new, binds' = binds ++ new /\ staged idle idle' new /\ Forall (fun b => b.2 = ssn) new.
Proof using Type.
  revert idle binds c. induction fuel as [|fuel IH]; intros idle binds c Hk Hsz; [lia|].
  cbn [bind_loop]. unfold mbind at 1, M_bind at 1, gets at 1.
  destruct (select_executor ssn idle c) as [e|] eqn:Hsel.
  2: { intros [= <- <-]. split; [done|]. intros ?? [= <- <-]. exists []. rewrite app_nil_r.
       split_and!; [done|apply staged_nil|constructor]. }
  apply select_executor_elem in Hsel as ((id & Hid)%hm_values_elem & Hns & _).
  pose proof (Hk _ _ Hid) as <-. unfold mbind, M_bind.
  destruct (stmt_bind e ssn binds c) as [[bs|err|] c1] eqn:Hb; [|by intros [= <- <-]..].
  apply bind_inv_Ok in Hb as (? & ? & _ & Hb). apply bind_inv_Ok in Hb as (? & ? & _ & Hb).
  injection Hb as <- _. unfold gets. destruct (ctx_is_satisfied ssn c1).
  - intros [= <- <-]. split; [done|]. intros ?? [= <- <-]. exists [(e, ssn)].
    split_and!; [done| |by repeat constructor]. apply staged_cons; [done|done|apply staged_nil].
  - assert (size (delete (ei_id e) idle) < fuel)%nat as Hsz'.
    { rewrite map_size_delete_Some by eauto.
      assert (size idle <> 0)%nat by (apply map_size_ne_0_lookup; eauto). lia. }
    intros Hr. destruct (IH (delete (ei_id e) idle) (binds ++ [(e, ssn)]) c1) as [IH1 IH2];
      [by apply keyed_delete|done|done|]. split; [done|].
    intros i b Hib. destruct (IH2 i b Hib) as (new & -> & Hst & Hall).
    exists ((e, ssn) :: new). rewrite <-app_assoc. split_and!; [done|by apply staged_cons|by constructor].
Qed.

(** Putting the staged executors back restores the idle ones. *)
Lemma staged_restore idle idle' new execs :
  keyed ei_id idle -> staged idle idle' new -> (forall e, e ∈ execs <-> e ∈ new.*1) ->
  foldl (fun m e => <[ei_id e := e]> m) idle' execs = idle.
Proof using Type.
  intros Hk [Hsub _ Hfrom Hrest] Hex.
  assert (Hgen : forall l m, m ⊆ idle -> (forall e, e ∈ l -> idle !! ei_id e = Some e) ->
    (forall k x, idle !! k = Some x -> m !! k = Some x \/ exists e, e ∈ l /\ ei_id e = k) ->
    foldl (fun m e => <[ei_id e := e]> m) m l = idle).
  { clear. induction l as [|e l IH]; simpl; intros m Hm Hl Hr.
    - apply map_eq. intros k. apply option_eq. intros x. split; [intros Hx; by eapply lookup_weaken|].
      intros Hx. destruct (Hr k x Hx) as [?|(e & []%elem_of_nil & _)]; done.
    - apply IH.
      + apply insert_subseteq_l; [apply Hl; left|done].
      + intros x Hx. apply Hl. by right.
      + intros k x Hx. destruct (decide (k = ei_id e)) as [->|Hne].
        * left. rewrite lookup_insert_eq. rewrite (Hl e) in Hx; [done|left].
        * rewrite lookup_insert_ne by done.
          destruct (Hr k x Hx) as [?|(y & [->|Hy]%elem_of_cons & <-)]; [by left|done|right; eauto]. }
  apply Hgen; [done| |].
  - intros e (b & -> & Hb)%Hex%list_elem_of_fmap. by apply Hfrom.
  - intros k x Hx. destruct (Hrest k x Hx) as [?|(b & Hb & <-)]; [by left|right].
    exists b.1. split; [|done]. apply Hex, list_elem_of_fmap. eauto.
Qed.

(** The queue and the idle executors shrink together at every turn. *)
Lemma dispatch_session_measure ssn queue idle c r c' :
  keyed ei_id idle -> dispatch_session ssn queue idle c = (r, c') ->
  r <> Ok None /\
  forall q i, r = Ok (Some (q, i)) ->
    keyed ei_id i /\ (length q + size i <= length queue + size idle)%nat.
Proof using Type.
  intros Hk. unfold dispatch_session. unfold mbind, M_bind, gets. cbv beta iota.
  destruct (negb _); [intros [= <- <-]; split; [done|]; by intros ?? [= <- <-]|].
  destruct (ctx_is_ready ssn c); [intros [= <- <-]; split; [done|]; by intros ?? [= <- <-]|].
  destruct (bind_loop _ ssn idle [] c) as [rb c1] eqn:Hb.
  destruct (bind_loop_staged _ _ _ _ _ _ _ Hk (Nat.lt_succ_diag_r _) Hb) as [Hnn Hst].
  destruct rb as [[[i binds]|]|err|]; [|done|by intros [= <- <-]..].
  destruct (Hst i binds eq_refl) as (new & -> & Hsg & _). clear Hst.
  assert (keyed ei_id i) as Hki by (intros k x Hx; apply Hk; eapply lookup_weaken, sg_sub; eauto).
  change ([] ++ new) with new in *. destruct (_ || _) eqn:Hd.
  - destruct (stmt_discard new c1) as [[execs|err|] c2] eqn:Hdis; [|by intros [= <- <-]..].
    intros [= <- <-]. split; [done|]. intros ?? [= <- <-].
    apply (f_equal fst) in Hdis. apply discard_loop_execs in Hdis. simpl in Hdis.
    rewrite (staged_restore idle i new execs Hk Hsg); [done|].
    intros e. rewrite Hdis, fmap_reverse. apply elem_of_reverse.
  - apply orb_false_iff in Hd as [Hne _]. apply bool_decide_eq_false in Hne.
    assert (size i < size idle)%nat as Hlt.
    { pose proof (sg_size _ _ _ Hsg). destruct new; [done|simpl in *; lia]. }
    destruct (stmt_commit new c1) as [[u|err|] c2]; [|by intros [= <- <-]..].
    destruct (_ && _); intros [= <- <-]; (split; [done|]); intros ?? [= <- <-]; (split; [done|]).
    + unfold heap_push. rewrite std_push_perm. simpl. lia.
    + lia.
Qed.

Lemma dispatch_loop_total fuel queue idle c :
  keyed ei_id idle -> (length queue + size idle < fuel)%nat ->
  (dispatch_loop fuel queue idle c).1 <> Ok None.
Proof using Type.
  revert queue idle c. induction fuel as [|fuel IH]; intros queue idle c Hk Hf; [lia|].
  cbn [dispatch_loop]. destruct (heap_is_empty queue) eqn:He; [done|].
  unfold mbind, M_bind, gets. cbv beta iota.
  destruct (heap_pop _ queue) as [[ssn q]|] eqn:Hpop; [|done].
  apply heap_pop_perm, Permutation_length in Hpop. simpl in Hpop.
  destruct (dispatch_session ssn q idle c) as [r c1] eqn:Hd.
  destruct (dispatch_session_measure _ _ _ _ _ _ Hk Hd) as [Hnn Hm].
  destruct r as [[[q' i]|]|err|]; [|done|done|done].
  destruct (Hm q' i eq_refl) as [Hki Hle]. apply IH; [done|]. lia.
Qed.

Lemma allocate_loop_total fuel queue ns v u c :
  (length queue < fuel)%nat -> (allocate_loop fuel queue ns v u c).1 <> Ok None.
Proof using Type.
  revert queue v u c. induction fuel as [|fuel IH]; intros queue v u c Hf; [lia|].
  cbn [allocate_loop]. destruct (heap_is_empty queue) eqn:He; [done|].
  unfold mbind, M_bind, gets. cbv beta iota.
  destruct (heap_pop _ queue) as [[ssn q]|] eqn:Hpop; [|done].
  apply heap_pop_perm, Permutation_length in Hpop. simpl in Hpop.
  destruct (allocate_session ssn ns v u c) as [[r|err|] c1]; [|done|done].
  apply IH. lia.
Qed.
End dispatch.

(** C25 The scheduling loops terminate: on every well-formed snapshot, Dispatch
    (which puts a session back in the queue as long as it gets executors) ends
    within as many turns as there are sessions and idle executors, and
    Allocate within as many as there are sessions. *)
Theorem scheduling_terminates `{Env} `{StdHeap} {C} `{SchedController C} (c : Context C) :
  snap_wf (cx_snapshot c) ->
  (dispatch_execute c).1 <> Ok None /\ (allocate_execute c).1 <> Ok None.
Proof.
  intros Hwf. split.
  - unfold dispatch_execute, mbind, M_bind, gets. cbv beta iota.
    apply dispatch_loop_total; [|lia]. unfold IDLE_EXECUTOR. rewrite find_executors_spec by done.
    intros k x [Hk _]%map_lookup_filter_Some. by apply (sw_execs _ Hwf).
  - unfold allocate_execute, mbind, M_bind, gets. cbv beta iota. apply allocate_loop_total. lia.
Qed.

(** ** Selection by data affinity *)

Section selection.
Context `{Env}.

(** With the affinity policy enabled, its order is the executors' order. *)
Lemma das_order ss options ps :
  pm_setup ss options = Ok ps -> has_policy options "das" = true ->
  exists das, Das.das_setup ss Das.new_ptr = Ok das /\
    forall s e1 e2, pm_executor_order_fn ps s e1 e2 = Das.das_compare das s e1 e2.
Proof.
  intros Hs Hdas. unfold pm_setup in Hs. destruct (negb _); [done|].
  exists (Das.mkDas (foldl Das.setup_session ∅ (hm_values (ss_sessions ss)))). split; [done|].
  rewrite enabled_plugins_eq, Hdas in Hs.
  intros s e1 e2. set (cmp := Das.das_compare _ s e1 e2).
  destruct (has_policy options "priority"), (has_policy options "drf"); simpl in Hs;
    unfold fmap, result_fmap, mbind, result_bind in Hs; simpl in Hs;
    repeat (destruct (drf_setup ss Drf.new_ptr); [|done|done]); injection Hs as <-;
    unfold pm_executor_order_fn, first_order; simpl; unfold Das.das_executor_order_fn;
    fold cmp; by destruct cmp.
Qed.
End selection.

(** With the affinity policy, Dispatch binds the best executor there is: the
    selected one is idle, bound to no session, runs the session's application
    with exactly its resources on a ready node, and no other eligible executor
    covers more of the session's pending affinity keys, nor as many with fewer
    attributes, nor is tied and idle for longer. *)
Theorem select_executor_best `{Env} {C} ss options ps ssn idle (c : Context C) e :
  pm_setup ss options = Ok ps -> has_policy options "das" = true ->
  cx_plugins c = ps -> select_executor ssn idle c = Some e ->
  e ∈ hm_values idle /\ ei_ssn_id e = None /\ ei_application e = si_application ssn /\
  (exists n, ss_nodes (cx_snapshot c) !! ei_node e = Some n /\ ni_state n = NodeReady) /\
  (forall r, si_resreq ssn = Some r -> ei_resreq e = r) /\
  exists das, Das.das_setup ss Das.new_ptr = Ok das /\
    forall e', e' ∈ hm_values idle -> ei_ssn_id e' = None -> ctx_is_available e' ssn c = true ->
      (Das.score das e' ssn < Das.score das e ssn)%nat \/
      Das.score das e' ssn = Das.score das e ssn /\
        ((size (ei_attributes e) < size (ei_attributes e'))%nat \/
         size (ei_attributes e) = size (ei_attributes e') /\
           ei_latest_updated_timestamp e <= ei_latest_updated_timestamp e').
Proof.
  intros Hps Hdas Hc Hsel.
  destruct (das_order ss options ps Hps Hdas) as (das & Hd & Hord).
  pose proof (select_executor_elem _ _ _ _ Hsel) as (He & Hns & Hav).
  apply ctx_is_available_true in Hav as (Ha & Hn & Hr & _).
  split_and!; [done|done|done|done|done|]. exists das. split; [done|].
  intros e' He' Hns' Hav'. unfold select_executor in Hsel. rewrite Hc in Hsel.
  set (l := List.filter _ _) in Hsel.
  assert (e' ∈ l) as Hl.
  { apply list_elem_of_In, filter_In. split; [by apply list_elem_of_In|].
    by rewrite Hav', bool_decide_true. }
  destruct (sort_by _ l) as [|x rest] eqn:Hsort; [done|]. injection Hsel as ->.
  assert (Htot : TotalCmp (fun e1 e2 => pm_executor_order_fn ps ssn e2 e1)).
  { destruct (cmp_flip _ (TotalCmp0 := Das.das_compare_total das ssn)) as [T1 T2].
    split; intros *; rewrite !Hord; [apply T1|apply T2]. }
  destruct (sort_by_head _ _ _ _ Hsort) as [_ Hmax]. specialize (Hmax e' Hl).
  rewrite Hord in Hmax. unfold Das.das_compare in Hmax.
  destruct (Nat.compare_spec (Das.score das e' ssn) (Das.score das e ssn)); simpl in Hmax; [|by left|done].
  right. split; [done|].
  destruct (Nat.compare_spec (size (ei_attributes e)) (size (ei_attributes e'))); simpl in Hmax;
    [|by left|done]. right. split; [done|].
  destruct (Z.compare_spec (ei_latest_updated_timestamp e) (ei_latest_updated_timestamp e'));
    simpl in Hmax; [lia|lia|done].
Qed.

(** ** Witnesses *)

Lemma demo_ctx_wf : snap_wf (cx_snapshot demo_ctx).
Proof. exact demo_drf_snap_wf. Qed.

Lemma scheduling_terminates_witness :
  (dispatch_execute (H := demo_env) (H0 := ListHeap.heap) demo_ctx).1 <> Ok None.
Proof.
  exact (proj1 (@scheduling_terminates demo_env ListHeap.heap _ _ demo_ctx demo_ctx_wf)).
Defined.

Definition demo_das_ctx : Context DemoController.t :=
  match @new_context demo_env _ demo_k demo_drf_snap (mkOptions ["das"] demo_limits) with
  | Ok c => c
  | _ => mkContext demo_k demo_drf_snap [] 0
  end.

Lemma select_executor_best_witness :
  exists e, select_executor (H := demo_env) demo_ssn_info
    (find_executors (H := demo_env) IDLE_EXECUTOR demo_drf_snap) demo_das_ctx = Some e /\
    ei_ssn_id e = None.
Proof.
  exists (demo_exec "e2" ExecIdle). split; [by vm_compute|].
  refine (proj1 (proj2 (@select_executor_best demo_env _ demo_drf_snap (mkOptions ["das"] demo_limits)
    (cx_plugins demo_das_ctx) demo_ssn_info (find_executors (H := demo_env) IDLE_EXECUTOR demo_drf_snap)
    demo_das_ctx (demo_exec "e2" ExecIdle) _ _ _ _))); by vm_compute.
Defined.
