(* ===== verification/Gang.v ===== *)
(** * Gangs are bound all at once or not at all

    A session binds through a [Statement]: the staged binds are committed when
    the session holds its gang and taken back otherwise. *)
From S2P Require Import Prelude Types Resource Filters Snapshot Order PluginApi MinMax Policies.
From S2P Require Import Drf PluginManager SchedCtx Actions Capacity Scheduling.
Local Open Scope Z_scope.

(** Executors that differ at most in the time of their last update. *)
Definition same_but_time (e1 e2 : ExecutorInfo) : Prop :=
  ei_with_state (ei_state e1) 0 e1 = ei_with_state (ei_state e2) 0 e2.

#[export] Instance same_but_time_equivalence : Equivalence same_but_time.
Proof.
  split; unfold same_but_time; [done|by intros ?? ->|by intros ??? -> ->].
Qed.

(** Snapshots with the same objects, up to the executors' update times. *)
Record snap_same (s1 s2 : SnapShot) : Prop := {
  ssm_apps : ss_applications s1 = ss_applications s2;
  ssm_ssns : ss_sessions s1 = ss_sessions s2;
  ssm_nodes : ss_nodes s1 = ss_nodes s2;
  ssm_execs : forall id, option_Forall2 same_but_time (ss_executors s1 !! id) (ss_executors s2 !! id)
}.

#[export] Instance snap_same_equivalence : Equivalence snap_same.
Proof.
  split.
  - intros s. split; [done..|]. intros id. reflexivity.
  - intros s1 s2 [? ? ? ?]. split; [done..|]. intros id. by symmetry.
  - intros s1 s2 s3 [A1 A2 A3 A4] [B1 B2 B3 B4]. split; [congruence..|]. intros id.
    etrans; [apply A4|apply B4].
Qed.

(** ** The DRF shares of a session under binds and unbinds *)









Section gang.
Context `{Env} `{StdHeap} {C : Type} `{SchedController C}.
Implicit Types (c : Context C).



(** A callback and the state update that follows it. *)
Lemma callback_ok f c u c' :
  callback f c = (Ok u, c') ->
  exists ps, f (cx_plugins c) = Ok ps /\
    c' = mkContext (cx_controller c) (cx_snapshot c) ps (cx_clock c).
Proof using Type. unfold callback. destruct (f (cx_plugins c)); intros; simplify_eq. eauto. Qed.














(** Staging and unstaging make no controller call. *)
Lemma keeps_controller_set_state k e st :
  keeps (fun c => cx_controller c = k) (snapshot_set_state e st).
Proof using Type. intros c Hc. done. Qed.

Lemma keeps_controller_callback k f : keeps (fun c => cx_controller c = k) (callback f).
Proof using Type. intros c Hc. unfold callback. by destruct (f (cx_plugins c)). Qed.

#[local] Hint Resolve keeps_controller_set_state keeps_controller_callback : flame.





End gang.

(** ** Properties *)


(** Staging an executor and taking it back restarts its idle time in the
    cycle's snapshot: its last update is the clock reading of the discard, so
    Shuffle of the same cycle keeps it, however long it has been idle, unless
    the two readings are a whole grace period apart. *)
Theorem discard_restarts_idle_time `{Env} {C} `{SchedController C}
    e ssn (c ce c2 : Context C) binds ex app :
  stmt_bind e ssn [] c = (Ok binds, ce) -> stmt_discard binds ce = (Ok ex, c2) ->
  get_application (ei_application e) (cx_snapshot c) = Some app ->
  0 <= utc_now (2 + cx_clock c)%nat - utc_now (1 + cx_clock c)%nat
    < 2 * ai_delay_release app ->
  exists e', ss_executors (cx_snapshot c2) !! ei_id e = Some e' /\
    ei_latest_updated_timestamp e' = utc_now (1 + cx_clock c)%nat /\
    (expire_executor e' c2).1 = Ok tt /\
    cx_controller (expire_executor e' c2).2 = cx_controller c /\
    ss_executors (cx_snapshot (expire_executor e' c2).2) !! ei_id e = Some e'.
Proof.
  intros Hb Hd Happ Ht.
  apply bind_inv_Ok in Hb as ([] & c1 & (ps & Hps & ->)%callback_ok & Hb).
  apply bind_inv_Ok in Hb as ([] & c3 & Hs & Hb). injection Hb as <- <-.
  apply bind_inv_Ok in Hs as (t & c4 & Ht1 & Hs). injection Ht1 as <- <-. injection Hs as <-.
  cbn in Hd. apply bind_inv_Ok in Hd as ([] & c5 & (ps2 & Hps2 & ->)%callback_ok & Hd).
  apply bind_inv_Ok in Hd as ([] & c6 & Hs & Hd). injection Hd as _ <-.
  apply bind_inv_Ok in Hs as (t & c7 & Ht2 & Hs). injection Ht2 as <- <-. injection Hs as <-.
  exists (ei_with_state ExecIdle (utc_now (S (cx_clock c))) e).
  unfold expire_executor, idle_executor_expired, mbind, M_bind, gets. simpl.
  change (get_application _ _) with (get_application (ei_application e) (cx_snapshot c)).
  rewrite Happ. simpl. change (S (S (cx_clock c))) with (2 + cx_clock c)%nat in *.
  change (S (cx_clock c)) with (1 + cx_clock c)%nat in *.
  rewrite (proj2 (Z.ltb_ge _ _)) by lia. rewrite Z.geb_leb, (proj2 (Z.leb_gt _ _)) by lia.
  simpl. split_and!; try done; by rewrite lookup_insert_eq.
Qed.

(** ** Witnesses *)

(** Two idle executors and a gang of two, or of three. *)
Definition demo_gang (n : Z) : SessionInfo :=
  mkSessionInfo "s1" "app" (<[TaskPending := 5]> ∅) 0 None SsnOpen 0 (Some n) n 0
    (Some (mkRR 1 1 0)) 0 ∅.

Definition demo_gang_snap (n : Z) : SnapShot :=
  add_application (mkAppInfo "app" AppEnabled ShimHost 10 100)
    (add_session (demo_gang n) (add_node demo_node
      (add_executor (demo_exec "e2" ExecIdle) (add_executor (demo_exec "e1" ExecIdle)
        (new_with_session_retry_limits 5))))).

Definition demo_gang_ctx (n : Z) : Context DemoController.t :=
  match @new_context demo_env _ demo_k (demo_gang_snap n) (mkOptions ["drf"] demo_limits) with
  | Ok c => c
  | _ => mkContext demo_k (demo_gang_snap n) [] 0
  end.








Definition demo_bound : Statement * Context DemoController.t :=
  match stmt_bind (H := demo_env) (demo_exec "e1" ExecIdle) (demo_gang 3) [] (demo_gang_ctx 3) with
  | (Ok b, c) => (b, c)
  | (_, c) => ([], c)
  end.

Definition demo_unbound : list ExecutorInfo * Context DemoController.t :=
  match stmt_discard (H := demo_env) demo_bound.1 demo_bound.2 with
  | (Ok b, c) => (b, c)
  | (_, c) => ([], c)
  end.

Lemma discard_restarts_idle_time_witness :
  exists e', ss_executors (cx_snapshot demo_unbound.2) !! "e1" = Some e' /\
    ei_latest_updated_timestamp (demo_exec "e1" ExecIdle) = 0 /\
    ei_latest_updated_timestamp e' = 1.
Proof.
  destruct (@discard_restarts_idle_time demo_env _ _ (demo_exec "e1" ExecIdle) (demo_gang 3)
    (demo_gang_ctx 3) demo_bound.2 demo_unbound.2 demo_bound.1 demo_unbound.1
    (mkAppInfo "app" AppEnabled ShimHost 10 100)) as (e' & He & Ht & _);
    [by vm_compute|by vm_compute|by vm_compute|by vm_compute|].
  exists e'. split_and!; [exact He|done|exact Ht].
Defined.
