(* ===== verification/SessionLimit.v ===== *)
(** * A scheduling cycle keeps sessions within their executor limits

    The limit of a session is the lesser of its own maximum and the cluster's
    session limit.  Dispatch, Allocate and Shuffle count an executor for a
    session only while there is room for it. *)
From S2P Require Import Prelude Types Resource Filters Snapshot Order PluginApi MinMax Policies.
From S2P Require Import Drf PluginManager SchedCtx Actions Capacity Gang.
Local Open Scope Z_scope.

Definition within_session (mm : MinMaxPlugin) (s : SessionInfo) : Prop :=
  forall m, session_limit mm s = Some m -> session_instances mm s <= m.

Definition room (mm : MinMaxPlugin) (s : SessionInfo) : Prop :=
  forall m, session_limit mm s = Some m -> session_instances mm s < m.

Lemma underused_room mm s : minmax_is_underused mm s = Some true -> room mm s.
Proof.
  unfold minmax_is_underused, room. intros Hu m Hm. rewrite Hm in Hu. simpl in Hu.
  destruct (Z.geb_spec (session_instances mm s) m); [done|lia].
Qed.

(** A session short of its gang is below its limit: its gang fits the limit. *)
Lemma unsatisfied_room mm s : si_wf s -> minmax_is_satisfied mm s = Some false -> room mm s.
Proof.
  intros [Hmin Hb Hmax Hmm Hbm]. unfold minmax_is_satisfied, room, session_limit. intros [= Hs] m Hm.
  rewrite Z.geb_leb, Z.leb_gt in Hs.
  assert (Hgang : forall x, si_max_instances s = Some x ->
    Z.max (batch_size s) (if si_batch_size s >? 1 then si_min_instances s else 0) <= x).
  { intros x Hx. specialize (Hmm x Hx). specialize (Hmax x Hx). specialize (Hbm x Hx).
    destruct (batch_size_cases s) as [->|(-> & ? & _)]; destruct (Z.gtb_spec (si_batch_size s) 1); width. }
  unfold executor_limit in *.
  destruct (si_max_instances s) as [x|], (fl_session_max_executors (mm_limits mm)) as [y|];
    simplify_eq; try specialize (Hgang _ eq_refl); lia.
Qed.

(** ** What callbacks do to the session counters *)

(** [mm'] counts at most one executor more than [mm], and only for [id]. *)
Definition counts_one (id : string) (mm mm' : MinMaxPlugin) : Prop :=
  mm_limits mm' = mm_limits mm /\
  forall x, (default 0 (mm_session_executors mm' !! x) <=
             default 0 (mm_session_executors mm !! x) + if decide (id = x) then 1 else 0)%nat.

Definition counts_no_more (mm mm' : MinMaxPlugin) : Prop :=
  mm_limits mm' = mm_limits mm /\
  forall x, (default 0 (mm_session_executors mm' !! x) <=
             default 0 (mm_session_executors mm !! x))%nat.

Lemma incr_counts_one (id : string) (m : gmap string nat) x :
  (default 0 (hm_incr id m !! x) <= default 0 (m !! x) + if decide (id = x) then 1 else 0)%nat.
Proof. rewrite hm_incr_lookup. lia. Qed.

Lemma bind_counts e s mm mm' : minmax_on_session_bind e s mm = Ok mm' -> counts_one (si_id s) mm mm'.
Proof.
  unfold minmax_on_session_bind. destruct (negb _); intros [= <-]; (split; [done|]); intros x; simpl;
    [apply incr_counts_one|lia].
Qed.

Lemma pipeline_counts e s mm mm' :
  minmax_on_executor_pipeline e s mm = Ok mm' -> counts_one (si_id s) mm mm'.
Proof. apply bind_counts. Qed.

Lemma create_counts e s mm mm' :
  minmax_on_executor_create e s mm = Ok mm' -> counts_one (si_id s) mm mm'.
Proof. intros [= <-]. split; [done|]. intros x. simpl. apply incr_counts_one. Qed.

Lemma unbind_counts e s mm mm' : minmax_on_session_unbind e s mm = Ok mm' -> counts_no_more mm mm'.
Proof.
  unfold minmax_on_session_unbind. destruct (ei_is_interrupted e); intros [= <-]; (split; [done|]);
    intros x; simpl; rewrite hm_decr_lookup; lia.
Qed.

Lemma interrupt_counts e s mm mm' :
  minmax_on_executor_interrupt e s mm = Ok mm' -> counts_no_more mm mm'.
Proof. intros [= <-]. split; [done|]. intros x. simpl. lia. Qed.

Section limit.
Context `{Env} `{StdHeap} {C : Type} `{SchedController C}.
Context (ssns : gmap string SessionInfo) (good : string -> Prop).
Hypothesis ssns_wf : forall id s, ssns !! id = Some s -> si_id s = id /\ si_wf s.
Implicit Types (c : Context C).

(** Every session that was within its limit still is. *)
Definition limit_inv c : Prop :=
  exists mm, headed mm (cx_plugins c) /\
    forall id s, ssns !! id = Some s -> good id -> within_session mm s.

Definition has_room s c : Prop := exists mm, headed mm (cx_plugins c) /\ room mm s.

Lemma session_limit_eq mm mm' s : mm_limits mm' = mm_limits mm -> session_limit mm' s = session_limit mm s.
Proof using Type. unfold session_limit. by intros ->. Qed.

Lemma limit_inv_plugins c c' : cx_plugins c' = cx_plugins c -> limit_inv c -> limit_inv c'.
Proof using Type. unfold limit_inv. by intros ->. Qed.

Lemma call_limit {A} (m : M C A) : keeps limit_inv (call m).
Proof using Type. intros c. unfold call, zoom. destruct (m _). by apply limit_inv_plugins. Qed.

Lemma set_state_limit e st : keeps limit_inv (snapshot_set_state e st).
Proof using Type. intros c. by apply limit_inv_plugins. Qed.

(** A callback that counts nothing more. *)
Lemma callback_no_more (f : forall P, Plugin P -> P -> result P) :
  (forall mm mm', f _ MinMax_plugin mm = Ok mm' -> counts_no_more mm mm') ->
  keeps limit_inv (callback (for_plugins (fun p => dyn_mut p f))).
Proof using Type.
  intros Hf c (mm & Hh & Hw). unfold callback.
  destruct (for_plugins _ _) as [ps| |] eqn:Hps; [|by exists mm..].
  destruct (for_plugins_headed f mm _ _ Hh Hps) as (mm' & Hmm & Hh'). exists mm'. split; [done|].
  destruct (Hf mm mm' Hmm) as [Hl Hc]. intros id s Hs Hg m. rewrite (session_limit_eq mm) by done.
  intros Hm. specialize (Hw id s Hs Hg m Hm). specialize (Hc (si_id s)).
  unfold session_instances in *. lia.
Qed.

(** A callback that counts one more for a session with room. *)
Lemma callback_one (f : forall P, Plugin P -> P -> result P) s c :
  (forall mm mm', f _ MinMax_plugin mm = Ok mm' -> counts_one (si_id s) mm mm') ->
  ssns !! si_id s = Some s -> limit_inv c -> has_room s c ->
  limit_inv (callback (for_plugins (fun p => dyn_mut p f)) c).2.
Proof using ssns_wf.
  intros Hf Hs (mm & Hh & Hw) (mm2 & Hh2 & Hr). pose proof (headed_unique _ _ _ Hh Hh2) as <-.
  unfold callback. destruct (for_plugins _ _) as [ps| |] eqn:Hps; [|by exists mm..].
  destruct (for_plugins_headed f mm _ _ Hh Hps) as (mm' & Hmm & Hh'). exists mm'. split; [done|].
  destruct (Hf mm mm' Hmm) as [Hl Hc]. intros id x Hx Hg m. rewrite (session_limit_eq mm) by done.
  intros Hm. specialize (Hc (si_id x)). unfold session_instances. case_decide as Hid.
  - destruct (ssns_wf _ _ Hx) as [Hxid _]. assert (x = s) as -> by congruence.
    specialize (Hr m Hm). unfold session_instances in Hr. lia.
  - specialize (Hw id x Hx Hg m Hm). unfold session_instances in Hw. lia.
Qed.

(** ** Dispatch *)

Lemma discard_loop_limit binds execs : keeps limit_inv (discard_loop binds execs).
Proof using Type.
  revert execs. induction binds as [|[e x] binds IH]; simpl; intros execs; [apply keeps_ret|].
  apply keeps_bind; [apply callback_no_more; intros; by eapply unbind_counts|]. intros _.
  apply keeps_bind; [apply set_state_limit|]. intros _. apply IH.
Qed.

Lemma stmt_commit_limit binds : keeps limit_inv (stmt_commit binds).
Proof using Type.
  induction binds as [|[e x] binds IH]; [apply keeps_ret|]. cbn [stmt_commit].
  apply keeps_bind; [apply keeps_attempt, call_limit|].
  intros [[]|err|]; [apply IH| |apply keeps_lift].
  apply keeps_bind; [apply discard_loop_limit|]. intros _. apply keeps_throw.
Qed.

Lemma stmt_bind_limit e s binds c :
  ssns !! si_id s = Some s -> limit_inv c -> has_room s c -> limit_inv (stmt_bind e s binds c).2.
Proof using ssns_wf.
  intros Hs Hc Hr. unfold stmt_bind. unfold mbind at 1, M_bind at 1.
  pose proof (callback_one (fun P _ => on_session_bind e s) s c (bind_counts e s) Hs Hc Hr) as Hl.
  change (callback (pm_on_session_bind e s) c) with
    (callback (for_plugins (fun p => dyn_mut p (fun P _ => on_session_bind e s))) c).
  destruct (callback _ c) as [[u|err|] c1]; simpl in Hl; [|done|done].
  eapply keeps_bind; [apply set_state_limit|intros; apply keeps_ret|exact Hl].
Qed.

Lemma unsatisfied_has_room s c :
  si_wf s -> limit_inv c -> ctx_is_satisfied s c = false -> has_room s c.
Proof using Type.
  intros Hwf (mm & Hh & _) Hs. exists mm. split; [done|]. apply unsatisfied_room; [done|].
  rewrite <-(pm_is_satisfied_headed mm _ _ Hh). unfold ctx_is_satisfied in Hs. by rewrite Hs.
Qed.

Lemma underused_has_room s c : limit_inv c -> ctx_is_underused s c = true -> has_room s c.
Proof using Type.
  intros (mm & Hh & _) Hu. exists mm. split; [done|]. apply underused_room.
  unfold ctx_is_underused in Hu. rewrite (pm_is_underused_headed mm) in Hu by done.
  destruct (minmax_is_underused mm s) as [[]|]; done.
Qed.

Lemma bind_loop_limit fuel s idle binds c :
  ssns !! si_id s = Some s -> limit_inv c -> has_room s c ->
  limit_inv (bind_loop fuel s idle binds c).2.
Proof using ssns_wf.
  intros Hs. destruct (ssns_wf _ _ Hs) as [_ Hwf].
  revert idle binds c. induction fuel as [|fuel IH]; intros idle binds c Hc Hr; [done|].
  cbn [bind_loop]. unfold mbind, M_bind, gets. cbv beta iota.
  destruct (select_executor s idle c) as [e|]; [|done].
  pose proof (stmt_bind_limit e s binds c Hs Hc Hr) as Hb.
  destruct (stmt_bind e s binds c) as [[bs|err|] c1]; simpl in Hb; [|done|done].
  destruct (ctx_is_satisfied s c1) eqn:Hsat; [done|].
  apply IH; [done|]. by apply unsatisfied_has_room.
Qed.

Lemma dispatch_session_limit s queue idle :
  ssns !! si_id s = Some s -> keeps limit_inv (dispatch_session s queue idle).
Proof using ssns_wf.
  intros Hs c Hc. unfold dispatch_session. unfold mbind, M_bind, gets. cbv beta iota.
  destruct (negb _) eqn:Hu; [done|]. apply negb_false_iff in Hu.
  destruct (ctx_is_ready s c); [done|].
  pose proof (bind_loop_limit (S (size idle)) s idle [] c Hs Hc (underused_has_room s c Hc Hu)) as Hb.
  destruct (bind_loop _ s idle [] c) as [[[[i binds]|]|err|] c1]; simpl in Hb; [|done|done|done].
  destruct (_ || _).
  - pose proof (discard_loop_limit (reverse binds) [] c1 Hb) as Hd.
    change (discard_loop (reverse binds) [] c1) with (stmt_discard binds c1) in Hd.
    by destruct (stmt_discard binds c1) as [[]].
  - pose proof (stmt_commit_limit binds c1 Hb) as Hd.
    destruct (stmt_commit binds c1) as [[u|err|] c2]; simpl in Hd; [|done|done].
    by destruct (_ && _).
Qed.

Lemma dispatch_loop_limit fuel queue idle :
  (forall x, x ∈ queue -> ssns !! si_id x = Some x) -> keeps limit_inv (dispatch_loop fuel queue idle).
Proof using ssns_wf.
  revert queue idle. induction fuel as [|fuel IH]; simpl; intros queue idle Hq; [apply keeps_ret|].
  destruct (heap_is_empty queue); [apply keeps_ret|].
  apply keeps_bind; [apply keeps_gets|]. intros order.
  destruct (heap_pop order queue) as [[s q]|] eqn:Hpop; [|apply keeps_lift].
  apply heap_pop_perm in Hpop. assert (Hs : ssns !! si_id s = Some s) by (apply Hq; rewrite Hpop; left).
  assert (Hq' : forall x, x ∈ q -> ssns !! si_id x = Some x) by (intros x Hx; apply Hq; rewrite Hpop; by right).
  apply (spec_keeps _ _ (fun _ => True)).
  apply (spec_bind _ _ _ (fun r => forall q' i, r = Some (q', i) -> forall x, x ∈ q' -> ssns !! si_id x = Some x)).
  - intros c Hc. split; [by apply dispatch_session_limit|]. intros r Hr q' i -> x Hx.
    destruct (dispatch_session_queue _ _ _ _ _ _ Hr x Hx) as [->|?]; auto.
  - intros [[q' i]|] Hr; apply keeps_spec; [|apply keeps_ret]. apply IH. eauto.
Qed.

(** ** Allocate and Shuffle *)

Lemma allocate_session_limit s ns v u :
  ssns !! si_id s = Some s -> keeps limit_inv (allocate_session s ns v u).
Proof using ssns_wf.
  intros Hs c Hc. unfold allocate_session. unfold mbind, M_bind, gets, get. cbv beta iota.
  destruct (negb _) eqn:Hu; [done|]. apply negb_false_iff in Hu.
  destruct (ctx_is_ready s c); [done|]. pose proof (underused_has_room s c Hc Hu) as Hr.
  assert (Hpipe : forall e, limit_inv (pipeline_executor e s c).2).
  { intros e.
    exact (callback_one (fun P _ => on_executor_pipeline e s) s c (pipeline_counts e s) Hs Hc Hr). }
  destruct (List.find _ (hm_values v)) as [e|].
  { specialize (Hpipe e). by destruct (pipeline_executor e s c) as [[]]. }
  destruct (List.find _ (hm_values u)) as [e|].
  { specialize (Hpipe e). by destruct (pipeline_executor e s c) as [[]]. }
  pose proof (find_node_state ns s c) as Hst.
  destruct (find_node ns s c) as [[[n|]|err|] c1]; simpl in Hst; subst c1; try done.
  assert (Ha : limit_inv (allocate_executor n s c).2).
  { unfold allocate_executor. unfold mbind at 1, M_bind at 1.
    unfold call, zoom. destruct (create_executor _ _ _) as [[e|err|] k]; [|done|done].
    unfold mbind, M_bind, modify. cbv beta iota.
    set (c2 := set_snapshot _ _).
    exact (callback_one (fun P _ => on_executor_create (ExecutorInfo_from e) s) s c2
      (create_counts _ s) Hs (limit_inv_plugins c c2 eq_refl Hc) Hr). }
  by destruct (allocate_executor n s c) as [[]].
Qed.

Lemma allocate_loop_limit fuel queue ns v u :
  (forall x, x ∈ queue -> ssns !! si_id x = Some x) ->
  keeps limit_inv (allocate_loop fuel queue ns v u).
Proof using ssns_wf.
  revert queue v u. induction fuel as [|fuel IH]; simpl; intros queue v u Hq; [apply keeps_ret|].
  destruct (heap_is_empty queue); [apply keeps_ret|].
  apply keeps_bind; [apply keeps_gets|]. intros order.
  destruct (heap_pop order queue) as [[s q]|] eqn:Hpop; [|apply keeps_lift].
  apply heap_pop_perm in Hpop.
  apply keeps_bind; [apply allocate_session_limit, Hq; rewrite Hpop; left|].
  intros r. apply IH. intros x Hx. apply Hq. rewrite Hpop. by right.
Qed.

Lemma shuffle_execute_limit : keeps limit_inv shuffle_execute.
Proof using Type.
  apply keeps_bind; [|intros _].
  { apply keeps_bind; [apply keeps_gets|]. intros sus. destruct (bool_decide _); [apply keeps_ret|].
    apply keeps_bind; [apply keeps_gets|]. intros sv. apply keeps_for_each. intros x _.
    destruct (bool_decide _); [apply keeps_ret|].
    apply keeps_bind; [apply keeps_attempt, call_limit|intros; apply keeps_ret]. }
  apply keeps_bind; [apply keeps_gets|]. intros l. apply keeps_bind; [|intros _].
  - apply keeps_for_each. intros e _. apply keeps_bind; [apply keeps_gets|].
    intros [|]; [|apply keeps_ret]. simpl. destruct (ei_ssn_id e); [|apply keeps_ret].
    apply keeps_bind; [apply keeps_gets|]. intros r. apply keeps_bind; [apply keeps_lift|].
    intros x. apply keeps_bind; [apply keeps_gets|]. intros [|]; [|apply keeps_ret].
    apply keeps_bind; [apply call_limit|]. intros _. apply keeps_bind; [|intros _ c; by apply limit_inv_plugins].
    apply callback_no_more. intros. by eapply interrupt_counts.
  - apply keeps_bind; [apply keeps_gets|]. intros idle. apply keeps_for_each. intros e _.
    apply keeps_bind; [apply keeps_gets|]. intros ss. apply keeps_bind.
    + unfold idle_executor_expired. destruct (get_application _ _); [|apply keeps_ret].
      apply keeps_bind; [intros c; by apply limit_inv_plugins|intros; apply keeps_ret].
    + intros [|]; [|apply keeps_ret]. apply keeps_bind; [apply call_limit|intros _; apply set_state_limit].
Qed.
End limit.

(** ** The executors a session holds *)

(** The live executors of the snapshot that have the session. *)
Definition held (id : string) (ss : SnapShot) : nat := count (of_ssn id) (live_execs ss).

Definition weight (id : string) (o : option ExecutorInfo) : nat :=
  match o with Some e => if live e && of_ssn id e then 1 else 0 | None => 0 end.

(** Putting an executor into the snapshot, in place of the one with its id. *)
Lemma held_insert x e ss ss' :
  ss_executors ss' = <[ei_id e := e]> (ss_executors ss) ->
  (held x ss' + weight x (ss_executors ss !! ei_id e) = held x ss + weight x (Some e))%nat.
Proof.
  intros Hss. unfold held, live_execs. rewrite Hss.
  assert (Hf : forall l : list ExecutorInfo,
    count (of_ssn x) (List.filter live l) = count (fun e => live e && of_ssn x e) l).
  { induction l as [|y l IH]; [done|]. simpl. rewrite count_cons. destruct (live y); simpl; [|done].
    rewrite count_cons. by rewrite IH. }
  rewrite !Hf. set (P := fun e => live e && of_ssn x e). set (m := ss_executors ss).
  assert (Hi : forall (m : gmap string ExecutorInfo) e, count P (map_to_list (<[ei_id e := e]> m)).*2 =
    (weight x (Some e) + count P (map_to_list (delete (ei_id e) m)).*2)%nat).
  { intros m' e'. rewrite <-(insert_delete_eq m'), map_to_list_insert by apply lookup_delete_eq.
    simpl. by rewrite count_cons. }
  rewrite Hi. destruct (m !! ei_id e) as [e0|] eqn:He.
  - rewrite <-(insert_delete_id m (ei_id e) e0 He) at 2.
    rewrite map_to_list_insert by apply lookup_delete_eq. 
    rewrite fmap_cons, count_cons. simpl.
    change (live e0 && of_ssn x e0) with (P e0). destruct (P e0); lia.
  - rewrite delete_id by done. simpl. lia.
Qed.

Definition counter (mm : MinMaxPlugin) (id : string) : nat :=
  default 0%nat (mm_session_executors mm !! id).

(** Every executor a session holds is counted for it. *)
Definition covered {C} (c : Context C) : Prop :=
  exists mm, headed mm (cx_plugins c) /\ forall x, (held x (cx_snapshot c) <= counter mm x)%nat.

(** The snapshot has the staged executors with their sessions. *)
Record staging {C} (binds : Statement) (c : Context C) : Prop := {
  sb_covered : covered c;
  sb_distinct : NoDup (ei_id ∘ fst <$> binds);
  sb_idle : forall b, b ∈ binds -> ei_ssn_id b.1 = None;
  sb_bound : forall b, b ∈ binds -> exists e0,
    ss_executors (cx_snapshot c) !! ei_id b.1 = Some e0 /\ live e0 = true /\
    ei_ssn_id e0 = Some (si_id b.2)
}.

Lemma weight_of x (e : ExecutorInfo) s :
  live e = true -> ei_ssn_id e = Some s -> weight x (Some e) = if decide (s = x) then 1%nat else 0%nat.
Proof.
  intros Hl Hs. simpl. rewrite Hl. unfold of_ssn. rewrite Hs. simpl.
  destruct (decide (s = x)) as [->|Hne]; [by rewrite bool_decide_true|].
  rewrite bool_decide_false; [done|congruence].
Qed.

Lemma weight_none x (e : ExecutorInfo) : ei_ssn_id e = None -> weight x (Some e) = 0%nat.
Proof. intros Hs. simpl. unfold of_ssn. rewrite Hs, bool_decide_false by done. by rewrite andb_false_r. Qed.

Section held.
Context `{Env} `{StdHeap} {C : Type} `{SchedControllerSpec C}.
Implicit Types (c : Context C).

(** A bind of an executor without a session is counted before the snapshot
    shows it. *)
Lemma stmt_bind_staging e ssn binds c :
  staging binds c -> ei_ssn_id e = None -> ei_id e ∉ (ei_id ∘ fst <$> binds) ->
  covered (stmt_bind e ssn binds c).2 /\
  forall bs, (stmt_bind e ssn binds c).1 = Ok bs -> staging bs (stmt_bind e ssn binds c).2.
Proof using Type.
  intros [(mm & Hh & Hc) Hd Hi Hb] Hns Hnew. unfold stmt_bind. unfold mbind at 1 3 5, M_bind at 1 3 5.
  unfold callback. destruct (pm_on_session_bind e ssn (cx_plugins c)) as [ps| |] eqn:Hps;
    [|split; [by exists mm|done]..].
  destruct (for_plugins_headed _ mm _ _ Hh Hps) as (mm' & Hmm & Hh'). simpl in Hmm.
  unfold minmax_on_session_bind in Hmm. rewrite Hns, bool_decide_false in Hmm by done.
  injection Hmm as <-. set (bound := ei_with_state ExecBinding (utc_now (cx_clock c))
    (ei_with_ssn (Some (si_id ssn)) e)).
  assert (Hcov : forall ss', ss_executors ss' = <[ei_id bound := bound]> (ss_executors (cx_snapshot c)) ->
    forall x, (held x ss' <= counter (with_session_counts (hm_incr (si_id ssn) (mm_session_executors mm))
      (mm_session_interrupted mm) mm) x)%nat).
  { intros ss' Hss x. pose proof (held_insert x bound _ _ Hss) as Hx. specialize (Hc x).
    rewrite (weight_of x bound (si_id ssn)) in Hx by done. unfold counter in *. simpl.
    rewrite hm_incr_lookup. lia. }
  simpl. split; [by eexists; split; [done|]; apply Hcov, update_executor_executors|].
  intros bs [= <-]. split.
  - eexists; split; [done|]. apply Hcov, update_executor_executors.
  - rewrite fmap_app. apply list.NoDup_app. split_and!; [done| |apply list.NoDup_singleton].
    intros x Hx Hx2%list_elem_of_singleton. subst x. done.
  - intros b [?|Hin%list_elem_of_singleton]%elem_of_app; [auto|by subst b].
  - simpl. rewrite insert_delete_eq. intros b [Hin|Hin%list_elem_of_singleton]%elem_of_app.
    + rewrite lookup_insert_ne; [auto|]. intros Heq. apply Hnew. rewrite Heq.
      apply list_elem_of_fmap. by exists b.
    + subst b. exists bound. by rewrite lookup_insert_eq.
Qed.

Lemma staging_covered_call {A} (m : M C A) binds c : staging binds c -> staging binds (call m c).2.
Proof using Type. intros [? ? ? ?]. unfold call, zoom. by destruct (m _). Qed.

(** Taking a staged bind back takes the executor from the session before the
    counter forgets it. *)
Lemma discard_loop_covered binds execs c :
  staging binds c -> covered (discard_loop binds execs c).2.
Proof using Type.
  revert execs c. induction binds as [|[e ssn] binds IH]; intros execs c [(mm & Hh & Hc) Hd Hi Hb];
    [by exists mm|].
  simpl. unfold mbind at 1, M_bind at 1, callback.
  destruct (pm_on_session_unbind e ssn (cx_plugins c)) as [ps| |] eqn:Hps; [|by exists mm..].
  destruct (for_plugins_headed _ mm _ _ Hh Hps) as (mm' & Hmm & Hh'). simpl in Hmm.
  assert (Hcnt : forall x, counter mm' x = (counter mm x - if decide (si_id ssn = x) then 1 else 0)%nat).
  { intros x. unfold minmax_on_session_unbind in Hmm. unfold counter.
    destruct (ei_is_interrupted e); injection Hmm as <-; apply hm_decr_lookup. }
  simpl. rewrite fmap_cons in Hd. apply list.NoDup_cons in Hd as [Hnin Hd].
  destruct (Hb (e, ssn)) as (e0 & He0 & Hl0 & Hs0); [left|]. specialize (Hi (e, ssn)) as Hie.
  apply IH. split.
  - exists mm'. split; [done|]. intros x. rewrite Hcnt. specialize (Hc x).
    set (e' := ei_with_state ExecIdle (utc_now (cx_clock c)) e).
    pose proof (held_insert x e' (cx_snapshot c) _ (update_executor_executors e' _)) as Hx.
    change (ei_id e') with (ei_id e) in Hx. simpl in He0. rewrite He0, (weight_of x e0 (si_id ssn)) in Hx by done.
    rewrite weight_none in Hx by (apply Hie; left).
    change (held x (update_executor e' (cx_snapshot c)) <=
      counter mm x - (if decide (si_id ssn = x) then 1 else 0))%nat. lia.
  - done.
  - intros b Hin. apply Hi. by right.
  - intros b Hin. simpl. rewrite insert_delete_eq. rewrite lookup_insert_ne; [apply Hb; by right|].
    intros Heq. apply Hnin, list_elem_of_fmap. by exists b.
Qed.

Lemma staging_suffix b binds c : staging (b :: binds) c -> staging binds c.
Proof using Type.
  intros [Hc [_ Hd]%list.NoDup_cons Hi Hb]. split; [done|done|..]; intros x Hx; [apply Hi|apply Hb]; by right.
Qed.

Lemma staging_reverse binds c : staging binds c -> staging (reverse binds) c.
Proof using Type.
  intros [Hc Hd Hi Hb]. split; [done|by rewrite fmap_reverse, reverse_Permutation|..];
    intros b Hin; rewrite elem_of_reverse in Hin; [by apply Hi|by apply Hb].
Qed.

Lemma stmt_commit_covered binds c : staging binds c -> covered (stmt_commit binds c).2.
Proof using Type.
  revert c. induction binds as [|[e ssn] binds IH]; intros c Hs; [apply Hs|]. cbn [stmt_commit].
  unfold mbind at 1, M_bind at 1, attempt.
  pose proof (staging_covered_call (bind_session (ei_id e) (si_id ssn)) _ c Hs) as Hk.
  destruct (call _ c) as [[u|err|] c1]; simpl in Hk; [|..|apply Hk].
  - apply IH. by eapply staging_suffix.
  - unfold mbind, M_bind, stmt_discard.
    pose proof (discard_loop_covered _ [] c1 (staging_reverse _ _ Hk)) as Hd.
    by destruct (discard_loop _ _ _) as [[] ?].
Qed.

(** The binds [bind_loop] stages. *)
Lemma bind_loop_covered fuel ssn idle binds c :
  keyed ei_id idle -> staging binds c -> (forall b, b ∈ binds -> idle !! ei_id b.1 = None) ->
  covered (bind_loop fuel ssn idle binds c).2 /\
  forall i bs, (bind_loop fuel ssn idle binds c).1 = Ok (Some (i, bs)) ->
    staging bs (bind_loop fuel ssn idle binds c).2 /\ keyed ei_id i.
Proof using Type.
  revert idle binds c. induction fuel as [|fuel IH]; intros idle binds c Hk Hs Hi.
  { split; [apply Hs|done]. }
  cbn [bind_loop]. unfold mbind, M_bind, gets. cbv beta iota.
  destruct (select_executor ssn idle c) as [e|] eqn:Hsel.
  2: { split; [apply Hs|]. intros i bs Hr. by injection Hr as <- <-. }
  apply select_executor_elem in Hsel as ((id & Hid)%hm_values_elem & Hns & _).
  pose proof (Hk _ _ Hid) as <-.
  assert (Hnew : ei_id e ∉ (ei_id ∘ fst <$> binds)).
  { intros (b & Heq & Hb)%list_elem_of_fmap. simpl in Heq. apply Hi in Hb. congruence. }
  destruct (stmt_bind_staging e ssn binds c Hs Hns Hnew) as [Hc Hok].
  assert (Hbs : forall bs, (stmt_bind e ssn binds c).1 = Ok bs -> bs = binds ++ [(e, ssn)]).
  { intros bs Hbs. destruct (stmt_bind e ssn binds c) as [r c1] eqn:Hb. simpl in Hbs. subst r.
    apply bind_inv_Ok in Hb as (? & ? & _ & Hb). apply bind_inv_Ok in Hb as (? & ? & _ & Hb).
    by injection Hb as <- _. }
  destruct (stmt_bind e ssn binds c) as [[bs|err|] c1]; simpl in *; [|done|done].
  specialize (Hok bs eq_refl). destruct (ctx_is_satisfied ssn c1).
  - split; [done|]. intros i bs' [= <- <-]. split; [done|by apply keyed_delete].
  - apply IH; [by apply keyed_delete|done|]. rewrite (Hbs bs eq_refl).
    intros b [Hin|Hin%list_elem_of_singleton]%elem_of_app; [|subst b; apply lookup_delete_eq].
    rewrite lookup_delete_None. auto.
Qed.

Lemma keyed_foldl execs (m : gmap string ExecutorInfo) :
  keyed ei_id m -> keyed ei_id (foldl (fun m e => <[ei_id e := e]> m) m execs).
Proof using Type.
  revert m. induction execs as [|e execs IH]; intros m Hm; [done|]. by apply IH, keyed_insert.
Qed.

Lemma staging_nil c : covered c -> staging [] c.
Proof using Type. intros Hc. split; [done|constructor|..]; by intros b ?%elem_of_nil. Qed.

Lemma dispatch_session_covered ssn queue idle :
  keyed ei_id idle -> spec covered (dispatch_session ssn queue idle)
    (fun r => forall q i, r = Some (q, i) -> keyed ei_id i).
Proof using Type.
  intros Hk c Hc. unfold dispatch_session. unfold mbind, M_bind, gets. cbv beta iota.
  destruct (negb _); [split; [done|]; by intros r [= <-] q i [= <- <-]|].
  destruct (ctx_is_ready ssn c); [split; [done|]; by intros r [= <-] q i [= <- <-]|].
  destruct (bind_loop_covered (S (size idle)) ssn idle [] c Hk (staging_nil c Hc)) as [Hb Hok];
    [by intros b ?%elem_of_nil|].
  destruct (bind_loop _ ssn idle [] c) as [[[[i binds]|]|err|] c1]; simpl in Hb, Hok; try done.
  2: { split; [done|]. by intros r [= <-]. }
  destruct (Hok i binds eq_refl) as [Hs Hi]. destruct (_ || _).
  - pose proof (discard_loop_covered _ [] c1 (staging_reverse _ _ Hs)) as Hd. unfold stmt_discard.
    destruct (discard_loop _ _ _) as [[execs|err|] c2]; simpl in Hd; try done. split; [done|].
    intros r [= <-] q i' [= <- <-]. by apply keyed_foldl.
  - pose proof (stmt_commit_covered binds c1 Hs) as Hd.
    destruct (stmt_commit binds c1) as [[u|err|] c2]; simpl in Hd; try done.
    destruct (_ && _); (split; [done|]); by intros r [= <-] q i' [= <- <-].
Qed.

Lemma dispatch_loop_covered fuel queue idle :
  keyed ei_id idle -> keeps covered (dispatch_loop fuel queue idle).
Proof using Type.
  revert queue idle. induction fuel as [|fuel IH]; simpl; intros queue idle Hk; [apply keeps_ret|].
  destruct (heap_is_empty queue); [apply keeps_ret|].
  apply keeps_bind; [apply keeps_gets|]. intros order.
  destruct (heap_pop order queue) as [[s q]|]; [|apply keeps_lift].
  eapply spec_bind_keeps; [by apply dispatch_session_covered|].
  intros [[q' i]|] Hr; [by eapply IH, Hr|apply keeps_ret].
Qed.

(** ** Allocate and Shuffle *)

(** A callback that counts no less, with a snapshot where sessions hold no
    more. *)
Lemma callback_covered (f : forall P, Plugin P -> P -> result P) :
  (forall mm mm', f _ MinMax_plugin mm = Ok mm' -> forall x, (counter mm x <= counter mm' x)%nat) ->
  keeps (@covered C) (callback (for_plugins (fun p => dyn_mut p f))).
Proof using Type.
  intros Hf c (mm & Hh & Hc). unfold callback.
  destruct (for_plugins _ _) as [ps| |] eqn:Hps; [|by exists mm..].
  destruct (for_plugins_headed f mm _ _ Hh Hps) as (mm' & Hmm & Hh'). exists mm'. split; [done|].
  intros x. simpl. etrans; [apply Hc|by apply (Hf mm)].
Qed.

Lemma pipeline_covered e ssn : keeps (@covered C) (pipeline_executor e ssn).
Proof using Type.
  apply callback_covered. intros mm mm' Hmm x. simpl in Hmm. unfold minmax_on_executor_pipeline in Hmm.
  destruct (negb _); injection Hmm as <-; [|done]. unfold counter. simpl. rewrite hm_incr_lookup. lia.
Qed.

(** A new executor has no session yet. *)
Lemma allocate_executor_covered node ssn : keeps covered (allocate_executor node ssn).
Proof using All.
  intros c (mm & Hh & Hc). unfold allocate_executor. unfold mbind at 1, M_bind at 1, call, zoom.
  destruct (create_executor _ _ (cx_controller c)) as [[e|err|] k] eqn:Hcr; [|by exists mm..].
  apply create_executor_spec in Hcr as (_ & _ & _ & Hes & _).
  unfold mbind, M_bind, modify. apply callback_covered.
  - intros mm1 mm2 Hmm x. simpl in Hmm. injection Hmm as <-. unfold counter. simpl. rewrite hm_incr_lookup. lia.
  - exists mm. split; [done|]. intros x. simpl. specialize (Hc x).
    pose proof (held_insert x (ExecutorInfo_from e) (cx_snapshot c)
      (add_executor (ExecutorInfo_from e) (cx_snapshot c)) eq_refl) as Hx.
    rewrite weight_none in Hx by done. lia.
Qed.

Lemma allocate_loop_covered fuel queue ns v u : keeps covered (allocate_loop fuel queue ns v u).
Proof using All.
  revert queue v u. induction fuel as [|fuel IH]; simpl; intros queue v u; [apply keeps_ret|].
  destruct (heap_is_empty queue); [apply keeps_ret|].
  apply keeps_bind; [apply keeps_gets|]. intros order.
  destruct (heap_pop order queue) as [[s q]|]; [|apply keeps_lift].
  apply keeps_bind; [|intros r; apply IH]. unfold allocate_session.
  apply keeps_bind; [apply keeps_gets|]. intros under. destruct (negb under); [apply keeps_ret|].
  apply keeps_bind; [apply keeps_gets|]. intros [|]; [apply keeps_ret|].
  apply keeps_bind; [apply keeps_get|]. intros c0.
  destruct (List.find _ (hm_values v)); [apply keeps_bind; [apply pipeline_covered|intros; apply keeps_ret]|].
  destruct (List.find _ (hm_values u)); [apply keeps_bind; [apply pipeline_covered|intros; apply keeps_ret]|].
  apply keeps_bind; [intros c1 Hc1; by rewrite find_node_state|]. intros [n|]; [|apply keeps_ret].
  apply keeps_bind; [apply allocate_executor_covered|intros; apply keeps_ret].
Qed.

(** The snapshot still has the executors of [l] with their sessions. *)
Definition sync (l : list ExecutorInfo) (c : Context C) : Prop :=
  covered c /\ snap_wf (cx_snapshot c) /\
  forall e, e ∈ l -> exists e0, ss_executors (cx_snapshot c) !! ei_id e = Some e0 /\
    live e0 = true /\ ei_ssn_id e0 = ei_ssn_id e.

Lemma sync_update l e e' c :
  sync l c -> e ∈ l -> ei_id e' = ei_id e -> ei_ssn_id e' = ei_ssn_id e -> live e' = true ->
  sync l (set_snapshot (update_executor e' (cx_snapshot c)) c).
Proof using Type.
  intros ((mm & Hh & Hc) & Hwf & Hl) He Hid Hssn Hlive. destruct (Hl e He) as (e0 & He0 & Hl0 & Hs0).
  split_and!; [|by apply update_executor_wf|].
  - exists mm. split; [done|]. intros x. specialize (Hc x). simpl.
    pose proof (held_insert x e' (cx_snapshot c) _ (update_executor_executors e' _)) as Hx.
    rewrite Hid, He0 in Hx. simpl in Hx. unfold of_ssn in Hx. rewrite Hs0, Hssn, Hl0, Hlive in Hx.
    change (held x (update_executor e' (cx_snapshot c)) <= counter mm x)%nat. lia.
  - intros y Hy. simpl. rewrite insert_delete_eq, Hid.
    destruct (decide (ei_id y = ei_id e)) as [Heq|Hne].
    + rewrite Heq, lookup_insert_eq. exists e'. split_and!; [done|done|].
      destruct (Hl y Hy) as (y0 & Hy0 & _ & Hys). rewrite Heq, He0 in Hy0. congruence.
    + rewrite lookup_insert_ne by done. auto.
Qed.

Lemma sync_call {A} l (m : M C A) : keeps (sync l) (call m).
Proof using Type. intros c Hc. unfold call, zoom. by destruct (m _). Qed.

Lemma reclaim_sync l e : e ∈ l -> live e = true -> keeps (sync l) (reclaim_executor e).
Proof using Type.
  intros He Hlv. unfold reclaim_executor. apply keeps_bind; [apply keeps_gets|]. intros rec.
  destruct (negb rec); [apply keeps_ret|]. destruct (ei_ssn_id e) as [x|] eqn:Hx; [|apply keeps_ret].
  apply keeps_bind; [apply keeps_gets|]. intros r. apply keeps_bind; [apply keeps_lift|]. intros s.
  apply keeps_bind; [apply keeps_gets|]. intros [|]; [|apply keeps_ret].
  apply keeps_bind; [apply sync_call|]. intros _. apply keeps_bind.
  - intros c (Hc & Hwf & Hl). split; [|unfold callback; by destruct (pm_on_executor_interrupt _ _ _)].
    revert c Hc Hwf Hl. intros c Hc _ _. revert c Hc. apply callback_covered.
    intros mm mm' [= <-] y. done.
  - intros _. intros c Hc. by apply (sync_update l e).
Qed.

Lemma expire_sync l e : e ∈ l -> keeps (sync l) (expire_executor e).
Proof using Type.
  intros He. unfold expire_executor. apply keeps_bind; [apply keeps_gets|]. intros ss.
  apply keeps_bind.
  - unfold idle_executor_expired. destruct (get_application _ _); [|apply keeps_ret].
    apply keeps_bind; [by intros c Hc|intros; apply keeps_ret].
  - intros [|]; [|apply keeps_ret]. apply keeps_bind; [apply sync_call|]. intros _ c Hc.
    by apply (sync_update l e _ (mkContext (cx_controller c) (cx_snapshot c) (cx_plugins c) (S (cx_clock c)))).
Qed.

(** The executors found in a state are in the snapshot. *)
Lemma sync_find st c :
  sync [] c -> st <> ExecReleased ->
  sync (hm_values (find_executors (Some (executor_by_state st)) (cx_snapshot c))) c /\
  Forall (fun e => live e = true) (hm_values (find_executors (Some (executor_by_state st)) (cx_snapshot c))).
Proof using Type.
  intros (Hc & Hwf & _) Hst.
  assert (Hin : forall e, e ∈ hm_values (find_executors (Some (executor_by_state st)) (cx_snapshot c)) ->
    ss_executors (cx_snapshot c) !! ei_id e = Some e /\ live e = true).
  { intros e (id & Hid)%hm_values_elem. rewrite find_executors_spec in Hid by done.
    apply map_lookup_filter_Some in Hid as [Hid Hm]. rewrite (sw_execs _ Hwf _ _ Hid).
    split; [done|]. unfold executor_matches in Hm. simpl in Hm. rewrite !andb_true_r in Hm.
    apply bool_decide_eq_true in Hm. unfold live. rewrite bool_decide_false; [done|congruence]. }
  split; [split_and!; [done|done|]|].
  - intros e He. exists e. by destruct (Hin e He).
  - apply list.Forall_forall. intros e He. by apply Hin.
Qed.

Lemma shuffle_execute_sync : keeps (sync []) shuffle_execute.
Proof using Type.
  assert (Hfor : forall st (f : ExecutorInfo -> M (Context C) unit), st <> ExecReleased ->
    (forall l e, e ∈ l -> live e = true -> keeps (sync l) (f e)) ->
    keeps (sync []) (gets (fun c => hm_values (find_executors
      (Some (executor_by_state st)) (cx_snapshot c))) ≫= fun l => for_each l f)).
  { intros st f Hst Hf c Hc. unfold mbind, M_bind, gets. simpl.
    destruct (sync_find st c Hc Hst) as [Hl Hlv]. rewrite list.Forall_forall in Hlv.
    assert (Hk : sync (hm_values (find_executors (Some (executor_by_state st)) (cx_snapshot c)))
      (for_each (hm_values (find_executors (Some (executor_by_state st)) (cx_snapshot c))) f c).2).
    { apply keeps_for_each; [|done]. intros e He. by apply Hf, Hlv. }
    destruct Hk as (Hk1 & Hk2 & _). split_and!; [done|done|by intros e ?%elem_of_nil]. }
  apply keeps_bind; [|intros _].
  { apply keeps_bind; [apply keeps_gets|]. intros sus. destruct (bool_decide _); [apply keeps_ret|].
    apply keeps_bind; [apply keeps_gets|]. intros sv. apply keeps_for_each. intros x _.
    destruct (bool_decide _); [apply keeps_ret|].
    apply keeps_bind; [apply keeps_attempt, sync_call|intros; apply keeps_ret]. }
  intros c Hc. unfold mbind, M_bind at 1, gets at 1. simpl. set (l := hm_values _).
  assert (Hl : sync [] (for_each l reclaim_executor c).2)
    by (exact (Hfor ExecBound reclaim_executor ltac:(done) reclaim_sync c Hc)).
  unfold M_bind at 1. destruct (for_each l reclaim_executor c) as [[[]|e|] c1]; try done.
  exact (Hfor ExecIdle expire_executor ltac:(done) (fun l e He _ => expire_sync l e He) c1 Hl).
Qed.
End held.

(** ** The whole cycle *)

Section cycle_limit.
Context `{Env} `{StdHeap} {C : Type} `{SchedControllerSpec C}.
Context (limits : FlameLimits) (apps : gmap string AppInfo) (nodes : gmap string NodeInfo)
  (ssns : gmap string SessionInfo) (good_node good_app good : string -> Prop).
Hypothesis nodes_wf : forall id n, nodes !! id = Some n -> ni_name n = id /\ rr_wf (ni_allocatable n).
Hypothesis reqs_wf : forall id s rr, ssns !! id = Some s -> si_resreq s = Some rr -> rr_nonneg rr.
Hypothesis ssns_wf : forall id s, ssns !! id = Some s -> si_id s = id /\ si_wf s.

Definition cycle_limit_inv (c : Context C) : Prop :=
  cycle_inv limits apps nodes ssns good_node good_app [] c /\ limit_inv ssns good c /\ covered c.

(** An action that keeps the first part, and the others when it starts in
    all, keeps all. *)
Lemma keeps_both {A} (m : M (Context C) A) :
  keeps (cycle_inv limits apps nodes ssns good_node good_app []) m ->
  (forall c, cycle_limit_inv c -> limit_inv ssns good (m c).2 /\ covered (m c).2) -> keeps cycle_limit_inv m.
Proof using Type. intros H1' H2' c Hc. split; [apply H1'; apply Hc|by apply H2']. Qed.

Lemma run_cycle_limit : keeps cycle_limit_inv run_cycle.
Proof using nodes_wf reqs_wf ssns_wf.
  apply keeps_bind; [apply keeps_attempt, keeps_both|intros [u|e|]; [|apply keeps_ret..]].
  - apply dispatch_execute_keeps.
  - intros c (Hc & Hl & Hcov). unfold dispatch_execute, mbind, M_bind, gets. cbv beta iota. split.
    + apply dispatch_loop_limit; [done| |done]. intros x Hx. by eapply open_queue_elem.
    + apply dispatch_loop_covered; [|done]. pose proof (so_wf _ _ _ _ _ _ _ (ci_snapshot _ _ _ _ _ _ _ _ Hc)) as Hwf.
      unfold IDLE_EXECUTOR. rewrite find_executors_spec by done.
      intros k x [Hk _]%map_lookup_filter_Some. by apply (sw_execs _ Hwf).
  - apply keeps_bind; [apply keeps_attempt, keeps_both|intros [u'|e|]; [|apply keeps_ret..]].
    + by apply allocate_execute_keeps.
    + intros c (Hc & Hl & Hcov). unfold allocate_execute, mbind, M_bind, gets. cbv beta iota. split.
      * apply allocate_loop_limit; [done| |done]. intros x Hx. by eapply open_queue_elem.
      * by apply allocate_loop_covered.
    + apply keeps_bind; [apply keeps_attempt, keeps_both|intros; apply keeps_ret].
      * apply shuffle_execute_keeps.
      * intros c (Hc & Hl & Hcov). split; [by apply shuffle_execute_limit|].
        apply shuffle_execute_sync. split_and!; [done| |by intros e ?%elem_of_nil].
        apply (so_wf _ _ _ _ _ _ _ (ci_snapshot _ _ _ _ _ _ _ _ Hc)).
Qed.
End cycle_limit.

(** C23 A scheduling cycle never takes a session beyond its executor limit (the
    lesser of its [max_instances] and the cluster's session limit): if the
    session held no more live executors than that in the snapshot the cycle
    starts from, it holds no more in the snapshot the cycle ends with, and the
    MinMax count of it, which also has the executors created and pipelined for
    it in this cycle, is between the two. *)
Theorem cycle_session_limit `{Env} `{StdHeap} {C} `{SchedControllerSpec C} (k : C) ss options c :
  snapshot_of k ss -> (forall id s, ss_sessions ss !! id = Some s -> si_wf s) ->
  new_context k ss options = Ok c ->
  exists mm', headed mm' (cx_plugins (run_cycle c).2) /\
    forall id s m, ss_sessions ss !! id = Some s ->
      executor_limit (si_max_instances s) (fl_session_max_executors (po_limits options)) = Some m ->
      Z.of_nat (held id ss) <= m ->
      Z.of_nat (held id (cx_snapshot (run_cycle c).2)) <= session_instances mm' s <= m.
Proof.
  intros Hof Hwf Hnew. pose proof (new_context_inv k ss options c Hof Hnew) as Hinv.
  pose proof (sp_wf _ _ Hof) as Hsw.
  set (good := fun id => forall s m, ss_sessions ss !! id = Some s ->
    executor_limit (si_max_instances s) (fl_session_max_executors (po_limits options)) = Some m ->
    Z.of_nat (held id ss) <= m).
  assert (Hlim : limit_inv (ss_sessions ss) good c /\ covered c).
  { unfold new_context, mbind, result_bind in Hnew.
    destruct (pm_setup ss options) as [ps| |] eqn:Hps; [|done|done]. injection Hnew as <-.
    destruct (pm_setup_headed ss options ps Hps) as (mm & Hmm & Hh).
    destruct (minmax_setup_spec ss (MinMax.new_ptr options) Hsw) as (mm' & Hmm' & Hl & _ & [Hse _] & _).
    rewrite Hmm in Hmm'. injection Hmm' as <-. split; exists mm; (split; [done|]).
    - intros id s Hs Hg m Hm. unfold session_limit in Hm. rewrite Hl in Hm.
      unfold session_instances. rewrite Hse, hm_values_perm, (sw_ssns _ Hsw _ _ Hs). by eapply Hg.
    - intros x. unfold counter. by rewrite Hse, hm_values_perm. }
  assert (Hn : forall id n, ss_nodes ss !! id = Some n -> ni_name n = id /\ rr_wf (ni_allocatable n))
    by (intros id n Hid; split; [by apply (sw_nodes _ Hsw)|by eapply sp_nodes]).
  assert (Hs : forall id s, ss_sessions ss !! id = Some s -> si_id s = id /\ si_wf s)
    by (intros id s Hs; split; [by apply (sw_ssns _ Hsw)|by eapply Hwf]).
  destruct (run_cycle_limit _ _ _ _ _ _ good Hn (sp_ssns _ _ Hof) Hs c (conj Hinv Hlim))
    as (Hinv' & (mm' & Hh & Hw) & (mm1 & Hh1 & Hcov)).
  exists mm'. split; [done|]. intros id s m Hid Hm Hc.
  destruct (ci_plugins _ _ _ _ _ _ _ _ Hinv') as (mm2 & Hh2 & Hl2 & _).
  pose proof (headed_unique _ _ _ Hh Hh2) as <-. pose proof (headed_unique _ _ _ Hh Hh1) as <-.
  split.
  { specialize (Hcov id). unfold session_instances. rewrite (proj1 (Hs _ _ Hid)).
    unfold counter in Hcov. lia. }
  apply (Hw id s Hid); [|unfold session_limit; by rewrite Hl2].
  intros s' m' Hs' Hm'. by simplify_eq.
Qed.

(** ** Witness *)

(** The two idle executors and the gang of two of [Gang]. *)
Lemma demo_gang_snapshot_of : snapshot_of demo_k (demo_gang_snap 2).
Proof.
  split.
  - apply add_application_wf, add_session_wf; [|done]. apply add_node_wf.
    do 2 (apply add_executor_wf; [|done]). auto with flame.
  - intros id e He. unfold demo_gang_snap in He. simpl in He.
    repeat (apply lookup_insert_Some in He as [[_ <-]|[_ He]]; [repeat split; simpl; width|]).
    by rewrite lookup_empty in He.
  - intros id n Hn. unfold demo_gang_snap in Hn. simpl in Hn.
    apply lookup_insert_Some in Hn as [[_ <-]|[_ Hn]];
      [repeat split; simpl; width|by rewrite lookup_empty in Hn].
  - intros id s rr Hs Hr. unfold demo_gang_snap in Hs. simpl in Hs.
    apply lookup_insert_Some in Hs as [[_ <-]|[_ Hs]];
      [injection Hr as <-; repeat split; simpl; width|by rewrite lookup_empty in Hs].
  - intros id He. unfold demo_gang_snap in He. simpl in He.
    repeat (apply lookup_insert_is_Some in He as [<-|[_ He]]; [simpl; set_solver|]). by destruct He.
  - intros id s app rr Hs Hsp. unfold demo_gang_snap in Hs. simpl in Hs.
    apply lookup_insert_Some in Hs as [[<- <-]|[_ Hs]];
      [|by rewrite lookup_empty in Hs]. by injection Hsp as <- <-.
Qed.

(** The session holds nothing before the cycle and its whole limit after it. *)
Lemma cycle_session_limit_witness :
  held "s1" (demo_gang_snap 2) = 0%nat /\
  held "s1" (cx_snapshot (run_cycle (H := demo_env) (H0 := ListHeap.heap) (demo_gang_ctx 2)).2) = 2%nat /\
  Z.of_nat (held "s1" (cx_snapshot (run_cycle (H := demo_env) (H0 := ListHeap.heap)
    (demo_gang_ctx 2)).2)) <= 2.
Proof.
  split_and!; [by vm_compute|by vm_compute|].
  destruct (@cycle_session_limit demo_env ListHeap.heap DemoController.t _ _ demo_k (demo_gang_snap 2)
    (mkOptions ["drf"] demo_limits) (demo_gang_ctx 2) demo_gang_snapshot_of) as (mm' & Hh & Hw).
  - intros id s Hs. unfold demo_gang_snap in Hs. simpl in Hs.
    apply lookup_insert_Some in Hs as [[_ <-]|[_ Hs]]; [|by rewrite lookup_empty in Hs].
    split; simpl; try intros m [= <-]; width.
  - by vm_compute.
  - etrans; [apply (Hw "s1" (demo_gang 2) 2)|apply (Hw "s1" (demo_gang 2) 2)]; by vm_compute.
Defined.
