(* ===== verification/Events.v ===== *)
(** * Event managers ([common/src/events])

    Events are diagnostics kept per session and task.  The trait
    [EventManager] is a class; [MemoryEventManager] ([events/memory.rs]) is
    its in-memory instance, the one used when nothing is persisted.  The
    conversions between a time and its milliseconds are chrono's: they are
    parameters, with the law the manager relies on. *)
From S2P Require Import Prelude Types.
Local Open Scope Z_scope.

(** [DateTime::timestamp_millis] and [DateTime::from_timestamp_millis].  The
    milliseconds of a time are those of some time. *)
Class Chrono := {
  timestamp_millis : Z -> Z;
  from_timestamp_millis : Z -> option Z;
  from_timestamp_millis_total : forall t, is_Some (from_timestamp_millis (timestamp_millis t))
}.

(** The trait; a method that takes the lock and writes is in [M]. *)
Class EventManager (V : Type) := {
  setup_events : string -> M V unit;
  record_event : EventOwner -> Event -> M V unit;
  find_events : EventOwner -> V -> result (list Event);
  remove_events : string -> M V unit;
  clear : M V unit
}.

Module MemoryEventManager.

Record InMemoryEvent := mkInMemoryEvent { me_code : Z; me_message : string; me_creation_time : Z }.

Abbreviation t := (gmap string (gmap Z (list InMemoryEvent))).

Section memory.
Context `{Chrono}.

Definition new : t := ∅.

Definition to_memory (event : Event) : InMemoryEvent :=
  mkInMemoryEvent (ev_code event) (default EmptyString (ev_message event))
    (timestamp_millis (ev_creation_time event)).

(** [entry(session).or_default().entry(task).or_default().push(..)]. *)
Definition record (owner : EventOwner) (event : Event) : M t unit := fun events =>
  let session_events := default ∅ (events !! eo_session_id owner) in
  let task_events := default [] (session_events !! eo_task_id owner) in
  (Ok tt, <[eo_session_id owner :=
            <[eo_task_id owner := task_events ++ [to_memory event]]> session_events]> events).

(** The loop of [find_events]: an invalid time fails the whole call. *)
Fixpoint to_events (l : list InMemoryEvent) : result (list Event) :=
  match l with
  | [] => Ok []
  | e :: l =>
      creation_time ← ok_or (from_timestamp_millis (me_creation_time e)) EInternal;
      rest ← to_events l;
      Ok (mkEvent (me_code e) (Some (me_message e)) creation_time :: rest)
  end.

Definition find (owner : EventOwner) (events : t) : result (list Event) :=
  match events !! eo_session_id owner with
  | None => Ok []
  | Some session_events =>
      match session_events !! eo_task_id owner with
      | None => Ok []
      | Some task_events => to_events task_events
      end
  end.

Definition remove (session_id : string) : M t unit := modify (delete session_id).

Definition clear_all : M t unit := modify (fun _ => ∅).

#[export] Instance manager : EventManager t := {
  setup_events := fun _ => mret tt;
  record_event := record;
  find_events := find;
  remove_events := remove;
  clear := clear_all
}.

(** ** The specification: a log of operations *)

Inductive ev_op :=
  | EvSetup (session_id : string)
  | EvRecord (owner : EventOwner) (event : Event)
  | EvRemove (session_id : string)
  | EvClear.

Definition apply (op : ev_op) : M t unit :=
  match op with
  | EvSetup s => setup_events s
  | EvRecord o e => record_event o e
  | EvRemove s => remove_events s
  | EvClear => clear
  end.

Definition run (ops : list ev_op) : t := (for_each ops apply new).2.

(** The events recorded for an owner since its session was last removed. *)
Fixpoint log_of (owner : EventOwner) (acc : list Event) (ops : list ev_op) : list Event :=
  match ops with
  | [] => acc
  | EvSetup _ :: ops => log_of owner acc ops
  | EvRecord o e :: ops =>
      log_of owner (if bool_decide (eo_session_id o = eo_session_id owner) &&
                       (eo_task_id o =? eo_task_id owner) then acc ++ [e] else acc) ops
  | EvRemove s :: ops =>
      log_of owner (if bool_decide (s = eo_session_id owner) then [] else acc) ops
  | EvClear :: ops => log_of owner [] ops
  end.

(** An event as it is read back: the message defaults to the empty one, the
    time is rounded to the millisecond. *)
Definition reread (e : Event) : Event :=
  mkEvent (ev_code e) (Some (default EmptyString (ev_message e)))
    (default 0 (from_timestamp_millis (timestamp_millis (ev_creation_time e)))).

Lemma to_events_memory l : to_events (to_memory <$> l) = Ok (reread <$> l).
Proof.
  induction l as [|e l IH]; [done|]. rewrite !fmap_cons. simpl. rewrite IH. unfold reread.
  destruct (from_timestamp_millis_total (ev_creation_time e)) as [t Ht]. by rewrite Ht.
Qed.

(** The events stored for an owner. *)
Definition stored (owner : EventOwner) (events : t) : list InMemoryEvent :=
  default [] (default ∅ (events !! eo_session_id owner) !! eo_task_id owner).

Lemma find_stored owner events l :
  stored owner events = to_memory <$> l -> find owner events = Ok (reread <$> l).
Proof.
  unfold stored, find. destruct (events !! _) as [se|]; simpl.
  - destruct (se !! _) as [te|]; simpl.
    + intros ->. apply to_events_memory.
    + by intros ->%symmetry%fmap_nil_inv.
  - rewrite lookup_empty. simpl. by intros ->%symmetry%fmap_nil_inv.
Qed.

Lemma stored_apply owner op events l :
  stored owner events = to_memory <$> l ->
  (apply op events).1 = Ok tt /\
  stored owner (apply op events).2 = to_memory <$> log_of owner l [op].
Proof.
  intros Hl. destruct op as [s|o e|s|]; simpl; (split; [done|]).
  - done.
  - unfold stored in *.
    destruct (bool_decide_reflect (eo_session_id o = eo_session_id owner)) as [Hs|Hs]; simpl.
    + rewrite Hs, lookup_insert_eq. simpl. destruct (Z.eqb_spec (eo_task_id o) (eo_task_id owner))
        as [Ht|Ht].
      * by rewrite Ht, lookup_insert_eq, Hl, fmap_app.
      * by rewrite lookup_insert_ne.
    + by rewrite lookup_insert_ne.
  - unfold stored in *. simpl. case_bool_decide as Hs.
    + subst. rewrite lookup_delete_eq. simpl. by rewrite lookup_empty.
    + by rewrite lookup_delete_ne.
  - unfold stored. rewrite lookup_empty. simpl. by rewrite lookup_empty.
Qed.

Lemma log_of_cons owner l op ops : log_of owner l (op :: ops) = log_of owner (log_of owner l [op]) ops.
Proof. by destruct op. Qed.

Lemma stored_run owner ops events l :
  stored owner events = to_memory <$> l ->
  (for_each ops apply events).1 = Ok tt /\
  stored owner (for_each ops apply events).2 = to_memory <$> log_of owner l ops.
Proof.
  revert events l. induction ops as [|op ops IH]; intros events l Hl; [done|].
  destruct (stored_apply owner op events l Hl) as [Hok Hst].
  rewrite log_of_cons. cbn [for_each]. unfold mbind, M_bind.
  destruct (apply op events) as [r events']. simpl in Hok, Hst. subst r. by apply IH.
Qed.
End memory.
End MemoryEventManager.
Export (hints) MemoryEventManager.

(** ** Properties *)

(** The in-memory event manager implements the log: after any sequence of
    operations every operation succeeded, and looking up an owner returns, in
    order, exactly the events recorded for it since its session's events were
    last removed, with the time rounded to milliseconds. *)
Theorem memory_events_refine_log `{Chrono} (ops : list MemoryEventManager.ev_op) owner :
  (for_each ops MemoryEventManager.apply MemoryEventManager.new).1 = Ok tt /\
  find_events owner (MemoryEventManager.run ops) =
    Ok (MemoryEventManager.reread <$> MemoryEventManager.log_of owner [] ops).
Proof.
  destruct (MemoryEventManager.stored_run owner ops MemoryEventManager.new []) as [Hok Hst];
    [by vm_compute|].
  split; [done|]. by apply MemoryEventManager.find_stored.
Qed.

(** A chrono that rounds down. *)
Definition demo_chrono : Chrono.
Proof. by refine {| timestamp_millis t := t / 1000000;
                    from_timestamp_millis ms := Some (ms * 1000000) |}. Defined.
