(* ===== verification/Engine.v ===== *)
(** * Storage engines ([common/src/storage/engine])

    The trait [Engine] is a class: an operation is a program on the engine's
    state, and one that reads the clock takes the reading as an argument.
    [EngineSpec] states what the storage relies on; [NoneEngine]
    ([engine/none.rs]), which only keeps the applications, the session
    metadata and the task counters, discharges it. *)
From S2P Require Import Prelude Types Session Filters.
Local Open Scope Z_scope.

(** ** The trait *)

Class Engine (E : Type) := {
  register_application : string -> ApplicationAttributes -> Z -> M E Application;
  update_application_state : string -> ApplicationState -> M E Application;
  delete_application : string -> M E unit;
  update_application : string -> ApplicationAttributes -> M E Application;
  get_application : string -> M E Application;
  find_applications : option ApplicationFilter -> M E (list Application);
  create_session : SessionAttributes -> Z -> M E Session;
  get_session : string -> M E Session;
  open_session : string -> option SessionAttributes -> Z -> M E Session;
  close_session : string -> Z -> M E Session;
  update_session_state : string -> SessionState -> M E Session;
  delete_session : string -> M E Session;
  find_sessions : M E (list Session);
  create_task : string -> option string -> option TaskOptions -> Z -> M E Task;
  get_task : TaskGID -> M E Task;
  retry_task : TaskGID -> M E Task;
  update_task_state : TaskGID -> TaskState -> option string -> Z -> M E Task;
  update_task_result : TaskGID -> TaskResult -> Z -> M E Task;
  find_tasks : string -> M E (list Task);
  create_node : Node -> M E Node;
  get_node : string -> M E (option Node);
  update_node : Node -> M E Node;
  delete_node : string -> M E unit;
  find_nodes : M E (list Node);
  create_executor : Executor -> M E Executor;
  get_executor : string -> M E (option Executor);
  update_executor : Executor -> M E Executor;
  update_executor_state : string -> ExecutorState -> M E Executor;
  delete_executor : string -> M E unit;
  find_executors : option string -> M E (list Executor)
}.

(** A session as [create_session] makes it. *)
Definition session_from (attr : SessionAttributes) (now : Z) : Session :=
  mkSession (sa_id attr) (sa_application attr) 1 (sa_common_data attr) (sa_tokens attr) ∅ ∅
    now None [] SsnOpen (sa_min_instances attr) (sa_max_instances attr) (sa_batch_size attr)
    (sa_priority attr) (sa_resreq attr) 0.

(** An application as [register_application] and [update_application] make it. *)
Definition application_from (name : string) (version : Z) (st : ApplicationState)
    (creation_time : Z) (attr : ApplicationAttributes) : Application :=
  mkApp name version st creation_time (aa_shim attr) (aa_image attr) (aa_description attr)
    (aa_labels attr) (aa_command attr) (aa_arguments attr) (aa_environments attr)
    (aa_working_directory attr) (aa_max_instances attr) (aa_delay_release attr)
    (aa_schema attr) (aa_url attr) (aa_installer attr).

(** The tasks of a session name it. *)
Definition tasks_owned (s : Session) : Prop :=
  forall id t, ssn_tasks s !! id = Some t -> task_ssn_id t = ssn_id s.

(** The session made for the attributes: open and without tasks. *)
Record session_made (attr : SessionAttributes) (s : Session) : Prop := {
  made_id : ssn_id s = sa_id attr;
  made_application : ssn_application s = sa_application attr;
  made_state : ssn_state s = SsnOpen;
  made_tasks : ssn_tasks s = ∅;
  made_index : ssn_tasks_index s = ∅;
  made_tokens : ssn_tokens s = sa_tokens attr;
  made_batch_size : ssn_batch_size s = sa_batch_size attr;
  made_resreq : ssn_resreq s = sa_resreq attr
}.

(** What the storage relies on: the records an engine returns are those asked
    for, whatever else it keeps. *)
Class EngineSpec (E : Type) `{Engine E} := {
  create_session_made : forall attr now e s e',
    create_session attr now e = (Ok s, e') -> session_made attr s;
  open_session_wf : forall id spec now e s e',
    open_session id spec now e = (Ok s, e') -> index_wf s /\ tasks_owned s;
  close_session_closed : forall id now e s e',
    close_session id now e = (Ok s, e') -> ssn_state s = SsnClosed;
  find_sessions_wf : forall e l e', find_sessions e = (Ok l, e') ->
    Forall (fun s => index_wf s /\ ssn_tasks s = ∅) l;
  create_task_gid : forall ssn input options now e t e',
    create_task ssn input options now e = (Ok t, e') -> task_ssn_id t = ssn;
  retry_task_made : forall g e t e',
    retry_task g e = (Ok t, e') -> task_ssn_id t = gid_ssn_id g /\ task_state t = TaskPending;
  update_task_state_made : forall g st msg now e t e',
    update_task_state g st msg now e = (Ok t, e') -> task_ssn_id t = gid_ssn_id g /\ task_state t = st;
  update_task_result_made : forall g r now e t e',
    update_task_result g r now e = (Ok t, e') -> task_ssn_id t = gid_ssn_id g /\ task_state t = tr_state r;
  find_tasks_owned : forall ssn e l e',
    find_tasks ssn e = (Ok l, e') -> Forall (fun t => task_ssn_id t = ssn) l
}.

(** ** The engine that persists nothing *)

Definition wrap_i64 (z : Z) : Z := (z + 2 ^ 63) mod 2 ^ 64 - 2 ^ 63.

Definition app_with_state (st : ApplicationState) (v : Z) (a : Application) : Application :=
  mkApp (app_name a) v st (app_creation_time a) (app_shim a) (app_image a) (app_description a)
    (app_labels a) (app_command a) (app_arguments a) (app_environments a)
    (app_working_directory a) (app_max_instances a) (app_delay_release a) (app_schema a)
    (app_url a) (app_installer a).

Module NoneEngine.

Record t := mk {
  task_counters : gmap string Z;
  applications : gmap string Application;
  sessions : gmap string Session
}.

Definition new : t := mk ∅ ∅ ∅.

Definition with_counters m (e : t) : t := mk m (applications e) (sessions e).
Definition with_applications m (e : t) : t := mk (task_counters e) m (sessions e).
Definition with_sessions m (e : t) : t := mk (task_counters e) (applications e) m.

(** [counter.fetch_add(1) + 1] on the entry, made with 0 if missing. *)
Definition next_task_id (ssn_id : string) : M t Z := fun e =>
  let counter := default 0 (task_counters e !! ssn_id) in
  (Ok (wrap_i64 (counter + 1)),
   with_counters (<[ssn_id := wrap_i64 (counter + 1)]> (task_counters e)) e).

Definition init_task_counter (ssn_id : string) : M t unit :=
  modify (fun e => with_counters (<[ssn_id := 0]> (task_counters e)) e).

Definition remove_task_counter (ssn_id : string) : M t unit :=
  modify (fun e => with_counters (delete ssn_id (task_counters e)) e).

Definition register_application (name : string) (attr : ApplicationAttributes) (now : Z)
    : M t Application := fun e =>
  let app := application_from name 1 AppEnabled now attr in
  match applications e !! name with
  | Some _ => (Err EAlreadyExist, e)
  | None => (Ok app, with_applications (<[name := app]> (applications e)) e)
  end.

Definition update_application_state (id : string) (st : ApplicationState) : M t Application :=
  fun e =>
  match applications e !! id with
  | None => (Err ENotFound, e)
  | Some app =>
      let app := if decide (app_state app = st) then app
                 else app_with_state st (wrap_u32 (app_version app + 1)) app in
      (Ok app, with_applications (<[id := app]> (applications e)) e)
  end.

Definition delete_application (id : string) : M t unit := fun e =>
  match applications e !! id with
  | None => (Err ENotFound, e)
  | Some app =>
      if negb (bool_decide (app_state app = AppDisabled)) then (Err EInvalidState, e)
      else if existsb (fun s => bool_decide (ssn_application s = id)) (map_to_list (sessions e)).*2
      then (Err EInvalidState, e)
      else (Ok tt, with_applications (delete id (applications e)) e)
  end.

Definition update_application (id : string) (attr : ApplicationAttributes) : M t Application :=
  fun e =>
  match applications e !! id with
  | None => (Err ENotFound, e)
  | Some app =>
      if negb (bool_decide (app_state app = AppEnabled)) then (Err EInvalidState, e)
      else
        let updated := application_from id (wrap_u32 (app_version app + 1)) (app_state app)
                         (app_creation_time app) attr in
        (Ok updated, with_applications (<[id := updated]> (applications e)) e)
  end.

Definition get_application (id : string) : M t Application := fun e =>
  (ok_or (applications e !! id) ENotFound, e).

Definition create_session (attr : SessionAttributes) (now : Z) : M t Session :=
  let session := session_from attr now in
  modify (fun e => with_sessions (<[ssn_id session := session]> (sessions e)) e) ≫= fun _ =>
  init_task_counter (ssn_id session) ≫= fun _ =>
  mret session.

Definition get_session (id : string) : M t Session := throw ENotFound.

Definition open_session (id : string) (spec : option SessionAttributes) (now : Z) : M t Session :=
  match spec with Some attr => create_session attr now | None => throw ENotFound end.

Definition close_session (id : string) (now : Z) : M t Session := fun e =>
  match sessions e !! id with
  | None => (Err ENotFound, e)
  | Some s =>
      let s := if decide (ssn_state s = SsnClosed) then s
               else session_with_completion SsnClosed (Some now) (wrap_u32 (ssn_version s + 1)) s in
      (Ok s, with_sessions (<[id := s]> (sessions e)) e)
  end.

Definition update_session_state (id : string) (st : SessionState) : M t Session := fun e =>
  match sessions e !! id with
  | None => (Err ENotFound, e)
  | Some s =>
      if is_closed s then (Err EInvalidState, e)
      else
        let s := session_with_state st s in
        (Ok s, with_sessions (<[id := s]> (sessions e)) e)
  end.

Definition delete_session (id : string) : M t Session := fun e =>
  match sessions e !! id with
  | None => (Err ENotFound, e)
  | Some s =>
      (remove_task_counter id ≫= fun _ => mret s) (with_sessions (delete id (sessions e)) e)
  end.

Definition create_task (ssn : string) (input : option string) (options : option TaskOptions)
    (now : Z) : M t Task :=
  next_task_id ssn ≫= fun id =>
  mret (mkTask id ssn 1 input None (default ∅ (to_affinity <$> options)) now None [] TaskPending).

Section none_engine.
Context `{Env}.

Definition find_applications (filter : option ApplicationFilter) : M t (list Application) :=
  gets (fun e =>
    List.filter (fun app => is_none_or filter (fun f =>
        is_none_or (af_state f) (fun st => bool_decide (app_state app = st))))
      (hm_values (applications e))).

#[export] Instance engine : Engine t := {
  register_application := register_application;
  update_application_state := update_application_state;
  delete_application := delete_application;
  update_application := update_application;
  get_application := get_application;
  find_applications := find_applications;
  create_session := create_session;
  get_session := get_session;
  open_session := open_session;
  close_session := close_session;
  update_session_state := update_session_state;
  delete_session := delete_session;
  find_sessions := mret [];
  create_task := create_task;
  get_task := fun _ => throw ENotFound;
  retry_task := fun _ => throw ENotFound;
  update_task_state := fun _ _ _ _ => throw ENotFound;
  update_task_result := fun _ _ _ => throw ENotFound;
  find_tasks := fun _ => mret [];
  create_node := fun n => mret n;
  get_node := fun _ => mret None;
  update_node := fun n => mret n;
  delete_node := fun _ => mret tt;
  find_nodes := mret [];
  create_executor := fun x => mret x;
  get_executor := fun _ => mret None;
  update_executor := fun x => mret x;
  update_executor_state := fun _ _ => throw ENotFound;
  delete_executor := fun _ => mret tt;
  find_executors := fun _ => mret []
}.
End none_engine.
End NoneEngine.
Export (hints) NoneEngine.

(** ** The contract holds of it *)

Lemma no_tasks_wf s : ssn_tasks s = ∅ -> ssn_tasks_index s = ∅ -> index_wf s.
Proof.
  intros Ht Hi. split; unfold index_lookup; rewrite ?Ht, ?Hi; intros *; rewrite ?lookup_empty; done.
Qed.

Lemma no_tasks_owned s : ssn_tasks s = ∅ -> tasks_owned s.
Proof. intros Ht id t. by rewrite Ht, lookup_empty. Qed.

Lemma session_from_wf attr now : index_wf (session_from attr now).
Proof. by apply no_tasks_wf. Qed.

Lemma session_made_wf attr s : session_made attr s -> index_wf s.
Proof. intros Hs. apply no_tasks_wf; apply Hs. Qed.

#[export] Hint Resolve session_from_wf : flame.

#[export] Instance none_engine_spec `{Env} : EngineSpec NoneEngine.t.
Proof.
  split; try done.
  - by intros attr now e s e' [= <- _]; split.
  - intros id [attr|] now e s e' Ho; [|done]. injection Ho as <- _. split; [apply session_from_wf|].
    intros tid t. simpl. by rewrite lookup_empty.
  - intros id now e s e' Hc. simpl in Hc. unfold NoneEngine.close_session in Hc.
    destruct (NoneEngine.sessions e !! id) as [x|]; [|done]. injection Hc as <- _.
    by case_decide.
  - by intros e l e' [= <- _].
  - by intros ssn input options now e t e' [= <- _].
  - by intros ssn e l e' [= <- _].
Qed.

(** ** Properties *)

(** The identifiers [create_task] returns for a sequence of calls, by session. *)
Fixpoint create_tasks (calls : list (string * Z)) (e : NoneEngine.t) : list (string * Z) :=
  match calls with
  | [] => []
  | (ssn, now) :: calls =>
      let '(r, e') := NoneEngine.create_task ssn None None now e in
      match r with Ok t => (ssn, task_id t) :: create_tasks calls e' | _ => create_tasks calls e' end
  end.

Definition ids_of (ssn : string) (l : list (string * Z)) : list Z :=
  snd <$> List.filter (fun p => bool_decide (p.1 = ssn)) l.

Lemma ids_of_cons ssn p l :
  ids_of ssn (p :: l) = if bool_decide (p.1 = ssn) then p.2 :: ids_of ssn l else ids_of ssn l.
Proof. unfold ids_of. simpl. by destruct (bool_decide _). Qed.

Lemma wrap_i64_small z : 0 <= z < 2 ^ 63 -> wrap_i64 z = z.
Proof. intros. unfold wrap_i64. rewrite Z.mod_small; lia. Qed.

Lemma create_tasks_ids ssn calls e n :
  default 0 (NoneEngine.task_counters e !! ssn) = n -> 0 <= n ->
  n + Z.of_nat (length calls) < 2 ^ 63 ->
  ids_of ssn (create_tasks calls e) =
    (fun i => n + 1 + Z.of_nat i) <$> seq 0 (count (fun c => bool_decide (c.1 = ssn)) calls).
Proof.
  revert e n. induction calls as [|[s now] calls IH]; intros e n Hn H0 Hlt; [done|].
  rewrite count_cons. simpl length in Hlt. cbn [create_tasks]. simpl. rewrite ids_of_cons. simpl.
  destruct (bool_decide_reflect (s = ssn)) as [->|Hne]; simpl.
  - rewrite Hn, wrap_i64_small by lia. rewrite (IH _ (n + 1)); [|simpl|lia|lia].
    + f_equal; [lia|]. rewrite <-fmap_S_seq, <-list_fmap_compose.
      apply list_fmap_ext. intros i k _. simpl. lia.
    + by rewrite lookup_insert_eq.
  - apply (IH _ n); [|lia|lia]. simpl. by rewrite lookup_insert_ne.
Qed.

(** Task identifiers are sequential per session: after a session is created
    in the in-memory engine, the tasks created for it, interleaved with those
    of other sessions in any order, get the identifiers 1, 2, 3, ... as long as
    fewer than 2^63 - 1 tasks are created. *)
Theorem none_engine_task_ids attr now calls e s e' :
  NoneEngine.create_session attr now e = (Ok s, e') ->
  Z.of_nat (length calls) < 2 ^ 63 - 1 ->
  ids_of (sa_id attr) (create_tasks calls e') =
    (fun i => Z.of_nat (S i)) <$> seq 0 (count (fun c => bool_decide (c.1 = sa_id attr)) calls).
Proof.
  intros Hc Hlt. injection Hc as <- <-. rewrite (create_tasks_ids _ _ _ 0); [|simpl|lia|lia].
  - apply list_fmap_ext. intros i k _. lia.
  - by rewrite lookup_insert_eq.
Qed.

(** Deleting an application from the in-memory engine succeeds exactly when
    it exists, is disabled and no session uses it; it then removes exactly
    that application, and every refusal leaves the engine as it was. *)
Theorem none_engine_delete_application id e :
  let '(r, e') := NoneEngine.delete_application id e in
  (r = Ok tt <->
     (exists a, NoneEngine.applications e !! id = Some a /\ app_state a = AppDisabled) /\
     forall k s, NoneEngine.sessions e !! k = Some s -> ssn_application s <> id) /\
  (r = Err ENotFound <-> NoneEngine.applications e !! id = None) /\
  e' = if is_ok r
       then NoneEngine.with_applications (delete id (NoneEngine.applications e)) e else e.
Proof.
  unfold NoneEngine.delete_application.
  destruct (NoneEngine.applications e !! id) as [a|] eqn:Ha.
  2:{ split_and!; [|done|done]. split; [done|]. by intros [(a & ? & _) _]. }
  case_bool_decide as Hd; simpl.
  2:{ split_and!; [|done|done]. split; [done|]. intros [(a' & [= ->] & ?) _]. done. }
  destruct (existsb _ _) eqn:Hex.
  - split_and!; [|done|done]. split; [done|]. intros [_ Hno].
    apply existsb_exists in Hex as (s & Hin & Hs). apply list_elem_of_In in Hin.
    apply list_elem_of_fmap in Hin as ([k s'] & -> & Hin%elem_of_map_to_list).
    apply bool_decide_eq_true in Hs. by destruct (Hno k s').
  - split_and!; [|done|done]. split; [|done]. intros _. split; [eauto|]. intros k s Hs Happ.
    apply not_true_iff_false in Hex. apply Hex, existsb_exists. exists s.
    rewrite <-list_elem_of_In, list_elem_of_fmap. split; [|by apply bool_decide_eq_true].
    exists (k, s). by rewrite elem_of_map_to_list.
Qed.

(** ** Witnesses *)

Definition demo_attr : SessionAttributes := mkSsnAttr "s1" "app" None ∅ 0 None 1 0 (Some (mkRR 1 1 0)).

Lemma none_engine_task_ids_witness :
  ids_of "s1" (create_tasks [("s1", 1); ("s2", 2); ("s1", 3)]
                 (NoneEngine.create_session demo_attr 0 NoneEngine.new).2) = [1; 2].
Proof.
  refine (none_engine_task_ids demo_attr 0 [("s1", 1); ("s2", 2); ("s1", 3)] NoneEngine.new
            (session_from demo_attr 0) _ _ _).
  - by vm_compute.
  - simpl. lia.
Defined.
