(* ===== verification/Storage.v ===== *)
(** * The storage ([common/src/storage/mod.rs])

    The cache of sessions, executors, nodes and applications in front of an
    engine and an event manager, both behind their interfaces.  A [SessionPtr],
    [ExecutorPtr] or [NodePtr] is the identifier of a cached object: locking it
    reads the cache entry, writing through it changes the entry.  An operation
    is one atomic step. *)
From stdpp Require Import pretty.
From S2P Require Import Prelude Types Session Filters Order Events Engine.
Local Open Scope Z_scope.

Record Storage (E V : Type) := mkStorage {
  st_engine : E;
  st_sessions : gmap string Session;
  st_executors : gmap string Executor;
  st_nodes : gmap string Node;
  st_applications : gmap string Application;
  st_event_manager : V;
  st_max_sessions : option nat;
  st_retry_limits : Z;
  st_clock : nat;
  st_uuids : nat
}.
Arguments mkStorage {E V}.
Arguments st_engine {E V}.
Arguments st_sessions {E V}.
Arguments st_executors {E V}.
Arguments st_nodes {E V}.
Arguments st_applications {E V}.
Arguments st_event_manager {E V}.
Arguments st_max_sessions {E V}.
Arguments st_retry_limits {E V}.
Arguments st_clock {E V}.
Arguments st_uuids {E V}.

Record StorageSnapshot := mkStorageSnapshot {
  sn_applications : list Application;
  sn_sessions : list Session;
  sn_executors : list Executor;
  sn_nodes : list Node
}.

(** The discriminant and the [Debug] text of a task state. *)
Definition task_state_code (s : TaskState) : Z :=
  match s with
  | TaskPending => 0 | TaskRunning => 1 | TaskSucceed => 2 | TaskFailed => 3 | TaskCancelled => 4
  end.

Definition task_state_name (s : TaskState) : string :=
  match s with
  | TaskPending => "Pending" | TaskRunning => "Running" | TaskSucceed => "Succeed"
  | TaskFailed => "Failed" | TaskCancelled => "Cancelled"
  end.

(** [btree.values()]: by increasing key. *)
Definition btree_values {A} (m : gmap Z A) : list A :=
  (sort_by (fun a b => Z.compare a.1 b.1) (map_to_list m)).*2.

Definition owner_of_gid (g : TaskGID) : EventOwner := mkEventOwner (gid_task_id g) (gid_ssn_id g).
Definition owner_of_task (t : Task) : EventOwner := mkEventOwner (task_id t) (task_ssn_id t).

Section storage.
Context `{Env} {E V : Type} `{Engine E} `{EventManager V}.

Abbreviation St := (Storage E V).
Abbreviation SM := (M (Storage E V)).

(** A new storage over an engine and an event manager. *)
Definition new (engine : E) (events : V) (max_sessions : option nat) (retry_limits : Z) : St :=
  mkStorage engine ∅ ∅ ∅ ∅ events max_sessions retry_limits 0 0.

(** ** Access to the parts *)

Definition with_engine (x : E) (s : St) : St :=
  mkStorage x (st_sessions s) (st_executors s) (st_nodes s) (st_applications s)
    (st_event_manager s) (st_max_sessions s) (st_retry_limits s) (st_clock s) (st_uuids s).
Definition with_sessions (x : gmap string Session) (s : St) : St :=
  mkStorage (st_engine s) x (st_executors s) (st_nodes s) (st_applications s)
    (st_event_manager s) (st_max_sessions s) (st_retry_limits s) (st_clock s) (st_uuids s).
Definition with_executors (x : gmap string Executor) (s : St) : St :=
  mkStorage (st_engine s) (st_sessions s) x (st_nodes s) (st_applications s)
    (st_event_manager s) (st_max_sessions s) (st_retry_limits s) (st_clock s) (st_uuids s).
Definition with_nodes (x : gmap string Node) (s : St) : St :=
  mkStorage (st_engine s) (st_sessions s) (st_executors s) x (st_applications s)
    (st_event_manager s) (st_max_sessions s) (st_retry_limits s) (st_clock s) (st_uuids s).
Definition with_applications (x : gmap string Application) (s : St) : St :=
  mkStorage (st_engine s) (st_sessions s) (st_executors s) (st_nodes s) x
    (st_event_manager s) (st_max_sessions s) (st_retry_limits s) (st_clock s) (st_uuids s).
Definition with_events (x : V) (s : St) : St :=
  mkStorage (st_engine s) (st_sessions s) (st_executors s) (st_nodes s) (st_applications s)
    x (st_max_sessions s) (st_retry_limits s) (st_clock s) (st_uuids s).
Definition with_counters (clock uuids : nat) (s : St) : St :=
  mkStorage (st_engine s) (st_sessions s) (st_executors s) (st_nodes s) (st_applications s)
    (st_event_manager s) (st_max_sessions s) (st_retry_limits s) clock uuids.

(** [Utc::now()] and [Uuid::new_v4().to_string()]. *)
Definition now : SM Z := fun s =>
  (Ok (utc_now (st_clock s)), with_counters (S (st_clock s)) (st_uuids s) s).
Definition uuid : SM string := fun s =>
  (Ok (new_uuid (st_uuids s)), with_counters (st_clock s) (S (st_uuids s)) s).

Definition engine {A} (m : M E A) : SM A := zoom st_engine with_engine m.
Definition events {A} (m : M V A) : SM A := zoom st_event_manager with_events m.

(** A failure of the event manager is logged and replaced by the default. *)
Definition event_result {A} (dflt : A) (m : SM A) : SM A :=
  r ← attempt m;
  mret (match r with Ok a => a | _ => dflt end).

Definition put_session (id : string) (x : Session) : SM unit :=
  modify (fun s => with_sessions (<[id := x]> (st_sessions s)) s).
Definition put_executor (id : string) (x : Executor) : SM unit :=
  modify (fun s => with_executors (<[id := x]> (st_executors s)) s).
Definition put_node (name : string) (x : Node) : SM unit :=
  modify (fun s => with_nodes (<[name := x]> (st_nodes s)) s).
Definition put_application (name : string) (x : Application) : SM unit :=
  modify (fun s => with_applications (<[name := x]> (st_applications s)) s).

Definition session_retry_limits (s : St) : Z := st_retry_limits s.

(** ** The snapshot *)

(** A suspended session holds no executor and has no demand. *)
Definition snapshot (s : St) : StorageSnapshot :=
  mkStorageSnapshot (hm_values (st_applications s))
    (List.filter (fun x => negb (is_suspended x)) (hm_values (st_sessions s)))
    (hm_values (st_executors s)) (hm_values (st_nodes s)).

(** ** Lookups *)

Definition get_session_ptr (id : string) : SM Session :=
  x ← gets (fun s => st_sessions s !! id);
  lift (ok_or x ENotFound).

(** [event_result(self.event_manager.find_events(owner), "load", ..)]. *)
Definition load_events (owner : EventOwner) : SM (list Event) :=
  event_result [] (fun s => (find_events owner (st_event_manager s), s)).

Definition get_session (id : string) : SM Session :=
  x ← get_session_ptr id;
  evs ← load_events (session_owner (ssn_id x));
  mret (session_with_events evs x).

Definition get_task_ptr (g : TaskGID) : SM Task :=
  x ← get_session_ptr (gid_ssn_id g);
  lift (ok_or (ssn_tasks x !! gid_task_id g) ENotFound).

Definition get_task_metadata (ssn : string) (id : Z) : SM Task :=
  t ← get_task_ptr (mkGID ssn id);
  mret (task_with_events [] t).

Definition get_task (ssn : string) (id : Z) : SM Task :=
  t ← get_task_metadata ssn id;
  evs ← load_events (owner_of_gid (gid t));
  mret (task_with_events evs t).

Definition get_executor_ptr (id : string) : SM Executor :=
  x ← gets (fun s => st_executors s !! id);
  lift (ok_or x ENotFound).

Definition get_node (name : string) : SM (option Node) := gets (fun s => st_nodes s !! name).

Definition get_node_ptr (name : string) : SM Node :=
  x ← gets (fun s => st_nodes s !! name);
  lift (ok_or x ENotFound).

Definition list_nodes : SM (list Node) := gets (fun s => hm_values (st_nodes s)).

(** The fields of a filter a session must match. *)
Definition session_matches (filter : option SessionFilter) (x : Session) : bool :=
  is_none_or filter (fun f =>
    is_none_or (sf_application f) (fun app => bool_decide (ssn_application x = app)) &&
    is_none_or (sf_state f) (fun st => bool_decide (ssn_state x = st)) &&
    is_none_or (sf_ids f) (fun ids => contains ids (ssn_id x))).

Definition session_ready (filter : option SessionFilter) (limits : Z) (x : Session) : bool :=
  is_none_or (filter ≫= sf_predicate) (fun p => matches p (ssn_retry_count x) limits).

(** The loop of [list_sessions]: it stops once the limit is reached. *)
Fixpoint list_sessions_loop (filter : option SessionFilter) (l : list Session)
    (acc : list Session) : SM (list Session) :=
  match l with
  | [] => mret acc
  | x :: l =>
      evs ← load_events (session_owner (ssn_id x));
      let x := session_with_events evs x in
      if negb (session_matches filter x) then list_sessions_loop filter l acc
      else
        limits ← gets session_retry_limits;
        if negb (session_ready filter limits x) then list_sessions_loop filter l acc
        else
          let acc := acc ++ [x] in
          if is_some_and (filter ≫= sf_limit) (fun n => (n <=? length acc)%nat) then mret acc
          else list_sessions_loop filter l acc
  end.

Definition list_sessions (filter : option SessionFilter) : SM (list Session) :=
  if bool_decide (filter ≫= sf_limit = Some 0%nat) then mret []
  else
    l ← gets (fun s => hm_values (st_sessions s));
    list_sessions_loop filter l [].

Definition count_session (filter : SessionFilter) : SM nat :=
  l ← list_sessions (Some filter);
  mret (length l).

Definition executor_matches (f : ExecutorFilter) (x : Executor) : bool :=
  is_none_or (ef_state f) (fun st => bool_decide (ex_state x = st)) &&
  is_none_or (ef_node f) (fun n => bool_decide (ex_node x = n)) &&
  is_none_or (ef_ids f) (fun ids => contains ids (ex_id x)).

Definition list_executors (filter : option ExecutorFilter) : SM (list Executor) :=
  gets (fun s =>
    match filter with
    | None => hm_values (st_executors s)
    | Some f => List.filter (executor_matches f) (hm_values (st_executors s))
    end).

Definition session_application (id : string) : SM string :=
  cached ← gets (fun s => st_sessions s !! id);
  match cached with
  | Some x => mret (ssn_application x)
  | None => x ← engine (Engine.get_session id); mret (ssn_application x)
  end.

(** ** Events *)

(** A closed session records nothing: its events were removed. *)
Definition record_event (owner : EventOwner) (event : Event) : SM unit :=
  x ← get_session_ptr (eo_session_id owner);
  if bool_decide (ssn_state x = SsnClosed) then mret tt
  else event_result tt (events (Events.record_event owner event)).

(** ** Eviction of closed sessions *)

Definition closed_time (x : Session) : Z := default (ssn_creation_time x) (ssn_completion_time x).

(** The closed sessions with their completion times, oldest first. *)
Definition closed_sessions (m : gmap string Session) : list (string * Z) :=
  sort_by (fun a b => Z.compare a.2 b.2)
    (omap (fun kx => if is_closed kx.2 then Some (kx.1, closed_time kx.2) else None)
       (hm_iter m)).

(** [while ssn_map.len() >= max], with fuel. *)
Fixpoint evict_loop (fuel : nat) (max : nat) (m : gmap string Session)
    : option (gmap string Session) :=
  match fuel with
  | O => None
  | S fuel =>
      if (max <=? size m)%nat then
        match closed_sessions m with
        | [] => Some m
        | (id, _) :: _ => evict_loop fuel max (delete id m)
        end
      else Some m
  end.

(** Every turn of the loop but the last removes a session, so one more turn
    than there are sessions is enough ([evict_loop_total]). *)
Definition evict_sessions : SM unit := modify (fun s =>
  match st_max_sessions s with
  | None => s
  | Some max => with_sessions (default (st_sessions s)
                  (evict_loop (S (size (st_sessions s))) max (st_sessions s))) s
  end).

(** ** Nodes *)

Definition register_node (node : Node) : SM unit :=
  exists_ ← gets (fun s => bool_decide (is_Some (st_nodes s !! node_name node)));
  (if (exists_ : bool) then engine (Engine.update_node node)
   else engine (Engine.create_node node)) ≫= fun _ =>
  put_node (node_name node) node.

(** The engine first, then the cache. *)
Definition update_node_state (name : string) (st : NodeState) : SM unit :=
  cached ← gets (fun s => st_nodes s !! name);
  match cached with
  | None => mret tt
  | Some node =>
      engine (Engine.update_node (node_with_state st node)) ≫= fun _ =>
      modify (fun s => with_nodes (alter (node_with_state st) name (st_nodes s)) s)
  end.

Definition sync_node (node : Node) (executors : list Executor) : SM (list Executor) :=
  register_node node ≫= fun _ =>
  gets (fun s => List.filter (fun x => bool_decide (ex_node x = node_name node))
                   (hm_values (st_executors s))).

Definition release_node (name : string) : SM unit :=
  engine (Engine.delete_node name) ≫= fun _ =>
  modify (fun s => with_nodes (delete name (st_nodes s)) s).

(** ** Executors *)

Definition create_executor (node : string) (ssn : string) : SM Executor :=
  x ← get_session_ptr ssn;
  resreq ← lift (ok_or (ssn_resreq x) EInvalidState);
  shim ← gets (fun s => match st_applications s !! ssn_application x with
                        | Some app => app_shim app | None => ShimHost end);
  t ← now;
  id ← uuid;
  let e := mkExecutor id node resreq shim (ssn_application x) None None ∅ t t ExecVoid None in
  engine (Engine.create_executor e) ≫= fun _ =>
  put_executor id e ≫= fun _ =>
  mret e.

(** The cached executor takes the state, the binding and the timestamp. *)
Definition update_executor (executor : Executor) : SM unit :=
  engine (Engine.update_executor executor) ≫= fun _ =>
  cached ← gets (fun s => st_executors s !! ex_id executor);
  match cached with
  | None => mret tt
  | Some x =>
      t ← now;
      put_executor (ex_id executor)
        (executor_with_timestamp (ex_latest_updated_timestamp executor)
           (executor_with_binding (ex_task_id executor) (ex_ssn_id executor)
              (set_state (ex_state executor) t x)))
  end.

Definition delete_executor (id : string) : SM unit :=
  engine (Engine.delete_executor id) ≫= fun _ =>
  modify (fun s => with_executors (delete id (st_executors s)) s).

(** [match self.engine.retry_task(gid).await]: the retried task replaces the
    cached one; a failure is logged. *)
Definition retry_cached (g : TaskGID) : SM unit :=
  r ← attempt (engine (Engine.retry_task g));
  match r with
  | Ok t =>
      modify (fun s => with_sessions (alter (update_task t) (gid_ssn_id g) (st_sessions s)) s)
  | _ => mret tt
  end.

Fixpoint delete_executors (executors : list Executor) : SM (list string) :=
  match executors with
  | [] => mret []
  | x :: executors =>
      match ex_task_id x, ex_ssn_id x with
      | Some task, Some ssn => retry_cached (mkGID ssn task)
      | _, _ => mret tt
      end ≫= fun _ =>
      r ← attempt (delete_executor (ex_id x));
      ids ← delete_executors executors;
      mret (if is_ok r then ex_id x :: ids else ids)
  end.

(** ** Sessions *)

Definition create_session (attr : SessionAttributes) : SM Session :=
  t ← now;
  ssn ← engine (Engine.create_session attr t);
  event_result tt (events (setup_events (ssn_id ssn))) ≫= fun _ =>
  put_session (ssn_id ssn) ssn ≫= fun _ =>
  evict_sessions ≫= fun _ =>
  mret ssn.

(** The cancelled copy of a pending task. *)
Definition cancel_task (completion_time : Z) (t : Task) : Task :=
  task_with_completion TaskCancelled (wrap_u32 (task_version t + 1)) (Some completion_time)
    (task_output t) t.

(** [for task_ptr in pending_tasks { ssn.update_task(&cancelled)? }]. *)
Definition cancel_pending (completion_time : Z) (x : Session) : Session :=
  foldl (fun x t => update_task (cancel_task completion_time t) x) x
    (btree_values (pending_index x)).

(** The update of the cached session when it closes. *)
Definition close_cached (persisted : option Session) (completion_time : Z) (x : Session)
    : Session :=
  let x := session_with_completion (default SsnClosed (ssn_state <$> persisted))
             (Some completion_time)
             (default (wrap_u32 (ssn_version x + 1)) (ssn_version <$> persisted)) x in
  session_with_events [] (cancel_pending completion_time x).

Definition close_session (id : string) : SM Session :=
  x ← get_session_ptr id;
  if is_some_and (ssn_tasks_index x !! TaskRunning) (fun m => negb (bool_decide (m = ∅)))
  then throw EStorage
  else
    t ← now;
    r ← attempt (engine (Engine.close_session id t));
    persisted ← match r with
                | Ok p => mret (Some p)
                | Err ENotFound => mret None
                | Err e => throw e
                | Panic => lift Panic
                end;
    completion_time ← match persisted ≫= ssn_completion_time with
                      | Some ct => mret ct
                      | None => now
                      end;
    x ← get_session_ptr id;
    let x := close_cached persisted completion_time x in
    put_session id x ≫= fun _ =>
    event_result tt (events (remove_events id)) ≫= fun _ =>
    evict_sessions ≫= fun _ =>
    mret x.

(** The cached state is set first and restored if the engine fails. *)
Definition update_session_state (id : string) (st : SessionState) : SM Session :=
  x ← get_session_ptr id;
  lift (ensure (negb (is_closed x)) EInvalidState) ≫= fun _ =>
  let previous := ssn_state x in
  put_session id (session_with_state st x) ≫= fun _ =>
  r ← attempt (engine (Engine.update_session_state id st));
  match r with
  | Ok _ | Err ENotFound => get_session_ptr id
  | Err e =>
      x ← get_session_ptr id;
      (if decide (ssn_state x = st) then put_session id (session_with_state previous x)
       else mret tt) ≫= fun _ =>
      throw e
  | Panic => lift Panic
  end.

Definition open_session (id : string) (spec : option SessionAttributes) : SM Session :=
  cached ← gets (fun s => st_sessions s !! id);
  let from_engine :=
    t ← now;
    ssn ← engine (Engine.open_session id spec t);
    put_session (ssn_id ssn) ssn ≫= fun _ =>
    evict_sessions ≫= fun _ =>
    mret ssn in
  match cached with
  | None => from_engine
  | Some x =>
      if is_suspending x || is_suspended x then throw EInvalidState
      else if decide (ssn_state x = SsnOpen) then
        match spec with Some attr => lift (validate_spec x attr) | None => mret tt end ≫= fun _ =>
        mret x
      else from_engine
  end.

(** A detached pointer to the deleted session is also marked closed; no
    cached object is. *)
Definition delete_session (id : string) : SM Session :=
  cached ← gets (fun s => st_sessions s !! id);
  ssn ← match cached with
        | Some x =>
            r ← attempt (engine (Engine.delete_session id));
            match r with
            | Ok _ | Err ENotFound => mret x
            | Err e => throw e
            | Panic => lift Panic
            end
        | None => engine (Engine.delete_session id)
        end;
  modify (fun s => with_sessions (delete id (st_sessions s)) s) ≫= fun _ =>
  event_result tt (events (remove_events id)) ≫= fun _ =>
  mret ssn.

(** ** Tasks *)

Definition create_task (ssn : string) (input : option string) (options : option TaskOptions)
    : SM Task :=
  x ← get_session_ptr ssn;
  if is_closed x then throw EInvalidState
  else
    now0 ← now;
    t ← engine (Engine.create_task ssn input options now0);
    x ← get_session_ptr ssn;
    if is_closed x then throw EInvalidState
    else
      put_session ssn (update_task t x) ≫= fun _ =>
      now1 ← now;
      record_event (owner_of_task t)
        (mkEvent (task_state_code (task_state t))
           (Some ("Task was created with state <" +:+ task_state_name (task_state t) +:+ ">"))
           now1) ≫= fun _ =>
      mret t.

Definition update_task_state (ssn : string) (task : Task) (st : TaskState)
    (message : option string) : SM unit :=
  x ← get_session_ptr ssn;
  let g := mkGID (ssn_id x) (task_id task) in
  if is_closed x then throw EInvalidState
  else
    now0 ← now;
    r ← attempt (engine (Engine.update_task_state g st message now0));
    updated ← match r with
              | Ok t => mret t
              | Err ENotFound => mret (task_with_state st (wrap_u32 (task_version task + 1)) task)
              | Err e => throw e
              | Panic => lift Panic
              end;
    x ← get_session_ptr ssn;
    if is_closed x then throw EInvalidState
    else
      put_session ssn (update_task updated x) ≫= fun _ =>
      now1 ← now;
      record_event (owner_of_gid (gid updated))
        (mkEvent (task_state_code st)
           (Some ("Task state was updated to <" +:+ task_state_name st +:+ ">")) now1).

Definition result_message (st : TaskState) (message : option string) : string :=
  match st with
  | TaskFailed =>
      default ("Task failed with state <" +:+ task_state_name st +:+ ">") message
  | _ => "Task was completed with state <" +:+ task_state_name st +:+ ">"
  end.

Definition update_task_result (ssn : string) (task : Task) (result : TaskResult) : SM unit :=
  x ← get_session_ptr ssn;
  let g := mkGID (ssn_id x) (task_id task) in
  if is_closed x then throw EInvalidState
  else
    now0 ← now;
    r ← attempt (engine (Engine.update_task_result g result now0));
    updated ← match r with
              | Ok t => mret t
              | Err ENotFound =>
                  ct ← now;
                  mret (task_with_completion (tr_state result) (wrap_u32 (task_version task + 1))
                          (Some ct) (tr_output result) task)
              | Err e => throw e
              | Panic => lift Panic
              end;
    x ← get_session_ptr ssn;
    if is_closed x then throw EInvalidState
    else
      put_session ssn (update_task updated x) ≫= fun _ =>
      now1 ← now;
      record_event (owner_of_gid (gid updated))
        (mkEvent (task_state_code (task_state updated))
           (Some (result_message (tr_state result) (tr_message result))) now1).

(** ** Applications *)

Definition get_application (id : string) : SM Application := engine (Engine.get_application id).

Definition register_application (name : string) (attr : ApplicationAttributes) : SM unit :=
  t ← now;
  app ← engine (Engine.register_application name attr t);
  put_application (app_name app) app.

Definition update_application_state (name : string) (st : ApplicationState) : SM Application :=
  app ← engine (Engine.update_application_state name st);
  put_application name app ≫= fun _ =>
  mret app.

Definition delete_application (name : string) : SM unit :=
  engine (Engine.delete_application name) ≫= fun _ =>
  modify (fun s => with_applications (delete name (st_applications s)) s).

Definition update_application (name : string) (attr : ApplicationAttributes) : SM unit :=
  app ← engine (Engine.update_application name attr);
  put_application name app.

Definition list_applications (filter : option ApplicationFilter) : SM (list Application) :=
  engine (Engine.find_applications filter).

(** ** Recovery *)

(** The tasks of a recovered session; one that was running is retried. *)
Fixpoint load_tasks (tasks : list Task) (x : Session) : SM Session :=
  match tasks with
  | [] => mret x
  | t :: tasks =>
      t ← (if bool_decide (task_state t = TaskRunning) && bool_decide (ssn_state x = SsnOpen)
           then engine (Engine.retry_task (gid t)) else mret t);
      load_tasks tasks (update_task t x)
  end.

Definition load_session (x : Session) : SM unit :=
  event_result tt (events (if decide (ssn_state x = SsnClosed) then remove_events (ssn_id x)
                           else setup_events (ssn_id x))) ≫= fun _ =>
  tasks ← engine (find_tasks (ssn_id x));
  x ← load_tasks tasks x;
  put_session (ssn_id x) x.

(** An executor whose binding was cut short by a restart is idle again. *)
Definition load_executor (x : Executor) : SM unit :=
  x ← (if decide (ex_state x = ExecBinding) then
         t ← now;
         let recovered := executor_with_binding (ex_task_id x) None (set_state ExecIdle t x) in
         engine (Engine.update_executor recovered) ≫= fun _ =>
         mret recovered
       else mret x);
  put_executor (ex_id x) x.

Definition load_data : SM unit :=
  ssns ← engine find_sessions;
  for_each ssns load_session ≫= fun _ =>
  apps ← engine (Engine.find_applications None);
  for_each apps (fun a => put_application (app_name a) a) ≫= fun _ =>
  nodes ← engine find_nodes;
  for_each nodes (fun n => put_node (node_name n) n) ≫= fun _ =>
  execs ← engine (find_executors None);
  for_each execs load_executor.
End storage.
