(* ===== verification/StorageInv.v ===== *)
(** * The storage keeps its caches well formed

    The invariant of the storage, that every operation keeps it, and the
    properties of eviction, closing, the task operations and the listings. *)
From S2P Require Import Prelude Types Session Filters Snapshot Order Events Engine Storage.
Local Open Scope Z_scope.

(** ** What an operation does not touch *)

Section frame.
Context `{Env} {E V : Type} `{Engine E} `{EventManager V}.
Abbreviation St := (Storage E V).

(** A property of the caches: the engine, the event manager, the clock and
    the identifiers drawn do not matter. *)
Class CacheProp (P : St -> Prop) : Prop := {
  cp_engine : forall s e, P s -> P (with_engine e s);
  cp_events : forall s v, P s -> P (with_events v s);
  cp_clock : forall s n, P s -> P (with_counters n (st_uuids s) s)
}.

Context (P : St -> Prop) `{!CacheProp P}.

Lemma keeps_engine {A} (m : M E A) : keeps P (engine m).
Proof using CacheProp0. apply keeps_zoom. intros. by apply cp_engine. Qed.

Lemma keeps_events {A} (m : M V A) : keeps P (events m).
Proof using CacheProp0. apply keeps_zoom. intros. by apply cp_events. Qed.

Lemma keeps_now : keeps P now.
Proof using CacheProp0. intros s Hs. by apply cp_clock. Qed.

Lemma keeps_event_result {A} (d : A) (m : M St A) : keeps P m -> keeps P (event_result d m).
Proof. intros Hm. apply keeps_bind; [by apply keeps_attempt|]. intros. apply keeps_ret. Qed.

Lemma keeps_load_events owner : keeps P (load_events owner).
Proof. apply keeps_event_result. by intros s. Qed.

Lemma keeps_get_session_ptr id : keeps P (get_session_ptr id).
Proof. apply keeps_bind; [apply keeps_gets|]. intros. apply keeps_lift. Qed.

Lemma keeps_get_task_ptr g : keeps P (get_task_ptr g).
Proof. apply keeps_bind; [apply keeps_get_session_ptr|]. intros. apply keeps_lift. Qed.

Lemma keeps_get_executor_ptr id : keeps P (get_executor_ptr id).
Proof. apply keeps_bind; [apply keeps_gets|]. intros. apply keeps_lift. Qed.

Lemma keeps_get_session id : keeps P (get_session id).
Proof.
  apply keeps_bind; [apply keeps_get_session_ptr|]. intros x.
  apply keeps_bind; [apply keeps_load_events|]. intros. apply keeps_ret.
Qed.

Lemma keeps_record_event owner ev : keeps P (record_event owner ev).
Proof using CacheProp0.
  apply keeps_bind; [apply keeps_get_session_ptr|]. intros x. case_bool_decide; [apply keeps_ret|].
  apply keeps_event_result, keeps_events.
Qed.
End frame.
#[export] Hint Resolve keeps_engine keeps_events keeps_now keeps_event_result keeps_load_events
  keeps_get_session_ptr keeps_get_task_ptr keeps_get_executor_ptr keeps_get_session
  keeps_record_event : flame.

#[export] Hint Extern 1 (CacheProp _) => typeclasses eauto : flame.

(** ** The invariant *)

Record storage_wf {E V} (s : Storage E V) : Prop := {
  swf_ssns : keyed ssn_id (st_sessions s);
  swf_index : forall id x, st_sessions s !! id = Some x -> index_wf x;
  swf_execs : keyed ex_id (st_executors s);
  swf_nodes : keyed node_name (st_nodes s)
}.

#[export] Instance storage_wf_cache {E V} : CacheProp (@storage_wf E V).
Proof. by split; intros s ? []; split. Qed.

Lemma update_task_id t x : ssn_id (update_task t x) = ssn_id x.
Proof. unfold update_task. by destruct (is_some_and _ _). Qed.

Lemma foldl_update_task_wf {A} (f : A -> Task) l x :
  index_wf x -> index_wf (foldl (fun x t => update_task (f t) x) x l).
Proof. revert x. induction l as [|t l IH]; simpl; intros x Hx; [done|]. by apply IH, update_task_wf. Qed.

Lemma foldl_update_task_id {A} (f : A -> Task) l x :
  ssn_id (foldl (fun x t => update_task (f t) x) x l) = ssn_id x.
Proof. revert x. induction l as [|t l IH]; simpl; intros x; [done|]. by rewrite IH, update_task_id. Qed.

(** Fields the task index does not depend on. *)
Lemma index_wf_ext x y :
  ssn_tasks y = ssn_tasks x -> ssn_tasks_index y = ssn_tasks_index x -> index_wf x -> index_wf y.
Proof. intros H1 H2 [Hk Hs Hc]. unfold index_lookup in *. by split; unfold index_lookup; rewrite ?H1, ?H2. Qed.

Lemma session_with_state_wf st x : index_wf x -> index_wf (session_with_state st x).
Proof. by apply index_wf_ext. Qed.
Lemma session_with_events_wf evs x : index_wf x -> index_wf (session_with_events evs x).
Proof. by apply index_wf_ext. Qed.
Lemma session_with_completion_wf st ct v x :
  index_wf x -> index_wf (session_with_completion st ct v x).
Proof. by apply index_wf_ext. Qed.

Lemma close_cached_wf p ct x : index_wf x -> index_wf (close_cached p ct x).
Proof.
  intros Hx. apply session_with_events_wf, (foldl_update_task_wf (cancel_task ct)).
  by apply session_with_completion_wf.
Qed.

Lemma close_cached_id p ct x : ssn_id (close_cached p ct x) = ssn_id x.
Proof. unfold close_cached, cancel_pending. simpl. by rewrite (foldl_update_task_id (cancel_task ct)). Qed.

#[export] Hint Resolve update_task_wf session_with_state_wf close_cached_wf : flame.

Section preservation.
Context `{Env} {E V : Type} `{EngineSpec E} `{EventManager V}.
Abbreviation St := (Storage E V).
Abbreviation wf := (@storage_wf E V).

Lemma spec_get_session_ptr id :
  spec wf (get_session_ptr id) (fun x => ssn_id x = id /\ index_wf x).
Proof.
  intros s Hs. unfold get_session_ptr, mbind, M_bind, gets, lift. split; [done|]. simpl.
  destruct (st_sessions s !! id) as [x|] eqn:Hx; [|done]. intros ? [= <-].
  split; [by apply (swf_ssns s Hs)|by eapply (swf_index s Hs)].
Qed.

Lemma keeps_put_session id x : ssn_id x = id -> index_wf x -> keeps wf (put_session id x).
Proof.
  intros <- Hx. apply keeps_modify. intros s [Hk Hi He Hn]. split; simpl; auto with flame.
  by intros id' x' [[_ <-]|[_ ?]]%lookup_insert_Some; [|eauto].
Qed.

Lemma keeps_sub_sessions (f : gmap string Session -> gmap string Session) :
  (forall m, f m ⊆ m) -> keeps wf (modify (fun s => with_sessions (f (st_sessions s)) s)).
Proof.
  intros Hf. apply keeps_modify. intros s [Hk Hi He Hn]. split; simpl; try done.
  - intros k x Hx. eapply Hk, lookup_weaken, Hf; done.
  - intros k x Hx. eapply Hi, lookup_weaken, Hf; done.
Qed.

Lemma keeps_put_executor x : keeps wf (put_executor (ex_id x) x).
Proof. apply keeps_modify. intros s [Hk Hi He Hn]. split; simpl; auto with flame. Qed.

Lemma keeps_del_executor id :
  keeps wf (modify (fun s => with_executors (delete id (st_executors s)) s)).
Proof. apply keeps_modify. intros s [Hk Hi He Hn]. split; simpl; auto with flame. Qed.

Lemma keeps_put_node x : keeps wf (put_node (node_name x) x).
Proof. apply keeps_modify. intros s [Hk Hi He Hn]. split; simpl; auto with flame. Qed.

Lemma keeps_del_node id : keeps wf (modify (fun s => with_nodes (delete id (st_nodes s)) s)).
Proof. apply keeps_modify. intros s [Hk Hi He Hn]. split; simpl; auto with flame. Qed.

Lemma keeps_applications f : keeps wf (modify (fun s => with_applications (f s) s)).
Proof. apply keeps_modify. by intros s []. Qed.

Lemma keeps_put_application n a : keeps wf (put_application n a).
Proof. apply keeps_modify. by intros s []. Qed.
End preservation.
#[export] Hint Resolve keeps_put_executor keeps_del_executor keeps_put_node
  keeps_del_node keeps_applications keeps_put_application : flame.

(** ** Eviction *)

Section eviction.
Context `{Env}.

Lemma closed_sessions_elem m id t :
  (id, t) ∈ closed_sessions m <->
  exists x, m !! id = Some x /\ is_closed x = true /\ t = closed_time x.
Proof.
  unfold closed_sessions. rewrite sort_by_perm, list_elem_of_omap. split.
  - intros ([k x] & Hin & Hx). apply hm_iter_elem in Hin. simpl in Hx.
    destruct (is_closed x) eqn:Hc; [|done]. injection Hx as <- <-. eauto.
  - intros (x & Hx & Hc & ->). exists (id, x). rewrite hm_iter_elem. simpl. by rewrite Hc.
Qed.

Lemma closed_sessions_head m id t l :
  closed_sessions m = (id, t) :: l ->
  exists x, m !! id = Some x /\ is_closed x = true /\
    forall id' x', m !! id' = Some x' -> is_closed x' = true -> closed_time x <= closed_time x'.
Proof.
  intros Hl. pose proof Hl as Hs. unfold closed_sessions in Hs.
  apply sort_by_head in Hs as [_ Hmin]; [|apply (cmp_on snd Z.compare)].
  destruct (proj1 (closed_sessions_elem m id t)) as (x & Hx & Hc & ->); [rewrite Hl; left|].
  exists x. split_and!; [done..|]. intros id' x' Hx' Hc'.
  change ((closed_time x ?= closed_time x') <> Gt). apply (Hmin (id', closed_time x')). rewrite <-(sort_by_perm (fun a b : string * Z => a.2 ?= b.2)).
  apply closed_sessions_elem. eauto.
Qed.

Lemma closed_sessions_nil m :
  closed_sessions m = [] -> forall id x, m !! id = Some x -> is_closed x = false.
Proof.
  intros Hl id x Hx. destruct (is_closed x) eqn:Hc; [|done].
  assert ((id, closed_time x) ∈ closed_sessions m) as Hin by (apply closed_sessions_elem; eauto).
  rewrite Hl in Hin. by apply elem_of_nil in Hin.
Qed.

(** What is left of the cache after evictions: only closed sessions went, and
    none of those left is older than one that went. *)
Record evicted (m m' : gmap string Session) : Prop := {
  ev_sub : m' ⊆ m;
  ev_open : forall id x, m !! id = Some x -> is_closed x = false -> m' !! id = Some x;
  ev_oldest : forall id x id' x', m !! id = Some x -> m' !! id = None ->
    m' !! id' = Some x' -> is_closed x' = true -> closed_time x <= closed_time x'
}.

Lemma evicted_refl m : evicted m m.
Proof. split; [done|done|]. intros id x id' x' Hx Hn. by rewrite Hx in Hn. Qed.

Lemma evicted_delete m id x m' :
  m !! id = Some x -> is_closed x = true ->
  (forall id' x', m !! id' = Some x' -> is_closed x' = true -> closed_time x <= closed_time x') ->
  evicted (delete id m) m' -> evicted m m'.
Proof.
  intros Hx Hc Hmin [Hs Ho Hold]. split.
  - etrans; [done|]. apply delete_subseteq.
  - intros k y Hy Hyo. apply Ho; [|done]. apply lookup_delete_Some. split; [congruence|done].
  - intros k y k' y' Hy Hn Hy' Hc'. destruct (decide (k = id)) as [->|Hne].
    + simplify_eq. eapply Hmin; [|done]. eapply lookup_weaken; [|apply (delete_subseteq m id)].
      by eapply lookup_weaken.
    + apply (Hold k y k' y'); [|done..]. by rewrite lookup_delete_ne.
Qed.

(** Enough fuel always gives a result. *)
Lemma evict_loop_total fuel max m :
  (size m < fuel)%nat ->
  exists m', evict_loop fuel max m = Some m' /\ evicted m m' /\
    ((max <= size m')%nat -> forall id x, m' !! id = Some x -> is_closed x = false) /\
    ((size m < max)%nat -> m' = m).
Proof.
  revert m. induction fuel as [|fuel IH]; intros m Hlt; [lia|]. simpl.
  destruct (Nat.leb_spec max (size m)) as [Hle|Hgt].
  2:{ exists m. split_and!; [done|apply evicted_refl|lia|done]. }
  destruct (closed_sessions m) as [|[id t] l] eqn:Hl.
  { exists m. split_and!; [done|apply evicted_refl| |done]. intros _. by apply closed_sessions_nil. }
  destruct (closed_sessions_head m id t l Hl) as (x & Hx & Hc & Hmin).
  assert (size m <> 0)%nat as Hne by (apply map_size_ne_0_lookup; eauto).
  assert (size (delete id m) < fuel)%nat as Hsz by (rewrite map_size_delete_Some by eauto; lia).
  destruct (IH _ Hsz) as (m' & Hm' & Hev & Hfull & _). exists m'.
  split_and!; [done|by eapply evicted_delete|done|lia].
Qed.

Definition evict (max : nat) (m : gmap string Session) : gmap string Session :=
  default m (evict_loop (S (size m)) max m).

Lemma evict_evicted max m : evicted m (evict max m).
Proof.
  unfold evict. destruct (evict_loop_total (S (size m)) max m (Nat.lt_succ_diag_r _)) as (m' & -> & Hev & _). done.
Qed.
End eviction.

(** ** Every operation keeps the invariant *)

Section operations.
Context `{Env} {E V : Type} `{EngineSpec E} `{EventManager V}.
Abbreviation St := (Storage E V).
Abbreviation wf := (@storage_wf E V).

Lemma keeps_evict_sessions : keeps wf evict_sessions.
Proof.
  apply keeps_modify. intros s [Hk Hi He Hn]. destruct (st_max_sessions s) as [max|]; [|done].
  pose proof (ev_sub _ _ (evict_evicted max (st_sessions s))) as Hsub.
  split; simpl; [..|done|done]; intros k x Hx; [apply Hk|eapply Hi]; by eapply lookup_weaken.
Qed.
Hint Resolve keeps_evict_sessions : flame.

Lemma keeps_register_node n : keeps wf (register_node n).
Proof. unfold register_node. keeps_tac. Qed.

Lemma keeps_update_node_state name st : keeps wf (update_node_state name st).
Proof.
  unfold update_node_state. keeps_step; [by eauto with flame|]. keeps_step; [|apply keeps_ret].
  keeps_step; [by eauto with flame|]. apply keeps_modify. intros s [Hk Hi He Hn]. split; simpl; try done.
  intros k y Hy. apply lookup_alter_Some in Hy as [(-> & z & Hz & ->)|[_ Hy]]; [|by apply Hn].
  exact (Hn _ _ Hz).
Qed.

Lemma keeps_create_executor node ssn : keeps wf (create_executor node ssn).
Proof.
  unfold create_executor. keeps_tac. by intros s [].
Qed.

Lemma set_state_id st t x : ex_id (set_state st t x) = ex_id x.
Proof. unfold set_state. by case_decide. Qed.

Lemma keeps_update_executor e : keeps wf (update_executor e).
Proof.
  unfold update_executor. keeps_step; [by eauto with flame|]. apply keeps_bind_gets. intros s Hs.
  destruct (st_executors s !! ex_id e) as [x|] eqn:Hx; [|done]. apply (swf_execs s Hs) in Hx.
  unfold mbind, M_bind. apply cp_clock with (n := S (st_clock s)) in Hs.
  refine (eq_rect _ (fun id => wf (put_executor id _ _).2) (keeps_put_executor _ _ Hs) _ _).
  etrans; [apply (set_state_id (ex_state e) (utc_now (st_clock s)) x)|done].
Qed.

Lemma keeps_delete_executor id : keeps wf (delete_executor id).
Proof. unfold delete_executor. keeps_tac. Qed.

Lemma keeps_retry_cached g : keeps wf (retry_cached g).
Proof.
  unfold retry_cached. keeps_tac. apply keeps_modify. intros s [Hk Hi He Hn]. split; simpl; try done;
    intros k x Hx; apply lookup_alter_Some in Hx as [(<- & y & Hy & ->)|[_ Hx]]; eauto with flame.
  rewrite update_task_id. by apply Hk.
Qed.
Hint Resolve keeps_delete_executor keeps_retry_cached : flame.

Lemma keeps_delete_executors l : keeps wf (delete_executors l).
Proof. induction l as [|x l IH]; simpl; keeps_tac. Qed.

Lemma keeps_create_session attr : keeps wf (create_session attr).
Proof.
  unfold create_session. keeps_step; [by eauto with flame|].
  apply (spec_bind_keeps wf _ _ (fun x => index_wf x)).
  - intros s Hs. split; [by apply (keeps_engine wf)|]. intros x. unfold engine, zoom.
    destruct (Engine.create_session _ _ _) as [r e'] eqn:Hc. simpl. intros ->.
    by eapply session_made_wf, create_session_made.
  - intros x Hx. keeps_step; [by eauto with flame|]. keeps_step; [by apply keeps_put_session|].
    keeps_tac.
Qed.

Lemma keeps_close_session id : keeps wf (close_session id).
Proof.
  unfold close_session. eapply spec_bind_keeps; [apply spec_get_session_ptr|]. intros x [Hid Hx].
  keeps_step; [by eauto with flame|]. keeps_step; [by eauto with flame|]. keeps_step.
  { by eauto with flame. } keeps_step; [keeps_tac|]. keeps_step; [keeps_tac|].
  eapply spec_bind_keeps; [apply spec_get_session_ptr|]. intros y [Hid' Hy].
  keeps_step; [apply keeps_put_session; [by rewrite close_cached_id|by apply close_cached_wf]|].
  keeps_tac.
Qed.

Lemma keeps_update_session_state id st : keeps wf (update_session_state id st).
Proof.
  unfold update_session_state. eapply spec_bind_keeps; [apply spec_get_session_ptr|].
  intros x [Hid Hx]. keeps_step; [by eauto with flame|].
  keeps_step; [apply keeps_put_session; auto with flame|].
  apply keeps_bind; [by eauto with flame|]. intros r.
  destruct r as [y|[]|]; try (by eauto with flame); (eapply spec_bind_keeps; [apply spec_get_session_ptr|];
    intros y [Hidy Hy]; keeps_step; [|by eauto with flame];
    case_decide; [apply keeps_put_session; auto with flame|apply keeps_ret]).
Qed.

Lemma keeps_open_session id spc : keeps wf (open_session id spc).
Proof.
  unfold open_session. apply keeps_bind; [by eauto with flame|]. intros cached.
  assert (keeps wf (t ← now; ssn ← engine (Engine.open_session id spc t);
    put_session (ssn_id ssn) ssn ≫= fun _ => evict_sessions ≫= fun _ => mret ssn)) as Hopen.
  { keeps_step; [by eauto with flame|]. apply (spec_bind_keeps wf _ _ (fun x => index_wf x)).
    - intros s Hs. split; [by apply (keeps_engine wf)|]. intros x. unfold engine, zoom.
      destruct (Engine.open_session _ _ _ _) as [r e'] eqn:Hc. simpl. intros ->.
      by eapply proj1, open_session_wf.
    - intros x Hx. keeps_step; [by apply keeps_put_session|]. keeps_tac. }
  destruct cached as [x|]; [|done]. keeps_step; [by eauto with flame|]. case_decide; [|done]. keeps_tac.
Qed.

Lemma keeps_delete_session id : keeps wf (delete_session id).
Proof.
  unfold delete_session. keeps_tac. apply (keeps_sub_sessions (delete id)).
  intros m. apply delete_subseteq.
Qed.

Lemma keeps_put_updated {A} ssn t (Q : unit -> M St A) :
  (forall u, keeps wf (Q u)) ->
  keeps wf (x ← get_session_ptr ssn; if is_closed x then throw EInvalidState
            else put_session ssn (update_task t x) ≫= Q).
Proof.
  intros HQ. eapply spec_bind_keeps; [apply spec_get_session_ptr|]. intros x [Hid Hx].
  keeps_step; [by eauto with flame|]. keeps_step; [|done].
  apply keeps_put_session; [by rewrite update_task_id|by apply update_task_wf].
Qed.

Lemma keeps_create_task ssn input options : keeps wf (create_task ssn input options).
Proof.
  unfold create_task. keeps_step; [by eauto with flame|]. keeps_step; [by eauto with flame|].
  keeps_step; [by eauto with flame|]. keeps_step; [by eauto with flame|].
  apply keeps_put_updated. intros. keeps_tac.
Qed.

Lemma keeps_update_task_state ssn task st msg : keeps wf (update_task_state ssn task st msg).
Proof.
  unfold update_task_state. keeps_step; [by eauto with flame|]. keeps_step; [by eauto with flame|].
  keeps_step; [by eauto with flame|]. keeps_step; [by eauto with flame|].
  keeps_step; [keeps_tac|]. apply keeps_put_updated. intros. keeps_tac.
Qed.

Lemma keeps_update_task_result ssn task r : keeps wf (update_task_result ssn task r).
Proof.
  unfold update_task_result. keeps_step; [by eauto with flame|]. keeps_step; [by eauto with flame|].
  keeps_step; [by eauto with flame|]. keeps_step; [by eauto with flame|].
  keeps_step; [keeps_tac|]. apply keeps_put_updated. intros. keeps_tac.
Qed.

Lemma keeps_load_tasks tasks x :
  index_wf x -> spec wf (load_tasks tasks x) (fun y => ssn_id y = ssn_id x /\ index_wf y).
Proof.
  revert x. induction tasks as [|t tasks IH]; simpl; intros x Hx; [by apply spec_ret|].
  apply (spec_bind wf _ _ (fun _ => True)).
  - apply keeps_spec. keeps_tac.
  - intros t' _. rewrite <-(update_task_id t' x). by apply IH, update_task_wf.
Qed.

Lemma keeps_load_session x : index_wf x -> keeps wf (load_session x).
Proof.
  intros Hx. unfold load_session. keeps_step; [by eauto with flame|].
  keeps_step; [by eauto with flame|]. eapply spec_bind_keeps; [by apply keeps_load_tasks|].
  intros y [_ Hy]. by apply keeps_put_session.
Qed.

Lemma keeps_load_executor x : keeps wf (load_executor x).
Proof. unfold load_executor. keeps_tac. Qed.

Lemma keeps_load_data : keeps wf load_data.
Proof.
  unfold load_data. apply (spec_bind_keeps wf _ _ (Forall (fun x => index_wf x /\ ssn_tasks x = ∅))).
  - intros s Hs. split; [by apply (keeps_engine wf)|]. intros l. unfold engine, zoom.
    destruct (find_sessions _) as [r e'] eqn:Hf. simpl. intros ->. by eapply find_sessions_wf.
  - intros l Hl. rewrite list.Forall_forall in Hl.
    keeps_step; [apply keeps_for_each; intros; by apply keeps_load_session, Hl|].
    keeps_step; [by eauto with flame|]. keeps_step; [apply keeps_for_each; by eauto with flame|].
    keeps_step; [by eauto with flame|]. keeps_step; [apply keeps_for_each; by eauto with flame|].
    keeps_step; [by eauto with flame|]. apply keeps_for_each. intros. apply keeps_load_executor.
Qed.
End operations.

(** ** Sequences of operations *)

(** The operations of the storage that write. *)
Inductive storage_op :=
  | OLoadData
  | ORegisterNode (n : Node) | OUpdateNodeState (name : string) (st : NodeState)
  | OSyncNode (n : Node) (l : list Executor) | OReleaseNode (name : string)
  | OCreateExecutor (node ssn : string) | OUpdateExecutor (e : Executor)
  | ODeleteExecutor (id : string) | ODeleteExecutors (l : list Executor)
  | OCreateSession (attr : SessionAttributes) | OOpenSession (id : string) (s : option SessionAttributes)
  | OCloseSession (id : string) | OUpdateSessionState (id : string) (st : SessionState)
  | ODeleteSession (id : string)
  | OCreateTask (ssn : string) (input : option string) (options : option TaskOptions)
  | OUpdateTaskState (ssn : string) (t : Task) (st : TaskState) (msg : option string)
  | OUpdateTaskResult (ssn : string) (t : Task) (r : TaskResult)
  | ORegisterApplication (name : string) (attr : ApplicationAttributes)
  | OUpdateApplicationState (name : string) (st : ApplicationState)
  | OUpdateApplication (name : string) (attr : ApplicationAttributes)
  | ODeleteApplication (name : string)
  | ORecordEvent (owner : EventOwner) (ev : Event).

Section run.
Context `{Env} {E V : Type} `{Engine E} `{EventManager V}.

(** The state after an operation, whatever it returned. *)
Definition storage_apply (op : storage_op) (s : Storage E V) : Storage E V :=
  match op with
  | OLoadData => (load_data s).2
  | ORegisterNode n => (register_node n s).2
  | OUpdateNodeState name st => (update_node_state name st s).2
  | OSyncNode n l => (sync_node n l s).2
  | OReleaseNode name => (release_node name s).2
  | OCreateExecutor node ssn => (create_executor node ssn s).2
  | OUpdateExecutor e => (update_executor e s).2
  | ODeleteExecutor id => (delete_executor id s).2
  | ODeleteExecutors l => (delete_executors l s).2
  | OCreateSession attr => (create_session attr s).2
  | OOpenSession id spc => (open_session id spc s).2
  | OCloseSession id => (close_session id s).2
  | OUpdateSessionState id st => (update_session_state id st s).2
  | ODeleteSession id => (delete_session id s).2
  | OCreateTask ssn input options => (create_task ssn input options s).2
  | OUpdateTaskState ssn t st msg => (update_task_state ssn t st msg s).2
  | OUpdateTaskResult ssn t r => (update_task_result ssn t r s).2
  | ORegisterApplication name attr => (register_application name attr s).2
  | OUpdateApplicationState name st => (update_application_state name st s).2
  | OUpdateApplication name attr => (update_application name attr s).2
  | ODeleteApplication name => (delete_application name s).2
  | ORecordEvent owner ev => (record_event owner ev s).2
  end.

Definition storage_run (ops : list storage_op) (s : Storage E V) : Storage E V :=
  foldl (fun s op => storage_apply op s) s ops.
End run.

Lemma storage_apply_wf `{Env} {E V} `{EngineSpec E} `{EventManager V} op (s : Storage E V) :
  storage_wf s -> storage_wf (storage_apply op s).
Proof.
  destruct op; simpl; revert s; match goal with |- forall s, _ -> storage_wf (?m s).2 =>
    change (keeps storage_wf m) end;
    auto using keeps_load_data, keeps_register_node, keeps_update_node_state,
      keeps_create_executor, keeps_update_executor, keeps_delete_executor, keeps_delete_executors,
      keeps_create_session, keeps_open_session, keeps_close_session, keeps_update_session_state,
      keeps_delete_session, keeps_create_task, keeps_update_task_state, keeps_update_task_result.
  - apply keeps_bind; [apply keeps_register_node|]. eauto with flame.
  - unfold release_node. keeps_tac.
  - unfold register_application. keeps_tac.
  - unfold update_application_state. keeps_tac.
  - unfold update_application. keeps_tac.
  - unfold delete_application. keeps_tac.
  - eauto with flame.
Qed.

(** ** Closing a session *)

Lemma elem_of_btree_values {A} (m : gmap Z A) x : x ∈ btree_values m <-> exists k, m !! k = Some x.
Proof.
  unfold btree_values. rewrite sort_by_perm, list_elem_of_fmap. split.
  - intros ([k y] & -> & Hin%elem_of_map_to_list). eauto.
  - intros [k Hk]. exists (k, x). by rewrite elem_of_map_to_list.
Qed.

Lemma NoDup_btree_values {A} (f : A -> Z) (m : gmap Z A) :
  (forall k x, m !! k = Some x -> f x = k) -> NoDup (f <$> btree_values m).
Proof.
  intros Hf. unfold btree_values. rewrite sort_by_perm, <-list_fmap_compose.
  rewrite (list_fmap_ext _ fst); [apply NoDup_fst_map_to_list|].
  intros i [k x] Hi. apply Hf, elem_of_map_to_list. by eapply list_elem_of_lookup_2.
Qed.

(** Cancelling a list of distinct current tasks replaces each of them. *)
Lemma cancel_fold ct l x id :
  index_wf x -> NoDup (task_id <$> l) ->
  (forall t, t ∈ l -> ssn_tasks x !! task_id t = Some t /\ 0 <= task_version t < u32_max) ->
  let y := foldl (fun x t => update_task (cancel_task ct t) x) x l in
  ssn_tasks y !! id = (match list_find (fun t => task_id t = id) l with
                       | Some (_, t) => Some (cancel_task ct t)
                       | None => ssn_tasks x !! id
                       end) /\
  forall st, index_lookup y st id =
    match list_find (fun t => task_id t = id) l with
    | Some (_, t) => if decide (st = TaskCancelled) then Some (cancel_task ct t) else None
    | None => index_lookup x st id
    end.
Proof.
  revert x. induction l as [|t l IH]; intros x Hx Hnd Hl; [done|]. simpl.
  apply list.NoDup_cons in Hnd as [Hnin Hnd]. destruct (Hl t ltac:(left)) as [Ht Hv].
  assert (Hup : update_task (cancel_task ct t) x = session_with_tasks
    (<[task_id t := cancel_task ct t]> (ssn_tasks x))
    (index_move (cancel_task ct t) (ssn_tasks_index x)) x).
  { unfold update_task. simpl. rewrite Ht. simpl.
    rewrite wrap_u32_small by (unfold u32_max in *; width).
    destruct (Z.geb_spec (task_version t) (task_version t + 1)); [lia|done]. }
  destruct (IH (update_task (cancel_task ct t) x)) as [IH1 IH2].
  { by apply update_task_wf. } { done. }
  { intros t' Ht'. destruct (Hl t' ltac:(by right)) as [Ht'' ?]. split; [|done].
    rewrite Hup. simpl. rewrite lookup_insert_ne; [done|]. intros Heq. apply Hnin.
    rewrite Heq. apply list_elem_of_fmap. eauto. }
  case_decide as Hid; simpl; rewrite ?IH1.
  - assert (Hnone : list_find (fun t => task_id t = id) l = None).
    { apply list_find_None, list.Forall_forall. intros t' Ht' Hid'. apply Hnin.
      rewrite Hid, <-Hid'. apply list_elem_of_fmap. eauto. }
    rewrite Hnone. split; [rewrite Hup; simpl; by rewrite Hid, lookup_insert_eq|].
    intros st. rewrite IH2, Hnone, Hup. unfold index_lookup. simpl.
    rewrite index_move_lookup. simpl. by rewrite decide_True by done.
  - destruct (list_find (fun t => task_id t = id) l) as [[i t']|] eqn:Hf; simpl.
    + split; [done|]. intros st. by rewrite IH2.
    + split; [rewrite Hup; simpl; by rewrite lookup_insert_ne|]. intros st.
      rewrite IH2, Hup. unfold index_lookup. simpl. rewrite index_move_lookup.
      by rewrite decide_False by done.
Qed.

Lemma list_find_btree (m : gmap Z Task) id :
  (forall k t, m !! k = Some t -> task_id t = k) ->
  match list_find (fun t => task_id t = id) (btree_values m) with
  | Some (_, t) => m !! id = Some t
  | None => m !! id = None
  end.
Proof.
  intros Hk. destruct (list_find _ _) as [[i t]|] eqn:Hf.
  - apply list_find_Some in Hf as (Hi & Hid & _). apply list_elem_of_lookup_2 in Hi.
    apply elem_of_btree_values in Hi as [k Hkt]. by rewrite <-Hid, (Hk _ _ Hkt).
  - apply list_find_None in Hf. rewrite list.Forall_forall in Hf.
    destruct (m !! id) as [t|] eqn:Ht; [|done]. destruct (Hf t); [|by apply Hk].
    apply elem_of_btree_values. eauto.
Qed.

Definition versions_below (x : Session) : Prop :=
  forall id t, pending_index x !! id = Some t -> 0 <= task_version t < u32_max.

Lemma cancel_pending_spec ct x id :
  index_wf x -> versions_below x ->
  ssn_tasks (cancel_pending ct x) !! id =
    match pending_index x !! id with
    | Some t => Some (cancel_task ct t)
    | None => ssn_tasks x !! id
    end /\
  forall st, index_lookup (cancel_pending ct x) st id =
    match pending_index x !! id with
    | Some t => if decide (st = TaskCancelled) then Some (cancel_task ct t) else None
    | None => index_lookup x st id
    end.
Proof.
  intros Hx Hv. assert (forall k t, pending_index x !! k = Some t ->
    task_id t = k /\ ssn_tasks x !! k = Some t) as Hp.
  { intros k t Ht. rewrite <-index_lookup_pending in Ht. apply (iw_sound x Hx) in Ht as [Ht _].
    split; [by apply (iw_key x Hx)|done]. }
  destruct (cancel_fold ct (btree_values (pending_index x)) x id Hx) as [H1 H2].
  - apply NoDup_btree_values. intros k t Ht. by apply Hp.
  - intros t [k Ht]%elem_of_btree_values. destruct (Hp _ _ Ht) as [-> ?]. eauto.
  - pose proof (list_find_btree (pending_index x) id (fun k t Ht => proj1 (Hp k t Ht))) as Hf.
    unfold cancel_pending. rewrite H1. destruct (list_find _ _) as [[i t]|]; rewrite Hf; split; try done;
      intros st; by rewrite H2.
Qed.

Lemma close_cached_spec p ct x :
  index_wf x -> versions_below x -> (forall id, index_lookup x TaskRunning id = None) ->
  (forall id, index_lookup (close_cached p ct x) TaskPending id = None /\
              index_lookup (close_cached p ct x) TaskRunning id = None) /\
  forall id, ssn_tasks (close_cached p ct x) !! id =
    match pending_index x !! id with
    | Some t => Some (cancel_task ct t)
    | None => ssn_tasks x !! id
    end.
Proof.
  intros Hx Hv Hrun. unfold close_cached.
  set (x1 := session_with_completion _ _ _ x).
  assert (Hs : forall id, _) by exact (fun id => cancel_pending_spec ct x1 id
    (session_with_completion_wf _ _ _ x Hx) Hv).
  split; [|intros id; apply Hs]. intros id. unfold index_lookup. simpl.
  fold (index_lookup (cancel_pending ct x1) TaskPending id).
  fold (index_lookup (cancel_pending ct x1) TaskRunning id).
  destruct (Hs id) as [_ Hi]. rewrite !Hi.
  change (pending_index x1) with (pending_index x).
  change (index_lookup x1) with (index_lookup x).
  destruct (pending_index x !! id) eqn:Hp; [done|]. rewrite Hrun. split; [|done].
  by rewrite index_lookup_pending.
Qed.

Lemma eta_sessions {E V} (s : Storage E V) : with_sessions (st_sessions s) s = s.
Proof. by destruct s. Qed.

Section wp_storage.
Context `{Env} {E V : Type} `{Engine E} `{EventManager V}.
Implicit Types s : Storage E V.

Lemma wp_engine {A} (m : M E A) Q s :
  (forall r e', m (st_engine s) = (r, e') -> Q r (with_engine e' s)) -> wp (engine m) Q s.
Proof. intros HQ. unfold wp, engine, zoom. destruct (m (st_engine s)) eqn:Hm. by apply HQ. Qed.

Lemma wp_now (Q : result Z -> Storage E V -> Prop) s :
  Q (Ok (utc_now (st_clock s))) (with_counters (S (st_clock s)) (st_uuids s) s) -> wp now Q s.
Proof. done. Qed.

Lemma wp_get_session_ptr id (Q : result Session -> Storage E V -> Prop) s :
  Q (ok_or (st_sessions s !! id) ENotFound) s -> wp (get_session_ptr id) Q s.
Proof. done. Qed.

Lemma wp_get_executor_ptr id (Q : result Executor -> Storage E V -> Prop) s :
  Q (ok_or (st_executors s !! id) ENotFound) s -> wp (get_executor_ptr id) Q s.
Proof. done. Qed.

(** What does not touch the caches. *)
Record same_caches s s' : Prop := {
  sc_sessions : st_sessions s' = st_sessions s;
  sc_executors : st_executors s' = st_executors s;
  sc_nodes : st_nodes s' = st_nodes s;
  sc_applications : st_applications s' = st_applications s
}.

#[export] Instance same_caches_cache s : CacheProp (same_caches s).
Proof. by split; intros s' ? []; split. Qed.

Lemma wp_same {A} (m : M (Storage E V) A) (Q : result A -> Storage E V -> Prop) s :
  keeps (same_caches s) m ->
  (forall r s', same_caches s s' -> (forall a, r = Ok a -> (m s).1 = Ok a) -> Q r s') -> wp m Q s.
Proof.
  intros Hm HQ. specialize (Hm s). unfold wp. destruct (m s) as [r s'] eqn:Hms. apply HQ; [|done].
  by apply Hm.
Qed.

(** Events never fail an operation, short of a panic. *)
Lemma wp_event_result {A} (d : A) (m : M (Storage E V) A) (Q : result A -> Storage E V -> Prop) s :
  keeps (same_caches s) m ->
  (forall r s', same_caches s s' -> (forall e, r <> Err e) -> Q r s') -> wp (event_result d m) Q s.
Proof.
  intros Hm HQ. assert (same_caches s (m s).2) as Hs by (by apply Hm).
  apply wp_bind, wp_attempt. unfold wp. destruct (m s) as [[] s']; by apply HQ.
Qed.
End wp_storage.

Section close.
Context `{Env} {E V : Type} `{EngineSpec E} `{EventManager V}.
Implicit Types s : Storage E V.

Definition running (x : Session) : bool :=
  is_some_and (ssn_tasks_index x !! TaskRunning) (fun m => negb (bool_decide (m = ∅))).

Lemma running_false x : running x = false -> forall id, index_lookup x TaskRunning id = None.
Proof.
  unfold running, index_lookup. intros Hr id. destruct (_ !! TaskRunning) as [m|]; [|done]. simpl in *.
  case_bool_decide; [subst; by rewrite lookup_empty|done].
Qed.

Lemma wp_evict_sessions (Q : result unit -> Storage E V -> Prop) s :
  (forall m, evicted (st_sessions s) m -> Q (Ok tt) (with_sessions m s)) ->
  wp evict_sessions Q s.
Proof.
  intros HQ. apply wp_modify. destruct (st_max_sessions s) as [max|].
  - apply HQ, evict_evicted.
  - specialize (HQ (st_sessions s) (evicted_refl _)). by rewrite eta_sessions in HQ.
Qed.

(** The outcome of closing the session [x]. *)
Definition closed_ok (x : Session) id s (r : result Session) s' : Prop :=
  match r with
  | Ok y =>
      ssn_state y = SsnClosed /\ index_wf y /\
      (forall tid, index_lookup y TaskPending tid = None /\ index_lookup y TaskRunning tid = None) /\
      (exists ct, ssn_completion_time y = Some ct /\
         forall tid, ssn_tasks y !! tid =
           match pending_index x !! tid with
           | Some t => Some (cancel_task ct t)
           | None => ssn_tasks x !! tid
           end) /\
      evicted (<[id := y]> (st_sessions s)) (st_sessions s')
  | Err _ => st_sessions s' = st_sessions s
  | Panic => True
  end.

Lemma close_cached_completion p ct x : ssn_completion_time (close_cached p ct x) = Some ct.
Proof.
  unfold close_cached, cancel_pending. simpl. generalize (btree_values (pending_index
    (session_with_completion (default SsnClosed (ssn_state <$> p)) (Some ct)
       (default (wrap_u32 (ssn_version x + 1)) (ssn_version <$> p)) x))).
  intros l. set (y := session_with_completion _ _ _ x).
  assert (ssn_completion_time y = Some ct) as Hy by done. revert Hy. generalize y. clear.
  induction l as [|t l IH]; simpl; intros y Hy; [done|]. apply IH. unfold update_task.
  by destruct (is_some_and _ _).
Qed.

Lemma close_cached_state p ct x :
  (forall q, p = Some q -> ssn_state q = SsnClosed) -> ssn_state (close_cached p ct x) = SsnClosed.
Proof.
  intros Hp. unfold close_cached, cancel_pending. simpl. generalize (btree_values (pending_index
    (session_with_completion (default SsnClosed (ssn_state <$> p)) (Some ct)
       (default (wrap_u32 (ssn_version x + 1)) (ssn_version <$> p)) x))).
  intros l. set (y := session_with_completion _ _ _ x).
  assert (ssn_state y = SsnClosed) as Hy by (destruct p as [q|]; simpl; auto).
  revert Hy. generalize y. clear. induction l as [|t l IH]; simpl; intros y Hy; [done|].
  apply IH. unfold update_task. by destruct (is_some_and _ _).
Qed.

(** From the engine's answer on: the cached session is closed. *)
Lemma wp_close_cached id s0 s x p ct :
  index_wf x -> versions_below x -> running x = false -> st_sessions s !! id = Some x ->
  st_sessions s = st_sessions s0 ->
  (forall q, p = Some q -> ssn_state q = SsnClosed) ->
  wp (x ← get_session_ptr id;
      let x := close_cached p ct x in
      put_session id x ≫= fun _ =>
      event_result tt (events (remove_events id)) ≫= fun _ =>
      evict_sessions ≫= fun _ => mret x) (closed_ok x id s0) s.
Proof.
  intros Hx Hv Hr Hid Hs0 Hp. apply wp_bind, wp_get_session_ptr. rewrite Hid. simpl.
  apply wp_bind, wp_modify. set (y := close_cached p ct x). apply wp_bind.
  destruct (close_cached_spec p ct x Hx Hv (running_false x Hr)) as [Hn Ht].
  apply wp_event_result; [by eauto with flame|]. intros [u|e|] s2 [Hs2 _ _ _] Hu; [|by destruct (Hu e)|done].
  apply wp_bind, wp_evict_sessions. rewrite Hs2. simpl. intros m Hm. apply wp_ret. simpl.
  rewrite <-Hs0. split_and!; [by apply close_cached_state|by apply close_cached_wf|done| |done].
  exists ct. split; [apply close_cached_completion|done].
Qed.

Lemma close_session_outcome id s x :
  storage_wf s -> st_sessions s !! id = Some x -> versions_below x -> running x = false ->
  wp (close_session id) (closed_ok x id s) s.
Proof.
  intros Hs Hid Hv Hr. pose proof (swf_index s Hs _ _ Hid) as Hx. unfold close_session.
  apply wp_bind, wp_get_session_ptr. rewrite Hid. simpl. fold (running x). rewrite Hr.
  apply wp_bind, wp_now, wp_bind, wp_attempt, wp_engine. intros r e' He. simpl.
  assert (Hgo : forall s1 p, st_sessions s1 = st_sessions s ->
    (forall q, p = Some q -> ssn_state q = SsnClosed) ->
    wp (completion_time ← match p ≫= ssn_completion_time with Some ct => mret ct | None => now end;
        x ← get_session_ptr id;
        let x := close_cached p completion_time x in
        put_session id x ≫= fun _ =>
        event_result tt (events (remove_events id)) ≫= fun _ =>
        evict_sessions ≫= fun _ => mret x) (closed_ok x id s) s1).
  { intros s1 p Hs1 Hp. apply wp_bind. destruct (p ≫= ssn_completion_time) as [ct|].
    - apply wp_ret. apply wp_close_cached; auto. by rewrite Hs1.
    - apply wp_now. apply wp_close_cached; auto; simpl; by rewrite Hs1. }
  destruct r as [y|[]|]; try done; apply wp_bind.
  - apply wp_ret, Hgo; [done|]. intros q [= <-]. by eapply close_session_closed.
  - apply wp_ret, Hgo; done.
Qed.
End close.

(** ** Listing sessions *)

Definition strip (x : Session) : Session := session_with_events [] x.

(** [limit] as a bound on a list. *)
Definition limit_to {A} (limit : option nat) (l : list A) : list A :=
  match limit with Some n => take n l | None => l end.

(** The sessions a filter selects, without their events. *)
Definition selects (filter : option SessionFilter) (limits : Z) (x : Session) : bool :=
  session_matches filter x && session_ready filter limits x.

Section listing.
Context `{Env} {E V : Type} `{Engine E} `{EventManager V}.
Implicit Types s : Storage E V.

Lemma wp_load_events owner (Q : result (list Event) -> Storage E V -> Prop) s :
  (forall r, (forall e, r <> Err e) -> Q r s) -> wp (load_events owner) Q s.
Proof.
  intros HQ. apply wp_bind, wp_attempt. unfold wp.
  destruct (find_events owner (st_event_manager s)); by apply HQ.
Qed.

Lemma list_sessions_loop_spec filter l acc s :
  let limit := filter ≫= sf_limit in
  (forall n, limit = Some n -> (length acc < n)%nat) ->
  wp (list_sessions_loop filter l acc) (fun r s' => s' = s /\ forall out, r = Ok out ->
    strip <$> out = limit_to limit
      ((strip <$> acc) ++ List.filter (selects filter (st_retry_limits s)) (strip <$> l))) s.
Proof.
  intros limit. revert acc. induction l as [|x l IH]; intros acc Hacc; simpl.
  { apply wp_ret. split; [done|]. intros out [= <-]. rewrite app_nil_r. unfold limit_to.
    destruct limit as [n|]; [|done]. rewrite take_ge; [done|]. rewrite length_fmap.
    specialize (Hacc n eq_refl). lia. }
  apply wp_bind, wp_load_events. intros [evs|e|] Hr; [|by destruct (Hr e)|done].
  set (y := session_with_events evs x).
  change (session_matches filter y) with (session_matches filter (strip x)).
  unfold selects at 1. destruct (session_matches filter (strip x)); simpl; [|by apply IH].
  apply wp_bind, wp_gets.
  change (session_ready filter (session_retry_limits s) y)
    with (session_ready filter (st_retry_limits s) (strip x)).
  destruct (session_ready filter (st_retry_limits s) (strip x)); simpl; [|by apply IH].
  assert (Heq : forall r, (strip <$> acc) ++ strip x :: r = (strip <$> acc ++ [y]) ++ r).
  { intros r. rewrite fmap_app, <-app_assoc. done. }
  rewrite Heq. fold limit. destruct limit as [n|] eqn:Hn; simpl; [|apply IH; by rewrite ?Hn].
  specialize (Hacc n eq_refl). destruct (Nat.leb_spec n (length (acc ++ [y]))) as [Hle|Hgt].
  - apply wp_ret. split; [done|]. intros out [= <-]. rewrite take_app_length'; [done|].
    rewrite length_fmap. rewrite length_app in *. simpl in *. lia.
  - apply IH. intros n' [= <-]. done.
Qed.
End listing.

(** ** Recovery *)

(** No executor is binding, and no task of an open session is running. *)
Record recovered {E V} (s : Storage E V) : Prop := {
  rec_execs : forall id e, st_executors s !! id = Some e -> ex_state e <> ExecBinding;
  rec_tasks : forall id x, st_sessions s !! id = Some x -> ssn_state x = SsnOpen ->
    forall tid t, ssn_tasks x !! tid = Some t -> task_state t <> TaskRunning
}.

#[export] Instance recovered_cache {E V} : CacheProp (@recovered E V).
Proof. by split; intros s ? []; split. Qed.

Definition quiet (x : Session) : Prop :=
  ssn_state x = SsnOpen -> forall tid t, ssn_tasks x !! tid = Some t -> task_state t <> TaskRunning.

Lemma quiet_update x t :
  quiet x -> (ssn_state x = SsnOpen -> task_state t <> TaskRunning) -> quiet (update_task t x).
Proof.
  intros Hq Ht Hopen tid t'. rewrite update_task_lookup.
  assert (ssn_state x = SsnOpen) as Ho.
  { unfold update_task in Hopen. by destruct (is_some_and _ _). }
  case_decide; [|by apply Hq]. destruct (is_some_and _ _); [by apply Hq|]. intros [= <-]. auto.
Qed.

Section recovery.
Context `{Env} {E V : Type} `{EngineSpec E} `{EventManager V}.
Abbreviation rec := (@recovered E V).

Lemma load_tasks_quiet tasks x : quiet x -> spec rec (load_tasks tasks x) quiet.
Proof.
  revert x. induction tasks as [|t tasks IH]; simpl; intros x Hx; [by apply spec_ret|].
  apply (spec_bind rec _ _ (fun t' => ssn_state x = SsnOpen -> task_state t' <> TaskRunning)).
  - destruct (bool_decide_reflect (task_state t = TaskRunning)) as [Hr|Hr]; simpl.
    2:{ by apply spec_ret. }
    case_bool_decide as Ho; [|by apply spec_ret]. intros s Hs.
    split; [by apply (keeps_engine rec)|]. intros t'. unfold engine, zoom.
    destruct (Engine.retry_task _ _) as [r e'] eqn:Hret. simpl. intros -> _.
    apply retry_task_made in Hret as [_ ->]. done.
  - intros t' Ht'. apply IH. by apply quiet_update.
Qed.

Lemma load_session_recovered x : ssn_tasks x = ∅ -> keeps rec (load_session x).
Proof.
  intros Hx. unfold load_session. keeps_step; [by eauto with flame|].
  keeps_step; [by eauto with flame|]. eapply spec_bind_keeps; [apply load_tasks_quiet|].
  { intros _ tid t. by rewrite Hx, lookup_empty. }
  intros y Hy. apply keeps_modify. intros s [He Ht]. split; [done|]. simpl.
  intros id z [[_ <-]|[_ Hz]]%lookup_insert_Some; [done|by eapply Ht].
Qed.

Lemma put_executor_recovered id e : ex_state e <> ExecBinding -> keeps rec (put_executor id e).
Proof.
  intros Hne. apply keeps_modify. intros s [He Ht]. split; [|done]. simpl.
  intros id' e' [[_ <-]|[_ ?]]%lookup_insert_Some; eauto.
Qed.

Lemma load_executor_recovered e : keeps rec (load_executor e).
Proof.
  unfold load_executor. apply (spec_bind_keeps rec _ _ (fun e' => ex_state e' <> ExecBinding)).
  - case_decide; [|by apply spec_ret]. apply (spec_bind rec _ _ (fun _ => True)).
    { apply keeps_spec, keeps_now. typeclasses eauto. }
    intros t _. apply (spec_bind rec _ _ (fun _ => True)).
    { by apply keeps_spec, (keeps_engine rec). }
    intros _ _. by apply spec_ret.
  - intros e' He'. by apply put_executor_recovered.
Qed.

Lemma load_data_recovered : keeps rec load_data.
Proof.
  unfold load_data. apply (spec_bind_keeps rec _ _ (Forall (fun x => index_wf x /\ ssn_tasks x = ∅))).
  - intros s Hs. split; [by apply (keeps_engine rec)|]. intros l. unfold engine, zoom.
    destruct (find_sessions _) as [r e'] eqn:Hf. simpl. intros ->. by eapply find_sessions_wf.
  - intros l Hl. rewrite list.Forall_forall in Hl.
    keeps_step; [apply keeps_for_each; intros; by apply load_session_recovered, Hl|].
    keeps_step; [by eauto with flame|].
    keeps_step; [apply keeps_for_each; intros; apply keeps_modify; by intros ? []|].
    keeps_step; [by eauto with flame|].
    keeps_step; [apply keeps_for_each; intros; apply keeps_modify; by intros ? []|].
    keeps_step; [by eauto with flame|]. apply keeps_for_each. intros. apply load_executor_recovered.
Qed.

(** The session is in the cache. *)
Definition loaded (id : string) (s : Storage E V) : Prop := is_Some (st_sessions s !! id).

#[local] Instance loaded_cache id : CacheProp (loaded id).
Proof. by split. Qed.

Lemma keeps_put_loaded id x s : loaded id s -> loaded id (put_session (ssn_id x) x s).2.
Proof. intros Hs. unfold loaded. simpl. apply lookup_insert_is_Some'. auto. Qed.

Lemma load_tasks_keeps id tasks x : keeps (loaded id) (load_tasks tasks x).
Proof. revert x. induction tasks as [|t tasks IH]; simpl; intros x; keeps_tac. Qed.

Lemma load_tasks_id tasks x : spec (fun _ : Storage E V => True) (load_tasks tasks x) (fun y => ssn_id y = ssn_id x).
Proof.
  revert x. induction tasks as [|t tasks IH]; simpl; intros x; [by apply spec_ret|].
  apply (spec_bind _ _ _ (fun _ => True)); [by split|]. intros t' _.
  intros s Hs. split; [done|]. intros y Hy. rewrite (proj2 (IH (update_task t' x) s Hs) y Hy).
  unfold update_task. by destruct (is_some_and _ _).
Qed.

Lemma load_session_keeps id x : keeps (loaded id) (load_session x).
Proof.
  unfold load_session. keeps_step; [by eauto with flame|]. keeps_step; [by eauto with flame|].
  keeps_step; [apply load_tasks_keeps|]. intros s. apply keeps_put_loaded.
Qed.

Lemma load_session_loads x s s' : load_session x s = (Ok tt, s') -> loaded (ssn_id x) s'.
Proof.
  unfold load_session. intros (? & s1 & _ & Hl)%bind_inv_Ok. apply bind_inv_Ok in Hl as (tasks & s2 & _ & Hl).
  apply bind_inv_Ok in Hl as (y & s3 & Hy & Hl). pose proof (proj2 (load_tasks_id tasks x s2 I) y) as Hid.
  rewrite Hy in Hid. rewrite <-(Hid eq_refl). injection Hl as <-. unfold loaded. simpl. by rewrite lookup_insert_eq.
Qed.

Lemma load_sessions_loads l s s' : for_each l load_session s = (Ok tt, s') ->
  Forall (fun x => loaded (ssn_id x) s') l.
Proof.
  revert s. induction l as [|x l IH]; intros s; [done|]. simpl.
  intros ([] & s1 & Hx & Hl)%bind_inv_Ok. constructor; [|by eapply IH].
  pose proof (keeps_for_each (loaded (ssn_id x)) l load_session (fun y _ => load_session_keeps _ y) s1) as Hk.
  rewrite Hl in Hk. apply Hk. by eapply load_session_loads.
Qed.

Lemma load_data_loads s s' l : load_data s = (Ok tt, s') -> (find_sessions (st_engine s)).1 = Ok l ->
  Forall (fun x => loaded (ssn_id x) s') l.
Proof.
  unfold load_data. intros (l' & s1 & Hf & Hl)%bind_inv_Ok Hfind.
  assert (l' = l) as ->.
  { unfold engine, zoom in Hf. destruct (find_sessions _). simpl in *. congruence. }
  apply bind_inv_Ok in Hl as ([] & s2 & Hs & Hl). apply load_sessions_loads in Hs.
  eapply list.Forall_impl; [exact Hs|]. intros x Hx.
  match type of Hl with ?m s2 = _ => assert (Hk : keeps (loaded (ssn_id x)) m) end.
  { keeps_step; [by eauto with flame|]. keeps_step; [by apply keeps_for_each; intros; apply keeps_modify|].
    keeps_step; [by eauto with flame|]. keeps_step; [by apply keeps_for_each; intros; apply keeps_modify|].
    keeps_step; [by eauto with flame|]. apply keeps_for_each. intros. unfold load_executor.
    keeps_step; [|by apply keeps_modify]. case_decide; [|by eauto with flame].
    keeps_step; [by eauto with flame|]. keeps_tac. }
  specialize (Hk s2 Hx). by rewrite Hl in Hk.
Qed.
End recovery.

(** ** Properties *)

(** C35 Whatever sequence of storage operations runs, on whatever engine that
    keeps the contract and with whatever failures, the caches stay well formed:
    sessions, executors and nodes are filed under their own identifiers, and
    the state index of every cached session agrees with its tasks. *)
Theorem storage_invariant `{Env} {E V} `{EngineSpec E} `{EventManager V} ops (s : Storage E V) :
  storage_wf s -> storage_wf (storage_run ops s).
Proof.
  revert s. induction ops as [|op ops IH]; simpl; intros s Hs; [done|].
  by apply IH, storage_apply_wf.
Qed.


(** C36 Closing a session: with a running task it is refused and nothing
    changes; otherwise, if it succeeds, the session is closed, every pending
    task is cancelled with the session's completion time, every other task is
    unchanged, none is left pending or running in its index, and the cache
    holds the closed session up to eviction; an engine failure changes no
    cached session. *)
Theorem close_session_spec `{Env} {E V} `{EngineSpec E} `{EventManager V} id (s : Storage E V) x :
  storage_wf s -> st_sessions s !! id = Some x -> versions_below x ->
  let '(r, s') := close_session id s in
  if running x then r = Err EStorage /\ s' = s else closed_ok x id s r s'.
Proof.
  intros Hs Hid Hv. destruct (running x) eqn:Hr.
  - unfold close_session, mbind, M_bind, get_session_ptr, gets, lift. simpl. rewrite Hid. simpl.
    fold (running x). by rewrite Hr.
  - by apply close_session_outcome.
Qed.

(** A closed session is frozen: creating a task in it, updating one of its
    tasks or changing its state is refused with [InvalidState] before anything
    is written, and events recorded for it are dropped. *)
Theorem closed_session_frozen `{Env} {E V} `{Engine E} `{EventManager V} id (s : Storage E V) x :
  st_sessions s !! id = Some x -> is_closed x = true ->
  (forall input options, create_task id input options s = (Err EInvalidState, s)) /\
  (forall t st msg, update_task_state id t st msg s = (Err EInvalidState, s)) /\
  (forall t res, update_task_result id t res s = (Err EInvalidState, s)) /\
  (forall st, update_session_state id st s = (Err EInvalidState, s)) /\
  (forall tid ev, record_event (mkEventOwner tid id) ev s = (Ok tt, s)).
Proof.
  intros Hid Hc. split_and!; intros; unfold create_task, update_task_state, update_task_result,
    update_session_state, record_event, get_session_ptr, mbind, M_bind, gets, lift; simpl;
    rewrite Hid; simpl; rewrite ?Hc; try done.
  apply bool_decide_eq_true in Hc. by rewrite Hc.
Qed.

(** A session's state change is atomic: if it succeeds the cached session
    has the new state and nothing else of it changed; if the engine refuses,
    every cached session is as before. *)
Theorem update_session_state_atomic `{Env} {E V} `{Engine E} `{EventManager V} id st
    (s : Storage E V) :
  let '(r, s') := update_session_state id st s in
  match r with
  | Ok y => exists x, st_sessions s !! id = Some x /\ is_closed x = false /\
      y = session_with_state st x /\ st_sessions s' = <[id := y]> (st_sessions s)
  | Err _ => st_sessions s' = st_sessions s
  | Panic => True
  end.
Proof.
  enough (wp (update_session_state id st) (fun r s' => match r with
    | Ok y => exists x, st_sessions s !! id = Some x /\ is_closed x = false /\
        y = session_with_state st x /\ st_sessions s' = <[id := y]> (st_sessions s)
    | Err _ => st_sessions s' = st_sessions s
    | Panic => True end) s) as Hwp by done.
  unfold update_session_state. apply wp_bind, wp_get_session_ptr.
  destruct (st_sessions s !! id) as [x|] eqn:Hid; simpl; [|done].
  apply wp_bind, wp_lift. destruct (is_closed x) eqn:Hc; simpl; [done|].
  apply wp_bind, wp_modify, wp_bind, wp_attempt, wp_engine. intros r e' _.
  assert (Hok : wp (get_session_ptr id) (fun r s' => match r with
    | Ok y => exists x0, Some x = Some x0 /\ is_closed x0 = false /\
        y = session_with_state st x0 /\ st_sessions s' = <[id := y]> (st_sessions s)
    | Err _ => st_sessions s' = st_sessions s
    | Panic => True end)
    (with_engine e' (with_sessions (<[id := session_with_state st x]> (st_sessions s)) s))).
  { apply wp_get_session_ptr. simpl. rewrite lookup_insert_eq. simpl. eauto. }
  destruct r as [y|[]|]; try done; apply wp_bind, wp_get_session_ptr; simpl;
    rewrite lookup_insert_eq; simpl; apply wp_bind; rewrite decide_True by done;
    apply wp_modify, wp_throw; simpl; rewrite insert_insert_eq;
    apply insert_id; rewrite Hid; by destruct x.
Qed.

(** Listing sessions returns, in the order of the cache, the sessions that
    match every field of the filter, cut at the filter's limit, and changes
    nothing. *)
Theorem list_sessions_spec `{Env} {E V} `{Engine E} `{EventManager V} filter (s : Storage E V)
    out s' :
  list_sessions filter s = (Ok out, s') ->
  s' = s /\
  strip <$> out = limit_to (filter ≫= sf_limit)
    (List.filter (selects filter (st_retry_limits s)) (strip <$> hm_values (st_sessions s))).
Proof.
  unfold list_sessions. case_bool_decide as Hz.
  - intros [= <- <-]. split; [done|]. by rewrite Hz.
  - intros Hl. pose proof (list_sessions_loop_spec filter (hm_values (st_sessions s)) [] s) as Hw.
    unfold wp in Hw. unfold mbind, M_bind, gets in Hl. rewrite Hl in Hw. simpl in Hw.
    destruct Hw as [-> Hw]; [|by auto]. intros [|n] Hn; [done|lia].
Qed.

(** C37 Recovery from an empty cache leaves no executor in the middle of a
    binding and no task of an open session running, even if it is cut short by
    a failure of the engine; if it is not, every session the engine lists is in
    the cache. *)
Theorem load_data_recovers `{Env} {E V} `{EngineSpec E} `{EventManager V} (s : Storage E V) :
  st_sessions s = ∅ -> st_executors s = ∅ ->
  recovered (load_data s).2 /\
  ((load_data s).1 = Ok tt -> forall l, (find_sessions (st_engine s)).1 = Ok l ->
   Forall (fun x => is_Some (st_sessions (load_data s).2 !! ssn_id x)) l).
Proof.
  intros Hs He. split; [apply load_data_recovered; split; intros ?? Hl|].
  - by rewrite He, lookup_empty in Hl.
  - by rewrite Hs, lookup_empty in Hl.
  - intros Hok l Hl. destruct (load_data s) as [r s'] eqn:Hd. simpl in *. subst r. by eapply load_data_loads.
Qed.

(** ** Witnesses *)

#[local] Existing Instance demo_env.
#[local] Existing Instance demo_chrono.

Definition demo_app : ApplicationAttributes :=
  mkAppAttr ShimHost None None [] None [] ∅ None 10 0 None None None.

Definition demo_store : Type := Storage NoneEngine.t MemoryEventManager.t.

Definition demo_new : demo_store := new NoneEngine.new MemoryEventManager.new (Some 2%nat) 3.

Definition demo_run (ops : list storage_op) : demo_store :=
  storage_run ops demo_new.

Lemma demo_new_wf : storage_wf demo_new.
Proof. by split; simpl; intros ???; rewrite lookup_empty in *. Qed.

(** A session with one task pending and one running. *)
Definition demo_prog : list storage_op :=
  [ORegisterApplication "app" demo_app; OCreateSession demo_attr;
   OCreateTask "s1" None None; OCreateTask "s1" None None;
   OUpdateTaskState "s1" (mkTask 1 "s1" 1 None None ∅ 2 None [] TaskPending) TaskRunning None].

Lemma storage_invariant_witness : storage_wf (demo_run demo_prog).
Proof. exact (storage_invariant demo_prog demo_new demo_new_wf). Defined.

Lemma demo_run_wf ops : storage_wf (demo_run ops).
Proof.
  unfold demo_run, storage_run. pose proof demo_new_wf as Hs. revert Hs. generalize demo_new.
  induction ops as [|op ops IH]; simpl; intros s Hs; [done|].
  by apply IH, storage_apply_wf.
Qed.

(** Two closed sessions and an open one, over the limit of two. *)
Definition demo_full : demo_store :=
  with_sessions
    (<["s1" := session_with_completion SsnClosed (Some 9) 2 (session_from demo_attr 1)]>
     (<["s2" := session_with_completion SsnClosed (Some 5) 2 (session_from demo_attr 2)]>
      (<["s3" := session_from demo_attr 3]> ∅))) demo_new.


Definition demo_pending : demo_store :=
  demo_run [ORegisterApplication "app" demo_app; OCreateSession demo_attr;
            OCreateTask "s1" None None; OCreateTask "s1" (Some "in"%string) None].

Definition demo_pending_ssn : Session := default demo_session (st_sessions demo_pending !! "s1").

Lemma versions_below_check x :
  forallb (fun kt => (0 <=? task_version kt.2) && (task_version kt.2 <? u32_max))
    (map_to_list (pending_index x)) = true -> versions_below x.
Proof.
  intros Hall id t Ht. rewrite forallb_forall in Hall.
  assert (List.In (id, t) (map_to_list (pending_index x))) as Hin
    by (by apply list_elem_of_In, elem_of_map_to_list).
  specialize (Hall _ Hin). simpl in Hall. lia.
Qed.

Lemma demo_pending_versions : versions_below demo_pending_ssn.
Proof. apply versions_below_check. by vm_compute. Qed.

Lemma demo_pending_lookup : st_sessions demo_pending !! "s1" = Some demo_pending_ssn.
Proof. vm_compute. reflexivity. Qed.

Lemma close_session_spec_witness :
  let '(r, s') := close_session "s1" demo_pending in
  closed_ok demo_pending_ssn "s1" demo_pending r s' /\ is_ok r = true.
Proof.
  pose proof (close_session_spec "s1" demo_pending demo_pending_ssn (demo_run_wf _)
    demo_pending_lookup demo_pending_versions) as Hc.
  assert (is_ok (close_session "s1" demo_pending).1 = true) as Hok by (by vm_compute).
  destruct (close_session "s1" demo_pending) as [r s']. by split.
Defined.

Lemma closed_session_frozen_witness :
  create_task "s1" None None demo_full = (Err EInvalidState, demo_full).
Proof.
  exact (proj1 (closed_session_frozen "s1" demo_full _ eq_refl eq_refl) None None).
Defined.

Lemma list_sessions_spec_witness :
  exists out, list_sessions (Some (with_limit 1 (session_by_state SsnClosed))) demo_full = (Ok out, demo_full) /\
  length (strip <$> out) = 1%nat.
Proof.
  eexists. split; [by vm_compute|].
  erewrite (proj2 (list_sessions_spec (Some (with_limit 1 (session_by_state SsnClosed)))
    demo_full _ demo_full _)). by vm_compute.
  Unshelve. by vm_compute.
Defined.
