(* ===== verification/Executors.v ===== *)
(** * The executor state machine ([session_manager/src/controller/executors])

    The trait [States] is a record of operations, one record per state; [from]
    picks the record of an executor's state.  A state object works on a copy of
    an executor (or on the cached one, for tasks): an operation takes the
    executor and returns it changed, and what it does to the storage is in
    [M]. *)
From stdpp Require Import pretty.
From S2P Require Import Prelude Types Session Events Engine Storage.
Local Open Scope Z_scope.

Section executors.
Context `{Env} {E V : Type} `{Engine E} `{EventManager V}.
Abbreviation SM := (M (Storage E V)).

Record States := mkStates {
  register_executor : Executor -> SM Executor;
  release_executor : Executor -> SM Executor;
  unregister_executor : Executor -> SM Executor;
  bind_session : string -> Executor -> SM Executor;
  bind_session_completed : option FlameResult -> Executor -> SM Executor;
  unbind_executor : Executor -> SM Executor;
  unbind_executor_completed : Executor -> SM Executor;
  launch_task : string -> Task -> Executor -> SM (Executor * option Task);
  complete_task : string -> Task -> TaskResult -> Executor -> SM Executor
}.

(** [e.set_state(st)] with its clock reading. *)
Definition enter (st : ExecutorState) (e : Executor) : SM Executor :=
  t ← now;
  mret (set_state st t e).

(** [e.set_state(st); e.ssn_id = None; e.task_id = None]. *)
Definition enter_unbound (st : ExecutorState) (e : Executor) : SM Executor :=
  e ← enter st e;
  mret (executor_with_binding None None e).

(** [e.ssn_id = Some(ssn.id); e.set_state(Binding)]. *)
Definition enter_binding (ssn : string) (e : Executor) : SM Executor :=
  x ← get_session_ptr ssn;
  enter ExecBinding (executor_with_binding (ex_task_id e) (Some (ssn_id x)) e).

Definition invalid {A} : SM A := throw EInvalidState.

Definition VoidState : States := {|
  register_executor := enter ExecIdle;
  release_executor := fun _ => invalid;
  unregister_executor := fun _ => invalid;
  bind_session := fun _ _ => invalid;
  bind_session_completed := fun _ _ => invalid;
  unbind_executor := fun _ => invalid;
  unbind_executor_completed := fun _ => invalid;
  launch_task := fun _ _ _ => invalid;
  complete_task := fun _ _ _ _ => invalid
|}.

Definition IdleState : States := {|
  register_executor := fun _ => invalid;
  release_executor := enter ExecReleasing;
  unregister_executor := fun _ => invalid;
  bind_session := enter_binding;
  bind_session_completed := fun _ _ => invalid;
  unbind_executor := fun _ => invalid;
  unbind_executor_completed := fun _ => invalid;
  launch_task := fun _ _ _ => invalid;
  complete_task := fun _ _ _ _ => invalid
|}.

(** ** Binding *)

Definition bind_session_success (e : Executor) : SM Executor :=
  ssn ← lift (ok_or (ex_ssn_id e) EInvalidState);
  get_session_ptr ssn ≫= fun _ =>
  enter ExecBound e.

Definition bind_failure_message (e : Executor) (r : FlameResult) : string :=
  "Executor <" +:+ ex_id e +:+ "> on node <" +:+ ex_node e +:+
  "> failed to bind session with return_code <" +:+ pretty (fr_return_code r) +:+ ">: " +:+
  default EmptyString (fr_message r).

Definition record_bind_failure (e : Executor) (r : FlameResult) : SM unit :=
  ssn ← lift (ok_or (ex_ssn_id e) EInvalidState);
  t ← now;
  Storage.record_event (session_owner ssn)
    (mkEvent SESSION_BIND_FAILED (Some (bind_failure_message e r)) t).

Definition retry_limit_message (retry_count retry_limit : Z) : string :=
  "Session retry limit reached after " +:+ pretty retry_count +:+ "/" +:+ pretty retry_limit +:+
  " failed attempts; new executor assignment is paused for this session; existing executors are unchanged.".

Definition record_retry_limit_reached (ssn : string) (retry_count retry_limit : Z) : SM unit :=
  t ← now;
  Storage.record_event (session_owner ssn)
    (mkEvent SESSION_RETRY_LIMIT_REACHED (Some (retry_limit_message retry_count retry_limit)) t).

(** The event is recorded once, when the count crosses the limit. *)
Definition increment_session_retry_count (e : Executor) : SM unit :=
  ssn ← lift (ok_or (ex_ssn_id e) EInvalidState);
  retry_limit ← gets session_retry_limits;
  x ← get_session_ptr ssn;
  let previous := ssn_retry_count x in
  let retry_count := u32_saturating_add previous 1 in
  put_session ssn (session_with_retry_count retry_count x) ≫= fun _ =>
  if (previous <? retry_limit) && (retry_limit <=? retry_count)
  then record_retry_limit_reached ssn retry_count retry_limit
  else mret tt.

Definition bind_session_failed (r : FlameResult) (e : Executor) : SM Executor :=
  record_bind_failure e r ≫= fun _ =>
  increment_session_retry_count e ≫= fun _ =>
  enter_unbound ExecUnbinding e.

Definition binding_completed (result : option FlameResult) (e : Executor) : SM Executor :=
  match result with
  | Some r => if negb (fr_return_code r =? BIND_RESULT_OK) then bind_session_failed r e
              else bind_session_success e
  | None => bind_session_success e
  end.

Definition BindingState : States := {|
  register_executor := fun _ => invalid;
  release_executor := fun _ => invalid;
  unregister_executor := enter_unbound ExecReleased;
  bind_session := enter_binding;
  bind_session_completed := binding_completed;
  unbind_executor := enter ExecUnbinding;
  unbind_executor_completed := enter_unbound ExecIdle;
  launch_task := fun _ _ _ => invalid;
  complete_task := fun _ _ _ _ => invalid
|}.

(** ** Bound *)

(** The task returned is the one that was handed in, not its running copy. *)
Definition bound_launch_task (ssn : string) (task : Task) (e : Executor)
    : SM (Executor * option Task) :=
  Storage.update_task_state ssn task TaskRunning
    (Some ("Running task on host <" +:+ ex_node e +:+ ">.")) ≫= fun _ =>
  mret (executor_with_binding (Some (task_id task)) (Some (task_ssn_id task)) e, Some task).

Definition bound_complete_task (ssn : string) (task : Task) (result : TaskResult) (e : Executor)
    : SM Executor :=
  Storage.update_task_result ssn task result ≫= fun _ =>
  mret (executor_with_binding None (ex_ssn_id e) e).

Definition BoundState : States := {|
  register_executor := fun _ => invalid;
  release_executor := fun _ => invalid;
  unregister_executor := fun _ => invalid;
  bind_session := fun _ _ => invalid;
  bind_session_completed := fun _ _ => invalid;
  unbind_executor := enter ExecUnbinding;
  unbind_executor_completed := fun _ => invalid;
  launch_task := bound_launch_task;
  complete_task := bound_complete_task
|}.

(** ** Unbinding and releasing *)

Definition unbinding_complete_task (ssn : string) (task : Task) (result : TaskResult)
    (e : Executor) : SM Executor :=
  Storage.update_task_result ssn task result ≫= fun _ =>
  mret (executor_with_binding None None e).

Definition UnbindingState : States := {|
  register_executor := fun _ => invalid;
  release_executor := fun _ => invalid;
  unregister_executor := fun _ => invalid;
  bind_session := fun _ _ => invalid;
  bind_session_completed := fun _ _ => invalid;
  unbind_executor := enter_unbound ExecUnbinding;
  unbind_executor_completed := enter_unbound ExecIdle;
  launch_task := fun _ _ e => mret (e, None);
  complete_task := unbinding_complete_task
|}.

Definition ReleasingState : States := {|
  register_executor := fun _ => invalid;
  release_executor := fun _ => invalid;
  unregister_executor := enter ExecReleased;
  bind_session := fun _ _ => invalid;
  bind_session_completed := fun _ _ => invalid;
  unbind_executor := fun _ => invalid;
  unbind_executor_completed := fun _ => invalid;
  launch_task := fun _ _ _ => invalid;
  complete_task := fun _ _ _ _ => invalid
|}.

Definition from (e : Executor) : result States :=
  match ex_state e with
  | ExecVoid => Ok VoidState
  | ExecIdle => Ok IdleState
  | ExecBinding => Ok BindingState
  | ExecBound => Ok BoundState
  | ExecUnbinding => Ok UnbindingState
  | ExecReleasing => Ok ReleasingState
  | _ => Err EInvalidState
  end.
End executors.
Arguments States E V : clear implicits.
