(* ===== verification/Nodes.v ===== *)
(** * The node state machine ([session_manager/src/controller/nodes]) and the
    connection callbacks ([NodeCallbacks] of [controller/mod.rs])

    The trait [NodeStates] is a record of operations, one per state.  A node
    pointer is the name the node is cached under. *)
From S2P Require Import Prelude Types Filters Events Engine Storage.
Local Open Scope Z_scope.

Section nodes.
Context `{Env} {E V : Type} `{Engine E} `{EventManager V}.
Abbreviation SM := (M (Storage E V)).

Record NodeStates := mkNodeStates {
  register_node : string -> SM unit;
  drain : string -> SM unit;
  shutdown : string -> SM unit;
  update_node : Node -> string -> SM unit;
  release_node : string -> SM unit
}.

(** [node.state = st] through the pointer, and the name of the node. *)
Definition enter_node (st : NodeState) (name : string) : SM string :=
  n ← get_node_ptr name;
  put_node name (node_with_state st n) ≫= fun _ =>
  mret (node_name n).

(** The cached state first, then the engine. *)
Definition change_state (st : NodeState) (name : string) : SM unit :=
  node ← enter_node st name;
  update_node_state node st.

Definition NotReadyState : NodeStates := {|
  register_node := change_state NodeReady;
  drain := fun _ => throw EInvalidState;
  shutdown := fun _ => mret tt;
  update_node := fun _ _ => throw EInvalidState;
  release_node := fun _ => mret tt
|}.

(** A heartbeat replaces the resources and the platform; the state stays. *)
Definition node_with_report (updated n : Node) : Node :=
  mkNode (node_name n) (node_capacity updated) (node_allocatable updated) (node_info updated)
    (node_state n) (node_shims n).

Definition ReadyState : NodeStates := {|
  register_node := fun _ => mret tt;
  drain := change_state NodeUnknown;
  shutdown := fun _ => throw EInvalidState;
  update_node := fun updated name =>
    n ← get_node_ptr name;
    put_node name (node_with_report updated n);
  release_node := fun _ => mret tt
|}.

(** The executors of the node are deleted before the state is persisted. *)
Definition shutdown_unknown (name : string) : SM unit :=
  node ← enter_node NodeNotReady name;
  executors ← list_executors (Some (executor_by_node node));
  (if match executors with [] => true | _ => false end then mret [] else delete_executors executors) ≫= fun _ =>
  update_node_state node NodeNotReady.

Definition UnknownState : NodeStates := {|
  register_node := change_state NodeReady;
  drain := fun _ => throw EInvalidState;
  shutdown := shutdown_unknown;
  update_node := fun _ _ => throw EInvalidState;
  release_node := fun _ => mret tt
|}.

Definition from (n : Node) : NodeStates :=
  match node_state n with
  | NodeUnknown => UnknownState
  | NodeReady => ReadyState
  | NodeNotReady => NotReadyState
  end.

(** [if let Ok(node_ptr) = storage.get_node_ptr(name) { op(from(node_ptr))? }]. *)
Definition with_node (name : string) (op : NodeStates -> SM unit) : SM unit :=
  n ← gets (fun s => st_nodes s !! name);
  match n with
  | Some n => op (from n)
  | None => mret tt
  end.

(** ** Callbacks of the connection manager *)

Definition on_connected (name : string) : SM unit := with_node name (fun st => register_node st name).
Definition on_draining (name : string) : SM unit := with_node name (fun st => drain st name).
Definition on_closed (name : string) : SM unit := with_node name (fun st => shutdown st name).
End nodes.
Arguments NodeStates E V : clear implicits.
