(* ===== verification/Connections.v ===== *)
(** * Node connections ([session_manager/src/controller/connections] and
    [session_manager/src/model/connection])

    One connection per node, in one of three states.  A drain timer is a token:
    the task that sleeps on it is live until the token is cancelled or the
    timer fires.  The queue of a connection is the list of the updates not yet
    received; a sender that has to wait for room is not modelled. *)
From S2P Require Import Prelude Types.
Local Open Scope Z_scope.

Inductive ConnectionState := Connected | Draining | Closed.

#[export] Instance ConnectionState_eq_dec : EqDecision ConnectionState.
Proof. solve_decision. Defined.

Record NodeConnection := mkConnection {
  nc_node_name : string;
  nc_queue : list Executor;
  nc_state : ConnectionState;
  nc_drain_cancel : option nat
}.

Definition new_connection (name : string) : NodeConnection := mkConnection name [] Connected None.

Definition with_drain (st : ConnectionState) (cancel : option nat) (c : NodeConnection)
    : NodeConnection :=
  mkConnection (nc_node_name c) (nc_queue c) st cancel.

Definition with_queue (q : list Executor) (c : NodeConnection) : NodeConnection :=
  mkConnection (nc_node_name c) q (nc_state c) (nc_drain_cancel c).

(** What the manager tells its owner. *)
Class ConnectionCallbacks (C : Type) := {
  on_connected : string -> M C unit;
  on_draining : string -> M C unit;
  on_closed : string -> M C unit
}.

Record ConnectionManager (C : Type) := mkManager {
  cm_connections : gmap string NodeConnection;
  cm_timers : gmap nat string;
  cm_next_token : nat;
  cm_callbacks : C
}.
Arguments mkManager {C}.
Arguments cm_connections {C}.
Arguments cm_timers {C}.
Arguments cm_next_token {C}.
Arguments cm_callbacks {C}.

Section manager.
Context {C : Type} `{ConnectionCallbacks C}.
Abbreviation CM := (M (ConnectionManager C)).

Definition new (callbacks : C) : ConnectionManager C := mkManager ∅ ∅ 0 callbacks.

Definition with_connections m (k : ConnectionManager C) : ConnectionManager C :=
  mkManager m (cm_timers k) (cm_next_token k) (cm_callbacks k).
Definition with_timers m n (k : ConnectionManager C) : ConnectionManager C :=
  mkManager (cm_connections k) m n (cm_callbacks k).
Definition with_callbacks c (k : ConnectionManager C) : ConnectionManager C :=
  mkManager (cm_connections k) (cm_timers k) (cm_next_token k) c.

Definition put_connection (name : string) (c : NodeConnection) : CM unit :=
  modify (fun k => with_connections (<[name := c]> (cm_connections k)) k).

Definition callback (m : M C unit) : CM unit := zoom cm_callbacks with_callbacks m.

(** [cancel_token.cancel()]: the task that sleeps on it ends. *)
Definition cancel (token : nat) : CM unit :=
  modify (fun k => with_timers (delete token (cm_timers k)) (cm_next_token k) k).

(** ** The states of a connection *)

Record ConnectionStates := mkConnectionStates {
  cs_connect : string -> NodeConnection -> CM ConnectionState;
  cs_drain : string -> NodeConnection -> CM unit;
  cs_close : string -> NodeConnection -> CM unit;
  cs_notify_executor : Executor -> string -> NodeConnection -> CM unit
}.

(** [sender.send(executor)]: the queue is never closed. *)
Definition send (executor : Executor) (name : string) (c : NodeConnection) : CM unit :=
  put_connection name (with_queue (nc_queue c ++ [executor]) c).

Definition ConnectedState : ConnectionStates := {|
  cs_connect := fun _ _ => mret Connected;
  cs_drain := fun name c => put_connection name (with_drain Draining (nc_drain_cancel c) c);
  cs_close := fun _ _ => throw EInvalidState;
  cs_notify_executor := send
|}.

Definition DrainingState : ConnectionStates := {|
  cs_connect := fun name c =>
    match nc_drain_cancel c with Some token => cancel token | None => mret tt end ≫= fun _ =>
    put_connection name (with_drain Connected None c) ≫= fun _ =>
    mret (nc_state c);
  cs_drain := fun _ _ => throw EInvalidState;
  cs_close := fun name c => put_connection name (with_drain Closed None c);
  cs_notify_executor := fun _ _ _ => throw EInvalidState
|}.

Definition ClosedState : ConnectionStates := {|
  cs_connect := fun _ _ => throw EInvalidState;
  cs_drain := fun _ _ => throw EInvalidState;
  cs_close := fun _ _ => throw EInvalidState;
  cs_notify_executor := fun _ _ _ => throw EInvalidState
|}.

Definition from (c : NodeConnection) : ConnectionStates :=
  match nc_state c with
  | Connected => ConnectedState
  | Draining => DrainingState
  | Closed => ClosedState
  end.

(** ** The manager *)

Definition connect (name : string) : CM unit :=
  existing ← gets (fun k => cm_connections k !! name);
  c ← match existing with
      | Some c => mret c
      | None => put_connection name (new_connection name) ≫= fun _ => mret (new_connection name)
      end;
  cs_connect (from c) name c ≫= fun _ =>
  callback (on_connected name).

Definition setup_drain_timer (name : string) : CM unit :=
  modify (fun k =>
    let token := cm_next_token k in
    with_timers (<[token := name]> (cm_timers k)) (S token)
      (with_connections (alter (fun c => with_drain (nc_state c) (Some token) c) name
                           (cm_connections k)) k)).

Definition drain (name : string) : CM bool :=
  existing ← gets (fun k => cm_connections k !! name);
  match existing with
  | None => mret false
  | Some c =>
      r ← attempt (cs_drain (from c) name c);
      match r with
      | Err EInvalidState => mret false
      | _ =>
          setup_drain_timer name ≫= fun _ =>
          callback (on_draining name) ≫= fun _ =>
          mret true
      end
  end.

Definition handle_drain_timeout (name : string) : CM unit :=
  existing ← gets (fun k => cm_connections k !! name);
  match existing with
  | None => mret tt
  | Some c =>
      cs_close (from c) name c ≫= fun _ =>
      callback (on_closed name) ≫= fun _ =>
      modify (fun k => with_connections (delete name (cm_connections k)) k)
  end.

(** The timer of a token fires: its task ends, and an error is logged. *)
Definition fire_timer (token : nat) : CM unit :=
  timer ← gets (fun k => cm_timers k !! token);
  match timer with
  | None => mret tt
  | Some name =>
      modify (fun k => with_timers (delete token (cm_timers k)) (cm_next_token k) k) ≫= fun _ =>
      attempt (handle_drain_timeout name) ≫= fun _ =>
      mret tt
  end.

Definition get_state (name : string) (k : ConnectionManager C) : option ConnectionState :=
  nc_state <$> cm_connections k !! name.

Definition is_connected (name : string) (k : ConnectionManager C) : bool :=
  bool_decide (get_state name k = Some Connected).

Definition notify_executor (name : string) (executor : Executor) : CM unit :=
  existing ← gets (fun k => cm_connections k !! name);
  c ← lift (ok_or existing ENotFound);
  cs_notify_executor (from c) executor name c.

(** [receiver.recv()] when an update is queued. *)
Definition recv (name : string) : CM (option Executor) :=
  existing ← gets (fun k => cm_connections k !! name);
  match existing with
  | None => mret None
  | Some c =>
      match nc_queue c with
      | [] => mret None
      | e :: q => put_connection name (with_queue q c) ≫= fun _ => mret (Some e)
      end
  end.
End manager.
Arguments ConnectionStates C : clear implicits.

(** ** The invariant: timers and draining connections correspond *)

Record conn_wf {C} (k : ConnectionManager C) : Prop := {
  cw_timer : forall token name, cm_timers k !! token = Some name ->
    (token < cm_next_token k)%nat /\
    exists c, cm_connections k !! name = Some c /\ nc_state c = Draining /\
      nc_drain_cancel c = Some token;
  cw_draining : forall name c, cm_connections k !! name = Some c -> nc_state c = Draining ->
    exists token, nc_drain_cancel c = Some token /\ cm_timers k !! token = Some name;
  cw_other : forall name c, cm_connections k !! name = Some c -> nc_state c <> Draining ->
    nc_drain_cancel c = None
}.

(** The events a manager goes through. *)
Inductive conn_op :=
  | KConnect (name : string)
  | KDrain (name : string)
  | KFire (token : nat)
  | KNotify (name : string) (e : Executor)
  | KRecv (name : string).

Section invariant.
Context {C : Type} `{ConnectionCallbacks C}.
Implicit Types k : ConnectionManager C.

Definition conn_apply (op : conn_op) (k : ConnectionManager C) : ConnectionManager C :=
  match op with
  | KConnect name => (connect name k).2
  | KDrain name => (drain name k).2
  | KFire token => (fire_timer token k).2
  | KNotify name e => (notify_executor name e k).2
  | KRecv name => (recv name k).2
  end.

Definition conn_run (ops : list conn_op) (k : ConnectionManager C) : ConnectionManager C :=
  foldl (fun k op => conn_apply op k) k ops.

Lemma keeps_callback (P : ConnectionManager C -> Prop) m :
  (forall k c, P k -> P (with_callbacks c k)) -> keeps P (callback m).
Proof. apply keeps_zoom. Qed.

Lemma conn_wf_callbacks c k : conn_wf k -> conn_wf (with_callbacks c k).
Proof. by intros []; split. Qed.
Hint Resolve keeps_callback conn_wf_callbacks : flame.

(** Replacing a connection by one in the same state with the same timer. *)
Lemma conn_wf_same name c c' k :
  conn_wf k -> cm_connections k !! name = Some c ->
  nc_state c' = nc_state c -> nc_drain_cancel c' = nc_drain_cancel c ->
  conn_wf (with_connections (<[name := c']> (cm_connections k)) k).
Proof.
  intros [Ht Hd Ho] Hc Hs Hx. split; simpl.
  - intros token n Htn. destruct (Ht _ _ Htn) as (Hlt & c0 & Hc0 & Hst & Hcan). split; [done|].
    destruct (decide (name = n)) as [->|]; [|exists c0; by rewrite lookup_insert_ne].
    simplify_eq. exists c'. rewrite lookup_insert_eq, Hs, Hx. done.
  - intros n c0 [[<- <-]|[_ Hc0]]%lookup_insert_Some Hst; [|by eauto].
    rewrite Hx. apply Hd; [done|congruence].
  - intros n c0 [[<- <-]|[_ Hc0]]%lookup_insert_Some Hst; [|by eauto].
    rewrite Hx. eapply Ho; [done|congruence].
Qed.

(** A connection that is not draining may be added or replaced. *)
Lemma conn_wf_put name c k :
  conn_wf k -> (forall token, cm_timers k !! token <> Some name) ->
  nc_state c <> Draining -> nc_drain_cancel c = None ->
  conn_wf (with_connections (<[name := c]> (cm_connections k)) k).
Proof.
  intros [Ht Hd Ho] Hno Hs Hx. split; simpl.
  - intros token n Htn. destruct (Ht _ _ Htn) as (Hlt & c0 & Hc0 & Hst & Hcan). split; [done|].
    exists c0. rewrite lookup_insert_ne; [done|]. intros <-. by apply (Hno token).
  - intros n c0 [[<- <-]|[_ Hc0]]%lookup_insert_Some Hst; [done|by eauto].
  - intros n c0 [[<- <-]|[_ Hc0]]%lookup_insert_Some Hst; [done|by eauto].
Qed.

(** Ending the timer of a draining connection together with the draining. *)
Lemma conn_wf_end name c token st k :
  conn_wf k -> cm_connections k !! name = Some c -> nc_state c = Draining ->
  nc_drain_cancel c = Some token -> st <> Draining ->
  conn_wf (with_connections (<[name := with_drain st None c]> (cm_connections k))
             (with_timers (delete token (cm_timers k)) (cm_next_token k) k)).
Proof.
  intros [Ht Hd Ho] Hc Hs Hx Hst. split; simpl.
  - intros t n [Hne Htn]%lookup_delete_Some. destruct (Ht _ _ Htn) as (Hlt & c0 & Hc0 & ? & Hcan).
    split; [done|]. exists c0. rewrite lookup_insert_ne; [done|]. intros <-. simplify_eq.
  - intros n c0 [[<- <-]|[Hne Hc0]]%lookup_insert_Some Hd0; [done|].
    destruct (Hd _ _ Hc0 Hd0) as (t & Hcan & Htn). exists t. split; [done|].
    rewrite lookup_delete_ne; [done|]. intros <-.
    destruct (Ht _ _ Htn) as (_ & c1 & ? & _ & _).
    destruct (Hd _ _ Hc Hs) as (t' & ? & Ht'). simplify_eq.
  - intros n c0 [[<- <-]|[_ Hc0]]%lookup_insert_Some Hd0; [done|by eauto].
Qed.

Lemma no_timer name k :
  conn_wf k ->
  match cm_connections k !! name with Some c => nc_state c <> Draining | None => True end ->
  forall token, cm_timers k !! token <> Some name.
Proof.
  intros Hk Hn token Ht. destruct (cw_timer k Hk _ _ Ht) as (_ & c & Hc & Hs & _).
  by rewrite Hc in Hn.
Qed.

Lemma connect_wf name : keeps conn_wf (connect name).
Proof.
  intros k Hk. unfold connect, mbind, M_bind, gets.
  destruct (cm_connections k !! name) as [c|] eqn:Hc; simpl.
  - unfold from. destruct (nc_state c) eqn:Hs; simpl.
    + apply (keeps_callback conn_wf); auto with flame.
    + destruct (cw_draining k Hk _ _ Hc Hs) as (token & Hcan & Ht). unfold mbind, M_bind.
      rewrite Hcan. simpl. apply (keeps_callback conn_wf); [auto with flame|].
      by apply conn_wf_end.
    + done.
  - apply (keeps_callback conn_wf); [auto with flame|]. apply conn_wf_put; try done.
    apply no_timer; [done|]. by rewrite Hc.
Qed.

Lemma drain_wf name : keeps conn_wf (drain name).
Proof.
  intros k Hk. unfold drain, mbind, M_bind, gets.
  destruct (cm_connections k !! name) as [c|] eqn:Hc; simpl; [|done].
  unfold from, attempt. destruct (nc_state c) eqn:Hs; simpl; [|done|done].
  set (k' := with_timers _ _ _). assert (conn_wf k') as Hk'.
  { pose proof (no_timer name k Hk) as Hno. rewrite Hc, Hs in Hno. specialize (Hno ltac:(done)).
    unfold k'. rewrite alter_insert_eq. destruct Hk as [Ht Hd Ho]. split; simpl.
    - intros token n [[<- <-]|[_ Htn]]%lookup_insert_Some.
      { split; [lia|]. eexists. rewrite lookup_insert_eq. done. }
      destruct (Ht _ _ Htn) as (Hlt & c0 & Hc0 & ?). split; [lia|]. exists c0.
      rewrite lookup_insert_ne; [done|]. intros <-. by destruct (Hno token).
    - intros n c0 [[<- <-]|[Hne Hc0]]%lookup_insert_Some Hd0.
      { eexists. split; [done|]. by rewrite lookup_insert_eq. }
      destruct (Hd _ _ Hc0 Hd0) as (t & Hcan & Htn). exists t. split; [done|].
      rewrite lookup_insert_ne; [done|]. intros <-. destruct (Ht _ _ Htn). lia.
    - intros n c0 [[<- <-]|[_ Hc0]]%lookup_insert_Some Hd0; [done|by eauto]. }
  pose proof (keeps_callback conn_wf (on_draining name) (fun k c => conn_wf_callbacks c k) k' Hk').
  by destruct (callback (on_draining name) k') as [[] ?].
Qed.

Lemma fire_timer_wf token : keeps conn_wf (fire_timer token).
Proof.
  intros k Hk. unfold fire_timer, mbind, M_bind, gets.
  destruct (cm_timers k !! token) as [name|] eqn:Ht; simpl; [|done].
  destruct (cw_timer k Hk _ _ Ht) as (_ & c & Hc & Hs & Hcan).
  enough (conn_wf (handle_drain_timeout name
    (with_timers (delete token (cm_timers k)) (cm_next_token k) k)).2) as Hh.
  { unfold attempt. by destruct (handle_drain_timeout _ _) as [[] ?]. }
  unfold handle_drain_timeout, mbind, M_bind, gets. simpl. rewrite Hc. unfold from. rewrite Hs. simpl.
  set (k' := with_connections _ _).
  assert (conn_wf k' /\ nc_state <$> cm_connections k' !! name = Some Closed) as [Hk' Hcl].
  { split; [by apply conn_wf_end|]. simpl. by rewrite lookup_insert_eq. }
  pose proof (keeps_callback (fun k => conn_wf k /\ nc_state <$> cm_connections k !! name = Some Closed)
    (on_closed name)) as Hcb. specialize (Hcb (fun k c '(conj H1 H2) => conj (conn_wf_callbacks c k H1) H2) k' (conj Hk' Hcl)).
  destruct (callback (on_closed name) k') as [[] k2]; simpl in *; [|tauto|tauto].
  destruct Hcb as [Hk2 Hst]. pose proof (no_timer name k2 Hk2) as Hno.
  destruct (cm_connections k2 !! name) as [c2|] eqn:Hc2; [|done]. injection Hst as Hst.
  rewrite Hst in Hno. specialize (Hno ltac:(done)). destruct Hk2 as [H1 H2 H3]. split; simpl.
  - intros t n Htn. destruct (H1 _ _ Htn) as (Hlt & c0 & ? & ?). split; [done|]. exists c0.
    rewrite lookup_delete_ne; [done|]. intros <-. by destruct (Hno t).
  - intros n c0 [_ Hc0]%lookup_delete_Some. by eauto.
  - intros n c0 [_ Hc0]%lookup_delete_Some. by eauto.
Qed.

Lemma conn_apply_wf op k : conn_wf k -> conn_wf (conn_apply op k).
Proof.
  destruct op as [name|name|token|name e|name]; simpl.
  - apply connect_wf.
  - apply drain_wf.
  - apply fire_timer_wf.
  - intros Hk. unfold notify_executor, mbind, M_bind, gets, lift.
    destruct (cm_connections k !! name) as [c|] eqn:Hc; simpl; [|done].
    unfold from. destruct (nc_state c) eqn:Hs; simpl; [|done|done]. by eapply conn_wf_same.
  - intros Hk. unfold recv, mbind, M_bind, gets.
    destruct (cm_connections k !! name) as [c|] eqn:Hc; simpl; [|done].
    destruct (nc_queue c); simpl; [done|]. by eapply conn_wf_same.
Qed.
End invariant.

(** ** A connection that stays closed *)

Section stuck.
Context {C : Type} `{ConnectionCallbacks C} (name : string).

Definition stuck (k : ConnectionManager C) : Prop :=
  conn_wf k /\ get_state name k = Some Closed.

Lemma stuck_lookup k : stuck k -> exists c, cm_connections k !! name = Some c /\ nc_state c = Closed.
Proof.
  intros [_ Hs]. unfold get_state in Hs. destruct (cm_connections k !! name) as [c|]; [|done].
  injection Hs as Hs. eauto.
Qed.

Lemma keeps_stuck_callback (m : M C unit) :
  keeps (fun k : ConnectionManager C => get_state name k = Some Closed) (callback m).
Proof. by apply keeps_callback. Qed.

Lemma stuck_put n c (k k' : ConnectionManager C) :
  get_state name k = Some Closed -> cm_connections k' = <[n := c]> (cm_connections k) ->
  (n = name -> nc_state c = Closed) -> get_state name k' = Some Closed.
Proof.
  intros Hs Hk' Hc. unfold get_state in *. rewrite Hk'. destruct (decide (n = name)) as [->|].
  - rewrite lookup_insert_eq. simpl. f_equal. auto.
  - by rewrite lookup_insert_ne.
Qed.

Lemma stuck_apply op k : stuck k -> stuck (conn_apply op k).
Proof.
  intros Hst. destruct (stuck_lookup k Hst) as (c & Hc & Hcl). destruct Hst as [Hk Hs].
  split; [by apply conn_apply_wf|]. destruct op as [n|n|token|n e|n]; simpl.
  - unfold connect, mbind, M_bind, gets. destruct (cm_connections k !! n) as [c'|] eqn:Hc'; simpl.
    + unfold from. destruct (nc_state c') eqn:Hs'; simpl; [by apply keeps_stuck_callback| |done].
      unfold mbind, M_bind. destruct (nc_drain_cancel c'); simpl; apply keeps_stuck_callback;
        (eapply (stuck_put _ _ k); [done|reflexivity|]; intros ->; congruence).
    + apply keeps_stuck_callback. eapply (stuck_put _ _ k); [done|reflexivity|]. intros ->. congruence.
  - unfold drain, mbind, M_bind, gets. destruct (cm_connections k !! n) as [c'|] eqn:Hc'; simpl; [|done].
    unfold from, attempt. destruct (nc_state c') eqn:Hs'; simpl; [|done|done].
    assert (n <> name) by (intros ->; congruence). set (k' := with_timers _ _ _).
    assert (get_state name k' = Some Closed) as Hk'.
    { unfold k', get_state in *. simpl. by rewrite lookup_alter_ne, lookup_insert_ne. }
    pose proof (keeps_stuck_callback (on_draining n) k' Hk').
    by destruct (callback (on_draining n) k') as [[] ?].
  - unfold fire_timer, mbind, M_bind, gets. destruct (cm_timers k !! token) as [n|] eqn:Ht; simpl; [|done].
    destruct (cw_timer k Hk _ _ Ht) as (_ & c' & Hc' & Hs' & _).
    assert (n <> name) by (intros ->; congruence).
    enough (get_state name (handle_drain_timeout n
      (with_timers (delete token (cm_timers k)) (cm_next_token k) k)).2 = Some Closed) as Hh.
    { unfold attempt. by destruct (handle_drain_timeout _ _) as [[] ?]. }
    unfold handle_drain_timeout, mbind, M_bind, gets. simpl. rewrite Hc'. unfold from. rewrite Hs'. simpl.
    set (k' := with_connections _ _). assert (get_state name k' = Some Closed) as Hk'
      by (by eapply (stuck_put _ _ k); [done|reflexivity|]).
    pose proof (keeps_stuck_callback (on_closed n) k' Hk') as Hcb.
    destruct (callback (on_closed n) k') as [[] k2]; simpl in *; [|done|done].
    unfold get_state in *. simpl. by rewrite lookup_delete_ne.
  - unfold notify_executor, mbind, M_bind, gets, lift. destruct (cm_connections k !! n) as [c'|] eqn:Hc';
      simpl; [|done]. unfold from. destruct (nc_state c') eqn:Hs'; simpl; [|done|done].
    eapply (stuck_put _ _ k); [done|reflexivity|]. intros ->. congruence.
  - unfold recv, mbind, M_bind, gets. destruct (cm_connections k !! n) as [c'|] eqn:Hc'; simpl; [|done].
    destruct (nc_queue c'); simpl; [done|]. eapply (stuck_put _ _ k); [done|reflexivity|]. intros ->. simpl. congruence.
Qed.

Lemma stuck_run ops k : stuck k -> stuck (conn_run ops k).
Proof. revert k. induction ops as [|op ops IH]; simpl; intros k Hk; [done|]. by apply IH, stuck_apply. Qed.
End stuck.

(** ** Properties *)

(** When each call runs as one step, whatever the node events, the failures of
    the callbacks and the timers that fire, drain timers and draining
    connections correspond one to one ([Draining] has the calls side by side):
    every live timer is the one of a connection that is draining, every
    draining connection has its timer, and no node has two. *)
Theorem connection_timers {C} `{ConnectionCallbacks C} (callbacks : C) ops :
  let k := conn_run ops (new callbacks) in
  conn_wf k /\
  forall t1 t2 name, cm_timers k !! t1 = Some name -> cm_timers k !! t2 = Some name -> t1 = t2.
Proof.
  intros k. assert (conn_wf k) as Hk.
  { unfold k. assert (conn_wf (new callbacks)) as Hn by (by split; simpl; intros ???; rewrite lookup_empty in *).
    revert Hn. generalize (new callbacks). clear k. induction ops as [|op ops IH]; simpl; [done|].
    intros k Hk. by apply IH, conn_apply_wf. }
  split; [done|]. intros t1 t2 name H1 H2.
  destruct (cw_timer k Hk _ _ H1) as (_ & c1 & Hc1 & _ & Hx1).
  destruct (cw_timer k Hk _ _ H2) as (_ & c2 & Hc2 & _ & Hx2). congruence.
Qed.

(** If the callback of a closed connection fails, the connection is never
    removed from the registry: after the drain timeout of the node, whatever
    happens next, every attempt of the node to connect is refused. *)
Theorem failed_close_blocks_node {C} `{ConnectionCallbacks C} (k : ConnectionManager C) token name e ops :
  conn_wf k -> cm_timers k !! token = Some name ->
  (on_closed name (cm_callbacks k)).1 = Err e ->
  (connect name (conn_run ops (fire_timer token k).2)).1 = Err EInvalidState.
Proof.
  intros Hk Ht He. assert (stuck name (fire_timer token k).2) as Hst.
  { split; [by apply fire_timer_wf|].
    destruct (cw_timer k Hk _ _ Ht) as (_ & c & Hc & Hs & _).
    unfold fire_timer, handle_drain_timeout, attempt, mbind, M_bind, gets. simpl. rewrite Ht. simpl.
    rewrite Hc. unfold from. rewrite Hs. simpl. unfold callback, zoom. simpl.
    destruct (on_closed name (cm_callbacks k)) as [r cb]. simpl in He. subst r. simpl.
    unfold get_state. simpl. by rewrite lookup_insert_eq. }
  apply (stuck_run name ops) in Hst. destruct (stuck_lookup _ _ Hst) as (c & Hc & Hs).
  unfold connect, mbind, M_bind, gets. rewrite Hc. simpl. unfold from. by rewrite Hs.
Qed.

(** ** Witness *)

(** Callbacks that fail when a connection closes. *)
#[local] Instance demo_callbacks : ConnectionCallbacks unit := {
  on_connected := fun _ => mret tt;
  on_draining := fun _ => mret tt;
  on_closed := fun _ => throw EStorage
}.

Definition demo_manager : ConnectionManager unit := conn_run [KConnect "n1"; KDrain "n1"] (new tt).

Lemma demo_manager_wf : conn_wf demo_manager.
Proof.
  unfold demo_manager, conn_run. simpl. repeat apply drain_wf. apply connect_wf.
  by split; simpl; intros ???; rewrite lookup_empty in *.
Qed.

Lemma failed_close_blocks_node_witness :
  (connect "n1" (conn_run [KRecv "n1"] (fire_timer 0 demo_manager).2)).1 = Err EInvalidState.
Proof.
  exact (failed_close_blocks_node demo_manager 0 "n1" EStorage [KRecv "n1"] demo_manager_wf
    eq_refl eq_refl).
Defined.
