(* ===== verification/Draining.v ===== *)
(** * Connections between critical sections ([session_manager/src/controller/connections])

    [Connections] runs each call of the connection manager as one step.  Here the
    calls run side by side, one critical section at a time: looking the
    connection up in the registry, building the handler of the state it is in,
    running the handler, storing the drain timer, and the same for the task of
    a timer.  Between two of them other calls and timers run, so a handler may
    find the connection in another state than the one it was built for.  Queues
    and callbacks take no part in this. *)
From S2P Require Import Prelude Connections.

(** What a section changes of a connection: its state and its timer. *)
Record Conn := mkConn { cn_state : ConnectionState; cn_cancel : option nat }.

(** A call and its next section.  [ConnectAs] and [DrainAs] have the handler of
    the state the connection was in. *)
Inductive call :=
  | ConnectFrom (name : string) (ptr : nat)
  | ConnectAs (name : string) (ptr : nat) (handler : ConnectionState)
  | DrainFrom (name : string) (ptr : nat)
  | DrainAs (name : string) (ptr : nat) (handler : ConnectionState)
  | SetupTimer (name : string) (ptr : nat).

(** The task of a drain timer. *)
Inductive timer :=
  | Sleeping (name : string) (ptr : nat)
  | Expired (name : string) (ptr : nat)
  | CloseAs (name : string) (ptr : nat) (handler : ConnectionState)
  | OnClosed (name : string).

Record Manager := mkSections {
  sm_registry : gmap string nat;
  sm_conns : gmap nat Conn;
  sm_timers : gmap nat timer;
  sm_calls : gmap nat call;
  sm_next : nat
}.

Definition start : Manager := mkSections ∅ ∅ ∅ ∅ 0.

Definition set_conn (ptr : nat) (c : Conn) (m : Manager) : Manager :=
  mkSections (sm_registry m) (<[ptr := c]> (sm_conns m)) (sm_timers m) (sm_calls m) (sm_next m).
Definition set_timers (ts : gmap nat timer) (m : Manager) : Manager :=
  mkSections (sm_registry m) (sm_conns m) ts (sm_calls m) (sm_next m).
Definition set_calls (cs : gmap nat call) (m : Manager) : Manager :=
  mkSections (sm_registry m) (sm_conns m) (sm_timers m) cs (sm_next m).

(** [cancel_token.cancel()]: a task that still sleeps ends. *)
Definition cancel_timer (token : nat) (ts : gmap nat timer) : gmap nat timer :=
  match ts !! token with Some (Sleeping _ _) => delete token ts | _ => ts end.

(** [ConnectionStates::connect] of the handler, on the connection as it is. *)
Definition handler_connect (handler : ConnectionState) (ptr : nat) (c : Conn) (m : Manager) : Manager :=
  match handler with
  | Draining =>
      set_conn ptr (mkConn Connected None)
        (match cn_cancel c with Some token => set_timers (cancel_timer token (sm_timers m)) m | None => m end)
  | Connected | Closed => m
  end.

(** [ConnectionStates::drain]: whether it succeeded. *)
Definition handler_drain (handler : ConnectionState) (ptr : nat) (c : Conn) (m : Manager) : bool * Manager :=
  match handler with
  | Connected => (true, set_conn ptr (mkConn Draining (cn_cancel c)) m)
  | Draining | Closed => (false, m)
  end.

(** [ConnectionStates::close]. *)
Definition handler_close (handler : ConnectionState) (ptr : nat) (m : Manager) : bool * Manager :=
  match handler with
  | Draining => (true, set_conn ptr (mkConn Closed None) m)
  | Connected | Closed => (false, m)
  end.

(** The first section of [connect] and of [drain]. *)
Definition begin_connect (tid : nat) (name : string) (m : Manager) : Manager :=
  match sm_registry m !! name with
  | Some ptr => set_calls (<[tid := ConnectFrom name ptr]> (sm_calls m)) m
  | None =>
      let ptr := sm_next m in
      mkSections (<[name := ptr]> (sm_registry m)) (<[ptr := mkConn Connected None]> (sm_conns m))
        (sm_timers m) (<[tid := ConnectFrom name ptr]> (sm_calls m)) (S ptr)
  end.

Definition begin_drain (tid : nat) (name : string) (m : Manager) : Manager :=
  match sm_registry m !! name with
  | Some ptr => set_calls (<[tid := DrainFrom name ptr]> (sm_calls m)) m
  | None => m
  end.

(** The next section of a call. *)
Definition run_call (tid : nat) (m : Manager) : Manager :=
  let continue c := set_calls (<[tid := c]> (sm_calls m)) in
  let return_ m' := set_calls (delete tid (sm_calls m')) m' in
  match sm_calls m !! tid with
  | None => m
  | Some call =>
      match call with
      | ConnectFrom name ptr =>
          match sm_conns m !! ptr with
          | Some c => continue (ConnectAs name ptr (cn_state c)) m
          | None => m
          end
      | ConnectAs name ptr handler =>
          match sm_conns m !! ptr with
          | Some c => return_ (handler_connect handler ptr c m)
          | None => m
          end
      | DrainFrom name ptr =>
          match sm_conns m !! ptr with
          | Some c => continue (DrainAs name ptr (cn_state c)) m
          | None => m
          end
      | DrainAs name ptr handler =>
          match sm_conns m !! ptr with
          | Some c =>
              let '(ok, m') := handler_drain handler ptr c m in
              if (ok : bool) then set_calls (<[tid := SetupTimer name ptr]> (sm_calls m')) m'
              else return_ m'
          | None => m
          end
      | SetupTimer name ptr =>
          match sm_conns m !! ptr with
          | Some c =>
              let token := sm_next m in
              return_ (mkSections (sm_registry m) (<[ptr := mkConn (cn_state c) (Some token)]> (sm_conns m))
                (<[token := Sleeping name ptr]> (sm_timers m)) (sm_calls m) (S token))
          | None => m
          end
      end
  end.

(** The next section of a timer's task; [ok] is the answer of [on_closed]. *)
Definition run_timer (token : nat) (ok : bool) (m : Manager) : Manager :=
  match sm_timers m !! token with
  | None => m
  | Some (Sleeping name ptr) => set_timers (<[token := Expired name ptr]> (sm_timers m)) m
  | Some (Expired name ptr) =>
      match sm_conns m !! ptr with
      | Some c => set_timers (<[token := CloseAs name ptr (cn_state c)]> (sm_timers m)) m
      | None => m
      end
  | Some (CloseAs name ptr handler) =>
      match sm_conns m !! ptr with
      | Some _ =>
          let '(closed, m') := handler_close handler ptr m in
          set_timers (if (closed : bool) then <[token := OnClosed name]> (sm_timers m')
                      else delete token (sm_timers m')) m'
      | None => m
      end
  | Some (OnClosed name) =>
      let m' := set_timers (delete token (sm_timers m)) m in
      if ok then mkSections (delete name (sm_registry m')) (sm_conns m') (sm_timers m') (sm_calls m') (sm_next m')
      else m'
  end.

Inductive section :=
  | BeginConnect (tid : nat) (name : string)
  | BeginDrain (tid : nat) (name : string)
  | RunCall (tid : nat)
  | RunTimer (token : nat) (ok : bool).

(** A call number that is in use is not given to another call. *)
Definition run_section (s : section) (m : Manager) : Manager :=
  match s with
  | BeginConnect tid name => match sm_calls m !! tid with None => begin_connect tid name m | Some _ => m end
  | BeginDrain tid name => match sm_calls m !! tid with None => begin_drain tid name m | Some _ => m end
  | RunCall tid => run_call tid m
  | RunTimer token ok => run_timer token ok m
  end.

Definition run_sections (ss : list section) : Manager := foldl (fun m s => run_section s m) start ss.

(** ** No connection is left draining *)

(** The task will close the connection [ptr]. *)
Definition will_close (ptr : nat) (t : timer) : Prop :=
  match t with
  | Sleeping _ p | Expired _ p | CloseAs _ p Draining => p = ptr
  | _ => False
  end.

(** Someone sees to the connection [ptr]: a call is about to start its timer, or
    the timer it names will close it. *)
Definition attended (m : Manager) (ptr : nat) (c : Conn) : Prop :=
  (exists tid name, sm_calls m !! tid = Some (SetupTimer name ptr)) \/
  (exists token t, cn_cancel c = Some token /\ sm_timers m !! token = Some t /\ will_close ptr t).

Definition drains_end (m : Manager) : Prop :=
  forall ptr c, sm_conns m !! ptr = Some c -> cn_state c = Draining -> attended m ptr c.

(** The task is for the connection [ptr], if for any. *)
Definition belongs (ptr : nat) (t : timer) : Prop :=
  match t with Sleeping _ p | Expired _ p | CloseAs _ p _ => p = ptr | OnClosed _ => True end.

(** Numbers in use are not fresh, a connection names timers of its own, and
    nothing is left draining. *)
Record sections_ok (m : Manager) : Prop := {
  so_conns : forall ptr c, sm_conns m !! ptr = Some c -> ptr < sm_next m /\
    forall token, cn_cancel c = Some token -> token < sm_next m /\
      forall t, sm_timers m !! token = Some t -> belongs ptr t;
  so_timers : forall token t, sm_timers m !! token = Some t -> token < sm_next m;
  so_drains : drains_end m
}.

Lemma start_ok : sections_ok start.
Proof. split; intros * ?; simpl in *; by simplify_map_eq. Qed.

(** Who sees to a connection still does when his call and his timer are kept. *)
Lemma attended_mono m m' ptr c :
  attended m ptr c ->
  (forall tid name, sm_calls m !! tid = Some (SetupTimer name ptr) -> sm_calls m' !! tid = Some (SetupTimer name ptr)) ->
  (forall token t, cn_cancel c = Some token -> sm_timers m !! token = Some t -> will_close ptr t ->
     exists t', sm_timers m' !! token = Some t' /\ will_close ptr t') ->
  attended m' ptr c.
Proof.
  intros [(tid & name & Ht)|(token & t & Hc & Ht & Hw)] Hcalls Htimers.
  - left. exists tid, name. by apply Hcalls.
  - right. destruct (Htimers token t Hc Ht Hw) as (t' & ? & ?). by exists token, t'.
Qed.

(** A call moves on, or returns, and changes nothing else. *)
Lemma calls_ok m cs :
  sections_ok m ->
  (forall tid name ptr, sm_calls m !! tid = Some (SetupTimer name ptr) -> cs !! tid = Some (SetupTimer name ptr)) ->
  sections_ok (set_calls cs m).
Proof.
  intros [Hc Ht Hd] Hcs. split; [done..|]. intros ptr c Hp Hs.
  apply (attended_mono m); [by apply Hd|by intros; apply Hcs|by eauto].
Qed.

Lemma call_moves m tid c :
  sections_ok m -> (forall name ptr, sm_calls m !! tid <> Some (SetupTimer name ptr)) ->
  sections_ok (set_calls (<[tid := c]> (sm_calls m)) m) /\ sections_ok (set_calls (delete tid (sm_calls m)) m).
Proof.
  intros Hm Hno. split; apply calls_ok; try done; intros i name ptr Hi;
    (assert (i <> tid) by (intros ->; by eapply Hno)); by simplify_map_eq.
Qed.

(** A connection gets another state, with the calls as they are. *)
Lemma set_conn_ok m ptr c c' ts :
  sections_ok m -> sm_conns m !! ptr = Some c -> cn_cancel c' = cn_cancel c \/ cn_cancel c' = None ->
  (forall token t, ts !! token = Some t -> exists t0, sm_timers m !! token = Some t0 /\
     forall p, belongs p t0 -> belongs p t) ->
  (cn_state c' = Draining -> attended (set_timers ts m) ptr c') ->
  (forall p t token, p <> ptr -> sm_timers m !! token = Some t -> will_close p t ->
     exists t', ts !! token = Some t' /\ will_close p t') ->
  sections_ok (set_conn ptr c' (set_timers ts m)).
Proof.
  intros [Hc Ht Hd] Hp Hcan Hts Hatt Hkeep. split; simpl.
  - intros p x [[<- <-]|[Hne Hx]]%lookup_insert_Some.
    + destruct (Hc ptr c Hp) as [Hlt Htok]. split; [done|]. intros token Htk.
      destruct Hcan as [Heq|Heq]; [|congruence]. rewrite Heq in Htk. destruct (Htok token Htk) as [? Hb]. split; [done|].
      intros t (t0 & Ht0 & Hbt)%Hts. by apply Hbt, Hb.
    + destruct (Hc p x Hx) as [Hlt Htok]. split; [done|]. intros token Htk. destruct (Htok token Htk) as [? Hb].
      split; [done|]. intros t (t0 & Ht0 & Hbt)%Hts. by apply Hbt, Hb.
  - intros token t (t0 & Ht0 & _)%Hts. by eapply Ht.
  - unfold drains_end. simpl. intros p x [[<- <-]|[Hne Hx]]%lookup_insert_Some Hs; [by apply Hatt|].
    apply (attended_mono m); [by apply Hd|done|]. simpl. intros token t _ Htt Hw. by apply (Hkeep p t).
Qed.

(** A timer's task moves on. *)
Lemma timer_moves m token t0 t' :
  sections_ok m -> sm_timers m !! token = Some t0 -> (forall p, belongs p t0 -> belongs p t') ->
  (forall p c, sm_conns m !! p = Some c -> cn_state c = Draining -> will_close p t0 -> will_close p t') ->
  sections_ok (set_timers (<[token := t']> (sm_timers m)) m).
Proof.
  intros [Hc Ht Hd] H0 Hb Hw. split; simpl.
  - intros p c Hp. destruct (Hc p c Hp) as [Hlt Htok]. split; [done|]. intros tk Htk.
    destruct (Htok tk Htk) as [? Hbt]. split; [done|].
    intros t [[<- <-]|[_ Hx]]%lookup_insert_Some; [by apply Hb, Hbt|by apply Hbt].
  - intros tk t [[<- <-]|[_ Hx]]%lookup_insert_Some; by eapply Ht.
  - intros p c Hp Hs. apply (attended_mono m); [by apply Hd|done|]. simpl. intros tk t Htk Htt Hwt.
    destruct (decide (token = tk)) as [<-|Hne].
    + rewrite H0 in Htt. injection Htt as <-. exists t'. rewrite lookup_insert_eq. split; [done|by eapply Hw].
    + exists t. by rewrite lookup_insert_ne.
Qed.

(** A task that will close nothing ends. *)
Lemma timer_ends m token t0 :
  sections_ok m -> sm_timers m !! token = Some t0 -> (forall p, ~ will_close p t0) ->
  sections_ok (set_timers (delete token (sm_timers m)) m).
Proof.
  intros [Hc Ht Hd] H0 Hw. split; simpl.
  - intros p c Hp. destruct (Hc p c Hp) as [Hlt Htok]. split; [done|]. intros tk Htk.
    destruct (Htok tk Htk) as [? Hbt]. split; [done|]. intros t [_ Hx]%lookup_delete_Some. by apply Hbt.
  - intros tk t [_ Hx]%lookup_delete_Some. by eapply Ht.
  - intros p c Hp Hs. apply (attended_mono m); [by apply Hd|done|]. simpl. intros tk t Htk Htt Hwt.
    exists t. rewrite lookup_delete_ne; [done|]. intros <-. rewrite H0 in Htt. injection Htt as <-. by eapply Hw.
Qed.

Lemma sections_ok_registry m r :
  sections_ok m -> sections_ok (mkSections r (sm_conns m) (sm_timers m) (sm_calls m) (sm_next m)).
Proof. by intros [? ? ?]. Qed.

Lemma begin_ok m s tid name :
  s = BeginConnect tid name \/ s = BeginDrain tid name -> sections_ok m -> sections_ok (run_section s m).
Proof.
  intros Hs Hm. assert (Hcase : sm_calls m !! tid = None \/ run_section s m = m).
  { destruct Hs as [-> | ->]; simpl; destruct (sm_calls m !! tid); by auto. }
  destruct Hcase as [Hfree|Heq]; [|by rewrite Heq].
  assert (Hadd : forall c, sections_ok (set_calls (<[tid := c]> (sm_calls m)) m)).
  { intros c. apply call_moves; [done|]. intros n p. by rewrite Hfree. }
  destruct Hs as [-> | ->]; simpl; rewrite Hfree; unfold begin_connect, begin_drain;
    destruct (sm_registry m !! name) as [ptr|]; try done.
  destruct (Hadd (ConnectFrom name (sm_next m))) as [Hc Ht Hd]. simpl in Hc, Ht. split; simpl.
  - intros p c [[<- <-]|[Hne Hp]]%lookup_insert_Some; [split; [lia|done]|].
    destruct (Hc p c Hp) as [Hlt Htok]. split; [lia|]. intros tk Htk. destruct (Htok tk Htk). split; [lia|done].
  - intros tk t Htt. specialize (Ht tk t Htt). lia.
  - unfold drains_end. simpl. intros p c [[<- <-]|[Hne Hp]]%lookup_insert_Some Hs; [done|].
    exact (attended_mono _ _ p c (Hd p c Hp Hs) (fun _ _ H => H) (fun _ t _ H1 H2 => ex_intro _ t (conj H1 H2))).
Qed.

(** Storing the timer. *)
Lemma setup_ok m tid name ptr c :
  sections_ok m -> sm_calls m !! tid = Some (SetupTimer name ptr) -> sm_conns m !! ptr = Some c ->
  sections_ok (run_call tid m).
Proof.
  intros [Hc Ht Hd] Hcall Hp. unfold run_call. rewrite Hcall, Hp. unfold set_calls. simpl. split; simpl.
  - intros p x [[<- <-]|[Hne Hx]]%lookup_insert_Some.
    + destruct (Hc ptr c Hp) as [Hlt _]. split; [lia|]. intros token [= <-]. split; [lia|].
      intros t [[_ <-]|[? _]]%lookup_insert_Some; done.
    + destruct (Hc p x Hx) as [Hlt Htok]. split; [lia|]. intros tk Htk. destruct (Htok tk Htk) as [? Hb].
      split; [lia|]. intros t [[<- _]|[_ Htt]]%lookup_insert_Some; [lia|by apply Hb].
  - intros tk t [[<- _]|[_ Htt]]%lookup_insert_Some; [lia|]. specialize (Ht tk t Htt). lia.
  - unfold drains_end. simpl. intros p x [[<- <-]|[Hne Hx]]%lookup_insert_Some Hs.
    + right. exists (sm_next m), (Sleeping name ptr). by simplify_map_eq.
    + apply (attended_mono m); [by apply Hd|..]; simpl.
      * intros i n Hi. rewrite lookup_delete_ne; [done|]. intros <-. rewrite Hcall in Hi. by simplify_eq.
      * intros tk t _ Htt Hw. exists t. rewrite lookup_insert_ne; [done|]. intros <-. specialize (Ht _ _ Htt). lia.
Qed.

Lemma will_close_own p q t : will_close p t -> belongs q t -> p = q.
Proof. destruct t as [| |n r []|]; simpl; congruence || done. Qed.

Lemma cancel_timer_lookup tk ts token t : cancel_timer tk ts !! token = Some t -> ts !! token = Some t.
Proof.
  unfold cancel_timer. destruct (ts !! tk) as [[]|]; try done. by intros [_ ?]%lookup_delete_Some.
Qed.

Lemma cancel_timer_other tk ts token : token <> tk -> cancel_timer tk ts !! token = ts !! token.
Proof. intros Hne. unfold cancel_timer. destruct (ts !! tk) as [[]|]; try done. by rewrite lookup_delete_ne. Qed.

Lemma handler_connect_ok handler ptr c m :
  sections_ok m -> sm_conns m !! ptr = Some c -> sections_ok (handler_connect handler ptr c m).
Proof.
  intros Hm Hp. destruct handler; simpl; [done| |done].
  assert (Hok : forall ts, (forall token t, ts !! token = Some t -> sm_timers m !! token = Some t) ->
    (forall p t token, p <> ptr -> sm_timers m !! token = Some t -> will_close p t -> ts !! token = Some t) ->
    sections_ok (set_conn ptr (mkConn Connected None) (set_timers ts m))).
  { intros ts Hsub Hkeep. apply (set_conn_ok m ptr c); [done|done|by right|..]; [|done|].
    - intros token t Ht. exists t. split; [by apply Hsub|done].
    - intros p t token Hne Ht Hw. exists t. split; [by eapply Hkeep|done]. }
  destruct (cn_cancel c) as [tk|] eqn:Hcan.
  - apply Hok; [intros token t; apply cancel_timer_lookup|].
    intros p t token Hne Ht Hw. rewrite cancel_timer_other; [done|]. intros ->.
    destruct (so_conns m Hm ptr c Hp) as [_ Htok]. destruct (Htok tk Hcan) as [_ Hb].
    by apply Hne, (will_close_own _ _ t), Hb.
  - specialize (Hok (sm_timers m) ltac:(done) ltac:(done)). by destruct m.
Qed.

Lemma run_call_ok tid m : sections_ok m -> sections_ok (run_call tid m).
Proof.
  intros Hm. destruct (sm_calls m !! tid) as [[name ptr|name ptr h|name ptr|name ptr h|name ptr]|] eqn:Hcall.
  6: { unfold run_call. by rewrite Hcall. }
  5: { destruct (sm_conns m !! ptr) as [c|] eqn:Hp; [by eapply setup_ok|]. unfold run_call. by rewrite Hcall, Hp. }
  all: assert (Hno : forall n p, sm_calls m !! tid <> Some (SetupTimer n p)) by (intros n p; by rewrite Hcall).
  all: unfold run_call; rewrite Hcall; destruct (sm_conns m !! ptr) as [c|] eqn:Hp; [|done].
  - by apply call_moves.
  - pose proof (handler_connect_ok h ptr c m Hm Hp) as Hm'.
    refine (proj2 (call_moves _ tid (ConnectFrom name ptr) Hm' _)).
    destruct h; simpl; try done. by destruct (cn_cancel c).
  - by apply call_moves.
  - destruct h; simpl; [|exact (proj2 (call_moves m tid (ConnectFrom name ptr) Hm Hno))..].
    destruct Hm as [Hc Ht Hd]. split; simpl.
    + intros p x [[<- <-]|[_ Hx]]%lookup_insert_Some; [by apply (Hc ptr c)|by apply Hc].
    + done.
    + unfold drains_end. simpl. intros p x [[<- <-]|[Hne Hx]]%lookup_insert_Some Hs.
      * left. exists tid, name. apply lookup_insert_eq.
      * apply (attended_mono m); [by apply Hd| |by eauto]. simpl. intros i n Hi.
        rewrite lookup_insert_ne; [done|]. intros <-. by eapply Hno.
Qed.

Lemma run_timer_ok token ok m : sections_ok m -> sections_ok (run_timer token ok m).
Proof.
  intros Hm. unfold run_timer. destruct (sm_timers m !! token) as [[name ptr|name ptr|name ptr h|name]|] eqn:Ht; [..|done].
  - by eapply timer_moves.
  - destruct (sm_conns m !! ptr) as [c|] eqn:Hp; [|done]. eapply timer_moves; [done|done|done|].
    intros p x Hx Hs <-. simpl. rewrite Hp in Hx. injection Hx as <-. by rewrite Hs.
  - destruct (sm_conns m !! ptr) as [c|] eqn:Hp; [|done].
    destruct h; simpl; [eapply timer_ends; [done|exact Ht|by intros p []]| |eapply timer_ends; [done|exact Ht|by intros p []]].
    change (set_timers (<[token := OnClosed name]> (sm_timers m)) (set_conn ptr (mkConn Closed None) m))
      with (set_conn ptr (mkConn Closed None) (set_timers (<[token := OnClosed name]> (sm_timers m)) m)).
    apply (set_conn_ok m ptr c); [done|done|by right|..]; [|done|].
    + intros tk t [[<- <-]|[_ Hx]]%lookup_insert_Some; [by eexists|by exists t].
    + intros p t tk Hne Htt Hw. exists t. rewrite lookup_insert_ne; [done|]. intros <-.
      rewrite Ht in Htt. injection Htt as <-. by apply Hne.
  - assert (Hend : sections_ok (set_timers (delete token (sm_timers m)) m)) by (eapply timer_ends; [done|exact Ht|by intros p []]).
    destruct ok; [|done]. by apply (sections_ok_registry (set_timers (delete token (sm_timers m)) m)).
Qed.

Lemma run_sections_ok ss : sections_ok (run_sections ss).
Proof.
  unfold run_sections. pose proof start_ok as Hm. revert Hm. generalize start.
  induction ss as [|s ss IH]; intros m Hm; [done|]. apply IH. destruct s as [tid name|tid name|tid|token ok].
  - apply (begin_ok m _ tid name); [by left|done].
  - apply (begin_ok m _ tid name); [by right|done].
  - by apply run_call_ok.
  - by apply run_timer_ok.
Qed.

(** A timer left alone closes its connection. *)
Lemma timer_closes m ptr c token t :
  sm_conns m !! ptr = Some c -> cn_state c = Draining -> sm_timers m !! token = Some t -> will_close ptr t ->
  exists n, n <= 3 /\ sm_conns (Nat.iter n (run_timer token true) m) !! ptr = Some (mkConn Closed None).
Proof.
  intros Hp Hs Ht Hw.
  assert (Hlast : forall m name c, sm_conns m !! ptr = Some c -> sm_timers m !! token = Some (CloseAs name ptr Draining) ->
    sm_conns (run_timer token true m) !! ptr = Some (mkConn Closed None)).
  { intros m0 name c0 Hp0 Ht0. unfold run_timer. rewrite Ht0, Hp0. simpl. apply lookup_insert_eq. }
  assert (Hmid : forall m name, sm_conns m !! ptr = Some c -> sm_timers m !! token = Some (Expired name ptr) ->
    sm_conns (run_timer token true (run_timer token true m)) !! ptr = Some (mkConn Closed None)).
  { intros m0 name Hp0 Ht0. assert (Heq : run_timer token true m0 = set_timers (<[token := CloseAs name ptr Draining]> (sm_timers m0)) m0)
      by (unfold run_timer; by rewrite Ht0, Hp0, Hs).
    rewrite Heq. apply (Hlast _ name c); [done|]. apply lookup_insert_eq. }
  destruct t as [name p|name p|name p []|name]; simpl in Hw; try done; subst p.
  - exists 3. split; [done|]. simpl. assert (Heq : run_timer token true m = set_timers (<[token := Expired name ptr]> (sm_timers m)) m)
      by (unfold run_timer; by rewrite Ht).
    rewrite Heq. apply (Hmid _ name); [done|]. apply lookup_insert_eq.
  - exists 2. split; [lia|]. by apply (Hmid _ name).
  - exists 1. split; [lia|]. by apply (Hlast _ name c).
Qed.

Lemma iter_run token n m : Nat.iter n (run_timer token true) m =
  foldl (fun m s => run_section s m) m (replicate n (RunTimer token true)).
Proof.
  revert m. induction n as [|n IH]; intros m; [done|]. rewrite Nat.iter_succ_r. apply IH.
Qed.

(** A section of a call or a timer that has begun. *)
Definition continues (s : section) : Prop :=
  match s with RunCall _ | RunTimer _ _ => True | _ => False end.

Lemma attended_closes m ptr c :
  sections_ok m -> sm_conns m !! ptr = Some c -> cn_state c = Draining -> attended m ptr c ->
  exists more, length more <= 4 /\ Forall continues more /\
    sm_conns (foldl (fun m s => run_section s m) m more) !! ptr = Some (mkConn Closed None).
Proof.
  intros Hm Hp Hs [(tid & name & Hcall)|(token & t & _ & Ht & Hw)].
  - set (m1 := run_call tid m). set (token := sm_next m).
    assert (Hm1 : sm_conns m1 !! ptr = Some (mkConn Draining (Some token)) /\
                  sm_timers m1 !! token = Some (Sleeping name ptr)).
    { unfold m1, run_call. rewrite Hcall, Hp. simpl. by rewrite !lookup_insert_eq, Hs. }
    destruct Hm1 as [Hp1 Ht1].
    destruct (timer_closes m1 ptr _ token _ Hp1 eq_refl Ht1 eq_refl) as (n & Hn & Hcl).
    exists (RunCall tid :: replicate n (RunTimer token true)). rewrite length_cons, length_replicate.
    split; [lia|]. split; [constructor; [done|by apply Forall_replicate]|].
    change (foldl _ m _) with (foldl (fun m s => run_section s m) m1 (replicate n (RunTimer token true))).
    by rewrite <- iter_run.
  - destruct (timer_closes m ptr c token t Hp Hs Ht Hw) as (n & Hn & Hcl).
    exists (replicate n (RunTimer token true)). rewrite length_replicate. split; [lia|].
    split; [by apply Forall_replicate|]. by rewrite <- iter_run.
Qed.

(** ** Property *)

(** C28 [liveness] No node is left draining.  In every interleaving of the
    critical sections of connects, drains and drain timers, a connection that is
    draining has a drain call that is about to start its timer, or a timer, the
    one the connection names, that has yet to close it; at most four sections
    of these, left to themselves, close the connection. *)
Theorem draining_ends ss ptr c :
  sm_conns (run_sections ss) !! ptr = Some c -> cn_state c = Draining ->
  attended (run_sections ss) ptr c /\
  exists more, length more <= 4 /\ Forall continues more /\
    sm_conns (run_sections (ss ++ more)) !! ptr = Some (mkConn Closed None).
Proof.
  intros Hp Hs. pose proof (run_sections_ok ss) as Hm. pose proof (so_drains _ Hm ptr c Hp Hs) as Ha.
  split; [done|]. destruct (attended_closes _ ptr c Hm Hp Hs Ha) as (more & Hlen & Hall & Hcl).
  exists more. split_and!; [done|done|]. unfold run_sections in *. by rewrite foldl_app.
Qed.

(** ** Runs *)

(** A connect between the two sections of a drain that set the state and the
    timer, then another drain. *)
Definition demo_race : list section :=
  [BeginConnect 0 "n1"; RunCall 0; RunCall 0;
   BeginDrain 1 "n1"; RunCall 1; RunCall 1;
   BeginConnect 2 "n1"; RunCall 2; RunCall 2;
   RunCall 1;
   BeginDrain 3 "n1"; RunCall 3; RunCall 3; RunCall 3].

(** The first timer outlives the connect that should have cancelled it: the
    connection is connected with a timer, and after the second drain it has two,
    of which the first closes it early. *)
Lemma drain_race_two_timers :
  sm_conns (run_sections (take 10 demo_race)) !! 0 = Some (mkConn Connected (Some 1)) /\
  sm_timers (run_sections demo_race) = {[1 := Sleeping "n1" 0; 2 := Sleeping "n1" 0]} /\
  sm_conns (run_sections (demo_race ++ replicate 3 (RunTimer 1 true))) !! 0 = Some (mkConn Closed None).
Proof. split_and!; vm_compute; reflexivity. Qed.

(** A node that connects after its timer has looked at the connection is closed
    although it is connected. *)
Lemma connect_race_closed :
  let ss := [BeginConnect 0 "n1"; RunCall 0; RunCall 0; BeginDrain 1 "n1"; RunCall 1; RunCall 1; RunCall 1;
             RunTimer 1 true; RunTimer 1 true; BeginConnect 2 "n1"; RunCall 2; RunCall 2] in
  sm_conns (run_sections ss) !! 0 = Some (mkConn Connected None) /\
  sm_conns (run_sections (ss ++ [RunTimer 1 true])) !! 0 = Some (mkConn Closed None).
Proof. split; vm_compute; reflexivity. Qed.

Lemma draining_ends_witness :
  attended (run_sections demo_race) 0 (mkConn Draining (Some 2)) /\
  exists more, length more <= 4 /\ Forall continues more /\
    sm_conns (run_sections (demo_race ++ more)) !! 0 = Some (mkConn Closed None).
Proof. apply draining_ends; vm_compute; reflexivity. Defined.
