(* ===== verification/Controller.v ===== *)
(** * The controller ([session_manager/src/controller/mod.rs])

    The operations the API server and the scheduler call.  Its state is the
    connection manager, whose callbacks work on the storage.  The notifier only
    wakes tasks that wait, so it has no state here: a call that would wait
    returns [Waiting], and its continuation is an operation of its own. *)
From S2P Require Import Connections Nodes Executors.
From S2P Require Import Prelude Types Session Filters Snapshot Events Engine Storage SchedCtx.
Local Open Scope Z_scope.

(** ** Checks of requests *)

(** A gang is the whole session: its bounds are the gang's size or not set. *)
Definition validate_instance_limits (attr : SessionAttributes) (application : Application)
    : result unit :=
  let batch_size := Z.max (sa_batch_size attr) 1 in
  (if 1 <? batch_size then
     ensure ((sa_min_instances attr =? 0) || (sa_min_instances attr =? batch_size))
       EInvalidConfig ≫= fun _ =>
     ensure (is_none_or (sa_max_instances attr) (fun maximum => maximum =? batch_size))
       EInvalidConfig ≫= fun _ =>
     ensure (batch_size <=? app_max_instances application) EInvalidConfig
   else Ok tt) ≫= fun _ =>
  match sa_max_instances attr with
  | Some maximum => ensure (sa_min_instances attr <=? maximum) EInvalidConfig
  | None => Ok tt
  end.

Definition MAX_EXECUTOR_ATTRIBUTES : nat := 1024.
Definition MAX_EXECUTOR_ATTRIBUTE_BYTES : nat := 256.
Definition MAX_EXECUTOR_ATTRIBUTES_BYTES : Z := 64 * 1024.

Definition key_ok (value : string) : bool :=
  negb (String.eqb value EmptyString) &&
  (String.length value <=? MAX_EXECUTOR_ATTRIBUTE_BYTES)%nat.

(** The loop over the keys: a repeated key counts once. *)
Fixpoint attribute_keys (keys : list string) (set : gset string) (total_bytes : Z)
    : result (gset string * Z) :=
  match keys with
  | [] => Ok (set, total_bytes)
  | value :: keys =>
      if negb (key_ok value) then Err EInvalidConfig
      else
        let total_bytes := if decide (value ∈ set) then total_bytes
                           else total_bytes + Z.of_nat (String.length value) in
        attribute_keys keys ({[value]} ∪ set) total_bytes
  end.

Definition validate_attribute_keys (keys : list string) : result (gset string) :=
  match attribute_keys keys ∅ 0 with
  | Ok (set, total_bytes) =>
      if (MAX_EXECUTOR_ATTRIBUTES <? size set)%nat ||
         (MAX_EXECUTOR_ATTRIBUTES_BYTES <? total_bytes)
      then Err EInvalidConfig
      else Ok set
  | Err e => Err e
  | Panic => Panic
  end.

(** [rpc::ExecutorAttributes] and the validated update. *)
Record ExecutorAttributes := mkExecAttrs { xa_publish : list string; xa_retract : list string }.
Record ExecutorAttributeUpdate := mkAttrUpdate { au_publish : gset string; au_retract : gset string }.

Definition validate_executor_attributes (attributes : ExecutorAttributes)
    : result ExecutorAttributeUpdate :=
  publish ← validate_attribute_keys (xa_publish attributes);
  retract ← validate_attribute_keys (xa_retract attributes);
  if negb (bool_decide (publish ## retract)) then Err EInvalidConfig
  else Ok (mkAttrUpdate publish retract).

Definition validate_task_options (options : TaskOptions) : result unit :=
  let keys := elements (to_affinity options) in
  let total_bytes := Zsum (fun key => Z.of_nat (String.length key)) keys in
  if existsb (fun key => negb (key_ok key)) keys then Err EInvalidConfig
  else if (MAX_EXECUTOR_ATTRIBUTES <? length keys)%nat ||
          (MAX_EXECUTOR_ATTRIBUTES_BYTES <? total_bytes)
  then Err EInvalidConfig
  else Ok tt.

(** [opt.map(f).transpose()?]. *)
Definition transpose {A B} (f : A -> result B) (o : option A) : result (option B) :=
  match o with
  | Some a => b ← f a; Ok (Some b)
  | None => Ok None
  end.

(** What a call that may wait returns. *)
Inductive poll (A : Type) := Ready (a : A) | Waiting.
Arguments Ready {A} _.
Arguments Waiting {A}.

#[export] Instance node_callbacks `{Env} {E V} `{Engine E} `{EventManager V} :
  Connections.ConnectionCallbacks (Storage E V) := {
  Connections.on_connected := Nodes.on_connected;
  Connections.on_draining := Nodes.on_draining;
  Connections.on_closed := Nodes.on_closed
}.

Section controller.
Context `{Env} {E V : Type} `{Engine E} `{EventManager V}.
Abbreviation K := (ConnectionManager (Storage E V)).
Abbreviation KM := (M (ConnectionManager (Storage E V))).

(** [self.storage.op(..)]. *)
Definition storage {A} (m : M (Storage E V) A) : KM A := zoom cm_callbacks with_callbacks m.

(** [if let Err(e) = connection_manager.notify_executor(..)]: logged. *)
Definition notify_node (executor : Executor) : KM unit :=
  attempt (Connections.notify_executor (ex_node executor) executor) ≫= fun _ => mret tt.

(** [sender.send(executor)] on the handle [connect] returned. *)
Definition send_to (name : string) (executor : Executor) : KM unit :=
  modify (fun k => Connections.with_connections
    (alter (fun c => Connections.with_queue (Connections.nc_queue c ++ [executor]) c) name
       (Connections.cm_connections k)) k).

(** ** Nodes *)

(** The replay of the executors the storage knows of a node. *)
Definition replay_executor (name : string) (reported : gset string) (db_exec : Executor) : KM unit :=
  if negb (bool_decide (ex_id db_exec ∈ reported)) then
    let cleanup_executor := executor_with_state ExecReleasing db_exec in
    storage (Storage.update_executor cleanup_executor) ≫= fun _ =>
    send_to name cleanup_executor
  else send_to name db_exec.

Definition register_node (node : Node) (reported_executors : list Executor) : KM unit :=
  existing ← storage (get_node (node_name node));
  db_executors ← storage (list_executors (Some (executor_by_node (node_name node))));
  let unknown := List.filter (fun reported =>
    negb (existsb (fun db_exec => String.eqb (ex_id db_exec) (ex_id reported)) db_executors))
    reported_executors in
  match unknown with
  | _ :: _ => throw EInvalidState
  | [] =>
      let node_to_store := match existing with
                           | Some n => node_with_state (node_state n) node
                           | None => node
                           end in
      storage (Storage.register_node node_to_store) ≫= fun _ =>
      Connections.connect (node_name node) ≫= fun _ =>
      let reported_ids : gset string := list_to_set (ex_id <$> reported_executors) in
      for_each db_executors (replay_executor (node_name node) reported_ids)
  end.

Definition drain_node (name : string) : KM unit :=
  Connections.drain name ≫= fun _ => mret tt.

(** Heartbeats are best effort: an error of the state machine is dropped. *)
Definition update_node (node : Node) : KM unit :=
  storage (attempt (Nodes.with_node (node_name node)
    (fun st => Nodes.update_node st node (node_name node)))) ≫= fun _ =>
  mret tt.

Definition sync_node (node : Node) (executors : list Executor) : KM (list Executor) :=
  storage (Nodes.with_node (node_name node)
    (fun st => Nodes.update_node st node (node_name node))) ≫= fun _ =>
  storage (Storage.sync_node node executors).

Definition release_node (name : string) : KM unit :=
  storage (Nodes.with_node name (fun st => Nodes.release_node st name)) ≫= fun _ =>
  storage (Storage.release_node name).

(** ** Sessions *)

Definition application_enabled (name : string) : KM Application :=
  application ← storage (get_application name);
  if negb (bool_decide (app_state application = AppEnabled)) then throw EInvalidState
  else mret application.

Definition create_session (attr : SessionAttributes) : KM Session :=
  application ← application_enabled (sa_application attr);
  lift (validate_instance_limits attr application) ≫= fun _ =>
  storage (Storage.create_session attr).

Definition open_session (id : string) (spec : option SessionAttributes) : KM Session :=
  name ← match spec with
         | Some attr => mret (sa_application attr)
         | None => storage (session_application id)
         end;
  application ← application_enabled name;
  match spec with
  | Some attr => lift (validate_instance_limits attr application)
  | None => mret tt
  end ≫= fun _ =>
  storage (Storage.open_session id spec).

Definition close_session (id : string) : KM Session := storage (Storage.close_session id).

Definition signal_session (id : string) (signal : Signal) : KM Session :=
  lift (ensure (bool_decide (signal = SigSuspend)) EInvalidConfig) ≫= fun _ =>
  current ← storage (get_session id);
  lift (ensure (is_open current) EInvalidState) ≫= fun _ =>
  storage (update_session_state id SsnSuspending).

(** Only a suspending session is moved; one that closed meanwhile is left. *)
Definition suspend_session (id : string) : KM unit :=
  current ← storage (get_session id);
  if negb (is_suspending current) then mret tt
  else
    r ← attempt (storage (update_session_state id SsnSuspended));
    match r with
    | Ok _ => mret tt
    | Err EInvalidState => mret tt
    | Err e => throw e
    | Panic => lift Panic
    end.

Definition resume_session (id : string) : KM Session :=
  current ← storage (get_session id);
  match ssn_state current with
  | SsnOpen => mret current
  | _ =>
      lift (ensure (is_suspended current) EInvalidState) ≫= fun _ =>
      storage (update_session_state id SsnOpen)
  end.

Definition delete_session (id : string) : KM Session := storage (Storage.delete_session id).

Definition is_session_open (id : string) : KM bool :=
  x ← storage (get_session_ptr id);
  mret (negb (is_closed x)).

Definition create_task (ssn : string) (input : option string) (options : option TaskOptions)
    : KM Task :=
  match options with Some o => lift (validate_task_options o) | None => mret tt end ≫= fun _ =>
  storage (Storage.create_task ssn input options).

(** ** Executors *)

Definition create_executor (node : string) (ssn : string) : KM Executor :=
  executor ← storage (Storage.create_executor node ssn);
  attempt (Connections.notify_executor node executor) ≫= fun _ =>
  mret executor.

(** The state machine works on a copy, which the storage then publishes. *)
Definition transition (id : string) (op : Executors.States E V -> Executor -> M (Storage E V) Executor)
    : KM Executor :=
  exe ← storage (get_executor_ptr id);
  state ← lift (Executors.from exe);
  executor ← storage (op state exe);
  storage (Storage.update_executor executor) ≫= fun _ =>
  notify_node executor ≫= fun _ =>
  mret executor.

Definition register_executor (e : Executor) : KM unit :=
  transition (ex_id e) Executors.register_executor ≫= fun _ => mret tt.

Definition bind_session (id : string) (ssn : string) : KM unit :=
  transition id (fun state exe =>
    x ← get_session_ptr ssn;
    if negb (is_open x) then throw EInvalidState
    else Executors.bind_session state ssn exe) ≫= fun _ =>
  mret tt.

Definition bind_session_completed (id : string) (result : option FlameResult) : KM unit :=
  transition id (fun state => Executors.bind_session_completed state result) ≫= fun _ => mret tt.

Definition unbind_executor (id : string) : KM unit :=
  transition id Executors.unbind_executor ≫= fun _ => mret tt.

Definition unbind_executor_completed (id : string) : KM unit :=
  transition id Executors.unbind_executor_completed ≫= fun _ => mret tt.

Definition release_executor (id : string) : KM unit :=
  transition id Executors.release_executor ≫= fun _ => mret tt.

Definition update_executor_attributes (id : string) (update : ExecutorAttributeUpdate) : KM unit :=
  exe ← storage (get_executor_ptr id);
  if negb (bool_decide (ex_state exe = ExecBound)) then throw EInvalidState
  else
    lift (ok_or (ex_ssn_id exe) EInvalidState) ≫= fun _ =>
    storage (put_executor id (executor_with_attributes
      ((ex_attributes exe ∖ au_retract update) ∪ au_publish update) exe)).

Definition bind_executor_completed (id : string) (result : option FlameResult)
    (attributes : option ExecutorAttributes) : KM unit :=
  attributes ← lift (transpose validate_executor_attributes attributes);
  bind_session_completed id result ≫= fun _ =>
  match attributes with
  | Some update => update_executor_attributes id update
  | None => mret tt
  end.

Definition interrupt_executor (id : string) : KM unit :=
  exe ← storage (get_executor_ptr id);
  storage (put_executor id (executor_with_signal (Some SigInterrupt) exe)).

(** ** Waiting for work *)

(** One turn of the loop of [wait_for_session], on the executor as it is. *)
Definition wait_for_session (id : string) : KM (poll (option Session)) :=
  exe ← storage (get_executor_ptr id);
  match ex_state exe with
  | ExecReleasing | ExecReleased => mret (Ready None)
  | _ =>
      match ex_ssn_id exe with
      | None => mret Waiting
      | Some ssn =>
          x ← storage (gets (fun s => st_sessions s !! ssn));
          match x with
          | None => mret (Ready None)
          | Some x => if negb (is_open x) then mret (Ready None) else mret (Ready (Some x))
          end
      end
  end.

(** One turn of the loop of [wait_for_task] on the session and the executor
    it holds; a session or an executor that is gone is closed or released. *)
Definition wait_for_task (ssn : string) (id : string) : KM (poll (option Task)) :=
  storage (fun s =>
    match st_sessions s !! ssn, st_executors s !! id with
    | Some x, Some exe =>
        if negb (is_open x) || is_unbinding exe ssn || is_interrupted exe then (Ok (Ready None), s)
        else
          let '(task, x) := pop_pending_task x in
          match task with
          | Some t => (Ok (Ready (Some t)), with_sessions (<[ssn := x]> (st_sessions s)) s)
          | None => (Ok Waiting, s)
          end
    | _, _ => (Ok (Ready None), s)
    end).

(** From the wait on; also the continuation of a call that waited. *)
Definition launch_next (id : string) (ssn : string) : KM (poll (option Task)) :=
  r ← wait_for_task ssn id;
  match r with
  | Waiting => mret Waiting
  | Ready None => mret (Ready None)
  | Ready (Some task) =>
      exe ← storage (get_executor_ptr id);
      state ← lift (Executors.from exe);
      res ← storage (Executors.launch_task state ssn task exe);
      let '(exe, launched) := res in
      storage (put_executor id exe) ≫= fun _ =>
      storage (Storage.update_executor exe) ≫= fun _ =>
      mret (Ready launched)
  end.

Definition launch_task (id : string) : KM (poll (option Task)) :=
  exe ← storage (get_executor_ptr id);
  lift (Executors.from exe) ≫= fun _ =>
  match ex_ssn_id exe with
  | None => mret (Ready None)
  | Some ssn =>
      match ex_task_id exe with
      | Some task => t ← storage (get_task_ptr (mkGID ssn task)); mret (Ready (Some t))
      | None =>
          x ← storage (gets (fun s => st_sessions s !! ssn));
          match x with
          | None => mret (Ready None)
          | Some _ => launch_next id ssn
          end
      end
  end.

(** The message a completed task is recorded with. *)
Definition completion_message (host : string) (r : TaskResult) : option string :=
  match tr_state r with
  | TaskFailed => tr_message r
  | TaskSucceed => Some ("Task completed successfully on host <" +:+ host +:+ ">.")
  | _ => None
  end.

Definition complete_task (id : string) (task_result : TaskResult)
    (attributes : option ExecutorAttributes) : KM unit :=
  attributes ← lift (transpose validate_executor_attributes attributes);
  exe ← storage (get_executor_ptr id);
  ssn ← lift (ok_or (ex_ssn_id exe) EInvalidState);
  task_id ← lift (ok_or (ex_task_id exe) EInvalidState);
  task ← storage (get_task_ptr (mkGID ssn task_id));
  storage (get_session_ptr ssn) ≫= fun _ =>
  let task_result := mkTaskResult (tr_state task_result) (tr_output task_result)
                       (completion_message (ex_node exe) task_result) in
  match attributes with
  | Some update => update_executor_attributes id update
  | None => mret tt
  end ≫= fun _ =>
  exe ← storage (get_executor_ptr id);
  state ← lift (Executors.from exe);
  exe ← storage (Executors.complete_task state ssn task task_result exe);
  storage (put_executor id exe) ≫= fun _ =>
  storage (Storage.update_executor exe) ≫= fun _ =>
  notify_node exe.

(** ** The end of an executor *)

Definition lost_message (id : string) : string :=
  "Executor <" +:+ id +:+ "> was lost; its service was destroyed without retry".

(** The task of a lost executor fails. *)
Definition fail_lost_task (executor : Executor) : KM unit :=
  match ex_task_id executor, ex_ssn_id executor with
  | Some task_id, Some ssn =>
      storage (get_session_ptr ssn) ≫= fun _ =>
      task ← storage (get_task_ptr (mkGID ssn task_id));
      storage (Storage.update_task_state ssn task TaskFailed (Some (lost_message (ex_id executor))))
  | _, _ => mret tt
  end.

Definition unregister_executor (id : string) : KM unit :=
  found ← storage (gets (fun s => st_executors s !! id));
  match found with
  | None => mret tt
  | Some executor =>
      fail_lost_task executor ≫= fun _ =>
      state ← lift (Executors.from executor);
      storage (Executors.unregister_executor state executor) ≫= fun _ =>
      storage (Storage.delete_executor id) ≫= fun _ =>
      notify_node (executor_with_binding None None (executor_with_state ExecReleased executor))
  end.

(** ** Applications and the snapshot *)

Definition register_application (name : string) (attr : ApplicationAttributes) : KM unit :=
  lift (validate_application_name name) ≫= fun _ =>
  storage (Storage.register_application name attr).

Definition unregister_application (name : string) : KM unit :=
  storage (Storage.update_application_state name AppDisabled) ≫= fun _ => mret tt.

Definition update_application (name : string) (attr : ApplicationAttributes) : KM unit :=
  lift (validate_application_name name) ≫= fun _ =>
  storage (Storage.update_application name attr).

Definition snapshot (k : K) : SnapShot :=
  let data := Storage.snapshot (cm_callbacks k) in
  let ss := new_with_session_retry_limits (session_retry_limits (cm_callbacks k)) in
  let ss := foldl (fun ss a => add_application (AppInfo_from a) ss) ss (sn_applications data) in
  let ss := foldl (fun ss x => add_session (SessionInfo_from x) ss) ss (sn_sessions data) in
  let ss := foldl (fun ss e => add_executor (ExecutorInfo_from e) ss) ss (sn_executors data) in
  foldl (fun ss n => add_node (NodeInfo_from n) ss) ss (sn_nodes data).

(** What the scheduler calls. *)
#[export] Instance controller_sched : SchedController K := {
  SchedCtx.create_executor := create_executor;
  SchedCtx.bind_session := bind_session;
  SchedCtx.interrupt_executor := interrupt_executor;
  SchedCtx.suspend_session := suspend_session;
  SchedCtx.release_executor := release_executor
}.
End controller.
