(* ===== verification/Frames.v ===== *)
(** * What the operations of the storage leave alone

    Frame lemmas: which operations keep the cached executors, the cached
    sessions and the count of drawn identifiers, that the tasks of every cached
    session name it, and how these carry over to the controller. *)
From S2P Require Import Connections Nodes Executors.
From S2P Require Import Prelude Types Session Filters Snapshot Order Events Engine Storage.
From S2P Require Import StorageInv SchedCtx Controller.
Local Open Scope Z_scope.

(** ** Operations of the storage that leave the executors alone *)

Section storage_frames.
Context `{Env} {E V : Type} `{EngineSpec E} `{EventManager V}.
Abbreviation St := (Storage E V).

Definition execs (X : gmap string Executor) (s : St) : Prop := st_executors s = X.

#[export] Instance execs_cache X : CacheProp (execs X).
Proof. by split; intros s ?; unfold execs. Qed.

Lemma execs_put_session X id x : keeps (execs X) (put_session id x).
Proof. by apply keeps_modify. Qed.
Lemma execs_put_node X id x : keeps (execs X) (put_node id x).
Proof. by apply keeps_modify. Qed.
Lemma execs_put_application X n a : keeps (execs X) (put_application n a).
Proof. by apply keeps_modify. Qed.
Lemma execs_evict X : keeps (execs X) evict_sessions.
Proof. apply keeps_modify. intros s Hs. by destruct (st_max_sessions s). Qed.
Lemma execs_sessions X f : keeps (execs X) (modify (fun s => with_sessions (f s) s)).
Proof. by apply keeps_modify. Qed.
Lemma execs_nodes X f : keeps (execs X) (modify (fun s => with_nodes (f s) s)).
Proof. by apply keeps_modify. Qed.
End storage_frames.
#[export] Hint Resolve execs_put_session execs_put_node execs_put_application execs_evict execs_sessions execs_nodes : flame.

Section storage_frame_ops.
Context `{Env} {E V : Type} `{EngineSpec E} `{EventManager V} (X : gmap string Executor).
Abbreviation fr := (@execs E V X).

Lemma execs_create_session attr : keeps fr (Storage.create_session attr).
Proof. unfold Storage.create_session. keeps_tac. Qed.
Lemma execs_open_session id spc : keeps fr (Storage.open_session id spc).
Proof. unfold Storage.open_session. keeps_tac. Qed.
Lemma execs_close_session id : keeps fr (Storage.close_session id).
Proof. unfold Storage.close_session. keeps_tac. Qed.
Lemma execs_update_session_state id st : keeps fr (Storage.update_session_state id st).
Proof. unfold Storage.update_session_state. keeps_tac. Qed.
Lemma execs_delete_session id : keeps fr (Storage.delete_session id).
Proof. unfold Storage.delete_session. keeps_tac. Qed.
Lemma execs_create_task ssn i o : keeps fr (Storage.create_task ssn i o).
Proof. unfold Storage.create_task. keeps_tac. Qed.
Lemma execs_update_task_state ssn t st msg : keeps fr (Storage.update_task_state ssn t st msg).
Proof. unfold Storage.update_task_state. keeps_tac. Qed.
Lemma execs_update_task_result ssn t r : keeps fr (Storage.update_task_result ssn t r).
Proof. unfold Storage.update_task_result. keeps_tac. Qed.
Lemma execs_register_node n : keeps fr (Storage.register_node n).
Proof. unfold Storage.register_node. keeps_tac. Qed.
Lemma execs_update_node_state name st : keeps fr (Storage.update_node_state name st).
Proof. unfold Storage.update_node_state. keeps_tac. Qed.
Lemma execs_release_node name : keeps fr (Storage.release_node name).
Proof. unfold Storage.release_node. keeps_tac. Qed.
Lemma execs_applications :
  (forall name attr, keeps fr (Storage.register_application name attr)) /\
  (forall name st, keeps fr (Storage.update_application_state name st)) /\
  (forall name attr, keeps fr (Storage.update_application name attr)).
Proof.
  split_and!; intros; unfold Storage.register_application, Storage.update_application_state,
    Storage.update_application; keeps_tac.
Qed.
Lemma execs_retry_cached g : keeps fr (retry_cached g).
Proof. unfold retry_cached. keeps_tac. Qed.
Lemma execs_increment_retry e : keeps fr (increment_session_retry_count e).
Proof. unfold increment_session_retry_count, record_retry_limit_reached. keeps_tac. Qed.
Lemma execs_record_bind_failure e r : keeps fr (record_bind_failure e r).
Proof. unfold record_bind_failure. keeps_tac. Qed.
Lemma execs_enter st e : keeps fr (enter st e).
Proof. unfold enter. keeps_tac. Qed.
End storage_frame_ops.
#[export] Hint Resolve execs_create_session execs_open_session execs_close_session
  execs_update_session_state execs_delete_session execs_create_task execs_update_task_state
  execs_update_task_result execs_register_node execs_update_node_state execs_release_node
  execs_retry_cached execs_increment_retry execs_record_bind_failure execs_enter : flame.

(** ** The tasks of every cached session name it *)

Record good {E V} (s : Storage E V) : Prop := {
  g_wf : storage_wf s;
  g_owned : forall id x, st_sessions s !! id = Some x -> tasks_owned x
}.

#[export] Instance good_cache {E V} : CacheProp (@good E V).
Proof. split; intros s n [Hw Ho]; (split; [by destruct Hw|done]). Qed.

Lemma tasks_owned_update t x :
  task_ssn_id t = ssn_id x -> tasks_owned x -> tasks_owned (update_task t x).
Proof.
  intros Ht Hx id t'. rewrite update_task_id, update_task_lookup. case_decide; [|by apply Hx].
  destruct (is_some_and _ _); [by apply Hx|]. by intros [= <-].
Qed.

Lemma tasks_owned_close p ct x : index_wf x -> tasks_owned x -> tasks_owned (close_cached p ct x).
Proof.
  intros Hw Hx. unfold close_cached, cancel_pending. set (y := session_with_completion _ _ _ x).
  change (tasks_owned (foldl (fun x t => update_task (cancel_task ct t) x) y
                         (btree_values (pending_index y)))).
  assert (Hl : forall t, t ∈ btree_values (pending_index y) -> task_ssn_id t = ssn_id y).
  { intros t [k Hk]%elem_of_btree_values. change (pending_index x !! k = Some t) in Hk.
    rewrite <-index_lookup_pending in Hk. apply (iw_sound x Hw) in Hk as [Hk _]. by eapply Hx. }
  assert (Hy : tasks_owned y) by done. revert Hl Hy. generalize y (btree_values (pending_index y)).
  clear. intros y l. revert y. induction l as [|t l IH]; simpl; intros y Hl Hy; [done|]. apply IH.
  - intros t' Ht'. rewrite update_task_id. apply Hl. by right.
  - apply tasks_owned_update; [|done]. apply (Hl t). by left.
Qed.

Section good_ops.
Context `{Env} {E V : Type} `{EngineSpec E} `{EventManager V}.
Abbreviation gd := (@good E V).

Lemma good_get_session_ptr id :
  spec gd (get_session_ptr id) (fun x => ssn_id x = id /\ index_wf x /\ tasks_owned x).
Proof.
  intros s [Hw Ho]. destruct (spec_get_session_ptr id s Hw) as [_ Hx]. split; [done|].
  intros x Hr. destruct (Hx x Hr). split_and!; try done.
  unfold get_session_ptr, mbind, M_bind, gets, lift in Hr. simpl in Hr.
  destruct (st_sessions s !! id) as [y|] eqn:Hy; [|done]. injection Hr as <-. eauto.
Qed.

Lemma good_put_session id x :
  ssn_id x = id -> index_wf x -> tasks_owned x -> keeps gd (put_session id x).
Proof.
  intros Hid Hx Hox s [Hw Ho]. split; [by apply (keeps_put_session id x)|]. simpl.
  by intros id' x' [[_ <-]|[_ ?]]%lookup_insert_Some; [|eauto].
Qed.

Lemma good_sub_sessions (f : Storage E V -> Storage E V) :
  keeps storage_wf (modify f) -> (forall s, st_sessions (f s) ⊆ st_sessions s) ->
  keeps gd (modify f).
Proof.
  intros Hw Hf s [Hs Ho]. split; [by apply Hw|]. simpl. intros id x Hx.
  eapply Ho, lookup_weaken; [done|apply Hf].
Qed.

Lemma good_evict : keeps gd evict_sessions.
Proof.
  apply good_sub_sessions; [apply keeps_evict_sessions|]. intros s.
  destruct (st_max_sessions s) as [max|]; [|done]. apply (ev_sub _ _ (evict_evicted max (st_sessions s))).
Qed.

(** An operation that leaves the sessions alone. *)
Lemma good_frame {A} (m : M (Storage E V) A) :
  keeps storage_wf m -> (forall m0, keeps (fun s => st_sessions s = m0) m) -> keeps gd m.
Proof.
  intros Hw Hf s [Hs Ho]. split; [by apply Hw|]. rewrite (Hf (st_sessions s) s eq_refl). done.
Qed.

Lemma good_put_updated {A} ssn t (Q : unit -> M (Storage E V) A) :
  task_ssn_id t = ssn -> (forall u, keeps gd (Q u)) ->
  keeps gd (x ← get_session_ptr ssn; if is_closed x then throw EInvalidState
            else put_session ssn (update_task t x) ≫= Q).
Proof.
  intros Ht HQ. eapply spec_bind_keeps; [apply good_get_session_ptr|]. intros x (Hid & Hx & Hox).
  keeps_step; [by eauto with flame|]. keeps_step; [|done]. apply good_put_session.
  - by rewrite update_task_id.
  - by apply update_task_wf.
  - apply tasks_owned_update; [congruence|done].
Qed.

(** The answer of the engine, under the contract. *)
Lemma spec_engine {A} (P : Storage E V -> Prop) `{!CacheProp P} (m : M E A) (Q : A -> Prop) :
  (forall e a e', m e = (Ok a, e') -> Q a) -> spec P (engine m) Q.
Proof.
  intros HQ s Hs. split; [by apply (keeps_engine P)|]. intros a. unfold engine, zoom.
  destruct (m (st_engine s)) as [r e'] eqn:Hm. simpl. intros ->. by eapply HQ.
Qed.

Lemma good_create_task ssn i o : keeps gd (Storage.create_task ssn i o).
Proof.
  unfold Storage.create_task. keeps_step; [by eauto with flame|]. keeps_step; [by eauto with flame|].
  keeps_step; [by eauto with flame|].
  eapply spec_bind_keeps; [apply (spec_engine gd); intros; by eapply create_task_gid|].
  intros t Ht. apply good_put_updated; [done|]. intros. keeps_tac.
Qed.

Lemma spec_attempt_engine {A} (P : Storage E V -> Prop) `{!CacheProp P} (m : M E A) (Q : A -> Prop) :
  (forall e a e', m e = (Ok a, e') -> Q a) ->
  spec P (attempt (engine m)) (fun r => forall a, r = Ok a -> Q a).
Proof.
  intros HQ s Hs. destruct (spec_engine P m Q HQ s Hs) as [H1' H2']. unfold attempt.
  destruct (engine m s) as [[a|e|] s']; simpl in *; (split; [done|]); intros r [= <-] a'; [|done].
  intros [= <-]. auto.
Qed.

Lemma good_update_task_state ssn t st msg :
  task_ssn_id t = ssn -> keeps gd (Storage.update_task_state ssn t st msg).
Proof.
  intros Ht. unfold Storage.update_task_state.
  eapply spec_bind_keeps; [apply good_get_session_ptr|]. intros x (Hid & _ & _).
  keeps_step; [by eauto with flame|]. keeps_step; [by eauto with flame|].
  eapply spec_bind_keeps.
  { apply (spec_attempt_engine gd _ (fun t' => task_ssn_id t' = ssn)).
    intros e t' e' Ht'. apply update_task_state_made in Ht' as [Hg _].
    simpl in Hg. congruence. }
  intros r Hr. apply (spec_bind_keeps gd _ _ (fun t' => task_ssn_id t' = ssn)).
  - destruct r as [t'|[]|]; apply spec_lift; intros ? [=]; subst; auto.
  - intros t' Ht'. apply good_put_updated; [done|]. intros. keeps_tac.
Qed.

Lemma good_update_task_result ssn t res :
  task_ssn_id t = ssn -> keeps gd (Storage.update_task_result ssn t res).
Proof.
  intros Ht. unfold Storage.update_task_result.
  eapply spec_bind_keeps; [apply good_get_session_ptr|]. intros x (Hid & _ & _).
  keeps_step; [by eauto with flame|]. keeps_step; [by eauto with flame|].
  eapply spec_bind_keeps.
  { apply (spec_attempt_engine gd _ (fun t' => task_ssn_id t' = ssn)).
    intros e t' e' Ht'. apply update_task_result_made in Ht' as [Hg _].
    simpl in Hg. congruence. }
  intros r Hr. apply (spec_bind_keeps gd _ _ (fun t' => task_ssn_id t' = ssn)).
  - destruct r as [t'|[]|]; try (apply spec_lift; intros ? [=]; subst; auto; fail).
    apply (spec_bind gd _ _ (fun _ => True)); [apply keeps_spec; by eauto with flame|].
    intros. by apply spec_ret.
  - intros t' Ht'. apply good_put_updated; [done|]. intros. keeps_tac.
Qed.

Lemma good_create_session attr : keeps gd (Storage.create_session attr).
Proof.
  unfold Storage.create_session. keeps_step; [by eauto with flame|].
  eapply spec_bind_keeps; [apply (spec_engine gd); intros; by eapply create_session_made|].
  intros x Hx. keeps_step; [by eauto with flame|].
  keeps_step; [by apply good_put_session; [|by eapply session_made_wf|apply no_tasks_owned, Hx]|].
  keeps_step; [apply good_evict|by eauto with flame].
Qed.

Lemma good_close_session id : keeps gd (Storage.close_session id).
Proof.
  unfold Storage.close_session. keeps_step; [by eauto with flame|]. keeps_step; [by eauto with flame|].
  keeps_step; [by eauto with flame|]. keeps_step; [by eauto with flame|].
  keeps_step; [keeps_tac|]. keeps_step; [keeps_tac|].
  eapply spec_bind_keeps; [apply good_get_session_ptr|]. intros y (Hid & Hy & Hoy).
  keeps_step; [apply good_put_session; [by rewrite close_cached_id|by apply close_cached_wf|
    by apply tasks_owned_close]|].
  keeps_step; [by eauto with flame|]. keeps_step; [apply good_evict|by eauto with flame].
Qed.

Lemma good_update_session_state id st : keeps gd (Storage.update_session_state id st).
Proof.
  unfold Storage.update_session_state. eapply spec_bind_keeps; [apply good_get_session_ptr|].
  intros x (Hid & Hx & Hox). keeps_step; [by eauto with flame|].
  keeps_step; [apply good_put_session; auto with flame|].
  apply keeps_bind; [by eauto with flame|]. intros r.
  destruct r as [y|[]|]; try (by eauto with flame); (eapply spec_bind_keeps; [apply good_get_session_ptr|];
    intros y (Hidy & Hy & Hoy); keeps_step; [|by eauto with flame];
    case_decide; [apply good_put_session; auto with flame|apply keeps_ret]).
Qed.

Lemma good_open_session id spc : keeps gd (Storage.open_session id spc).
Proof.
  unfold Storage.open_session. apply keeps_bind; [by eauto with flame|]. intros cached.
  assert (keeps gd (t ← Storage.now; ssn ← engine (Engine.open_session id spc t);
    put_session (ssn_id ssn) ssn ≫= fun _ => evict_sessions ≫= fun _ => mret ssn)) as Hopen.
  { keeps_step; [by eauto with flame|].
    eapply spec_bind_keeps; [apply (spec_engine gd); intros; by eapply open_session_wf|].
    intros x [Hx Hox]. keeps_step; [by apply good_put_session|].
    keeps_step; [apply good_evict|by eauto with flame]. }
  destruct cached as [x|]; [|done]. keeps_step; [by eauto with flame|]. case_decide; [|done]. keeps_tac.
Qed.

Lemma good_delete_session id : keeps gd (Storage.delete_session id).
Proof.
  unfold Storage.delete_session. keeps_tac. apply good_sub_sessions.
  - apply (keeps_sub_sessions (delete id)). intros m. apply delete_subseteq.
  - intros s. apply delete_subseteq.
Qed.

Lemma good_increment_retry e : keeps gd (increment_session_retry_count e).
Proof.
  unfold increment_session_retry_count. keeps_step; [by eauto with flame|].
  keeps_step; [by eauto with flame|]. eapply spec_bind_keeps; [apply good_get_session_ptr|].
  intros x (Hid & Hx & Hox). keeps_step; [|unfold record_retry_limit_reached; keeps_tac].
  apply good_put_session; [done| |done]. by eapply index_wf_ext; [..|exact Hx].
Qed.

Lemma good_retry_cached g : keeps gd (retry_cached g).
Proof.
  unfold retry_cached. apply (spec_bind_keeps gd _ _ (fun r => forall t, r = Ok t ->
    task_ssn_id t = gid_ssn_id g)).
  - apply (spec_attempt_engine gd). intros e t e' Ht. by eapply retry_task_made.
  - intros r Hr. destruct r as [t|e|]; [|by eauto with flame..]. specialize (Hr t eq_refl).
    apply keeps_modify. intros s [Hw Ho]. split.
    + destruct Hw as [Hk Hi He Hn]. split; simpl; try done;
        intros k x Hx; apply lookup_alter_Some in Hx as [(<- & y & Hy & ->)|[_ Hx]];
        eauto with flame. rewrite update_task_id. by apply Hk.
    + intros k x Hx. simpl in Hx. apply lookup_alter_Some in Hx as [(<- & y & Hy & ->)|[_ Hx]]; [|eauto].
      apply tasks_owned_update; [|eauto]. rewrite Hr. symmetry. by apply (swf_ssns s Hw).
Qed.
End good_ops.

(** Operations that leave the sessions alone. *)
Section session_frames.
Context `{Env} {E V : Type} `{EngineSpec E} `{EventManager V}.

Definition ssns (m0 : gmap string Session) (s : Storage E V) : Prop := st_sessions s = m0.

#[export] Instance ssns_cache m0 : CacheProp (ssns m0).
Proof. by split; intros s ?; unfold ssns. Qed.

Lemma ssns_put_executor m0 id x : keeps (ssns m0) (put_executor id x).
Proof. by apply keeps_modify. Qed.
Lemma ssns_put_node m0 id x : keeps (ssns m0) (put_node id x).
Proof. by apply keeps_modify. Qed.
Lemma ssns_executors m0 f : keeps (ssns m0) (modify (fun s => with_executors (f s) s)).
Proof. by apply keeps_modify. Qed.
Lemma ssns_nodes m0 f : keeps (ssns m0) (modify (fun s => with_nodes (f s) s)).
Proof. by apply keeps_modify. Qed.
Lemma ssns_uuid m0 : keeps (ssns m0) uuid.
Proof. by intros s. Qed.
Hint Resolve ssns_put_executor ssns_put_node ssns_executors ssns_nodes ssns_uuid : flame.

Lemma ssns_create_executor m0 node ssn : keeps (ssns m0) (Storage.create_executor node ssn).
Proof. unfold Storage.create_executor. keeps_tac. Qed.
Lemma ssns_update_executor m0 e : keeps (ssns m0) (Storage.update_executor e).
Proof. unfold Storage.update_executor. keeps_tac. Qed.
Lemma ssns_delete_executor m0 id : keeps (ssns m0) (Storage.delete_executor id).
Proof. unfold Storage.delete_executor. keeps_tac. Qed.
Lemma ssns_register_node m0 n : keeps (ssns m0) (Storage.register_node n).
Proof. unfold Storage.register_node. keeps_tac. Qed.
Lemma ssns_update_node_state m0 name st : keeps (ssns m0) (Storage.update_node_state name st).
Proof. unfold Storage.update_node_state. keeps_tac. Qed.
Lemma ssns_release_node m0 name : keeps (ssns m0) (Storage.release_node name).
Proof. unfold Storage.release_node. keeps_tac. Qed.

Lemma good_put_application n a : keeps (@good E V) (put_application n a).
Proof. apply good_frame; [apply keeps_put_application|by intros; apply keeps_modify]. Qed.
Hint Resolve good_put_application : flame.
Lemma good_applications :
  (forall name attr, keeps (@good E V) (Storage.register_application name attr)) /\
  (forall name st, keeps (@good E V) (Storage.update_application_state name st)) /\
  (forall name attr, keeps (@good E V) (Storage.update_application name attr)).
Proof.
  split_and!; intros; unfold Storage.register_application, Storage.update_application_state,
    Storage.update_application; keeps_tac.
Qed.
Lemma good_put_executor (e : Executor) : keeps (@good E V) (put_executor (ex_id e) e).
Proof. apply good_frame; [apply keeps_put_executor|intros; apply ssns_put_executor]. Qed.
Lemma good_create_executor node ssn : keeps (@good E V) (Storage.create_executor node ssn).
Proof. apply good_frame; [apply keeps_create_executor|intros; apply ssns_create_executor]. Qed.
Lemma good_update_executor e : keeps (@good E V) (Storage.update_executor e).
Proof. apply good_frame; [apply keeps_update_executor|intros; apply ssns_update_executor]. Qed.
Lemma good_delete_executor id : keeps (@good E V) (Storage.delete_executor id).
Proof. apply good_frame; [apply keeps_delete_executor|intros; apply ssns_delete_executor]. Qed.
Lemma good_register_node n : keeps (@good E V) (Storage.register_node n).
Proof. apply good_frame; [apply keeps_register_node|intros; apply ssns_register_node]. Qed.
Lemma good_update_node_state name st : keeps (@good E V) (Storage.update_node_state name st).
Proof. apply good_frame; [apply keeps_update_node_state|intros; apply ssns_update_node_state]. Qed.
Lemma good_release_node name : keeps (@good E V) (Storage.release_node name).
Proof.
  apply good_frame; [|intros; apply ssns_release_node]. unfold Storage.release_node. keeps_tac.
Qed.
Lemma good_delete_executors l : keeps (@good E V) (delete_executors l).
Proof.
  induction l as [|x l IH]; simpl; [by eauto with flame|].
  keeps_step; [keeps_tac; apply good_retry_cached|]. keeps_step; [apply keeps_attempt, good_delete_executor|].
  keeps_tac.
Qed.
End session_frames.
#[export] Hint Resolve good_put_executor good_create_executor good_update_executor
  good_delete_executor good_register_node good_update_node_state good_release_node
  good_delete_executors good_create_task good_create_session good_open_session
  good_close_session good_update_session_state good_delete_session good_increment_retry
  good_retry_cached : flame.

(** ** The controller over the storage *)

Section controller_frames.
Context `{Env} {E V : Type} `{Engine E} `{EventManager V}.
Abbreviation K := (ConnectionManager (Storage E V)).

(** A property of the controller's storage. *)
Definition onst (P : Storage E V -> Prop) (k : K) : Prop := P (cm_callbacks k).

Lemma keeps_storage {A} P (m : M (Storage E V) A) : keeps P m -> keeps (onst P) (storage m).
Proof.
  intros Hm k Hk. unfold storage, zoom, onst in *. specialize (Hm _ Hk).
  by destruct (m (cm_callbacks k)).
Qed.

Lemma spec_storage {A} P (m : M (Storage E V) A) Q : spec P m Q -> spec (onst P) (storage m) Q.
Proof.
  intros Hm k Hk. unfold storage, zoom, onst in *. specialize (Hm _ Hk).
  by destruct (m (cm_callbacks k)).
Qed.

Lemma wp_storage {A} (m : M (Storage E V) A) (Q : result A -> K -> Prop) k :
  wp m (fun r s' => Q r (with_callbacks s' k)) (cm_callbacks k) -> wp (storage m) Q k.
Proof. unfold wp, storage, zoom. by destruct (m (cm_callbacks k)). Qed.

Lemma onst_connections P f : keeps (onst P) (modify (fun k : K => Connections.with_connections (f k) k)).
Proof. by apply keeps_modify. Qed.
Lemma onst_put_connection P name c : keeps (onst P) (put_connection name c).
Proof. by apply keeps_modify. Qed.
Lemma onst_timers P f g : keeps (onst P) (modify (fun k : K => with_timers (f k) (g k) k)).
Proof. by apply keeps_modify. Qed.
Hint Resolve onst_connections onst_put_connection onst_timers : flame.

Lemma onst_notify P name e : keeps (onst P) (Connections.notify_executor name e).
Proof.
  unfold Connections.notify_executor. keeps_step; [by eauto with flame|].
  keeps_step; [by eauto with flame|]. unfold Connections.from. destruct (nc_state _); simpl;
  by eauto with flame.
Qed.

Lemma onst_notify_node P e : keeps (onst P) (notify_node e).
Proof. unfold notify_node. keeps_step; [apply keeps_attempt, onst_notify|by eauto with flame]. Qed.

Lemma onst_send_to P name e : keeps (onst P) (send_to name e).
Proof. by apply keeps_modify. Qed.

Lemma onst_connect P name : keeps P (Nodes.on_connected name) -> keeps (onst P) (connect name).
Proof.
  intros Hcb. unfold connect. keeps_step; [by eauto with flame|]. keeps_step; [keeps_tac|].
  keeps_step; [|by apply keeps_storage].
  unfold Connections.from. destruct (nc_state _); simpl; [by eauto with flame| |by eauto with flame].
  keeps_step; [|keeps_tac]. destruct (nc_drain_cancel _); [apply onst_timers|by eauto with flame].
Qed.

Lemma onst_drain P name : keeps P (Nodes.on_draining name) -> keeps (onst P) (Connections.drain name).
Proof.
  intros Hcb. unfold Connections.drain. keeps_step; [by eauto with flame|].
  destruct a as [c|]; [|by eauto with flame]. keeps_step.
  { apply keeps_attempt. unfold Connections.from. destruct (nc_state c); simpl; by eauto with flame. }
  assert (keeps (onst P) (setup_drain_timer name ≫= fun _ =>
    Connections.callback (Connections.on_draining name) ≫= fun _ => mret true)) as Hgo.
  { keeps_step; [by apply keeps_modify|]. keeps_step; [by apply keeps_storage|by eauto with flame]. }
  destruct a as [|[]|]; try done. by eauto with flame.
Qed.

Lemma onst_fire P token :
  (forall name, keeps P (Nodes.on_closed name)) -> keeps (onst P) (fire_timer token).
Proof.
  intros Hcb. unfold fire_timer. keeps_step; [by eauto with flame|].
  destruct a as [name|]; [|by eauto with flame].
  keeps_step; [by apply keeps_modify|].
  keeps_step; [|by eauto with flame]. apply keeps_attempt. unfold handle_drain_timeout.
  apply keeps_bind; [by eauto with flame|]. intros [c|]; [|by eauto with flame].
  keeps_step.
  { unfold Connections.from. destruct (nc_state c); simpl; by eauto with flame. }
  keeps_step; [apply keeps_storage, Hcb|]. apply onst_connections.
Qed.
End controller_frames.
#[export] Hint Resolve keeps_storage onst_notify onst_notify_node onst_send_to : flame.

(** ** The identifiers drawn so far *)

Section uuid_frames.
Context `{Env} {E V : Type} `{Engine E} `{EventManager V} (n : nat).

Definition uu (s : Storage E V) : Prop := (n <= st_uuids s)%nat.

#[export] Instance uu_cache : CacheProp uu.
Proof. by split; intros s ?; unfold uu. Qed.

Lemma uu_uuid : keeps uu uuid.
Proof. intros s Hs. unfold uu in *. simpl. lia. Qed.
Lemma uu_modify f : (forall s : Storage E V, st_uuids (f s) = st_uuids s) -> keeps uu (modify f).
Proof. intros Hf. apply keeps_modify. unfold uu. intros s. by rewrite Hf. Qed.
Lemma uu_put_session id x : keeps uu (put_session id x).
Proof. by apply uu_modify. Qed.
Lemma uu_put_executor id x : keeps uu (put_executor id x).
Proof. by apply uu_modify. Qed.
Lemma uu_put_node id x : keeps uu (put_node id x).
Proof. by apply uu_modify. Qed.
Lemma uu_evict : keeps uu evict_sessions.
Proof. apply uu_modify. intros s. by destruct (st_max_sessions s). Qed.
Hint Resolve uu_uuid uu_put_session uu_put_executor uu_put_node uu_evict : flame.
Hint Extern 2 (keeps uu (modify _)) => by apply uu_modify : flame.

Lemma uu_update_session_state id st : keeps uu (Storage.update_session_state id st).
Proof. unfold Storage.update_session_state. keeps_tac. Qed.
Lemma uu_update_task_state ssn t st msg : keeps uu (Storage.update_task_state ssn t st msg).
Proof. unfold Storage.update_task_state. keeps_tac. Qed.
Lemma uu_update_task_result ssn t r : keeps uu (Storage.update_task_result ssn t r).
Proof. unfold Storage.update_task_result. keeps_tac. Qed.
Lemma uu_update_executor e : keeps uu (Storage.update_executor e).
Proof. unfold Storage.update_executor. keeps_tac. Qed.
Lemma uu_create_executor node ssn : keeps uu (Storage.create_executor node ssn).
Proof. unfold Storage.create_executor. keeps_tac. Qed.
Lemma uu_enter st e : keeps uu (enter st e).
Proof. unfold enter. keeps_tac. Qed.
Hint Resolve uu_update_session_state uu_update_task_state uu_update_task_result uu_update_executor
  uu_create_executor uu_enter : flame.

Lemma uu_create_session attr : keeps uu (Storage.create_session attr).
Proof. unfold Storage.create_session. keeps_tac. Qed.
Lemma uu_open_session id spc : keeps uu (Storage.open_session id spc).
Proof. unfold Storage.open_session. keeps_tac. Qed.
Lemma uu_close_session id : keeps uu (Storage.close_session id).
Proof. unfold Storage.close_session. keeps_tac. Qed.
Lemma uu_delete_session id : keeps uu (Storage.delete_session id).
Proof. unfold Storage.delete_session. keeps_tac. Qed.
Lemma uu_create_task ssn i o : keeps uu (Storage.create_task ssn i o).
Proof. unfold Storage.create_task. keeps_tac. Qed.
Lemma uu_register_node x : keeps uu (Storage.register_node x).
Proof. unfold Storage.register_node. keeps_tac. Qed.
Lemma uu_release_node name : keeps uu (Storage.release_node name).
Proof. unfold Storage.release_node. keeps_tac. Qed.
Lemma uu_update_node_state name st : keeps uu (Storage.update_node_state name st).
Proof. unfold Storage.update_node_state. keeps_tac. Qed.
Lemma uu_delete_executor id : keeps uu (Storage.delete_executor id).
Proof. unfold Storage.delete_executor. keeps_tac. Qed.
Hint Resolve uu_create_session uu_open_session uu_close_session uu_delete_session uu_create_task
  uu_register_node uu_release_node uu_update_node_state uu_delete_executor : flame.

Lemma uu_put_application m a : keeps uu (put_application m a).
Proof. by apply uu_modify. Qed.
Hint Resolve uu_put_application : flame.
Lemma uu_applications :
  (forall name attr, keeps uu (Storage.register_application name attr)) /\
  (forall name st, keeps uu (Storage.update_application_state name st)) /\
  (forall name attr, keeps uu (Storage.update_application name attr)).
Proof.
  split_and!; intros; unfold Storage.register_application, Storage.update_application_state,
    Storage.update_application; keeps_tac.
Qed.

Lemma uu_delete_executors l : keeps uu (delete_executors l).
Proof. induction l as [|x l IH]; simpl; unfold retry_cached; keeps_tac. Qed.
Hint Resolve uu_delete_executors : flame.

Lemma uu_enter_node st name : keeps uu (enter_node st name).
Proof. unfold enter_node, get_node_ptr. keeps_tac. Qed.
Hint Resolve uu_enter_node : flame.

Lemma uu_node_states x :
  (forall name, keeps uu (Nodes.register_node (Nodes.from x) name)) /\
  (forall name, keeps uu (Nodes.drain (Nodes.from x) name)) /\
  (forall name, keeps uu (Nodes.shutdown (Nodes.from x) name)) /\
  (forall y name, keeps uu (Nodes.update_node (Nodes.from x) y name)) /\
  (forall name, keeps uu (Nodes.release_node (Nodes.from x) name)).
Proof.
  unfold Nodes.from. destruct (node_state x); split_and!; intros; simpl;
    unfold change_state, shutdown_unknown, get_node_ptr, list_executors; keeps_tac.
Qed.

Lemma uu_with_node name f : (forall x, keeps uu (f (Nodes.from x))) -> keeps uu (with_node name f).
Proof. intros Hf. unfold with_node. keeps_tac. Qed.

Lemma uu_states st e :
  Executors.from e = Ok st ->
  keeps uu (Executors.register_executor st e) /\ keeps uu (Executors.release_executor st e) /\
  keeps uu (Executors.unregister_executor st e) /\
  (forall ssn, keeps uu (Executors.bind_session st ssn e)) /\
  (forall r, keeps uu (Executors.bind_session_completed st r e)) /\
  keeps uu (Executors.unbind_executor st e) /\ keeps uu (Executors.unbind_executor_completed st e) /\
  (forall ssn t, keeps uu (Executors.launch_task st ssn t e)) /\
  (forall ssn t r, keeps uu (Executors.complete_task st ssn t r e)).
Proof.
  intros Hst. unfold Executors.from in Hst. destruct (ex_state e); try discriminate Hst;
    injection Hst as <-; split_and!; intros; simpl;
    unfold invalid, enter_unbound, enter_binding, binding_completed, bind_session_failed,
      bind_session_success, record_bind_failure, increment_session_retry_count,
      record_retry_limit_reached, bound_launch_task, bound_complete_task, unbinding_complete_task;
    keeps_tac.
Qed.
End uuid_frames.
#[export] Hint Resolve uu_uuid uu_put_session uu_put_executor uu_put_node uu_evict
  uu_update_session_state uu_update_task_state uu_update_task_result uu_update_executor
  uu_create_executor uu_enter uu_create_session uu_open_session uu_close_session uu_delete_session
  uu_create_task uu_register_node uu_release_node uu_update_node_state uu_delete_executor
  uu_delete_executors : flame.
