(* ===== verification/Lifecycle.v ===== *)
(** * The life of an executor

    Which operation of the controller moves an executor from which state to
    which, as an abstract transition relation, and that the controller
    implements it: every operation changes every executor along a transition
    of that relation or not at all. *)
From stdpp Require Import pretty.
From S2P Require Import Connections Nodes Executors.
From S2P Require Import Prelude Types Session Filters Snapshot Order Events Engine Storage.
From S2P Require Import StorageInv SchedCtx Controller Frames.
Local Open Scope Z_scope.

(** ** The abstract machine *)

(** What of an executor the machine speaks of: state, session and task. *)
Definition view : Type := ExecutorState * option string * option Z.
Definition view_of (e : Executor) : view := (ex_state e, ex_ssn_id e, ex_task_id e).

(** The operations of the controller that change its state; [CLaunchNext] is the
    rest of a call of [launch_task] that waited. *)
Inductive ctl_op :=
  | CCreateExecutor (node ssn : string)
  | CRegisterExecutor (e : Executor)
  | CBindSession (id ssn : string)
  | CBindCompleted (id : string) (result : option FlameResult) (attrs : option ExecutorAttributes)
  | CUnbindExecutor (id : string)
  | CUnbindCompleted (id : string)
  | CLaunchTask (id : string)
  | CLaunchNext (id ssn : string)
  | CCompleteTask (id : string) (result : TaskResult) (attrs : option ExecutorAttributes)
  | CInterruptExecutor (id : string)
  | CReleaseExecutor (id : string)
  | CUnregisterExecutor (id : string)
  | CRegisterNode (node : Node) (reported : list Executor)
  | CDrainNode (name : string)
  | CFireTimer (token : nat)
  | CUpdateNode (node : Node)
  | CReleaseNode (name : string)
  | CCreateSession (attr : SessionAttributes)
  | COpenSession (id : string) (attr : option SessionAttributes)
  | CCloseSession (id : string)
  | CSignalSession (id : string) (sig : Signal)
  | CSuspendSession (id : string)
  | CResumeSession (id : string)
  | CDeleteSession (id : string)
  | CCreateTask (ssn : string) (input : option string) (options : option TaskOptions)
  | CSyncNode (node : Node) (reported : list Executor)
  | CRegisterApplication (name : string) (attr : ApplicationAttributes)
  | CUnregisterApplication (name : string)
  | CUpdateApplication (name : string) (attr : ApplicationAttributes).

(** The transitions of the executor [id]; [None] is an executor that does not
    exist. *)
Inductive lstep : ctl_op -> string -> option view -> option view -> Prop :=
  | l_create node ssn id :
      lstep (CCreateExecutor node ssn) id None (Some (ExecVoid, None, None))
  | l_register e s t :
      lstep (CRegisterExecutor e) (ex_id e) (Some (ExecVoid, s, t)) (Some (ExecIdle, s, t))
  | l_bind_idle id ssn s t :
      lstep (CBindSession id ssn) id (Some (ExecIdle, s, t)) (Some (ExecBinding, Some ssn, t))
  | l_bind_again id ssn s t :
      lstep (CBindSession id ssn) id (Some (ExecBinding, s, t)) (Some (ExecBinding, Some ssn, t))
  | l_bound id r a ssn t :
      lstep (CBindCompleted id r a) id
        (Some (ExecBinding, Some ssn, t)) (Some (ExecBound, Some ssn, t))
  | l_bind_failed id r a ssn t :
      lstep (CBindCompleted id (Some r) a) id
        (Some (ExecBinding, Some ssn, t)) (Some (ExecUnbinding, None, None))
  | l_unbind id st s t : st = ExecBinding \/ st = ExecBound ->
      lstep (CUnbindExecutor id) id (Some (st, s, t)) (Some (ExecUnbinding, s, t))
  | l_unbind_again id s t :
      lstep (CUnbindExecutor id) id (Some (ExecUnbinding, s, t)) (Some (ExecUnbinding, None, None))
  | l_unbound id st s t : st = ExecBinding \/ st = ExecUnbinding ->
      lstep (CUnbindCompleted id) id (Some (st, s, t)) (Some (ExecIdle, None, None))
  | l_launch id s t : 
      lstep (CLaunchTask id) id (Some (ExecBound, Some s, None)) (Some (ExecBound, Some s, Some t))
  | l_launch_next id ssn t0 t :
      lstep (CLaunchNext id ssn) id
        (Some (ExecBound, Some ssn, t0)) (Some (ExecBound, Some ssn, Some t))
  | l_complete id r a s t :
      lstep (CCompleteTask id r a) id
        (Some (ExecBound, Some s, Some t)) (Some (ExecBound, Some s, None))
  | l_complete_unbinding id r a s t :
      lstep (CCompleteTask id r a) id
        (Some (ExecUnbinding, Some s, Some t)) (Some (ExecUnbinding, None, None))
  | l_release id s t :
      lstep (CReleaseExecutor id) id (Some (ExecIdle, s, t)) (Some (ExecReleasing, s, t))
  | l_unregister id st s t : st = ExecBinding \/ st = ExecReleasing ->
      lstep (CUnregisterExecutor id) id (Some (st, s, t)) None
  | l_orphan node reported id st s t :
      id ∉ ex_id <$> reported ->
      lstep (CRegisterNode node reported) id (Some (st, s, t)) (Some (ExecReleasing, s, t))
  | l_node_lost token id v :
      lstep (CFireTimer token) id (Some v) None.

(** ** The simulation *)

Section simulation.
Context `{Env} {E V : Type} `{EngineSpec E} `{EventManager V}.
Implicit Types (X : gmap string Executor) (s : Storage E V).

(** Before an operation has touched the executors [X], and after. *)
Definition base X s : Prop := good s /\ execs X s.

Definition moves (op : ctl_op) (id : string) (o o' : option Executor) : Prop :=
  view_of <$> o = view_of <$> o' \/ lstep op id (view_of <$> o) (view_of <$> o').

Definition evo (op : ctl_op) X s : Prop :=
  good s /\ forall id, moves op id (X !! id) (st_executors s !! id).

#[export] Instance base_cache X : CacheProp (base X).
Proof. by split; intros s n [Hg He]; (split; [by apply good_cache|]). Qed.

#[export] Instance evo_cache op X : CacheProp (evo op X).
Proof. by split; intros s n [Hg He]; (split; [by apply good_cache|]). Qed.

Lemma keeps_base {A} X (m : M (Storage E V) A) :
  keeps good m -> keeps (execs X) m -> keeps (base X) m.
Proof. intros Hg He s [H1' H2']. split; [by apply Hg|by apply He]. Qed.

Lemma base_evo op X s : base X s -> evo op X s.
Proof. intros [Hg <-]. split; [done|]. intros id. by left. Qed.

Lemma evo_insert op X s id e e' :
  good s -> st_executors s = <[id := e']> X -> X !! id = Some e ->
  moves op id (Some e) (Some e') -> evo op X s.
Proof.
  intros Hg Hs He Hm. split; [done|]. intros id'. rewrite Hs.
  destruct (decide (id = id')) as [<-|]; [by rewrite lookup_insert_eq, He|].
  rewrite lookup_insert_ne by done. by left.
Qed.

Lemma spec_get_executor_ptr X id :
  spec (base X) (get_executor_ptr id) (fun e => X !! id = Some e /\ ex_id e = id).
Proof.
  intros s [Hg Hx]. split; [by split|]. unfold get_executor_ptr, mbind, M_bind, gets, lift. simpl.
  rewrite Hx. destruct (X !! id) as [e|] eqn:He; [|done]. intros ? [= <-]. split; [done|].
  apply (swf_execs s (g_wf s Hg)). by rewrite Hx.
Qed.

(** Publishing an executor gives the cached one its view. *)
Lemma update_executor_result X e e' s :
  base X s -> X !! ex_id e' = Some e ->
  let s' := (Storage.update_executor e' s).2 in
  good s' /\ (st_executors s' = X \/
    exists p, view_of p = view_of e' /\ st_executors s' = <[ex_id e' := p]> X).
Proof.
  intros Hb He. pose proof (good_update_executor e' s (proj1 Hb)) as Hg. simpl. split; [done|].
  clear Hg. unfold Storage.update_executor, mbind, M_bind, gets.
  assert (base X (engine (Engine.update_executor e') s).2) as Hb1 by (by apply (keeps_engine (base X))).
  destruct (engine (Engine.update_executor e') s) as [[a|err|] s1]; simpl in *;
    [|left; apply Hb1..].
  destruct Hb1 as [Hg1 Hx1]. rewrite Hx1, He. simpl. right. eexists. rewrite Hx1. split; [|done].
  unfold view_of. simpl. unfold set_state. by destruct (decide _).
Qed.

Lemma moves_view op id o p e' : view_of p = view_of e' -> moves op id o (Some e') -> moves op id o (Some p).
Proof. unfold moves. simpl. by intros ->. Qed.

Lemma update_executor_evo op X e e' s :
  base X s -> X !! ex_id e' = Some e -> moves op (ex_id e') (Some e) (Some e') ->
  evo op X (Storage.update_executor e' s).2.
Proof.
  intros Hb He Hm. destruct (update_executor_result X e e' s Hb He) as [Hg [Hs|(p & Hp & Hs)]].
  - by apply base_evo.
  - eapply evo_insert; [done..|]. by eapply moves_view.
Qed.

(** The cached executor is written, then published. *)
Lemma put_update_executor_evo op X e e' s :
  base X s -> X !! ex_id e' = Some e -> moves op (ex_id e') (Some e) (Some e') ->
  evo op X ((put_executor (ex_id e') e' ≫= fun _ => Storage.update_executor e') s).2.
Proof.
  intros [Hg Hx] He Hm. unfold mbind, M_bind. simpl. set (s1 := with_executors _ s).
  assert (base (<[ex_id e' := e']> X) s1) as Hb1.
  { split; [by apply (good_put_executor e')|]. unfold execs, s1. simpl. by rewrite Hx. }
  destruct (update_executor_result _ e' e' s1 Hb1) as [Hg2 [Hs|(p & Hp & Hs)]];
    [by rewrite lookup_insert_eq|..].
  - by eapply evo_insert.
  - rewrite insert_insert_eq in Hs. eapply evo_insert; [done..|]. by eapply moves_view.
Qed.

Lemma wp_onst {A} (P : Storage E V -> Prop) (m : M (ConnectionManager (Storage E V)) A) k :
  wp m (fun _ k' => onst P k') k -> onst P (m k).2.
Proof. unfold wp. by destruct (m k). Qed.

Lemma wp_of_onst {A} (P : Storage E V -> Prop) (m : M (ConnectionManager (Storage E V)) A) k :
  onst P (m k).2 -> wp m (fun _ k' => onst P k') k.
Proof. unfold wp. by destruct (m k). Qed.

Lemma transition_evo op id (f : States E V -> Executor -> M (Storage E V) Executor) X :
  (forall st e, X !! id = Some e -> ex_id e = id -> Executors.from e = Ok st ->
     spec (base X) (f st e) (fun e' => ex_id e' = id /\ moves op id (Some e) (Some e'))) ->
  forall k, onst (base X) k -> onst (evo op X) (transition id f k).2.
Proof.
  intros Hf k Hk. apply wp_onst. unfold transition. apply wp_bind.
  eapply wp_mono; [apply (wp_spec (onst (base X))); [apply spec_storage, spec_get_executor_ptr|done]|].
  intros [e|err|] k1 [Hk1 He]; [|by apply base_evo..]. destruct (He e eq_refl) as [HX Hid].
  apply wp_bind, wp_lift. destruct (Executors.from e) as [st|err|] eqn:Hst; [|by apply base_evo..].
  apply wp_bind. eapply wp_mono.
  { apply (wp_spec (onst (base X))); [apply spec_storage, (Hf st e HX Hid Hst)|done]. }
  intros [e'|err|] k2 [Hk2 He']; [|by apply base_evo..]. destruct (He' e' eq_refl) as [Hid' Hm].
  apply wp_bind, wp_storage. rewrite <-Hid' in HX, Hm.
  pose proof (update_executor_evo op X e e' _ Hk2 HX Hm) as Hev. unfold wp.
  destruct (Storage.update_executor e' (cm_callbacks k2)) as [[u|err|] s3]; simpl in *; try done.
  apply (wp_keeps (onst (evo op X))); [|done].
  apply keeps_bind; [apply onst_notify_node|]. intros. apply keeps_ret.
Qed.

(** ** The state objects *)

Lemma spec_enter (P : Storage E V -> Prop) `{!CacheProp P} st e :
  spec P (enter st e) (fun e' => ex_id e' = ex_id e /\ view_of e' = (st, ex_ssn_id e, ex_task_id e)).
Proof.
  unfold enter. apply (spec_bind P _ _ (fun _ => True)); [apply keeps_spec; by apply keeps_now|].
  intros t _. apply spec_ret. unfold view_of, set_state. by destruct (decide _).
Qed.

Lemma spec_enter_unbound (P : Storage E V -> Prop) `{!CacheProp P} st e :
  spec P (enter_unbound st e) (fun e' => ex_id e' = ex_id e /\ view_of e' = (st, None, None)).
Proof.
  unfold enter_unbound. eapply spec_bind; [by apply spec_enter|]. intros e' [Hid Hv].
  apply spec_ret. split; [done|]. unfold view_of in *. simpl. by injection Hv as -> _ _.
Qed.

Lemma spec_enter_binding X ssn e :
  spec (base X) (enter_binding ssn e)
    (fun e' => ex_id e' = ex_id e /\ view_of e' = (ExecBinding, Some ssn, ex_task_id e)).
Proof.
  unfold enter_binding. apply (spec_bind (base X) _ _ (fun x => ssn_id x = ssn)).
  - intros s [Hg Hx]. destruct (good_get_session_ptr ssn s Hg) as [_ Hs]. split; [done|].
    intros x Hr. by apply Hs.
  - intros x <-. eapply spec_weaken; [apply (spec_enter (base X))|]. by intros e' [? ?].
Qed.

(** A failed bind: the session's retry count is raised and the executor
    unbinds. *)
Lemma spec_bind_failed X r e :
  spec (base X) (bind_session_failed r e)
    (fun e' => ex_id e' = ex_id e /\ is_Some (ex_ssn_id e) /\ view_of e' = (ExecUnbinding, None, None)).
Proof.
  unfold bind_session_failed. apply (spec_bind (base X) _ _ (fun _ => is_Some (ex_ssn_id e))).
  - intros s Hs. split.
    + apply keeps_base; [|by eauto with flame|done]. unfold record_bind_failure. keeps_tac.
    + unfold record_bind_failure, mbind, M_bind, lift. intros u. destruct (ex_ssn_id e); [by eauto|done].
  - intros _ Hss. apply (spec_bind (base X) _ _ (fun _ => True)).
    + apply keeps_spec, keeps_base; by eauto with flame.
    + intros _ _. eapply spec_weaken; [apply (spec_enter_unbound (base X))|]. by intros e' [? ?].
Qed.

Lemma spec_bind_success X e :
  spec (base X) (bind_session_success e)
    (fun e' => ex_id e' = ex_id e /\ is_Some (ex_ssn_id e) /\
               view_of e' = (ExecBound, ex_ssn_id e, ex_task_id e)).
Proof.
  unfold bind_session_success. apply (spec_bind (base X) _ _ (fun ssn => ex_ssn_id e = Some ssn)).
  - apply spec_lift. intros ssn. by destruct (ex_ssn_id e); [intros [= ->]|].
  - intros ssn Hssn. apply (spec_bind (base X) _ _ (fun _ => True)).
    { apply keeps_spec. by apply keeps_get_session_ptr. }
    intros _ _. eapply spec_weaken; [apply (spec_enter (base X))|].
    intros e' [? ?]. rewrite Hssn in *. by eauto.
Qed.

Lemma spec_invalid {A} (P : Storage E V -> Prop) (Q : A -> Prop) : spec P invalid Q.
Proof. intros s Hs. by split. Qed.

(** ** The operations on one executor *)

Ltac by_state e Hst :=
  unfold Executors.from in Hst; destruct (ex_state e) eqn:?; try discriminate Hst;
  injection Hst as <-; simpl; try (by apply spec_invalid).

(** Close a transition from the views of both ends. *)
Ltac by_lstep :=
  intros ? [? ?]; split; [congruence|]; right; unfold view_of at 1; simpl;
  repeat match goal with
  | H : ex_state _ = _ |- _ => rewrite H
  | H : view_of ?e' = _ |- context [view_of ?e'] => rewrite H
  end.

Lemma register_executor_evo e X k :
  onst (base X) k -> onst (evo (CRegisterExecutor e) X) (register_executor e k).2.
Proof.
  intros Hk. unfold register_executor. rewrite bind_ret_snd. revert k Hk. apply transition_evo.
  intros st x Hx Hid Hst. by_state x Hst.
  eapply spec_weaken; [apply (spec_enter (base X))|]. by_lstep. constructor.
Qed.

Lemma bind_session_evo id ssn X k :
  onst (base X) k -> onst (evo (CBindSession id ssn) X) (bind_session id ssn k).2.
Proof.
  intros Hk. unfold bind_session. rewrite bind_ret_snd. revert k Hk. apply transition_evo.
  intros st x Hx Hid Hst. apply (spec_bind (base X) _ _ (fun _ => True)).
  { apply keeps_spec. by apply keeps_get_session_ptr. }
  intros y _. destruct (negb (is_open y)); [by apply spec_invalid|].
  by_state x Hst; (eapply spec_weaken; [apply spec_enter_binding|]); by_lstep; constructor.
Qed.

Lemma bind_session_completed_evo id r a X k :
  onst (base X) k -> onst (evo (CBindCompleted id r a) X) (bind_session_completed id r k).2.
Proof.
  intros Hk. unfold bind_session_completed. rewrite bind_ret_snd. revert k Hk. apply transition_evo.
  intros st x Hx Hid Hst. by_state x Hst.
  assert (forall r', spec (base X) (bind_session_success x) (fun e' => ex_id e' = id /\
    moves (CBindCompleted id r' a) id (Some x) (Some e'))) as Hok.
  { intros r'. eapply spec_weaken; [apply spec_bind_success|]. intros e' (Hid' & [ssn Hs] & Hv).
    split; [congruence|]. right. simpl. rewrite Hv. unfold view_of. rewrite Hs, Heqe. constructor. }
  unfold binding_completed. destruct r as [r|]; [|apply Hok]. destruct (negb _); [|apply Hok].
  eapply spec_weaken; [apply spec_bind_failed|]. intros e' (Hid' & [ssn Hs] & Hv).
  split; [congruence|]. right. simpl. rewrite Hv. unfold view_of. rewrite Hs, Heqe. constructor.
Qed.

Lemma unbind_executor_evo id X k :
  onst (base X) k -> onst (evo (CUnbindExecutor id) X) (unbind_executor id k).2.
Proof.
  intros Hk. unfold unbind_executor. rewrite bind_ret_snd. revert k Hk. apply transition_evo.
  intros st x Hx Hid Hst. by_state x Hst; (eapply spec_weaken;
    [apply (spec_enter (base X)) || apply (spec_enter_unbound (base X))|]); by_lstep; constructor; auto.
Qed.

Lemma unbind_executor_completed_evo id X k :
  onst (base X) k -> onst (evo (CUnbindCompleted id) X) (unbind_executor_completed id k).2.
Proof.
  intros Hk. unfold unbind_executor_completed. rewrite bind_ret_snd. revert k Hk. apply transition_evo.
  intros st x Hx Hid Hst. by_state x Hst; (eapply spec_weaken;
    [apply (spec_enter_unbound (base X))|]); by_lstep; constructor; auto.
Qed.

Lemma release_executor_evo id X k :
  onst (base X) k -> onst (evo (CReleaseExecutor id) X) (release_executor id k).2.
Proof.
  intros Hk. unfold release_executor. rewrite bind_ret_snd. revert k Hk. apply transition_evo.
  intros st x Hx Hid Hst. by_state x Hst. eapply spec_weaken; [apply (spec_enter (base X))|].
  by_lstep. constructor.
Qed.

(** ** Attributes, signals and tasks *)

Lemma keeps_evo {A} op X (m : M (Storage E V) A) :
  keeps good m -> (forall Y, keeps (execs Y) m) -> keeps (evo op X) m.
Proof.
  intros Hg He s [H1' H2']. split; [by apply Hg|]. by rewrite (He (st_executors s) s eq_refl).
Qed.

(** Writing a cached executor without changing its view. *)
Lemma put_same_view op X id e e' s :
  evo op X s -> st_executors s !! id = Some e -> ex_id e' = id -> view_of e' = view_of e ->
  evo op X (put_executor id e' s).2.
Proof.
  intros [Hg Hm] He <- Hv. split; [by apply good_put_executor|]. intros id'. simpl. specialize (Hm id').
  destruct (decide (id' = ex_id e')) as [->|]; [|by rewrite lookup_insert_ne].
  rewrite lookup_insert_eq. rewrite He in Hm. by eapply moves_view.
Qed.

Lemma put_same_view_onst op X id (g : Executor -> Executor) k e :
  (forall e, ex_id (g e) = ex_id e /\ view_of (g e) = view_of e) ->
  onst (evo op X) k -> st_executors (cm_callbacks k) !! id = Some e ->
  onst (evo op X) (storage (put_executor id (g e)) k).2.
Proof.
  intros Hgv Hk He. destruct (Hgv e) as [Hid Hv]. unfold onst, storage, zoom. simpl.
  eapply (put_same_view op X id e); [done|done| |done]. rewrite Hid.
  by apply (swf_execs _ (g_wf _ (proj1 Hk))).
Qed.

Lemma update_attributes_evo op X id u : keeps (onst (evo op X)) (update_executor_attributes id u).
Proof.
  intros k Hk. unfold update_executor_attributes, get_executor_ptr, storage at 1, zoom, mbind, M_bind,
    gets, lift. destruct k as [cs ts n s]. simpl. destruct (st_executors s !! id) as [e|] eqn:He; [|done].
  simpl. destruct (negb _); [done|]. destruct (ex_ssn_id e); [|done]. simpl.
  by apply (put_same_view_onst op X id (fun e => executor_with_attributes _ e) (mkManager cs ts n s) e).
Qed.

Lemma interrupt_executor_evo op X id : keeps (onst (evo op X)) (interrupt_executor id).
Proof.
  intros k Hk. unfold interrupt_executor, get_executor_ptr, storage at 1, zoom, mbind, M_bind, gets, lift.
  destruct k as [cs ts n s]. simpl. destruct (st_executors s !! id) as [e|] eqn:He; [|done]. simpl.
  by apply (put_same_view_onst op X id (fun e => executor_with_signal (Some SigInterrupt) e)
    (mkManager cs ts n s) e).
Qed.

Lemma bind_executor_completed_evo id r a X k :
  onst (base X) k -> onst (evo (CBindCompleted id r a) X) (bind_executor_completed id r a k).2.
Proof.
  intros Hk. apply wp_onst. unfold bind_executor_completed. apply wp_bind, wp_lift.
  destruct (transpose _ a) as [u|err|]; [|by apply base_evo..]. apply wp_bind.
  pose proof (bind_session_completed_evo id r a X k Hk) as Hb. unfold wp at 1.
  destruct (bind_session_completed id r k) as [[[]|err|] k1]; simpl in Hb; [|done..].
  apply (wp_keeps (onst (evo _ X))); [|done]. destruct u; [apply update_attributes_evo|by eauto with flame].
Qed.

(** A popped task is one of the session the executor serves. *)
Lemma spec_wait_for_task X ssn id :
  spec (onst (base X)) (wait_for_task ssn id) (fun r => forall t, r = Ready (Some t) ->
    task_ssn_id t = ssn /\ exists e, X !! id = Some e /\ ex_ssn_id e = Some ssn).
Proof.
  apply spec_storage. intros s [[Hw Ho] Hx]. unfold execs in Hx. rewrite Hx.
  destruct (st_sessions s !! ssn) as [x|] eqn:Hs; [|by split; [done|intros ? [= <-]]].
  destruct (X !! id) as [e|] eqn:He; [|by split; [done|intros ? [= <-]]].
  destruct (negb (is_open x) || is_unbinding e ssn || is_interrupted e) eqn:Hc;
    [by split; [done|intros ? [= <-]]|].
  pose proof (swf_index s Hw _ _ Hs) as Hix. pose proof (pop_pending_task_lookup x Hix) as Hp.
  pose proof (pop_pending_task_wf x Hix) as Hpw.
  destruct (pop_pending_task x) as [[t|] x'] eqn:Hpop; [|by split; [done|intros ? [= <-]]].
  destruct Hp as (Hl & _ & Htasks & _). simpl in Hpw.
  assert (ssn_id x' = ssn) as Hid'.
  { rewrite <-(swf_ssns s Hw _ _ Hs). unfold pop_pending_task in Hpop.
    destruct (_ !! TaskPending) as [m|]; [|done]. destruct (btree_first m); [|done].
    by injection Hpop as _ <-. }
  assert (tasks_owned x') as Ho'.
  { intros tid t'. rewrite Htasks, Hid', <-(swf_ssns s Hw _ _ Hs). apply (Ho _ _ Hs). }
  split.
  - split; [|done]. destruct (good_put_session ssn x' Hid' Hpw Ho' s); [by split|by split].
  - intros r [= <-] t' [= <-]. split.
    + apply (iw_sound x Hix) in Hl as [Hl _]. rewrite (Ho _ _ Hs _ _ Hl). by apply (swf_ssns s Hw).
    + exists e. split; [done|]. apply orb_false_iff in Hc as [[_ Hu]%orb_false_iff _].
      unfold is_unbinding in Hu. destruct (ex_state e); try done; by case_bool_decide.
Qed.

(** Writing and publishing an executor. *)
Lemma publish_evo {A} op X e e' (Q : unit -> M (ConnectionManager (Storage E V)) A) k :
  onst (base X) k -> X !! ex_id e' = Some e -> moves op (ex_id e') (Some e) (Some e') ->
  (forall u, keeps (onst (evo op X)) (Q u)) ->
  wp (storage (put_executor (ex_id e') e') ≫= fun _ =>
      storage (Storage.update_executor e') ≫= Q) (fun _ k' => onst (evo op X) k') k.
Proof.
  intros Hk He Hm HQ. pose proof (put_update_executor_evo op X e e' _ Hk He Hm) as Hev. revert Hev.
  unfold wp, mbind, M_bind, storage, zoom, onst. simpl.
  destruct (Storage.update_executor e' _) as [[u| |] s']; simpl; try done. intros Hev.
  pose proof (HQ u (with_callbacks s' k) Hev) as Hq. by destruct (Q u _).
Qed.

(** Launching a task of [ssn] on the executor. *)
Lemma spec_launch X st ssn t e :
  Executors.from e = Ok st -> task_ssn_id t = ssn -> ex_ssn_id e = Some ssn ->
  spec (base X) (Executors.launch_task st ssn t e) (fun r => ex_id r.1 = ex_id e /\
    (view_of r.1 = view_of e \/ ex_state e = ExecBound /\
       view_of r.1 = (ExecBound, Some ssn, Some (task_id t)))).
Proof.
  intros Hst Ht He. by_state e Hst.
  - unfold bound_launch_task. apply (spec_bind (base X) _ _ (fun _ => True)).
    + apply keeps_spec, keeps_base; [by apply good_update_task_state|by eauto with flame].
    + intros _ _. apply spec_ret. split; [done|]. right. split; [done|].
      unfold view_of. simpl. by rewrite Heqe0, Ht.
  - apply spec_ret. split; [done|by left].
Qed.

Lemma launch_next_evo op id ssn X k :
  (forall e t, X !! id = Some e -> ex_ssn_id e = Some ssn ->
     lstep op id (Some (ExecBound, Some ssn, ex_task_id e)) (Some (ExecBound, Some ssn, Some t))) ->
  onst (base X) k -> onst (evo op X) (launch_next id ssn k).2.
Proof.
  intros Hop Hk. apply wp_onst. unfold launch_next. apply wp_bind.
  eapply wp_mono; [by apply (wp_spec (onst (base X))), Hk; apply spec_wait_for_task|].
  intros [r|err|] k1 [Hk1 Hr]; [|by apply base_evo..]. specialize (Hr r eq_refl).
  destruct r as [[t|]|]; [|by apply base_evo..]. destruct (Hr t eq_refl) as (Ht & e & He & Hs).
  apply wp_bind. eapply wp_mono.
  { apply (wp_spec (onst (base X))); [apply spec_storage, spec_get_executor_ptr|done]. }
  intros [e'|err|] k2 [Hk2 He']; [|by apply base_evo..]. destruct (He' e' eq_refl) as [HX Hid].
  rewrite He in HX. injection HX as <-. clear He'.
  apply wp_bind, wp_lift. destruct (Executors.from e) as [st|err|] eqn:Hst; [|by apply base_evo..].
  apply wp_bind. eapply wp_mono.
  { apply (wp_spec (onst (base X))); [apply spec_storage, (spec_launch X st ssn t e Hst Ht Hs)|done]. }
  intros [[e' l]|err|] k3 [Hk3 He']; [|by apply base_evo..]. destruct (He' _ eq_refl) as [Hid' Hv].
  simpl in *. rewrite <-Hid, <-Hid'. apply publish_evo with (e := e); [done|congruence| |by eauto with flame].
  unfold moves. simpl. destruct Hv as [->|[Hst' Hv]]; [by left|]. right. rewrite Hv.
  unfold view_of. rewrite Hs, Hst', Hid', Hid. by apply Hop.
Qed.

Lemma launch_task_evo id X k :
  onst (base X) k -> onst (evo (CLaunchTask id) X) (launch_task id k).2.
Proof.
  intros Hk. apply wp_onst. unfold launch_task. apply wp_bind. eapply wp_mono.
  { apply (wp_spec (onst (base X))); [apply spec_storage, spec_get_executor_ptr|done]. }
  intros [e|err|] k1 [Hk1 He]; [|by apply base_evo..]. destruct (He e eq_refl) as [HX Hid].
  apply wp_bind, wp_lift. destruct (Executors.from e) as [st|err|]; [|by apply base_evo..].
  destruct (ex_ssn_id e) as [ssn|] eqn:Hs; [|by apply base_evo].
  destruct (ex_task_id e) as [t|] eqn:Ht.
  - eapply wp_mono; [apply (wp_keeps (onst (base X)))|by intros; apply base_evo].
    + keeps_tac.
    + done.
  - apply wp_bind, wp_storage, wp_gets. simpl. destruct (_ !! ssn); [|by apply base_evo].
    destruct k1 as [cs ts n0 s0].
    apply (wp_of_onst (evo (CLaunchTask id) X) (launch_next id ssn) (mkManager cs ts n0 s0)).
    apply launch_next_evo; [|done].
    intros e' t' He' _. rewrite HX in He'. injection He' as <-. rewrite Ht. constructor.
Qed.

Lemma spec_get_task_ptr X g :
  spec (base X) (get_task_ptr g) (fun t => task_ssn_id t = gid_ssn_id g).
Proof.
  intros s Hb. split; [by apply (keeps_get_task_ptr (base X))|]. destruct Hb as [Hg Hx].
  intros t. unfold get_task_ptr, mbind, M_bind, get_session_ptr,
    gets, lift. simpl. destruct (st_sessions s !! gid_ssn_id g) as [x|] eqn:Hs; [|done]. simpl.
  destruct (ssn_tasks x !! gid_task_id g) as [t'|] eqn:Ht; [|done]. intros [= <-].
  rewrite (g_owned s Hg _ _ Hs _ _ Ht). by apply (swf_ssns s (g_wf s Hg)).
Qed.

Lemma spec_complete X st ssn t r e :
  Executors.from e = Ok st -> task_ssn_id t = ssn ->
  spec (base X) (Executors.complete_task st ssn t r e) (fun e' => ex_id e' = ex_id e /\
    (ex_state e = ExecBound /\ view_of e' = (ExecBound, ex_ssn_id e, None) \/
     ex_state e = ExecUnbinding /\ view_of e' = (ExecUnbinding, None, None))).
Proof.
  intros Hst Ht. by_state e Hst.
  - apply (spec_bind (base X) _ _ (fun _ => True)).
    + apply keeps_spec, keeps_base; [by apply good_update_task_result|by eauto with flame].
    + intros _ _. apply spec_ret. split; [done|]. left. split; [done|]. unfold view_of. simpl.
      by rewrite Heqe0.
  - apply (spec_bind (base X) _ _ (fun _ => True)).
    + apply keeps_spec, keeps_base; [by apply good_update_task_result|by eauto with flame].
    + intros _ _. apply spec_ret. split; [done|]. right. split; [done|]. unfold view_of. simpl.
      by rewrite Heqe0.
Qed.

Definition same_views X X1 : Prop := forall id, view_of <$> X !! id = view_of <$> X1 !! id.

Lemma evo_same_views op X X1 s : same_views X X1 -> evo op X1 s -> evo op X s.
Proof. intros Hv [Hg Hm]. split; [done|]. intros id. unfold moves. rewrite Hv. apply Hm. Qed.

Lemma update_attributes_views id u X k :
  onst (base X) k ->
  exists X1, same_views X X1 /\ onst (base X1) (update_executor_attributes id u k).2.
Proof.
  intros Hk. destruct k as [cs ts n s]. pose proof Hk as [Hg Hx]. simpl in Hg, Hx.
  unfold update_executor_attributes, get_executor_ptr, storage at 1, zoom, mbind, M_bind, gets, lift.
  simpl. destruct (st_executors s !! id) as [e|] eqn:He; simpl; [|by exists X].
  destruct (negb _); simpl; [by exists X|]. destruct (ex_ssn_id e) eqn:Hs; simpl; [|by exists X].
  pose proof (swf_execs s (g_wf s Hg) _ _ He) as Hid.
  set (e1 := executor_with_attributes _ e). exists (<[id := e1]> X). split.
  - intros id'. destruct (decide (id = id')) as [<-|]; [|by rewrite lookup_insert_ne].
    rewrite lookup_insert_eq, <-Hx, He. done.
  - split; simpl.
    + rewrite <-Hid. by apply (good_put_executor e1).
    + unfold execs. simpl. by rewrite Hx.
Qed.

(** The end of [complete_task]: the executor is completed and published. *)
Lemma complete_tail_evo id r r' a ssn t e X k :
  onst (base X) k -> task_ssn_id t = ssn -> X !! id = Some e ->
  ex_ssn_id e = Some ssn -> is_Some (ex_task_id e) ->
  wp (exe ← storage (get_executor_ptr id);
      state ← lift (Executors.from exe);
      exe ← storage (Executors.complete_task state ssn t r' exe);
      storage (put_executor id exe) ≫= fun _ =>
      storage (Storage.update_executor exe) ≫= fun _ =>
      notify_node exe) (fun _ k' => onst (evo (CCompleteTask id r a) X) k') k.
Proof.
  intros Hk Ht HX Hs [tid Htid]. apply wp_bind. eapply wp_mono.
  { apply (wp_spec (onst (base X))); [apply spec_storage, spec_get_executor_ptr|done]. }
  intros [e1|err|] k1 [Hk1 He1]; [|by apply base_evo..]. destruct (He1 e1 eq_refl) as [HX1 Hid].
  rewrite HX in HX1. injection HX1 as <-. clear He1. apply wp_bind, wp_lift.
  destruct (Executors.from e) as [st|err|] eqn:Hst; [|by apply base_evo..].
  apply wp_bind. eapply wp_mono.
  { apply (wp_spec (onst (base X))); [apply spec_storage, (spec_complete X st ssn t r' e Hst Ht)|done]. }
  intros [e2|err|] k2 [Hk2 He2]; [|by apply base_evo..]. destruct (He2 e2 eq_refl) as [Hid2 Hv2].
  rewrite <-Hid, <-Hid2. apply publish_evo with (e := e); [done|congruence| |by eauto with flame].
  right. simpl. unfold view_of at 1. rewrite Hs, Htid.
  destruct Hv2 as [[-> ->]|[-> ->]]; [rewrite Hs|]; constructor.
Qed.

Lemma complete_task_evo id r a X k :
  onst (base X) k -> onst (evo (CCompleteTask id r a) X) (complete_task id r a k).2.
Proof.
  intros Hk. apply wp_onst. unfold complete_task. apply wp_bind, wp_lift.
  destruct (transpose _ a) as [u|err|]; [|by apply base_evo..]. apply wp_bind. eapply wp_mono.
  { apply (wp_spec (onst (base X))); [apply spec_storage, spec_get_executor_ptr|done]. }
  intros [e|err|] k1 [Hk1 He]; [|by apply base_evo..]. destruct (He e eq_refl) as [HX Hid].
  apply wp_bind, wp_lift. destruct (ex_ssn_id e) as [ssn|] eqn:Hs; [|by apply base_evo].
  apply wp_bind, wp_lift. destruct (ex_task_id e) as [tid|] eqn:Ht; [|by apply base_evo].
  apply wp_bind. eapply wp_mono.
  { apply (wp_spec (onst (base X))); [apply spec_storage, spec_get_task_ptr|done]. }
  intros [t|err|] k2 [Hk2 Hown]; [|by apply base_evo..]. specialize (Hown t eq_refl). simpl in Hown.
  apply wp_bind. eapply wp_mono.
  { apply (wp_keeps (onst (base X))); [by eauto with flame|done]. }
  intros [x|err|] k3 Hk3; [|by apply base_evo..]. apply wp_bind.
  lazymatch goal with |- wp ?m _ _ => set (upd := m) end.
  assert (exists X1, same_views X X1 /\ onst (base X1) (upd k3).2) as (X1 & Hv & Hk4)
    by (unfold upd; destruct u; [by apply update_attributes_views|by exists X]).
  unfold wp at 1. destruct (upd k3) as [[[]|err|] k4]; simpl in Hk4;
    [|by apply (evo_same_views _ X X1), base_evo..].
  specialize (Hv id) as Hvid. rewrite HX in Hvid.
  destruct (X1 !! id) as [e1|] eqn:HX1; [|done]. injection Hvid as Hst1 Hs1 Ht1.
  eapply wp_mono; [apply (complete_tail_evo id r _ a ssn t e1 X1); try done; [congruence|]|].
  - rewrite <-Ht1, Ht. by eexists.
  - intros r' k' Hk'. by apply (evo_same_views _ X X1).
Qed.

(** ** Creation, removal and nodes *)

(** Publishing over whatever the operation has done so far. *)
Lemma publish_executor_keeps op X e e' :
  X !! ex_id e' = Some e -> moves op (ex_id e') (Some e) (Some e') ->
  keeps (evo op X) (Storage.update_executor e').
Proof.
  intros He Hm s [Hg Hmv]. split; [by apply good_update_executor|].
  destruct (st_executors s !! ex_id e') as [x|] eqn:Hx.
  - destruct (update_executor_result (st_executors s) x e' s) as [_ [Hs|(p & Hp & Hs)]];
      [by split|done|by rewrite Hs|]. rewrite Hs. intros id.
    destruct (decide (id = ex_id e')) as [->|]; [|by rewrite lookup_insert_ne].
    rewrite lookup_insert_eq, He. by eapply moves_view.
  - enough (st_executors (Storage.update_executor e' s).2 = st_executors s) as -> by done.
    unfold Storage.update_executor, mbind, M_bind, gets.
    assert (execs (st_executors s) (engine (Engine.update_executor e') s).2) as Hs1
      by (by apply (keeps_engine (execs (st_executors s)))).
    destruct (engine (Engine.update_executor e') s) as [[a|err|] s1]; simpl in *; [|done..].
    rewrite Hs1, Hx. done.
Qed.

Lemma create_executor_result node ssn X s :
  base X s ->
  let s' := (Storage.create_executor node ssn s).2 in
  good s' /\ (st_executors s' = X \/
    exists e, view_of e = (ExecVoid, None, None) /\ st_uuids s' = S (st_uuids s) /\
      st_executors s' = <[new_uuid (st_uuids s) := e]> X).
Proof.
  intros Hb. simpl. split; [by apply good_create_executor, Hb|]. destruct Hb as [_ Hx].
  enough (wp (Storage.create_executor node ssn) (fun _ s' => st_executors s' = X \/
    exists e, view_of e = (ExecVoid, None, None) /\ st_uuids s' = S (st_uuids s) /\
      st_executors s' = <[new_uuid (st_uuids s) := e]> X) s) as Hwp.
  { unfold wp in Hwp. by destruct (Storage.create_executor node ssn s). }
  unfold Storage.create_executor. apply wp_bind, wp_get_session_ptr.
  destruct (st_sessions s !! ssn) as [x|]; simpl; [|by left].
  apply wp_bind, wp_lift. destruct (ssn_resreq x) as [rr|]; simpl; [|by left].
  apply wp_bind, wp_gets, wp_bind, wp_now, wp_bind. unfold wp at 1. simpl.
  apply wp_bind, wp_engine. intros [a|err|] e' _; simpl; [|by left..].
  apply wp_bind, wp_modify, wp_ret. right. eexists. split; [|split; [|by simpl; rewrite Hx]]; done.
Qed.

Lemma create_executor_evo node ssn X k :
  onst (base X) k -> X !! new_uuid (st_uuids (cm_callbacks k)) = None ->
  onst (evo (CCreateExecutor node ssn) X) (create_executor node ssn k).2.
Proof.
  intros Hk Hnew. apply wp_onst. unfold create_executor. apply wp_bind, wp_storage.
  destruct (create_executor_result node ssn X (cm_callbacks k) Hk) as [Hg Hr].
  assert (evo (CCreateExecutor node ssn) X (Storage.create_executor node ssn (cm_callbacks k)).2) as Hev.
  { split; [done|]. intros id. destruct Hr as [->|(e & Hv & _ & ->)]; [by left|].
    destruct (decide (id = new_uuid (st_uuids (cm_callbacks k)))) as [->|];
      [|rewrite lookup_insert_ne by done; by left].
    right. rewrite lookup_insert_eq, Hnew. simpl. rewrite Hv. constructor. }
  unfold wp at 1. destruct (Storage.create_executor node ssn (cm_callbacks k)) as [[e|err|] s'];
    simpl in *; try done.
  apply (wp_keeps (onst (evo _ X))); [|done]. keeps_step; [apply keeps_attempt, onst_notify|keeps_tac].
Qed.

Lemma delete_executor_result id X s :
  base X s ->
  let s' := (Storage.delete_executor id s).2 in
  good s' /\ (st_executors s' = X \/ st_executors s' = delete id X).
Proof.
  intros Hb. simpl. split; [by apply good_delete_executor, Hb|]. destruct Hb as [_ Hx].
  unfold Storage.delete_executor, mbind, M_bind.
  assert (execs X (engine (Engine.delete_executor id) s).2) as Hs1 by (by apply (keeps_engine (execs X))).
  destruct (engine (Engine.delete_executor id) s) as [[a|err|] s1]; simpl in *; [|by left..].
  right. by rewrite Hs1.
Qed.

Lemma fail_lost_task_base X e : keeps (onst (base X)) (fail_lost_task e).
Proof.
  unfold fail_lost_task. destruct (ex_task_id e) as [tid|]; [|by eauto with flame].
  destruct (ex_ssn_id e) as [ssn|]; [|by eauto with flame].
  keeps_step; [by eauto with flame|]. eapply spec_bind_keeps; [apply spec_storage, spec_get_task_ptr|].
  intros t Ht. apply keeps_storage, keeps_base; [by apply good_update_task_state|by eauto with flame].
Qed.

Lemma spec_unregister X st e :
  Executors.from e = Ok st ->
  spec (base X) (Executors.unregister_executor st e)
    (fun _ => ex_state e = ExecBinding \/ ex_state e = ExecReleasing).
Proof.
  intros Hst. by_state e Hst.
  - eapply spec_weaken; [apply (spec_enter_unbound (base X))|]. auto.
  - eapply spec_weaken; [apply (spec_enter (base X))|]. auto.
Qed.

Lemma unregister_executor_evo id X k :
  onst (base X) k -> onst (evo (CUnregisterExecutor id) X) (unregister_executor id k).2.
Proof.
  intros Hk. apply wp_onst. unfold unregister_executor. apply wp_bind, wp_storage, wp_gets. simpl.
  pose proof Hk as [Hg Hx]. rewrite Hx. destruct (X !! id) as [e|] eqn:He; [|by apply base_evo].
  apply wp_bind. eapply wp_mono; [apply (wp_keeps (onst (base X))); [apply fail_lost_task_base|done]|].
  intros [u|err|] k1 Hk1; [|by apply base_evo..]. apply wp_bind, wp_lift.
  destruct (Executors.from e) as [st|err|] eqn:Hst; [|by apply base_evo..]. apply wp_bind. eapply wp_mono.
  { apply (wp_spec (onst (base X))); [apply spec_storage, (spec_unregister X st e Hst)|done]. }
  intros [e'|err|] k2 [Hk2 Hs]; [|by apply base_evo..]. specialize (Hs e' eq_refl).
  apply wp_bind, wp_storage. destruct (delete_executor_result id X (cm_callbacks k2) Hk2) as [Hg3 Hr].
  assert (evo (CUnregisterExecutor id) X (Storage.delete_executor id (cm_callbacks k2)).2) as Hev.
  { split; [done|]. intros j. destruct Hr as [->| ->]; [by left|].
    destruct (decide (j = id)) as [->|]; [|rewrite lookup_delete_ne by done; by left].
    right. rewrite lookup_delete_eq, He. by constructor. }
  unfold wp at 1. destruct (Storage.delete_executor id (cm_callbacks k2)) as [[[]|err|] s3];
    simpl in *; try done.
  apply (wp_keeps (onst (evo _ X))); [apply onst_notify_node|done].
Qed.

(** The state machine of nodes leaves the executors alone, but for a shutdown. *)
Lemma keeps_put_node_good name n n' s :
  good s -> st_nodes s !! name = Some n -> node_name n' = node_name n -> good (put_node name n' s).2.
Proof.
  intros Hg Hn Hnm. pose proof (swf_nodes s (g_wf s Hg) _ _ Hn) as Hk.
  assert (name = node_name n') as -> by congruence.
  apply good_frame; [apply keeps_put_node|intros; apply ssns_put_node|done].
Qed.

Lemma enter_node_keeps (P : Storage E V -> Prop) st name :
  (forall s n, P s -> st_nodes s !! name = Some n -> P (put_node name (node_with_state st n) s).2) ->
  keeps P (enter_node st name).
Proof.
  intros HP s Hs. unfold enter_node, get_node_ptr, mbind, M_bind, gets, lift. simpl.
  destruct (st_nodes s !! name) as [n|] eqn:Hn; simpl; [|done]. by apply HP.
Qed.

Lemma enter_node_evo op X st name : keeps (evo op X) (enter_node st name).
Proof.
  apply enter_node_keeps. intros s n [Hg Hm] Hn. split; [|done]. by eapply keeps_put_node_good.
Qed.

Lemma enter_node_base X st name : keeps (base X) (enter_node st name).
Proof.
  apply enter_node_keeps. intros s n [Hg Hx] Hn. split; [|done]. by eapply keeps_put_node_good.
Qed.

Lemma with_node_keeps (P : Storage E V -> Prop) name f :
  (forall n, keeps P (f (Nodes.from n))) -> keeps P (with_node name f).
Proof. intros Hf. unfold with_node. keeps_tac. Qed.

Lemma change_state_base X st name : keeps (base X) (change_state st name).
Proof.
  unfold change_state. keeps_step; [apply enter_node_base|]. apply keeps_base; by eauto with flame.
Qed.

Lemma on_connected_base X name : keeps (base X) (Nodes.on_connected name).
Proof.
  apply with_node_keeps. intros n. unfold Nodes.from.
  destruct (node_state n); simpl; eauto using change_state_base with flame.
Qed.

Lemma on_draining_base X name : keeps (base X) (Nodes.on_draining name).
Proof.
  apply with_node_keeps. intros n. unfold Nodes.from.
  destruct (node_state n); simpl; eauto using change_state_base with flame.
Qed.

Lemma update_node_base X n name : keeps (base X) (with_node name (fun st => Nodes.update_node st n name)).
Proof.
  apply with_node_keeps. intros n0. unfold Nodes.from. destruct (node_state n0); simpl; try by eauto with flame.
  intros s [Hg Hx]. unfold get_node_ptr, mbind, M_bind, gets, lift. simpl.
  destruct (st_nodes s !! name) as [n1|] eqn:Hn; simpl; [|by split]. split; [|done].
  by eapply keeps_put_node_good.
Qed.

Lemma delete_lost token X id : keeps (evo (CFireTimer token) X) (Storage.delete_executor id).
Proof.
  intros s [Hg Hm]. destruct (delete_executor_result id (st_executors s) s) as [Hg' [Hr|Hr]];
    [by split|split; [done|by rewrite Hr]|]. split; [done|]. intros j. rewrite Hr. specialize (Hm j).
  destruct (decide (j = id)) as [->|]; [|by rewrite lookup_delete_ne].
  rewrite lookup_delete_eq. destruct (X !! id); [right; constructor|by left].
Qed.

Lemma delete_executors_lost token X l : keeps (evo (CFireTimer token) X) (delete_executors l).
Proof.
  induction l as [|x l IH]; simpl; [by eauto with flame|]. keeps_step.
  { keeps_tac. apply keeps_evo; by eauto with flame. }
  keeps_step; [apply keeps_attempt, delete_lost|]. keeps_step; [done|by eauto with flame].
Qed.

Lemma on_closed_evo token X name : keeps (evo (CFireTimer token) X) (Nodes.on_closed name).
Proof.
  apply with_node_keeps. intros n. unfold Nodes.from. destruct (node_state n); simpl; try by eauto with flame.
  unfold shutdown_unknown. keeps_step; [apply enter_node_evo|]. keeps_step; [by apply keeps_gets|].
  keeps_step; [keeps_tac; apply delete_executors_lost|]. apply keeps_evo; by eauto with flame.
Qed.

(** The executors of a node the storage lists are cached ones. *)
Lemma spec_list_executors X f :
  spec (base X) (list_executors f) (fun l => forall e, e ∈ l -> X !! ex_id e = Some e).
Proof.
  intros s [Hg Hx]. split; [done|]. intros l [= <-] e He.
  assert (e ∈ hm_values (st_executors s)) as Hin.
  { destruct f; [|done]. rewrite list_elem_of_In, filter_In, <-list_elem_of_In in He. apply He. }
  apply hm_values_elem in Hin as [id Hid]. rewrite <-Hx.
  by rewrite (swf_execs s (g_wf s Hg) _ _ Hid).
Qed.

Lemma replay_evo node reported X name db :
  (forall e, e ∈ db -> X !! ex_id e = Some e) ->
  keeps (onst (evo (CRegisterNode node reported) X))
    (for_each db (replay_executor name (list_to_set (ex_id <$> reported)))).
Proof.
  intros Hdb. apply keeps_for_each. intros e He. specialize (Hdb e He). unfold replay_executor.
  case_bool_decide as Hin; simpl; [apply onst_send_to|].
  keeps_step; [|apply onst_send_to]. apply keeps_storage, (publish_executor_keeps _ X e); [done|].
  right. simpl. unfold view_of. simpl. constructor. by rewrite elem_of_list_to_set in Hin.
Qed.

Lemma register_node_evo node reported X k :
  onst (base X) k -> onst (evo (CRegisterNode node reported) X) (register_node node reported k).2.
Proof.
  intros Hk. apply wp_onst. unfold register_node. apply wp_bind. eapply wp_mono.
  { apply (wp_keeps (onst (base X))); [apply keeps_storage, keeps_gets|done]. }
  intros [ex|err|] k1 Hk1; [|by apply base_evo..]. apply wp_bind. eapply wp_mono.
  { apply (wp_spec (onst (base X))); [apply spec_storage, spec_list_executors|done]. }
  intros [db|err|] k2 [Hk2 Hdb]; [|by apply base_evo..]. specialize (Hdb db eq_refl).
  destruct (List.filter _ reported); [|by apply base_evo]. apply wp_bind. eapply wp_mono.
  { apply (wp_keeps (onst (base X))); [apply keeps_storage, keeps_base; by eauto with flame|done]. }
  intros [u|err|] k3 Hk3; [|by apply base_evo..]. apply wp_bind. eapply wp_mono.
  { apply (wp_keeps (onst (base X))); [apply onst_connect, on_connected_base|done]. }
  intros [u'|err|] k4 Hk4; [|by apply base_evo..].
  apply (wp_keeps (onst (evo _ X))); [by apply replay_evo|by apply base_evo].
Qed.
End simulation.

(** ** Runs of the controller *)

Section runs.
Context `{Env} {E V : Type} `{Engine E} `{EventManager V}.
Abbreviation K := (ConnectionManager (Storage E V)).

(** An operation, whatever it returns. *)
Definition ctl_apply (op : ctl_op) (k : K) : K :=
  match op with
  | CCreateExecutor node ssn => (create_executor node ssn k).2
  | CRegisterExecutor e => (register_executor e k).2
  | CBindSession id ssn => (bind_session id ssn k).2
  | CBindCompleted id result attrs => (bind_executor_completed id result attrs k).2
  | CUnbindExecutor id => (unbind_executor id k).2
  | CUnbindCompleted id => (unbind_executor_completed id k).2
  | CLaunchTask id => (launch_task id k).2
  | CLaunchNext id ssn => (launch_next id ssn k).2
  | CCompleteTask id result attrs => (complete_task id result attrs k).2
  | CInterruptExecutor id => (interrupt_executor id k).2
  | CReleaseExecutor id => (release_executor id k).2
  | CUnregisterExecutor id => (unregister_executor id k).2
  | CRegisterNode node reported => (register_node node reported k).2
  | CDrainNode name => (drain_node name k).2
  | CFireTimer token => (fire_timer token k).2
  | CUpdateNode node => (update_node node k).2
  | CReleaseNode name => (release_node name k).2
  | CCreateSession attr => (create_session attr k).2
  | COpenSession id attr => (open_session id attr k).2
  | CCloseSession id => (close_session id k).2
  | CSignalSession id sig => (signal_session id sig k).2
  | CSuspendSession id => (suspend_session id k).2
  | CResumeSession id => (resume_session id k).2
  | CDeleteSession id => (delete_session id k).2
  | CCreateTask ssn input options => (create_task ssn input options k).2
  | CSyncNode node reported => (sync_node node reported k).2
  | CRegisterApplication name attr => (register_application name attr k).2
  | CUnregisterApplication name => (unregister_application name k).2
  | CUpdateApplication name attr => (update_application name attr k).2
  end.

Definition ctl_run (ops : list ctl_op) (k : K) : K := foldl (fun k op => ctl_apply op k) k ops.

(** Every executor has an identifier drawn before. *)
Definition drawn (s : Storage E V) : Prop :=
  forall id, is_Some (st_executors s !! id) ->
  exists n, (n < st_uuids s)%nat /\ new_uuid n = id.

(** What the controller relies on from one operation to the next. *)
Definition ctl_wf (k : K) : Prop := good (cm_callbacks k) /\ drawn (cm_callbacks k).
End runs.

Section runs_uuid.
Context `{Env} {E V : Type} `{Engine E} `{EventManager V} (n : nat).
Abbreviation U := (onst (@uu E V n)).

Lemma uu_ctl_transition id f :
  (forall st e, Executors.from e = Ok st -> keeps (uu n) (f st e)) -> keeps U (transition id f).
Proof.
  intros Hf. unfold transition. keeps_step; [keeps_tac|].
  apply keeps_bind_lift. intros st Hst. keeps_step; [by apply keeps_storage, Hf|]. keeps_tac.
Qed.

Lemma uu_ctl_launch_next id ssn : keeps U (launch_next id ssn).
Proof.
  unfold launch_next. keeps_step.
  { apply keeps_storage. intros s Hs. destruct (_ !! ssn); [|done]. destruct (_ !! id); [|done].
    destruct (_ || _); [done|]. destruct (pop_pending_task _) as [[]]; done. }
  destruct a as [[t|]|]; [|keeps_tac..]. keeps_step; [keeps_tac|].
  apply keeps_bind_lift. intros st Hst. keeps_step; [by apply keeps_storage, (uu_states n st a)|]. keeps_tac.
Qed.

Lemma uu_ctl_attributes id u : keeps U (update_executor_attributes id u).
Proof. unfold update_executor_attributes. keeps_tac. Qed.
Hint Resolve uu_ctl_attributes uu_ctl_launch_next : flame.

Lemma uu_ctl_complete id r a : keeps U (complete_task id r a).
Proof.
  unfold complete_task. do 7 (keeps_step; [keeps_tac|]). keeps_step; [keeps_tac|].
  apply keeps_bind_lift. intros st Hst. keeps_step; [by apply keeps_storage, (uu_states n st)|]. keeps_tac.
Qed.

Lemma uu_ctl_unregister id : keeps U (unregister_executor id).
Proof.
  unfold unregister_executor. keeps_step; [keeps_tac|]. destruct a as [e|]; [|keeps_tac].
  keeps_step; [unfold fail_lost_task; keeps_tac|].
  apply keeps_bind_lift. intros st Hst. keeps_step; [by apply keeps_storage, (uu_states n st)|]. keeps_tac.
Qed.

Lemma uu_ctl_node name f :
  (forall x, keeps (uu n) (f (Nodes.from x))) -> keeps U (storage (with_node name f)).
Proof. intros Hf. by apply keeps_storage, uu_with_node. Qed.

Lemma uu_ctl_register_node node reported : keeps U (register_node node reported).
Proof.
  unfold register_node. do 2 (keeps_step; [keeps_tac|]). destruct (List.filter _ _); [|keeps_tac].
  keeps_step; [keeps_tac|]. keeps_step.
  { apply onst_connect, uu_with_node. intros x. apply (uu_node_states n x). }
  apply keeps_for_each. intros e _. unfold replay_executor. keeps_tac.
Qed.

(** One transition of the state machine of executors. *)
Ltac uu_transition :=
  unfold register_executor, bind_session_completed, unbind_executor, unbind_executor_completed,
    release_executor; keeps_step; [|by eauto with flame]; apply uu_ctl_transition; intros st x Hst;
  by apply (uu_states n st x).

Lemma uu_ctl_executors :
  (forall e, keeps U (register_executor e)) /\ (forall id ssn, keeps U (bind_session id ssn)) /\
  (forall id r a, keeps U (bind_executor_completed id r a)) /\
  (forall id, keeps U (unbind_executor id)) /\ (forall id, keeps U (unbind_executor_completed id)) /\
  (forall id, keeps U (release_executor id)).
Proof.
  split_and!; intros; [uu_transition| | |uu_transition..].
  - unfold bind_session. keeps_step; [|keeps_tac]. apply uu_ctl_transition. intros st x Hst.
    keeps_step; [keeps_tac|]. keeps_step; [keeps_tac|]. by apply (uu_states n st x).
  - unfold bind_executor_completed. keeps_step; [keeps_tac|]. keeps_step; [uu_transition|]. keeps_tac.
Qed.

(** Identifiers are only ever drawn. *)
Lemma uu_ctl_apply op k : U k -> U (ctl_apply op k).
Proof.
  destruct uu_ctl_executors as (?&?&?&?&?&?). destruct op; simpl; revert k;
    lazymatch goal with |- forall k, U k -> U (?m k).2 => change (keeps U m) end; auto.
  - unfold create_executor. keeps_step; [keeps_tac|]. keeps_step; [apply keeps_attempt, onst_notify|keeps_tac].
  - unfold launch_task. keeps_tac.
  - apply uu_ctl_launch_next.
  - apply uu_ctl_complete.
  - unfold interrupt_executor. keeps_tac.
  - apply uu_ctl_unregister.
  - apply uu_ctl_register_node.
  - unfold drain_node. keeps_step; [|keeps_tac]. apply onst_drain, uu_with_node. intros x. apply (uu_node_states n x).
  - apply onst_fire. intros name. apply uu_with_node. intros x. apply (uu_node_states n x).
  - unfold update_node. keeps_step; [|keeps_tac]. apply keeps_storage, keeps_attempt, uu_with_node.
    intros x. apply (uu_node_states n x).
  - unfold release_node. keeps_step; [|keeps_tac]. apply uu_ctl_node. intros x. apply (uu_node_states n x).
  - unfold create_session, application_enabled. keeps_tac.
  - unfold open_session, application_enabled, session_application. keeps_tac.
    apply keeps_storage. keeps_tac.
  - unfold close_session. keeps_tac.
  - unfold signal_session. keeps_tac.
  - unfold suspend_session. keeps_tac.
  - unfold resume_session. keeps_tac.
  - unfold delete_session. keeps_tac.
  - unfold create_task. keeps_tac.
  - unfold sync_node. keeps_step; [|unfold Storage.sync_node; apply keeps_storage; keeps_tac].
    apply uu_ctl_node. intros x. apply (uu_node_states n x).
  - unfold register_application. keeps_step; [keeps_tac|]. apply keeps_storage, uu_applications.
  - unfold unregister_application. keeps_step; [|keeps_tac]. apply keeps_storage, uu_applications.
  - unfold update_application. keeps_step; [keeps_tac|]. apply keeps_storage, uu_applications.
Qed.
End runs_uuid.

Section refinement.
Context `{Env} {E V : Type} `{EngineSpec E} `{EventManager V}.
Implicit Types (X : gmap string Executor) (k : ConnectionManager (Storage E V)).

(** What leaves the executors alone and keeps the invariant is a step that
    moves none of them. *)
Lemma stays_evo {A} op X (m : M (ConnectionManager (Storage E V)) A) k :
  onst (base X) k -> keeps (onst (base X)) m -> onst (evo op X) (m k).2.
Proof. intros Hk Hm. apply base_evo. by apply Hm. Qed.

Lemma keeps_base_storage {A} X (m : M (Storage E V) A) :
  keeps good m -> keeps (execs X) m -> keeps (onst (base X)) (storage m).
Proof. intros Hg Hx. by apply keeps_storage, keeps_base. Qed.
Hint Resolve keeps_base_storage : flame.

Abbreviation B X := (onst (@base E V X)).

Lemma session_ops_base X :
  (forall attr, keeps (B X) (create_session attr)) /\
  (forall id attr, keeps (B X) (open_session id attr)) /\
  (forall id, keeps (B X) (close_session id)) /\
  (forall id sig, keeps (B X) (signal_session id sig)) /\
  (forall id, keeps (B X) (suspend_session id)) /\
  (forall id, keeps (B X) (resume_session id)) /\
  (forall id, keeps (B X) (delete_session id)) /\
  (forall ssn i o, keeps (B X) (create_task ssn i o)).
Proof.
  split_and!; intros;
    unfold create_session, open_session, application_enabled, close_session, signal_session,
      suspend_session, resume_session, delete_session, create_task; keeps_tac.
  unfold session_application. apply keeps_storage. keeps_tac.
Qed.

Lemma node_ops_base X :
  (forall name, keeps (B X) (drain_node name)) /\
  (forall n, keeps (B X) (update_node n)) /\
  (forall name, keeps (B X) (release_node name)) /\
  (forall n l, keeps (B X) (sync_node n l)).
Proof.
  split_and!; intros.
  - unfold drain_node. keeps_step; [apply onst_drain, on_draining_base|by eauto with flame].
  - unfold update_node. keeps_step; [|by eauto with flame].
    by apply keeps_storage, keeps_attempt, update_node_base.
  - unfold release_node. keeps_step; [|by eauto with flame]. apply keeps_storage, with_node_keeps.
    intros x. unfold Nodes.from. destruct (node_state x); simpl; by eauto with flame.
  - unfold sync_node. keeps_step; [by apply keeps_storage, update_node_base|].
    unfold Storage.sync_node. apply keeps_storage.
    keeps_step; [apply keeps_base; by eauto with flame|by apply keeps_gets].
Qed.

Lemma application_ops_base X :
  (forall name attr, keeps (B X) (register_application name attr)) /\
  (forall name, keeps (B X) (unregister_application name)) /\
  (forall name attr, keeps (B X) (update_application name attr)).
Proof.
  destruct (good_applications (E := E) (V := V)) as (?&?&?).
  destruct (execs_applications (E := E) (V := V) X) as (?&?&?).
  split_and!; intros; unfold register_application, unregister_application, update_application; keeps_tac.
Qed.

Definition no_new (op : ctl_op) : Prop :=
  match op with CCreateExecutor _ _ => False | _ => True end.

Lemma ctl_apply_evo op k :
  good (cm_callbacks k) ->
  (no_new op \/ st_executors (cm_callbacks k) !! new_uuid (st_uuids (cm_callbacks k)) = None) ->
  onst (evo op (st_executors (cm_callbacks k))) (ctl_apply op k).
Proof.
  intros Hg Hnew. set (X := st_executors (cm_callbacks k)) in *.
  assert (onst (base X) k) as Hk by (by split).
  destruct (session_ops_base X) as (?&?&?&?&?&?&?&?). destruct (node_ops_base X) as (?&?&?&?).
  destruct (application_ops_base X) as (?&?&?).
  destruct op; simpl; try (apply stays_evo; by auto).
  - destruct Hnew as [[]|Hnew]. by apply create_executor_evo.
  - by apply register_executor_evo.
  - by apply bind_session_evo.
  - by apply bind_executor_completed_evo.
  - by apply unbind_executor_evo.
  - by apply unbind_executor_completed_evo.
  - by apply launch_task_evo.
  - apply launch_next_evo; [|done]. intros. constructor.
  - by apply complete_task_evo.
  - by apply interrupt_executor_evo, base_evo.
  - by apply release_executor_evo.
  - by apply unregister_executor_evo.
  - by apply register_node_evo.
  - apply (onst_fire (evo (CFireTimer token) X)); [by intros; apply on_closed_evo|by apply base_evo].
Qed.

(** Only a creation makes an executor. *)
Lemma no_new_lstep op id v : no_new op -> ~ lstep op id None (Some v).
Proof. intros Hn Hl. by inversion Hl; subst. Qed.

Context `{!Inj (=) (=) new_uuid}.

Lemma drawn_fresh (s : Storage E V) : drawn s -> st_executors s !! new_uuid (st_uuids s) = None.
Proof.
  intros Hd. apply eq_None_not_Some. intros (n & Hn & Heq)%Hd. apply (inj new_uuid) in Heq. lia.
Qed.

Lemma drawn_create node ssn k : ctl_wf k -> drawn (cm_callbacks (create_executor node ssn k).2).
Proof.
  intros [Hg Hd]. set (s := cm_callbacks k) in *. change (onst (@drawn _ E V) (create_executor node ssn k).2).
  destruct (create_executor_result node ssn (st_executors s) s) as [_ Hr]; [by split|].
  assert (drawn (Storage.create_executor node ssn s).2) as Hd1.
  { pose proof (uu_create_executor (st_uuids s) node ssn s (le_n _)) as Hu. unfold uu in Hu. simpl in *.
    intros id. destruct Hr as [->|(e & _ & Hn & ->)].
    - intros (n & Hn & <-)%Hd. exists n. split; [lia|done].
    - rewrite Hn. destruct (decide (id = new_uuid (st_uuids s))) as [->|Hne]; [by eexists; split; [|done]; lia|].
      rewrite lookup_insert_ne by done. intros (m0 & Hm0 & <-)%Hd. exists m0. split; [lia|done]. }
  apply wp_onst. unfold create_executor. apply wp_bind, wp_storage. fold s. unfold wp at 1.
  destruct (Storage.create_executor node ssn s) as [[e|err|] s']; simpl in *; try done.
  apply (wp_keeps (onst drawn)); [|done]. keeps_step; [apply keeps_attempt, onst_notify|by eauto with flame].
Qed.

Lemma ctl_apply_wf op k : ctl_wf k -> ctl_wf (ctl_apply op k).
Proof.
  intros Hk. pose proof Hk as [Hg Hd]. pose proof (drawn_fresh _ Hd) as Hf.
  destruct (ctl_apply_evo op k Hg (or_intror Hf)) as [Hg' Hm]. split; [done|].
  assert (no_new op -> drawn (cm_callbacks (ctl_apply op k))) as Hno.
  { intros Hno id [e He]. specialize (Hm id). rewrite He in Hm.
    assert (is_Some (st_executors (cm_callbacks k) !! id)) as (n & Hn & <-)%Hd.
    { destruct (_ !! id); [by eexists|]. by destruct Hm as [|Hm%no_new_lstep]. }
    pose proof (uu_ctl_apply (st_uuids (cm_callbacks k)) op k (le_n _)) as Hu. unfold onst, uu in Hu.
    exists n. split; [lia|done]. }
  destruct op; try (by apply Hno). by apply drawn_create.
Qed.

(** The view of an executor of the controller. *)
Definition view_in k (id : string) : option view := view_of <$> st_executors (cm_callbacks k) !! id.

Lemma ctl_apply_view op k id :
  ctl_wf k -> view_in (ctl_apply op k) id = view_in k id \/
              lstep op id (view_in k id) (view_in (ctl_apply op k) id).
Proof.
  intros [Hg Hd%drawn_fresh]. destruct (ctl_apply_evo op k Hg (or_intror Hd)) as [_ Hm].
  destruct (Hm id); [by left|by right].
Qed.

(** C26 The controller implements the life cycle of executors: from every state
    reached so far, whatever the operation and whatever it returns, each
    executor keeps its state, session and task, or it takes one of the
    transitions that the life cycle allows for that operation on that
    executor; an operation on one executor never moves another one. *)
Theorem lifecycle_refinement op k :
  ctl_wf k ->
  ctl_wf (ctl_apply op k) /\
  forall id, view_in (ctl_apply op k) id = view_in k id \/
             lstep op id (view_in k id) (view_in (ctl_apply op k) id).
Proof.
  intros Hk. split; [by apply ctl_apply_wf|]. intros id. by apply ctl_apply_view.
Qed.

(** ** What the fields of an executor say of its state *)

(** An executor serves a session exactly while it is bound or on its way, and
    never holds a task without the session the task belongs to. *)
Definition view_ok (v : view) : Prop :=
  match v with
  | (ExecVoid, s, t) | (ExecIdle, s, t) => s = None /\ t = None
  | (ExecBinding, s, t) => is_Some s /\ t = None
  | (ExecBound, s, _) => is_Some s
  | (ExecUnbinding, s, t) | (ExecReleasing, s, t) => is_Some t -> is_Some s
  | (ExecReleased, _, _) | (ExecUnknown, _, _) => False
  end.

Definition execs_ok k : Prop := forall id v, view_in k id = Some v -> view_ok v.

Lemma lstep_view_ok op id o v' :
  (forall v, o = Some v -> view_ok v) -> lstep op id o (Some v') -> view_ok v'.
Proof.
  intros Ho Hl. inversion Hl; subst; try (by split); specialize (Ho _ eq_refl); simpl in *;
    try (intuition eauto; fail); try (by intros [? ?]).
  - rename select (_ \/ _) into Hst. intros _. by destruct Hst as [-> | ->]; [destruct Ho|].
  - destruct Ho as [-> ->]. by intros [? ?].
  - destruct s; [by eauto|]. destruct t; [|by intros [? ?]]. by destruct st; try done; destruct Ho.
Qed.

Lemma ctl_apply_ok op k : ctl_wf k -> execs_ok k -> execs_ok (ctl_apply op k).
Proof.
  intros Hk Hok id v Hv. destruct (ctl_apply_view op k id Hk) as [Heq|Hl].
  - apply (Hok id). congruence.
  - rewrite Hv in Hl. eapply lstep_view_ok; [|done]. intros v0 Hv0. by apply (Hok id).
Qed.

Lemma ctl_run_wf ops k : ctl_wf k -> ctl_wf (ctl_run ops k).
Proof.
  revert k. induction ops as [|op ops IH]; intros k Hk; [done|]. by apply IH, ctl_apply_wf.
Qed.

(** In every state the controller reaches, the fields of every executor
    agree with its state: a void or idle executor has neither session nor task,
    a binding one has a session and no task, a bound one has a session, no
    executor has a task without a session, and no executor is kept in the
    states Released and Unknown. *)
Theorem executor_fields_invariant ops k :
  ctl_wf k -> execs_ok k -> execs_ok (ctl_run ops k).
Proof.
  revert k. induction ops as [|op ops IH]; intros k Hk Hok; [done|].
  apply IH; [by apply ctl_apply_wf|by apply ctl_apply_ok].
Qed.

(** C27 A running task stays with its executor: as long as an executor exists
    and holds a task, no operation gives it another task or session; only a
    [launch_task] that waited before the task was assigned can. *)
Theorem executor_task_stable op k id st s t st' s' t' :
  ctl_wf k -> execs_ok k -> (forall ssn, op <> CLaunchNext id ssn) ->
  view_in k id = Some (st, s, Some t) -> view_in (ctl_apply op k) id = Some (st', s', Some t') ->
  s' = s /\ t' = t.
Proof.
  intros Hk Hok Hop Hv Hv'. specialize (Hok id _ Hv). destruct (ctl_apply_view op k id Hk) as [Heq|Hl].
  - rewrite Hv, Hv' in Heq. by injection Heq.
  - rewrite Hv, Hv' in Hl. inversion Hl; subst; try done; try (by destruct Hok). by edestruct Hop.
Qed.
End refinement.

(** ** Examples *)

Section examples.
#[local] Existing Instance demo_env.
#[local] Existing Instance demo_chrono.

#[local] Instance demo_uuid_inj : Inj (=) (=) (@new_uuid demo_env).
Proof.
  intros m n Heq. change ("id" +:+ pretty (N.of_nat m) = "id" +:+ pretty (N.of_nat n)) in Heq.
  by apply (inj (String.app "id")), (inj pretty), (inj N.of_nat) in Heq.
Qed.

Definition demo_ctl : ConnectionManager demo_store := Connections.new demo_new.

Lemma demo_ctl_wf : ctl_wf demo_ctl.
Proof.
  split; [split; [apply demo_new_wf|]|]; simpl.
  - intros id x Hx. change ((∅ : gmap string Session) !! id = Some x) in Hx. by rewrite lookup_empty in Hx.
  - intros id [x Hx]. change ((∅ : gmap string Executor) !! id = Some x) in Hx. by rewrite lookup_empty in Hx.
Qed.

Lemma demo_ctl_ok : execs_ok demo_ctl.
Proof. intros id v. unfold view_in. intros (x & Hx & _)%fmap_Some.
  change ((∅ : gmap string Executor) !! id = Some x) in Hx. by rewrite lookup_empty in Hx. Qed.

Definition demo_reported : Executor :=
  mkExecutor "id0" "n1" (mkRR 1 1 0) ShimHost "app" None None ∅ 0 0 ExecVoid None.

(** An executor is created for a session, registers and is bound to it. *)
Definition demo_bind : list ctl_op :=
  [CRegisterApplication "app" demo_app; CCreateSession demo_attr; CCreateExecutor "n1" "s1";
   CRegisterExecutor demo_reported; CBindSession "id0" "s1"; CBindCompleted "id0" None None].

Definition demo_bound_ctl := ctl_run demo_bind demo_ctl.

Lemma demo_bound_view : view_in demo_bound_ctl "id0" = Some (ExecBound, Some "s1"%string, None).
Proof. vm_compute. reflexivity. Qed.

Lemma demo_bound_wf : ctl_wf demo_bound_ctl.
Proof. apply ctl_run_wf, demo_ctl_wf. Qed.

(** The bound executor takes a task. *)
Definition demo_running_ctl := ctl_run [CCreateTask "s1" None None; CLaunchTask "id0"] demo_bound_ctl.

Lemma demo_running_wf : ctl_wf demo_running_ctl.
Proof. apply ctl_run_wf, demo_bound_wf. Qed.

Lemma lifecycle_refinement_witness :
  view_in demo_bound_ctl "id0" = Some (ExecBound, Some "s1"%string, None) /\
  view_in (ctl_apply (CUnbindExecutor "id0") demo_bound_ctl) "id0" =
    Some (ExecUnbinding, Some "s1"%string, None) /\
  ctl_wf (ctl_apply (CUnbindExecutor "id0") demo_bound_ctl).
Proof.
  split; [apply demo_bound_view|]. split; [vm_compute; reflexivity|].
  exact (proj1 (lifecycle_refinement (CUnbindExecutor "id0") demo_bound_ctl demo_bound_wf)).
Defined.

Lemma executor_fields_invariant_witness :
  execs_ok (ctl_run (demo_bind ++ [CUnbindExecutor "id0"; CUnbindCompleted "id0"]) demo_ctl) /\
  view_in (ctl_run (demo_bind ++ [CUnbindExecutor "id0"; CUnbindCompleted "id0"]) demo_ctl) "id0" =
    Some (ExecIdle, None, None).
Proof.
  split; [|vm_compute; reflexivity].
  exact (executor_fields_invariant (demo_bind ++ [CUnbindExecutor "id0"; CUnbindCompleted "id0"])
    demo_ctl demo_ctl_wf demo_ctl_ok).
Defined.

Lemma demo_run_ok ops : execs_ok (ctl_run ops demo_ctl).
Proof.
  assert (forall k, ctl_wf k -> execs_ok k -> execs_ok (ctl_run ops k)) as Hr;
    [|apply Hr; [apply demo_ctl_wf|apply demo_ctl_ok]].
  induction ops as [|op ops IH]; intros k Hk Hok; [done|].
  apply IH; [by apply ctl_apply_wf|by apply ctl_apply_ok].
Qed.

Lemma ctl_run_app ops ops' (k : ConnectionManager demo_store) :
  ctl_run (ops ++ ops') k = ctl_run ops' (ctl_run ops k).
Proof. apply foldl_app. Qed.

Lemma demo_running_ok : execs_ok demo_running_ctl.
Proof.
  unfold demo_running_ctl, demo_bound_ctl. rewrite <-ctl_run_app. apply demo_run_ok.
Qed.

Lemma demo_running_view :
  view_in demo_running_ctl "id0" = Some (ExecBound, Some "s1"%string, Some 1).
Proof. vm_compute. reflexivity. Qed.

Lemma demo_unbinding_view :
  view_in (ctl_apply (CUnbindExecutor "id0") demo_running_ctl) "id0" =
    Some (ExecUnbinding, Some "s1"%string, Some 1).
Proof. vm_compute. reflexivity. Qed.

Lemma executor_task_stable_witness :
  Some "s1"%string = Some "s1"%string /\ 1 = 1.
Proof.
  exact (executor_task_stable (CUnbindExecutor "id0") demo_running_ctl "id0"
    ExecBound (Some "s1"%string) 1 ExecUnbinding (Some "s1"%string) 1
    demo_running_wf demo_running_ok (fun ssn Heq => ltac:(discriminate Heq))
    demo_running_view demo_unbinding_view).
Defined.

(** Two calls of [launch_task] that wait on one executor, two tasks, and the
    rest of both calls. *)
Definition demo_two_launches : list ctl_op :=
  [CLaunchTask "id0"; CLaunchTask "id0"; CCreateTask "s1" None None; CCreateTask "s1" None None;
   CLaunchNext "id0" "s1"; CLaunchNext "id0" "s1"].

Definition demo_task_state (k : ConnectionManager demo_store) (t : Z) : option TaskState :=
  x ← st_sessions (cm_callbacks k) !! "s1"; task_state <$> ssn_tasks x !! t.

(** Two [launch_task] calls that wait on the same executor each take a task
    when it arrives, since the call does not look at the executor's task again
    after the wait: the second assignment overwrites the first, and the first
    task stays Running although no executor holds it. *)
Theorem waiting_launches_strand_task :
  let k := ctl_run demo_two_launches demo_bound_ctl in
  fst (launch_task "id0" demo_bound_ctl) = Ok Waiting /\
  view_in k "id0" = Some (ExecBound, Some "s1"%string, Some 2) /\
  demo_task_state k 1 = Some TaskRunning /\ demo_task_state k 2 = Some TaskRunning /\
  dom (st_executors (cm_callbacks k)) = {["id0"%string]}.
Proof. split_and!; vm_compute; reflexivity. Qed.

(** [launch_task] of a bound executor in the two steps that the write to the
    engine separates: the task is made Running, and the executor, whatever it is
    by then, is given the task and the session. *)
Definition launch_started (id ssn : string) : M (ConnectionManager demo_store) (option Task) :=
  r ← wait_for_task ssn id;
  match r with
  | Ready (Some task) =>
      exe ← storage (get_executor_ptr id);
      storage (Storage.update_task_state ssn task TaskRunning
        (Some ("Running task on host <" +:+ ex_node exe +:+ ">."))) ≫= fun _ =>
      mret (Some task)
  | _ => mret None
  end.

Definition launch_recorded (id : string) (task : Task) : M (ConnectionManager demo_store) unit :=
  exe ← storage (get_executor_ptr id);
  let exe := executor_with_binding (Some (task_id task)) (Some (task_ssn_id task)) exe in
  storage (put_executor id exe) ≫= fun _ =>
  storage (Storage.update_executor exe).

(** The two steps with [ops] between them. *)
Definition launch_around (ops : list ctl_op) (k : ConnectionManager demo_store)
    : ConnectionManager demo_store :=
  match launch_started "id0" "s1" k with
  | (Ok (Some task), k) => (launch_recorded "id0" task (ctl_run ops k)).2
  | (_, k) => k
  end.

Definition demo_task_ctl := ctl_run [CCreateTask "s1" None None] demo_bound_ctl.

(** An executor that is unbound while one of its launches waits for the engine
    ends up Idle with a session and a task, and the task Running: outside the
    one-step reading of [launch_task] the fields of an executor do not always
    agree with its state.  Without anything in between the two steps are
    [launch_task]. *)
Theorem unbind_during_launch :
  launch_around [] demo_task_ctl = ctl_apply (CLaunchTask "id0") demo_task_ctl /\
  let k := launch_around [CUnbindExecutor "id0"; CUnbindCompleted "id0"] demo_task_ctl in
  view_in k "id0" = Some (ExecIdle, Some "s1"%string, Some 1) /\
  demo_task_state k 1 = Some TaskRunning.
Proof. split; [vm_compute; reflexivity|]. split; vm_compute; reflexivity. Qed.
End examples.
