(* ===== verification/Codes.v ===== *)
(** * The numbers of the states on the wire and on disk

    [as i32] of the enumerations of [common/src/apis/types.rs], and the
    conversions back ([common/src/apis/from_rpc.rs]), which go through the
    enumerations of [rpc/protos/types.proto]. *)
From S2P Require Import Prelude Types.
Local Open Scope Z_scope.

Definition i32_of_application_state (s : ApplicationState) : Z :=
  match s with AppEnabled => 0 | AppDisabled => 1 end.

Definition application_state_try_from (s : Z) : result ApplicationState :=
  match s with 0 => Ok AppEnabled | 1 => Ok AppDisabled | _ => Err EInvalidState end.

Definition i32_of_session_state (s : SessionState) : Z :=
  match s with SsnOpen => 0 | SsnClosed => 1 | SsnSuspending => 2 | SsnSuspended => 3 end.

Definition session_state_try_from (s : Z) : result SessionState :=
  match s with
  | 0 => Ok SsnOpen | 1 => Ok SsnClosed | 2 => Ok SsnSuspending | 3 => Ok SsnSuspended
  | _ => Err EInvalidState
  end.

Definition i32_of_task_state (s : TaskState) : Z :=
  match s with
  | TaskPending => 0 | TaskRunning => 1 | TaskSucceed => 2 | TaskFailed => 3 | TaskCancelled => 4
  end.

Definition task_state_try_from (s : Z) : result TaskState :=
  match s with
  | 0 => Ok TaskPending | 1 => Ok TaskRunning | 2 => Ok TaskSucceed | 3 => Ok TaskFailed
  | 4 => Ok TaskCancelled | _ => Err EInvalidState
  end.

Definition i32_of_shim (s : Shim) : Z := match s with ShimHost => 0 | ShimWasm => 1 | ShimCri => 3 end.

Definition shim_try_from (v : Z) : result Shim :=
  match v with 0 => Ok ShimHost | 1 => Ok ShimWasm | 3 => Ok ShimCri | _ => Err EInvalidState end.

(** [Shim::try_from(v).unwrap_or_default()]. *)
Definition shim_or_default (v : Z) : Shim :=
  match shim_try_from v with Ok s => s | _ => ShimHost end.

Definition i32_of_executor_state (s : ExecutorState) : Z :=
  match s with
  | ExecUnknown => 0 | ExecVoid => 1 | ExecIdle => 2 | ExecBinding => 3 | ExecBound => 4
  | ExecUnbinding => 5 | ExecReleasing => 6 | ExecReleased => 7
  end.

Definition executor_state_from (s : Z) : ExecutorState :=
  match s with
  | 1 => ExecVoid | 2 => ExecIdle | 3 => ExecBinding | 4 => ExecBound | 5 => ExecUnbinding
  | 6 => ExecReleasing | 7 => ExecReleased | _ => ExecUnknown
  end.

Definition i32_of_node_state (s : NodeState) : Z :=
  match s with NodeUnknown => 0 | NodeReady => 1 | NodeNotReady => 2 end.

Definition node_state_from (s : Z) : NodeState :=
  match s with 0 => NodeUnknown | 1 => NodeReady | 2 => NodeNotReady | _ => NodeUnknown end.

(** ** Round trips *)

Lemma application_state_code s : application_state_try_from (i32_of_application_state s) = Ok s.
Proof. by destruct s. Qed.
Lemma session_state_code s : session_state_try_from (i32_of_session_state s) = Ok s.
Proof. by destruct s. Qed.
Lemma task_state_code_inv s : task_state_try_from (i32_of_task_state s) = Ok s.
Proof. by destruct s. Qed.
Lemma shim_code s : shim_try_from (i32_of_shim s) = Ok s.
Proof. by destruct s. Qed.
Lemma executor_state_code s : executor_state_from (i32_of_executor_state s) = s.
Proof. by destruct s. Qed.
Lemma node_state_code s : node_state_from (i32_of_node_state s) = s.
Proof. by destruct s. Qed.

(** A number that is accepted is the number of its state. *)
Lemma session_state_try_from_inv n s : session_state_try_from n = Ok s -> n = i32_of_session_state s.
Proof. destruct n as [|[[|[]|]|[]|]|]; intros [= <-]; done. Qed.
Lemma task_state_try_from_inv n s : task_state_try_from n = Ok s -> n = i32_of_task_state s.
Proof. destruct n as [|[[|[]|]|[[]|[]|]|]|]; intros [= <-]; done. Qed.

Lemma i32_of_session_state_inj s s' : i32_of_session_state s = i32_of_session_state s' -> s = s'.
Proof. by destruct s, s'. Qed.
Lemma i32_of_task_state_range s : 0 <= i32_of_task_state s <= 4.
Proof. destruct s; simpl; lia. Qed.
