(* ===== verification/FsDisk.v ===== *)
(** * The file system under the storage engine

    The calls of [std::fs] the filesystem engine makes, on a disk of files and
    directories.  Any call may fail: which ones do, and how much of a failed
    write or removal took effect, is a parameter, so what is proved of the
    engine holds for every pattern of I/O errors. *)
From Stdlib Require Import Ascii.
From S2P Require Import Prelude.
Local Open Scope Z_scope.

Abbreviation bytes := (list ascii).
Abbreviation path := (list string).

(** What the engine distinguishes of a [std::io::Error]. *)
Inductive IoError := IoNotFound | IoOther.

Inductive io (A : Type) := IoOk (a : A) | IoErr (e : IoError).
Arguments IoOk {A} _.
Arguments IoErr {A} _.

(** [io_fault n] is [Some k] if the [n]-th call fails; a write or the creation
    of directories then took effect up to [k].  [io_keeps n p] says that the
    [n]-th call, a removal that failed, left [p] behind.  [dir_order] is the
    order a directory is listed in. *)
Class Disk := {
  io_fault : nat -> option nat;
  io_keeps : nat -> path -> bool;
  dir_order : gset string -> list string;
  dir_order_perm : forall names, dir_order names ≡ₚ elements names
}.

Record Fs := mkFs { fs_files : gmap path bytes; fs_dirs : gset path; fs_calls : nat }.

Definition with_files (m : gmap path bytes) (fs : Fs) : Fs := mkFs m (fs_dirs fs) (fs_calls fs).
Definition with_dirs (d : gset path) (fs : Fs) : Fs := mkFs (fs_files fs) d (fs_calls fs).

(** A file offset is a signed 64-bit number. *)
Definition max_file_len : Z := 2 ^ 63 - 1.
Definition len (c : bytes) : Z := Z.of_nat (length c).

Definition parent (p : path) : path := take (length p - 1) p.

(** The directories [create_dir_all] makes, outermost first. *)
Definition ancestors (p : path) : list path := (fun n => take n p) <$> seq 1 (length p).

Definition under (dir p : path) : bool := bool_decide (dir `prefix_of` p).

(** The name of the entry of [dir] that [p] is or lies in. *)
Definition child_of (dir p : path) : option string :=
  if under dir p then drop (length dir) p !! 0%nat else None.

Definition children (dir : path) (fs : Fs) : gset string :=
  list_to_set (omap (child_of dir) (elements (fs_dirs fs) ++ (map_to_list (fs_files fs)).*1)).

(** The bytes of a file after [data] is written at [offset]; a gap is zeros. *)
Definition overlay (offset : nat) (data c : bytes) : bytes :=
  take offset (c ++ replicate (offset - length c) Ascii.zero) ++ data ++ drop (offset + length data) c.

Definition remove_under (dir : path) (keep : path -> bool) (fs : Fs) : Fs :=
  mkFs (filter (fun pc : path * bytes => negb (under dir pc.1) || keep pc.1 = true) (fs_files fs))
    (filter (fun p => negb (under dir p) || keep p = true) (fs_dirs fs)) (fs_calls fs).

Section calls.
Context `{Disk}.

(** One call: [broken] is its effect if it fails. *)
Definition call {A} (broken : nat -> nat -> Fs -> Fs) (ok : Fs -> io A * Fs) : M Fs (io A) := fun fs =>
  let n := fs_calls fs in
  let fs := mkFs (fs_files fs) (fs_dirs fs) (S n) in
  match io_fault n with
  | Some k => (Ok (IoErr IoOther), broken n k fs)
  | None => let '(r, fs) := ok fs in (Ok r, fs)
  end.

Definition intact (n k : nat) (fs : Fs) : Fs := fs.

(** [fs::read], [fs::read_to_string]. *)
Definition read (p : path) : M Fs (io bytes) :=
  call intact (fun fs =>
    (match fs_files fs !! p with Some c => IoOk c | None => IoErr IoNotFound end, fs)).

(** [fs::write]: the file is created or truncated, then written. *)
Definition write (p : path) (data : bytes) : M Fs (io unit) :=
  call (fun _ k fs =>
    match k with
    | O => fs
    | S k =>
        if bool_decide (parent p ∈ fs_dirs fs /\ len data <= max_file_len)
        then with_files (<[p := take k data]> (fs_files fs)) fs else fs
    end)
  (fun fs =>
    if negb (bool_decide (parent p ∈ fs_dirs fs)) then (IoErr IoNotFound, fs)
    else if max_file_len <? len data then (IoErr IoOther, fs)
    else (IoOk tt, with_files (<[p := data]> (fs_files fs)) fs)).

Definition rename (src dst : path) : M Fs (io unit) :=
  call intact (fun fs =>
    match fs_files fs !! src with
    | Some c => (IoOk tt, with_files (<[dst := c]> (delete src (fs_files fs))) fs)
    | None => (IoErr IoNotFound, fs)
    end).

Definition create_dir_all (p : path) : M Fs (io unit) :=
  call (fun _ k fs => with_dirs (list_to_set (take k (ancestors p)) ∪ fs_dirs fs) fs)
    (fun fs => (IoOk tt, with_dirs (list_to_set (ancestors p) ∪ fs_dirs fs) fs)).

Definition remove_dir_all (p : path) : M Fs (io unit) :=
  call (fun n _ fs => remove_under p (io_keeps n) fs)
    (fun fs =>
      if bool_decide (p ∈ fs_dirs fs) then (IoOk tt, remove_under p (fun _ => false) fs)
      else (IoErr IoNotFound, fs)).

Definition read_dir (p : path) : M Fs (io (list string)) :=
  call intact (fun fs =>
    (if bool_decide (p ∈ fs_dirs fs) then IoOk (dir_order (children p fs)) else IoErr IoNotFound, fs)).

(** [OpenOptions::open] without truncation. *)
Definition open (p : path) (create : bool) : M Fs (io unit) :=
  call intact (fun fs =>
    match fs_files fs !! p with
    | Some _ => (IoOk tt, fs)
    | None =>
        if create && bool_decide (parent p ∈ fs_dirs fs)
        then (IoOk tt, with_files (<[p := []]> (fs_files fs)) fs)
        else (IoErr IoNotFound, fs)
    end).

(** [metadata().len()]. *)
Definition file_len (p : path) : M Fs (io Z) :=
  call intact (fun fs =>
    (match fs_files fs !! p with Some c => IoOk (len c) | None => IoErr IoNotFound end, fs)).

(** [set_len] to a shorter length. *)
Definition set_len (p : path) (n : Z) : M Fs (io unit) :=
  call intact (fun fs =>
    match fs_files fs !! p with
    | Some c => (IoOk tt, with_files (<[p := take (Z.to_nat n) c]> (fs_files fs)) fs)
    | None => (IoErr IoOther, fs)
    end).

Definition read_exact_at (p : path) (n offset : Z) : M Fs (io bytes) :=
  call intact (fun fs =>
    (match fs_files fs !! p with
     | Some c =>
         if offset + n <=? len c then IoOk (take (Z.to_nat n) (drop (Z.to_nat offset) c)) else IoErr IoOther
     | None => IoErr IoOther
     end, fs)).

Definition write_all_at (p : path) (data : bytes) (offset : Z) : M Fs (io unit) :=
  let put data fs :=
    match fs_files fs !! p with
    | Some c => with_files (<[p := overlay (Z.to_nat offset) data c]> (fs_files fs)) fs
    | None => fs
    end in
  call (fun _ k fs => if max_file_len <? offset + len data then fs else put (take k data) fs)
    (fun fs =>
      match fs_files fs !! p with
      | None => (IoErr IoOther, fs)
      | Some _ =>
          if max_file_len <? offset + len data then (IoErr IoOther, fs) else (IoOk tt, put data fs)
      end).
End calls.

(** ** Lemmas *)

Lemma overlay_front offset (c : bytes) :
  length (take offset (c ++ replicate (offset - length c) Ascii.zero)) = offset.
Proof. rewrite length_take, length_app, length_replicate. lia. Qed.

Lemma overlay_length offset data c :
  length (overlay offset data c) = Nat.max (length c) (offset + length data).
Proof. unfold overlay. rewrite !length_app, overlay_front, length_drop. lia. Qed.

(** What lies before and after the data stays. *)
Lemma overlay_before offset data c n : (n <= offset)%nat -> (n <= length c)%nat ->
  take n (overlay offset data c) = take n c.
Proof.
  intros. unfold overlay. rewrite take_app_le by (rewrite overlay_front; lia).
  rewrite take_take, take_app_le by lia. f_equal. lia.
Qed.

Lemma overlay_at offset data c : take (length data) (drop offset (overlay offset data c)) = data.
Proof. unfold overlay. rewrite drop_app_length' by (by rewrite overlay_front). by rewrite take_app_length. Qed.

Lemma overlay_after offset data c n : (offset + length data <= n)%nat ->
  drop n (overlay offset data c) = drop n c.
Proof.
  intros. unfold overlay. rewrite drop_app_ge by (rewrite overlay_front; lia).
  rewrite overlay_front, drop_app_ge, drop_drop by lia. f_equal. lia.
Qed.

(** Data written at or after the end only extends the file. *)
Lemma overlay_prefix offset data c : (length c <= offset)%nat -> c `prefix_of` overlay offset data c.
Proof.
  intros. exists (drop (length c) (overlay offset data c)).
  rewrite <-(take_drop (length c) (overlay offset data c)) at 1. f_equal.
  by rewrite overlay_before, firstn_all by lia.
Qed.

Lemma len_app (b b' : bytes) : len (b ++ b') = len b + len b'.
Proof. unfold len. rewrite length_app. lia. Qed.

Lemma len_pos (b : bytes) : 0 <= len b.
Proof. unfold len. lia. Qed.

(** Writing at the end of a file extends it. *)
Lemma overlay_end data c : overlay (length c) data c = c ++ data.
Proof.
  unfold overlay. rewrite Nat.sub_diag, app_nil_r, firstn_all. by rewrite drop_ge, app_nil_r by lia.
Qed.
