(* ===== verification/FsRecord.v ===== *)
(** * The records of the filesystem engine ([engine/filesystem/types.rs])

    Task records are fixed-size [postcard] encodings guarded by a CRC32, the
    other entities are JSON files.  [postcard], [serde_json], [crc32fast] and
    chrono are parameters with the laws the engine relies on; [LeCodec] is a
    concrete instance of the task encoding. *)
From Stdlib Require Import Ascii.
From S2P Require Import Prelude Types Engine Codes FsDisk.
Local Open Scope Z_scope.

Definition is_u8 (z : Z) : Prop := 0 <= z < 2 ^ 8.

Record TaskMetadata := mkTaskMeta {
  tm_id : Z;
  tm_version : Z;
  tm_checksum : Z;
  tm_state : Z;
  tm_creation_time : Z;
  tm_completion_time : Z;
  tm_input_offset : Z;
  tm_input_len : Z;
  tm_output_offset : Z;
  tm_output_len : Z;
  tm_affinity_offset : Z;
  tm_affinity_len : Z
}.

(** [TaskMetadata::default()]. *)
Definition default_task_metadata : TaskMetadata := mkTaskMeta 0 0 0 0 0 0 0 0 0 0 0 0.

(** The fields are values of their machine types. *)
Record meta_ok (m : TaskMetadata) : Prop := {
  mo_id : is_u64 (tm_id m);
  mo_version : is_u32 (tm_version m);
  mo_checksum : is_u32 (tm_checksum m);
  mo_state : is_u8 (tm_state m);
  mo_creation : is_i64 (tm_creation_time m);
  mo_completion : is_i64 (tm_completion_time m);
  mo_input_offset : is_u64 (tm_input_offset m);
  mo_input_len : is_u64 (tm_input_len m);
  mo_output_offset : is_u64 (tm_output_offset m);
  mo_output_len : is_u64 (tm_output_len m);
  mo_affinity_offset : is_u64 (tm_affinity_offset m);
  mo_affinity_len : is_u64 (tm_affinity_len m)
}.

Record ApplicationMetadata := mkAppMeta {
  am_name : string;
  am_version : Z;
  am_state : Z;
  am_creation_time : Z;
  am_shim : Z;
  am_image : option string;
  am_description : option string;
  am_labels : list string;
  am_command : option string;
  am_arguments : list string;
  am_environments : gmap string string;
  am_working_directory : option string;
  am_max_instances : Z;
  am_delay_release_seconds : Z;
  am_schema : option ApplicationSchema;
  am_url : option string;
  am_installer : option string
}.

Record NodeMetadata := mkNodeMeta {
  nm_name : string;
  nm_state : Z;
  nm_capacity_cpu : Z;
  nm_capacity_memory : Z;
  nm_capacity_gpu : Z;
  nm_allocatable_cpu : Z;
  nm_allocatable_memory : Z;
  nm_allocatable_gpu : Z;
  nm_info_arch : string;
  nm_info_os : string;
  nm_creation_time : Z;
  nm_last_heartbeat : Z
}.

Record ExecutorMetadata := mkExecMeta {
  em_id : string;
  em_node : string;
  em_application : string;
  em_resreq_cpu : Z;
  em_resreq_memory : Z;
  em_resreq_gpu : Z;
  em_shim : Z;
  em_task_id : option Z;
  em_ssn_id : option string;
  em_creation_time : Z;
  em_state : Z
}.

Record SessionMetadata := mkSsnMeta {
  sm_id : string;
  sm_application : string;
  sm_version : Z;
  sm_state : Z;
  sm_creation_time : Z;
  sm_completion_time : option Z;
  sm_min_instances : Z;
  sm_max_instances : option Z;
  sm_batch_size : Z;
  sm_priority : Z;
  sm_common_data_len : Z;
  sm_tokens : gmap string string;
  sm_resreq_cpu : option Z;
  sm_resreq_memory : option Z;
  sm_resreq_gpu : option Z
}.

(** ** Bytes *)

Definition byte_of_Z (z : Z) : ascii := ascii_of_N (Z.to_N (z mod 2 ^ 8)).
Definition Z_of_byte (c : ascii) : Z := Z.of_N (N_of_ascii c).

(** [to_le_bytes] of an [n]-byte integer. *)
Definition le_bytes (n : Z) (z : Z) : bytes := byte_of_Z <$> Z_to_little_endian n 8 z.
Definition le_value (b : bytes) : Z := little_endian_to_Z 8 (Z_of_byte <$> b).

Definition bytes_of (s : string) : bytes := String.list_ascii_of_string s.
Definition string_of (b : bytes) : string := String.string_of_list_ascii b.

(** ** What other crates provide *)

(** [postcard::to_allocvec] and [postcard::take_from_bytes], of task records and
    of vectors of byte strings; [None] is an error. *)
Class Postcard := {
  to_allocvec : TaskMetadata -> option bytes;
  take_from_bytes : bytes -> option (TaskMetadata * bytes);
  keys_to_allocvec : list string -> option bytes;
  keys_take_from_bytes : bytes -> option (list string * bytes)
}.

(** [serde_json::to_string_pretty] and [serde_json::from_str]. *)
Class Json (A : Type) := {
  to_string_pretty : A -> option bytes;
  from_str : bytes -> option A
}.

(** [crc32fast]: the checksum of the bytes hashed so far; chrono's seconds. *)
Class Crates := {
  postcard :: Postcard;
  json_session :: Json SessionMetadata;
  json_application :: Json ApplicationMetadata;
  json_node :: Json NodeMetadata;
  json_executor :: Json ExecutorMetadata;
  crc32 : bytes -> Z;
  timestamp : Z -> Z;
  from_timestamp : Z -> option Z;
  num_seconds : Z -> Z;
  duration_seconds : Z -> Z;
  fs_utc_now : nat -> Z
}.

(** [task_record_size]. *)
Definition task_record_size `{Crates} : Z :=
  match to_allocvec default_task_metadata with Some b => len b | None => 0 end.

(** A struct is its fields in order, a [fixint::le] field its little-endian
    bytes; JSON and [postcard] read back what they wrote. *)
Class PostcardSpec `{Postcard} : Prop := {
  to_allocvec_total : forall m, meta_ok m -> is_Some (to_allocvec m);
  take_to_allocvec : forall m b rest, meta_ok m -> to_allocvec m = Some b ->
    take_from_bytes (b ++ rest) = Some (m, rest);
  to_allocvec_length : forall m m' b b', meta_ok m -> meta_ok m' ->
    to_allocvec m = Some b -> to_allocvec m' = Some b' -> length b = length b';
  to_allocvec_id : forall m b, meta_ok m -> to_allocvec m = Some b -> exists rest,
    b = le_bytes 8 (tm_id m) ++ rest;
  take_from_bytes_id : forall b m rest, take_from_bytes b = Some (m, rest) ->
    tm_id m = le_value (take 8 b);
  take_from_bytes_ok : forall b m rest, take_from_bytes b = Some (m, rest) -> meta_ok m;
  keys_to_allocvec_total : forall l, is_Some (keys_to_allocvec l);
  keys_take_to_allocvec : forall l b rest, keys_to_allocvec l = Some b ->
    keys_take_from_bytes (b ++ rest) = Some (l, rest);
  keys_to_allocvec_nonempty : forall l b, keys_to_allocvec l = Some b -> b <> []
}.

Class JsonSpec (A : Type) `{Json A} : Prop := {
  to_string_pretty_total : forall a, is_Some (to_string_pretty a);
  from_to_string : forall a b, to_string_pretty a = Some b -> from_str b = Some a
}.

Class CratesSpec `{Crates} : Prop := {
  postcard_spec :: PostcardSpec;
  json_session_spec :: JsonSpec SessionMetadata;
  json_application_spec :: JsonSpec ApplicationMetadata;
  json_node_spec :: JsonSpec NodeMetadata;
  json_executor_spec :: JsonSpec ExecutorMetadata;
  crc32_range : forall b, is_u32 (crc32 b);
  timestamp_range : forall t, is_i64 (timestamp t);
  from_timestamp_timestamp : forall t, is_Some (from_timestamp (timestamp t));
  timestamp_from_timestamp : forall n t, from_timestamp n = Some t -> timestamp t = n
}.

(** ** Conversions *)

(** [calculate_checksum]. *)
Definition calculate_checksum `{Crates} (m : TaskMetadata) : Z :=
  crc32 (le_bytes 8 (tm_id m) ++ le_bytes 4 (tm_version m) ++ [byte_of_Z (tm_state m)] ++
         le_bytes 8 (tm_creation_time m) ++ le_bytes 8 (tm_completion_time m) ++
         le_bytes 8 (tm_input_offset m) ++ le_bytes 8 (tm_input_len m) ++
         le_bytes 8 (tm_output_offset m) ++ le_bytes 8 (tm_output_len m)).

Section conversions.
Context `{Crates}.

(** [NodeMetadata::from_node] with the clock reading of the heartbeat. *)
Definition from_node (node : Node) (creation_time now : Z) : NodeMetadata :=
  mkNodeMeta (node_name node) (i32_of_node_state (node_state node))
    (rr_cpu (node_capacity node)) (rr_memory (node_capacity node)) (rr_gpu (node_capacity node))
    (rr_cpu (node_allocatable node)) (rr_memory (node_allocatable node))
    (rr_gpu (node_allocatable node))
    (pf_arch (node_info node)) (pf_os (node_info node)) creation_time (timestamp now).

Definition from_executor (e : Executor) : ExecutorMetadata :=
  mkExecMeta (ex_id e) (ex_node e) (ex_application e)
    (rr_cpu (ex_resreq e)) (rr_memory (ex_resreq e)) (rr_gpu (ex_resreq e))
    (i32_of_shim (ex_shim e)) (ex_task_id e) (ex_ssn_id e)
    (timestamp (ex_creation_time e)) (i32_of_executor_state (ex_state e)).

Definition node_from_metadata (m : NodeMetadata) : Node :=
  mkNode (nm_name m)
    (mkRR (nm_capacity_cpu m) (nm_capacity_memory m) (nm_capacity_gpu m))
    (mkRR (nm_allocatable_cpu m) (nm_allocatable_memory m) (nm_allocatable_gpu m))
    (mkPlatform (nm_info_arch m) (nm_info_os m)) (node_state_from (nm_state m)) [].

(** [DateTime::default()] is the epoch. *)
Definition executor_from_metadata (m : ExecutorMetadata) (now : Z) : Executor :=
  mkExecutor (em_id m) (em_node m)
    (mkRR (em_resreq_cpu m) (em_resreq_memory m) (em_resreq_gpu m))
    (shim_or_default (em_shim m)) (em_application m) (em_task_id m) (em_ssn_id m) ∅
    (default 0 (from_timestamp (em_creation_time m))) now (executor_state_from (em_state m)) None.

Definition application_from_metadata (m : ApplicationMetadata) : result Application :=
  state ← application_state_try_from (am_state m);
  creation_time ← ok_or (from_timestamp (am_creation_time m)) EStorage;
  Ok (mkApp (am_name m) (am_version m) state creation_time (shim_or_default (am_shim m))
        (am_image m) (am_description m) (am_labels m) (am_command m) (am_arguments m)
        (am_environments m) (am_working_directory m) (am_max_instances m)
        (duration_seconds (am_delay_release_seconds m)) (am_schema m) (am_url m) (am_installer m)).

(** The record [register_application] and [update_application] write. *)
Definition application_metadata (name : string) (version state creation_time : Z)
    (attr : ApplicationAttributes) : ApplicationMetadata :=
  mkAppMeta name version state creation_time (i32_of_shim (aa_shim attr)) (aa_image attr)
    (aa_description attr) (aa_labels attr) (aa_command attr) (aa_arguments attr)
    (aa_environments attr) (aa_working_directory attr) (aa_max_instances attr)
    (num_seconds (aa_delay_release attr)) (aa_schema attr) (aa_url attr) (aa_installer attr).

(** [task_with_data]. *)
Definition task_with_data (session_id : string) (m : TaskMetadata)
    (input output : option string) (affinity : gset string) : result Task :=
  state ← task_state_try_from (tm_state m);
  creation_time ← ok_or (from_timestamp (tm_creation_time m)) EStorage;
  let completion_time := if 0 <? tm_completion_time m then from_timestamp (tm_completion_time m) else None in
  Ok (mkTask (wrap_i64 (tm_id m)) session_id (tm_version m) input output affinity creation_time
        completion_time [] state).

Definition resreq_from (cpu memory gpu : option Z) : option ResourceRequirement :=
  match cpu, memory, gpu with
  | Some cpu, Some memory, Some gpu => Some (mkRR cpu memory gpu)
  | _, _, _ => None
  end.
End conversions.

(** ** Little-endian integers *)

Lemma byte_of_Z_of_byte c : byte_of_Z (Z_of_byte c) = c.
Proof.
  unfold byte_of_Z, Z_of_byte. pose proof (N_ascii_bounded c).
  rewrite Z.mod_small by lia. by rewrite N2Z.id, ascii_N_embedding.
Qed.

Lemma Z_of_byte_of_Z z : 0 <= z < 2 ^ 8 -> Z_of_byte (byte_of_Z z) = z.
Proof.
  intros. unfold byte_of_Z, Z_of_byte. rewrite Z.mod_small by done.
  rewrite N_ascii_embedding by lia. lia.
Qed.

Lemma le_bytes_length n z : 0 <= n -> len (le_bytes n z) = n.
Proof. intros. unfold len, le_bytes. rewrite length_fmap. by apply length_Z_to_little_endian. Qed.

Lemma le_value_bytes n z : 0 <= n -> le_value (le_bytes n z) = z mod 2 ^ (n * 8).
Proof.
  intros. unfold le_value, le_bytes. rewrite <-list_fmap_compose.
  rewrite <-(little_endian_to_Z_to_little_endian n 8 z) by lia. f_equal.
  rewrite <-(list_fmap_id (Z_to_little_endian n 8 z)) at 2. apply list_fmap_ext. intros i b Hb. simpl.
  apply Z_of_byte_of_Z. pose proof (Z_to_little_endian_bound n 8 z ltac:(lia) ltac:(lia)) as Hall.
  rewrite list.Forall_forall in Hall. apply Hall. by eapply list_elem_of_lookup_2.
Qed.
