(* ===== verification/FsEngine.v ===== *)
(** * The filesystem engine ([common/src/storage/engine/filesystem])

    A directory per session holds its metadata, the fixed-size task records
    and the append-only payload files; applications, nodes and executors are
    JSON files.  The registries keep the metadata in memory.  Paths are
    relative to the base directory, and the names in them are single path
    components.  A registry entry's gate, and the check that it is still the
    registered one after waiting for it, are not modelled: operations are
    atomic.  The handle of an open file is its path with the next unreserved
    offset. *)
From Stdlib Require Import Ascii.
From S2P Require Import Prelude Text Types Session Filters Engine Codes FsDisk FsRecord.
Local Open Scope Z_scope.

(** ** Session files *)

Inductive Part := Tasks | Inputs | Outputs | Affinity.

#[export] Instance Part_eq_dec : EqDecision Part.
Proof. solve_decision. Defined.
#[export] Instance Part_countable : Countable Part.
Proof.
  refine (inj_countable'
    (fun p => match p with Tasks => 0 | Inputs => 1 | Outputs => 2 | Affinity => 3 end)%nat
    (fun n => match n with 0 => Tasks | 1 => Inputs | 2 => Outputs | _ => Affinity end)%nat _).
  by intros [].
Defined.

Definition file_name (p : Part) : string :=
  match p with
  | Tasks => "tasks.bin" | Inputs => "inputs.bin" | Outputs => "outputs.bin" | Affinity => "affinity.bin"
  end.

(** The metadata and the open files, each with its next offset. *)
Record SessionEntry := mkEntry { se_metadata : SessionMetadata; se_files : gmap Part Z }.

Definition new_session_entry (m : SessionMetadata) : SessionEntry := mkEntry m ∅.

Definition entry_is_open (e : SessionEntry) : bool :=
  sm_state (se_metadata e) =? i32_of_session_state SsnOpen.
Definition entry_is_closed (e : SessionEntry) : bool :=
  sm_state (se_metadata e) =? i32_of_session_state SsnClosed.

Definition release_files (e : SessionEntry) : SessionEntry := mkEntry (se_metadata e) ∅.

Definition session_path (id : string) : path := ["sessions"; id]%string.
Definition application_path (name : string) : path := ["applications"; name]%string.
Definition node_path (name : string) : path := ["nodes"; name]%string.
Definition executor_path (node id : string) : path := node_path node ++ ["executors"; id]%string.
Definition part_path (id : string) (p : Part) : path := session_path id ++ [file_name p].

(** ** The engine *)

Module FilesystemEngine.

Record t := mk {
  fe_fs : Fs;
  fe_clock : nat;
  fe_sessions : gmap string SessionEntry;
  fe_applications : gmap string ApplicationMetadata;
  fe_nodes : gmap string NodeMetadata;
  fe_executors : gmap string ExecutorMetadata
}.

Definition with_fs x (e : t) : t :=
  mk x (fe_clock e) (fe_sessions e) (fe_applications e) (fe_nodes e) (fe_executors e).
Definition with_sessions m (e : t) : t :=
  mk (fe_fs e) (fe_clock e) m (fe_applications e) (fe_nodes e) (fe_executors e).
Definition with_applications m (e : t) : t :=
  mk (fe_fs e) (fe_clock e) (fe_sessions e) m (fe_nodes e) (fe_executors e).
Definition with_nodes m (e : t) : t :=
  mk (fe_fs e) (fe_clock e) (fe_sessions e) (fe_applications e) m (fe_executors e).
Definition with_executors m (e : t) : t :=
  mk (fe_fs e) (fe_clock e) (fe_sessions e) (fe_applications e) (fe_nodes e) m.

Section engine.
Context `{Disk} `{Crates} `{Env}.

Definition sys {A} (m : M Fs A) : M t A := zoom fe_fs with_fs m.

(** [Utc::now()] where the trait does not pass a reading. *)
Definition now : M t Z := fun e =>
  (Ok (fs_utc_now (fe_clock e)),
   mk (fe_fs e) (S (fe_clock e)) (fe_sessions e) (fe_applications e) (fe_nodes e) (fe_executors e)).

(** [.map_err(|e| FlameError::Storage(..))?]. *)
Definition or_storage {A} (m : M Fs (io A)) : M t A :=
  r ← sys m;
  match r with IoOk a => mret a | IoErr _ => throw EStorage end.

(** An I/O error of the kind [NotFound] is [FlameError::NotFound]. *)
Definition or_not_found {A} (m : M Fs (io A)) : M t A :=
  r ← sys m;
  match r with
  | IoOk a => mret a
  | IoErr IoNotFound => throw ENotFound
  | IoErr IoOther => throw EStorage
  end.

(** A removal of what is already gone succeeds. *)
Definition remove_dir (p : path) : M t unit :=
  r ← sys (remove_dir_all p);
  match r with
  | IoOk _ => mret tt
  | IoErr IoNotFound => mret tt
  | IoErr IoOther => throw EStorage
  end.

Definition put_session (id : string) (x : SessionEntry) : M t unit :=
  modify (fun e => with_sessions (<[id := x]> (fe_sessions e)) e).

Definition session_entry (id : string) : M t SessionEntry :=
  x ← gets (fun e => fe_sessions e !! id);
  lift (ok_or x ENotFound).
Definition application_entry (name : string) : M t ApplicationMetadata :=
  x ← gets (fun e => fe_applications e !! name);
  lift (ok_or x ENotFound).
Definition node_entry (name : string) : M t NodeMetadata :=
  x ← gets (fun e => fe_nodes e !! name);
  lift (ok_or x ENotFound).
Definition executor_entry (id : string) : M t ExecutorMetadata :=
  x ← gets (fun e => fe_executors e !! id);
  lift (ok_or x ENotFound).

(** ** Metadata files *)

(** The content is read and parsed. *)
Definition read_metadata {A} `{Json A} (dir : path) : M t A :=
  content ← or_not_found (read (dir ++ ["metadata"%string]));
  lift (ok_or (from_str content) EStorage).

(** To a temporary file first, then renamed over the old one. *)
Definition write_metadata {A} `{Json A} (dir : path) (meta : A) : M t unit :=
  content ← lift (ok_or (to_string_pretty meta) EStorage);
  or_storage (write (dir ++ ["metadata.tmp"%string]) content) ≫= fun _ =>
  or_storage (rename (dir ++ ["metadata.tmp"%string]) (dir ++ ["metadata"%string])).

Definition read_session_metadata (id : string) : M t SessionMetadata := read_metadata (session_path id).
Definition write_session_metadata (id : string) (m : SessionMetadata) : M t unit :=
  write_metadata (session_path id) m.

Definition commit_session_metadata (id : string) (entry : SessionEntry) (m : SessionMetadata)
    : M t SessionEntry :=
  write_session_metadata (sm_id m) m ≫= fun _ =>
  let entry := mkEntry m (se_files entry) in
  put_session id entry ≫= fun _ =>
  mret entry.

Definition read_application_metadata (name : string) : M t ApplicationMetadata :=
  read_metadata (application_path name).
Definition write_application_metadata (name : string) (m : ApplicationMetadata) : M t unit :=
  or_storage (create_dir_all (application_path name)) ≫= fun _ =>
  write_metadata (application_path name) m.

Definition read_node_metadata (name : string) : M t NodeMetadata := read_metadata (node_path name).
Definition write_node_metadata (name : string) (m : NodeMetadata) : M t unit :=
  or_storage (create_dir_all (node_path name)) ≫= fun _ =>
  write_metadata (node_path name) m.

Definition read_executor_metadata (node id : string) : M t ExecutorMetadata :=
  read_metadata (executor_path node id).
Definition write_executor_metadata (node id : string) (m : ExecutorMetadata) : M t unit :=
  or_storage (create_dir_all (executor_path node id)) ≫= fun _ =>
  write_metadata (executor_path node id) m.

(** The listing the application operations consult: an unreadable session fails
    it. *)
Definition metadata_matches (filter : option SessionFilter) (id : string) (m : SessionMetadata) : bool :=
  is_none_or filter (fun f =>
    is_none_or (sf_application f) (fun app => String.eqb (sm_application m) app) &&
    is_none_or (sf_state f) (fun st => sm_state m =? i32_of_session_state st) &&
    is_none_or (sf_ids f) (fun ids => existsb (String.eqb id) ids)).

Fixpoint scan_sessions (filter : option SessionFilter) (ids : list string)
    (sessions : list (string * SessionMetadata)) : M t (list (string * SessionMetadata)) :=
  match ids with
  | [] => mret sessions
  | id :: ids =>
      m ← read_session_metadata id;
      if metadata_matches filter id m then
        let sessions := sessions ++ [(id, m)] in
        if is_some_and (f ← filter; sf_limit f) (fun limit => (limit <=? length sessions)%nat)
        then mret sessions else scan_sessions filter ids sessions
      else scan_sessions filter ids sessions
  end.

Definition list_sessions_metadata (filter : option SessionFilter) : M t (list (string * SessionMetadata)) :=
  if is_some_and (f ← filter; sf_limit f) (fun limit => (limit =? 0)%nat) then mret []
  else
    r ← sys (read_dir ["sessions"%string]);
    match r with
    | IoErr IoNotFound => mret []
    | IoErr IoOther => throw EStorage
    | IoOk ids => scan_sessions filter ids []
    end.

(** ** Files of a session *)

(** [PayloadFile::open]: the next offset is the length of the file. *)
Definition payload_open (p : path) (create : bool) : M t Z :=
  or_storage (open p create) ≫= fun _ =>
  or_storage (file_len p).

(** [SessionEntry::part]: opened on first use; a closed session keeps none. *)
Definition part (id : string) (p : Part) : M t Z :=
  entry ← session_entry id;
  if entry_is_closed entry then payload_open (part_path id p) false
  else
    match se_files entry !! p with
    | Some end_ => mret end_
    | None =>
        end_ ← payload_open (part_path id p) true;
        put_session id (mkEntry (se_metadata entry) (<[p := end_]> (se_files entry))) ≫= fun _ =>
        mret end_
    end.

(** A file of a closed session is opened for reading only. *)
Definition write_part (id : string) (p : Part) (data : bytes) (offset : Z) : M t unit :=
  entry ← session_entry id;
  if entry_is_closed entry then throw EStorage
  else or_storage (write_all_at (part_path id p) data offset).

(** [PayloadFile::append]: the range is reserved before it is written. *)
Definition append_data (id : string) (p : Part) (data : bytes) : M t Z :=
  offset ← part id p;
  let next := offset + len data in
  if u64_max <? next then throw EStorage
  else
    entry ← session_entry id;
    put_session id (mkEntry (se_metadata entry)
      (if entry_is_closed entry then se_files entry else <[p := next]> (se_files entry))) ≫= fun _ =>
    write_part id p data offset ≫= fun _ =>
    mret offset.

Definition read_data (id : string) (p : Part) (offset n : Z) : M t bytes :=
  if n =? 0 then mret []
  else
    part id p ≫= fun _ =>
    or_storage (read_exact_at (part_path id p) n offset).

(** ** Task records *)

Definition record_offset (task_id : Z) : Z := wrap_u64 ((task_id - 1) * task_record_size).

Definition read_task_record (id : string) (task_id : Z) : M t TaskMetadata :=
  if task_id <? 1 then throw ENotFound
  else
    tasks ← attempt (part id Tasks);
    lift (match tasks with Ok _ => Ok tt | _ => Err ENotFound end) ≫= fun _ =>
    buffer ← sys (read_exact_at (part_path id Tasks) task_record_size (record_offset task_id));
    match buffer with
    | IoErr _ => throw ENotFound
    | IoOk buffer =>
        meta ← lift (ok_or (fst <$> take_from_bytes buffer) EStorage);
        if negb (tm_checksum meta =? calculate_checksum meta) then throw EStorage
        else mret meta
    end.

Definition write_task_metadata (id : string) (m : TaskMetadata) : M t unit :=
  part id Tasks ≫= fun _ =>
  buffer ← lift (ok_or (to_allocvec m) EStorage);
  write_part id Tasks buffer (record_offset (tm_id m)).

Definition with_id_checksum (id checksum : Z) (m : TaskMetadata) : TaskMetadata :=
  mkTaskMeta id (tm_version m) checksum (tm_state m) (tm_creation_time m) (tm_completion_time m)
    (tm_input_offset m) (tm_input_len m) (tm_output_offset m) (tm_output_len m)
    (tm_affinity_offset m) (tm_affinity_len m).

(** An incomplete tail is cut off first, so that the identifiers stay dense. *)
Definition commit_task (id : string) (m : TaskMetadata) : M t TaskMetadata :=
  part id Tasks ≫= fun _ =>
  n ← or_storage (file_len (part_path id Tasks));
  let torn := n mod task_record_size in
  (if negb (torn =? 0) then or_storage (set_len (part_path id Tasks) (n - torn)) else mret tt) ≫= fun _ =>
  let n := n - torn in
  let m := with_id_checksum (n / task_record_size + 1) (tm_checksum m) m in
  let m := with_id_checksum (tm_id m) (calculate_checksum m) m in
  buffer ← lift (ok_or (to_allocvec m) EStorage);
  write_part id Tasks buffer n ≫= fun _ =>
  mret m.

(** The tasks of a session: their number is that of the records, or 0 if the
    file cannot be examined. *)
Definition task_count (session : string) : M t Z :=
  r ← sys (file_len (part_path session Tasks));
  mret (match r with IoOk n => n / task_record_size | IoErr _ => 0 end).

Definition task_ids (n : Z) : list Z := (fun i => Z.of_nat (S i)) <$> seq 0 (Z.to_nat n).

Fixpoint count_states (id : string) (states : list TaskState) (ids : list Z) (count : Z) : M t Z :=
  match ids with
  | [] => mret count
  | task_id :: ids =>
      m ← read_task_record id task_id;
      state ← lift (task_state_try_from (tm_state m));
      count_states id states ids (if existsb (fun s => bool_decide (s = state)) states then count + 1 else count)
  end.

(** [_count_task] on the states of the filter, or on all. *)
Definition count_task (filter : TaskFilter) : M t Z :=
  n ← task_count (tf_session filter);
  match tf_states filter with
  | None => mret n
  | Some states => count_states (tf_session filter) states (task_ids n) 0
  end.

Definition with_update (state completion_time output_offset output_len : Z) (m : TaskMetadata) : TaskMetadata :=
  mkTaskMeta (tm_id m) (tm_version m) (tm_checksum m) state (tm_creation_time m) completion_time
    (tm_input_offset m) (tm_input_len m) output_offset output_len
    (tm_affinity_offset m) (tm_affinity_len m).

Definition with_version_checksum (version checksum : Z) (m : TaskMetadata) : TaskMetadata :=
  mkTaskMeta (tm_id m) version checksum (tm_state m) (tm_creation_time m) (tm_completion_time m)
    (tm_input_offset m) (tm_input_len m) (tm_output_offset m) (tm_output_len m)
    (tm_affinity_offset m) (tm_affinity_len m).

(** [update_task]: read, modify, write. *)
Definition update_task (id : string) (task_id : Z) (op : TaskMetadata -> TaskMetadata) : M t TaskMetadata :=
  m ← read_task_record id task_id;
  let m := op m in
  let m := with_version_checksum (wrap_u32 (tm_version m + 1)) (tm_checksum m) m in
  let m := with_version_checksum (tm_version m) (calculate_checksum m) m in
  write_task_metadata id m ≫= fun _ =>
  mret m.

Definition set_task_state (st : TaskState) (now : Z) (m : TaskMetadata) : TaskMetadata :=
  with_update (i32_of_task_state st)
    (if is_terminal st then timestamp now else tm_completion_time m)
    (tm_output_offset m) (tm_output_len m) m.

Definition update_task_state_ (id : string) (task_id : Z) (st : TaskState) (now : Z) : M t TaskMetadata :=
  update_task id task_id (set_task_state st now).

(** ** Entities from their records *)

Definition payload (id : string) (p : Part) (offset n : Z) : M t (option string) :=
  if 0 <? n then data ← read_data id p offset n; mret (Some (string_of data)) else mret None.

Definition task_from_metadata (id : string) (m : TaskMetadata) : M t Task :=
  input ← payload id Inputs (tm_input_offset m) (tm_input_len m);
  output ← payload id Outputs (tm_output_offset m) (tm_output_len m);
  affinity ← (if 0 <? tm_affinity_len m then
                data ← read_data id Affinity (tm_affinity_offset m) (tm_affinity_len m);
                keys ← lift (ok_or (fst <$> keys_take_from_bytes data) EStorage);
                mret (list_to_set keys)
              else mret ∅);
  entry ← session_entry id;
  lift (task_with_data (sm_id (se_metadata entry)) m input output affinity).

(** A common data file that cannot be read counts as none. *)
Definition read_common_data (id : string) (n : Z) : M t (option string) :=
  if n =? 0 then mret None
  else
    r ← sys (read (session_path id ++ ["common_data.bin"%string]));
    mret (match r with IoOk data => Some (string_of data) | IoErr _ => None end).

Definition write_common_data (id : string) (data : string) : M t unit :=
  or_storage (write (session_path id ++ ["common_data.bin"%string]) (bytes_of data)).

Definition session_from_metadata (m : SessionMetadata) : M t Session :=
  state ← lift (session_state_try_from (sm_state m));
  common_data ← read_common_data (sm_id m) (sm_common_data_len m);
  let completion_time := s ← sm_completion_time m; from_timestamp s in
  creation_time ← lift (ok_or (from_timestamp (sm_creation_time m)) EStorage);
  mret (mkSession (sm_id m) (sm_application m) (sm_version m) common_data (sm_tokens m) ∅ ∅
          creation_time completion_time [] state (sm_min_instances m) (sm_max_instances m)
          (sm_batch_size m) (sm_priority m)
          (resreq_from (sm_resreq_cpu m) (sm_resreq_memory m) (sm_resreq_gpu m)) 0).

(** ** Applications *)

Definition put_application (name : string) (m : ApplicationMetadata) : M t unit :=
  modify (fun e => with_applications (<[name := m]> (fe_applications e)) e).
Definition remove_application (name : string) : M t unit :=
  modify (fun e => with_applications (delete name (fe_applications e)) e).

(** The entry is published first and withdrawn if it cannot be written. *)
Definition register_application (name : string) (attr : ApplicationAttributes) (now : Z) : M t Application :=
  let meta := application_metadata name 1 (i32_of_application_state AppEnabled) (timestamp now) attr in
  application ← lift (application_from_metadata meta);
  existing ← gets (fun e => fe_applications e !! name);
  match existing with
  | Some _ => throw EAlreadyExist
  | None =>
      put_application name meta ≫= fun _ =>
      r ← attempt (write_application_metadata name meta);
      match r with
      | Ok _ => mret application
      | Err e => remove_application name ≫= fun _ => throw e
      | Panic => lift Panic
      end
  end.

Definition app_meta_with_state (st version : Z) (m : ApplicationMetadata) : ApplicationMetadata :=
  mkAppMeta (am_name m) version st (am_creation_time m) (am_shim m) (am_image m) (am_description m)
    (am_labels m) (am_command m) (am_arguments m) (am_environments m) (am_working_directory m)
    (am_max_instances m) (am_delay_release_seconds m) (am_schema m) (am_url m) (am_installer m).

Definition update_application_state (name : string) (st : ApplicationState) : M t Application :=
  meta ← application_entry name;
  if am_state meta =? i32_of_application_state st then lift (application_from_metadata meta)
  else
    let meta := app_meta_with_state (i32_of_application_state st) (wrap_u32 (am_version meta + 1)) meta in
    application ← lift (application_from_metadata meta);
    write_application_metadata name meta ≫= fun _ =>
    put_application name meta ≫= fun _ =>
    mret application.

Definition delete_application (name : string) : M t unit :=
  app ← application_entry name;
  if negb (am_state app =? i32_of_application_state AppDisabled) then throw EInvalidState
  else
    sessions ← list_sessions_metadata (Some (session_by_application name));
    match sessions with
    | _ :: _ => throw EInvalidState
    | [] =>
        or_storage (remove_dir_all (application_path name)) ≫= fun _ =>
        remove_application name
    end.

Definition update_application (name : string) (attr : ApplicationAttributes) : M t Application :=
  meta ← application_entry name;
  if negb (am_state meta =? i32_of_application_state AppEnabled) then throw EInvalidState
  else
    sessions ← list_sessions_metadata (Some (session_by_application name));
    let live := existsb (fun s => negb (sm_state s.2 =? i32_of_session_state SsnClosed)) sessions in
    if live then throw EStorage
    else
      let meta := application_metadata (am_name meta) (wrap_u32 (am_version meta + 1)) (am_state meta)
                    (am_creation_time meta) attr in
      application ← lift (application_from_metadata meta);
      write_application_metadata name meta ≫= fun _ =>
      put_application name meta ≫= fun _ =>
      mret application.

Definition get_application (name : string) : M t Application :=
  meta ← application_entry name;
  lift (application_from_metadata meta).

Fixpoint collect_applications (filter : option ApplicationFilter) (names : list string) : M t (list Application) :=
  match names with
  | [] => mret []
  | name :: names =>
      r ← attempt (get_application name);
      rest ← collect_applications filter names;
      mret (match r with
            | Ok app =>
                if is_none_or filter (fun f => is_none_or (af_state f) (fun st => bool_decide (app_state app = st)))
                then app :: rest else rest
            | _ => rest
            end)
  end.

Definition find_applications (filter : option ApplicationFilter) : M t (list Application) :=
  names ← gets (fun e => (hm_iter (fe_applications e)).*1);
  collect_applications filter names.

(** ** Sessions *)

Definition session_metadata_from (attr : SessionAttributes) (common_data_len now : Z) : SessionMetadata :=
  mkSsnMeta (sa_id attr) (sa_application attr) 1 (i32_of_session_state SsnOpen) (timestamp now) None
    (sa_min_instances attr) (sa_max_instances attr) (sa_batch_size attr) (sa_priority attr)
    common_data_len (sa_tokens attr)
    (rr_cpu <$> sa_resreq attr) (rr_memory <$> sa_resreq attr) (rr_gpu <$> sa_resreq attr).

Definition create_session (attr : SessionAttributes) (now : Z) : M t Session :=
  if String.eqb (sa_application attr) EmptyString then throw EInvalidConfig
  else
    existing ← attempt (read_session_metadata (sa_id attr));
    if is_ok existing then throw EAlreadyExist
    else
      let id := sa_id attr in
      or_storage (create_dir_all (session_path id)) ≫= fun _ =>
      common_data_len ← match sa_common_data attr with
                        | Some data => write_common_data id data ≫= fun _ => mret (len (bytes_of data))
                        | None => mret 0
                        end;
      let meta := session_metadata_from attr common_data_len now in
      or_storage (write (part_path id Tasks) []) ≫= fun _ =>
      or_storage (write (part_path id Inputs) []) ≫= fun _ =>
      or_storage (write (part_path id Outputs) []) ≫= fun _ =>
      write_session_metadata id meta ≫= fun _ =>
      session ← session_from_metadata meta;
      modify (fun e =>
        match fe_sessions e !! id with
        | Some _ => e
        | None => with_sessions (<[id := new_session_entry meta]> (fe_sessions e)) e
        end) ≫= fun _ =>
      mret session.

Definition get_session (id : string) : M t Session :=
  entry ← session_entry id;
  session_from_metadata (se_metadata entry).

Definition open_session (id : string) (spec : option SessionAttributes) (now : Z) : M t Session :=
  r ← attempt (get_session id);
  match r with
  | Ok ssn =>
      if negb (bool_decide (ssn_state ssn = SsnOpen)) then throw EInvalidState
      else
        match spec with Some attr => lift (validate_spec ssn attr) | None => mret tt end ≫= fun _ =>
        mret ssn
  | Err ENotFound =>
      match spec with Some attr => create_session attr now | None => throw ENotFound end
  | Err e => throw e
  | Panic => lift Panic
  end.

(** The pending tasks; one that runs, or cannot be read, stops the close. *)
Fixpoint close_scan (id : string) (ids : list Z) : M t (list Z) :=
  match ids with
  | [] => mret []
  | task_id :: ids =>
      m ← read_task_record id task_id;
      state ← lift (task_state_try_from (tm_state m));
      if bool_decide (state = TaskRunning) then throw EStorage
      else
        pending ← close_scan id ids;
        mret (if bool_decide (state = TaskPending) then task_id :: pending else pending)
  end.

Definition ssn_meta_with_state (st version : Z) (completion_time : option Z) (m : SessionMetadata) : SessionMetadata :=
  mkSsnMeta (sm_id m) (sm_application m) version st (sm_creation_time m) completion_time
    (sm_min_instances m) (sm_max_instances m) (sm_batch_size m) (sm_priority m)
    (sm_common_data_len m) (sm_tokens m) (sm_resreq_cpu m) (sm_resreq_memory m) (sm_resreq_gpu m).

(** The files are closed after the metadata says so. *)
Definition release (id : string) : M t SessionEntry :=
  entry ← session_entry id;
  put_session id (release_files entry) ≫= fun _ =>
  mret (release_files entry).

Definition close_session (id : string) (now : Z) : M t Session :=
  entry ← session_entry id;
  if entry_is_closed entry then
    entry ← release id;
    session_from_metadata (se_metadata entry)
  else
    n ← count_task (by_session id);
    pending ← close_scan id (task_ids n);
    for_each pending (fun task_id => update_task_state_ id task_id TaskCancelled now ≫= fun _ => mret tt) ≫= fun _ =>
    entry ← session_entry id;
    let meta := ssn_meta_with_state (i32_of_session_state SsnClosed)
                  (wrap_u32 (sm_version (se_metadata entry) + 1)) (Some (timestamp now)) (se_metadata entry) in
    commit_session_metadata id entry meta ≫= fun _ =>
    entry ← release id;
    session_from_metadata (se_metadata entry).

Definition update_session_state (id : string) (st : SessionState) : M t Session :=
  entry ← session_entry id;
  if entry_is_closed entry then throw EInvalidState
  else
    let meta := se_metadata entry in
    let meta := ssn_meta_with_state (i32_of_session_state st) (sm_version meta) (sm_completion_time meta) meta in
    entry ← commit_session_metadata id entry meta;
    entry ← (if bool_decide (st = SsnSuspended) then release id else mret entry);
    session_from_metadata (se_metadata entry).

Definition delete_session (id : string) : M t Session :=
  entry ← session_entry id;
  if negb (entry_is_closed entry) then throw EStorage
  else
    n ← count_task (non_terminal id);
    if 0 <? n then throw EStorage
    else
      session ← session_from_metadata (se_metadata entry);
      or_storage (remove_dir_all (session_path id)) ≫= fun _ =>
      modify (fun e => with_sessions (delete id (fe_sessions e)) e) ≫= fun _ =>
      mret session.

Fixpoint collect_sessions (entries : list SessionEntry) : M t (list Session) :=
  match entries with
  | [] => mret []
  | entry :: entries =>
      s ← session_from_metadata (se_metadata entry);
      rest ← collect_sessions entries;
      mret (s :: rest)
  end.

Definition find_sessions : M t (list Session) :=
  entries ← gets (fun e => hm_values (fe_sessions e));
  collect_sessions entries.

(** ** Tasks *)

Definition not_closed (id : string) : M t unit :=
  entry ← session_entry id;
  lift (ensure (negb (entry_is_closed entry)) EInvalidState).

(** [HashSet::iter] in the order of the elements; any order is read back as the
    same set. *)
Definition create_task (ssn : string) (input : option string) (options : option TaskOptions)
    (now : Z) : M t Task :=
  not_closed ssn ≫= fun _ =>
  let input := data ← input; if String.eqb data EmptyString then None else Some data in
  input_range ← match input with
                | Some data =>
                    offset ← append_data ssn Inputs (bytes_of data);
                    mret (offset, len (bytes_of data))
                | None => mret (0, 0)
                end;
  let affinity := default ∅ (to_affinity <$> options) in
  affinity_range ← (if bool_decide (affinity = ∅) then mret (0, 0)
                    else
                      encoded ← lift (ok_or (keys_to_allocvec (elements affinity)) EStorage);
                      offset ← append_data ssn Affinity encoded;
                      mret (offset, len encoded));
  meta ← commit_task ssn (mkTaskMeta 0 1 0 (i32_of_task_state TaskPending) (timestamp now) 0
           input_range.1 input_range.2 0 0 affinity_range.1 affinity_range.2);
  lift (task_with_data ssn meta input None affinity).

Definition get_task (g : TaskGID) : M t Task :=
  session_entry (gid_ssn_id g) ≫= fun _ =>
  meta ← read_task_record (gid_ssn_id g) (gid_task_id g);
  task_from_metadata (gid_ssn_id g) meta.

Definition retry_task (g : TaskGID) : M t Task :=
  entry ← session_entry (gid_ssn_id g);
  lift (ensure (entry_is_open entry) EInvalidState) ≫= fun _ =>
  meta ← update_task (gid_ssn_id g) (gid_task_id g) (fun m =>
           with_update (i32_of_task_state TaskPending) (tm_completion_time m)
             (tm_output_offset m) (tm_output_len m) m);
  task_from_metadata (gid_ssn_id g) meta.

Definition update_task_state (g : TaskGID) (st : TaskState) (message : option string) (now : Z) : M t Task :=
  not_closed (gid_ssn_id g) ≫= fun _ =>
  meta ← update_task_state_ (gid_ssn_id g) (gid_task_id g) st now;
  task_from_metadata (gid_ssn_id g) meta.

(** The output is staged before the record is updated. *)
Definition update_task_result (g : TaskGID) (r : TaskResult) (now : Z) : M t Task :=
  not_closed (gid_ssn_id g) ≫= fun _ =>
  output ← match tr_output r with
           | Some out =>
               if String.eqb out EmptyString then mret (Some (0, 0))
               else
                 offset ← append_data (gid_ssn_id g) Outputs (bytes_of out);
                 mret (Some (offset, len (bytes_of out)))
           | None => mret None
           end;
  meta ← update_task (gid_ssn_id g) (gid_task_id g) (fun m =>
           let range := default (tm_output_offset m, tm_output_len m) output in
           with_update (i32_of_task_state (tr_state r))
             (if is_terminal (tr_state r) then timestamp now else tm_completion_time m)
             range.1 range.2 m);
  task_from_metadata (gid_ssn_id g) meta.

Fixpoint collect_tasks (ssn : string) (ids : list Z) : M t (list Task) :=
  match ids with
  | [] => mret []
  | task_id :: ids =>
      r ← attempt (m ← read_task_record ssn task_id; task_from_metadata ssn m);
      rest ← collect_tasks ssn ids;
      mret (match r with Ok task => task :: rest | _ => rest end)
  end.

Definition find_tasks (ssn : string) : M t (list Task) :=
  session_entry ssn ≫= fun _ =>
  n ← count_task (by_session ssn);
  collect_tasks ssn (task_ids n).

(** ** Nodes *)

Definition put_node (name : string) (m : NodeMetadata) : M t unit :=
  modify (fun e => with_nodes (<[name := m]> (fe_nodes e)) e).
Definition remove_node (name : string) : M t unit :=
  modify (fun e => with_nodes (delete name (fe_nodes e)) e).

Definition create_node (node : Node) : M t Node :=
  creation_time ← now;
  heartbeat ← now;
  let meta := from_node node (timestamp creation_time) heartbeat in
  existing ← gets (fun e => fe_nodes e !! node_name node);
  match existing with
  | Some _ => throw EAlreadyExist
  | None =>
      put_node (node_name node) meta ≫= fun _ =>
      r ← attempt (write_node_metadata (node_name node) meta);
      match r with
      | Ok _ => put_node (node_name node) meta ≫= fun _ => mret node
      | Err e => remove_node (node_name node) ≫= fun _ => throw e
      | Panic => lift Panic
      end
  end.

Definition get_node (name : string) : M t (option Node) :=
  m ← gets (fun e => fe_nodes e !! name);
  mret (node_from_metadata <$> m).

Definition update_node (node : Node) : M t Node :=
  entry ← node_entry (node_name node);
  heartbeat ← now;
  let meta := from_node node (nm_creation_time entry) heartbeat in
  write_node_metadata (node_name node) meta ≫= fun _ =>
  put_node (node_name node) meta ≫= fun _ =>
  mret node.

(** The node's directory holds the records of its executors. *)
Definition delete_node (name : string) : M t unit :=
  existing ← gets (fun e => fe_nodes e !! name);
  match existing with
  | None => mret tt
  | Some _ =>
      remove_dir (node_path name) ≫= fun _ =>
      modify (fun e => with_executors
        (filter (fun im : string * ExecutorMetadata => em_node im.2 <> name) (fe_executors e)) e) ≫= fun _ =>
      remove_node name
  end.

Fixpoint collect_nodes (names : list string) : M t (list Node) :=
  match names with
  | [] => mret []
  | name :: names =>
      n ← get_node name;
      rest ← collect_nodes names;
      mret (match n with Some n => n :: rest | None => rest end)
  end.

Definition find_nodes : M t (list Node) :=
  names ← gets (fun e => (hm_iter (fe_nodes e)).*1);
  collect_nodes names.

(** ** Executors *)

Definition put_executor (id : string) (m : ExecutorMetadata) : M t unit :=
  modify (fun e => with_executors (<[id := m]> (fe_executors e)) e).
Definition remove_executor (id : string) : M t unit :=
  modify (fun e => with_executors (delete id (fe_executors e)) e).

(** The record is written under the node; the copy under a previous node goes. *)
Definition persist_executor (executor : Executor) (m : ExecutorMetadata)
    (previous : option ExecutorMetadata) : M t unit :=
  write_executor_metadata (ex_node executor) (ex_id executor) m ≫= fun _ =>
  match previous with
  | Some old =>
      if String.eqb (em_node old) (ex_node executor) then mret tt
      else remove_dir (executor_path (em_node old) (ex_id executor))
  | None => mret tt
  end.

Definition create_executor (executor : Executor) : M t Executor :=
  node_entry (ex_node executor) ≫= fun _ =>
  let meta := from_executor executor in
  existing ← gets (fun e => fe_executors e !! ex_id executor);
  match existing with
  | Some _ => throw EAlreadyExist
  | None =>
      put_executor (ex_id executor) meta ≫= fun _ =>
      r ← attempt (persist_executor executor meta None);
      match r with
      | Ok _ => put_executor (ex_id executor) meta ≫= fun _ => mret executor
      | Err e => remove_executor (ex_id executor) ≫= fun _ => throw e
      | Panic => lift Panic
      end
  end.

Definition get_executor (id : string) : M t (option Executor) :=
  m ← gets (fun e => fe_executors e !! id);
  match m with
  | None => mret None
  | Some m =>
      parent ← gets (fun e => fe_nodes e !! em_node m);
      match parent with
      | None => mret None
      | Some _ => t ← now; mret (Some (executor_from_metadata m t))
      end
  end.

Definition update_executor (executor : Executor) : M t Executor :=
  node_entry (ex_node executor) ≫= fun _ =>
  entry ← executor_entry (ex_id executor);
  let meta := from_executor executor in
  persist_executor executor meta (Some entry) ≫= fun _ =>
  put_executor (ex_id executor) meta ≫= fun _ =>
  mret executor.

Definition exec_meta_with_state (st : Z) (m : ExecutorMetadata) : ExecutorMetadata :=
  mkExecMeta (em_id m) (em_node m) (em_application m) (em_resreq_cpu m) (em_resreq_memory m)
    (em_resreq_gpu m) (em_shim m) (em_task_id m) (em_ssn_id m) (em_creation_time m) st.

Definition update_executor_state (id : string) (st : ExecutorState) : M t Executor :=
  m ← executor_entry id;
  node_entry (em_node m) ≫= fun _ =>
  let m := exec_meta_with_state (i32_of_executor_state st) m in
  write_executor_metadata (em_node m) id m ≫= fun _ =>
  put_executor id m ≫= fun _ =>
  t ← now;
  mret (executor_from_metadata m t).

Definition delete_executor (id : string) : M t unit :=
  m ← gets (fun e => fe_executors e !! id);
  match m with
  | None => mret tt
  | Some m =>
      parent ← gets (fun e => fe_nodes e !! em_node m);
      match parent with
      | None => mret tt
      | Some _ =>
          remove_dir (executor_path (em_node m) id) ≫= fun _ =>
          remove_executor id
      end
  end.

Fixpoint collect_executors (node : option string) (ids : list string) : M t (list Executor) :=
  match ids with
  | [] => mret []
  | id :: ids =>
      x ← get_executor id;
      rest ← collect_executors node ids;
      mret (match x with
            | Some x => if is_none_or node (fun name => String.eqb (ex_node x) name) then x :: rest else rest
            | None => rest
            end)
  end.

Definition find_executors (node : option string) : M t (list Executor) :=
  ids ← gets (fun e => (hm_iter (fe_executors e)).*1);
  collect_executors node ids.

#[export] Instance engine : Engine t := {
  Engine.register_application := register_application;
  Engine.update_application_state := update_application_state;
  Engine.delete_application := delete_application;
  Engine.update_application := update_application;
  Engine.get_application := get_application;
  Engine.find_applications := find_applications;
  Engine.create_session := create_session;
  Engine.get_session := get_session;
  Engine.open_session := open_session;
  Engine.close_session := close_session;
  Engine.update_session_state := update_session_state;
  Engine.delete_session := delete_session;
  Engine.find_sessions := find_sessions;
  Engine.create_task := create_task;
  Engine.get_task := get_task;
  Engine.retry_task := retry_task;
  Engine.update_task_state := update_task_state;
  Engine.update_task_result := update_task_result;
  Engine.find_tasks := find_tasks;
  Engine.create_node := create_node;
  Engine.get_node := get_node;
  Engine.update_node := update_node;
  Engine.delete_node := delete_node;
  Engine.find_nodes := find_nodes;
  Engine.create_executor := create_executor;
  Engine.get_executor := get_executor;
  Engine.update_executor := update_executor;
  Engine.update_executor_state := update_executor_state;
  Engine.delete_executor := delete_executor;
  Engine.find_executors := find_executors
}.

(** ** Start *)

(** The names in a directory, none if it cannot be listed. *)
Definition child_names (dir : path) : M t (list string) :=
  r ← sys (read_dir dir);
  mret (match r with IoOk names => names | IoErr _ => [] end).

(** An entity whose metadata cannot be read is skipped. *)
Definition load_each {A} `{Json A} (ids : list string) (dir : string -> path)
    (keep : string -> A -> M t unit) : M t unit :=
  for_each ids (fun id =>
    r ← attempt (read_metadata (dir id));
    match r with Ok m => keep id m | _ => mret tt end).

Definition load_entities : M t unit :=
  sessions ← child_names ["sessions"%string];
  load_each sessions session_path (fun id m => put_session id (new_session_entry m)) ≫= fun _ =>
  applications ← child_names ["applications"%string];
  load_each applications application_path put_application ≫= fun _ =>
  nodes ← child_names ["nodes"%string];
  load_each nodes node_path (fun node m =>
    put_node node m ≫= fun _ =>
    executors ← child_names (node_path node ++ ["executors"%string]);
    load_each executors (executor_path node) put_executor).

(** [new_ptr] on the files and directories found at the base path. *)
Definition start : M t unit :=
  or_storage (create_dir_all ["sessions"%string]) ≫= fun _ =>
  or_storage (create_dir_all ["applications"%string]) ≫= fun _ =>
  or_storage (create_dir_all ["nodes"%string]) ≫= fun _ =>
  load_entities.

Definition on_disk (fs : Fs) : t := mk fs 0 ∅ ∅ ∅ ∅.
End engine.

(** [PathBuf::from(home).join(path)] for a relative path. *)
Definition join (home p : string) : string :=
  if String.eqb home EmptyString then p
  else if String.eqb (String.substring (String.length home - 1) 1 home) "/" then home +:+ p
  else home +:+ "/" +:+ p.

(** [parse_url], given [FLAME_HOME]. *)
Definition parse_url (flame_home : option string) (url : string) : result string :=
  p ← match strip_prefix "filesystem://" url with
      | Some p => Ok p
      | None =>
          match strip_prefix "file://" url with
          | Some p => Ok p
          | None =>
              match strip_prefix "fs://" url with
              | Some p => Ok p
              | None => Err EInvalidConfig
              end
          end
      end;
  if String.prefix "/" p then Ok p
  else Ok (join (default "/usr/local/flame"%string flame_home) p).
End FilesystemEngine.
