(* ===== verification/FsDemo.v ===== *)
(** * A concrete disk and concrete codecs

    Instances of what the filesystem engine takes from other crates, with the
    laws they satisfy: the task record as its little-endian fields, CRC-32, and
    a self-delimiting encoding of every countable type for the rest. *)
From Stdlib Require Import Ascii.
From S2P Require Import Prelude Types Engine Codes FsDisk FsRecord FsEngine.
Local Open Scope Z_scope.

(** ** Task records *)

Module LeCodec.

Definition signed (z : Z) : Z := wrap_i64 z.

Definition encode_task (m : TaskMetadata) : bytes :=
  le_bytes 8 (tm_id m) ++ le_bytes 4 (tm_version m) ++ le_bytes 4 (tm_checksum m) ++
  le_bytes 1 (tm_state m) ++ le_bytes 8 (tm_creation_time m) ++ le_bytes 8 (tm_completion_time m) ++
  le_bytes 8 (tm_input_offset m) ++ le_bytes 8 (tm_input_len m) ++
  le_bytes 8 (tm_output_offset m) ++ le_bytes 8 (tm_output_len m) ++
  le_bytes 8 (tm_affinity_offset m) ++ le_bytes 8 (tm_affinity_len m).

(** The next [n] bytes as a number. *)
Definition field (n : Z) (b : bytes) : option (Z * bytes) :=
  if len b <? n then None else Some (le_value (take (Z.to_nat n) b), drop (Z.to_nat n) b).

Definition decode_task (b : bytes) : option (TaskMetadata * bytes) :=
  '(id, b) ← field 8 b; '(version, b) ← field 4 b; '(checksum, b) ← field 4 b;
  '(state, b) ← field 1 b; '(created, b) ← field 8 b; '(completed, b) ← field 8 b;
  '(io, b) ← field 8 b; '(il, b) ← field 8 b; '(oo, b) ← field 8 b; '(ol, b) ← field 8 b;
  '(ao, b) ← field 8 b; '(al, b) ← field 8 b;
  Some (mkTaskMeta id version checksum state (signed created) (signed completed) io il oo ol ao al, b).

Lemma field_app n z rest : 0 < n -> field n (le_bytes n z ++ rest) = Some (z mod 2 ^ (n * 8), rest).
Proof.
  intros Hn. unfold field. pose proof (le_bytes_length n z) as Hl. unfold len in *.
  rewrite length_app. destruct (Z.ltb_spec (Z.of_nat (length (le_bytes n z) + length rest)) n); [lia|].
  rewrite take_app_length', drop_app_length', le_value_bytes by lia. done.
Qed.

Lemma le_value_range b : 0 <= le_value b < 2 ^ (len b * 8).
Proof.
  unfold le_value, len. rewrite <-(length_fmap Z_of_byte b). apply little_endian_to_Z_bound.
  - lia.
  - apply list.Forall_forall. intros z (c & -> & _)%list_elem_of_fmap. unfold Z_of_byte.
    pose proof (N_ascii_bounded c). lia.
Qed.

Lemma field_Some n b z rest : 0 < n -> field n b = Some (z, rest) ->
  0 <= z < 2 ^ (n * 8) /\ z = le_value (take (Z.to_nat n) b).
Proof.
  intros Hn. unfold field. destruct (Z.ltb_spec (len b) n) as [|Hl]; [done|]. intros [= <- <-].
  split; [|done]. pose proof (le_value_range (take (Z.to_nat n) b)) as Hr. unfold len in *.
  rewrite length_take in Hr. replace (Z.of_nat (Z.to_nat n `min` length b)) with n in Hr by lia. done.
Qed.

Lemma signed_mod z : is_i64 z -> signed (z mod 2 ^ 64) = z.
Proof.
  unfold is_i64, signed, wrap_i64. intros Hz. rewrite Zplus_mod_idemp_l, Z.mod_small by lia. lia.
Qed.

Lemma signed_range z : is_i64 (signed z).
Proof. unfold is_i64, signed, wrap_i64. pose proof (Z.mod_pos_bound (z + 2 ^ 63) (2 ^ 64)). lia. Qed.

Lemma bind_field {B} n z rest (f : Z * bytes -> option B) : 0 < n -> 0 <= z < 2 ^ (n * 8) ->
  field n (le_bytes n z ++ rest) ≫= f = f (z, rest).
Proof. intros. rewrite field_app by done. by rewrite Z.mod_small. Qed.

Lemma bind_signed {B} z rest (f : Z * bytes -> option B) : is_i64 z ->
  field 8 (le_bytes 8 z ++ rest) ≫= f = f (z mod 2 ^ 64, rest).
Proof. intros. by rewrite field_app. Qed.

#[local] Opaque le_bytes field.

Lemma decode_encode m rest : meta_ok m -> decode_task (encode_task m ++ rest) = Some (m, rest).
Proof.
  intros []. unfold decode_task, encode_task. rewrite <-!app_assoc.
  unfold is_u64, is_u32, is_u8, u64_max, u32_max in *.
  do 4 (rewrite bind_field by lia; cbv beta iota). do 2 (rewrite bind_signed by done; cbv beta iota).
  do 6 (rewrite bind_field by lia; cbv beta iota). rewrite !signed_mod by done. by destruct m.
Qed.

Lemma encode_length m : len (encode_task m) = 81.
Proof.
  unfold encode_task, len. rewrite !length_app.
  assert (Hl : forall n z, 0 <= n -> Z.of_nat (length (le_bytes n z)) = n) by (intros; by apply le_bytes_length).
  rewrite !Nat2Z.inj_add, !Hl by lia. done.
Qed.

Lemma decode_task_ok b m rest : decode_task b = Some (m, rest) ->
  meta_ok m /\ tm_id m = le_value (take 8 b).
Proof.
  unfold decode_task. intros Hd.
  repeat match type of Hd with
  | (field ?n ?b ≫= _) = _ =>
      let F := fresh "F" in destruct (field n b) as [[? ?]|] eqn:F; [simpl in Hd|done];
      apply field_Some in F; [|lia]; destruct F
  end.
  injection Hd as <- <-. split; [|done].
  split; simpl; try apply signed_range; unfold is_u64, is_u32, is_u8, u64_max, u32_max; lia.
Qed.
End LeCodec.

(** ** Everything else *)

Module CountableCodec.

Fixpoint pos_bytes (p : positive) : bytes :=
  match p with
  | xH => ["H"%char]
  | xO p => "O"%char :: pos_bytes p
  | xI p => "I"%char :: pos_bytes p
  end.

Fixpoint bytes_pos (b : bytes) : option (positive * bytes) :=
  match b with
  | [] => None
  | c :: b =>
      if Ascii.eqb c "H" then Some (1%positive, b)
      else if Ascii.eqb c "O" then '(p, b) ← bytes_pos b; Some (xO p, b)
      else if Ascii.eqb c "I" then '(p, b) ← bytes_pos b; Some (xI p, b)
      else None
  end.

Lemma bytes_pos_app p rest : bytes_pos (pos_bytes p ++ rest) = Some (p, rest).
Proof. induction p as [p IH|p IH|]; simpl; [rewrite IH|rewrite IH|]; done. Qed.

Definition to_bytes {A} `{Countable A} (a : A) : bytes := pos_bytes (encode a).
Definition of_bytes {A} `{Countable A} (b : bytes) : option (A * bytes) :=
  '(p, b) ← bytes_pos b; a ← decode p; Some (a, b).

Lemma of_to_bytes {A} `{Countable A} (a : A) rest : of_bytes (to_bytes a ++ rest) = Some (a, rest).
Proof. unfold of_bytes, to_bytes. rewrite bytes_pos_app. simpl. by rewrite decode_encode. Qed.

#[local] Instance schema_eq : EqDecision ApplicationSchema.
Proof. solve_decision. Defined.
#[local] Instance schema_countable : Countable ApplicationSchema.
Proof.
  refine (inj_countable' (fun s => (as_input s, as_output s, as_common_data s))
    (fun '(a, b, c) => mkSchema a b c) _). by intros [].
Defined.

#[local] Instance session_eq : EqDecision SessionMetadata.
Proof. solve_decision. Defined.
#[local] Instance session_countable : Countable SessionMetadata.
Proof.
  refine (inj_countable
    (fun m => [encode (sm_id m); encode (sm_application m); encode (sm_version m); encode (sm_state m);
              encode (sm_creation_time m); encode (sm_completion_time m); encode (sm_min_instances m); encode (sm_max_instances m);
              encode (sm_batch_size m); encode (sm_priority m); encode (sm_common_data_len m); encode (sm_tokens m);
              encode (sm_resreq_cpu m); encode (sm_resreq_memory m); encode (sm_resreq_gpu m)])
    (fun l => match l with
      | [p1; p2; p3; p4; p5; p6; p7; p8; p9; p10; p11; p12; p13; p14; p15] =>
          x1 ← decode p1; x2 ← decode p2; x3 ← decode p3; x4 ← decode p4; x5 ← decode p5;
          x6 ← decode p6; x7 ← decode p7; x8 ← decode p8; x9 ← decode p9; x10 ← decode p10;
          x11 ← decode p11; x12 ← decode p12; x13 ← decode p13; x14 ← decode p14; x15 ← decode p15;
          Some (mkSsnMeta x1 x2 x3 x4 x5 x6 x7 x8 x9 x10 x11 x12 x13 x14 x15)
      | _ => None
      end) _).
  intros []. cbv beta iota. by rewrite !decode_encode.
Defined.

#[local] Instance application_eq : EqDecision ApplicationMetadata.
Proof. solve_decision. Defined.
#[local] Instance application_countable : Countable ApplicationMetadata.
Proof.
  refine (inj_countable
    (fun m => [encode (am_name m); encode (am_version m); encode (am_state m); encode (am_creation_time m);
              encode (am_shim m); encode (am_image m); encode (am_description m); encode (am_labels m);
              encode (am_command m); encode (am_arguments m); encode (am_environments m); encode (am_working_directory m);
              encode (am_max_instances m); encode (am_delay_release_seconds m); encode (am_schema m); encode (am_url m);
              encode (am_installer m)])
    (fun l => match l with
      | [p1; p2; p3; p4; p5; p6; p7; p8; p9; p10; p11; p12; p13; p14; p15; p16; p17] =>
          x1 ← decode p1; x2 ← decode p2; x3 ← decode p3; x4 ← decode p4; x5 ← decode p5;
          x6 ← decode p6; x7 ← decode p7; x8 ← decode p8; x9 ← decode p9; x10 ← decode p10;
          x11 ← decode p11; x12 ← decode p12; x13 ← decode p13; x14 ← decode p14; x15 ← decode p15;
          x16 ← decode p16; x17 ← decode p17;
          Some (mkAppMeta x1 x2 x3 x4 x5 x6 x7 x8 x9 x10 x11 x12 x13 x14 x15 x16 x17)
      | _ => None
      end) _).
  intros []. cbv beta iota. by rewrite !decode_encode.
Defined.

#[local] Instance node_eq : EqDecision NodeMetadata.
Proof. solve_decision. Defined.
#[local] Instance node_countable : Countable NodeMetadata.
Proof.
  refine (inj_countable
    (fun m => [encode (nm_name m); encode (nm_state m); encode (nm_capacity_cpu m); encode (nm_capacity_memory m);
              encode (nm_capacity_gpu m); encode (nm_allocatable_cpu m); encode (nm_allocatable_memory m); encode (nm_allocatable_gpu m);
              encode (nm_info_arch m); encode (nm_info_os m); encode (nm_creation_time m); encode (nm_last_heartbeat m)])
    (fun l => match l with
      | [p1; p2; p3; p4; p5; p6; p7; p8; p9; p10; p11; p12] =>
          x1 ← decode p1; x2 ← decode p2; x3 ← decode p3; x4 ← decode p4; x5 ← decode p5;
          x6 ← decode p6; x7 ← decode p7; x8 ← decode p8; x9 ← decode p9; x10 ← decode p10;
          x11 ← decode p11; x12 ← decode p12;
          Some (mkNodeMeta x1 x2 x3 x4 x5 x6 x7 x8 x9 x10 x11 x12)
      | _ => None
      end) _).
  intros []. cbv beta iota. by rewrite !decode_encode.
Defined.

#[local] Instance executor_eq : EqDecision ExecutorMetadata.
Proof. solve_decision. Defined.
#[local] Instance executor_countable : Countable ExecutorMetadata.
Proof.
  refine (inj_countable
    (fun m => [encode (em_id m); encode (em_node m); encode (em_application m); encode (em_resreq_cpu m);
              encode (em_resreq_memory m); encode (em_resreq_gpu m); encode (em_shim m); encode (em_task_id m);
              encode (em_ssn_id m); encode (em_creation_time m); encode (em_state m)])
    (fun l => match l with
      | [p1; p2; p3; p4; p5; p6; p7; p8; p9; p10; p11] =>
          x1 ← decode p1; x2 ← decode p2; x3 ← decode p3; x4 ← decode p4; x5 ← decode p5;
          x6 ← decode p6; x7 ← decode p7; x8 ← decode p8; x9 ← decode p9; x10 ← decode p10;
          x11 ← decode p11;
          Some (mkExecMeta x1 x2 x3 x4 x5 x6 x7 x8 x9 x10 x11)
      | _ => None
      end) _).
  intros []. cbv beta iota. by rewrite !decode_encode.
Defined.

(** The CRC-32 of [crc32fast]: the reflected polynomial, bit by bit. *)
Definition crc_bit (c : Z) : Z :=
  if Z.odd c then Z.lxor (Z.shiftr c 1) 0xEDB88320 else Z.shiftr c 1.
Definition crc_byte (c : Z) (b : ascii) : Z := Nat.iter 8 crc_bit (Z.lxor c (Z_of_byte b)).
Definition crc (b : bytes) : Z := Z.land (Z.lxor (foldl crc_byte 0xFFFFFFFF b) 0xFFFFFFFF) 0xFFFFFFFF.

Lemma crc_range b : is_u32 (crc b).
Proof.
  unfold crc. change 0xFFFFFFFF with (Z.ones 32). rewrite Z.land_ones by lia.
  match goal with |- is_u32 (?z mod _) => pose proof (Z.mod_pos_bound z (2 ^ 32)) end. width.
Qed.

Definition countable_json {A} `{Countable A} : Json A :=
  {| to_string_pretty := fun a => Some (to_bytes a); from_str := fun b => fst <$> of_bytes b |}.

Lemma countable_json_spec {A} `{Countable A} : @JsonSpec A countable_json.
Proof.
  split.
  - intros a. by eexists.
  - intros a b [= <-]. simpl. rewrite <-(app_nil_r (to_bytes a)). by rewrite of_to_bytes.
Qed.

Definition demo_postcard : Postcard :=
  {| to_allocvec := fun m => Some (LeCodec.encode_task m); take_from_bytes := LeCodec.decode_task;
     keys_to_allocvec := fun l => Some (to_bytes l); keys_take_from_bytes := of_bytes |}.

(** Times are seconds, durations nanoseconds. *)
Definition demo_crates : Crates :=
  {| postcard := demo_postcard; json_session := countable_json; json_application := countable_json;
     json_node := countable_json; json_executor := countable_json; crc32 := crc;
     timestamp := wrap_i64; from_timestamp := fun n => if bool_decide (wrap_i64 n = n) then Some n else None;
     num_seconds := fun d => Z.quot d 1000000000; duration_seconds := fun n => n * 1000000000;
     fs_utc_now := fun n => 1000 + Z.of_nat n |}.

#[local] Existing Instance demo_crates.

Lemma wrap_i64_idemp z : wrap_i64 (wrap_i64 z) = wrap_i64 z.
Proof.
  unfold wrap_i64. rewrite Z.sub_add, Z.mod_mod by lia. done.
Qed.

Lemma demo_postcard_spec : @PostcardSpec demo_postcard.
Proof.
  split; simpl.
  - eauto.
  - intros m b rest Hm [= <-]. by apply LeCodec.decode_encode.
  - intros m m' b b' _ _ [= <-] [= <-].
    pose proof (LeCodec.encode_length m). pose proof (LeCodec.encode_length m'). unfold len in *. lia.
  - intros m b _ [= <-]. by eexists.
  - intros b m rest Hd. by eapply LeCodec.decode_task_ok.
  - intros b m rest Hd. by eapply LeCodec.decode_task_ok.
  - eauto.
  - intros l b rest [= <-]. apply of_to_bytes.
  - intros l b [= <-]. unfold to_bytes. by destruct (encode l).
Qed.

#[export] Instance demo_crates_spec : @CratesSpec demo_crates.
Proof.
  split; try apply countable_json_spec.
  - apply demo_postcard_spec.
  - apply crc_range.
  - apply LeCodec.signed_range.
  - intros z. simpl. rewrite bool_decide_true by apply wrap_i64_idemp. eauto.
  - intros n z. simpl. case_bool_decide; [|done]. by intros [= <-].
Qed.
End CountableCodec.

(** ** Disks *)

(** Directories are listed in the order of their elements; the calls in [faults]
    fail, with the effect given. *)
Definition demo_disk (faults : list (nat * nat)) : Disk := {|
  io_fault n := snd <$> find (fun f => Nat.eqb (fst f) n) faults;
  io_keeps _ _ := true;
  dir_order names := elements names;
  dir_order_perm names := reflexivity _ |}.
