(* ===== verification/FsInv.v ===== *)
(** * The filesystem engine keeps the contract of engines

    The registry files every session under its own identifier.  On the engines
    with that property, which every operation preserves whatever calls fail,
    the contract [EngineSpec] holds: what is proved of the storage and of the
    controller for every engine holds on top of the filesystem. *)
From S2P Require Import Prelude Types Session Filters Engine Codes FsDisk FsRecord FsEngine.
Import FilesystemEngine.
Local Open Scope Z_scope.

(** ** Operations away from the sessions

    What holds of the engine and depends only on the session registry and on
    what lies below [sessions] is kept by the operations on applications, nodes
    and executors. *)

Definition off_sessions (p : path) : Prop := head p <> Some "sessions"%string.

Record frame `{Disk} `{Crates} (P : t -> Prop) : Prop := {
  fr_read : forall p, keeps P (sys (read p));
  fr_read_dir : forall p, keeps P (sys (read_dir p));
  fr_create_dir_all : forall p, keeps P (sys (create_dir_all p));
  fr_write : forall p data, off_sessions p -> keeps P (sys (write p data));
  fr_rename : forall p q, off_sessions p -> off_sessions q -> keeps P (sys (rename p q));
  fr_remove : forall p, p <> [] -> off_sessions p -> keeps P (sys (remove_dir_all p));
  fr_now : keeps P now;
  fr_modify : forall f, (forall e, fe_sessions (f e) = fe_sessions e /\ fe_fs (f e) = fe_fs e) ->
    keeps P (modify f)
}.

Section frames.
Context `{Disk} `{Crates} `{Env}.
Variable P : t -> Prop.
Hypothesis HP : frame P.

Lemma frame_or_storage {A} (m : M Fs (io A)) : keeps P (sys m) -> keeps P (or_storage m).
Proof. intros Hm. unfold or_storage. keeps_step; [done|keeps_tac]. Qed.
Lemma frame_remove_dir p : p <> [] -> off_sessions p -> keeps P (remove_dir p).
Proof. intros. unfold remove_dir. keeps_step; [by apply (fr_remove P HP)|keeps_tac]. Qed.
Lemma frame_read_metadata {A} `{Json A} dir : keeps P (read_metadata (A := A) dir).
Proof.
  unfold read_metadata, or_not_found. keeps_step; [|keeps_tac].
  keeps_step; [apply (fr_read P HP)|keeps_tac].
Qed.
Lemma frame_write_metadata {A} `{Json A} dir (m : A) : dir <> [] -> off_sessions dir ->
  keeps P (or_storage (create_dir_all dir) ≫= fun _ => write_metadata dir m).
Proof.
  intros Hne Hd. assert (Hoff : forall f, off_sessions (dir ++ [f])) by (intros; by destruct dir).
  keeps_step; [apply frame_or_storage, (fr_create_dir_all P HP)|]. unfold write_metadata.
  keeps_step; [by eauto with flame|]. keeps_step; [by apply frame_or_storage, (fr_write P HP)|].
  by apply frame_or_storage, (fr_rename P HP).
Qed.
Lemma frame_entries :
  (forall name, keeps P (application_entry name)) /\ (forall name, keeps P (node_entry name)) /\
  (forall id, keeps P (executor_entry id)).
Proof. unfold application_entry, node_entry, executor_entry. split_and!; intros; keeps_tac. Qed.
Lemma frame_entities :
  (forall name m, keeps P (write_application_metadata name m)) /\
  (forall name m, keeps P (write_node_metadata name m)) /\
  (forall node id m, keeps P (write_executor_metadata node id m)).
Proof. split_and!; intros; by apply frame_write_metadata. Qed.

Lemma frame_list_sessions f : keeps P (list_sessions_metadata f).
Proof.
  unfold list_sessions_metadata. keeps_step; [by eauto with flame|]. keeps_step; [apply (fr_read_dir P HP)|].
  destruct a as [l|[]]; [|by eauto with flame..]. generalize (@nil (string * SessionMetadata)).
  induction l as [|id l IH]; intros acc; simpl; [by eauto with flame|].
  keeps_step; [apply frame_read_metadata|]. keeps_tac.
Qed.

Hint Extern 2 (keeps P (modify _)) => by apply (fr_modify P HP) : flame.
Hint Extern 1 (keeps P now) => apply (fr_now P HP) : flame.
Hint Extern 1 (keeps P (or_storage (remove_dir_all _))) => by apply frame_or_storage, (fr_remove P HP) : flame.
Hint Extern 1 (keeps P (remove_dir _)) => by apply frame_remove_dir : flame.
Hint Resolve frame_list_sessions : flame.

Lemma frame_applications :
  (forall name attr now, keeps P (register_application name attr now)) /\
  (forall name st, keeps P (update_application_state name st)) /\
  (forall name, keeps P (delete_application name)) /\
  (forall name attr, keeps P (update_application name attr)) /\
  (forall name, keeps P (get_application name)) /\
  (forall f, keeps P (find_applications f)).
Proof.
  destruct frame_entities as (Hw & _ & _). destruct frame_entries as (He & _ & _).
  assert (forall name, keeps P (get_application name)) as Hg by (intros; unfold get_application; keeps_tac).
  split_and!; try done; intros.
  - unfold register_application, put_application, remove_application. keeps_tac.
  - unfold update_application_state, put_application. keeps_tac.
  - unfold delete_application, remove_application. keeps_tac.
  - unfold update_application, put_application. keeps_tac.
  - unfold find_applications. keeps_step; [by eauto with flame|].
    induction a as [|name l IH]; simpl; [by eauto with flame|].
    keeps_step; [by apply keeps_attempt|]. keeps_tac.
Qed.

Lemma frame_nodes :
  (forall n, keeps P (create_node n)) /\ (forall name, keeps P (get_node name)) /\
  (forall n, keeps P (update_node n)) /\ (forall name, keeps P (delete_node name)) /\
  keeps P find_nodes.
Proof.
  destruct frame_entities as (_ & Hw & _). destruct frame_entries as (_ & He & _). split_and!; intros.
  - unfold create_node, put_node, remove_node. keeps_tac.
  - unfold get_node. keeps_tac.
  - unfold update_node, put_node. keeps_tac.
  - unfold delete_node, remove_node. keeps_tac.
  - unfold find_nodes. keeps_step; [by eauto with flame|].
    induction a as [|x l IH]; simpl; unfold get_node; keeps_tac.
Qed.

Lemma frame_executors :
  (forall x, keeps P (create_executor x)) /\ (forall id, keeps P (get_executor id)) /\
  (forall x, keeps P (update_executor x)) /\ (forall id st, keeps P (update_executor_state id st)) /\
  (forall id, keeps P (delete_executor id)) /\ (forall n, keeps P (find_executors n)).
Proof.
  destruct frame_entities as (_ & _ & Hw). destruct frame_entries as (_ & Hn & Hx).
  assert (forall x m o, keeps P (persist_executor x m o)) as Hp by (intros; unfold persist_executor; keeps_tac).
  assert (forall id, keeps P (get_executor id)) as Hg by (intros; unfold get_executor; keeps_tac).
  split_and!; try done; intros.
  - unfold create_executor, put_executor, remove_executor. keeps_tac.
  - unfold update_executor, put_executor. keeps_tac.
  - unfold update_executor_state, put_executor. keeps_tac.
  - unfold delete_executor, remove_executor. keeps_tac.
  - unfold find_executors. keeps_step; [by eauto with flame|].
    induction a as [|x l IH]; simpl; keeps_tac.
Qed.
End frames.

(** ** A registered application *)

Section applications.
Context `{Disk} `{Crates}.

Lemma keeps_sys_applications {A} (Q : gmap string ApplicationMetadata -> Prop) (m : M Fs A) :
  keeps (fun e => Q (fe_applications e)) (sys m).
Proof. intros e He. unfold sys, zoom. by destruct (m (fe_fs e)). Qed.

Lemma register_application_kept name attr now e app e' :
  register_application name attr now e = (Ok app, e') ->
  application_from_metadata (application_metadata name 1 (i32_of_application_state AppEnabled) (timestamp now) attr) = Ok app /\
  (get_application name e').1 = Ok app.
Proof.
  unfold register_application. set (meta := application_metadata _ _ _ _ _).
  intros (app0 & e0 & Hl & Hr)%bind_inv_Ok. unfold lift in Hl. injection Hl as Happ <-.
  apply bind_inv_Ok in Hr as (existing & e1 & [= <- <-] & Hr).
  destruct (fe_applications e !! name); [done|].
  apply bind_inv_Ok in Hr as ([] & e2 & [= <-] & Hr). apply bind_inv_Ok in Hr as (r & e3 & Hw & Hr).
  pose (P := fun e => fe_applications e !! name = Some meta).
  assert (Hkeep : keeps P (attempt (write_application_metadata name meta))).
  { apply keeps_attempt. unfold write_application_metadata, write_metadata, or_storage.
    repeat (keeps_step; try apply (keeps_sys_applications (fun apps => apps !! name = Some meta))). }
  specialize (Hkeep (with_applications (<[name := meta]> (fe_applications e)) e) (lookup_insert_eq _ _ _)).
  rewrite Hw in Hkeep. destruct r; try done. injection Hr as <- <-. split; [done|].
  unfold get_application, application_entry, mbind, M_bind, gets, lift. simpl in Hkeep. unfold P in Hkeep.
  by rewrite Hkeep.
Qed.
End applications.

Section ids.
Context `{Disk} `{Crates} `{Env}.

Definition ids_ok (e : t) : Prop :=
  forall id x, fe_sessions e !! id = Some x -> sm_id (se_metadata x) = id.

Lemma ids_sys {A} (m : M Fs A) : keeps ids_ok (sys m).
Proof. apply keeps_zoom. by intros e fs. Qed.
Lemma ids_or_storage {A} (m : M Fs (io A)) : keeps ids_ok (or_storage m).
Proof. unfold or_storage. keeps_step; [apply ids_sys|keeps_tac]. Qed.
Lemma ids_or_not_found {A} (m : M Fs (io A)) : keeps ids_ok (or_not_found m).
Proof. unfold or_not_found. keeps_step; [apply ids_sys|keeps_tac]. Qed.
Lemma ids_remove_dir p : keeps ids_ok (remove_dir p).
Proof. unfold remove_dir. keeps_step; [apply ids_sys|keeps_tac]. Qed.
Lemma ids_now : keeps ids_ok now.
Proof. by intros e He. Qed.
Lemma ids_modify f : (forall e, fe_sessions (f e) = fe_sessions e) -> keeps ids_ok (modify f).
Proof. intros Hf. apply keeps_modify. intros e He id x. rewrite Hf. apply He. Qed.
Lemma ids_put_session id x : sm_id (se_metadata x) = id -> keeps ids_ok (put_session id x).
Proof.
  intros Hx. apply keeps_modify. intros e He id' x'. simpl.
  intros [[<- <-]|[_ ?]]%lookup_insert_Some; [done|by apply He].
Qed.
Lemma spec_session_entry id :
  spec ids_ok (session_entry id) (fun x => sm_id (se_metadata x) = id).
Proof.
  intros e He. split; [done|]. intros x. unfold session_entry, mbind, M_bind, gets, lift. simpl.
  destruct (fe_sessions e !! id) as [y|] eqn:Hy; [|done]. intros [= <-]. by apply He.
Qed.
Lemma ids_session_entry id : keeps ids_ok (session_entry id).
Proof. eapply spec_keeps, spec_session_entry. Qed.
Lemma ids_application_entry name : keeps ids_ok (application_entry name).
Proof. unfold application_entry. keeps_tac. Qed.
Lemma ids_node_entry name : keeps ids_ok (node_entry name).
Proof. unfold node_entry. keeps_tac. Qed.
Lemma ids_executor_entry id : keeps ids_ok (executor_entry id).
Proof. unfold executor_entry. keeps_tac. Qed.
End ids.
#[export] Hint Resolve ids_sys ids_or_storage ids_or_not_found ids_remove_dir ids_now ids_session_entry
  ids_application_entry ids_node_entry ids_executor_entry : flame.
#[export] Hint Extern 2 (keeps ids_ok (modify _)) => by apply ids_modify : flame.

Section ids_ops.
Context `{Disk} `{Crates} `{Env}.

Lemma ids_read_metadata {A} `{Json A} dir : keeps ids_ok (read_metadata (A := A) dir).
Proof. unfold read_metadata. keeps_tac. Qed.
Lemma ids_write_metadata {A} `{Json A} dir (m : A) : keeps ids_ok (write_metadata dir m).
Proof. unfold write_metadata. keeps_tac. Qed.
Hint Resolve ids_read_metadata ids_write_metadata : flame.

Lemma ids_payload_open p create : keeps ids_ok (payload_open p create).
Proof. unfold payload_open. keeps_tac. Qed.
Hint Resolve ids_payload_open : flame.

Lemma ids_part id p : keeps ids_ok (part id p).
Proof.
  unfold part. eapply spec_bind_keeps; [apply spec_session_entry|]. intros x Hx.
  keeps_step; [by eauto with flame|]. keeps_step; [by eauto with flame|].
  keeps_step; [by eauto with flame|]. keeps_step; [by apply ids_put_session|by eauto with flame].
Qed.
Lemma ids_write_part id p data offset : keeps ids_ok (write_part id p data offset).
Proof. unfold write_part. keeps_tac. Qed.
Hint Resolve ids_part ids_write_part : flame.

Lemma ids_append_data id p data : keeps ids_ok (append_data id p data).
Proof.
  unfold append_data. keeps_step; [by eauto with flame|]. keeps_step; [by eauto with flame|].
  eapply spec_bind_keeps; [apply spec_session_entry|]. intros x Hx.
  keeps_step; [by apply ids_put_session|keeps_tac].
Qed.
Lemma ids_read_data id p offset n : keeps ids_ok (read_data id p offset n).
Proof. unfold read_data. keeps_tac. Qed.
Lemma ids_read_task_record id n : keeps ids_ok (read_task_record id n).
Proof.
  unfold read_task_record. keeps_step; [by eauto with flame|].
  keeps_step; [by apply keeps_attempt; eauto with flame|keeps_tac].
Qed.
Lemma ids_write_task_metadata id m : keeps ids_ok (write_task_metadata id m).
Proof. unfold write_task_metadata. keeps_tac. Qed.
Lemma ids_commit_task id m : keeps ids_ok (commit_task id m).
Proof. unfold commit_task. keeps_tac. Qed.
Hint Resolve ids_append_data ids_read_data ids_read_task_record ids_write_task_metadata ids_commit_task : flame.

Lemma ids_update_task id n op : keeps ids_ok (update_task id n op).
Proof. unfold update_task. keeps_tac. Qed.
Lemma ids_count_states id states l n : keeps ids_ok (count_states id states l n).
Proof. revert n. induction l as [|x l IH]; simpl; intros; keeps_tac. Qed.
Lemma ids_payload id p offset n : keeps ids_ok (payload id p offset n).
Proof. unfold payload. keeps_tac. Qed.
Hint Resolve ids_update_task ids_count_states ids_payload : flame.

Lemma ids_count_task f : keeps ids_ok (count_task f).
Proof. unfold count_task, task_count. keeps_tac. Qed.
Lemma ids_task_from_metadata id m : keeps ids_ok (task_from_metadata id m).
Proof. unfold task_from_metadata. keeps_tac. Qed.
Lemma ids_session_from_metadata m : keeps ids_ok (session_from_metadata m).
Proof. unfold session_from_metadata, read_common_data. keeps_tac. Qed.
Lemma ids_list_sessions f : keeps ids_ok (list_sessions_metadata f).
Proof.
  unfold list_sessions_metadata. keeps_step; [by eauto with flame|]. keeps_step; [by eauto with flame|].
  destruct a as [l|[]]; [|by eauto with flame..]. generalize (@nil (string * SessionMetadata)).
  induction l as [|id l IH]; intros acc; simpl; [by eauto with flame|].
  keeps_step; [unfold read_session_metadata; by eauto with flame|]. keeps_tac.
Qed.
Lemma ids_release id : keeps ids_ok (release id).
Proof.
  unfold release. eapply spec_bind_keeps; [apply spec_session_entry|]. intros x Hx.
  keeps_step; [by apply ids_put_session|by eauto with flame].
Qed.
Lemma ids_commit_session id x m : sm_id m = id -> keeps ids_ok (commit_session_metadata id x m).
Proof.
  intros Hm. unfold commit_session_metadata, write_session_metadata. keeps_step; [by eauto with flame|].
  keeps_step; [by apply ids_put_session|by eauto with flame].
Qed.
End ids_ops.
#[export] Hint Resolve ids_read_metadata ids_write_metadata ids_append_data ids_read_data
  ids_read_task_record ids_commit_task ids_update_task ids_count_states ids_payload ids_count_task
  ids_task_from_metadata ids_session_from_metadata ids_list_sessions ids_release : flame.

Section ids_engine.
Context `{Disk} `{Crates} `{Env}.

Lemma ids_frame : frame ids_ok.
Proof.
  split; intros; try apply ids_sys; [apply ids_now|apply ids_modify]. intros e. by destruct (H2 e).
Qed.

Lemma ids_create_session attr now : keeps ids_ok (create_session attr now).
Proof.
  unfold create_session, write_common_data, write_session_metadata, read_session_metadata.
  keeps_step; [by eauto with flame|]. keeps_step; [by apply keeps_attempt; eauto with flame|].
  keeps_tac. apply keeps_modify. intros e He id x. destruct (fe_sessions e !! sa_id attr) eqn:Hx; [by apply He|].
  simpl. intros [[<- <-]|[_ ?]]%lookup_insert_Some; [done|by apply He].
Qed.

Lemma ids_get_session id : keeps ids_ok (get_session id).
Proof. unfold get_session. keeps_tac. Qed.

Lemma ids_open_session id spc now : keeps ids_ok (open_session id spc now).
Proof.
  unfold open_session. keeps_step; [apply keeps_attempt, ids_get_session|].
  destruct a as [s|[]|]; keeps_tac. apply ids_create_session.
Qed.

Lemma ids_close_scan id l : keeps ids_ok (close_scan id l).
Proof. induction l as [|x l IH]; simpl; keeps_tac. Qed.

Lemma ids_close_session id now : keeps ids_ok (close_session id now).
Proof.
  unfold close_session. keeps_step; [by eauto with flame|]. keeps_step; [keeps_tac|].
  keeps_step; [by eauto with flame|]. keeps_step; [apply ids_close_scan|].
  keeps_step; [apply keeps_for_each; intros; unfold update_task_state_; keeps_tac|].
  eapply spec_bind_keeps; [apply spec_session_entry|]. intros x Hx.
  keeps_step; [by apply ids_commit_session|keeps_tac].
Qed.

Lemma ids_update_session_state id st : keeps ids_ok (update_session_state id st).
Proof.
  unfold update_session_state. eapply spec_bind_keeps; [apply spec_session_entry|]. intros x Hx.
  keeps_step; [by eauto with flame|]. keeps_step; [by apply ids_commit_session|keeps_tac].
Qed.

Lemma ids_delete_session id : keeps ids_ok (delete_session id).
Proof.
  unfold delete_session. keeps_tac. apply keeps_modify. intros e He id' x. simpl.
  intros [_ ?]%lookup_delete_Some. by apply He.
Qed.

Lemma ids_find_sessions : keeps ids_ok find_sessions.
Proof.
  unfold find_sessions. keeps_step; [by eauto with flame|].
  induction a as [|x l IH]; simpl; keeps_tac.
Qed.

Lemma ids_tasks :
  (forall ssn i o now, keeps ids_ok (create_task ssn i o now)) /\ (forall g, keeps ids_ok (get_task g)) /\
  (forall g, keeps ids_ok (retry_task g)) /\ (forall g st msg now, keeps ids_ok (update_task_state g st msg now)) /\
  (forall g r now, keeps ids_ok (update_task_result g r now)) /\ (forall ssn, keeps ids_ok (find_tasks ssn)).
Proof.
  split_and!; intros.
  - unfold create_task, not_closed. keeps_tac.
  - unfold get_task. keeps_tac.
  - unfold retry_task. keeps_tac.
  - unfold update_task_state, update_task_state_, not_closed. keeps_tac.
  - unfold update_task_result, not_closed. keeps_tac.
  - unfold find_tasks. keeps_step; [by eauto with flame|]. keeps_step; [by eauto with flame|].
    generalize (task_ids a0). intros l. induction l as [|x l IH]; simpl; [by eauto with flame|].
    keeps_step; [by apply keeps_attempt; keeps_tac|keeps_tac].
Qed.

End ids_engine.

(** ** What the operations return *)

(** A step whose result does not matter. *)
Ltac spec_skip :=
  apply (spec_bind _ _ _ (fun _ => True)); [apply keeps_spec; try solve [keeps_tac]|intros ? _].

Section returned.
Context `{Disk} `{Crates} `{Env}.

Lemma spec_session_from_metadata m :
  spec ids_ok (session_from_metadata m) (fun s =>
    ssn_id s = sm_id m /\ ssn_application s = sm_application m /\
    session_state_try_from (sm_state m) = Ok (ssn_state s) /\ ssn_tasks s = ∅ /\ ssn_tasks_index s = ∅ /\
    ssn_tokens s = sm_tokens m /\ ssn_batch_size s = sm_batch_size m /\
    ssn_resreq s = resreq_from (sm_resreq_cpu m) (sm_resreq_memory m) (sm_resreq_gpu m)).
Proof.
  unfold session_from_metadata.
  apply (spec_bind _ _ _ (fun st => session_state_try_from (sm_state m) = Ok st)); [by apply spec_lift|].
  intros st Hst. apply (spec_bind _ _ _ (fun _ => True)); [apply keeps_spec; unfold read_common_data; keeps_tac|].
  intros cd _. apply (spec_bind _ _ _ (fun _ => True)); [by apply spec_lift|].
  intros ct _. by apply spec_ret.
Qed.

Lemma spec_task_from_metadata id m :
  spec ids_ok (task_from_metadata id m) (fun t =>
    task_ssn_id t = id /\ task_state_try_from (tm_state m) = Ok (task_state t)).
Proof.
  unfold task_from_metadata. do 3 (apply (spec_bind _ _ _ (fun _ => True)); [apply keeps_spec; keeps_tac|];
    intros ? _). apply (spec_bind _ _ _ _ _ (spec_session_entry id)).
  intros x Hx. apply spec_lift. intros t. unfold task_with_data.
  destruct (task_state_try_from (tm_state m)) as [st|e|]; [|done..]. simpl.
  destruct (from_timestamp (tm_creation_time m)); [|done]. simpl. intros [= <-]. by split.
Qed.

(** The record a task update leaves has the state the update gives it. *)
Lemma spec_update_task id n op st :
  (forall m, tm_state (op m) = st) -> spec ids_ok (update_task id n op) (fun m => tm_state m = st).
Proof.
  intros Hop. unfold update_task. apply (spec_bind _ _ _ (fun _ => True)); [apply keeps_spec; keeps_tac|].
  intros m _. apply (spec_bind _ _ _ (fun _ => True)); [apply keeps_spec, ids_write_task_metadata|].
  intros _ _. apply spec_ret. apply Hop.
Qed.

Lemma spec_updated g st op :
  (forall m, tm_state (op m) = i32_of_task_state st) ->
  spec ids_ok (meta ← update_task (gid_ssn_id g) (gid_task_id g) op;
               task_from_metadata (gid_ssn_id g) meta)
    (fun t => task_ssn_id t = gid_ssn_id g /\ task_state t = st).
Proof.
  intros Hop. apply (spec_bind _ _ _ _ _ (spec_update_task _ _ _ _ Hop)). intros meta Hmeta.
  eapply spec_weaken; [apply spec_task_from_metadata|]. intros t [Ht Hst].
  split; [done|]. rewrite Hmeta, task_state_code_inv in Hst. by injection Hst as <-.
Qed.

Lemma spec_throw {A} (P : t -> Prop) e (Q : A -> Prop) : spec P (throw e) Q.
Proof. intros s Hs. by split. Qed.

Lemma spec_create_session attr now : spec ids_ok (create_session attr now) (session_made attr).
Proof.
  unfold create_session. destruct (String.eqb _ _); [apply spec_throw|].
  spec_skip. destruct (is_ok _); [apply spec_throw|].
  do 6 spec_skip.
  apply (spec_bind _ _ _ _ _ (spec_session_from_metadata _)). intros ssn (Hid & Happ & Hst & Ht & Hi & Hto & Hb & Hr).
  apply (spec_bind _ _ _ (fun _ => True)); [apply keeps_spec|intros _ _; apply spec_ret; split; try done].
  - apply keeps_modify. intros e He id x. destruct (fe_sessions e !! sa_id attr) eqn:Hx; [by apply He|].
    simpl. intros [[<- <-]|[_ ?]]%lookup_insert_Some; [done|by apply He].
  - by injection Hst.
  - rewrite Hr. simpl. by destruct (sa_resreq attr) as [[]|].
Qed.

Lemma spec_open_session id spc now :
  spec ids_ok (open_session id spc now) (fun s => ssn_tasks s = ∅ /\ ssn_tasks_index s = ∅).
Proof.
  unfold open_session.
  apply (spec_bind _ _ _ (fun r => forall s, r = Ok s -> ssn_tasks s = ∅ /\ ssn_tasks_index s = ∅)).
  - intros e He. assert (spec ids_ok (get_session id) (fun s => ssn_tasks s = ∅ /\ ssn_tasks_index s = ∅)) as Hg.
    { apply (spec_bind _ _ _ _ _ (spec_session_entry id)). intros x _.
      eapply spec_weaken; [apply spec_session_from_metadata|]. by intros s (_ & _ & _ & Ht & Hi & _). }
    destruct (Hg e He) as [H1' H2']. unfold attempt.
    destruct (get_session id e) as [[s|err|] e']; simpl in *; (split; [done|]); intros r [= <-] s' [= <-]; auto.
  - intros r Hr. destruct r as [s|[]|]; try apply spec_throw.
    + destruct (negb _); [apply spec_throw|]. spec_skip. apply spec_ret. auto.
    + destruct spc as [attr|]; [|apply spec_throw].
      eapply spec_weaken; [apply spec_create_session|]. intros s Hs. split; apply Hs.
    + intros e He. by split.
Qed.

Lemma release_eval id e x :
  fe_sessions e !! id = Some x ->
  release id e = (Ok (release_files x), with_sessions (<[id := release_files x]> (fe_sessions e)) e).
Proof.
  intros Hx. unfold release, session_entry, mbind, M_bind, gets, lift. by rewrite Hx.
Qed.

(** The end of a close: the session returned is the closed one. *)
Lemma wp_release_closed id e x :
  ids_ok e -> fe_sessions e !! id = Some x -> entry_is_closed x = true ->
  wp (entry ← release id; session_from_metadata (se_metadata entry))
    (fun r _ => forall s, r = Ok s -> ssn_state s = SsnClosed) e.
Proof.
  intros He Hx Hc. apply wp_bind. unfold wp at 1. rewrite (release_eval id e x Hx).
  eapply wp_mono; [apply (wp_spec ids_ok); [apply spec_session_from_metadata|]|].
  - intros id' x'. simpl. intros [[<- <-]|[_ ?]]%lookup_insert_Some; [by apply (He id x)|by apply He].
  - intros r e' [_ Hr] s ->. destruct (Hr s eq_refl) as (_ & _ & Hst & _).
    apply session_state_try_from_inv in Hst. unfold entry_is_closed in Hc.
    apply i32_of_session_state_inj. rewrite <-Hst. by apply Z.eqb_eq.
Qed.

Lemma spec_close_session id now :
  spec ids_ok (close_session id now) (fun s => ssn_state s = SsnClosed).
Proof.
  intros e He. split; [by apply ids_close_session|].
  enough (wp (close_session id now) (fun r _ => forall s, r = Ok s -> ssn_state s = SsnClosed) e) as Hwp.
  { intros s Hs. unfold wp in Hwp. destruct (close_session id now e). by apply Hwp. }
  unfold close_session. apply wp_bind. unfold session_entry at 1. apply wp_bind, wp_gets, wp_lift.
  destruct (fe_sessions e !! id) as [x|] eqn:Hx; simpl; [|done].
  destruct (entry_is_closed x) eqn:Hc; [by eapply wp_release_closed|].
  apply wp_bind. eapply wp_mono; [by apply (wp_keeps ids_ok), He; apply ids_count_task|].
  intros [n|err|] e1 He1; [|done..]. apply wp_bind.
  eapply wp_mono; [apply (wp_keeps ids_ok); [apply ids_close_scan|done]|].
  intros [pending|err|] e2 He2; [|done..]. apply wp_bind.
  eapply wp_mono; [apply (wp_keeps ids_ok); [|done]|].
  { apply keeps_for_each. intros. unfold update_task_state_. keeps_tac. }
  intros [u|err|] e3 He3; [|done..]. apply wp_bind.
  eapply wp_mono; [apply (wp_spec ids_ok); [apply spec_session_entry|done]|].
  intros [y|err|] e4 [He4 Hy]; [|done..]. specialize (Hy y eq_refl). apply wp_bind.
  unfold commit_session_metadata at 1. apply wp_bind.
  eapply wp_mono; [apply (wp_keeps ids_ok); [apply ids_write_metadata|done]|].
  intros [u'|err|] e5 He5; [|done..]. apply wp_bind, wp_modify, wp_ret.
  eapply wp_release_closed.
  - intros id' x'. simpl. intros [[<- <-]|[_ ?]]%lookup_insert_Some; [done|by apply He5].
  - simpl. by rewrite lookup_insert_eq.
  - done.
Qed.

Lemma spec_find_sessions :
  spec ids_ok find_sessions (Forall (fun s => index_wf s /\ ssn_tasks s = ∅)).
Proof.
  unfold find_sessions. spec_skip. induction a as [|x l IH]; simpl; [by apply spec_ret|].
  apply (spec_bind _ _ _ _ _ (spec_session_from_metadata _)). intros s (_ & _ & _ & Ht & Hi & _).
  apply (spec_bind _ _ _ _ _ IH). intros rest Hrest. apply spec_ret. constructor; [|done].
  split; [by apply no_tasks_wf|done].
Qed.

Lemma spec_attempt {A} (P : t -> Prop) (m : M t A) (Q : A -> Prop) :
  spec P m Q -> spec P (attempt m) (fun r => forall a, r = Ok a -> Q a).
Proof.
  intros Hm e He. destruct (Hm e He) as [H1' H2']. unfold attempt.
  destruct (m e) as [[a|err|] e']; simpl in *; (split; [done|]); intros r [= <-] a' [= <-]; auto.
Qed.

Lemma spec_find_tasks ssn :
  spec ids_ok (find_tasks ssn) (Forall (fun t => task_ssn_id t = ssn)).
Proof.
  unfold find_tasks. do 2 spec_skip. generalize (task_ids a0). intros l.
  induction l as [|x l IH]; simpl; [by apply spec_ret|].
  apply (spec_bind _ _ _ (fun r => forall t, r = Ok t -> task_ssn_id t = ssn)).
  - apply spec_attempt. spec_skip. eapply spec_weaken; [apply spec_task_from_metadata|]. by intros t [Ht _].
  - intros r Hr. apply (spec_bind _ _ _ _ _ IH). intros rest Hrest. apply spec_ret.
    destruct r; [constructor; auto|done..].
Qed.

Lemma spec_create_task ssn i o now :
  spec ids_ok (create_task ssn i o now) (fun t => task_ssn_id t = ssn).
Proof.
  unfold create_task. spec_skip; [unfold not_closed; keeps_tac|]. do 3 spec_skip.
  apply spec_lift. intros t. unfold task_with_data.
  destruct (task_state_try_from _); [|done..]. simpl. destruct (from_timestamp (tm_creation_time _)); [|done].
  by intros [= <-].
Qed.
End returned.

(** ** The contract *)

Section contract.
Context `{Disk} `{Crates} `{Env}.

Record checked := mkChecked { raw : t; raw_ids : ids_ok raw }.

Definition checked_op {A} (m : M t A) (Hm : keeps ids_ok m) : M checked A := fun e =>
  ((m (raw e)).1, mkChecked (m (raw e)).2 (Hm _ (raw_ids e))).

Lemma checked_op_spec {A} (m : M t A) Hm (Q : A -> Prop) e a e' :
  spec ids_ok m Q -> checked_op m Hm e = (Ok a, e') -> Q a.
Proof. intros Hq [= Ha _]. by apply (Hq (raw e) (raw_ids e)). Qed.

Ltac by_ids := first [apply (frame_applications _ ids_frame) | apply ids_create_session | apply ids_get_session
  | apply ids_open_session | apply ids_close_session | apply ids_update_session_state
  | apply ids_delete_session | apply ids_find_sessions | apply ids_tasks | apply (frame_nodes _ ids_frame)
  | apply (frame_executors _ ids_frame)].

#[export] Instance checked_engine : Engine checked := {
  Engine.register_application := fun name attr now => checked_op (register_application name attr now) ltac:(by_ids);
  Engine.update_application_state := fun name st => checked_op (update_application_state name st) ltac:(by_ids);
  Engine.delete_application := fun name => checked_op (delete_application name) ltac:(by_ids);
  Engine.update_application := fun name attr => checked_op (update_application name attr) ltac:(by_ids);
  Engine.get_application := fun name => checked_op (get_application name) ltac:(by_ids);
  Engine.find_applications := fun f => checked_op (find_applications f) ltac:(by_ids);
  Engine.create_session := fun attr now => checked_op (create_session attr now) ltac:(by_ids);
  Engine.get_session := fun id => checked_op (get_session id) ltac:(by_ids);
  Engine.open_session := fun id spc now => checked_op (open_session id spc now) ltac:(by_ids);
  Engine.close_session := fun id now => checked_op (close_session id now) ltac:(by_ids);
  Engine.update_session_state := fun id st => checked_op (update_session_state id st) ltac:(by_ids);
  Engine.delete_session := fun id => checked_op (delete_session id) ltac:(by_ids);
  Engine.find_sessions := checked_op (find_sessions) ltac:(by_ids);
  Engine.create_task := fun ssn i o now => checked_op (create_task ssn i o now) ltac:(by_ids);
  Engine.get_task := fun g => checked_op (get_task g) ltac:(by_ids);
  Engine.retry_task := fun g => checked_op (retry_task g) ltac:(by_ids);
  Engine.update_task_state := fun g st msg now => checked_op (update_task_state g st msg now) ltac:(by_ids);
  Engine.update_task_result := fun g r now => checked_op (update_task_result g r now) ltac:(by_ids);
  Engine.find_tasks := fun ssn => checked_op (find_tasks ssn) ltac:(by_ids);
  Engine.create_node := fun n => checked_op (create_node n) ltac:(by_ids);
  Engine.get_node := fun name => checked_op (get_node name) ltac:(by_ids);
  Engine.update_node := fun n => checked_op (update_node n) ltac:(by_ids);
  Engine.delete_node := fun name => checked_op (delete_node name) ltac:(by_ids);
  Engine.find_nodes := checked_op (find_nodes) ltac:(by_ids);
  Engine.create_executor := fun x => checked_op (create_executor x) ltac:(by_ids);
  Engine.get_executor := fun id => checked_op (get_executor id) ltac:(by_ids);
  Engine.update_executor := fun x => checked_op (update_executor x) ltac:(by_ids);
  Engine.update_executor_state := fun id st => checked_op (update_executor_state id st) ltac:(by_ids);
  Engine.delete_executor := fun id => checked_op (delete_executor id) ltac:(by_ids);
  Engine.find_executors := fun n => checked_op (find_executors n) ltac:(by_ids)
}.

#[export] Instance filesystem_engine_spec : EngineSpec checked.
Proof.
  split.
  - intros attr now e s e'. apply (checked_op_spec _ _ (session_made attr)), spec_create_session.
  - intros id spc now e s e' Ho. apply (checked_op_spec _ _ _ _ _ _ (spec_open_session id spc now)) in Ho as [Ht Hi].
    split; [by apply no_tasks_wf|by apply no_tasks_owned].
  - intros id now e s e'. apply (checked_op_spec _ _ (fun s => ssn_state s = SsnClosed)), spec_close_session.
  - intros e l e'. apply (checked_op_spec _ _ (Forall _)), spec_find_sessions.
  - intros ssn i o now e t e'. apply (checked_op_spec _ _ (fun t => task_ssn_id t = ssn)), spec_create_task.
  - intros g e t e'.
    apply (checked_op_spec _ _ (fun t => task_ssn_id t = gid_ssn_id g /\ task_state t = TaskPending)).
    unfold retry_task. do 2 spec_skip. by apply spec_updated.
  - intros g st msg now e t e'.
    apply (checked_op_spec _ _ (fun t => task_ssn_id t = gid_ssn_id g /\ task_state t = st)). spec_skip; [unfold not_closed; keeps_tac|].
    by apply spec_updated.
  - intros g r now e t e'.
    apply (checked_op_spec _ _ (fun t => task_ssn_id t = gid_ssn_id g /\ task_state t = tr_state r)). unfold update_task_result. spec_skip; [unfold not_closed; keeps_tac|].
    spec_skip. by apply spec_updated.
  - intros ssn e l e'. apply (checked_op_spec _ _ (Forall _)), spec_find_tasks.
Qed.
End contract.
