(* ===== verification/FsTasks.v ===== *)
(** * Task records and payloads on disk

    A task record sits at the place its identifier says, payload files only
    grow past what is reserved, and a write never reaches another record.  From
    that, a task that an operation returned is read back unchanged after any
    further operations on other tasks, whatever I/O errors those run into. *)
From Stdlib Require Import Ascii.
From S2P Require Import Prelude Types Session Filters Engine Codes FsDisk FsRecord FsEngine FsInv.
Import FilesystemEngine.
Local Open Scope Z_scope.

(** ** Records in a file *)

Section records.
Context `{Crates} `{!CratesSpec}.

Definition rsize : nat := Z.to_nat task_record_size.

(** The [k]-th record, if it is complete. *)
Definition record_at (k : nat) (c : bytes) : option bytes :=
  if decide (S k * rsize <= length c)%nat then Some (take rsize (drop (k * rsize) c)) else None.

(** Records sit at the place of their identifier. *)
Definition records_ok (c : bytes) : Prop :=
  forall k b, record_at k c = Some b -> take 8 b = le_bytes 8 (Z.of_nat (S k)).

Lemma default_meta_ok : meta_ok default_task_metadata.
Proof. by split. Qed.

Lemma record_bytes m b : meta_ok m -> to_allocvec m = Some b ->
  length b = rsize /\ take 8 b = le_bytes 8 (tm_id m).
Proof.
  intros Hm Hb. split.
  - unfold rsize, task_record_size, len. destruct (to_allocvec_total _ default_meta_ok) as [d Hd].
    rewrite Hd, Nat2Z.id. exact (to_allocvec_length _ _ _ _ Hm default_meta_ok Hb Hd).
  - destruct (to_allocvec_id _ _ Hm Hb) as [rest ->]. apply take_app_length'.
    pose proof (le_bytes_length 8 (tm_id m)). unfold len in *. lia.
Qed.

Lemma rsize_large : (8 <= rsize)%nat.
Proof.
  destruct (to_allocvec_total _ default_meta_ok) as [b Hb].
  destruct (record_bytes _ _ default_meta_ok Hb) as [<- Ht].
  pose proof (le_bytes_length 8 (tm_id default_task_metadata)) as Hl. rewrite <-Ht in Hl.
  unfold len in Hl. rewrite length_take in Hl. lia.
Qed.

Lemma record_size_rsize : task_record_size = Z.of_nat rsize.
Proof.
  unfold rsize, task_record_size. destruct (to_allocvec _); [|done]. unfold len. lia.
Qed.

Lemma record_at_Some k c b : record_at k c = Some b <->
  (S k * rsize <= length c)%nat /\ b = take rsize (drop (k * rsize) c).
Proof.
  unfold record_at. destruct (decide _); split.
  - by intros [= <-].
  - by intros [_ ->].
  - done.
  - by intros [? _].
Qed.

Lemma record_at_length k c b : record_at k c = Some b -> length b = rsize.
Proof. rewrite record_at_Some. intros [? ->]. rewrite length_take, length_drop. lia. Qed.

Lemma record_at_ext k c c' b : record_at k c = Some b ->
  (S k * rsize <= length c')%nat ->
  take rsize (drop (k * rsize) c') = take rsize (drop (k * rsize) c) -> record_at k c' = Some b.
Proof. rewrite !record_at_Some. intros [? ->]. done. Qed.

Lemma record_at_take k n c : (S k * rsize <= n)%nat -> record_at k (take n c) = record_at k c.
Proof.
  intros Hn. unfold record_at. rewrite length_take.
  destruct (decide _), (decide _); try lia; [|done].
  f_equal. rewrite !take_drop_commute, take_take. do 2 f_equal. lia.
Qed.

(** A write of at most one record leaves the others. *)
Lemma record_at_overlay_ne k j data c b :
  k <> j -> (length data <= rsize)%nat -> record_at k c = Some b ->
  record_at k (overlay (j * rsize) data c) = Some b.
Proof.
  intros Hkj Hd Hb. apply (record_at_ext _ c); [done|..]; apply record_at_Some in Hb as [Hl _].
  - rewrite overlay_length. lia.
  - destruct (decide (k < j)%nat) as [Hlt|Hge].
    + rewrite !take_drop_commute, overlay_before; [done|nia|lia].
    + rewrite overlay_after; [done|nia].
Qed.

Lemma overlay_record j data c b : record_at j c = Some b -> (length data <= rsize)%nat ->
  record_at j (overlay (j * rsize) data c) = Some (data ++ drop (length data) b).
Proof.
  intros [Hl ->]%record_at_Some Hd. apply record_at_Some.
  split; [rewrite overlay_length; lia|]. unfold overlay.
  rewrite drop_app_length' by (by rewrite overlay_front).
  rewrite take_app_ge by done. f_equal. rewrite skipn_firstn_comm, drop_drop. done.
Qed.

Lemma overlay_full j data c : length data = rsize ->
  record_at j (overlay (j * rsize) data c) = Some data.
Proof.
  intros Hd. apply record_at_Some. split; [rewrite overlay_length; lia|].
  rewrite <-Hd at 1. by rewrite overlay_at.
Qed.

(** The head of a record survives a torn write of a record with the same head. *)
Lemma torn_head n i (x y : bytes) : (n <= length x)%nat -> (n <= length y)%nat ->
  take n x = take n y -> take n (take i x ++ drop (length (take i x)) y) = take n y.
Proof.
  intros Hx Hy Hxy. rewrite length_take. destruct (decide (i <= n)%nat) as [Hi|Hi].
  - rewrite Nat.min_l by lia.
    replace (take i x) with (take i y); [by rewrite take_drop|].
    transitivity (take i (take n y)); [|rewrite <-Hxy]; rewrite take_take; f_equal; lia.
  - rewrite take_app_le by (rewrite length_take; lia). rewrite take_take.
    rewrite Nat.min_l by lia. done.
Qed.

Lemma records_ok_nil : records_ok [].
Proof. intros k b [Hl _]%record_at_Some. pose proof rsize_large. simpl in Hl. lia. Qed.

Lemma records_ok_take n c : records_ok c -> records_ok (take n c).
Proof.
  intros Hc k b Hb. apply Hc. pose proof Hb as [Hl _]%record_at_Some. rewrite length_take in Hl.
  rewrite <-(record_at_take k n) by lia. done.
Qed.

(** Whatever prefix of the record is written at its place. *)
Lemma records_ok_overlay j i buffer c :
  records_ok c -> (j * rsize <= length c)%nat -> length buffer = rsize ->
  take 8 buffer = le_bytes 8 (Z.of_nat (S j)) ->
  records_ok (overlay (j * rsize) (take i buffer) c).
Proof.
  intros Hc Hj Hbl Hb8 k b Hb. pose proof rsize_large as Hr.
  destruct (decide (k = j)) as [->|Hkj].
  - destruct (record_at j c) as [b0|] eqn:Hb0.
    + rewrite (overlay_record j _ c b0) in Hb by (rewrite ?length_take; done || lia).
      injection Hb as <-. pose proof (record_at_length _ _ _ Hb0).
      rewrite torn_head; [by apply Hc|lia|lia|by rewrite Hb8, (Hc _ _ Hb0)].
    + assert (rsize <= i)%nat.
      { apply record_at_Some in Hb as [Hl _]. rewrite overlay_length, length_take in Hl.
        unfold record_at in Hb0. destruct (decide _); [done|]. lia. }
      rewrite firstn_all2, overlay_full in Hb by lia. by injection Hb as <-.
  - apply Hc. pose proof Hb as [Hl ->]%record_at_Some. rewrite overlay_length, length_take in Hl.
    assert (S k * rsize <= length c)%nat by nia.
    destruct (record_at k c) as [b0|] eqn:Hb0.
    + rewrite (record_at_overlay_ne k j _ c b0) in Hb; [congruence|done|rewrite length_take; lia|done].
    + unfold record_at in Hb0. by destruct (decide _).
Qed.
End records.

(** ** States of the engine and their growth *)

Section growth.
Context `{Disk} `{Crates} `{!CratesSpec} `{Env}.

Abbreviation files e := (fs_files (fe_fs e)).

Definition metadata_path (id : string) : path := session_path id ++ ["metadata"%string].

(** The metadata of a session can be read from the disk. *)
Definition readable (e : t) (id : string) : Prop :=
  exists c m, files e !! metadata_path id = Some c /\ from_str (A := SessionMetadata) c = Some m.

(** What every operation keeps: the registry, the metadata files, the length of
    files, the place of records, and the reserved end of a payload file behind
    all of its bytes. *)
Record wf (e : t) : Prop := {
  wf_ids : ids_ok e;
  wf_meta : forall id c (m : SessionMetadata),
    files e !! metadata_path id = Some c -> from_str c = Some m -> sm_id m = id;
  wf_open : forall id x, fe_sessions e !! id = Some x -> entry_is_closed x = false -> readable e id;
  wf_small : forall p c, files e !! p = Some c -> len c <= max_file_len;
  wf_records : forall id c, files e !! part_path id Tasks = Some c -> records_ok c;
  wf_ends : forall id x p n, fe_sessions e !! id = Some x -> se_files x !! p = Some n ->
    0 <= n <= u64_max /\
    (p <> Tasks -> forall c, files e !! part_path id p = Some c -> len c <= n)
}.

(** What an operation may do: rewrite some records, lose some sessions. *)
Record scope := mkScope { changes : string -> nat -> Prop; drops : string -> Prop }.

Record ext (X : scope) (e e' : t) : Prop := {
  ext_wf : wf e';
  ext_calls : (fs_calls (fe_fs e) <= fs_calls (fe_fs e'))%nat;
  ext_readable : forall id, ~ drops X id -> readable e id -> readable e' id;
  ext_sessions : forall id, ~ drops X id -> is_Some (fe_sessions e !! id) -> is_Some (fe_sessions e' !! id);
  ext_payload : forall id p c, ~ drops X id -> p <> Tasks -> files e !! part_path id p = Some c ->
    exists c', files e' !! part_path id p = Some c' /\ c `prefix_of` c';
  ext_records : forall id c k b, ~ drops X id -> files e !! part_path id Tasks = Some c ->
    record_at k c = Some b ->
    exists c' b', files e' !! part_path id Tasks = Some c' /\ record_at k c' = Some b' /\
      (~ changes X id k -> b' = b)
}.

Definition none : scope := mkScope (fun _ _ => False) (fun _ => False).

Definition run {A} (X : scope) (m : M t A) (Q : A -> t -> Prop) (e : t) : Prop :=
  wp m (fun r e' => ext X e e' /\ match r with Ok a => Q a e' | _ => True end) e.

Lemma part_path_inj id p id' p' : part_path id p = part_path id' p' -> id = id' /\ p = p'.
Proof. intros [= -> Hp]. split; [done|]. by destruct p, p'. Qed.

Lemma part_path_metadata id p id' : part_path id p <> metadata_path id'.
Proof. intros [= -> Hp]. by destruct p. Qed.

Lemma readable_same e e' id :
  files e' !! metadata_path id = files e !! metadata_path id -> readable e id -> readable e' id.
Proof. intros Heq (c & m & Hc & Hm). exists c, m. by rewrite Heq. Qed.

Lemma ext_step X e e' : wf e -> files e' = files e ->
  (fs_calls (fe_fs e) <= fs_calls (fe_fs e'))%nat -> fe_sessions e' = fe_sessions e -> ext X e e'.
Proof.
  intros [Hi Hm Ho Hs Hr He] Hf Hc Hss. split; [split|done|..].
  - intros id x. rewrite Hss. apply Hi.
  - intros id c m. rewrite Hf. apply Hm.
  - intros id x. rewrite Hss. intros Hx Hcl. eapply readable_same; [by rewrite Hf|by eapply Ho].
  - intros p c. rewrite Hf. apply Hs.
  - intros id c. rewrite Hf. apply Hr.
  - intros id x p n. rewrite Hss, Hf. apply He.
  - intros id _. apply readable_same. by rewrite Hf.
  - intros id _. by rewrite Hss.
  - intros id p c _ _. rewrite Hf. eauto.
  - intros id c k b _. rewrite Hf. eauto 10.
Qed.

Lemma ext_refl X e : wf e -> ext X e e.
Proof. intros. by apply ext_step. Qed.

Lemma ext_trans X e1 e2 e3 : ext X e1 e2 -> ext X e2 e3 -> ext X e1 e3.
Proof.
  intros H12 H23. split.
  - apply H23.
  - pose proof (ext_calls _ _ _ H12). pose proof (ext_calls _ _ _ H23). lia.
  - intros id Hd Hx. by apply (ext_readable _ _ _ H23), (ext_readable _ _ _ H12).
  - intros id Hd Hx. by apply (ext_sessions _ _ _ H23), (ext_sessions _ _ _ H12).
  - intros id p c Hd Hp Hc. destruct (ext_payload _ _ _ H12 _ _ _ Hd Hp Hc) as (c2 & Hc2 & Hpre).
    destruct (ext_payload _ _ _ H23 _ _ _ Hd Hp Hc2) as (c3 & Hc3 & ?). exists c3. split; [done|].
    by etrans.
  - intros id c k b Hd Hc Hb.
    destruct (ext_records _ _ _ H12 _ _ _ _ Hd Hc Hb) as (c2 & b2 & Hc2 & Hb2 & Hx2).
    destruct (ext_records _ _ _ H23 _ _ _ _ Hd Hc2 Hb2) as (c3 & b3 & Hc3 & Hb3 & Hx3).
    exists c3, b3. split_and!; [done..|]. intros Hx. by rewrite Hx3, Hx2.
Qed.

Definition within (X Y : scope) : Prop :=
  (forall id k, changes X id k -> changes Y id k) /\ (forall id, drops X id -> drops Y id).

Lemma within_none X : within none X.
Proof. by split. Qed.

Lemma ext_weaken X Y e e' : within X Y -> ext X e e' -> ext Y e e'.
Proof.
  intros [Hc Hd] [? ? ? ? ? Hrecs]. split; try done; auto.
  intros id c k b Hnd Hfc Hb. destruct (Hrecs id c k b) as (c' & b' & ? & ? & Hs); auto.
  exists c', b'. split_and!; auto.
Qed.

(** One file of a session gets new contents. *)
Lemma ext_put X id p c' n e :
  wf e -> len c' <= max_file_len -> (fs_calls (fe_fs e) <= n)%nat ->
  (p = Tasks -> records_ok c' /\ forall c k b, ~ drops X id -> files e !! part_path id p = Some c ->
     record_at k c = Some b -> exists b', record_at k c' = Some b' /\ (~ changes X id k -> b' = b)) ->
  (p <> Tasks -> (forall c, ~ drops X id -> files e !! part_path id p = Some c -> c `prefix_of` c') /\
     forall x z, fe_sessions e !! id = Some x -> se_files x !! p = Some z -> len c' <= z) ->
  ext X e (with_fs (mkFs (<[part_path id p := c']> (files e)) (fs_dirs (fe_fs e)) n) e).
Proof.
  intros Hwf Hlen Hn Htasks Hpay.
  assert (Hsame : forall id', <[part_path id p := c']> (files e) !! metadata_path id' =
    files e !! metadata_path id') by (intros; apply lookup_insert_ne, part_path_metadata).
  split; [split|done|..]; simpl.
  - apply Hwf.
  - intros id' c m. rewrite Hsame. apply Hwf.
  - intros id' x Hx Hcl. eapply readable_same; [apply Hsame|by eapply wf_open].
  - intros q c [[<- <-]|[_ Hc]]%lookup_insert_Some; [done|by eapply wf_small].
  - intros id' c [[[-> ->]%part_path_inj <-]|[_ Hc]]%lookup_insert_Some; [by apply Htasks|by eapply wf_records].
  - intros id' x q z Hx Hz. split; [by eapply wf_ends|]. intros Hq c.
    intros [[[-> ->]%part_path_inj <-]|[_ Hc]]%lookup_insert_Some; [by eapply Hpay|].
    destruct (wf_ends e Hwf id' x q z Hx Hz) as [_ Hle]. by apply Hle.
  - intros id' _. apply readable_same, Hsame.
  - eauto.
  - intros id' q c Hnd Hq Hc. destruct (decide (part_path id p = part_path id' q)) as [Heq|Hne].
    + apply part_path_inj in Heq as [-> ->]. rewrite lookup_insert_eq. eexists. split; [done|].
      by apply Hpay.
    + rewrite lookup_insert_ne by done. eauto.
  - intros id' c k b Hnd Hc Hb. destruct (decide (part_path id p = part_path id' Tasks)) as [Heq|Hne].
    + apply part_path_inj in Heq as [-> ->]. rewrite lookup_insert_eq.
      destruct (proj2 (Htasks eq_refl) _ _ _ Hnd Hc Hb) as (b' & ? & ?). eauto.
    + rewrite lookup_insert_ne by done. eauto.
Qed.

Lemma ext_put_session X id x e :
  wf e -> sm_id (se_metadata x) = id -> (entry_is_closed x = false -> readable e id) ->
  (forall p n, se_files x !! p = Some n -> 0 <= n <= u64_max /\
     (p <> Tasks -> forall c, files e !! part_path id p = Some c -> len c <= n)) ->
  ext X e (with_sessions (<[id := x]> (fe_sessions e)) e).
Proof.
  intros Hwf Hm Ho Hends. split; [split|done|..]; simpl.
  - intros id' y. simpl. intros [[<- <-]|[_ Hy]]%lookup_insert_Some; [done|by apply (wf_ids e Hwf)].
  - apply Hwf.
  - intros id' y. intros [[<- <-]|[_ Hy]]%lookup_insert_Some Hcl; [exact (Ho Hcl)|exact (wf_open e Hwf _ _ Hy Hcl)].
  - apply Hwf.
  - apply Hwf.
  - intros id' y p n [[<- <-]|[_ Hy]]%lookup_insert_Some; [apply Hends|by apply (wf_ends e Hwf)].
  - eauto.
  - intros id' _ Hy. rewrite lookup_insert_is_Some. destruct (decide (id = id')); auto.
  - eauto.
  - eauto 10.
Qed.

(** *** Rules of [run] *)

Lemma run_mono {A} X (m : M t A) (Q R : A -> t -> Prop) e :
  run X m Q e -> (forall a e', ext X e e' -> Q a e' -> R a e') -> run X m R e.
Proof.
  intros Hm HQR. eapply wp_mono; [exact Hm|]. intros [a|err|] e' [He Ha]; auto.
Qed.

Lemma run_bind {A B} X (m : M t A) (f : A -> M t B) Q R e :
  run X m Q e -> (forall a e1, ext X e e1 -> Q a e1 -> run X (f a) R e1) -> run X (m ≫= f) R e.
Proof.
  intros Hm Hf. apply wp_bind. eapply wp_mono; [exact Hm|].
  intros [a|err|] e1 [He Ha]; [|done..].
  eapply wp_mono; [exact (Hf a e1 He Ha)|]. intros r e2 [He2 HR]. split; [by eapply ext_trans|done].
Qed.

Lemma run_none {A} X (m : M t A) Q e :
  run none m Q e -> run X m (fun a e' => ext none e e' /\ Q a e') e.
Proof.
  intros Hm. eapply wp_mono; [exact Hm|]. cbv beta. intros r e' [He Hr].
  split; [apply (ext_weaken none); [apply within_none|done]|by destruct r].
Qed.

Lemma run_ret {A} X (a : A) (Q : A -> t -> Prop) e : wf e -> Q a e -> run X (mret a) Q e.
Proof. intros. apply wp_ret. split; [by apply ext_refl|done]. Qed.

Lemma run_lift {A} X (r : result A) (Q : A -> t -> Prop) e :
  wf e -> (forall a, r = Ok a -> Q a e) -> run X (lift r) Q e.
Proof. intros He Hr. apply wp_lift. split; [by apply ext_refl|]. destruct r; auto. Qed.

Lemma run_throw {A} X err (Q : A -> t -> Prop) e : wf e -> run X (throw err) Q e.
Proof. intros. apply wp_throw. split; [by apply ext_refl|done]. Qed.

Lemma run_session_entry X id e : wf e ->
  run X (session_entry id) (fun x e' => e' = e /\ fe_sessions e !! id = Some x) e.
Proof.
  intros He. apply wp_bind, wp_gets, wp_lift. split; [by apply ext_refl|].
  by destruct (fe_sessions e !! id).
Qed.

Lemma run_or_storage {A} X (m : M Fs (io A)) (Q : A -> t -> Prop) e :
  run X (sys m) (fun r e' => forall a, r = IoOk a -> Q a e') e -> run X (or_storage m) Q e.
Proof.
  intros Hm. eapply run_bind; [exact Hm|cbv beta]. intros r e1 [He1 _ _ _ _] Hr.
  destruct r; [by apply run_ret; [|apply Hr]|by apply run_throw].
Qed.

Lemma run_attempt {A} X (m : M t A) (Q : A -> t -> Prop) e :
  run X m Q e -> run X (attempt m) (fun r e' => forall a, r = Ok a -> Q a e') e.
Proof.
  intros Hm. apply wp_attempt. eapply wp_mono; [exact Hm|].
  intros [a|err|] e1 [He Ha]; split; try done. by intros ? [= <-].
Qed.

(** A call that only looks. *)
Lemma run_look {A} X (f : Fs -> io A) e : wf e ->
  (forall fs n, f (mkFs (fs_files fs) (fs_dirs fs) n) = f fs) ->
  run X (sys (call intact (fun fs => (f fs, fs))))
    (fun r e' => files e' = files e /\ fe_sessions e' = fe_sessions e /\ forall a, r = IoOk a -> f (fe_fs e) = IoOk a) e.
Proof.
  intros He Hf. unfold run, wp, sys, zoom, call. destruct (io_fault _); simpl.
  - split; [by apply ext_step; simpl; auto with lia|]. by split_and!.
  - split; [by apply ext_step; simpl; auto with lia|]. split_and!; [done..|]. intros a. by rewrite Hf.
Qed.

(** *** Files of a session *)

Lemma run_file_len X p e : wf e ->
  run X (or_storage (file_len p)) (fun n e' => fe_sessions e' = fe_sessions e /\ files e' = files e /\
    exists c, files e !! p = Some c /\ n = len c) e.
Proof.
  intros He. apply run_or_storage. eapply run_mono; [apply run_look; [done|by intros]|].
  intros r e' _ (Hf & Hs & Hr) n Hn. split_and!; [done..|]. specialize (Hr n Hn). simpl in Hr.
  destruct (files e !! p) as [c|]; [|done]. injection Hr as <-. eauto.
Qed.

Lemma run_open X id p create e : wf e ->
  run X (or_storage (open (part_path id p) create)) (fun _ e' => fe_sessions e' = fe_sessions e) e.
Proof.
  intros He. apply run_or_storage. unfold run, wp, sys, zoom, open, call.
  destruct (io_fault _); simpl; [split; [by apply ext_step; simpl; auto with lia|done]|].
  destruct (files e !! part_path id p) eqn:Hp; simpl;
    [split; [by apply ext_step; simpl; auto with lia|done]|].
  destruct (create && _); simpl; [|split; [by apply ext_step; simpl; auto with lia|done]].
  split; [|done]. apply ext_put; [done|by vm_compute|simpl; lia|..].
  - intros _. split; [apply records_ok_nil|]. congruence.
  - intros Ht. split; [congruence|]. intros x z Hx Hz. by destruct (wf_ends e He _ _ _ _ Hx Hz) as [[] _].
Qed.

Lemma run_payload_open X id p create e : wf e ->
  run X (payload_open (part_path id p) create) (fun n e' => fe_sessions e' = fe_sessions e /\
    exists c, files e' !! part_path id p = Some c /\ n = len c) e.
Proof.
  intros He. eapply run_bind; [by apply run_open|cbv beta]. intros _ e1 He1 Hs1.
  eapply run_mono; [apply run_file_len, He1|cbv beta]. intros n e2 _ (Hs2 & Hf2 & c & Hc & ->).
  rewrite Hf2. split; [congruence|eauto].
Qed.

Lemma run_part X id p e : wf e ->
  run X (part id p) (fun n e' => exists x, fe_sessions e' !! id = Some x /\ 0 <= n <= u64_max /\
    (entry_is_closed x = false -> p <> Tasks -> forall c, files e' !! part_path id p = Some c -> len c <= n)) e.
Proof.
  intros He. eapply run_bind; [by apply run_session_entry|cbv beta]. intros x ? _ [-> Hx].
  destruct (entry_is_closed x) eqn:Hcl.
  - eapply run_mono; [by apply run_payload_open|]. intros n e1 Hext (Hs & c & Hc & ->).
    exists x. rewrite Hs. split_and!; [done| | |congruence].
    all: pose proof (wf_small e1 (ext_wf _ _ _ Hext) _ _ Hc); unfold len, max_file_len, u64_max in *; lia.
  - destruct (se_files x !! p) as [n|] eqn:Hn.
    + apply run_ret; [done|]. exists x. destruct (wf_ends e He _ _ _ _ Hx Hn) as [[??] ?]. by split_and!.
    + eapply run_bind; [by apply run_payload_open|cbv beta]. intros n e1 Hext (Hs & c & Hc & ->).
      pose proof (ext_wf _ _ _ Hext) as He1. rewrite <-Hs in Hx.
      assert (0 <= len c <= u64_max).
      { pose proof (wf_small e1 He1 _ _ Hc). unfold len, max_file_len, u64_max in *. lia. }
      assert (Hle : p <> Tasks -> forall c', files e1 !! part_path id p = Some c' -> len c' <= len c)
        by (intros _ c'; rewrite Hc; by intros [= <-]).
      eapply run_bind with (Q := fun _ e' => e' = with_sessions _ e1).
      { apply wp_modify. split; [|done]. apply ext_put_session; [done|exact (wf_ids e1 He1 id x Hx)|exact (wf_open e1 He1 id x Hx)|].
        intros q m. simpl. intros [[<- <-]|[_ Hm]]%lookup_insert_Some; [done|by eapply wf_ends]. }
      intros _ e2 He2 ->. apply run_ret; [apply He2|]. simpl. rewrite lookup_insert_eq. eauto.
Qed.

Lemma run_part_any X id p e : wf e -> run X (part id p) (fun _ _ => True) e.
Proof. intros. eapply run_mono; [by apply run_part|done]. Qed.

(** The range a payload was appended to. *)
Definition has_data (e : t) (id : string) (p : Part) (offset n : Z) (data : bytes) : Prop :=
  0 <= offset /\ 0 <= n /\ exists c, files e !! part_path id p = Some c /\ offset + n <= len c /\
    data = take (Z.to_nat n) (drop (Z.to_nat offset) c).

(** A write takes effect up to some length, in full if it succeeds. *)
Lemma run_write_part X id p data offset e :
  wf e ->
  (forall x k n c, fe_sessions e !! id = Some x -> entry_is_closed x = false ->
     (fs_calls (fe_fs e) <= n)%nat -> files e !! part_path id p = Some c ->
     offset + len data <= max_file_len ->
     ext X e (with_fs (mkFs (<[part_path id p := overlay (Z.to_nat offset) (take k data) c]> (files e))
                         (fs_dirs (fe_fs e)) n) e)) ->
  run X (write_part id p data offset) (fun _ e' => exists c, files e !! part_path id p = Some c /\
    files e' !! part_path id p = Some (overlay (Z.to_nat offset) data c)) e.
Proof.
  intros He Hput. eapply run_bind; [by apply run_session_entry|cbv beta]. intros x ? _ [-> Hx].
  destruct (entry_is_closed x) eqn:Hcl; [by apply run_throw|].
  apply run_or_storage. unfold run, wp, sys, zoom, write_all_at, call.
  assert (Hsame : forall k, ext X e (with_fs (mkFs (files e) (fs_dirs (fe_fs e)) (k + fs_calls (fe_fs e))) e))
    by (intros; apply ext_step; simpl; auto with lia).
  destruct (Z.ltb_spec max_file_len (offset + len data)) as [Hmax|Hmax];
    destruct (io_fault _) as [k|]; simpl;
    destruct (files e !! part_path id p) as [c|] eqn:Hc; simpl; (split; [|try done]);
    try apply (Hsame 1%nat); try (by apply (Hput x); simpl; auto with lia).
  - rewrite <-(firstn_all data) at 1. apply (Hput x); simpl; auto with lia.
  - intros _ _. exists c. by rewrite lookup_insert_eq.
Qed.

Lemma run_write_payload X id p data offset e :
  wf e -> p <> Tasks -> 0 <= offset ->
  (forall x, fe_sessions e !! id = Some x -> entry_is_closed x = false ->
     (forall z, se_files x !! p = Some z -> offset + len data <= z) /\
     forall c, files e !! part_path id p = Some c -> len c <= offset) ->
  run X (write_part id p data offset) (fun _ e' => has_data e' id p offset (len data) data) e.
Proof.
  intros He Hp Ho Hpre. eapply run_mono; [apply run_write_part; [done|]|cbv beta].
  - intros x k n c Hx Hcl Hn Hc Hmax. destruct (Hpre x Hx Hcl) as [Hz Hlec]. specialize (Hlec c Hc).
    assert (len (overlay (Z.to_nat offset) (take k data) c) <= offset + len data).
    { unfold len in *. rewrite overlay_length, length_take. lia. }
    apply ext_put; [done|lia|done|done|]. intros _. split.
    + rewrite Hc. intros ? _ [= <-]. apply overlay_prefix. unfold len in *. lia.
    + intros x' z Hx' Hz'. simplify_eq. specialize (Hz z Hz'). lia.
  - intros _ e' _ (c & _ & Hc). split_and!; [done|unfold len; lia|]. exists (overlay (Z.to_nat offset) data c).
    split_and!; [done|unfold len; rewrite overlay_length; lia|]. unfold len. by rewrite Nat2Z.id, overlay_at.
Qed.

Lemma run_append_data X id p data e : wf e -> p <> Tasks ->
  run X (append_data id p data) (fun offset e' => offset + len data <= u64_max /\
    has_data e' id p offset (len data) data) e.
Proof.
  intros He Hp. eapply run_bind; [by apply run_part|cbv beta]. intros offset e1 He1 (x & Hx & Ho & Hend).
  apply ext_wf in He1. cbv zeta. destruct (Z.ltb_spec u64_max (offset + len data)); [by apply run_throw|].
  eapply run_bind; [by apply run_session_entry|cbv beta]. intros x' ? _ [-> Hx']. simplify_eq.
  assert (0 <= len data) by (unfold len; lia).
  set (y := mkEntry (se_metadata x) _).
  eapply run_bind with (Q := fun _ e' => e' = with_sessions (<[id := y]> (fe_sessions e1)) e1).
  { apply wp_modify. split; [|done]. apply ext_put_session; [done|exact (wf_ids e1 He1 id x Hx)|exact (wf_open e1 He1 id x Hx)|]. subst y. simpl.
    destruct (entry_is_closed x) eqn:Hcl; intros q n; [intros; by eapply wf_ends|].
    intros [[<- <-]|[_ Hn]]%lookup_insert_Some; [|by eapply wf_ends].
    split; [lia|]. intros _ c Hc. specialize (Hend eq_refl Hp c Hc). lia. }
  intros _ e2 He2 ->. apply ext_wf in He2.
  eapply run_bind; [apply run_write_payload; [done..|lia|]|cbv beta].
  - simpl. rewrite lookup_insert_eq. intros ? [= <-] Hcl. split; [|by apply Hend].
    intros z. subst y. change (entry_is_closed x = false) in Hcl. simpl. rewrite Hcl, lookup_insert_eq.
    by intros [= <-].
  - intros _ e3 He3 Hd. apply run_ret; [apply He3|done].
Qed.

Lemma run_read_data X id p offset n e : wf e -> p <> Tasks -> 0 <= offset -> 0 < n ->
  run X (read_data id p offset n) (fun data e' => has_data e' id p offset n data) e.
Proof.
  intros He Hp Ho Hn. unfold read_data. destruct (Z.eqb_spec n 0); [lia|].
  eapply run_bind; [by apply run_part_any|cbv beta]. intros _ e1 He1 _. apply ext_wf in He1.
  apply run_or_storage. eapply run_mono; [apply run_look; [done|by intros]|cbv beta].
  intros r e2 _ (Hf & _ & Hr) data Hd. specialize (Hr data Hd). simpl in Hr.
  destruct (files e1 !! part_path id p) as [c|] eqn:Hc; [|done].
  destruct (Z.leb_spec (offset + n) (len c)); [|done]. injection Hr as <-.
  split_and!; [done|lia|]. exists c. by rewrite Hf.
Qed.

(** *** Records of a session *)

(** The record [m] is at its place, whole. *)
Definition has_record (e : t) (id : string) (m : TaskMetadata) : Prop :=
  meta_ok m /\ tm_checksum m = calculate_checksum m /\
  exists c b k, files e !! part_path id Tasks = Some c /\ record_at k c = Some b /\
    to_allocvec m = Some b /\ tm_id m = Z.of_nat (S k).

(** The record of [task_id] reads as [m]. *)
Definition decodes (e : t) (id : string) (task_id : Z) (m : TaskMetadata) : Prop :=
  exists c b k rest, files e !! part_path id Tasks = Some c /\ record_at k c = Some b /\
    task_id = Z.of_nat (S k) /\ take_from_bytes b = Some (m, rest).

Lemma decodes_fun e id task_id m m' : decodes e id task_id m -> decodes e id task_id m' -> m = m'.
Proof. intros (c & b & k & rest & ? & ? & -> & ?) (c' & b' & k' & rest' & ? & ? & Hk & ?). simplify_eq. congruence. Qed.

Lemma ext_decodes X e e' id task_id m : ext X e e' -> ~ drops X id ->
  (forall k, task_id = Z.of_nat (S k) -> ~ changes X id k) -> decodes e id task_id m -> decodes e' id task_id m.
Proof.
  intros He Hd HX (c & b & k & rest & Hc & Hb & Hk & Hm).
  destruct (ext_records _ _ _ He _ _ _ _ Hd Hc Hb) as (c' & b' & Hc' & Hb' & Hsame).
  rewrite (Hsame (HX k Hk)) in Hb'. by exists c', b, k, rest.
Qed.

Lemma run_write_record X id j buffer e :
  wf e -> length buffer = rsize -> take 8 buffer = le_bytes 8 (Z.of_nat (S j)) ->
  (forall c, files e !! part_path id Tasks = Some c ->
     (j * rsize <= length c)%nat /\ (is_Some (record_at j c) -> changes X id j)) ->
  run X (write_part id Tasks buffer (Z.of_nat (j * rsize))) (fun _ e' => exists c,
    files e' !! part_path id Tasks = Some c /\ record_at j c = Some buffer) e.
Proof.
  intros He Hlen Hb8 Hpre. eapply run_mono; [apply run_write_part; [done|]|cbv beta].
  - intros x k n c Hx Hcl Hn Hc Hmax. destruct (Hpre c Hc) as [Hj HX]. pose proof (wf_small e He _ _ Hc).
    rewrite Nat2Z.id. apply ext_put; [done| |done| |done].
    + unfold len in *. rewrite overlay_length, length_take. lia.
    + intros _. split; [apply records_ok_overlay; [by eapply wf_records|done..]|].
      intros c' i b _. rewrite Hc. intros [= <-] Hb. destruct (decide (i = j)) as [->|Hij].
      * eexists. split; [apply overlay_record; [done|rewrite length_take; lia]|].
        intros Hn'. destruct Hn'. apply HX. eauto.
      * exists b. split; [|done]. apply record_at_overlay_ne; [done|rewrite length_take; lia|done].
  - intros _ e' _ (c & _ & Hc). rewrite Nat2Z.id in Hc. eexists. split; [done|]. by apply overlay_full.
Qed.

Lemma run_set_len X id j e c :
  wf e -> files e !! part_path id Tasks = Some c -> (length c < S j * rsize)%nat ->
  run X (or_storage (set_len (part_path id Tasks) (Z.of_nat (j * rsize)))) (fun _ e' =>
    files e' !! part_path id Tasks = Some (take (j * rsize) c)) e.
Proof.
  intros He Hc Hj. apply run_or_storage. unfold run, wp, sys, zoom, set_len, call.
  destruct (io_fault _); simpl; [split; [by apply ext_step; simpl; auto with lia|done]|].
  rewrite Hc. simpl. split; [|intros _ _; by rewrite lookup_insert_eq, Nat2Z.id].
  pose proof (wf_small e He _ _ Hc). rewrite Nat2Z.id.
  apply ext_put; [done|unfold len in *; rewrite length_take; lia|simpl; lia| |done].
  intros _. split; [apply records_ok_take; by eapply wf_records|].
  intros c' k b _. rewrite Hc. intros [= <-] Hb. exists b. split; [|done].
  rewrite record_at_take; [done|]. apply record_at_Some in Hb as [Hl _].
  apply Nat.mul_le_mono_r. destruct (Nat.le_gt_cases (S k) j); [done|]. nia.
Qed.

(** The number of records of a file, and the tail behind them. *)
Lemma record_count (c : bytes) : exists j, (j * rsize <= length c < S j * rsize)%nat /\
  len c / task_record_size = Z.of_nat j /\
  len c - len c mod task_record_size = Z.of_nat (j * rsize).
Proof.
  pose proof rsize_large. exists (length c / rsize)%nat. rewrite record_size_rsize. unfold len.
  rewrite <-Nat2Z.inj_div, <-Nat2Z.inj_mod. pose proof (Nat.div_mod_eq (length c) rsize).
  pose proof (Nat.mod_upper_bound (length c) rsize). split_and!; [nia|nia|done|].
  rewrite Nat2Z.inj_mul. nia.
Qed.

Lemma meta_ok_id id checksum m : meta_ok m -> is_u64 id -> is_u32 checksum ->
  meta_ok (with_id_checksum id checksum m).
Proof. intros [] ? ?. by split. Qed.

Lemma run_commit_task X id m e : wf e -> meta_ok m ->
  run X (commit_task id m) (fun m' e' => has_record e' id m' /\
    (~ drops X id -> forall m0, ~ decodes e id (tm_id m') m0) /\
    exists n, m' = with_id_checksum n (tm_checksum m') m) e.
Proof.
  intros He Hm. eapply run_bind; [by apply run_part_any|cbv beta]. intros _ e1 Hx1 _. pose proof (ext_wf _ _ _ Hx1) as He1.
  eapply run_bind; [by apply run_file_len|cbv beta]. intros ? e2 He2 (_ & Hf & c & Hc & ->).
  apply ext_wf in He2. destruct (record_count c) as (j & Hj & Hdiv & Hcut).
  assert (Hnew : ~ drops X id -> forall m0, ~ decodes e id (Z.of_nat (S j)) m0).
  { intros Hd m0 (c0 & b0 & k & rest & Hc0 & Hb0 & Hk & _).
    destruct (ext_records _ _ _ Hx1 _ _ _ _ Hd Hc0 Hb0) as (c' & b' & Hc' & [Hl _]%record_at_Some & _).
    simplify_eq. pose proof rsize_large. nia. }
  rewrite <-Hf in Hc. cbv zeta.
  eapply run_bind with (Q := fun _ e' => files e' !! part_path id Tasks = Some (take (j * rsize) c)).
  { destruct (Z.eqb_spec (len c mod task_record_size) 0) as [Ht|Ht].
    - apply run_ret; [done|]. rewrite firstn_all2; [done|]. unfold len in Hcut, Ht. lia.
    - simpl. rewrite Hcut. apply run_set_len; [done|done|apply Hj]. }
  intros _ e3 He3 Hc3. apply ext_wf in He3. rewrite Hcut.
  replace (Z.of_nat (j * rsize) / task_record_size + 1) with (Z.of_nat (S j))
    by (rewrite record_size_rsize, Nat2Z.inj_mul, Z.div_mul by (pose proof rsize_large; lia); lia).
  set (m1 := with_id_checksum _ (tm_checksum m) m). set (m2 := with_id_checksum _ _ m1).
  assert (Hsmall : is_u64 (Z.of_nat (S j))).
  { pose proof rsize_large. pose proof (wf_small e2 He2 _ _ Hc). unfold len, max_file_len in *. width || nia. }
  assert (Hm2 : meta_ok m2) by (apply meta_ok_id; [by apply meta_ok_id, Hm|done|apply crc32_range]).
  destruct (to_allocvec_total m2 Hm2) as [b Hb]. destruct (record_bytes m2 b Hm2 Hb) as [Hlen Hb8].
  rewrite Hb. eapply run_bind; [apply run_lift with (Q := fun x e' => e' = e3 /\ x = b);
    [done|by intros ? [= <-]]|cbv beta].
  intros ? ? _ [-> ->]. eapply run_bind; [apply run_write_record; [done..|]|cbv beta].
  - rewrite Hc3. intros ? [= <-]. split; [rewrite length_take; lia|]. intros [b' Hb'].
    apply record_at_Some in Hb' as [Hl _]. rewrite length_take in Hl. pose proof rsize_large. nia.
  - intros _ e4 He4 (c4 & Hc4 & Hb4). apply run_ret; [apply He4|]. split_and!; [|exact Hnew|by eexists].
    split_and!; [done|done|]. exists c4, b, j. by split_and!.
Qed.

(** The byte offset of a record does not wrap around. *)
Definition in_range (task_id : Z) : Prop := (task_id - 1) * task_record_size <= u64_max.

Lemma record_offset_at k : in_range (Z.of_nat (S k)) -> record_offset (Z.of_nat (S k)) = Z.of_nat (k * rsize).
Proof.
  unfold in_range, record_offset. rewrite record_size_rsize. intros Hr.
  rewrite wrap_u64_small; [nia|]. split; [nia|done].
Qed.

Lemma run_read_task_record X id task_id e : wf e -> in_range task_id ->
  run X (read_task_record id task_id) (fun m e' => meta_ok m /\ tm_id m = task_id /\ decodes e' id task_id m) e.
Proof.
  intros He Hr. unfold read_task_record. destruct (Z.ltb_spec task_id 1) as [|Hid]; [by apply run_throw|].
  eapply run_bind; [apply run_attempt; by apply run_part_any|cbv beta]. intros r e1 He1 _. apply ext_wf in He1.
  eapply run_bind; [by apply run_lift with (Q := fun _ e' => e' = e1)|cbv beta]. intros _ ? _ ->.
  eapply run_bind; [apply run_look; [done|by intros]|cbv beta].
  intros buffer e2 He2 (Hf & _ & Hb). apply ext_wf in He2. destruct buffer as [b|]; [|by apply run_throw].
  specialize (Hb b eq_refl). destruct (files e1 !! part_path id Tasks) as [c|] eqn:Hc; [|done].
  destruct (Z.leb_spec (record_offset task_id + task_record_size) (len c)) as [Hle|]; [|done]. injection Hb as Hb.
  rewrite <-(Z2Nat.id task_id) in * by lia. destruct (Z.to_nat task_id) as [|k]; [lia|].
  rewrite record_offset_at, Nat2Z.id in * by done. rewrite record_size_rsize in Hle.
  assert (Hk : record_at k c = Some b) by (apply record_at_Some; unfold len in *; split; [lia|done]).
  eapply run_bind; [apply run_lift with (Q := fun m e' => e' = e2 /\ fst <$> take_from_bytes b = Some m);
    [done|]|cbv beta].
  { intros m. by destruct (take_from_bytes b) as [[m' ?]|]; simpl; [intros [= <-]|]. }
  intros m ? _ [-> Hm]. apply fmap_Some in Hm as ([m' rest] & Hm & ->). simpl.
  destruct (negb _); [by apply run_throw|]. apply run_ret; [done|].
  pose proof (take_from_bytes_ok _ _ _ Hm) as Hok. split_and!; [done| |rewrite <-Hf in Hc; by exists c, b, k, rest].
  rewrite (take_from_bytes_id _ _ _ Hm), (wf_records e1 He1 _ _ Hc _ _ Hk), le_value_bytes by done.
  apply record_at_Some in Hk as [Hl _]. pose proof (wf_small e1 He1 _ _ Hc). pose proof rsize_large.
  apply Z.mod_small. unfold len, max_file_len in *. nia.
Qed.

Lemma wrap_u32_range z : is_u32 (wrap_u32 z).
Proof. unfold wrap_u32. pose proof (Z.mod_pos_bound z (2 ^ 32)). width. Qed.

Lemma meta_ok_version version checksum m : meta_ok m -> is_u32 version -> is_u32 checksum ->
  meta_ok (with_version_checksum version checksum m).
Proof. intros [] ? ?. by split. Qed.

(** The record [op] makes of [m]: the next version, sealed. *)
Definition updated_record (op : TaskMetadata -> TaskMetadata) (m : TaskMetadata) : TaskMetadata :=
  let m := with_version_checksum (wrap_u32 (tm_version (op m) + 1)) (tm_checksum (op m)) (op m) in
  with_version_checksum (tm_version m) (calculate_checksum m) m.

Lemma run_update_task X id task_id op e :
  wf e -> in_range task_id -> (forall k, task_id = Z.of_nat (S k) -> changes X id k) ->
  (forall m, meta_ok m -> meta_ok (op m) /\ tm_id (op m) = tm_id m) ->
  run X (update_task id task_id op) (fun m e' => has_record e' id m /\ tm_id m = task_id /\
    exists m0, (forall m', decodes e id task_id m' -> m0 = m') /\ m = updated_record op m0) e.
Proof.
  intros He Hr HX Hop. eapply run_bind; [by apply run_none, run_read_task_record|cbv beta].
  intros m e1 He1 (Hx1 & Hm & Hid & Hdec). apply ext_wf in He1.
  assert (Hm0 : forall m', decodes e id task_id m' -> m = m').
  { intros m' Hm'. eapply decodes_fun; [exact Hdec|]. by eapply ext_decodes; [exact Hx1|intros []|intros ? _ []|]. }
  destruct Hdec as (c & b & k & rest & Hc & Hb & Hk & _).
  destruct (Hop m Hm) as [Hom Hoid]. cbv zeta. set (m1 := with_version_checksum _ _ (op m)).
  set (m2 := with_version_checksum _ _ m1).
  assert (Hm2 : meta_ok m2).
  { apply meta_ok_version; [|apply wrap_u32_range|apply crc32_range].
    apply meta_ok_version; [done|apply wrap_u32_range|apply Hom]. }
  assert (Hid2 : tm_id m2 = Z.of_nat (S k)) by (simpl; congruence).
  destruct (to_allocvec_total m2 Hm2) as [b2 Hb2]. destruct (record_bytes m2 b2 Hm2 Hb2) as [Hlen Hb8].
  rewrite Hid2 in Hb8. unfold write_task_metadata.
  rewrite Hb2, Hid2, record_offset_at by (by rewrite <-Hk).
  eapply run_bind with (Q := fun _ e' => exists c, files e' !! part_path id Tasks = Some c /\
    record_at k c = Some b2).
  - eapply run_bind; [by apply run_none, run_part_any|cbv beta]. intros _ e2 _ [He2 _].
    destruct (ext_records _ _ _ He2 id c k b (fun H => H) Hc Hb) as (c' & b' & Hc' & Hb' & _). apply ext_wf in He2.
    eapply run_bind; [by apply run_lift with (Q := fun x e' => e' = e2 /\ x = b2); [|intros ? [= <-]]|cbv beta].
    intros ? ? _ [-> ->]. apply run_write_record; [done..|]. rewrite Hc'. intros ? [= <-].
    split; [|auto]. apply record_at_Some in Hb' as [? _]. lia.
  - intros _ e2 He2 (c2 & Hc2 & Hk2). apply run_ret; [apply He2|]. split_and!; [|congruence|].
    + split_and!; [done|done|]. exists c2, b2, k. by split_and!.
    + by exists m.
Qed.

(** *** Tasks on disk *)

Definition payload_is (e : t) (id : string) (p : Part) (offset n : Z) (o : option string) : Prop :=
  if 0 <? n then exists data, has_data e id p offset n data /\ o = Some (string_of data) else o = None.

Definition affinity_is (e : t) (id : string) (offset n : Z) (a : gset string) : Prop :=
  if 0 <? n then exists data keys rest, has_data e id Affinity offset n data /\
    keys_take_from_bytes data = Some (keys, rest) /\ a = list_to_set keys else a = ∅.

(** [t] is what the record and its payloads say. *)
Definition described (e : t) (id : string) (m : TaskMetadata) (t : Task) : Prop :=
  exists input output affinity,
    payload_is e id Inputs (tm_input_offset m) (tm_input_len m) input /\
    payload_is e id Outputs (tm_output_offset m) (tm_output_len m) output /\
    affinity_is e id (tm_affinity_offset m) (tm_affinity_len m) affinity /\
    task_with_data id m input output affinity = Ok t.

Definition stored (e : t) (id : string) (task_id : Z) (t : Task) : Prop :=
  exists m, has_record e id m /\ tm_id m = task_id /\ described e id m t.

(** The session is registered and a restart finds it. *)
Definition live (e : t) (id : string) : Prop := is_Some (fe_sessions e !! id) /\ readable e id.

Lemma ext_live X e e' id : ext X e e' -> ~ drops X id -> live e id -> live e' id.
Proof.
  intros He Hd [Hx Hr]. split; [by apply (ext_sessions _ _ _ He)|by apply (ext_readable _ _ _ He)].
Qed.

Lemma ext_has_data X e e' id p offset n data : ext X e e' -> ~ drops X id -> p <> Tasks ->
  has_data e id p offset n data -> has_data e' id p offset n data.
Proof.
  intros He Hd Hp (Ho & Hn & c & Hc & Hle & ->). split_and!; [done..|].
  destruct (ext_payload _ _ _ He _ _ _ Hd Hp Hc) as (c' & Hc' & rest & ->).
  exists (c ++ rest). unfold len in *. split_and!; [done|rewrite length_app; lia|].
  rewrite drop_app_le by lia. rewrite take_app_le by (rewrite length_drop; lia). done.
Qed.

Lemma ext_payload_is X e e' id p offset n o : ext X e e' -> ~ drops X id -> p <> Tasks ->
  payload_is e id p offset n o -> payload_is e' id p offset n o.
Proof.
  unfold payload_is. intros He Hd Hp. destruct (0 <? n); [|done]. intros (data & Hdata & ->).
  exists data. split; [by eapply ext_has_data|done].
Qed.

Lemma ext_affinity_is X e e' id offset n a : ext X e e' -> ~ drops X id ->
  affinity_is e id offset n a -> affinity_is e' id offset n a.
Proof.
  unfold affinity_is. intros He Hd. destruct (0 <? n); [|done]. intros (data & keys & rest & Hdata & Hk & ->).
  exists data, keys, rest. split_and!; [by eapply ext_has_data|done..].
Qed.

Lemma ext_described X e e' id m t : ext X e e' -> ~ drops X id -> described e id m t -> described e' id m t.
Proof.
  intros He Hd (i & o & a & Hi & Ho & Ha & Ht). exists i, o, a.
  split_and!; [by eapply ext_payload_is..|by eapply ext_affinity_is|done].
Qed.

Lemma ext_has_record X e e' id m : ext X e e' -> ~ drops X id ->
  (forall k, tm_id m = Z.of_nat (S k) -> ~ changes X id k) -> has_record e id m -> has_record e' id m.
Proof.
  intros He Hd HX (Hm & Hsum & c & b & k & Hc & Hb & Henc & Hk). split_and!; [done..|].
  destruct (ext_records _ _ _ He _ _ _ _ Hd Hc Hb) as (c' & b' & Hc' & Hb' & Hsame).
  rewrite (Hsame (HX k Hk)) in Hb'. eauto 10.
Qed.

Lemma ext_stored X e e' id task_id t : ext X e e' -> ~ drops X id ->
  (forall k, task_id = Z.of_nat (S k) -> ~ changes X id k) ->
  stored e id task_id t -> stored e' id task_id t.
Proof.
  intros He Hd HX (m & Hr & Hid & Hdesc). exists m.
  split_and!; [eapply ext_has_record; [done|done| |done]; by rewrite Hid|done|by eapply ext_described].
Qed.

(** *** Operations on tasks *)

Lemma run_payload X id p offset n e : wf e -> p <> Tasks -> 0 <= offset ->
  run X (payload id p offset n) (fun o e' => payload_is e' id p offset n o) e.
Proof.
  intros He Hp Ho. unfold payload, payload_is. destruct (Z.ltb_spec 0 n); [|by apply run_ret].
  eapply run_bind; [by apply run_read_data|cbv beta]. intros data e1 He1 Hd.
  apply run_ret; [apply He1|eauto].
Qed.

Lemma run_affinity X id offset n e : wf e -> 0 <= offset ->
  run X (if 0 <? n then
           data ← read_data id Affinity offset n;
           keys ← lift (ok_or (fst <$> keys_take_from_bytes data) EStorage);
           mret (list_to_set keys : gset string)
         else mret ∅) (fun a e' => affinity_is e' id offset n a) e.
Proof.
  intros He Ho. unfold affinity_is. destruct (Z.ltb_spec 0 n); [|by apply run_ret].
  eapply run_bind; [by apply run_read_data|cbv beta]. intros data e1 He1 Hd. apply ext_wf in He1.
  eapply run_bind; [apply run_lift with (Q := fun k e' => e' = e1 /\ exists rest, keys_take_from_bytes data = Some (k, rest));
    [done|]|cbv beta].
  - intros k. destruct (keys_take_from_bytes data) as [[k' r]|]; simpl; [|done]. intros [= <-]. eauto.
  - intros k ? _ (-> & rest & Hk). apply run_ret; [done|]. eauto 10.
Qed.

Lemma run_task_from_metadata id m e : wf e -> meta_ok m ->
  run none (task_from_metadata id m) (fun t e' => described e' id m t) e.
Proof.
  intros He Hm. eapply run_bind; [apply run_payload; [done..|apply Hm]|cbv beta]. intros i e1 He1 Hi.
  eapply run_bind; [apply run_payload; [apply He1|done|apply Hm]|cbv beta]. intros o e2 He2 Ho.
  eapply run_bind; [apply run_affinity; [apply He2|apply Hm]|cbv beta]. intros a e3 He3 Ha.
  eapply run_bind; [apply run_session_entry, He3|cbv beta]. intros x ? _ [-> Hx].
  apply run_lift; [apply He3|]. intros t. rewrite (wf_ids e3 (ext_wf _ _ _ He3) _ _ Hx). intros Ht.
  exists i, o, a. split_and!; try done.
  - by eapply ext_payload_is; [eapply ext_trans; [exact He2|exact He3]|intros []|..].
  - by eapply ext_payload_is; [exact He3|intros []|..].
Qed.

(** The record of one task. *)
Definition only (g : TaskGID) : scope :=
  mkScope (fun id k => id = gid_ssn_id g /\ gid_task_id g = Z.of_nat (S k)) (fun _ => False).

(** [t] is what the record of [g] in [e], changed by [op], says in [e']. *)
Definition rewritten (e e' : t) (g : TaskGID) (op : TaskMetadata -> TaskMetadata) (t : Task) : Prop :=
  exists m0, (forall m', decodes e (gid_ssn_id g) (gid_task_id g) m' -> m0 = m') /\
    has_record e' (gid_ssn_id g) (updated_record op m0) /\ tm_id (updated_record op m0) = gid_task_id g /\
    described e' (gid_ssn_id g) (updated_record op m0) t.

Lemma rewritten_stored e e' g op t : rewritten e e' g op t -> stored e' (gid_ssn_id g) (gid_task_id g) t.
Proof. intros (m0 & _ & ? & ? & ?). by eexists. Qed.

(** An update of a record, and the task read back from it. *)
Lemma run_updated g op e :
  wf e -> in_range (gid_task_id g) -> live e (gid_ssn_id g) ->
  (forall m, meta_ok m -> meta_ok (op m) /\ tm_id (op m) = tm_id m) ->
  run (only g) (m ← update_task (gid_ssn_id g) (gid_task_id g) op; task_from_metadata (gid_ssn_id g) m)
    (fun t e' => live e' (gid_ssn_id g) /\ rewritten e e' g op t) e.
Proof.
  intros He Hr Hread Hop. eapply run_bind; [by apply run_update_task|cbv beta].
  intros m e1 He1 (Hrec & Hid & m0 & Hm0 & ->). apply (ext_live _ _ _ _ He1) in Hread; [|by intros []]. pose proof Hrec as (Hm & _).
  eapply run_mono; [apply run_none, run_task_from_metadata; [apply He1|done]|cbv beta].
  intros t e2 _ [He2 Hd]. split; [apply (ext_live _ _ _ _ He2); [by intros []|done]|].
  exists m0. split_and!; [done| |done..]. by eapply ext_has_record; [exact He2|intros []|intros k _ []|].
Qed.

Lemma i32_of_task_state_u8 st : is_u8 (i32_of_task_state st).
Proof. by destruct st. Qed.

Lemma set_task_state_ok st now m : meta_ok m ->
  meta_ok (set_task_state st now m) /\ tm_id (set_task_state st now m) = tm_id m.
Proof.
  intros []. split; [|done]. split; try done; simpl; [apply i32_of_task_state_u8|].
  destruct (is_terminal st); [apply timestamp_range|done].
Qed.

Lemma run_not_closed X id e : wf e ->
  run X (not_closed id) (fun _ e' => e' = e /\ live e id) e.
Proof.
  intros He. eapply run_bind; [by apply run_session_entry|cbv beta]. intros x ? _ [-> Hx].
  apply run_lift; [done|]. destruct (entry_is_closed x) eqn:Hcl; [done|]. intros _ _.
  split_and!; [done|split; [eauto|by eapply wf_open]].
Qed.

Lemma run_update_task_state g st msg now e :
  wf e -> in_range (gid_task_id g) ->
  run (only g) (update_task_state g st msg now) (fun t e' =>
    live e' (gid_ssn_id g) /\ rewritten e e' g (set_task_state st now) t) e.
Proof.
  intros He Hr. eapply run_bind; [by apply run_not_closed|cbv beta]. intros _ ? _ [-> Hread].
  apply run_updated; [done..|]. intros m Hm. by apply set_task_state_ok.
Qed.

Definition set_pending (m : TaskMetadata) : TaskMetadata :=
  with_update (i32_of_task_state TaskPending) (tm_completion_time m) (tm_output_offset m) (tm_output_len m) m.

Lemma run_retry_task g e :
  wf e -> in_range (gid_task_id g) ->
  run (only g) (retry_task g) (fun t e' => live e' (gid_ssn_id g) /\ rewritten e e' g set_pending t) e.
Proof.
  intros He Hr. eapply run_bind; [by apply run_session_entry|cbv beta]. intros x ? _ [-> Hx].
  eapply run_bind; [apply run_lift with (Q := fun _ e' => e' = e /\ live e (gid_ssn_id g)); [done|]|cbv beta].
  { destruct (entry_is_open x) eqn:Ho; [|done]. intros _ _. split; [done|]. split; [eauto|]. eapply wf_open; [done..|].
    unfold entry_is_open, entry_is_closed in *. apply Z.eqb_eq in Ho. by rewrite Ho. }
  intros _ ? _ [-> Hread]. apply (run_updated _ set_pending); [done..|]. intros m []. by split.
Qed.

Lemma string_of_bytes s : string_of (bytes_of s) = s.
Proof. apply String.string_of_list_ascii_of_string. Qed.

Lemma payload_is_bytes e id p o data : o + len (bytes_of data) <= u64_max -> data <> EmptyString ->
  has_data e id p o (len (bytes_of data)) (bytes_of data) ->
  is_u64 o /\ is_u64 (len (bytes_of data)) /\ payload_is e id p o (len (bytes_of data)) (Some data).
Proof.
  intros Hmax Hne Hd. pose proof Hd as (? & ? & _). unfold is_u64, payload_is. split_and!; try lia.
  destruct (Z.ltb_spec 0 (len (bytes_of data))) as [|Hle].
  - exists (bytes_of data). by rewrite string_of_bytes.
  - destruct data; [done|]. unfold len in Hle. simpl in Hle. lia.
Qed.

Definition set_result (r : TaskResult) (range : option (Z * Z)) (now : Z) (m : TaskMetadata) : TaskMetadata :=
  let range := default (tm_output_offset m, tm_output_len m) range in
  with_update (i32_of_task_state (tr_state r))
    (if is_terminal (tr_state r) then timestamp now else tm_completion_time m) range.1 range.2 m.

(** Where the output of a result was staged. *)
Definition staged (e : t) (id : string) (out : option string) (range : option (Z * Z)) : Prop :=
  match out, range with
  | Some out, Some x => is_u64 x.1 /\ is_u64 x.2 /\
      payload_is e id Outputs x.1 x.2 (if String.eqb out EmptyString then None else Some out)
  | None, None => True
  | _, _ => False
  end.

Lemma ext_staged X e e' id out range : ext X e e' -> ~ drops X id -> staged e id out range -> staged e' id out range.
Proof.
  intros He Hd. destruct out as [out|], range as [x|]; try done. intros (? & ? & ?). split_and!; [done..|].
  by eapply ext_payload_is.
Qed.

Lemma run_stage_output X id out e : wf e ->
  run X (match out with
         | Some out =>
             if String.eqb out EmptyString then mret (Some (0, 0))
             else offset ← append_data id Outputs (bytes_of out); mret (Some (offset, len (bytes_of out)))
         | None => mret None
         end) (fun range e' => staged e' id out range) e.
Proof.
  intros He. destruct out as [out|]; [|by apply run_ret].
  destruct (String.eqb_spec out EmptyString) as [->|Hne]; [by apply run_ret|].
  eapply run_bind; [by apply run_append_data|cbv beta]. intros o e1 He1 (Hmax & Hd).
  apply run_ret; [apply He1|]. destruct (payload_is_bytes e1 id Outputs o out) as (? & ? & ?); [done..|]. simpl.
  destruct (String.eqb_spec out EmptyString); [done|]. by split_and!.
Qed.

Lemma run_update_task_result g r now e :
  wf e -> in_range (gid_task_id g) ->
  run (only g) (update_task_result g r now) (fun t e' => live e' (gid_ssn_id g) /\
    exists range, staged e' (gid_ssn_id g) (tr_output r) range /\ rewritten e e' g (set_result r range now) t) e.
Proof.
  intros He Hr. eapply run_bind; [by apply run_not_closed|cbv beta]. intros _ ? _ [-> Hread].
  eapply run_bind; [by apply run_none, run_stage_output|cbv beta]. intros range e1 Hx1 [Hn1 Ho].
  eapply run_mono; [apply (run_updated _ (set_result r range now)); [apply Hx1|done| |]|cbv beta].
  - apply (ext_live _ _ _ _ Hn1); [by intros []|done].
  - intros m []. split; [|done]. unfold set_result.
    split; try done; simpl; [apply i32_of_task_state_u8| |..].
    + destruct (is_terminal _); [apply timestamp_range|done].
    + destruct (tr_output r), range as [x|]; try done. by destruct Ho.
    + destruct (tr_output r), range as [x|]; try done. by destruct Ho as (_ & ? & _).
  - intros t e' He' (Hl & m0 & Hm0 & Hrest). split; [done|]. exists range. split; [by eapply ext_staged; [exact He'|intros []|]|].
    exists m0. split; [|done]. intros m' Hm'. apply Hm0. by eapply ext_decodes; [exact Hn1|intros []|intros ? _ []|].
Qed.

Lemma run_stage_input X id input e : wf e ->
  run X (match (data ← input; if String.eqb data EmptyString then None else Some data) with
         | Some data => offset ← append_data id Inputs (bytes_of data); mret (offset, len (bytes_of data))
         | None => mret (0, 0)
         end)
    (fun r e' => is_u64 r.1 /\ is_u64 r.2 /\ payload_is e' id Inputs r.1 r.2
       (data ← input; if String.eqb data EmptyString then None else Some data)) e.
Proof.
  intros He. destruct input as [data|]; simpl; [|by apply run_ret].
  destruct (String.eqb_spec data EmptyString) as [|Hne]; [by apply run_ret|].
  eapply run_bind; [by apply run_append_data|cbv beta]. intros o e1 He1 (Hmax & Hd).
  apply run_ret; [apply He1|]. by apply payload_is_bytes.
Qed.

Lemma run_stage_affinity X id (a : gset string) e : wf e ->
  run X (if bool_decide (a = ∅) then mret (0, 0)
         else
           encoded ← lift (ok_or (keys_to_allocvec (elements a)) EStorage);
           offset ← append_data id Affinity encoded;
           mret (offset, len encoded))
    (fun r e' => is_u64 r.1 /\ is_u64 r.2 /\ affinity_is e' id r.1 r.2 a) e.
Proof.
  intros He. destruct (bool_decide_reflect (a = ∅)) as [->|Hne]; [by apply run_ret|].
  destruct (keys_to_allocvec_total (elements a)) as [b Hb]. rewrite Hb.
  eapply run_bind; [by apply run_lift with (Q := fun x e' => e' = e /\ x = b); [|intros ? [= <-]]|cbv beta].
  intros ? ? _ [-> ->]. eapply run_bind; [by apply run_append_data|cbv beta]. intros o e1 He1 (Hmax & Hd).
  apply run_ret; [apply He1|]. pose proof Hd as (? & ? & _). unfold is_u64, affinity_is. simpl.
  split_and!; try lia. destruct (Z.ltb_spec 0 (len b)) as [|Hle].
  - pose proof (keys_take_to_allocvec _ _ [] Hb) as Hk. rewrite app_nil_r in Hk.
    exists b, (elements a), []. split_and!; [done..|]. by rewrite list_to_set_elements_L.
  - apply keys_to_allocvec_nonempty in Hb. destruct b; [done|]. unfold len in Hle. simpl in Hle. lia.
Qed.

Lemma task_with_data_id id m i o a t : task_with_data id m i o a = Ok t ->
  task_id t = wrap_i64 (tm_id m) /\ task_ssn_id t = id.
Proof.
  unfold task_with_data. destruct (task_state_try_from _); [|done..]. simpl.
  destruct (ok_or _ _); [|done..]. simpl. by intros [= <-].
Qed.

Lemma task_with_data_inv id m i o a t : task_with_data id m i o a = Ok t ->
  exists st created, task_state_try_from (tm_state m) = Ok st /\ from_timestamp (tm_creation_time m) = Some created /\
    t = mkTask (wrap_i64 (tm_id m)) id (tm_version m) i o a created
          (if 0 <? tm_completion_time m then from_timestamp (tm_completion_time m) else None) [] st.
Proof.
  unfold task_with_data. destruct (task_state_try_from _) as [st| |]; [|done..]. simpl.
  destruct (from_timestamp (tm_creation_time m)) as [created|]; [|done]. simpl. intros [= <-]. by exists st, created.
Qed.

Lemma has_record_small e id m : wf e -> has_record e id m -> 0 <= tm_id m < 2 ^ 63.
Proof.
  intros He (_ & _ & c & b & k & Hc & [Hl _]%record_at_Some & _ & ->).
  pose proof (wf_small e He _ _ Hc). pose proof rsize_large. unfold len, max_file_len in *. nia.
Qed.

Lemma run_create_task id input options now e : wf e ->
  run none (create_task id input options now)
    (fun t e' => (exists created, from_timestamp (timestamp now) = Some created /\
        t = mkTask (task_id t) id 1 (data ← input; if String.eqb data EmptyString then None else Some data) None
              (default ∅ (to_affinity <$> options)) created None [] TaskPending) /\
      (forall m, ~ decodes e id (task_id t) m) /\
      live e' id /\ stored e' id (task_id t) t) e.
Proof.
  intros He. eapply run_bind; [by apply run_not_closed|cbv beta]. intros _ ? _ [-> Hx]. cbv zeta.
  set (i := input ≫= _). set (a := default ∅ (to_affinity <$> options)).
  eapply run_bind; [by apply run_stage_input|cbv beta]. fold i. intros ri e1 He1 (Hi1 & Hi2 & Hi).
  eapply run_bind; [apply run_stage_affinity, He1|cbv beta]. intros ra e2 He2 (Ha1 & Ha2 & Ha).
  eapply run_bind; [apply run_commit_task; [apply He2|]|cbv beta].
  { split; try done; simpl. apply timestamp_range. }
  intros m e3 He3 (Hrec & Hnew & n & Hm). apply run_lift; [apply He3|]. intros t Ht.
  pose proof (task_with_data_id _ _ _ _ _ _ Ht) as [Hid _]. rewrite wrap_i64_small in Hid
    by (eapply has_record_small; [apply He3|done]). split; [|split].
  { apply task_with_data_inv in Ht as (st & created & Hst & Hcr & ->). rewrite Hm in Hst, Hcr |- *. simpl in *.
    injection Hst as <-. by exists created. }
  { intros m0 Hm0. rewrite Hid in Hm0. apply (Hnew (fun H => H) m0).
    by eapply ext_decodes; [eapply ext_trans; [exact He1|exact He2]|intros []|intros ? _ []|]. }
  pose proof (ext_trans _ _ _ _ He2 He3) as H23. pose proof (ext_trans _ _ _ _ He1 H23) as Hall.
  split; [apply (ext_live _ _ _ _ Hall); [by intros []|done]|]. exists m. split_and!; [done| |].
  { done. }
  exists i, None, a. rewrite Hm in *. simpl. split_and!; [|done| |done].
  - eapply ext_payload_is; [exact H23|by intros []|done|exact Hi].
  - eapply ext_affinity_is; [exact He3|by intros []|exact Ha].
Qed.

(** *** Reading back *)

(** No further call fails. *)
Definition quiet (e : t) : Prop := forall n, (fs_calls (fe_fs e) <= n)%nat -> io_fault n = None.

Definition total {A} (m : M t A) (a : A) (e : t) : Prop := wp m (fun r _ => r = Ok a) e.

Lemma ext_quiet X e e' : ext X e e' -> quiet e -> quiet e'.
Proof. intros He Hq n Hn. apply Hq. pose proof (ext_calls _ _ _ He). lia. Qed.

Lemma total_bind {A B} (m : M t A) (f : A -> M t B) Q a b e :
  run none m Q e -> total m a e -> (forall e1, ext none e e1 -> Q a e1 -> total (f a) b e1) ->
  total (m ≫= f) b e.
Proof.
  intros Hm Ht Hf. apply wp_bind. eapply wp_mono; [apply wp_and; [exact Hm|exact Ht]|].
  intros ? e1 [[He Ha] ->]. by apply Hf.
Qed.

Lemma total_session_entry id x e : fe_sessions e !! id = Some x -> total (session_entry id) x e.
Proof. intros Hx. apply wp_bind, wp_gets, wp_lift. by rewrite Hx. Qed.

Lemma total_payload_open id p create c e : wf e -> quiet e -> files e !! part_path id p = Some c ->
  total (payload_open (part_path id p) create) (len c) e.
Proof.
  intros He Hq Hc.
  assert (Ho : (or_storage (open (part_path id p) create) e) =
               (Ok tt, with_fs (mkFs (files e) (fs_dirs (fe_fs e)) (S (fs_calls (fe_fs e)))) e)).
  { unfold or_storage, mbind, M_bind, sys, zoom, open, call. rewrite Hq by done. simpl. by rewrite Hc. }
  apply wp_bind. unfold wp at 1. rewrite Ho. unfold total, wp, or_storage, mbind, M_bind, sys, zoom, file_len, call.
  simpl. rewrite Hq by (simpl; lia). simpl. by rewrite Hc.
Qed.

Lemma total_part id p x c e : wf e -> quiet e -> fe_sessions e !! id = Some x ->
  files e !! part_path id p = Some c -> exists n, total (part id p) n e.
Proof.
  intros He Hq Hx Hc.
  exists (if entry_is_closed x then len c else default (len c) (se_files x !! p)).
  eapply total_bind; [by apply run_session_entry|by apply total_session_entry|cbv beta].
  intros ? _ [-> _]. destruct (entry_is_closed x); [by apply total_payload_open|].
  destruct (se_files x !! p); [by apply wp_ret|].
  eapply total_bind; [by apply run_payload_open|by apply total_payload_open|cbv beta].
  intros e1 _ _. by apply wp_bind, wp_modify, wp_ret.
Qed.

Lemma total_read_at p c n offset e : quiet e -> files e !! p = Some c -> offset + n <= len c ->
  total (sys (read_exact_at p n offset)) (IoOk (take (Z.to_nat n) (drop (Z.to_nat offset) c))) e.
Proof.
  intros Hq Hc Hle. unfold total, wp, sys, zoom, read_exact_at, call. rewrite Hq by done. simpl.
  rewrite Hc. by destruct (Z.leb_spec (offset + n) (len c)); [|lia].
Qed.

Lemma total_read_data id p x offset n data e : wf e -> quiet e -> fe_sessions e !! id = Some x ->
  p <> Tasks -> 0 < n -> has_data e id p offset n data -> total (read_data id p offset n) data e.
Proof.
  intros He Hq Hx Hp Hn Hd. pose proof Hd as (_ & _ & c & Hc & _). unfold read_data.
  destruct (Z.eqb_spec n 0); [lia|]. destruct (total_part id p x c e) as [z Hz]; [done..|].
  eapply total_bind; [by apply run_part_any|exact Hz|cbv beta]. intros e1 He1 _.
  apply (ext_has_data _ _ _ _ _ _ _ _ He1 (fun H => H) Hp) in Hd as (_ & _ & c1 & Hc1 & Hle & ->).
  apply wp_bind. eapply wp_mono; [apply total_read_at; [by eapply ext_quiet|done..]|].
  intros ? e2 ->. by apply wp_ret.
Qed.

Lemma has_record_in_range e id m : wf e -> has_record e id m -> in_range (tm_id m).
Proof.
  intros He (_ & _ & c & b & k & Hc & [Hl _]%record_at_Some & _ & ->).
  pose proof (wf_small e He _ _ Hc). unfold in_range. rewrite record_size_rsize.
  unfold len, max_file_len, u64_max in *. nia.
Qed.

Lemma total_read_task_record id x m e : wf e -> quiet e -> fe_sessions e !! id = Some x ->
  has_record e id m -> total (read_task_record id (tm_id m)) m e.
Proof.
  intros He Hq Hx Hrec. pose proof Hrec as (Hm & Hsum & c & b & k & Hc & Hb & Henc & Hk).
  pose proof (has_record_in_range _ _ _ He Hrec) as Hr. unfold read_task_record.
  destruct (Z.ltb_spec (tm_id m) 1); [lia|]. destruct (total_part id Tasks x c e) as [z Hz]; [done..|].
  eapply (total_bind _ _ _ (Ok z)); [apply run_attempt; by apply run_part_any| |cbv beta].
  { apply wp_attempt. eapply wp_mono; [exact Hz|]. by intros ? e1 ->. }
  intros e1 He1 _. apply (ext_has_record _ _ _ _ _ He1 (fun H => H)) in Hrec as (_ & _ & c1 & b1 & k1 & Hc1 & Hb1 & Henc1 & Hk1);
    [|by intros k0 _ []].
  apply wp_bind, wp_lift, wp_bind. rewrite Hk1, record_offset_at by (by rewrite <-Hk1).
  apply record_at_Some in Hb1 as [Hl1 ->].
  eapply wp_mono; [apply total_read_at; [by eapply ext_quiet|done|]|].
  { rewrite record_size_rsize. unfold len. lia. }
  intros ? e2 ->. rewrite Nat2Z.id. pose proof (take_to_allocvec m _ [] Hm Henc1) as Hdec.
  rewrite app_nil_r in Hdec. fold rsize. rewrite Hdec. apply wp_bind, wp_lift. simpl.
  rewrite Hsum, Z.eqb_refl. by apply wp_ret.
Qed.

Lemma total_payload id p x offset n o e : wf e -> quiet e -> fe_sessions e !! id = Some x ->
  p <> Tasks -> payload_is e id p offset n o -> total (payload id p offset n) o e.
Proof.
  intros He Hq Hx Hp. unfold payload_is, payload. destruct (Z.ltb_spec 0 n); [|intros ->; by apply wp_ret].
  intros (data & Hd & ->). apply wp_bind. eapply wp_mono; [by eapply total_read_data|].
  intros ? e1 ->. by apply wp_ret.
Qed.

Lemma total_task_from_metadata id m tk x e : wf e -> quiet e -> meta_ok m ->
  fe_sessions e !! id = Some x -> described e id m tk -> total (task_from_metadata id m) tk e.
Proof.
  intros He Hq Hm Hx (i & o & a & Hi & Ho & Ha & Ht).
  eapply total_bind; [apply run_payload; [done..|apply Hm]|by eapply total_payload|cbv beta]. intros e1 He1 _.
  destruct (ext_sessions _ _ _ He1 id (fun H => H) ltac:(eauto)) as [x1 Hx1].
  pose proof (ext_quiet _ _ _ He1 Hq) as Hq1.
  apply (ext_payload_is _ _ _ _ _ _ _ _ He1 (fun H => H)) in Ho; [|done].
  apply (ext_affinity_is _ _ _ _ _ _ _ He1 (fun H => H)) in Ha. apply ext_wf in He1.
  eapply total_bind; [apply run_payload; [done..|apply Hm]|by eapply total_payload|cbv beta]. intros e2 He2 _.
  destruct (ext_sessions _ _ _ He2 id (fun H => H) ltac:(eauto)) as [x2 Hx2].
  pose proof (ext_quiet _ _ _ He2 Hq1) as Hq2.
  apply (ext_affinity_is _ _ _ _ _ _ _ He2 (fun H => H)) in Ha. apply ext_wf in He2.
  apply (total_bind _ _ (fun _ _ => True) a).
  - eapply run_mono; [apply run_affinity; [done|apply Hm]|done].
  - unfold affinity_is in Ha. destruct (Z.ltb_spec 0 (tm_affinity_len m)); [|subst a; by apply wp_ret].
    destruct Ha as (data & keys & rest & Hd & Hk & ->). apply wp_bind.
    eapply wp_mono; [by eapply total_read_data|]. intros ? e3 ->. rewrite Hk. by apply wp_bind, wp_lift, wp_ret.
  - intros e3 He3 _. destruct (ext_sessions _ _ _ He3 id (fun H => H) ltac:(eauto)) as [x3 Hx3].
    apply wp_bind. eapply wp_mono; [by apply total_session_entry|]. intros ? e4 ->. apply wp_lift.
    by rewrite (wf_ids e3 (ext_wf _ _ _ He3) _ _ Hx3).
Qed.

(** What is stored is what is read. *)
Lemma total_get_task id task_id tk e : wf e -> quiet e -> live e id -> stored e id task_id tk ->
  total (get_task (mkGID id task_id)) tk e.
Proof.
  intros He Hq [[x Hx] _] (m & Hrec & <- & Hd).
  eapply total_bind; [by apply run_session_entry|by apply total_session_entry|cbv beta]. intros ? _ [-> _].
  simpl. eapply total_bind; [apply run_read_task_record; [done|by eapply has_record_in_range]|
    by eapply total_read_task_record|cbv beta].
  intros e1 He1 _. destruct (ext_sessions _ _ _ He1 id (fun H => H) ltac:(eauto)) as [x1 Hx1].
  eapply total_task_from_metadata; [apply He1|by eapply ext_quiet|apply Hrec|exact Hx1|].
  by eapply ext_described; [exact He1|intros []|].
Qed.
End growth.
