(* ===== verification/FsDurable.v ===== *)
(** * Every operation on the disk

    What each operation of the filesystem engine, and a restart, can do to the
    records of tasks, whatever I/O errors it runs into; the tasks that survive,
    and how a restart finds them again. *)
From Stdlib Require Import Ascii.
From S2P Require Import Prelude Types Session Filters Snapshot Events Engine Storage StorageInv Codes FsDisk FsRecord FsEngine FsDemo FsInv FsTasks.
Import FilesystemEngine.
Local Open Scope Z_scope.

Section effects.
Context `{Disk} `{Crates} `{!CratesSpec} `{Env}.

Abbreviation files e := (fs_files (fe_fs e)).

(** ** Effects away from task files *)

Lemma keeps_run {A} X e0 (m : M t A) (Q : t -> A -> t -> Prop) :
  (forall e, wf e -> run X m (Q e) e) -> keeps (ext X e0) m.
Proof.
  intros Hm. apply keeps_wp. intros e He. eapply wp_mono; [apply Hm, He|]. cbv beta.
  intros r e' [He' _]. by eapply ext_trans.
Qed.

Lemma keeps_none {A} X e0 (m : M t A) : (forall e1, keeps (ext none e1) m) -> keeps (ext X e0) m.
Proof.
  intros Hm e He. pose proof (Hm e e (ext_refl _ _ (ext_wf _ _ _ He))) as Hr.
  eapply ext_trans; [exact He|]. eapply ext_weaken; [apply within_none|done].
Qed.

(** Files that are not part of a session's tasks or metadata. *)
Definition off_parts (p : path) : Prop :=
  (forall id q, p <> part_path id q) /\ (forall id, p <> metadata_path id).

Lemma off_sessions_parts p : off_sessions p -> off_parts p.
Proof. intros Hp. split; intros; intros ->; by apply Hp. Qed.

Lemma ext_other X e e' : wf e ->
  (forall id p, files e' !! part_path id p = files e !! part_path id p) ->
  (forall id, files e' !! metadata_path id = files e !! metadata_path id) ->
  (forall p c, files e' !! p = Some c -> len c <= max_file_len) ->
  (fs_calls (fe_fs e) <= fs_calls (fe_fs e'))%nat -> fe_sessions e' = fe_sessions e -> ext X e e'.
Proof.
  intros [Hi Hm Ho Hs Hr He] Hf Hmf Hsm Hc Hss. split; [split|done|..].
  - intros id x. rewrite Hss. apply Hi.
  - intros id c m. rewrite Hmf. apply Hm.
  - intros id x. rewrite Hss. intros Hx Hcl. eapply readable_same; [apply Hmf|by eapply Ho].
  - done.
  - intros id c. rewrite Hf. apply Hr.
  - intros id x p n. rewrite Hss, Hf. apply He.
  - intros id _. apply readable_same, Hmf.
  - intros id _. by rewrite Hss.
  - intros id p c _ _. rewrite Hf. eauto.
  - intros id c k b _. rewrite Hf. eauto 10.
Qed.

Lemma keeps_look {A} X e0 (f : Fs -> io A) :
  (forall fs n, f (mkFs (fs_files fs) (fs_dirs fs) n) = f fs) ->
  keeps (ext X e0) (sys (call intact (fun fs => (f fs, fs)))).
Proof. intros Hf. eapply keeps_run. intros e He. by apply (run_look _ f). Qed.

Lemma insert_other p c e q : p <> q -> <[p := c]> (files e) !! q = files e !! q.
Proof. apply lookup_insert_ne. Qed.

Lemma ext_insert X e p c n d : wf e -> off_parts p -> len c <= max_file_len ->
  (fs_calls (fe_fs e) <= n)%nat -> ext X e (with_fs (mkFs (<[p := c]> (files e)) d n) e).
Proof.
  intros He [Hp Hm] Hc Hn. apply ext_other; try done; simpl.
  - intros. by apply insert_other.
  - intros. by apply insert_other.
  - intros q c' [[_ <-]|[_ ?]]%lookup_insert_Some; [done|by eapply wf_small].
Qed.

Lemma keeps_write X e0 p data : off_parts p -> keeps (ext X e0) (sys (write p data)).
Proof.
  intros Hp. apply (keeps_run _ _ _ (fun _ _ _ => True)). intros e He. unfold run, wp, sys, zoom, write, call.
  destruct (io_fault _) as [[|k]|]; simpl.
  - split; [|done]. apply ext_step; simpl; auto with lia.
  - split; [|done]. destruct (bool_decide_reflect (parent p ∈ fs_dirs (fe_fs e) /\ len data <= max_file_len)) as [[_ Hl]|];
      [|apply ext_step; simpl; auto with lia].
    apply ext_insert; [done..| |simpl; lia]. unfold len in *. rewrite length_take. lia.
  - destruct (negb _); simpl; [split; [apply ext_step; simpl; auto with lia|done]|].
    destruct (Z.ltb_spec max_file_len (len data)); simpl; (split; [|done]);
      [apply ext_step; simpl; auto with lia|apply ext_insert; [done..|simpl; lia]].
Qed.

Lemma keeps_rename X e0 p q : off_parts p -> off_parts q -> keeps (ext X e0) (sys (rename p q)).
Proof.
  intros [Hp Hpm] [Hq Hqm]. apply (keeps_run _ _ _ (fun _ _ _ => True)). intros e He.
  unfold run, wp, sys, zoom, rename, call. destruct (io_fault _) as [k|]; simpl.
  - split; [|done]. apply ext_step; simpl; auto with lia.
  - destruct (files e !! p) as [c|] eqn:Hc; simpl; (split; [|done]); [|apply ext_step; simpl; auto with lia].
    apply ext_other; simpl; auto with lia.
    + intros. by rewrite lookup_insert_ne, lookup_delete_ne.
    + intros. by rewrite lookup_insert_ne, lookup_delete_ne.
    + intros r c' [[_ <-]|[_ [_ ?]%lookup_delete_Some]]%lookup_insert_Some; by eapply wf_small.
Qed.

Lemma keeps_create_dir_all X e0 p : keeps (ext X e0) (sys (create_dir_all p)).
Proof.
  apply (keeps_run _ _ _ (fun _ _ _ => True)). intros e He. unfold run, wp, sys, zoom, create_dir_all, call.
  destruct (io_fault _) as [k|]; simpl; (split; [|done]); apply ext_step; simpl; auto with lia.
Qed.

Lemma lookup_remove_under dir keep fs p :
  under dir p = false -> fs_files (remove_under dir keep fs) !! p = fs_files fs !! p.
Proof.
  intros Hp. unfold remove_under. simpl. destruct (fs_files fs !! p) as [c|] eqn:Hc.
  - apply map_lookup_filter_Some. simpl. by rewrite Hp.
  - apply map_lookup_filter_None. by left.
Qed.

Lemma remove_under_Some dir keep fs p c :
  fs_files (remove_under dir keep fs) !! p = Some c -> fs_files fs !! p = Some c.
Proof. unfold remove_under. simpl. by intros [? _]%map_lookup_filter_Some. Qed.

Lemma under_off dir p : dir <> [] -> off_sessions dir -> head p = Some "sessions"%string -> under dir p = false.
Proof.
  intros Hne Hoff Hp. apply bool_decide_eq_false. intros [rest ->]. destruct dir as [|d dir]; [done|].
  simpl in Hp. by apply Hoff.
Qed.

Lemma keeps_remove_dir_all X e0 p : p <> [] -> off_sessions p -> keeps (ext X e0) (sys (remove_dir_all p)).
Proof.
  intros Hne Hoff. apply (keeps_run _ _ _ (fun _ _ _ => True)). intros e He.
  unfold run, wp, sys, zoom, remove_dir_all, call.
  assert (Hrm : forall keep, ext X e (with_fs (remove_under p keep
    (mkFs (files e) (fs_dirs (fe_fs e)) (S (fs_calls (fe_fs e))))) e)).
  { intros keep. apply ext_other; simpl; auto with lia.
    - intros. by apply lookup_remove_under, under_off.
    - intros. by apply lookup_remove_under, under_off.
    - intros q c [? _]%map_lookup_filter_Some. by eapply wf_small. }
  destruct (io_fault _) as [k|]; simpl; [split; [apply Hrm|done]|].
  destruct (bool_decide _); simpl; (split; [|done]); [apply Hrm|apply ext_step; simpl; auto with lia].
Qed.

Lemma ext_frame X e0 : frame (ext X e0).
Proof.
  split; intros.
  - by apply keeps_look.
  - by apply keeps_look.
  - apply keeps_create_dir_all.
  - by apply keeps_write, off_sessions_parts.
  - by apply keeps_rename; apply off_sessions_parts.
  - by apply keeps_remove_dir_all.
  - apply (keeps_run _ _ _ (fun _ _ _ => True)). intros e He. split; [by apply ext_step|done].
  - apply (keeps_run _ _ _ (fun _ _ _ => True)). intros e He. destruct (H3 e) as [Hs Hf].
    apply wp_modify. split; [|done]. apply ext_step; rewrite ?Hf; done.
Qed.

(** ** Reading *)

Lemma keeps_part X e0 id p : keeps (ext X e0) (part id p).
Proof. eapply (keeps_run _ _ _ (fun _ _ _ => True)). intros. by apply run_part_any. Qed.
Lemma keeps_entry X e0 id : keeps (ext X e0) (session_entry id).
Proof. unfold session_entry. keeps_tac. Qed.
Hint Resolve keeps_part keeps_entry : flame.

Lemma keeps_read_record X e0 id n : keeps (ext X e0) (read_task_record id n).
Proof.
  unfold read_task_record. keeps_step; [by eauto with flame|].
  keeps_step; [by apply keeps_attempt; eauto with flame|]. keeps_step; [by eauto with flame|].
  keeps_step; [by apply keeps_look|keeps_tac].
Qed.
Lemma keeps_read_data X e0 id p offset n : keeps (ext X e0) (read_data id p offset n).
Proof.
  unfold read_data. keeps_step; [by eauto with flame|]. keeps_step; [by eauto with flame|].
  by apply frame_or_storage, keeps_look.
Qed.
Hint Resolve keeps_read_record keeps_read_data : flame.

Lemma keeps_task_from_metadata X e0 id m : keeps (ext X e0) (task_from_metadata id m).
Proof. unfold task_from_metadata, payload. keeps_tac. Qed.
Lemma keeps_count_states X e0 id states l n : keeps (ext X e0) (count_states id states l n).
Proof. revert n. induction l as [|x l IH]; simpl; intros; keeps_tac. Qed.
Lemma keeps_task_count X e0 id : keeps (ext X e0) (task_count id).
Proof. unfold task_count. keeps_step; [by apply keeps_look|keeps_tac]. Qed.
Hint Resolve keeps_task_from_metadata keeps_count_states keeps_task_count : flame.

Lemma keeps_count_task X e0 f : keeps (ext X e0) (count_task f).
Proof. unfold count_task. keeps_tac. Qed.
Lemma keeps_session_from_metadata X e0 m : keeps (ext X e0) (session_from_metadata m).
Proof.
  unfold session_from_metadata, read_common_data. keeps_step; [by eauto with flame|].
  keeps_step; [|keeps_tac]. keeps_step; [by eauto with flame|].
  keeps_step; [by apply keeps_look|keeps_tac].
Qed.
Hint Resolve keeps_count_task keeps_session_from_metadata : flame.

Lemma keeps_reads X e0 :
  (forall id, keeps (ext X e0) (get_session id)) /\ keeps (ext X e0) find_sessions /\
  (forall g, keeps (ext X e0) (get_task g)) /\ (forall id, keeps (ext X e0) (find_tasks id)).
Proof.
  split_and!; intros.
  - unfold get_session. keeps_tac.
  - unfold find_sessions. keeps_step; [by eauto with flame|].
    induction a as [|x l IH]; simpl; keeps_tac.
  - unfold get_task. keeps_tac.
  - unfold find_tasks. keeps_step; [by eauto with flame|]. keeps_step; [by eauto with flame|].
    generalize (task_ids a0). intros l. induction l as [|x l IH]; simpl; [by eauto with flame|].
    keeps_step; [by apply keeps_attempt; keeps_tac|keeps_tac].
Qed.

(** ** Session metadata *)

Definition temporary_path (id : string) : path := session_path id ++ ["metadata.tmp"%string].

Lemma off_parts_session id f : f <> "metadata"%string -> (forall q, f <> file_name q) ->
  off_parts (session_path id ++ [f]).
Proof. intros Hf Hq. split; [intros id' q [= _ ?]|intros id' [= _ ?]]; naive_solver. Qed.

Lemma metadata_path_inj id id' : metadata_path id = metadata_path id' -> id = id'.
Proof. by intros [= ->]. Qed.

Lemma ext_metadata X e c m d n : wf e -> from_str c = Some m -> len c <= max_file_len ->
  (fs_calls (fe_fs e) <= n)%nat ->
  ext X e (with_fs (mkFs (<[metadata_path (sm_id m) := c]>
    (delete (temporary_path (sm_id m)) (files e))) d n) e).
Proof.
  intros He Hm Hc Hn. set (e' := with_fs _ e).
  assert (Hpart : forall id p, files e' !! part_path id p = files e !! part_path id p).
  { intros. simpl. rewrite lookup_insert_ne by (apply not_eq_sym, part_path_metadata).
    rewrite lookup_delete_ne; [done|]. intros [= _ Hq]. by destruct p. }
  assert (Hread : forall id, readable e id \/ id = sm_id m -> readable e' id).
  { intros id Hid. destruct (decide (id = sm_id m)) as [->|Hne].
    - exists c, m. simpl. by rewrite lookup_insert_eq.
    - destruct Hid as [Hid|]; [|done]. eapply readable_same; [|exact Hid]. simpl.
      rewrite lookup_insert_ne by (by intros ?%metadata_path_inj). by rewrite lookup_delete_ne. }
  split; [split|done|..]; try (intros; rewrite Hpart in *).
  - apply He.
  - intros id c' m'. simpl. intros [[<-%metadata_path_inj <-]|[_ [_ Hc']%lookup_delete_Some]]%lookup_insert_Some Hm'.
    + congruence.
    + by eapply wf_meta.
  - intros id x Hx Hcl. apply Hread. left. by eapply wf_open.
  - intros p c'. simpl. intros [[_ <-]|[_ [_ ?]%lookup_delete_Some]]%lookup_insert_Some; [done|by eapply wf_small].
  - by eapply wf_records.
  - destruct (wf_ends e He id x p n0) as [? Hends]; [done..|]. by split.
  - auto.
  - done.
  - eauto.
  - eauto 10.
Qed.

Lemma run_write_temporary X id data e : wf e ->
  run X (or_storage (write (temporary_path id) data)) (fun _ e' =>
    fe_sessions e' = fe_sessions e /\ files e' !! temporary_path id = Some data) e.
Proof.
  intros He. assert (Hp : off_parts (temporary_path id)) by (apply off_parts_session; [done|by intros []]).
  apply run_or_storage. unfold run. eapply wp_mono; [apply wp_and|].
  - apply (wp_keeps (ext X e)); [by apply keeps_write|by apply ext_refl].
  - instantiate (1 := fun r e' => r = Ok (IoOk tt) ->
      fe_sessions e' = fe_sessions e /\ files e' !! temporary_path id = Some data).
    unfold wp, sys, zoom, write, call. destruct (io_fault _); [done|].
    destruct (negb _); [done|]. destruct (_ <? _); [done|]. intros _. simpl. by rewrite lookup_insert_eq.
  - cbv beta. intros r e' [He' Hr]. split; [done|]. destruct r as [r| |]; [|done..]. intros [] ->. by apply Hr.
Qed.

Lemma run_write_session_metadata X m e : wf e ->
  run X (write_session_metadata (sm_id m) m) (fun _ e' =>
    fe_sessions e' = fe_sessions e /\ readable e' (sm_id m)) e.
Proof.
  intros He. destruct (to_string_pretty_total m) as [c Hc]. unfold write_session_metadata, write_metadata.
  rewrite Hc. eapply run_bind; [by apply run_lift with (Q := fun x e' => e' = e /\ x = c); [|intros ? [= <-]]|cbv beta].
  intros ? ? _ [-> ->]. eapply run_bind; [by apply run_write_temporary|cbv beta].
  intros _ e1 He1 [Hs1 Ht1]. apply ext_wf in He1. apply run_or_storage.
  unfold run, wp, sys, zoom, rename, call. fold (temporary_path (sm_id m)) (metadata_path (sm_id m)).
  destruct (io_fault _); simpl; [split; [apply ext_step; simpl; auto with lia|done]|].
  rewrite Ht1. simpl. pose proof (from_to_string m c Hc) as Hm.
  split; [apply ext_metadata; try done; [by eapply wf_small|simpl; lia]|]. intros _ _. split; [done|].
  exists c, m. simpl. by rewrite lookup_insert_eq.
Qed.

Lemma run_put_session X id x e : wf e -> sm_id (se_metadata x) = id ->
  (entry_is_closed x = false -> readable e id) ->
  (forall p n, se_files x !! p = Some n -> 0 <= n <= u64_max /\
     (p <> Tasks -> forall c, files e !! part_path id p = Some c -> len c <= n)) ->
  run X (put_session id x) (fun _ e' => e' = with_sessions (<[id := x]> (fe_sessions e)) e) e.
Proof. intros. apply wp_modify. split; [by apply ext_put_session|done]. Qed.

Lemma run_commit_session X id x m e : wf e -> fe_sessions e !! id = Some x -> sm_id m = id ->
  run X (commit_session_metadata id x m) (fun _ _ => True) e.
Proof.
  intros He Hx Hm. subst id. eapply run_bind; [by apply run_write_session_metadata|cbv beta].
  intros _ e1 He1 [Hs Hread]. apply ext_wf in He1. rewrite <-Hs in Hx. cbv zeta.
  eapply run_bind; [apply run_put_session; [done..|]|cbv beta].
  - simpl. intros p n Hn. by apply (wf_ends e1 He1 _ _ _ _ Hx).
  - intros _ e2 He2 _. apply run_ret; [apply He2|done].
Qed.

Lemma run_release X id e : wf e -> run X (release id) (fun _ _ => True) e.
Proof.
  intros He. eapply run_bind; [by apply run_session_entry|cbv beta]. intros x ? _ [-> Hx].
  eapply run_bind; [apply run_put_session; [done|exact (wf_ids e He _ _ Hx)|exact (wf_open e He _ _ Hx)|done]|cbv beta].
  intros _ e2 He2 _. apply run_ret; [apply He2|done].
Qed.

Lemma keeps_release X e0 id : keeps (ext X e0) (release id).
Proof. eapply (keeps_run _ _ _ (fun _ _ _ => True)). intros. by apply run_release. Qed.
Hint Resolve keeps_release : flame.

Lemma run_keeps {A} X (m : M t A) e : (forall e0, keeps (ext X e0) m) -> wf e -> run X m (fun _ _ => True) e.
Proof.
  intros Hm He. unfold run. eapply wp_mono; [apply (wp_keeps (ext X e)); [apply Hm|by apply ext_refl]|].
  intros r e' He'. split; [done|by destruct r].
Qed.

Lemma run_update_session_state X id st e : wf e -> run X (update_session_state id st) (fun _ _ => True) e.
Proof.
  intros He. eapply run_bind; [by apply run_session_entry|cbv beta]. intros x ? _ [-> Hx].
  destruct (entry_is_closed x); [by apply run_throw|]. cbv zeta.
  eapply run_bind; [apply run_commit_session; [done..|exact (wf_ids e He _ _ Hx)]|cbv beta].
  intros y e1 He1 _. apply run_keeps; [|apply He1]. intros e0. keeps_tac.
Qed.

(** All the records of a session. *)
Definition whole (id : string) : scope := mkScope (fun id' _ => id' = id) (fun _ => False).

Lemma task_ids_range n i : In i (task_ids n) -> 1 <= i <= n.
Proof.
  unfold task_ids. intros (k & <- & Hk%in_seq)%in_map_iff. lia.
Qed.

Lemma run_task_count X id e : wf e ->
  run X (task_count id) (fun n _ => forall i, In i (task_ids n) -> in_range i) e.
Proof.
  intros He. eapply run_bind; [apply run_look; [done|by intros]|cbv beta].
  intros r e1 He1 (_ & _ & Hr). apply run_ret; [apply He1|]. intros i Hi%task_ids_range.
  destruct r as [n|]; [|lia]. specialize (Hr n eq_refl).
  destruct (files e !! part_path id Tasks) as [c|] eqn:Hc; [|done]. injection Hr as <-.
  pose proof (wf_small e He _ _ Hc). destruct (record_count c) as (j & Hj & Hdiv & _). rewrite Hdiv in Hi.
  unfold in_range. rewrite record_size_rsize. unfold len, max_file_len, u64_max in *. nia.
Qed.

Lemma run_close_scan X id l e : wf e -> run X (close_scan id l) (fun p _ => incl p l) e.
Proof.
  revert e. induction l as [|i l IH]; intros e He; simpl; [by apply run_ret; [|apply incl_nil_l]|].
  eapply run_bind; [by apply run_keeps; [intros; apply keeps_read_record|]|cbv beta]. intros m e1 He1 _.
  eapply run_bind; [by apply run_lift with (Q := fun _ _ => True); [apply He1|]|cbv beta]. intros st e2 He2 _.
  destruct (bool_decide _); [apply run_throw, He2|]. eapply run_bind; [apply IH, He2|cbv beta].
  intros p e3 He3 Hp. apply run_ret; [apply He3|]. destruct (bool_decide _); [|by apply incl_tl].
  apply incl_cons; [by left|by apply incl_tl].
Qed.

Lemma run_for_each {A} X (l : list A) (body : A -> M t unit) e : wf e ->
  (forall a e, In a l -> wf e -> run X (body a) (fun _ _ => True) e) -> run X (for_each l body) (fun _ _ => True) e.
Proof.
  revert e. induction l as [|a l IH]; intros e He Hb; simpl; [by apply run_ret|].
  eapply run_bind; [apply Hb; [by left|done]|cbv beta]. intros _ e1 He1 _.
  apply IH; [apply He1|]. intros b e2 Hin He2. apply Hb; [by right|done].
Qed.

Lemma run_close_session id now e : wf e -> run (whole id) (close_session id now) (fun _ _ => True) e.
Proof.
  intros He. eapply run_bind; [by apply run_session_entry|cbv beta]. intros x ? _ [-> Hx].
  destruct (entry_is_closed x); [apply run_keeps; [intros; keeps_tac|done]|].
  eapply run_bind; [eapply run_bind; [by apply run_task_count|cbv beta]|cbv beta].
  { intros n e1 He1 Hn. by apply run_ret; [apply He1|exact Hn]. }
  intros n e1 He1 Hn. eapply run_bind; [apply run_close_scan, He1|cbv beta]. intros pending e2 He2 Hp.
  eapply run_bind; [apply run_for_each; [apply He2|]|cbv beta].
  { intros i e3 Hi He3. eapply run_bind; [apply run_update_task; [done|by apply Hn, Hp|done|]|cbv beta].
    - intros m Hm. by apply set_task_state_ok.
    - intros m e4 He4 _. apply run_ret; [apply He4|done]. }
  intros _ e3 He3 _. eapply run_bind; [apply run_session_entry, He3|cbv beta]. intros y ? _ [-> Hy]. cbv zeta.
  eapply run_bind; [apply run_commit_session; [apply He3|done|]|cbv beta].
  { exact (wf_ids e3 (ext_wf _ _ _ He3) _ _ Hy). }
  intros _ e4 He4 _. apply run_keeps; [intros; keeps_tac|apply He4].
Qed.

(** ** Sessions that come and go *)

Definition dropped (id : string) : scope := mkScope (fun _ _ => False) (fun id' => id' = id).

Lemma under_session id p : under (session_path id) p = true -> exists rest, p = session_path id ++ rest.
Proof. unfold under. intros [rest ->]%bool_decide_eq_true. eauto. Qed.

Lemma ext_drop id x keep e : wf e -> fe_sessions e !! id = Some x -> entry_is_closed x = true ->
  ext (dropped id) e (with_fs (remove_under (session_path id) keep
    (mkFs (files e) (fs_dirs (fe_fs e)) (S (fs_calls (fe_fs e))))) e).
Proof.
  intros He Hx Hcl. set (e' := with_fs _ e).
  assert (Hsub : forall p c, files e' !! p = Some c -> files e !! p = Some c)
    by (intros p c Hc; exact (remove_under_Some _ _ _ _ _ Hc)).
  assert (Hsame : forall id' f, id' <> id ->
    files e' !! (session_path id' ++ f) = files e !! (session_path id' ++ f)).
  { intros id' f Hne. apply (lookup_remove_under _ keep (mkFs (files e) _ _)), bool_decide_eq_false. by intros [rest [= ->]]. }
  assert (Hread : forall id', id' <> id -> readable e id' -> readable e' id')
    by (intros id' Hne; apply readable_same, Hsame, Hne).
  split; [split|simpl; lia|..].
  - apply He.
  - intros id' c m ?%Hsub. by eapply wf_meta.
  - intros id' y Hy Hcy. destruct (decide (id' = id)) as [->|Hne]; [simpl in Hy; congruence|].
    apply Hread; [done|by eapply wf_open].
  - intros p c ?%Hsub. by eapply wf_small.
  - intros id' c ?%Hsub. by eapply wf_records.
  - intros id' y p n Hy Hn. destruct (wf_ends e He id' y p n) as [? Hends]; [done..|]. split; [done|].
    intros Hp c ?%Hsub. by apply Hends.
  - done.
  - done.
  - intros id' p c Hd _ Hc. unfold part_path. rewrite Hsame by done. eauto.
  - intros id' c k b Hd Hc Hb. unfold part_path. rewrite Hsame by done. eauto 10.
Qed.

(** A closed session has no open files: reading it leaves the registry. *)
Lemma keeps_closed_count id x : entry_is_closed x = true ->
  keeps (fun e => fe_sessions e !! id = Some x) (count_task (non_terminal id)) /\
  keeps (fun e => fe_sessions e !! id = Some x) (session_from_metadata (se_metadata x)).
Proof.
  intros Hcl. set (P := fun e : t => _). assert (Hsys : forall B (m : M Fs B), keeps P (sys m)) by
    (intros; apply keeps_zoom; by intros).
  assert (Hread : forall n, keeps P (read_task_record id n)).
  { intros n. unfold read_task_record. keeps_step; [by eauto with flame|]. keeps_step; [|keeps_tac].
    apply keeps_attempt, keeps_wp. intros e He. apply wp_bind. eapply wp_mono; [apply wp_bind, wp_gets, wp_lift|].
    - instantiate (1 := fun r e' => r = Ok x /\ P e'). by rewrite He.
    - intros ? e1 [-> He1]. simpl. rewrite Hcl. apply wp_keeps; [|done]. unfold payload_open, or_storage. keeps_tac. }
  split; [|unfold session_from_metadata, read_common_data; keeps_tac].
  unfold count_task, task_count. simpl. keeps_step; [keeps_tac|]. generalize 0. induction (task_ids a) as [|i l IH];
    simpl; intros; keeps_tac.
Qed.

Lemma run_and_keeps {A} X (P : t -> Prop) (m : M t A) Q e :
  run X m Q e -> keeps P m -> P e -> run X m (fun a e' => Q a e' /\ P e') e.
Proof.
  intros Hm HP He. unfold run in *. eapply wp_mono; [apply wp_and; [exact Hm|by apply (wp_keeps P)]|].
  cbv beta. intros r e' [[? Hr] ?]. split; [done|]. by destruct r.
Qed.

Lemma run_delete_session id e : wf e -> run (dropped id) (delete_session id) (fun _ _ => True) e.
Proof.
  intros He. eapply run_bind; [by apply run_session_entry|cbv beta]. intros x ? _ [-> Hx].
  destruct (entry_is_closed x) eqn:Hcl; [|by apply run_throw]. destruct (keeps_closed_count id x Hcl) as [Hk1 Hk2].
  eapply run_bind; [eapply run_and_keeps; [by apply run_keeps; [intros; apply keeps_count_task|]|exact Hk1|done]|cbv beta].
  intros n e1 He1 [_ Hx1]. apply ext_wf in He1. destruct (0 <? n); [by apply run_throw|].
  eapply run_bind; [eapply run_and_keeps;
    [by apply run_keeps; [intros; apply keeps_session_from_metadata|]|exact Hk2|done]|cbv beta].
  intros s e2 He2 [_ Hx2]. apply ext_wf in He2.
  eapply run_bind with (Q := fun _ _ => True).
  - apply run_or_storage. unfold run, wp, sys, zoom, remove_dir_all, call.
    destruct (io_fault _); simpl; [split; [by eapply ext_drop|done]|].
    destruct (bool_decide _); simpl; (split; [|done]); [by eapply ext_drop|apply ext_step; simpl; auto with lia].
  - intros _ e3 He3 _. apply ext_wf in He3. eapply run_bind with (Q := fun _ _ => True).
    + apply wp_modify. split; [|done]. split; [split|done|..]; try apply He3; simpl.
      * intros id' y. simpl. intros [_ ?]%lookup_delete_Some. by apply (wf_ids e3 He3).
      * intros id' y [_ ?]%lookup_delete_Some. by apply (wf_open e3 He3).
      * intros id' y p z [_ ?]%lookup_delete_Some. by apply (wf_ends e3 He3).
      * eauto.
      * intros id' Hd ?. by rewrite lookup_delete_ne by (by intros ->).
      * eauto.
      * eauto 10.
    + intros _ e4 He4 _. apply run_ret; [apply He4|done].
Qed.

Lemma run_truncate id p e : wf e ->
  run (dropped id) (or_storage (write (part_path id p) [])) (fun _ e' => fe_sessions e' = fe_sessions e) e.
Proof.
  intros He. apply run_or_storage. unfold run, wp, sys, zoom, write, call.
  assert (Hput : ext (dropped id) e (with_fs (mkFs (<[part_path id p := []]> (files e)) (fs_dirs (fe_fs e))
    (S (fs_calls (fe_fs e)))) e)).
  { apply ext_put; [done|by vm_compute|lia|..].
    - intros _. split; [apply records_ok_nil|]. by intros c k b [].
    - intros _. split; [by intros c []|]. intros x z Hx Hz.
      destruct (wf_ends e He _ _ _ _ Hx Hz) as [[? _] _]. done. }
  destruct (io_fault _) as [[|k]|]; simpl.
  - split; [apply ext_step; simpl; auto with lia|done].
  - split; [|done]. rewrite take_nil. destruct (bool_decide _); [exact Hput|apply ext_step; simpl; auto with lia].
  - destruct (negb _); simpl; (split; [|done]); [apply ext_step; simpl; auto with lia|exact Hput].
Qed.

Lemma run_create_session attr now e : wf e ->
  run (dropped (sa_id attr)) (create_session attr now) (fun _ _ => True) e.
Proof.
  intros He. unfold create_session. destruct (String.eqb _ _); [by apply run_throw|].
  eapply run_bind; [apply run_keeps; [|done]|cbv beta].
  { intros. apply keeps_attempt. apply (frame_read_metadata _ (ext_frame _ _)). }
  intros r e1 He1 _. destruct (is_ok r); [apply run_throw, He1|].
  eapply run_bind; [apply run_keeps; [intros; apply frame_or_storage, keeps_create_dir_all|apply He1]|cbv beta].
  intros _ e2 He2 _. eapply run_bind; [apply run_keeps; [|apply He2]|cbv beta].
  { intros. unfold write_common_data. keeps_step; [|by eauto with flame]. keeps_step; [|by eauto with flame].
    apply frame_or_storage, keeps_write, off_parts_session; [done|by intros []]. }
  intros n e3 He3 _. cbv zeta. do 3 (eapply run_bind; [apply run_truncate; by eapply ext_wf|cbv beta];
    clear He3; intros _ ? He3 _).
  set (m := session_metadata_from attr n now).
  eapply run_bind; [apply (run_write_session_metadata _ m), He3|cbv beta]. intros _ f5 He5 [Hs Hread].
  eapply run_bind; [apply run_none, run_keeps; [intros; apply keeps_session_from_metadata|apply He5]|cbv beta].
  intros s f6 _ [He6 _]. apply (ext_readable _ _ _ He6) in Hread; [|by intros []]. apply ext_wf in He6.
  eapply run_bind with (Q := fun _ _ => True).
  - apply wp_modify. split; [|done]. destruct (fe_sessions f6 !! sa_id attr) eqn:Hx; [by apply ext_refl|].
    by apply ext_put_session.
  - intros _ f7 He7 _. apply run_ret; [apply He7|done].
Qed.

Lemma run_open_session id spc now e : wf e ->
  run (match spc with Some attr => dropped (sa_id attr) | None => none end) (open_session id spc now) (fun _ _ => True) e.
Proof.
  intros He. eapply run_bind; [apply run_keeps; [|done]|cbv beta].
  { intros. apply keeps_attempt, keeps_reads. }
  intros r e1 He1 _. destruct r as [s|[]|]; try apply run_throw, He1.
  - apply run_keeps; [intros; keeps_tac|apply He1].
  - destruct spc; [apply run_create_session, He1|apply run_throw, He1].
  - apply run_lift; [apply He1|done].
Qed.

(** ** Restart *)

(** The process ends and a new one starts on the files it left. *)
Definition restart (e : t) : t := (start (mk (fe_fs e) (fe_clock e) ∅ ∅ ∅ ∅)).2.

Lemma wf_on_disk e : wf e -> wf (mk (fe_fs e) (fe_clock e) ∅ ∅ ∅ ∅).
Proof.
  intros [Hi Hm Ho Hs Hr He]. split; try done.
  all: intros id x; simpl; by rewrite lookup_empty.
Qed.

Lemma run_child_names X dir e : wf e -> run X (child_names dir) (fun _ _ => True) e.
Proof.
  intros. apply run_keeps; [|done]. intros e0. unfold child_names.
  keeps_step; [by apply keeps_look|keeps_tac].
Qed.

Lemma run_read_session_metadata X id e : wf e ->
  run X (read_metadata (A := SessionMetadata) (session_path id)) (fun m e' => sm_id m = id /\ readable e' id) e.
Proof.
  intros He. unfold read_metadata. eapply run_bind with (Q := fun c e' => files e' !! metadata_path id = Some c).
  - eapply run_bind; [apply run_look; [done|by intros]|cbv beta]. intros r e1 He1 (Hf & _ & Hr).
    destruct r as [c|[]]; [|apply run_throw, He1..]. apply run_ret; [apply He1|]. specialize (Hr c eq_refl).
    rewrite Hf. fold (metadata_path id) in Hr. destruct (files e !! metadata_path id); [|done]. by injection Hr as ->.
  - intros c e1 He1 Hc. apply run_lift; [apply He1|]. intros m Hm.
    destruct (from_str c) as [m'|] eqn:Hc'; [|done]. injection Hm as ->.
    split; [eapply wf_meta; [apply He1|done..]|]. by exists c, m.
Qed.

(** One step of [load_each] on the sessions. *)
Abbreviation load_session id := (
  r ← attempt (read_metadata (session_path id));
  match r with Ok m => put_session id (new_session_entry m) | _ => mret tt end).

Lemma run_load_session X id e : wf e -> run X (load_session id) (fun _ _ => True) e.
Proof.
  intros He. eapply run_bind; [by apply run_attempt, run_read_session_metadata|cbv beta]. intros r e2 He2 Hr.
  destruct r as [m| |]; [|apply run_ret; [apply He2|done]..]. destruct (Hr m eq_refl) as [Hm Hread].
  eapply run_mono; [apply run_put_session; [apply He2|done..]|done].
Qed.

Lemma keeps_load_each {A} `{Json A} X e0 l dir (keep : string -> A -> M t unit) :
  (forall id m, keeps (ext X e0) (keep id m)) -> keeps (ext X e0) (load_each l dir keep).
Proof.
  intros Hk. apply keeps_for_each. intros id _.
  keeps_step; [apply keeps_attempt, (frame_read_metadata _ (ext_frame _ _))|].
  destruct a; [apply Hk|by eauto with flame..].
Qed.

Lemma keeps_load_others X e0 :
  keeps (ext X e0) (applications ← child_names ["applications"%string];
    load_each applications application_path put_application ≫= fun _ =>
    nodes ← child_names ["nodes"%string];
    load_each nodes node_path (fun node m =>
      put_node node m ≫= fun _ =>
      executors ← child_names (node_path node ++ ["executors"%string]);
      load_each executors (executor_path node) put_executor)).
Proof.
  assert (Hm : forall f, (forall e, fe_sessions (f e) = fe_sessions e /\ fe_fs (f e) = fe_fs e) ->
    keeps (ext X e0) (modify f)) by (intros; by apply (fr_modify _ (ext_frame _ _))).
  assert (Hc : forall dir, keeps (ext X e0) (child_names dir)).
  { intros. apply (keeps_run _ _ _ (fun _ _ _ => True)). intros. by apply run_child_names. }
  keeps_step; [apply Hc|]. keeps_step; [by apply keeps_load_each; intros; apply Hm|].
  keeps_step; [apply Hc|]. apply keeps_load_each. intros. keeps_step; [by apply Hm|].
  keeps_step; [apply Hc|]. by apply keeps_load_each; intros; apply Hm.
Qed.

Lemma run_start e : wf e -> run none start (fun _ _ => True) e.
Proof.
  intros He. unfold start.
  do 3 (eapply run_bind; [apply run_keeps; [intros; apply frame_or_storage, keeps_create_dir_all|first [exact He|exact (ext_wf _ _ _ He)]]|cbv beta];
    clear He; intros _ ? He _).
  eapply run_bind; [apply run_child_names, He|cbv beta]. intros l f1 He1 _.
  eapply run_bind; [apply run_for_each; [apply He1|intros id f2 _; apply run_load_session]|cbv beta].
  intros _ f2 He2 _. apply run_keeps; [intros; apply keeps_load_others|apply He2].
Qed.

(** A session whose metadata can be read is registered again. *)
Lemma load_session_finds id e : wf e -> quiet e ->
  wp (load_session id) (fun r e' => r = Ok tt /\ (readable e id -> is_Some (fe_sessions e' !! id))) e.
Proof.
  intros He Hq. unfold wp, mbind, M_bind, attempt, read_metadata, or_not_found, mbind, M_bind, sys, zoom, read, call.
  rewrite Hq by done. simpl.
  change ["sessions"%string; id; "metadata"%string] with (metadata_path id). unfold readable.
  destruct (files e !! metadata_path id) as [c|]; simpl; [|by split; [|intros (? & ? & ? & ?); congruence]].
  destruct (from_str c) as [m|] eqn:Hm; simpl; [|by split; [|intros (? & ? & ? & ?); congruence]].
  split; [done|]. intros _. rewrite lookup_insert_eq. eauto.
Qed.

Lemma load_finds id l e : wf e -> quiet e -> readable e id ->
  In id l \/ is_Some (fe_sessions e !! id) ->
  wp (for_each l (fun id => load_session id)) (fun r e' => r = Ok tt /\ is_Some (fe_sessions e' !! id)) e.
Proof.
  revert e. induction l as [|i l IH]; intros e He Hq Hr Hin; [apply wp_ret; by destruct Hin|].
  apply wp_bind. eapply wp_mono; [apply wp_and; [by apply (run_load_session none)|by apply load_session_finds]|].
  cbv beta. intros ? e1 [[He1 _] [-> Hi]]. apply IH.
  - apply He1.
  - by eapply ext_quiet.
  - apply (ext_readable _ _ _ He1); [by intros []|done].
  - destruct Hin as [[->|Hin]|Hin]; [by right; apply Hi|by left|right].
    apply (ext_sessions _ _ _ He1); [by intros []|done].
Qed.

Lemma quiet_create_dir p e : quiet e ->
  or_storage (create_dir_all p) e = (Ok tt, with_fs (mkFs (files e)
    (list_to_set (ancestors p) ∪ fs_dirs (fe_fs e)) (S (fs_calls (fe_fs e)))) e).
Proof.
  intros Hq. unfold or_storage, mbind, M_bind, sys, zoom, create_dir_all, call. by rewrite Hq by done.
Qed.

Lemma wf_tick e d : wf e -> wf (with_fs (mkFs (files e) d (S (fs_calls (fe_fs e)))) e).
Proof. intros. apply (ext_wf none e), ext_step; simpl; auto with lia. Qed.

Lemma quiet_tick e d : quiet e -> quiet (with_fs (mkFs (files e) d (S (fs_calls (fe_fs e)))) e).
Proof. intros Hq n Hn. apply Hq. simpl in Hn. lia. Qed.

Lemma child_names_finds id e c : quiet e -> files e !! metadata_path id = Some c ->
  ["sessions"%string] ∈ fs_dirs (fe_fs e) ->
  wp (child_names ["sessions"%string]) (fun r e' => exists l, r = Ok l /\ In id l) e.
Proof.
  intros Hq Hc Hd. unfold wp, child_names, mbind, M_bind, sys, zoom, read_dir, call. rewrite Hq by done. simpl.
  rewrite bool_decide_true by done. eexists. split; [done|]. apply list_elem_of_In.
  rewrite dir_order_perm, elem_of_elements. unfold children. apply elem_of_list_to_set, list_elem_of_omap.
  exists (metadata_path id). split; [|done]. apply elem_of_app. right. simpl.
  apply list_elem_of_fmap. exists (metadata_path id, c). split; [done|]. by apply elem_of_map_to_list.
Qed.

Lemma start_finds id e : wf e -> quiet e -> readable e id ->
  wp start (fun _ e' => is_Some (fe_sessions e' !! id)) e.
Proof.
  intros He Hq Hr. unfold start. apply wp_bind. unfold wp at 1. rewrite quiet_create_dir by done.
  set (e1 := with_fs _ e). assert (He1 : wf e1) by by apply wf_tick.
  assert (Hq1 : quiet e1) by by apply quiet_tick. apply wp_bind. unfold wp at 1. rewrite quiet_create_dir by done.
  set (e2 := with_fs _ e1). assert (He2 : wf e2) by by apply wf_tick.
  assert (Hq2 : quiet e2) by by apply quiet_tick. apply wp_bind. unfold wp at 1. rewrite quiet_create_dir by done.
  set (e3 := with_fs _ e2). assert (He3 : wf e3) by by apply wf_tick.
  assert (Hq3 : quiet e3) by by apply quiet_tick.
  assert (Hr3 : readable e3 id) by done. pose proof Hr3 as (c & m & Hc & _).
  assert (Hd3 : ["sessions"%string] ∈ fs_dirs (fe_fs e3)) by (simpl; set_solver).
  apply wp_bind. eapply wp_mono; [apply wp_and; [by apply (run_child_names none)|by eapply child_names_finds]|].
  cbv beta. intros ? e4 [[He4 _] (l & -> & Hl)]. apply wp_bind.
  eapply wp_mono; [apply wp_and; [apply (run_for_each none _ (fun id => load_session id)); [apply He4|
    intros; by apply run_load_session]|apply (load_finds id); [apply He4|by eapply ext_quiet| |by left]]|].
  { apply (ext_readable _ _ _ He4); [by intros []|done]. }
  cbv beta. intros ? e5 [[He5 _] [-> Hs]]. apply ext_wf in He5.
  eapply wp_mono; [apply (wp_keeps (ext none e5)); [apply keeps_load_others|by apply ext_refl]|].
  cbv beta. intros r e6 He6. apply (ext_sessions _ _ _ He6); [by intros []|done].
Qed.

(** ** Histories *)

Inductive task_op :=
| TCreate (ssn : string) (input : option string) (options : option TaskOptions) (now : Z)
| TState (g : TaskGID) (st : TaskState) (message : option string) (now : Z)
| TResult (g : TaskGID) (r : TaskResult) (now : Z)
| TRetry (g : TaskGID).

Inductive fs_op :=
| ORestart
| OTask (k : task_op)
| OGetTask (g : TaskGID)
| OFindTasks (ssn : string)
| OCreateSession (attr : SessionAttributes) (now : Z)
| OOpenSession (id : string) (spec : option SessionAttributes) (now : Z)
| OCloseSession (id : string) (now : Z)
| OUpdateSessionState (id : string) (st : SessionState)
| ODeleteSession (id : string)
| OGetSession (id : string)
| OFindSessions
| ORegisterApplication (name : string) (attr : ApplicationAttributes) (now : Z)
| OUpdateApplicationState (name : string) (st : ApplicationState)
| OUpdateApplication (name : string) (attr : ApplicationAttributes)
| ODeleteApplication (name : string)
| OCreateNode (n : Node)
| OUpdateNode (n : Node)
| ODeleteNode (name : string)
| OCreateExecutor (x : Executor)
| OUpdateExecutor (x : Executor)
| OUpdateExecutorState (id : string) (st : ExecutorState)
| ODeleteExecutor (id : string).

Definition task_run (k : task_op) : M t Task :=
  match k with
  | TCreate ssn input options now => create_task ssn input options now
  | TState g st message now => update_task_state g st message now
  | TResult g r now => update_task_result g r now
  | TRetry g => retry_task g
  end.

Definition fs_step (op : fs_op) (e : t) : t :=
  match op with
  | ORestart => restart e
  | OTask k => (task_run k e).2
  | OGetTask g => (get_task g e).2
  | OFindTasks ssn => (find_tasks ssn e).2
  | OCreateSession attr now => (create_session attr now e).2
  | OOpenSession id spec now => (open_session id spec now e).2
  | OCloseSession id now => (close_session id now e).2
  | OUpdateSessionState id st => (update_session_state id st e).2
  | ODeleteSession id => (delete_session id e).2
  | OGetSession id => (get_session id e).2
  | OFindSessions => (find_sessions e).2
  | ORegisterApplication name attr now => (register_application name attr now e).2
  | OUpdateApplicationState name st => (update_application_state name st e).2
  | OUpdateApplication name attr => (update_application name attr e).2
  | ODeleteApplication name => (delete_application name e).2
  | OCreateNode n => (create_node n e).2
  | OUpdateNode n => (update_node n e).2
  | ODeleteNode name => (delete_node name e).2
  | OCreateExecutor x => (create_executor x e).2
  | OUpdateExecutor x => (update_executor x e).2
  | OUpdateExecutorState id st => (update_executor_state id st e).2
  | ODeleteExecutor id => (delete_executor id e).2
  end.

Definition fs_run (ops : list fs_op) (e : t) : t := foldl (fun e op => fs_step op e) e ops.

(** The task an update is for. *)
Definition update_target (k : task_op) : option TaskGID :=
  match k with TCreate _ _ _ _ => None | TState g _ _ _ | TResult g _ _ | TRetry g => Some g end.

Definition scope_of (op : fs_op) : scope :=
  match op with
  | OTask k => match update_target k with Some g => only g | None => none end
  | OCreateSession attr _ => dropped (sa_id attr)
  | OOpenSession _ spec _ => match spec with Some attr => dropped (sa_id attr) | None => none end
  | OCloseSession id _ => whole id
  | ODeleteSession id => dropped id
  | _ => none
  end.

Definition op_in_range (op : fs_op) : Prop :=
  match op with
  | OTask k => match update_target k with Some g => in_range (gid_task_id g) | None => True end
  | _ => True
  end.

(** The operation is for another task, and does not close, delete or create the
    session. *)
Definition spares (g : TaskGID) (op : fs_op) : Prop :=
  match op with
  | OTask k => update_target k <> Some g
  | OCreateSession attr _ | OOpenSession _ (Some attr) _ => sa_id attr <> gid_ssn_id g
  | OCloseSession id _ | ODeleteSession id => id <> gid_ssn_id g
  | _ => True
  end.

Lemma ext_of_run {A} X (m : M t A) Q e : run X m Q e -> ext X e (m e).2.
Proof. unfold run, wp. by destruct (m e) as [r e'] => [[? _]]. Qed.

Lemma ext_of_keeps {A} X (m : M t A) e : (forall e0, keeps (ext X e0) m) -> wf e -> ext X e (m e).2.
Proof. intros Hm He. eapply ext_of_run. by apply run_keeps. Qed.

Lemma stored_gid e id task_id_ tk : wf e -> stored e id task_id_ tk ->
  task_ssn_id tk = id /\ task_id tk = task_id_.
Proof.
  intros He (m & Hrec & <- & i & o & a & _ & _ & _ & [-> ->]%task_with_data_id). split; [done|].
  apply wrap_i64_small. by eapply has_record_small.
Qed.

Lemma update_stored k g e : wf e -> in_range (gid_task_id g) -> update_target k = Some g ->
  run (only g) (task_run k) (fun tk e' =>
    live e' (gid_ssn_id g) /\ stored e' (gid_ssn_id g) (gid_task_id g) tk) e.
Proof.
  intros He Hr Hk. destruct k; simplify_eq/=.
  - eapply run_mono; [by apply run_update_task_state|]. cbv beta. by intros tk e' _ [? Hs%rewritten_stored].
  - eapply run_mono; [by apply run_update_task_result|]. cbv beta. by intros tk e' _ (? & range & _ & Hs%rewritten_stored).
  - eapply run_mono; [by apply run_retry_task|]. cbv beta. by intros tk e' _ [? Hs%rewritten_stored].
Qed.

Lemma task_run_ext k e : wf e -> op_in_range (OTask k) ->
  run (scope_of (OTask k)) (task_run k) (fun tk e' =>
    live e' (task_ssn_id tk) /\ stored e' (task_ssn_id tk) (task_id tk) tk) e.
Proof.
  intros He Hr. simpl in *. destruct (update_target k) as [g|] eqn:Hk.
  - eapply run_mono; [by apply (update_stored k g)|]. cbv beta. intros tk e' Hwf%ext_wf [? Hs].
    by destruct (stored_gid _ _ _ _ Hwf Hs) as [-> ->].
  - destruct k; try done. eapply run_mono; [by apply run_create_task|]. cbv beta.
    by intros tk e' _ ((created & _ & ->) & _ & ? & ?).
Qed.

Lemma fs_step_ext op e : op <> ORestart -> wf e -> op_in_range op -> ext (scope_of op) e (fs_step op e).
Proof.
  intros Hop He Hr. destruct op; try done; simpl scope_of; simpl fs_step.
  - eapply ext_of_run. by apply task_run_ext.
  - by apply ext_of_keeps; [intros; apply keeps_reads|].
  - by apply ext_of_keeps; [intros; apply keeps_reads|].
  - eapply ext_of_run. by apply run_create_session.
  - eapply ext_of_run. by apply run_open_session.
  - eapply ext_of_run. by apply run_close_session.
  - eapply ext_of_run. by apply run_update_session_state.
  - eapply ext_of_run. by apply run_delete_session.
  - by apply ext_of_keeps; [intros; apply keeps_reads|].
  - by apply ext_of_keeps; [intros; apply keeps_reads|].
  - by apply ext_of_keeps; [intros; apply (frame_applications _ (ext_frame _ _))|].
  - by apply ext_of_keeps; [intros; apply (frame_applications _ (ext_frame _ _))|].
  - by apply ext_of_keeps; [intros; apply (frame_applications _ (ext_frame _ _))|].
  - by apply ext_of_keeps; [intros; apply (frame_applications _ (ext_frame _ _))|].
  - by apply ext_of_keeps; [intros; apply (frame_nodes _ (ext_frame _ _))|].
  - by apply ext_of_keeps; [intros; apply (frame_nodes _ (ext_frame _ _))|].
  - by apply ext_of_keeps; [intros; apply (frame_nodes _ (ext_frame _ _))|].
  - by apply ext_of_keeps; [intros; apply (frame_executors _ (ext_frame _ _))|].
  - by apply ext_of_keeps; [intros; apply (frame_executors _ (ext_frame _ _))|].
  - by apply ext_of_keeps; [intros; apply (frame_executors _ (ext_frame _ _))|].
  - by apply ext_of_keeps; [intros; apply (frame_executors _ (ext_frame _ _))|].
Qed.

(** The state after the history [ops] of an engine started on an empty disk. *)
Definition after (ops : list fs_op) : t := fs_run ops (restart (on_disk (mkFs ∅ ∅ 0))).

Lemma restart_wf e : wf e -> wf (restart e).
Proof. intros He. apply (ext_wf none (mk (fe_fs e) (fe_clock e) ∅ ∅ ∅ ∅)). by eapply ext_of_run, run_start, wf_on_disk. Qed.

Lemma restart_or (op : fs_op) : op = ORestart \/ op <> ORestart.
Proof. by destruct op; auto. Qed.

Lemma fs_step_wf op e : wf e -> op_in_range op -> wf (fs_step op e).
Proof.
  intros He Hr. destruct (restart_or op) as [->|Hop]; [by apply restart_wf|].
  eapply ext_wf. by apply fs_step_ext.
Qed.

Lemma fs_run_wf ops e : wf e -> Forall op_in_range ops -> wf (fs_run ops e).
Proof.
  revert e. induction ops as [|op ops IH]; intros e He Hr; [done|]. inv Hr. apply IH; [by apply fs_step_wf|done].
Qed.

Lemma after_wf ops : Forall op_in_range ops -> wf (after ops).
Proof.
  intros Hr. apply fs_run_wf; [|done]. apply restart_wf. split; simpl; try done.
Qed.

Lemma spares_scope g op : op_in_range op -> spares g op ->
  ~ drops (scope_of op) (gid_ssn_id g) /\
  forall k, gid_task_id g = Z.of_nat (S k) -> ~ changes (scope_of op) (gid_ssn_id g) k.
Proof.
  intros Hr Hs. destruct op; try (by split; [intros []|intros ? _ []]).
  - simpl in *. destruct (update_target k) as [g'|] eqn:Hk; [|by split; [intros []|intros ? _ []]]. split; [by intros []|].
    intros j Hj [Hid Hg]. apply Hs. f_equal. destruct g, g'. simpl in *. congruence.
  - split; [simpl in *; congruence|by intros ? _ []].
  - simpl in *. destruct spec as [attr|]; [|by split; [intros []|intros ? _ []]]. split; [simpl in *; congruence|by intros ? _ []].
  - split; [by intros []|]. intros j _ Heq. apply Hs. by rewrite Heq.
  - split; [simpl in *; congruence|by intros ? _ []].
Qed.

(** What is on the disk of a task that no operation is for stays. *)
Lemma fs_run_kept g tk ops e : wf e -> Forall op_in_range ops -> Forall (spares g) ops ->
  readable e (gid_ssn_id g) -> stored e (gid_ssn_id g) (gid_task_id g) tk ->
  readable (fs_run ops e) (gid_ssn_id g) /\ stored (fs_run ops e) (gid_ssn_id g) (gid_task_id g) tk /\
  (ORestart ∉ ops -> live e (gid_ssn_id g) -> live (fs_run ops e) (gid_ssn_id g)).
Proof.
  revert e. induction ops as [|op ops IH]; intros e He Hr Hs Hread Hst; [done|]. inv Hr. inv Hs.
  assert (Hstep : readable (fs_step op e) (gid_ssn_id g) /\ stored (fs_step op e) (gid_ssn_id g) (gid_task_id g) tk).
  { destruct (restart_or op) as [->|Hop].
    - pose proof (ext_of_run _ _ _ _ (run_start _ (wf_on_disk e He))) as Hx.
      split; [by apply (ext_readable _ _ _ Hx); [intros []|]|].
      by eapply ext_stored; [exact Hx|intros []|intros ? _ []|].
    - pose proof (fs_step_ext op e Hop He ltac:(done)) as Hx. destruct (spares_scope g op) as [? ?]; [done..|].
      split; [by apply (ext_readable _ _ _ Hx)|by eapply ext_stored]. }
  destruct Hstep. destruct (IH (fs_step op e)) as (? & ? & Hlive); [by apply fs_step_wf|done..|].
  split_and!; [done..|]. intros [Hop Hops]%not_elem_of_cons Hl. apply Hlive; [done|].
  apply (ext_live (scope_of op) e); [by apply fs_step_ext|by apply spares_scope|done].
Qed.

(** C5 A task that an operation returned is returned again by [get_task] after
    any further operations that are not for it and do not close, delete or
    re-create its session, whatever I/O errors any of them ran into, once the
    disk works again. *)
Theorem task_survives_operations history k tk e ops :
  Forall op_in_range (OTask k :: history ++ ops) ->
  task_run k (after history) = (Ok tk, e) ->
  Forall (spares (mkGID (task_ssn_id tk) (task_id tk))) ops -> ORestart ∉ ops ->
  quiet (fs_run ops e) ->
  (get_task (mkGID (task_ssn_id tk) (task_id tk)) (fs_run ops e)).1 = Ok tk.
Proof.
  intros [Hk [Hh Ho]%list.Forall_app]%list.Forall_cons Hrun Hs Hno Hq. pose proof (after_wf _ Hh) as He.
  pose proof (task_run_ext k _ He Hk) as Hx. unfold run, wp in Hx. rewrite Hrun in Hx. destruct Hx as (Hx & Hl & Hst).
  apply ext_wf in Hx. destruct (fs_run_kept (mkGID (task_ssn_id tk) (task_id tk)) tk ops e) as (_ & Hst' & Hl'); try done.
  { apply Hl. }
  pose proof (total_get_task _ _ tk _ (fs_run_wf ops e Hx Ho) Hq (Hl' Hno Hl) Hst') as Hget.
  unfold total, wp in Hget. by destruct (get_task _ _).
Qed.

(** C6 Such a task is also found by a new process: after any further operations
    and restarts, whatever I/O errors they ran into, a restart on a disk that
    works returns it unchanged. *)
Theorem task_survives_restart history k tk e ops :
  Forall op_in_range (OTask k :: history ++ ops) ->
  task_run k (after history) = (Ok tk, e) ->
  Forall (spares (mkGID (task_ssn_id tk) (task_id tk))) ops ->
  quiet (fs_run ops e) ->
  (get_task (mkGID (task_ssn_id tk) (task_id tk)) (restart (fs_run ops e))).1 = Ok tk.
Proof.
  intros [Hk [Hh Ho]%list.Forall_app]%list.Forall_cons Hrun Hs Hq. pose proof (after_wf _ Hh) as He.
  pose proof (task_run_ext k _ He Hk) as Hx. unfold run, wp in Hx. rewrite Hrun in Hx. destruct Hx as (Hx & Hl & Hst).
  apply ext_wf in Hx. destruct (fs_run_kept (mkGID (task_ssn_id tk) (task_id tk)) tk ops e) as (Hr & Hst' & _); try done.
  { apply Hl. }
  set (f := fs_run ops e) in *. assert (Hf : wf f) by by apply fs_run_wf.
  set (f0 := mk (fe_fs f) (fe_clock f) ∅ ∅ ∅ ∅). assert (Hf0 : wf f0) by by apply wf_on_disk.
  pose proof (run_start f0 Hf0) as Hstart. pose proof (start_finds _ f0 Hf0 Hq Hr) as Hfind.
  unfold run, wp in Hstart, Hfind. unfold restart. fold f0. destruct (start f0) as [r f1]. destruct Hstart as [Hext _].
  assert (Hget : total (get_task (mkGID (task_ssn_id tk) (task_id tk))) tk f1).
  { apply total_get_task; [apply Hext|by eapply ext_quiet| |].
    - split; [done|]. by apply (ext_readable _ _ _ Hext); [intros []|].
    - by eapply ext_stored; [exact Hext|intros []|intros ? _ []|]. }
  unfold total, wp in Hget. simpl. by destruct (get_task _ _).
Qed.
(** ** What an operation makes of a task *)

(** A read leaves every file as it is, but may create an empty one. *)
Definition unchanged (e0 e : t) : Prop :=
  forall p c, files e !! p = Some c -> c <> [] -> files e0 !! p = Some c.

Lemma unchanged_look {A} e0 (f : Fs -> io A) : keeps (unchanged e0) (sys (call intact (fun fs => (f fs, fs)))).
Proof. intros e He. unfold sys, zoom, call. by destruct (io_fault _). Qed.

Lemma unchanged_entry e0 id : keeps (unchanged e0) (session_entry id).
Proof. unfold session_entry. keeps_tac. Qed.

Lemma unchanged_part e0 id p : keeps (unchanged e0) (part id p).
Proof.
  assert (Ho : forall q create, keeps (unchanged e0) (payload_open q create)).
  { intros q create. unfold payload_open. keeps_step; apply frame_or_storage; [|by apply unchanged_look].
    intros e He. unfold sys, zoom, open, call. destruct (io_fault _); [done|]. simpl.
    destruct (files e !! q); [done|]. destruct (create && _); [|done]. simpl.
    intros p' c Hp. simpl in Hp. apply lookup_insert_Some in Hp as [[_ <-]|[_ ?]]; [done|by apply He]. }
  unfold part. keeps_step; [apply unchanged_entry|]. keeps_step; [done|]. keeps_step; [by eauto with flame|].
  keeps_step; [done|]. keeps_step; [|by eauto with flame]. by apply keeps_modify.
Qed.

Lemma unchanged_read_data e0 id p offset n : keeps (unchanged e0) (read_data id p offset n).
Proof.
  unfold read_data. keeps_step; [by eauto with flame|]. keeps_step; [apply unchanged_part|].
  by apply frame_or_storage, unchanged_look.
Qed.

Lemma unchanged_get_task e0 g : keeps (unchanged e0) (get_task g).
Proof.
  unfold get_task. keeps_step; [apply unchanged_entry|]. keeps_step.
  - unfold read_task_record. keeps_step; [by eauto with flame|].
    keeps_step; [apply keeps_attempt, unchanged_part|]. keeps_step; [by eauto with flame|].
    keeps_step; [by apply unchanged_look|keeps_tac].
  - unfold task_from_metadata, payload. pose proof unchanged_read_data. pose proof unchanged_entry. keeps_tac.
Qed.

Lemma unchanged_has_data e0 e id p offset n data : unchanged e0 e -> 0 < n ->
  has_data e id p offset n data -> has_data e0 id p offset n data.
Proof.
  intros He Hn (Ho & ? & c & Hc & Hle & ->). split_and!; [done..|]. exists c. split_and!; [|done..].
  apply He; [done|]. intros ->. unfold len in Hle. simpl in Hle. lia.
Qed.

Lemma unchanged_payload_is e0 e id p offset n o : unchanged e0 e ->
  payload_is e id p offset n o -> payload_is e0 id p offset n o.
Proof.
  unfold payload_is. intros He. destruct (Z.ltb_spec 0 n); [|done]. intros (data & Hd & ->).
  exists data. split; [by eapply unchanged_has_data|done].
Qed.

Lemma unchanged_described e0 e id m tk : unchanged e0 e -> described e id m tk -> described e0 id m tk.
Proof.
  intros He (i & o & a & Hi & Ho & Ha & Ht). exists i, o, a. split_and!; [by eapply unchanged_payload_is..| |done].
  revert Ha. unfold affinity_is. destruct (Z.ltb_spec 0 (tm_affinity_len m)); [|done].
  intros (data & keys & rest & Hd & Hk & ->). exists data, keys, rest.
  split_and!; [by eapply unchanged_has_data|done..].
Qed.

Lemma unchanged_decodes e0 e id n m : unchanged e0 e -> decodes e id n m -> decodes e0 id n m.
Proof.
  intros He (c & b & k & rest & Hc & Hb & Hk & Hm). exists c, b, k, rest. split_and!; [|done..].
  apply He; [done|]. intros ->. apply record_at_Some in Hb as [Hl _]. pose proof rsize_large. simpl in Hl. lia.
Qed.

(** The record and the payloads a read task comes from. *)
Lemma get_task_record g tk e e' : wf e -> in_range (gid_task_id g) -> get_task g e = (Ok tk, e') ->
  exists m, decodes e (gid_ssn_id g) (gid_task_id g) m /\ tm_id m = gid_task_id g /\ described e (gid_ssn_id g) m tk.
Proof.
  intros He Hr Hget.
  assert (Hrun : run none (get_task g) (fun tk e' => exists m, decodes e' (gid_ssn_id g) (gid_task_id g) m /\
    tm_id m = gid_task_id g /\ described e' (gid_ssn_id g) m tk) e).
  { eapply run_bind; [by apply run_session_entry|cbv beta]. intros x ? _ [-> Hx].
    eapply run_bind; [by apply run_read_task_record|cbv beta]. intros m e1 He1 (Hm & Hid & Hdec).
    eapply run_mono; [apply run_task_from_metadata; [apply He1|done]|cbv beta]. intros t e2 He2 Hd.
    exists m. split_and!; [|done..]. by eapply ext_decodes; [exact He2|intros []|intros ? _ []|]. }
  pose proof (unchanged_get_task e g e (fun _ _ H _ => H)) as Hu. unfold run, wp in Hrun. rewrite Hget in Hrun, Hu.
  destruct Hrun as (_ & m & Hdec & Hid & Hd). exists m.
  split_and!; [by eapply unchanged_decodes|done|by eapply unchanged_described].
Qed.

Lemma payload_is_fun e id p offset n o o' : payload_is e id p offset n o -> payload_is e id p offset n o' -> o = o'.
Proof.
  unfold payload_is. destruct (0 <? n); [|by intros -> ->].
  intros (d & (_ & _ & c & Hc & _ & ->) & ->) (d' & (_ & _ & c' & Hc' & _ & ->) & ->). congruence.
Qed.

Lemma affinity_is_fun e id offset n a a' : affinity_is e id offset n a -> affinity_is e id offset n a' -> a = a'.
Proof.
  unfold affinity_is. destruct (0 <? n); [|by intros -> ->].
  intros (d & keys & rest & (_ & _ & c & Hc & _ & ->) & Hk & ->)
    (d' & keys' & rest' & (_ & _ & c' & Hc' & _ & ->) & Hk' & ->). simplify_eq. congruence.
Qed.
(** The task with the next version, in the state [st]. *)
Definition next_version (st : TaskState) (completion_time : option Z) (output : option string) (old : Task) : Task :=
  mkTask (task_id old) (task_ssn_id old) (wrap_u32 (task_version old + 1)) (task_input old) output
    (task_affinity old) (task_creation_time old) completion_time [] st.

(** A time of completion as a record holds it, in seconds. *)
Definition completion (seconds : Z) : option Z := if 0 <? seconds then from_timestamp seconds else None.

Lemma rewritten_next e e' g op tk old m st ct off n :
  rewritten e e' g op tk -> ext (only g) e e' ->
  decodes e (gid_ssn_id g) (gid_task_id g) m -> described e (gid_ssn_id g) m old ->
  op m = with_update (i32_of_task_state st) ct off n m ->
  exists output, payload_is e' (gid_ssn_id g) Outputs off n output /\ tk = next_version st (completion ct) output old.
Proof.
  intros (m0 & Hm0 & _ & _ & i' & o' & a' & Hi' & Ho' & Ha' & Ht') He Hdec (i & o & a & Hi & _ & Ha & Ht) Hop.
  rewrite (Hm0 m Hdec) in *. unfold updated_record in *. rewrite Hop in *. simpl in *.
  exists o'. split; [done|].
  assert (i' = i) as -> by (eapply payload_is_fun; [exact Hi'|]; by eapply ext_payload_is; [exact He|intros []|..]).
  assert (a' = a) as -> by (eapply affinity_is_fun; [exact Ha'|]; by eapply ext_affinity_is; [exact He|intros []|]).
  apply task_with_data_inv in Ht as (st0 & cr & _ & Hcr & ->).
  apply task_with_data_inv in Ht' as (st' & cr' & Hst' & Hcr' & ->). simpl in *. rewrite Hcr in Hcr'.
  rewrite task_state_code_inv in Hst'. by simplify_eq.
Qed.

(** What an update makes of the task it is for. *)
Definition task_after (k : task_op) (old : Task) : Task :=
  let completed st now := if is_terminal st then completion (timestamp now) else task_completion_time old in
  match k with
  | TCreate _ _ _ _ => old
  | TState _ st _ now => next_version st (completed st now) (task_output old) old
  | TResult _ r now =>
      next_version (tr_state r) (completed (tr_state r) now)
        (match tr_output r with
         | Some out => if String.eqb out EmptyString then None else Some out
         | None => task_output old
         end) old
  | TRetry _ => next_version TaskPending (task_completion_time old) (task_output old) old
  end.

Lemma described_parts e id m tk : described e id m tk ->
  payload_is e id Outputs (tm_output_offset m) (tm_output_len m) (task_output tk) /\
  task_completion_time tk = completion (tm_completion_time m).
Proof. by intros (i & o & a & _ & Ho & _ & (st & cr & _ & _ & ->)%task_with_data_inv). Qed.

Lemma update_after k g tk old e e' e0 : wf e -> in_range (gid_task_id g) -> update_target k = Some g ->
  get_task g e = (Ok old, e0) -> task_run k e = (Ok tk, e') -> tk = task_after k old.
Proof.
  intros He Hr Hk (m & Hdec & _ & Hd)%get_task_record Hrun; [|done..].
  pose proof (described_parts _ _ _ _ Hd) as [Hout Hct].
  assert (Hkept : forall output, ext (only g) e e' ->
    payload_is e' (gid_ssn_id g) Outputs (tm_output_offset m) (tm_output_len m) output -> output = task_output old).
  { intros output Hx Ho. eapply payload_is_fun; [exact Ho|]. by eapply ext_payload_is; [exact Hx|intros []|..]. }
  destruct k as [|g' st msg now|g' r now|g']; simplify_eq/=.
  - pose proof (run_update_task_state g st msg now e He Hr) as Hx. unfold run, wp in Hx. rewrite Hrun in Hx.
    destruct Hx as (Hx & _ & Hrw). destruct (rewritten_next _ _ _ _ _ _ _ _ _ _ _ Hrw Hx Hdec Hd eq_refl) as (output & Ho & ->). simpl.
    rewrite (Hkept output), Hct by done. by destruct (is_terminal st).
  - pose proof (run_update_task_result g r now e He Hr) as Hx. unfold run, wp in Hx. rewrite Hrun in Hx.
    destruct Hx as (Hx & _ & range & Hs & Hrw). destruct (rewritten_next _ _ _ _ _ _ _ _ _ _ _ Hrw Hx Hdec Hd eq_refl) as (output & Ho & ->).
    rewrite Hct. destruct (tr_output r) as [out|], range as [x|]; try done; simpl in *.
    + destruct Hs as (_ & _ & Hp). rewrite (payload_is_fun _ _ _ _ _ _ _ Ho Hp). by destruct (is_terminal _).
    + rewrite (Hkept output) by done. by destruct (is_terminal _).
  - pose proof (run_retry_task g e He Hr) as Hx. unfold run, wp in Hx. rewrite Hrun in Hx.
    destruct Hx as (Hx & _ & Hrw). destruct (rewritten_next _ _ _ _ _ _ _ _ _ _ _ Hrw Hx Hdec Hd eq_refl) as (output & Ho & ->).
    by rewrite (Hkept output), Hct.
Qed.

(** What an operation answers in the state [e] of the engine: a created task is
    new, and a task that is updated is the one asked for, as [get_task] returns
    it in [e], with the update. *)
Definition answers (k : task_op) (e : t) (tk : Task) : Prop :=
  match k with
  | TCreate ssn input options now =>
      (exists created, from_timestamp (timestamp now) = Some created /\
         tk = mkTask (task_id tk) ssn 1 (data ← input; if String.eqb data EmptyString then None else Some data) None
                (default ∅ (to_affinity <$> options)) created None [] TaskPending) /\
      forall old, (get_task (mkGID ssn (task_id tk)) e).1 <> Ok old
  | TState g _ _ _ | TResult g _ _ | TRetry g =>
      task_ssn_id tk = gid_ssn_id g /\ task_id tk = gid_task_id g /\
      forall old, (get_task g e).1 = Ok old -> tk = task_after k old
  end.

Lemma update_answers k g tk e e' : wf e -> in_range (gid_task_id g) -> update_target k = Some g ->
  task_run k e = (Ok tk, e') ->
  task_ssn_id tk = gid_ssn_id g /\ task_id tk = gid_task_id g /\
  forall old, (get_task g e).1 = Ok old -> tk = task_after k old.
Proof.
  intros He Hr Hk Hrun. pose proof (update_stored k g e He Hr Hk) as Hs. unfold run, wp in Hs. rewrite Hrun in Hs.
  destruct Hs as (He'%ext_wf & _ & Hs). destruct (stored_gid _ _ _ _ He' Hs) as [-> ->]. split_and!; [done..|].
  intros old Hold. destruct (get_task g e) as [r e0] eqn:Hget. simpl in Hold. subst r.
  exact (update_after k g tk old e e' e0 He Hr Hk Hget Hrun).
Qed.

(** C19 Whatever I/O errors it runs into, an operation on a task that succeeds
    answers what its contract says: [create_task] a new task with the given
    input and affinity, pending, under an identifier that no task of the session
    had; an update the task it was asked for, with the requested state, output and
    time of completion, the next version, and everything else as it was. And what
    it answers is what is on the disk: [get_task] returns it. *)
Theorem task_operations_refine history k tk e :
  Forall op_in_range (OTask k :: history) ->
  task_run k (after history) = (Ok tk, e) ->
  answers k (after history) tk /\
  (quiet e -> (get_task (mkGID (task_ssn_id tk) (task_id tk)) e).1 = Ok tk).
Proof.
  intros [Hk Hh]%list.Forall_cons Hrun. pose proof (after_wf _ Hh) as He.
  pose proof (task_run_ext k _ He Hk) as Hx. unfold run, wp in Hx. rewrite Hrun in Hx. destruct Hx as (Hx & Hl & Hst).
  apply ext_wf in Hx. split.
  - destruct k as [ssn input options now|g st msg now|g r now|g]; simpl in Hk.
    + assert (Hr : in_range (task_id tk)).
      { destruct Hst as (m & Hrec & <- & _). by eapply has_record_in_range. }
      pose proof (run_create_task ssn input options now _ He) as Hc. unfold run, wp in Hc. simpl in Hrun.
      rewrite Hrun in Hc. destruct Hc as (_ & Hmade & Hnew & _). split; [done|]. intros old Hold.
      destruct (get_task _ (after history)) as [r e0] eqn:Hget. simpl in Hold. subst r.
      destruct (get_task_record (mkGID ssn (task_id tk)) _ _ _ He Hr Hget) as (m & Hm & _). by eapply Hnew.
    + by eapply (update_answers (TState g st msg now)).
    + by eapply (update_answers (TResult g r now)).
    + by eapply (update_answers (TRetry g)).
  - intros Hq. pose proof (total_get_task _ _ tk _ Hx Hq Hl Hst) as Hget.
    unfold total, wp in Hget. by destruct (get_task _ _).
Qed.
End effects.

(** ** A history with a torn write

    The 26th call, the write of the second task's record, stops after 40 of its
    81 bytes; the third task cuts the tail off and takes its place. *)

#[local] Existing Instances demo_env CountableCodec.demo_crates CountableCodec.demo_crates_spec.

Definition torn_disk : Disk := demo_disk [(25, 40)]%nat.
#[local] Existing Instance torn_disk.

Definition demo_fs_attr : SessionAttributes := mkSsnAttr "s" "app" None ∅ 0 None 1 0 None.
Definition demo_history : list fs_op := [OCreateSession demo_fs_attr 100].
Definition demo_create : task_op :=
  TCreate "s" (Some "input"%string) (Some (mkTaskOptions {["key"%string]})) 200.
Definition demo_stored_task : Task :=
  mkTask 1 "s" 1 (Some "input"%string) None {["key"%string]} 200 None [] TaskPending.
Definition demo_ops : list fs_op :=
  [OTask (TCreate "s" (Some "torn"%string) None 300); OTask (TCreate "s" (Some "whole"%string) None 400);
   OTask (TState (mkGID "s" 2) TaskRunning None 500); OUpdateSessionState "s" SsnSuspended].
Definition demo_created : t := (task_run demo_create (after demo_history)).2.

Lemma demo_create_runs : task_run demo_create (after demo_history) = (Ok demo_stored_task, demo_created).
Proof.
  assert (Hr : (task_run demo_create (after demo_history)).1 = Ok demo_stored_task) by (vm_compute; reflexivity).
  rewrite <-Hr. apply surjective_pairing.
Qed.

Lemma demo_ops_in_range : Forall op_in_range (OTask demo_create :: demo_history ++ demo_ops).
Proof. repeat constructor. by vm_compute. Qed.

Lemma demo_ops_spare : Forall (spares (mkGID (task_ssn_id demo_stored_task) (task_id demo_stored_task))) demo_ops.
Proof. repeat constructor; done. Qed.

Lemma torn_disk_quiet e : (26 <= fs_calls (fe_fs e))%nat -> quiet e.
Proof. intros He n Hn. simpl. destruct n as [|n]; [lia|]. do 25 (destruct n as [|n]; [lia|]). done. Qed.

Lemma demo_ops_quiet : quiet (fs_run demo_ops demo_created).
Proof. apply torn_disk_quiet. apply Nat.leb_le. vm_compute. reflexivity. Qed.

Lemma demo_no_restart : ORestart ∉ demo_ops.
Proof. unfold demo_ops. rewrite !not_elem_of_cons. split_and!; try done. apply not_elem_of_nil. Qed.

Lemma task_survives_operations_witness :
  (get_task (mkGID (task_ssn_id demo_stored_task) (task_id demo_stored_task)) (fs_run demo_ops demo_created)).1 =
  Ok demo_stored_task.
Proof.
  exact (task_survives_operations demo_history demo_create demo_stored_task demo_created demo_ops
    demo_ops_in_range demo_create_runs demo_ops_spare demo_no_restart demo_ops_quiet).
Defined.

Lemma task_survives_restart_witness :
  (get_task (mkGID (task_ssn_id demo_stored_task) (task_id demo_stored_task))
     (restart (fs_run demo_ops demo_created))).1 = Ok demo_stored_task.
Proof.
  exact (task_survives_restart demo_history demo_create demo_stored_task demo_created demo_ops
    demo_ops_in_range demo_create_runs demo_ops_spare demo_ops_quiet).
Defined.

(** The result of the second task, after the torn write. *)
Definition demo_updates : list fs_op := demo_history ++ OTask demo_create :: demo_ops.
Definition demo_result : task_op := TResult (mkGID "s" 2) (mkTaskResult TaskSucceed (Some "out"%string) None) 600.
Definition demo_succeeded : Task :=
  mkTask 2 "s" 3 (Some "whole"%string) (Some "out"%string) ∅ 400 (Some 600) [] TaskSucceed.

Lemma demo_result_runs :
  task_run demo_result (after demo_updates) = (Ok demo_succeeded, (task_run demo_result (after demo_updates)).2).
Proof.
  assert (Hr : (task_run demo_result (after demo_updates)).1 = Ok demo_succeeded) by (vm_compute; reflexivity).
  rewrite <-Hr. apply surjective_pairing.
Qed.

Lemma demo_result_in_range : Forall op_in_range (OTask demo_result :: demo_updates).
Proof. repeat constructor; by vm_compute. Qed.

Lemma demo_result_quiet : quiet (task_run demo_result (after demo_updates)).2.
Proof. apply torn_disk_quiet. apply Nat.leb_le. vm_compute. reflexivity. Qed.

Lemma task_operations_refine_witness :
  answers demo_result (after demo_updates) demo_succeeded /\
  (get_task (mkGID "s" 2) (task_run demo_result (after demo_updates)).2).1 = Ok demo_succeeded.
Proof.
  destruct (task_operations_refine demo_updates demo_result demo_succeeded _ demo_result_in_range demo_result_runs)
    as [Ha Hg].
  exact (conj Ha (Hg demo_result_quiet)).
Defined.

(** ** The storage on this disk

    The process ends while the second task runs and an executor is being bound
    to it; the storage of the next process loads what is on the disk. *)

#[local] Existing Instance demo_chrono.

Definition demo_fs_node : Node := mkNode "n1" (mkRR 8 8 0) (mkRR 8 8 0) (mkPlatform "x86_64" "linux") NodeReady [ShimHost].
Definition demo_binding : Executor :=
  mkExecutor "e1" "n1" (mkRR 1 1 0) ShimHost "app" (Some 2) (Some "s"%string) ∅ 700 700 ExecBinding None.
Definition demo_crash : list fs_op :=
  demo_updates ++ [OUpdateSessionState "s" SsnOpen; OCreateNode demo_fs_node; OCreateExecutor demo_binding; ORestart].

Lemma demo_crash_ids : ids_ok (after demo_crash).
Proof. apply wf_ids, after_wf. repeat constructor; by vm_compute. Qed.

Definition demo_reloaded : Storage checked MemoryEventManager.t :=
  Storage.new (mkChecked (after demo_crash) demo_crash_ids) MemoryEventManager.new None 3.

Lemma load_data_recovers_witness :
  recovered (load_data demo_reloaded).2 /\
  (task_state <$> (x ← st_sessions (load_data demo_reloaded).2 !! "s"%string; ssn_tasks x !! 2)) = Some TaskPending /\
  (ex_state <$> st_executors (load_data demo_reloaded).2 !! "e1"%string) = Some ExecIdle.
Proof.
  split; [exact (proj1 (load_data_recovers demo_reloaded eq_refl eq_refl))|].
  split; by vm_compute.
Defined.
