(* ===== verification/FsFaults.v ===== *)
(** * What a failing call does to the filesystem engine

    Three places where one I/O error changes more than the operation that met
    it, and the part of a task record its checksum leaves out. *)
From Stdlib Require Import Ascii.
From S2P Require Import Prelude Types Session Filters Snapshot Engine Codes FsDisk FsRecord FsEngine FsDemo FsInv FsTasks FsDurable.
Import FilesystemEngine.
Local Open Scope Z_scope.

Section faults.
Context `{Disk} `{Crates} `{!CratesSpec} `{Env}.

Abbreviation files e := (fs_files (fe_fs e)).
Abbreviation dirs e := (fs_dirs (fe_fs e)).

Definition put_file (p : path) (c : bytes) (e : t) : t :=
  with_fs (mkFs (<[p := c]> (files e)) (dirs e) (S (fs_calls (fe_fs e)))) e.

(** The next call fails, and none after it. *)
Definition one_fault (e : t) : Prop :=
  is_Some (io_fault (fs_calls (fe_fs e))) /\ forall n, (fs_calls (fe_fs e) < n)%nat -> io_fault n = None.

Definition tick (e : t) : t := with_fs (mkFs (files e) (dirs e) (S (fs_calls (fe_fs e)))) e.

Lemma one_fault_tick e : one_fault e -> quiet (tick e).
Proof. intros [_ Hq] n Hn. apply Hq. simpl in Hn. lia. Qed.

Lemma quiet_put_file p c e : quiet e -> quiet (put_file p c e).
Proof. intros Hq n Hn. apply Hq. simpl in Hn. lia. Qed.

Lemma quiet_write p c e : quiet e -> parent p ∈ dirs e -> len c <= max_file_len ->
  or_storage (write p c) e = (Ok tt, put_file p c e).
Proof.
  intros Hq Hp Hc. unfold or_storage, mbind, M_bind, sys, zoom, write, call. rewrite Hq by done. simpl.
  rewrite bool_decide_true by done. simpl. by destruct (Z.ltb_spec max_file_len (len c)); [lia|].
Qed.

Lemma bind_eval {A B} (m : M t A) (f : A -> M t B) e a e1 : m e = (Ok a, e1) -> (m ≫= f) e = f a e1.
Proof. unfold mbind, M_bind. by intros ->. Qed.

(** The state after the metadata of a session is replaced. *)
Definition put_metadata (id : string) (c : bytes) (e : t) : t :=
  with_fs (mkFs (<[metadata_path id := c]> (delete (temporary_path id) (<[temporary_path id := c]> (files e))))
    (dirs e) (S (S (fs_calls (fe_fs e))))) e.

Lemma quiet_put_metadata id c e : quiet e -> quiet (put_metadata id c e).
Proof. intros Hq n Hn. apply Hq. simpl in Hn. lia. Qed.

Lemma quiet_write_session_metadata m c e :
  quiet e -> session_path (sm_id m) ∈ dirs e -> to_string_pretty m = Some c -> len c <= max_file_len ->
  write_session_metadata (sm_id m) m e = (Ok tt, put_metadata (sm_id m) c e).
Proof.
  intros Hq Hd Hc Hl. unfold write_session_metadata, write_metadata. rewrite Hc.
  erewrite bind_eval by done. erewrite bind_eval by by apply quiet_write.
  unfold or_storage, mbind, M_bind, sys, zoom, rename, call. rewrite quiet_put_file by done. simpl.
  by rewrite lookup_insert_eq.
Qed.

Lemma part_path_temporary id p id' : part_path id p <> temporary_path id'.
Proof. intros [= _ Hp]. by destruct p. Qed.

Lemma put_metadata_part id c e id' p : files (put_metadata id c e) !! part_path id' p = files e !! part_path id' p.
Proof.
  simpl. rewrite lookup_insert_ne by apply not_eq_sym, part_path_metadata.
  rewrite delete_insert_eq, lookup_delete_ne; [done|]. apply not_eq_sym, part_path_temporary.
Qed.

Lemma session_from_created attr now e : exists s,
  session_from_metadata (session_metadata_from attr 0 now) e = (Ok s, e).
Proof.
  unfold session_from_metadata, read_common_data, mbind, M_bind. simpl.
  destruct (from_timestamp_timestamp now) as [z ->]. simpl. eauto.
Qed.

(** Opening a file that exists changes no file. *)
Lemma keeps_part_files F id p c : F !! part_path id p = Some c ->
  keeps (fun e => files e = F) (part id p).
Proof.
  intros Hc. set (P := fun e : t => _).
  assert (Ho : forall create, keeps P (payload_open (part_path id p) create)).
  { intros create. unfold payload_open. keeps_step; apply frame_or_storage; intros e He; unfold sys, zoom, call.
    - unfold open, call. destruct (io_fault _); simpl; [done|]. unfold P in He. by rewrite He, Hc.
    - unfold file_len, call. by destruct (io_fault _). }
  unfold part, session_entry. keeps_step; [keeps_tac|]. keeps_step; [done|].
  keeps_step; [by eauto with flame|]. keeps_step; [done|].
  keeps_step; [by apply keeps_modify|by eauto with flame].
Qed.

(** No record is found in an empty file. *)
Lemma get_task_empty id task_id_ x e : fe_sessions e !! id = Some x ->
  files e !! part_path id Tasks = Some [] -> wf e -> quiet e ->
  (get_task (mkGID id task_id_) e).1 = Err ENotFound.
Proof.
  intros Hx Ht He Hq. unfold get_task.
  assert (Hrec : wp (read_task_record id task_id_) (fun r _ => r = Err ENotFound) e).
  { unfold read_task_record. destruct (task_id_ <? 1); [by apply wp_throw|].
    destruct (total_part id Tasks x [] e He Hq Hx Ht) as [n Hn]. apply wp_bind, wp_attempt.
    eapply wp_mono; [apply wp_and; [apply wp_and; [by apply (run_part_any none)|exact Hn]|
      by apply (wp_keeps (fun e' => files e' = files e)); [apply (keeps_part_files _ _ _ [])|]]|].
    cbv beta. intros ? e1 [[[He1 _] ->] Hf].
    apply wp_bind, wp_lift, wp_bind. unfold wp at 1, sys, zoom, read_exact_at, call.
    rewrite (ext_quiet _ _ _ He1 Hq) by done. simpl. rewrite Hf, Ht.
    destruct (Z.leb_spec (record_offset task_id_ + task_record_size) (len [])) as [Hle|_]; [|by apply wp_throw].
    pose proof (wrap_u64_range ((task_id_ - 1) * task_record_size)) as [? _]. pose proof rsize_large.
    rewrite record_size_rsize in Hle. unfold record_offset, len in Hle. rewrite record_size_rsize in *. simpl in Hle. lia. }
  unfold wp in Hrec. rewrite (bind_eval _ _ e x e). 2:{ unfold session_entry, mbind, M_bind. simpl. by rewrite Hx. }
  unfold mbind, M_bind. simpl gid_ssn_id. simpl gid_task_id. by destruct (read_task_record id task_id_ e) as [? ?]; subst.
Qed.

Lemma create_session_faulted attr now c x e :
  fe_sessions e !! sa_id attr = Some x -> one_fault e ->
  sa_application attr <> EmptyString -> sa_common_data attr = None ->
  to_string_pretty (session_metadata_from attr 0 now) = Some c -> len c <= max_file_len ->
  wp (create_session attr now) (fun r e' => is_ok r = true /\ quiet e' /\ fe_sessions e' !! sa_id attr = Some x /\
    files e' !! part_path (sa_id attr) Tasks = Some []) e.
Proof.
  intros Hx Hf Happ Hcd Hc Hl. unfold wp, create_session.
  destruct (String.eqb_spec (sa_application attr) EmptyString); [done|]. cbv beta iota.
  assert (Hread : attempt (read_session_metadata (sa_id attr)) e = (Ok (Err EStorage), tick e)).
  { unfold attempt, read_session_metadata, read_metadata, or_not_found, mbind, M_bind, sys, zoom, read, call.
    destruct Hf as [[k Hk] _]. by rewrite Hk. }
  erewrite bind_eval by exact Hread. cbv beta iota delta [is_ok]. rewrite Hcd.
  pose proof (one_fault_tick e Hf) as Hq1. set (e1 := tick e) in *.
  erewrite bind_eval by by apply quiet_create_dir. set (e2 := with_fs _ e1).
  assert (Hq2 : quiet e2) by by apply quiet_tick.
  assert (Hd2 : session_path (sa_id attr) ∈ dirs e2) by (simpl; set_solver).
  erewrite bind_eval by done. cbv zeta.
  erewrite bind_eval by by apply quiet_write. erewrite bind_eval by by apply quiet_write; [apply quiet_put_file|..].
  erewrite bind_eval by by apply quiet_write; [do 2 apply quiet_put_file|..].
  set (e3 := put_file _ _ (put_file _ _ (put_file _ _ e2))).
  assert (Hq3 : quiet e3) by by do 3 apply quiet_put_file.
  erewrite bind_eval by by apply (quiet_write_session_metadata (session_metadata_from attr 0 now) c).
  set (e4 := put_metadata _ c e3). destruct (session_from_created attr now e4) as [s Hs].
  erewrite bind_eval by exact Hs.
  assert (Hx4 : fe_sessions e4 !! sa_id attr = Some x) by exact Hx.
  erewrite bind_eval by (unfold modify; by rewrite Hx4). split_and!; [done|by apply quiet_put_metadata|done|].
  unfold e4. rewrite put_metadata_part. simpl. rewrite !lookup_insert_ne by done. apply lookup_insert_eq.
Qed.

(** One failed read of a session's metadata loses its tasks: [create_session]
    takes any error for "does not exist", so that creating a session that exists
    succeeds and truncates its records; a task that was stored is gone. *)
Theorem failed_read_erases_session attr now c task_id_ tk e :
  wf e -> live e (sa_id attr) -> stored e (sa_id attr) task_id_ tk -> one_fault e ->
  sa_application attr <> EmptyString -> sa_common_data attr = None ->
  to_string_pretty (session_metadata_from attr 0 now) = Some c -> len c <= max_file_len ->
  is_ok (create_session attr now e).1 = true /\
  (get_task (mkGID (sa_id attr) task_id_) (create_session attr now e).2).1 = Err ENotFound.
Proof.
  intros He [[x Hx] _] _ Hf Happ Hcd Hc Hl.
  assert (Hext : wf (create_session attr now e).2) by (eapply ext_wf, ext_of_run; by apply run_create_session).
  pose proof (create_session_faulted attr now c x e Hx Hf Happ Hcd Hc Hl) as Hcs. unfold wp in Hcs.
  destruct (create_session attr now e) as [r e']. destruct Hcs as (? & ? & ? & ?).
  split; [done|]. by apply (get_task_empty _ _ x).
Qed.

(** A directory without metadata stops the scan. *)
Lemma scan_fails id f l acc e : sf_limit f = None -> quiet e -> files e !! metadata_path id = None -> In id l ->
  wp (scan_sessions (Some f) l acc) (fun r _ => is_ok r = false) e.
Proof.
  intros Hf. revert acc e. induction l as [|i l IH]; intros acc e Hq Hm Hin; [done|].
  simpl. apply wp_bind.
  unfold wp at 1, read_session_metadata, read_metadata, or_not_found, mbind, M_bind, sys, zoom, read, call.
  rewrite Hq by done. simpl. change ["sessions"%string; i; "metadata"%string] with (metadata_path i).
  destruct (files e !! metadata_path i) as [c|] eqn:Hc; [|done]. simpl.
  destruct (from_str c); [|done]. simpl. destruct Hin as [->|Hin]; [congruence|].
  assert (Hrec : forall acc, wp (scan_sessions (Some f) l acc) (fun r _ => is_ok r = false) (tick e))
    by (intros; apply IH; [by apply quiet_tick|done..]).
  destruct (is_none_or _ _ && _ && _); [rewrite Hf|]; apply Hrec.
Qed.

Lemma list_sessions_fails id f e : sf_limit f = None -> quiet e -> ["sessions"%string] ∈ dirs e ->
  session_path id ∈ dirs e -> files e !! metadata_path id = None ->
  wp (list_sessions_metadata (Some f)) (fun r _ => is_ok r = false) e.
Proof.
  intros Hf Hq Hd Hid Hm. unfold list_sessions_metadata. simpl. rewrite Hf. simpl.
  apply wp_bind. unfold wp at 1, sys, zoom, read_dir, call. rewrite Hq by done. simpl.
  rewrite bool_decide_true by done. apply (scan_fails id); [done|by apply quiet_tick|done|].
  apply list_elem_of_In. rewrite dir_order_perm, elem_of_elements. unfold children.
  apply elem_of_list_to_set, list_elem_of_omap. exists (session_path id). split; [|done].
  apply elem_of_app. left. by apply elem_of_elements.
Qed.

(** A session that failed to be created blocks every application: its
    directory has no metadata, the listing of sessions fails on it, and with it
    every update and every removal of an application. *)
Theorem leftover_session_blocks_applications id name attr e :
  quiet e -> ["sessions"%string] ∈ dirs e -> session_path id ∈ dirs e ->
  files e !! metadata_path id = None ->
  is_ok (delete_application name e).1 = false /\ is_ok (update_application name attr e).1 = false.
Proof.
  intros Hq Hd Hid Hm.
  pose proof (list_sessions_fails id (session_by_application name) e eq_refl Hq Hd Hid Hm) as Hl. unfold wp in Hl.
  unfold delete_application, update_application, application_entry, mbind, M_bind. simpl.
  destruct (fe_applications e !! name) as [m|]; simpl; [|done].
  destruct (list_sessions_metadata _ e) as [[l|err|] e1] eqn:Hle; [done|..].
  - split; (destruct (negb _); simpl; [done|by rewrite Hle]).
  - split; (destruct (negb _); simpl; [done|by rewrite Hle]).
Qed.

(** One failed [stat] of the task file closes a session over its tasks: the
    count is taken as 0, no task is examined or cancelled, and the session is
    closed with its records as they were, running tasks included. *)
Theorem failed_stat_closes_over_tasks id now x c content e :
  fe_sessions e !! id = Some x -> sm_id (se_metadata x) = id -> entry_is_closed x = false ->
  one_fault e -> session_path id ∈ dirs e ->
  files e !! part_path id Tasks = Some content ->
  to_string_pretty (ssn_meta_with_state (i32_of_session_state SsnClosed)
    (wrap_u32 (sm_version (se_metadata x) + 1)) (Some (timestamp now)) (se_metadata x)) = Some c ->
  len c <= max_file_len ->
  let e' := (close_session id now e).2 in
  (exists x', fe_sessions e' !! id = Some x' /\ entry_is_closed x' = true) /\
  files e' !! part_path id Tasks = Some content.
Proof.
  intros Hx Hid Hcl Hf Hd Ht Hc Hl. cbv zeta. unfold close_session.
  assert (Hentry : forall e' y, fe_sessions e' !! id = Some y -> session_entry id e' = (Ok y, e')).
  { intros e' y Hy. unfold session_entry, mbind, M_bind. simpl. by rewrite Hy. }
  rewrite (bind_eval _ _ _ _ _ (Hentry e x Hx)). rewrite Hcl.
  assert (Hcount : count_task (by_session id) e = (Ok 0, tick e)).
  { unfold count_task, task_count, mbind, M_bind, sys, zoom, file_len, call.
    destruct Hf as [[k Hk] _]. simpl. by rewrite Hk. }
  rewrite (bind_eval _ _ _ _ _ Hcount). pose proof (one_fault_tick e Hf) as Hq. set (e1 := tick e) in *.
  do 2 (erewrite bind_eval by done). rewrite (bind_eval _ _ _ _ _ (Hentry e1 x Hx)). cbv zeta.
  set (m := ssn_meta_with_state _ _ _ _) in *. set (y := mkEntry m (se_files x)).
  set (e2 := with_sessions (<[id := y]> (fe_sessions e1)) (put_metadata id c e1)).
  assert (Hcommit : commit_session_metadata id x m e1 = (Ok y, e2)).
  { unfold commit_session_metadata. rewrite (bind_eval _ _ e1 tt (put_metadata id c e1)); [done|].
    subst id. by apply (quiet_write_session_metadata m c). }
  rewrite (bind_eval _ _ _ _ _ Hcommit).
  set (e3 := with_sessions (<[id := release_files y]> (fe_sessions e2)) e2).
  assert (Hrel : release id e2 = (Ok (release_files y), e3)).
  { unfold release. by rewrite (bind_eval _ _ _ _ _ (Hentry e2 y (lookup_insert_eq _ _ _))). }
  rewrite (bind_eval _ _ _ _ _ Hrel).
  pattern ((session_from_metadata (se_metadata (release_files y)) e3).2).
  match goal with |- ?P _ => cut (keeps P (session_from_metadata m) /\ P e3) end.
  { intros [Hk He3]. by apply Hk. }
  cbv beta. split.
  - unfold session_from_metadata, read_common_data. keeps_step; [by eauto with flame|].
    keeps_step; [|keeps_tac]. keeps_step; [by eauto with flame|]. keeps_step; [|keeps_tac].
    intros e' He'. unfold sys, zoom, read, call. by destruct (io_fault _).
  - split; [exists (release_files y); split; [apply lookup_insert_eq|done]|].
    unfold e3, e2. exact (eq_trans (put_metadata_part id c e1 id Tasks) Ht).
Qed.

Definition with_affinity (offset n : Z) (m : TaskMetadata) : TaskMetadata :=
  mkTaskMeta (tm_id m) (tm_version m) (tm_checksum m) (tm_state m) (tm_creation_time m)
    (tm_completion_time m) (tm_input_offset m) (tm_input_len m) (tm_output_offset m) (tm_output_len m)
    offset n.

(** The checksum of a record does not cover its affinity range: a record on
    disk whose affinity fields were overwritten with anything is read without an
    error. *)
Theorem corrupt_affinity_accepted id x m k c b offset n e :
  wf e -> quiet e -> fe_sessions e !! id = Some x ->
  files e !! part_path id Tasks = Some c -> meta_ok m -> tm_checksum m = calculate_checksum m ->
  tm_id m = Z.of_nat (S k) -> record_at k c = to_allocvec m ->
  is_u64 offset -> is_u64 n -> to_allocvec (with_affinity offset n m) = Some b ->
  (read_task_record id (tm_id m) (put_file (part_path id Tasks) (overlay (k * rsize) b c) e)).1 =
  Ok (with_affinity offset n m).
Proof.
  intros He Hq Hx Hc Hm Hsum Hk Hrec Ho Hn Hb. set (m' := with_affinity offset n m) in *.
  assert (Hm' : meta_ok m') by (destruct Hm; by split).
  destruct (record_bytes m' b Hm' Hb) as [Hlen Hb8]. destruct (to_allocvec_total m Hm) as [b0 Hb0].
  rewrite Hb0 in Hrec. pose proof (record_at_Some k c b0) as [[Hl _] _]; [done|].
  set (e' := put_file _ _ e).
  assert (He' : ext (whole id) e e').
  { pose proof (wf_small e He _ _ Hc). apply ext_put; [done| |simpl; lia| |done].
    - unfold len in *. rewrite overlay_length. lia.
    - intros _. split.
      + rewrite <-(firstn_all b). apply records_ok_overlay; [by eapply wf_records|lia|done|].
        rewrite Hb8. simpl. by rewrite Hk.
      + intros c' j b' _. rewrite Hc. intros [= <-] Hj. destruct (decide (j = k)) as [->|Hne].
        * exists b. split; [by apply overlay_full|]. by intros [].
        * exists b'. split; [|done]. apply record_at_overlay_ne; [done|lia|done]. }
  assert (Hget : total (read_task_record id (tm_id m')) m' e').
  { apply (total_read_task_record id x); [apply He'|by apply quiet_put_file|done|].
    split_and!; [done|exact Hsum|]. exists (overlay (k * rsize) b c), b, k.
    split_and!; [apply lookup_insert_eq|by apply overlay_full|done|done]. }
  unfold total, wp in Hget. simpl tm_id in Hget. by destruct (read_task_record _ _ e').
Qed.
End faults.

(** ** Concrete faults *)

#[local] Existing Instances demo_env CountableCodec.demo_crates CountableCodec.demo_crates_spec.

(** A disk on which the call [n] fails, without effect. *)
Definition faulty_disk (n : nat) : Disk := demo_disk [(n, 0%nat)].

Lemma faulty_disk_one n m : (n < m)%nat -> @io_fault (faulty_disk n) m = None.
Proof. intros Hm. simpl. destruct (Nat.eqb_spec n m); [lia|done]. Qed.

Lemma faulty_disk_at n : is_Some (@io_fault (faulty_disk n) n).
Proof. simpl. rewrite Nat.eqb_refl. simpl. eauto. Qed.

Section demo_read.
#[local] Instance read_disk : Disk := faulty_disk 23.

Definition demo_written : t := (task_run demo_create (after demo_history)).2.
Definition demo_json : bytes :=
  default [] (to_string_pretty (session_metadata_from demo_fs_attr 0 900)).

Lemma demo_written_ok : wf demo_written /\ live demo_written "s" /\ stored demo_written "s" 1 demo_stored_task.
Proof.
  assert (Hh : Forall op_in_range demo_history) by (repeat constructor).
  pose proof (task_run_ext demo_create _ (after_wf demo_history Hh) I) as Hx. unfold run, wp in Hx.
  assert (Hr : (task_run demo_create (after demo_history)).1 = Ok demo_stored_task) by (vm_compute; reflexivity).
  unfold demo_written. destruct (task_run demo_create (after demo_history)) as [r e]. simpl in Hr. subst r.
  destruct Hx as (Hx & Hl & Hs). split_and!; [apply Hx|exact Hl|exact Hs].
Qed.

Lemma demo_written_calls : fs_calls (fe_fs demo_written) = 23%nat.
Proof. vm_compute. reflexivity. Qed.

Lemma demo_json_ok : to_string_pretty (session_metadata_from demo_fs_attr 0 900) = Some demo_json.
Proof. vm_compute. reflexivity. Qed.
Lemma demo_json_len : len demo_json <= max_file_len.
Proof. apply Z.leb_le. vm_compute. reflexivity. Qed.
Lemma demo_written_fault : one_fault demo_written.
Proof. unfold one_fault. rewrite demo_written_calls. split; [apply faulty_disk_at|apply faulty_disk_one]. Qed.
Lemma demo_application : sa_application demo_fs_attr <> EmptyString.
Proof. discriminate. Qed.

Lemma failed_read_erases_session_witness :
  is_ok (create_session demo_fs_attr 900 demo_written).1 = true /\
  (get_task (mkGID (sa_id demo_fs_attr) 1) (create_session demo_fs_attr 900 demo_written).2).1 = Err ENotFound.
Proof.
  exact (failed_read_erases_session demo_fs_attr 900 demo_json 1 demo_stored_task demo_written
    (proj1 demo_written_ok) (proj1 (proj2 demo_written_ok)) (proj2 (proj2 demo_written_ok)) demo_written_fault
    demo_application eq_refl demo_json_ok demo_json_len).
Defined.

Definition demo_entry : SessionEntry :=
  default (new_session_entry (session_metadata_from demo_fs_attr 0 0)) (fe_sessions demo_written !! "s"%string).
Definition demo_tasks_file : bytes := default [] (fs_files (fe_fs demo_written) !! part_path "s" Tasks).
Definition demo_closed_json : bytes :=
  default [] (to_string_pretty (ssn_meta_with_state (i32_of_session_state SsnClosed)
    (wrap_u32 (sm_version (se_metadata demo_entry) + 1)) (Some (timestamp 900)) (se_metadata demo_entry))).

Lemma demo_entry_ok : fe_sessions demo_written !! "s"%string = Some demo_entry.
Proof. vm_compute. reflexivity. Qed.
Lemma demo_tasks_ok : fs_files (fe_fs demo_written) !! part_path "s" Tasks = Some demo_tasks_file.
Proof. vm_compute. reflexivity. Qed.
Lemma demo_closed_json_ok : to_string_pretty (ssn_meta_with_state (i32_of_session_state SsnClosed)
    (wrap_u32 (sm_version (se_metadata demo_entry) + 1)) (Some (timestamp 900)) (se_metadata demo_entry)) =
  Some demo_closed_json.
Proof. vm_compute. reflexivity. Qed.
Lemma demo_closed_json_len : len demo_closed_json <= max_file_len.
Proof. apply Z.leb_le. vm_compute. reflexivity. Qed.
Lemma demo_entry_id : sm_id (se_metadata demo_entry) = "s"%string /\ entry_is_closed demo_entry = false.
Proof. vm_compute. by split. Qed.
Lemma demo_session_dir : session_path "s" ∈ fs_dirs (fe_fs demo_written).
Proof. apply (bool_decide_unpack _). vm_compute. exact I. Qed.
Lemma demo_tasks_nonempty : demo_tasks_file <> [].
Proof. vm_compute. discriminate. Qed.

Lemma failed_stat_closes_over_tasks_witness :
  demo_tasks_file <> [] /\
  let e' := (close_session "s" 900 demo_written).2 in
  (exists x', fe_sessions e' !! "s"%string = Some x' /\ entry_is_closed x' = true) /\
  fs_files (fe_fs e') !! part_path "s" Tasks = Some demo_tasks_file.
Proof.
  exact (conj demo_tasks_nonempty
    (failed_stat_closes_over_tasks "s" 900 demo_entry demo_closed_json demo_tasks_file demo_written
       demo_entry_ok (proj1 demo_entry_id) (proj2 demo_entry_id) demo_written_fault demo_session_dir
       demo_tasks_ok demo_closed_json_ok demo_closed_json_len)).
Defined.

(** The record of [demo_stored_task], whose affinity length becomes 0. *)
Definition demo_record : TaskMetadata :=
  default default_task_metadata (fst <$> take_from_bytes (default [] (record_at 0 demo_tasks_file))).
Definition demo_bytes : bytes := default [] (to_allocvec (with_affinity 0 0 demo_record)).
Definition demo_quiet : t := tick demo_written.

Lemma demo_quiet_wf : wf demo_quiet.
Proof. apply wf_tick, demo_written_ok. Qed.
Lemma demo_quiet_quiet : quiet demo_quiet.
Proof. apply one_fault_tick, demo_written_fault. Qed.
Lemma demo_record_ok : meta_ok demo_record.
Proof. vm_compute. by split. Qed.
Lemma demo_record_facts : tm_checksum demo_record = calculate_checksum demo_record /\
  tm_id demo_record = Z.of_nat 1 /\ record_at 0 demo_tasks_file = to_allocvec demo_record /\
  to_allocvec (with_affinity 0 0 demo_record) = Some demo_bytes /\ with_affinity 0 0 demo_record <> demo_record.
Proof. vm_compute. split_and!; try reflexivity. discriminate. Qed.
Lemma demo_quiet_entry : fe_sessions demo_quiet !! "s"%string = Some demo_entry.
Proof. vm_compute. reflexivity. Qed.
Lemma demo_quiet_tasks : fs_files (fe_fs demo_quiet) !! part_path "s" Tasks = Some demo_tasks_file.
Proof. vm_compute. reflexivity. Qed.
Lemma zero_u64 : is_u64 0.
Proof. by split. Qed.

Lemma corrupt_affinity_accepted_witness :
  with_affinity 0 0 demo_record <> demo_record /\
  (read_task_record "s" (tm_id demo_record)
     (put_file (part_path "s" Tasks) (overlay (0 * rsize) demo_bytes demo_tasks_file) demo_quiet)).1 =
  Ok (with_affinity 0 0 demo_record).
Proof.
  exact (conj (proj2 (proj2 (proj2 (proj2 demo_record_facts))))
    (corrupt_affinity_accepted "s" demo_entry demo_record 0 demo_tasks_file demo_bytes 0 0 demo_quiet
       demo_quiet_wf demo_quiet_quiet demo_quiet_entry demo_quiet_tasks demo_record_ok (proj1 demo_record_facts)
       (proj1 (proj2 demo_record_facts)) (proj1 (proj2 (proj2 demo_record_facts))) zero_u64 zero_u64
       (proj1 (proj2 (proj2 (proj2 demo_record_facts)))))).
Defined.
End demo_read.

Section demo_leftover.
(** The creation of [tasks.bin] fails. *)
#[local] Instance leftover_disk : Disk := faulty_disk 8.

Definition demo_leftover : t := after demo_history.

Definition demo_app_attr : ApplicationAttributes :=
  mkAppAttr ShimHost None None [] None [] ∅ None 1 0 None None None.

Lemma demo_leftover_quiet : quiet demo_leftover.
Proof.
  intros n Hn. apply faulty_disk_one. revert Hn.
  assert (Hc : fs_calls (fe_fs demo_leftover) = 9%nat) by (vm_compute; reflexivity). rewrite Hc. lia.
Qed.
Lemma demo_leftover_dirs : ["sessions"%string] ∈ fs_dirs (fe_fs demo_leftover) /\
  session_path "s" ∈ fs_dirs (fe_fs demo_leftover).
Proof. split; apply (bool_decide_unpack _); vm_compute; exact I. Qed.
Lemma demo_leftover_metadata : fs_files (fe_fs demo_leftover) !! metadata_path "s" = None.
Proof. vm_compute. reflexivity. Qed.

Lemma leftover_session_blocks_applications_witness :
  is_ok (delete_application "app" demo_leftover).1 = false /\
  is_ok (update_application "app" demo_app_attr demo_leftover).1 = false.
Proof.
  exact (leftover_session_blocks_applications "s" "app" demo_app_attr demo_leftover demo_leftover_quiet
    (proj1 demo_leftover_dirs) (proj2 demo_leftover_dirs) demo_leftover_metadata).
Defined.
End demo_leftover.
