(* ===== verification/Rpc.v ===== *)
(** * The messages of the gRPC interface and their conversions

    The messages of [rpc/protos/types.proto], and the conversions between them
    and the domain types ([common/src/apis/from_rpc.rs], [to_rpc.rs], and those
    of executors in [apis/executor.rs]).  A message field is an [option], an
    enumeration on the wire its number, [repeated] a list, [bytes] a [string].
    Chrono's conversions are parameters. *)
From Stdlib Require Import Ascii.
From stdpp Require Import pretty.
From S2P Require Import Prelude Text Types Session Events Codes.
Local Open Scope Z_scope.

(** ** Messages *)

Module rpc.

Record Metadata := mkMetadata { md_id : string; md_name : string }.

Record Event := mkEvent { e_code : Z; e_message : option string; e_creation_time : Z }.

Record ResourceRequirement := mkRR { rq_cpu : Z; rq_memory : Z; rq_gpu : Z }.

Record SessionStatus := mkSessionStatus {
  sst_state : Z;
  sst_creation_time : Z;
  sst_completion_time : option Z;
  sst_pending : Z;
  sst_running : Z;
  sst_succeed : Z;
  sst_failed : Z;
  sst_cancelled : Z;
  sst_events : list Event
}.

Record SessionSpec := mkSessionSpec {
  ssp_application : string;
  ssp_common_data : option string;
  ssp_min_instances : Z;
  ssp_max_instances : option Z;
  ssp_batch_size : Z;
  ssp_priority : Z;
  ssp_resreq : option ResourceRequirement;
  ssp_tokens : gmap string string
}.

Record Session := mkSession {
  s_metadata : option Metadata;
  s_spec : option SessionSpec;
  s_status : option SessionStatus
}.

Record TaskStatus := mkTaskStatus {
  tst_state : Z;
  tst_creation_time : Z;
  tst_completion_time : option Z;
  tst_events : list Event
}.

Record TaskSpec := mkTaskSpec {
  tsp_session_id : string;
  tsp_input : option string;
  tsp_output : option string;
  tsp_affinity : list string
}.

Record Task := mkTask {
  t_metadata : option Metadata;
  t_spec : option TaskSpec;
  t_status : option TaskStatus
}.

Record ApplicationStatus := mkApplicationStatus { ast_state : Z; ast_creation_time : Z }.

Record Environment := mkEnvironment { env_name : string; env_value : string }.

Record ApplicationSchema := mkApplicationSchema {
  asc_input : option string;
  asc_output : option string;
  asc_common_data : option string
}.

Record ApplicationSpec := mkApplicationSpec {
  asp_shim : Z;
  asp_description : option string;
  asp_labels : list string;
  asp_image : option string;
  asp_command : option string;
  asp_arguments : list string;
  asp_environments : list Environment;
  asp_working_directory : option string;
  asp_max_instances : option Z;
  asp_delay_release : option Z;
  asp_schema : option ApplicationSchema;
  asp_url : option string;
  asp_installer : option string
}.

Record Application := mkApplication {
  a_metadata : option Metadata;
  a_spec : option ApplicationSpec;
  a_status : option ApplicationStatus
}.

Record ExecutorSpec := mkExecutorSpec {
  xsp_node : string;
  xsp_resreq : option ResourceRequirement;
  xsp_shim : Z;
  xsp_application : string
}.

Record ExecutorStatus := mkExecutorStatus { xst_state : Z; xst_session_id : option string }.

Record Executor := mkExecutor {
  x_metadata : option Metadata;
  x_spec : option ExecutorSpec;
  x_status : option ExecutorStatus
}.

Record NodeSpec := mkNodeSpec { nsp_hostname : string; nsp_shims : list Z }.

Record NodeInfo := mkNodeInfo { ni_arch : string; ni_os : string }.

Record NodeAddress := mkNodeAddress { na_type : string; na_address : string }.

Record NodeStatus := mkNodeStatus {
  nst_state : Z;
  nst_capacity : option ResourceRequirement;
  nst_allocatable : option ResourceRequirement;
  nst_info : option NodeInfo;
  nst_addresses : list NodeAddress;
  nst_last_heartbeat_time : Z
}.

Record Node := mkNode {
  n_metadata : option Metadata;
  n_spec : option NodeSpec;
  n_status : option NodeStatus
}.

Record Result := mkResult { r_return_code : Z; r_message : option string }.

Record TaskResult := mkTaskResult {
  trs_return_code : Z;
  trs_output : option string;
  trs_message : option string
}.

(** [Default] of the messages that are read with [unwrap_or_default]. *)
Definition default_metadata : Metadata := mkMetadata "" "".
Definition default_resreq : ResourceRequirement := mkRR 0 0 0.
Definition default_node_info : NodeInfo := mkNodeInfo "" "".
Definition default_node_spec : NodeSpec := mkNodeSpec "" [].
Definition default_node_status : NodeStatus := mkNodeStatus 0 None None None [] 0.
Definition default_result : Result := mkResult 0 None.
End rpc.

(** ** Durations

    chrono's [Duration::seconds], which panics out of its bounds, and
    [num_seconds]. *)
Class Durations := {
  try_seconds : Z -> option Z;
  whole_seconds : Z -> Z
}.

(** What the documentation of chrono says of them: the bounds are
    [i64::MAX / 1000] seconds either way. *)
Definition MAX_SECONDS : Z := (2 ^ 63 - 1) / 1000.

Class DurationsSpec `{Durations} : Prop := {
  try_seconds_bounds : forall n, is_Some (try_seconds n) <-> - MAX_SECONDS <= n <= MAX_SECONDS;
  whole_try_seconds : forall n d, try_seconds n = Some d -> whole_seconds d = n
}.

Definition seconds `{Durations} (n : Z) : result Z :=
  match try_seconds n with Some d => Ok d | None => Panic end.

Definition DEFAULT_MAX_INSTANCES : Z := 1000000.
(** [Duration::seconds(60)], in nanoseconds. *)
Definition DEFAULT_DELAY_RELEASE : Z := 60 * 1000000000.

(** [opt.map(Duration::seconds).unwrap_or(DEFAULT_DELAY_RELEASE)]. *)
Definition delay_or_default `{Durations} (o : option Z) : result Z :=
  match o with Some n => seconds n | None => Ok DEFAULT_DELAY_RELEASE end.

(** The elements of a [HashSet] in the order of its iterator. *)
Definition hs_iter `{Env} (s : gset string) : list string := (hm_iter (gset_to_gmap tt s)).*1.

(** ** From messages ([from_rpc.rs]) *)

Definition requirement_from (req : rpc.ResourceRequirement) : ResourceRequirement :=
  mkRR (rpc.rq_cpu req) (rpc.rq_memory req) (rpc.rq_gpu req).

Definition platform_from (info : rpc.NodeInfo) : Platform :=
  mkPlatform (rpc.ni_arch info) (rpc.ni_os info).

(** The shims a node reports; a number that is none is left out. *)
Definition shims_from (l : list Z) : list Shim :=
  omap (fun v => match shim_try_from v with Ok s => Some s | _ => None end) l.

Definition node_from (node : rpc.Node) : Node :=
  let status := default rpc.default_node_status (rpc.n_status node) in
  let metadata := default rpc.default_metadata (rpc.n_metadata node) in
  let spec := default rpc.default_node_spec (rpc.n_spec node) in
  mkNode (rpc.md_name metadata)
    (requirement_from (default rpc.default_resreq (rpc.nst_capacity status)))
    (requirement_from (default rpc.default_resreq (rpc.nst_allocatable status)))
    (platform_from (default rpc.default_node_info (rpc.nst_info status)))
    (node_state_from (rpc.nst_state status))
    (shims_from (rpc.nsp_shims spec)).

(** [DateTime::default()] is the epoch. *)
Definition event_from `{Chrono} (event : rpc.Event) : Event :=
  mkEvent (rpc.e_code event) (rpc.e_message event)
    (default 0 (from_timestamp_millis (rpc.e_creation_time event))).

Definition result_from (r : rpc.Result) : FlameResult :=
  mkFlameResult (rpc.r_return_code r) (rpc.r_message r).

Record TaskContext := mkTaskContext {
  tc_task_id : string;
  tc_session_id : string;
  tc_input : option string
}.

Definition task_context_try_from (task : rpc.Task) : result TaskContext :=
  metadata ← ok_or (rpc.t_metadata task) EInvalidConfig;
  spec ← ok_or (rpc.t_spec task) EInvalidConfig;
  Ok (mkTaskContext (rpc.md_id metadata) (rpc.tsp_session_id spec) (rpc.tsp_input spec)).

Record ApplicationContext := mkAppContext {
  ac_name : string;
  ac_shim : Shim;
  ac_image : option string;
  ac_command : option string;
  ac_arguments : list string;
  ac_working_directory : option string;
  ac_environments : gmap string string;
  ac_url : option string;
  ac_installer : option string
}.

(** [.map(|e| (e.name, e.value)).collect()]. *)
Definition environments_from (l : list rpc.Environment) : gmap string string :=
  hm_collect ((fun e => (rpc.env_name e, rpc.env_value e)) <$> l).

Definition application_context_try_from (app : rpc.Application) : result ApplicationContext :=
  metadata ← ok_or (rpc.a_metadata app) EInvalidConfig;
  spec ← ok_or (rpc.a_spec app) EInvalidConfig;
  Ok (mkAppContext (rpc.md_name metadata) (shim_or_default (rpc.asp_shim spec))
        (rpc.asp_image spec) (rpc.asp_command spec) (rpc.asp_arguments spec)
        (rpc.asp_working_directory spec) (environments_from (rpc.asp_environments spec))
        (rpc.asp_url spec) (rpc.asp_installer spec)).

Record SessionContext := mkSsnContext {
  sc_session_id : string;
  sc_application : ApplicationContext;
  sc_common_data : option string;
  sc_tokens : gmap string string;
  sc_batch_size : Z
}.

Definition session_context_try_from (app : rpc.Application) (ssn : rpc.Session)
    : result SessionContext :=
  metadata ← ok_or (rpc.s_metadata ssn) EInvalidConfig;
  spec ← ok_or (rpc.s_spec ssn) EInvalidConfig;
  application ← application_context_try_from app;
  Ok (mkSsnContext (rpc.md_id metadata) application (rpc.ssp_common_data spec)
        (rpc.ssp_tokens spec) (rpc.ssp_batch_size spec)).

Definition schema_from (schema : rpc.ApplicationSchema) : ApplicationSchema :=
  mkSchema (rpc.asc_input schema) (rpc.asc_output schema) (rpc.asc_common_data schema).

(** [status.state()]: an unknown number is the default, [Enabled]. *)
Definition application_state_or_default (v : Z) : ApplicationState :=
  match application_state_try_from v with Ok s => s | _ => AppEnabled end.

Definition application_try_from `{Chrono} `{Durations} (app : rpc.Application)
    : result Application :=
  metadata ← ok_or (rpc.a_metadata app) EInvalidConfig;
  spec ← ok_or (rpc.a_spec app) EInvalidConfig;
  status ← ok_or (rpc.a_status app) EInvalidConfig;
  creation_time ← ok_or (from_timestamp_millis (rpc.ast_creation_time status)) EInvalidState;
  delay_release ← delay_or_default (rpc.asp_delay_release spec);
  Ok (mkApp (rpc.md_name metadata) 0 (application_state_or_default (rpc.ast_state status))
        creation_time (shim_or_default (rpc.asp_shim spec)) (rpc.asp_image spec)
        (rpc.asp_description spec) (rpc.asp_labels spec) (rpc.asp_command spec)
        (rpc.asp_arguments spec) (environments_from (rpc.asp_environments spec))
        (rpc.asp_working_directory spec)
        (default DEFAULT_MAX_INSTANCES (rpc.asp_max_instances spec)) delay_release
        (schema_from <$> rpc.asp_schema spec) (rpc.asp_url spec) (rpc.asp_installer spec)).

(** [.filter(|wd| !wd.is_empty())]. *)
Definition nonempty (o : option string) : option string :=
  match o with Some wd => if String.eqb wd "" then None else Some wd | None => None end.

Definition application_attributes_from `{Durations} (spec : rpc.ApplicationSpec)
    : result ApplicationAttributes :=
  delay_release ← delay_or_default (rpc.asp_delay_release spec);
  Ok (mkAppAttr (shim_or_default (rpc.asp_shim spec)) (rpc.asp_image spec)
        (rpc.asp_description spec) (rpc.asp_labels spec) (rpc.asp_command spec)
        (rpc.asp_arguments spec) (environments_from (rpc.asp_environments spec))
        (nonempty (rpc.asp_working_directory spec))
        (default DEFAULT_MAX_INSTANCES (rpc.asp_max_instances spec)) delay_release
        (schema_from <$> rpc.asp_schema spec) (rpc.asp_url spec) (rpc.asp_installer spec)).

Definition task_result_from (r : rpc.TaskResult) : TaskResult :=
  let state := if negb (rpc.trs_return_code r =? 0) then TaskFailed else TaskSucceed in
  mkTaskResult state (rpc.trs_output r) (rpc.trs_message r).

Definition task_result_try_into (r : TaskResult) : result rpc.TaskResult :=
  return_code ← match tr_state r with
                | TaskFailed => Ok (-1)
                | TaskSucceed => Ok 0
                | _ => Err EInvalidState
                end;
  Ok (rpc.mkTaskResult return_code (tr_output r) (tr_message r)).

(** [rpc::ExecutorState::try_from(status.state).unwrap().into()]. *)
Definition executor_state_unwrap (v : Z) : result ExecutorState :=
  if (0 <=? v) && (v <=? 7) then Ok (executor_state_from v) else Panic.

(** [opt.unwrap()]. *)
Definition unwrap {A} (o : option A) : result A :=
  match o with Some a => Ok a | None => Panic end.

(** [Executor::from]: the clock is read twice. *)
Definition executor_from (e : rpc.Executor) (created updated : Z) : result Executor :=
  spec ← unwrap (rpc.x_spec e);
  status ← unwrap (rpc.x_status e);
  metadata ← unwrap (rpc.x_metadata e);
  state ← executor_state_unwrap (rpc.xst_state status);
  resreq ← unwrap (rpc.xsp_resreq spec);
  Ok (mkExecutor (rpc.md_id metadata) (rpc.xsp_node spec) (requirement_from resreq)
        (shim_or_default (rpc.xsp_shim spec)) (rpc.xsp_application spec) None None ∅
        created updated state None).

(** ** To messages ([to_rpc.rs]) *)

Definition requirement_to (req : ResourceRequirement) : rpc.ResourceRequirement :=
  rpc.mkRR (rr_cpu req) (rr_memory req) (rr_gpu req).

Definition platform_to (info : Platform) : rpc.NodeInfo :=
  rpc.mkNodeInfo (pf_arch info) (pf_os info).

Definition node_to (node : Node) : rpc.Node :=
  rpc.mkNode (Some (rpc.mkMetadata (node_name node) (node_name node)))
    (Some (rpc.mkNodeSpec (node_name node) (i32_of_shim <$> node_shims node)))
    (Some (rpc.mkNodeStatus (i32_of_node_state (node_state node))
       (Some (requirement_to (node_capacity node))) (Some (requirement_to (node_allocatable node)))
       (Some (platform_to (node_info node))) [] 0)).

Definition result_to (r : FlameResult) : rpc.Result :=
  rpc.mkResult (fr_return_code r) (fr_message r).

Definition schema_to (schema : ApplicationSchema) : rpc.ApplicationSchema :=
  rpc.mkApplicationSchema (as_input schema) (as_output schema) (as_common_data schema).

Definition executor_to (e : Executor) : rpc.Executor :=
  rpc.mkExecutor (Some (rpc.mkMetadata (ex_id e) (ex_id e)))
    (Some (rpc.mkExecutorSpec (ex_node e) (Some (requirement_to (ex_resreq e)))
       (i32_of_shim (ex_shim e)) (ex_application e)))
    (Some (rpc.mkExecutorStatus (i32_of_executor_state (ex_state e)) (ex_ssn_id e))).

Section to_rpc.
Context `{Env} `{Chrono} `{Durations}.

Definition event_to (event : Event) : rpc.Event :=
  rpc.mkEvent (ev_code event) (ev_message event) (timestamp_millis (ev_creation_time event)).

Definition task_to (task : Task) : rpc.Task :=
  rpc.mkTask (Some (rpc.mkMetadata (pretty (task_id task)) (pretty (task_id task))))
    (Some (rpc.mkTaskSpec (task_ssn_id task) (task_input task) (task_output task)
       (hs_iter (task_affinity task))))
    (Some (rpc.mkTaskStatus (i32_of_task_state (task_state task))
       (timestamp_millis (task_creation_time task))
       (timestamp_millis <$> task_completion_time task) (event_to <$> task_events task))).

(** The loop over the index visits each state at most once and sets its count,
    [v.len() as i32]; a state it does not visit counts 0. *)
Definition indexed_count (s : TaskState) (ssn : Session) : Z :=
  match ssn_tasks_index ssn !! s with
  | Some v => wrap_i32 (Z.of_nat (size v))
  | None => 0
  end.

Definition session_to (ssn : Session) : rpc.Session :=
  rpc.mkSession (Some (rpc.mkMetadata (ssn_id ssn) (ssn_id ssn)))
    (Some (rpc.mkSessionSpec (ssn_application ssn) (ssn_common_data ssn) (ssn_min_instances ssn)
       (ssn_max_instances ssn) (ssn_batch_size ssn) (ssn_priority ssn)
       (requirement_to <$> ssn_resreq ssn) ∅))
    (Some (rpc.mkSessionStatus (i32_of_session_state (ssn_state ssn))
       (timestamp_millis (ssn_creation_time ssn))
       (timestamp_millis <$> ssn_completion_time ssn)
       (indexed_count TaskPending ssn) (indexed_count TaskRunning ssn)
       (indexed_count TaskSucceed ssn) (indexed_count TaskFailed ssn)
       (indexed_count TaskCancelled ssn) (event_to <$> ssn_events ssn))).

Definition application_to (app : Application) : rpc.Application :=
  rpc.mkApplication (Some (rpc.mkMetadata (app_name app) (app_name app)))
    (Some (rpc.mkApplicationSpec (i32_of_shim (app_shim app)) (app_description app)
       (app_labels app) (app_image app) (app_command app) (app_arguments app)
       ((fun kv => rpc.mkEnvironment kv.1 kv.2) <$> hm_iter (app_environments app))
       (app_working_directory app) (Some (app_max_instances app))
       (Some (whole_seconds (app_delay_release app))) (schema_to <$> app_schema app)
       (app_url app) (app_installer app)))
    (Some (rpc.mkApplicationStatus (i32_of_application_state (app_state app))
       (timestamp_millis (app_creation_time app)))).
End to_rpc.

(** ** Round trips *)

Lemma requirement_roundtrip r : requirement_from (requirement_to r) = r.
Proof. by destruct r. Qed.
Lemma platform_roundtrip p : platform_from (platform_to p) = p.
Proof. by destruct p. Qed.
Lemma schema_roundtrip s : schema_from (schema_to s) = s.
Proof. by destruct s. Qed.
Lemma shim_or_default_code s : shim_or_default (i32_of_shim s) = s.
Proof. unfold shim_or_default. by rewrite shim_code. Qed.
Lemma application_state_or_default_code s :
  application_state_or_default (i32_of_application_state s) = s.
Proof. unfold application_state_or_default. by rewrite application_state_code. Qed.
Lemma executor_state_unwrap_code s : executor_state_unwrap (i32_of_executor_state s) = Ok s.
Proof. by destruct s. Qed.

Lemma option_roundtrip {A B} (to : A -> B) (from : B -> A) (o : option A) :
  (forall a, from (to a) = a) -> from <$> (to <$> o) = o.
Proof. intros Hr. destruct o; simpl; [by rewrite Hr|done]. Qed.

Lemma shims_roundtrip l : shims_from (i32_of_shim <$> l) = l.
Proof.
  unfold shims_from. induction l as [|s l IH]; simpl; [done|]. rewrite shim_code. by f_equal.
Qed.

Lemma hs_iter_elem `{Env} (s : gset string) k : k ∈ hs_iter s <-> k ∈ s.
Proof.
  unfold hs_iter. rewrite list_elem_of_fmap. split.
  - intros ([k' []] & -> & Hk). apply hm_iter_elem, lookup_gset_to_gmap_Some in Hk. by destruct Hk.
  - intros Hk. exists (k, tt). rewrite hm_iter_elem, lookup_gset_to_gmap_Some. done.
Qed.

Lemma hs_iter_roundtrip `{Env} (s : gset string) : list_to_set (hs_iter s) = s.
Proof. apply set_eq. intros k. by rewrite elem_of_list_to_set, hs_iter_elem. Qed.

Lemma environments_roundtrip `{Env} (m : gmap string string) :
  environments_from ((fun kv => rpc.mkEnvironment kv.1 kv.2) <$> hm_iter m) = m.
Proof.
  unfold environments_from. rewrite <- list_fmap_compose.
  assert ((fun e => (rpc.env_name e, rpc.env_value e)) ∘ (fun kv => rpc.mkEnvironment kv.1 kv.2)
          <$> hm_iter m = hm_iter m) as ->.
  { rewrite <- (list_fmap_id (hm_iter m)) at 2. apply list_fmap_ext. by intros _ [] _. }
  apply map_eq. intros k. apply option_eq. intros v.
  by rewrite hm_collect_lookup, hm_iter_elem by apply hm_iter_NoDup.
Qed.

(** The node a message tells is the node it was made of. *)
Lemma node_roundtrip n : node_from (node_to n) = n.
Proof.
  destruct n as [name cap alloc info st shims]. unfold node_from. simpl.
  by rewrite !requirement_roundtrip, platform_roundtrip, node_state_code, shims_roundtrip.
Qed.

(** What the wire does not carry of an executor: its task, its session, its
    attributes, its times and its signal. *)
Definition executor_on_wire (created updated : Z) (e : Executor) : Executor :=
  mkExecutor (ex_id e) (ex_node e) (ex_resreq e) (ex_shim e) (ex_application e) None None ∅
    created updated (ex_state e) None.

Lemma executor_roundtrip e created updated :
  executor_from (executor_to e) created updated = Ok (executor_on_wire created updated e).
Proof.
  unfold executor_from, executor_on_wire. simpl. unfold mbind, result_bind.
  by rewrite executor_state_unwrap_code, requirement_roundtrip, shim_or_default_code.
Qed.

(** A task result survives exactly when it is final and not cancelled. *)
Lemma task_result_roundtrip r :
  match task_result_try_into r with
  | Ok m => task_result_from m = r
  | _ => tr_state r ∉ [TaskFailed; TaskSucceed]
  end.
Proof. destruct r as [[] out msg]; simpl; try done; set_solver. Qed.

Section application_roundtrip.
Context `{Env} `{Chrono} `{DurationsSpec}.

(** [app] as the wire carries it: no version, and the times rounded. *)
Definition application_on_wire (creation_time delay_release : Z) (a : Application) : Application :=
  mkApp (app_name a) 0 (app_state a) creation_time (app_shim a) (app_image a)
    (app_description a) (app_labels a) (app_command a) (app_arguments a) (app_environments a)
    (app_working_directory a) (app_max_instances a) delay_release (app_schema a) (app_url a)
    (app_installer a).

Lemma application_roundtrip_ok a t d :
  from_timestamp_millis (timestamp_millis (app_creation_time a)) = Some t ->
  try_seconds (whole_seconds (app_delay_release a)) = Some d ->
  application_try_from (application_to a) = Ok (application_on_wire t d a).
Proof.
  intros Ht Hd. unfold application_try_from, application_on_wire. simpl.
  unfold mbind, result_bind. rewrite Ht. simpl. unfold seconds. rewrite Hd.
  by rewrite application_state_or_default_code, shim_or_default_code, environments_roundtrip,
    (option_roundtrip schema_to schema_from _ schema_roundtrip).
Qed.

(** What the executor manager makes of the application and the session. *)
Definition application_context (a : Application) : ApplicationContext :=
  mkAppContext (app_name a) (app_shim a) (app_image a) (app_command a) (app_arguments a)
    (app_working_directory a) (app_environments a) (app_url a) (app_installer a).

Lemma application_context_roundtrip a :
  application_context_try_from (application_to a) = Ok (application_context a).
Proof.
  unfold application_context_try_from. simpl. unfold mbind, result_bind.
  by rewrite shim_or_default_code, environments_roundtrip.
Qed.
End application_roundtrip.

(** ** The counts of a session's tasks *)

Definition tasks_in (st : TaskState) (s : Session) : gmap Z Task :=
  filter (fun kv => task_state kv.2 = st) (ssn_tasks s).

Lemma tasks_in_lookup st s id t :
  tasks_in st s !! id = Some t <-> ssn_tasks s !! id = Some t /\ task_state t = st.
Proof. unfold tasks_in. by rewrite map_lookup_filter_Some. Qed.

(** The index of a state that is not pending is exactly the tasks in it. *)
Lemma index_is_tasks_in s st :
  index_wf s -> st <> TaskPending -> default ∅ (ssn_tasks_index s !! st) = tasks_in st s.
Proof.
  intros Hwf Hst. apply map_eq. intros id. apply option_eq. intros t.
  assert (default ∅ (ssn_tasks_index s !! st) !! id = index_lookup s st id) as ->.
  { unfold index_lookup. by destruct (ssn_tasks_index s !! st). }
  rewrite tasks_in_lookup. split; [by apply iw_sound|].
  intros [Ht <-]. by apply iw_complete.
Qed.

Lemma pending_index_sub s :
  index_wf s -> default ∅ (ssn_tasks_index s !! TaskPending) ⊆ tasks_in TaskPending s.
Proof.
  intros Hwf. apply map_subseteq_spec. intros id t Ht. apply tasks_in_lookup.
  apply (iw_sound s Hwf). unfold index_lookup. by destruct (ssn_tasks_index s !! TaskPending).
Qed.

Lemma indexed_count_size s st :
  indexed_count st s = wrap_i32 (Z.of_nat (size (default ∅ (ssn_tasks_index s !! st)))).
Proof. unfold indexed_count. by destruct (ssn_tasks_index s !! st). Qed.

Lemma tasks_in_size st s : (size (tasks_in st s) <= size (ssn_tasks s))%nat.
Proof. apply map_subseteq_size, map_filter_subseteq. Qed.

Lemma count_exact s st :
  index_wf s -> Z.of_nat (size (ssn_tasks s)) < 2 ^ 31 -> st <> TaskPending ->
  indexed_count st s = Z.of_nat (size (tasks_in st s)).
Proof.
  intros Hwf Hn Hst. rewrite indexed_count_size, index_is_tasks_in by done.
  apply wrap_i32_small. pose proof (tasks_in_size st s). width.
Qed.

Lemma count_pending s :
  index_wf s -> Z.of_nat (size (ssn_tasks s)) < 2 ^ 31 ->
  0 <= indexed_count TaskPending s <= Z.of_nat (size (tasks_in TaskPending s)).
Proof.
  intros Hwf Hn. rewrite indexed_count_size.
  pose proof (map_subseteq_size _ _ (pending_index_sub s Hwf)) as Hs.
  pose proof (tasks_in_size TaskPending s). rewrite wrap_i32_small by width. lia.
Qed.
