(* ===== verification/Frontend.v ===== *)
(** * The frontend of the API server ([session_manager/src/apiserver/frontend.rs])

    The calls of clients, one definition per unary call of the service, over
    the operations of the controller.  A handler returns a message or a
    [Status], of which the code is kept; [watch_tasks] is in [Watch]. *)
From S2P Require Import Connections.
From S2P Require Import Prelude Text Types Session Filters Events Engine Storage Controller Codes Rpc.
Local Open Scope Z_scope.

(** ** Replies *)

(** The codes of [tonic::Status] the server uses. *)
Inductive Code := InvalidArgument | NotFound | AlreadyExists | Internal | Cancelled.

#[export] Instance Code_eq_dec : EqDecision Code.
Proof. solve_decision. Defined.

(** What a call gives its client; [Crash] is a handler that panicked. *)
Inductive reply (A : Type) :=
  | Reply (a : A)
  | Status (c : Code)
  | Crash.
Arguments Reply {A} _.
Arguments Status {A} _.
Arguments Crash {A}.

Definition Api (S A : Type) : Type := S -> reply A * S.

#[export] Instance Api_ret {S} : MRet (Api S) := fun A a s => (Reply a, s).
#[export] Instance Api_bind {S} : MBind (Api S) := fun A B f m s =>
  match m s with
  | (Reply a, s') => f a s'
  | (Status c, s') => (Status c, s')
  | (Crash, s') => (Crash, s')
  end.

(** [impl From<FlameError> for Status]. *)
Definition status_from (e : FlameError) : Code :=
  match e with
  | ENotFound => NotFound
  | EAlreadyExist => AlreadyExists
  | EInvalidConfig | EInvalidState | EInvalidVersion => InvalidArgument
  | EInternal | ENetwork | EUninitialized | EStorage | EVersionMismatch => Internal
  end.

(** [op.await.map_err(Status::from)?] and [op.await?]. *)
Definition call {S A} (m : M S A) : Api S A := fun s =>
  match m s with
  | (Ok a, s') => (Reply a, s')
  | (Err e, s') => (Status (status_from e), s')
  | (Panic, s') => (Crash, s')
  end.

Definition fail {S A} (c : Code) : Api S A := fun s => (Status c, s).

(** [opt.ok_or(Status::code(..))?]. *)
Definition or_status {S A} (o : option A) (c : Code) : Api S A :=
  match o with Some a => mret a | None => fail c end.

(** ** What other crates provide: [serde_json] and [jsonschema], and the text of
    an error. *)
Class Schemas := {
  json_value : Type;
  json_from_str : string -> option json_value;
  meta_validate : json_value -> bool;
  error_text : FlameError -> string
}.

(** ** Checks of requests *)

(** 1 CPU, 1 GiB of memory, no GPU. *)
Definition DEFAULT_FALLBACK_RESREQ : ResourceRequirement := mkRR 1 (1024 * 1024 * 1024) 0.

Definition resolve_session_resreq (explicit cluster_default : option ResourceRequirement)
    : ResourceRequirement :=
  match explicit with
  | Some rr => rr
  | None => match cluster_default with
            | Some dflt => dflt
            | None => DEFAULT_FALLBACK_RESREQ
            end
  end.

(** [Path::is_absolute] of a Unix path. *)
Definition is_absolute (p : string) : bool := String.prefix "/" p.

Definition validate_working_directory (working_dir : option string) : result unit :=
  match working_dir with
  | Some wd => if negb (String.eqb wd "") && negb (is_absolute wd) then Err EInvalidConfig else Ok tt
  | None => Ok tt
  end.

Section schemas.
Context `{Schemas}.

(** One of the three schemas: JSON that the meta-schema accepts. *)
Definition validate_schema (schema : option string) : result unit :=
  match schema with
  | None => Ok tt
  | Some text =>
      value ← ok_or (json_from_str text) EInvalidConfig;
      ensure (meta_validate value) EInvalidConfig
  end.

(** The checks [register_application] and [update_application] share. *)
Definition validate_application_spec (spec : rpc.ApplicationSpec) : result unit :=
  match rpc.asp_schema spec with
  | None => Ok tt
  | Some schema =>
      validate_schema (rpc.asc_input schema) ≫= fun _ =>
      validate_schema (rpc.asc_output schema) ≫= fun _ =>
      validate_schema (rpc.asc_common_data schema)
  end ≫= fun _ =>
  validate_working_directory (rpc.asp_working_directory spec).
End schemas.

Module Frontend.
Section frontend.
Context `{Env} `{Chrono} `{Durations} `{Schemas} {E V : Type} `{Engine E} `{EventManager V}.
(** [Flame.cluster_default_resreq]. *)
Variable cluster_default_resreq : option ResourceRequirement.
Abbreviation K := (ConnectionManager (Storage E V)).
Abbreviation KM := (M (ConnectionManager (Storage E V))).
Abbreviation KA := (Api (ConnectionManager (Storage E V))).

(** [match res { Ok(..) => code 0, Err(e) => code -1 with the text of e }]. *)
Definition result_of (m : KM unit) : KA rpc.Result :=
  res ← call (attempt m);
  match res with
  | Ok _ => mret (rpc.mkResult 0 None)
  | Err e => mret (rpc.mkResult (-1) (Some (error_text e)))
  | Panic => fun k => (Crash, k)
  end.

(** ** Applications *)

Definition register_application (name : string) (application : option rpc.ApplicationSpec)
    : KA rpc.Result :=
  spec ← call (lift (ok_or application EInvalidConfig));
  call (lift (validate_application_spec spec)) ≫= fun _ =>
  attr ← call (lift (application_attributes_from spec));
  result_of (Controller.register_application name attr).

Definition unregister_application (name : string) : KA rpc.Result :=
  result_of (Controller.unregister_application name).

Definition update_application (name : string) (application : option rpc.ApplicationSpec)
    : KA rpc.Result :=
  spec ← call (lift (ok_or application EInvalidConfig));
  call (lift (validate_application_spec spec)) ≫= fun _ =>
  attr ← call (lift (application_attributes_from spec));
  result_of (Controller.update_application name attr).

Definition get_application (name : string) : KA rpc.Application :=
  app ← call (storage (Storage.get_application name));
  mret (application_to app).

(** [ApplicationFilter::try_from]. *)
Definition application_filter_try_from (state : option Z) : result ApplicationFilter :=
  st ← transpose application_state_try_from state;
  Ok (mkApplicationFilter st).

(** An error of the conversion is an invalid argument, whatever it is. *)
Definition or_invalid {A} (r : result A) : KA A :=
  match r with Ok a => mret a | Err _ => fail InvalidArgument | Panic => fun k => (Crash, k) end.

Definition list_applications (state : option Z) : KA (list rpc.Application) :=
  filter ← or_invalid (application_filter_try_from state);
  app_list ← call (storage (Storage.list_applications (Some filter)));
  mret (application_to <$> app_list).

(** ** Executors and nodes *)

Definition list_executors : KA (list rpc.Executor) :=
  executor_list ← call (storage (Storage.list_executors None));
  mret (executor_to <$> executor_list).

Definition list_nodes : KA (list rpc.Node) :=
  node_list ← call (storage Storage.list_nodes);
  mret (node_to <$> node_list).

Definition get_node (name : string) : KA rpc.Node :=
  found ← call (storage (Storage.get_node name));
  node ← or_status found NotFound;
  mret (node_to node).

(** ** Sessions *)

(** [SessionAttributes { .. }] of [create_session] and [open_session]. *)
Definition session_attributes (ssn_id : string) (spec : rpc.SessionSpec) : SessionAttributes :=
  let explicit := requirement_from <$> rpc.ssp_resreq spec in
  let resreq := resolve_session_resreq explicit cluster_default_resreq in
  mkSsnAttr ssn_id (rpc.ssp_application spec) (rpc.ssp_common_data spec) (rpc.ssp_tokens spec)
    (rpc.ssp_min_instances spec) (rpc.ssp_max_instances spec)
    (Z.max (rpc.ssp_batch_size spec) 1) (rpc.ssp_priority spec) (Some resreq).

Definition create_session (ssn_id : string) (session : option rpc.SessionSpec) : KA rpc.Session :=
  ssn_spec ← or_status session InvalidArgument;
  ssn ← call (Controller.create_session (session_attributes ssn_id ssn_spec));
  mret (session_to ssn).

Definition delete_session (ssn_id : string) : KA rpc.Session :=
  ssn ← call (Controller.delete_session ssn_id);
  mret (session_to ssn).

Definition open_session (ssn_id : string) (session : option rpc.SessionSpec) : KA rpc.Session :=
  let spec := session_attributes ssn_id <$> session in
  ssn ← call (Controller.open_session ssn_id spec);
  mret (session_to ssn).

Definition suspend_session (ssn_id : string) : KA rpc.Session :=
  ssn ← call (Controller.signal_session ssn_id SigSuspend);
  mret (session_to ssn).

Definition resume_session (ssn_id : string) : KA rpc.Session :=
  ssn ← call (Controller.resume_session ssn_id);
  mret (session_to ssn).

Definition close_session (ssn_id : string) : KA rpc.Session :=
  ssn ← call (Controller.close_session ssn_id);
  mret (session_to ssn).

Definition get_session (ssn_id : string) : KA rpc.Session :=
  ssn ← call (storage (Storage.get_session ssn_id));
  mret (session_to ssn).

(** [SessionFilter::try_from]: an empty list of identifiers is no filter. *)
Definition session_filter_try_from (application : option string) (state : option Z)
    (ids : list string) : result SessionFilter :=
  st ← transpose session_state_try_from state;
  Ok (mkSessionFilter application st
        (then_some (negb (bool_decide (ids = []))) ids) None None).

Definition list_sessions (application : option string) (state : option Z) (ids : list string)
    : KA (list rpc.Session) :=
  filter ← or_invalid (session_filter_try_from application state ids);
  ssn_list ← call (storage (Storage.list_sessions (Some filter)));
  mret (session_to <$> ssn_list).

(** ** Tasks *)

(** [TaskOptions { affinity: .. }] of a request. *)
Definition task_options (affinity : list string) : TaskOptions :=
  mkTaskOptions (list_to_set affinity).

Definition create_task (task : option rpc.TaskSpec) : KA rpc.Task :=
  task_spec ← or_status task InvalidArgument;
  t ← call (Controller.create_task (rpc.tsp_session_id task_spec) (rpc.tsp_input task_spec)
              (Some (task_options (rpc.tsp_affinity task_spec))));
  mret (task_to t).

(** A session identifier is any string; a task identifier a number. *)
Definition get_task (task_id session_id : string) : KA rpc.Task :=
  id ← or_status (parse_i64 task_id) InvalidArgument;
  t ← call (storage (Storage.get_task session_id id));
  mret (task_to t).

(** [Storage::list_tasks]; the tasks in the order of the map's iterator, which
    [order] gives. *)
Definition list_tasks (order : gmap Z Task -> list Task) (session_id : string)
    : KA (list rpc.Task) :=
  ssn ← call (storage (get_session_ptr session_id));
  mret (task_to <$> order (ssn_tasks ssn)).
End frontend.
End Frontend.
