(* ===== verification/Backend.v ===== *)
(** * The backend of the API server ([session_manager/src/apiserver/backend.rs])

    The calls of executor managers, one definition per unary call of the
    service, and the reader of a [watch_node] stream as a function of the
    message it reads.  The forwarder of executor notifications is in [Forward]. *)
From S2P Require Import Connections Nodes.
From S2P Require Import Prelude Types Session Filters Events Engine Storage Controller Codes Rpc Frontend.
Local Open Scope Z_scope.

(** [build_node_from_heartbeat]; a node keeps what a heartbeat does not carry. *)
Definition build_node_from_heartbeat (existing_node : option Node) (node_name : string)
    (status : rpc.NodeStatus) : Node :=
  match existing_node with
  | Some existing =>
      mkNode node_name
        (default (node_capacity existing) (requirement_from <$> rpc.nst_capacity status))
        (default (node_allocatable existing) (requirement_from <$> rpc.nst_allocatable status))
        (default (node_info existing) (platform_from <$> rpc.nst_info status))
        (node_state_from (rpc.nst_state status))
        (node_shims existing)
  | None =>
      mkNode node_name
        (default (mkRR 0 0 0) (requirement_from <$> rpc.nst_capacity status))
        (default (mkRR 0 0 0) (requirement_from <$> rpc.nst_allocatable status))
        (default (mkPlatform "" "") (platform_from <$> rpc.nst_info status))
        (node_state_from (rpc.nst_state status))
        []
  end.

Record NodeHeartbeat := mkHeartbeat { hb_node_name : string; hb_status : option rpc.NodeStatus }.

(** What the reader of a stream does next: read again or end, for the node it
    serves, and whether it started the forwarder of that node's queue. *)
Inductive watch_next :=
  | Continue (node : option string) (forward : bool)
  | Break (node : option string) (forward : bool).

Module Backend.
Section backend.
Context `{Env} `{Chrono} `{Durations} {E V : Type} `{Engine E} `{EventManager V}.
Abbreviation K := (ConnectionManager (Storage E V)).
Abbreviation KM := (M (ConnectionManager (Storage E V))).
Abbreviation KA := (Api (ConnectionManager (Storage E V))).

(** ** Nodes *)

(** [executors.into_iter().map(Executor::from).collect()]; each conversion reads
    the clock twice. *)
Fixpoint executors_from (l : list rpc.Executor) : KM (list Executor) :=
  match l with
  | [] => mret []
  | e :: l =>
      created ← storage now;
      updated ← storage now;
      x ← lift (executor_from e created updated);
      xs ← executors_from l;
      mret (x :: xs)
  end.

Definition register_node (node : option rpc.Node) (executors : list rpc.Executor)
    : KA rpc.Result :=
  n ← call (lift (ok_or node EInvalidConfig));
  reported_executors ← call (executors_from executors);
  call (Controller.register_node (node_from n) reported_executors) ≫= fun _ =>
  mret rpc.default_result.

Definition sync_node (node : option rpc.Node) (executors : list rpc.Executor)
    : KA (rpc.Node * list rpc.Executor) :=
  n ← call (lift (ok_or node EInvalidConfig));
  xs ← call (executors_from executors);
  synced ← call (Controller.sync_node (node_from n) xs);
  mret (node_to (node_from n), executor_to <$> synced).

Definition release_node (name : string) : KA rpc.Result :=
  call (Controller.release_node name) ≫= fun _ => mret rpc.default_result.

(** [handle_heartbeat] up to the acknowledgement: an error is logged. *)
Definition handle_heartbeat (node_name : string) (hb : NodeHeartbeat) : KM unit :=
  match hb_status hb with
  | None => mret tt
  | Some status =>
      existing ← storage (get_node node_name);
      let node := build_node_from_heartbeat existing node_name status in
      attempt (Controller.update_node node) ≫= fun _ => mret tt
  end.

(** [controller.get_node_channel(..)]: whether the node has a connection. *)
Definition get_node_channel (name : string) : KM bool :=
  gets (fun k => bool_decide (is_Some (cm_connections k !! name))).

(** One message of the stream, for the node the stream serves so far; [open]
    tells whether the acknowledgement can be sent. *)
Definition watch_message (node_name : option string) (heartbeat : option NodeHeartbeat)
    (open : bool) : KM watch_next :=
  match heartbeat with
  | None => mret (Continue node_name false)
  | Some hb =>
      match node_name with
      | Some name =>
          handle_heartbeat name hb ≫= fun _ =>
          mret (if open then Continue node_name false else Break node_name false)
      | None =>
          let name := hb_node_name hb in
          found ← get_node_channel name;
          if negb found then mret (Break None false)
          else
            handle_heartbeat name hb ≫= fun _ =>
            mret (if open then Continue (Some name) true else Break (Some name) true)
      end
  end.

(** The end of the reader: the stream was closed, failed, or was silent for
    [HEARTBEAT_TIMEOUT_SECS]. *)
Definition watch_closed (node_name : option string) : KM unit :=
  match node_name with
  | Some name => attempt (drain_node name) ≫= fun _ => mret tt
  | None => mret tt
  end.

(** ** Executors *)

Definition register_executor (executor_id : string) (executor_spec : option rpc.ExecutorSpec)
    : KA rpc.Result :=
  spec ← call (lift (ok_or executor_spec EInvalidConfig));
  now0 ← call (storage now);
  let e := mkExecutor executor_id (rpc.xsp_node spec)
             (requirement_from (default rpc.default_resreq (rpc.xsp_resreq spec)))
             (shim_or_default (rpc.xsp_shim spec)) (rpc.xsp_application spec) None None ∅
             now0 now0 ExecIdle None in
  call (Controller.register_executor e) ≫= fun _ =>
  mret rpc.default_result.

Definition unregister_executor (executor_id : string) : KA rpc.Result :=
  call (Controller.unregister_executor executor_id) ≫= fun _ => mret rpc.default_result.

(** The session for the executor, with its tokens. *)
Definition bound_session (ssn : Session) : rpc.Session :=
  let session := session_to ssn in
  match rpc.s_spec session with
  | Some spec =>
      rpc.mkSession (rpc.s_metadata session)
        (Some (rpc.mkSessionSpec (rpc.ssp_application spec) (rpc.ssp_common_data spec)
           (rpc.ssp_min_instances spec) (rpc.ssp_max_instances spec) (rpc.ssp_batch_size spec)
           (rpc.ssp_priority spec) (rpc.ssp_resreq spec) (ssn_tokens ssn)))
        (rpc.s_status session)
  | None => session
  end.

(** The answer once [wait_for_session] returns; a call that waits is repeated
    when the executor changes. *)
Definition bind_executor (executor_id : string)
    : KA (poll (option rpc.Application * option rpc.Session)) :=
  found ← call (wait_for_session executor_id);
  match found with
  | Waiting => mret Waiting
  | Ready None => mret (Ready (None, None))
  | Ready (Some ssn) =>
      app ← call (storage (Storage.get_application (ssn_application ssn)));
      mret (Ready (Some (application_to app), Some (bound_session ssn)))
  end.

Definition bind_executor_completed (executor_id : string) (r : option rpc.Result)
    (attributes : option ExecutorAttributes) : KA rpc.Result :=
  call (Controller.bind_executor_completed executor_id (result_from <$> r) attributes) ≫= fun _ =>
  mret rpc.default_result.

Definition unbind_executor (executor_id : string) : KA rpc.Result :=
  call (Controller.unbind_executor executor_id) ≫= fun _ => mret rpc.default_result.

Definition unbind_executor_completed (executor_id : string) : KA rpc.Result :=
  call (Controller.unbind_executor_completed executor_id) ≫= fun _ => mret rpc.default_result.

(** ** Tasks *)

Definition launch_task (executor_id : string) : KA (poll (option rpc.Task)) :=
  found ← call (Controller.launch_task executor_id);
  mret (match found with Ready t => Ready (task_to <$> t) | Waiting => Waiting end).

Definition complete_task (executor_id : string) (task_result : option rpc.TaskResult)
    (attributes : option ExecutorAttributes) : KA rpc.Result :=
  r ← call (lift (ok_or task_result EInvalidState));
  call (Controller.complete_task executor_id (task_result_from r) attributes) ≫= fun _ =>
  mret rpc.default_result.
End backend.
End Backend.
