(* ===== verification/Server.v ===== *)
(** * The API server: its calls refine the life cycle of executors

    The calls of the frontend and the backend as one type of requests, served
    one after another on the controller.  Whatever clients and executor
    managers send, a request keeps the invariant of the controller and moves
    the executors only along the life cycle of [Lifecycle], and only those the
    request names. *)
From S2P Require Import Connections.
From S2P Require Import Prelude Types Session Filters Events Engine Storage Controller Codes Rpc Frontend Backend.
From S2P Require Import StorageInv Frames Lifecycle.
Local Open Scope Z_scope.

(** ** Requests *)

Inductive request :=
  (* the frontend *)
  | FRegisterApplication (name : string) (application : option rpc.ApplicationSpec)
  | FUnregisterApplication (name : string)
  | FUpdateApplication (name : string) (application : option rpc.ApplicationSpec)
  | FGetApplication (name : string)
  | FListApplications (state : option Z)
  | FListExecutors
  | FListNodes
  | FGetNode (name : string)
  | FCreateSession (session_id : string) (session : option rpc.SessionSpec)
  | FDeleteSession (session_id : string)
  | FOpenSession (session_id : string) (session : option rpc.SessionSpec)
  | FCloseSession (session_id : string)
  | FSuspendSession (session_id : string)
  | FResumeSession (session_id : string)
  | FGetSession (session_id : string)
  | FListSessions (application : option string) (state : option Z) (ids : list string)
  | FCreateTask (task : option rpc.TaskSpec)
  | FGetTask (task_id session_id : string)
  (* the backend *)
  | BRegisterNode (node : option rpc.Node) (executors : list rpc.Executor)
  | BSyncNode (node : option rpc.Node) (executors : list rpc.Executor)
  | BReleaseNode (name : string)
  | BWatchMessage (node : option string) (heartbeat : option NodeHeartbeat) (open : bool)
  | BWatchClosed (node : option string)
  | BRegisterExecutor (executor_id : string) (spec : option rpc.ExecutorSpec)
  | BUnregisterExecutor (executor_id : string)
  | BBindExecutor (executor_id : string)
  | BBindCompleted (executor_id : string) (r : option rpc.Result)
      (attributes : option ExecutorAttributes)
  | BUnbindExecutor (executor_id : string)
  | BUnbindCompleted (executor_id : string)
  | BLaunchTask (executor_id : string)
  | BCompleteTask (executor_id : string) (r : option rpc.TaskResult)
      (attributes : option ExecutorAttributes).

Inductive response :=
  | RResult (r : rpc.Result)
  | RApplications (l : list rpc.Application)
  | RExecutors (l : list rpc.Executor)
  | RNodes (l : list rpc.Node)
  | RSessions (l : list rpc.Session)
  | RTask (t : rpc.Task)
  | RSync (n : rpc.Node) (l : list rpc.Executor)
  | RBind (p : poll (option rpc.Application * option rpc.Session))
  | RLaunch (p : poll (option rpc.Task))
  | RWatch (n : watch_next)
  | RNone.

Section serve.
Context `{Env} `{Chrono} `{Durations} `{Schemas} {E V : Type} `{Engine E} `{EventManager V}.
Variable cluster_default_resreq : option ResourceRequirement.
Abbreviation K := (ConnectionManager (Storage E V)).
Abbreviation KA := (Api (ConnectionManager (Storage E V))).

Definition returns {A} (f : A -> response) (m : KA A) : KA response :=
  a ← m; mret (f a).

Definition serve (r : request) : KA response :=
  match r with
  | FRegisterApplication n s => returns RResult (Frontend.register_application n s)
  | FUnregisterApplication n => returns RResult (Frontend.unregister_application n)
  | FUpdateApplication n s => returns RResult (Frontend.update_application n s)
  | FGetApplication n => returns (fun a => RApplications [a]) (Frontend.get_application n)
  | FListApplications st => returns RApplications (Frontend.list_applications st)
  | FListExecutors => returns RExecutors Frontend.list_executors
  | FListNodes => returns RNodes Frontend.list_nodes
  | FGetNode n => returns (fun x => RNodes [x]) (Frontend.get_node n)
  | FCreateSession id s =>
      returns (fun x => RSessions [x]) (Frontend.create_session cluster_default_resreq id s)
  | FDeleteSession id => returns (fun x => RSessions [x]) (Frontend.delete_session id)
  | FOpenSession id s =>
      returns (fun x => RSessions [x]) (Frontend.open_session cluster_default_resreq id s)
  | FCloseSession id => returns (fun x => RSessions [x]) (Frontend.close_session id)
  | FSuspendSession id => returns (fun x => RSessions [x]) (Frontend.suspend_session id)
  | FResumeSession id => returns (fun x => RSessions [x]) (Frontend.resume_session id)
  | FGetSession id => returns (fun x => RSessions [x]) (Frontend.get_session id)
  | FListSessions a st ids => returns RSessions (Frontend.list_sessions a st ids)
  | FCreateTask t => returns RTask (Frontend.create_task t)
  | FGetTask t s => returns RTask (Frontend.get_task t s)
  | BRegisterNode n xs => returns RResult (Backend.register_node n xs)
  | BSyncNode n xs => returns (fun p => RSync p.1 p.2) (Backend.sync_node n xs)
  | BReleaseNode n => returns RResult (Backend.release_node n)
  | BWatchMessage n hb o => returns RWatch (call (Backend.watch_message n hb o))
  | BWatchClosed n => returns (fun _ => RNone) (call (Backend.watch_closed n))
  | BRegisterExecutor id s => returns RResult (Backend.register_executor id s)
  | BUnregisterExecutor id => returns RResult (Backend.unregister_executor id)
  | BBindExecutor id => returns RBind (Backend.bind_executor id)
  | BBindCompleted id r a => returns RResult (Backend.bind_executor_completed id r a)
  | BUnbindExecutor id => returns RResult (Backend.unbind_executor id)
  | BUnbindCompleted id => returns RResult (Backend.unbind_executor_completed id)
  | BLaunchTask id => returns RLaunch (Backend.launch_task id)
  | BCompleteTask id r a => returns RResult (Backend.complete_task id r a)
  end.

(** What can happen to the controller: a request is served, or one of the
    operations that no request makes runs (the scheduler's, a drain timer, the
    rest of a [launch_task] that waited). *)
Inductive server_event := Served (r : request) | Internal_op (op : ctl_op).

Definition server_step (ev : server_event) (k : K) : K :=
  match ev with
  | Served r => (serve r k).2
  | Internal_op op => ctl_apply op k
  end.

Definition server_run (evs : list server_event) (k : K) : K := foldl (fun k ev => server_step ev k) k evs.
End serve.

(** The operations of the controller a request stands for, as far as they
    concern executors. *)
Inductive request_op : request -> ctl_op -> Prop :=
  | ro_register_node n xs node reported :
      (ex_id <$> reported) = omap (fun x => rpc.md_id <$> rpc.x_metadata x) xs ->
      request_op (BRegisterNode (Some n) xs) (CRegisterNode node reported)
  | ro_register_executor id s e : ex_id e = id ->
      request_op (BRegisterExecutor id s) (CRegisterExecutor e)
  | ro_unregister id : request_op (BUnregisterExecutor id) (CUnregisterExecutor id)
  | ro_bound id r a :
      request_op (BBindCompleted id r a) (CBindCompleted id (result_from <$> r) a)
  | ro_unbind id : request_op (BUnbindExecutor id) (CUnbindExecutor id)
  | ro_unbound id : request_op (BUnbindCompleted id) (CUnbindCompleted id)
  | ro_launch id : request_op (BLaunchTask id) (CLaunchTask id)
  | ro_complete id r a :
      request_op (BCompleteTask id (Some r) a) (CCompleteTask id (task_result_from r) a).

(** ** Handlers and what they keep *)

Section handlers.
Context {S : Type}.

(** From [P] a handler ends in [Q], whatever it replies. *)
Definition leads {A} (P Q : S -> Prop) (m : Api S A) : Prop := forall s, P s -> Q (m s).2.

Lemma leads_ret {A} (P : S -> Prop) (a : A) : leads P P (mret a).
Proof. by intros s. Qed.
Lemma leads_fail {A} (P : S -> Prop) c : leads P P (fail c : Api S A).
Proof. by intros s. Qed.
Lemma leads_or_status {A} (P : S -> Prop) (o : option A) c : leads P P (or_status o c).
Proof. by destruct o; intros s. Qed.

Lemma leads_call {A} (P Q : S -> Prop) (m : M S A) :
  (forall s, P s -> Q (m s).2) -> leads P Q (call m).
Proof. intros Hm s Hs. specialize (Hm s Hs). unfold call. by destruct (m s) as [[]]. Qed.

Lemma leads_keeps {A} (P : S -> Prop) (m : M S A) : keeps P m -> leads P P (call m).
Proof. apply leads_call. Qed.

(** A first step that keeps [P], of which [Q] is a consequence. *)
Lemma leads_before {A B} (P Q : S -> Prop) (m : Api S A) (f : A -> Api S B) :
  (forall s, P s -> Q s) -> leads P P m -> (forall a, leads P Q (f a)) -> leads P Q (m ≫= f).
Proof.
  intros HPQ Hm Hf s Hs. unfold mbind, Api_bind. specialize (Hm s Hs).
  destruct (m s) as [[a|c|] s']; [by apply Hf|by apply HPQ..].
Qed.

(** Steps after [Q] was reached, which keep it. *)
Lemma leads_after {A B} (P Q : S -> Prop) (m : Api S A) (f : A -> Api S B) :
  leads P Q m -> (forall a, leads Q Q (f a)) -> leads P Q (m ≫= f).
Proof.
  intros Hm Hf s Hs. unfold mbind, Api_bind. specialize (Hm s Hs).
  destruct (m s) as [[a|c|] s']; [by apply Hf|done..].
Qed.

(** A first call whose result is known to satisfy [R]. *)
Lemma leads_spec {A B} (P Q : S -> Prop) (R : A -> Prop) (m : M S A) (f : A -> Api S B) :
  (forall s, P s -> Q s) -> keeps P m -> (forall s a s', m s = (Ok a, s') -> R a) ->
  (forall a, R a -> leads P Q (f a)) -> leads P Q (call m ≫= f).
Proof.
  intros HPQ Hm HR Hf s Hs. unfold mbind, Api_bind, call. specialize (Hm s Hs). specialize (HR s).
  destruct (m s) as [[a|c|] s']; [by apply Hf; eauto|by apply HPQ..].
Qed.
End handlers.

Section refinement.
Context `{Env} `{Chrono} `{Durations} `{Schemas} {E V : Type} `{EngineSpec E} `{EventManager V}.
Context `{!Inj (=) (=) new_uuid}.
Variable cluster_default_resreq : option ResourceRequirement.
Abbreviation K := (ConnectionManager (Storage E V)).
Abbreviation serve := (serve (E := E) (V := V) cluster_default_resreq).
Implicit Types (k : K) (s : Storage E V).

Definition view_st s (id : string) : option view := view_of <$> st_executors s !! id.

(** The storage before the request [r] touched an executor of [k0], and after. *)
Definition same k0 s : Prop := good s /\ drawn s /\ forall id, view_st s id = view_in k0 id.

Definition moved (r : request) k0 s : Prop :=
  good s /\ drawn s /\ forall id,
    view_st s id = view_in k0 id \/
    exists op, request_op r op /\ lstep op id (view_in k0 id) (view_st s id).

#[local] Instance same_cache k0 : CacheProp (same k0).
Proof. by split; intros s n (Hg & Hd & Hv); (split_and!; [by apply good_cache|..]). Qed.
#[local] Instance moved_cache r k0 : CacheProp (moved r k0).
Proof. by split; intros s n (Hg & Hd & Hv); (split_and!; [by apply good_cache|..]). Qed.

Lemma same_moved r k0 s : same k0 s -> moved r k0 s.
Proof. intros (? & ? & ?). split_and!; try done. by left. Qed.

Lemma leads_same_moved {A} r k0 (m : Api K A) :
  leads (onst (same k0)) (onst (same k0)) m -> leads (onst (same k0)) (onst (moved r k0)) m.
Proof. intros Hm k Hk. by apply same_moved, Hm. Qed.

(** The operation of the request. *)
Lemma op_moved {A} r op k0 (m : M K A) :
  request_op r op -> (forall k, (m k).2 = ctl_apply op k) ->
  leads (onst (same k0)) (onst (moved r k0)) (call m).
Proof.
  intros Hop Hm. apply leads_call. intros k (Hg & Hd & Hv). rewrite Hm.
  assert (ctl_wf k) as Hk by done. destruct (ctl_apply_wf op k Hk) as [Hg' Hd'].
  split_and!; [done..|]. intros id. rewrite <- Hv.
  destruct (ctl_apply_view op k id Hk) as [Heq|Hl]; [by left|right; by exists op].
Qed.

(** An operation that moves no executor. *)
Lemma op_same {A} op k0 (m : M K A) :
  (forall id v v', ~ lstep op id v v') -> (forall k, (m k).2 = ctl_apply op k) ->
  leads (onst (same k0)) (onst (same k0)) (call m).
Proof.
  intros Hop Hm. apply leads_call. intros k (Hg & Hd & Hv). rewrite Hm.
  assert (ctl_wf k) as Hk by done. destruct (ctl_apply_wf op k Hk) as [Hg' Hd'].
  split_and!; [done..|]. intros id. rewrite <- Hv.
  by destruct (ctl_apply_view op k id Hk) as [Heq|?%Hop].
Qed.

(** A read of the storage. *)
Lemma read_leads {A} (P : Storage E V -> Prop) (m : M (Storage E V) A) :
  keeps P m -> leads (onst P) (onst P) (call (storage m)).
Proof. intros Hm. apply leads_call. by apply keeps_storage. Qed.

Lemma lift_leads {A} (P : K -> Prop) (r : result A) : leads P P (call (lift r)).
Proof. by apply leads_call. Qed.

Lemma result_of_leads (P : K -> Prop) (m : M K unit) :
  leads P P (call m) -> leads P P (Frontend.result_of m).
Proof.
  intros Hm k Hk. specialize (Hm k Hk). unfold Frontend.result_of, mbind, Api_bind, call, attempt in *.
  by destruct (m k) as [[]].
Qed.

Lemma executors_from_keeps (P : Storage E V -> Prop) `{!CacheProp P} xs :
  keeps (onst P) (Backend.executors_from xs).
Proof.
  induction xs as [|x xs IH]; simpl; [by eauto with flame|].
  keeps_step; [apply keeps_storage, keeps_now; apply _|].
  keeps_step; [apply keeps_storage, keeps_now; apply _|].
  keeps_step; [by eauto with flame|]. keeps_step; [done|by eauto with flame].
Qed.

Lemma executor_from_id x created updated e :
  executor_from x created updated = Ok e -> rpc.md_id <$> rpc.x_metadata x = Some (ex_id e).
Proof.
  unfold executor_from, mbind, result_bind, unwrap.
  destruct (rpc.x_spec x) as [sp|]; [|done]. destruct (rpc.x_status x) as [st|]; [|done].
  destruct (rpc.x_metadata x) as [md|]; [|done]. destruct (executor_state_unwrap _); [|done..].
  destruct (rpc.xsp_resreq sp); [|done]. by intros [= <-].
Qed.

Lemma executors_from_ids xs (k k' : K) l :
  Backend.executors_from xs k = (Ok l, k') ->
  ex_id <$> l = omap (fun x => rpc.md_id <$> rpc.x_metadata x) xs.
Proof.
  revert k l. induction xs as [|x xs IH]; simpl; intros k l Hr; [by injection Hr as <- <-|].
  repeat inv_bind Hr. injection Hr as <- <-.
  match goal with Hx : lift _ _ = _ |- _ => injection Hx as Hx%executor_from_id _; rewrite Hx end.
  simpl. f_equal. by eapply IH.
Qed.

Lemma handle_heartbeat_leads k0 name hb :
  keeps (onst (same k0)) (Backend.handle_heartbeat name hb).
Proof.
  unfold Backend.handle_heartbeat. destruct (hb_status hb) as [status|]; [|by eauto with flame].
  keeps_step; [apply keeps_storage, keeps_gets|]. keeps_step; [|by eauto with flame].
  apply keeps_attempt. intros k Hk.
  pose proof (op_same (CUpdateNode (build_node_from_heartbeat a name status)) k0
    (Controller.update_node (build_node_from_heartbeat a name status))) as Hop.
  unfold leads, call in Hop. specialize (Hop ltac:(intros ??? Hl; inversion Hl) ltac:(done) k Hk).
  by destruct (Controller.update_node _ k) as [[]].
Qed.

(** The reads of the storage. *)
Lemma keeps_list_sessions (P : Storage E V -> Prop) f : keeps P (list_sessions f).
Proof.
  unfold list_sessions. case_bool_decide; [apply keeps_ret|]. keeps_step; [apply keeps_gets|].
  clear. generalize (@nil Session). induction a as [|x l IH]; intros acc; simpl; [apply keeps_ret|].
  keeps_tac; eauto with flame.
Qed.

Lemma keeps_get_task (P : Storage E V -> Prop) ssn id : keeps P (get_task ssn id).
Proof.
  unfold get_task, get_task_metadata. keeps_step.
  { keeps_step; [apply keeps_get_task_ptr|apply keeps_ret]. }
  keeps_step; [apply keeps_load_events|apply keeps_ret].
Qed.

Lemma returns_leads {A} (P Q : K -> Prop) (f : A -> response) (m : Api K A) :
  leads P Q m -> leads P Q (returns f m).
Proof. intros Hm. apply leads_after; [done|]. intros. apply leads_ret. Qed.

(** Requests that move no executor. *)
Ltac quiet_op op := apply (op_same op); [by intros ??? Hl; inversion Hl|done].

Lemma frontend_session_same k0 r :
  match r with
  | FCreateSession _ _ | FDeleteSession _ | FOpenSession _ _ | FCloseSession _ | FSuspendSession _
  | FResumeSession _ | FGetSession _ | FListSessions _ _ _ | FCreateTask _ | FGetTask _ _ =>
      leads (onst (same k0)) (onst (same k0)) (serve r)
  | _ => True
  end.
Proof.
  destruct r; try done; simpl; apply returns_leads.
  - apply leads_before; [done|apply leads_or_status|]. intros sp.
    apply leads_after; [|intros; apply leads_ret].
    quiet_op (CCreateSession (Frontend.session_attributes cluster_default_resreq session_id sp)).
  - apply leads_after; [quiet_op (CDeleteSession session_id)|intros; apply leads_ret].
  - apply leads_after; [|intros; apply leads_ret].
    quiet_op (COpenSession session_id
      (Frontend.session_attributes cluster_default_resreq session_id <$> session)).
  - apply leads_after; [quiet_op (CCloseSession session_id)|intros; apply leads_ret].
  - apply leads_after; [quiet_op (CSignalSession session_id SigSuspend)|intros; apply leads_ret].
  - apply leads_after; [quiet_op (CResumeSession session_id)|intros; apply leads_ret].
  - apply leads_after; [|intros; apply leads_ret].
    apply read_leads, keeps_get_session; apply _.
  - apply leads_before; [done| |].
    { unfold Frontend.or_invalid. by destruct (Frontend.session_filter_try_from _ _ _); intros k. }
    intros f. apply leads_after; [|intros; apply leads_ret].
    apply read_leads, keeps_list_sessions.
  - apply leads_before; [done|apply leads_or_status|]. intros sp.
    apply leads_after; [|intros; apply leads_ret].
    quiet_op (CCreateTask (rpc.tsp_session_id sp) (rpc.tsp_input sp)
      (Some (Frontend.task_options (rpc.tsp_affinity sp)))).
  - apply leads_before; [done|apply leads_or_status|]. intros id.
    apply leads_after; [|intros; apply leads_ret]. apply read_leads, keeps_get_task.
Qed.

Lemma frontend_other_same k0 r :
  match r with
  | FRegisterApplication _ _ | FUnregisterApplication _ | FUpdateApplication _ _
  | FGetApplication _ | FListApplications _ | FListExecutors | FListNodes | FGetNode _ =>
      leads (onst (same k0)) (onst (same k0)) (serve r)
  | _ => True
  end.
Proof.
  destruct r; try done; simpl; apply returns_leads.
  - apply leads_before; [done|apply lift_leads|]. intros sp.
    apply leads_before; [done|apply lift_leads|]. intros _.
    apply leads_before; [done|apply lift_leads|]. intros attr. apply result_of_leads.
    quiet_op (CRegisterApplication name attr).
  - apply result_of_leads. quiet_op (CUnregisterApplication name).
  - apply leads_before; [done|apply lift_leads|]. intros sp.
    apply leads_before; [done|apply lift_leads|]. intros _.
    apply leads_before; [done|apply lift_leads|]. intros attr. apply result_of_leads.
    quiet_op (CUpdateApplication name attr).
  - apply leads_after; [|intros; apply leads_ret]. apply read_leads, keeps_engine; apply _.
  - apply leads_before; [done| |].
    { unfold Frontend.or_invalid. by destruct (Frontend.application_filter_try_from _); intros k. }
    intros f. apply leads_after; [|intros; apply leads_ret]. apply read_leads, keeps_engine; apply _.
  - apply leads_after; [|intros; apply leads_ret]. apply read_leads, keeps_gets.
  - apply leads_after; [|intros; apply leads_ret]. apply read_leads, keeps_gets.
  - apply leads_before; [done|apply read_leads, keeps_gets|]. intros o.
    apply leads_after; [apply leads_or_status|intros; apply leads_ret].
Qed.

Lemma backend_node_moved k0 r :
  match r with
  | BRegisterNode _ _ | BSyncNode _ _ | BReleaseNode _ | BWatchMessage _ _ _ | BWatchClosed _ =>
      leads (onst (same k0)) (onst (moved r k0)) (serve r)
  | _ => True
  end.
Proof.
  destruct r; try done; simpl; apply returns_leads.
  - destruct node as [n|]; [|intros k Hk; by apply same_moved].
    apply leads_before; [intros ?; apply same_moved|apply lift_leads|]. intros n'.
    eapply leads_spec; [intros ?; apply same_moved|apply executors_from_keeps; apply _
      |intros ???; apply executors_from_ids|]. intros l Hl.
    apply leads_after; [|intros; apply leads_ret].
    apply (op_moved _ (CRegisterNode (node_from n') l)); [by constructor|done].
  - apply leads_before; [intros ?; apply same_moved|apply lift_leads|]. intros n.
    apply leads_before; [intros ?; apply same_moved|apply leads_call, executors_from_keeps; apply _|].
    intros xs. apply leads_same_moved.
    apply leads_after; [quiet_op (CSyncNode (node_from n) xs)|intros; apply leads_ret].
  - apply leads_same_moved.
    apply leads_after; [quiet_op (CReleaseNode name)|intros; apply leads_ret].
  - apply leads_same_moved, leads_keeps. unfold Backend.watch_message.
    destruct heartbeat as [hb|]; [|apply keeps_ret].
    destruct node as [name|]; [keeps_step; [apply handle_heartbeat_leads|apply keeps_ret]|].
    keeps_step; [apply keeps_gets|]. destruct (negb a); [apply keeps_ret|].
    keeps_step; [apply handle_heartbeat_leads|apply keeps_ret].
  - apply leads_same_moved. unfold Backend.watch_closed.
    destruct node as [name|]; [|by apply lift_leads].
    apply leads_keeps, keeps_bind; [|intros; apply keeps_ret]. apply keeps_attempt. intros k Hk.
    pose proof (op_same (CDrainNode name) k0 (drain_node name)) as Hop.
    unfold leads, call in Hop. specialize (Hop ltac:(intros ??? Hl; inversion Hl) ltac:(done) k Hk).
    by destruct (drain_node name k) as [[]].
Qed.

Lemma backend_executor_moved k0 r :
  match r with
  | BRegisterExecutor _ _ | BUnregisterExecutor _ | BBindExecutor _ | BBindCompleted _ _ _
  | BUnbindExecutor _ | BUnbindCompleted _ | BLaunchTask _ | BCompleteTask _ _ _ =>
      leads (onst (same k0)) (onst (moved r k0)) (serve r)
  | _ => True
  end.
Proof.
  destruct r; try done; simpl; apply returns_leads.
  - apply leads_before; [intros ?; apply same_moved|apply lift_leads|]. intros sp.
    apply leads_before; [intros ?; apply same_moved|apply read_leads, keeps_now; apply _|]. intros t.
    apply leads_after; [|intros; apply leads_ret].
    lazymatch goal with |- leads _ _ (call (Controller.register_executor ?e)) =>
      apply (op_moved _ (CRegisterExecutor e)); [by constructor|done] end.
  - apply leads_after; [|intros; apply leads_ret]. eapply op_moved; [apply ro_unregister|done].
  - apply leads_same_moved. apply leads_before; [done| |].
    { apply leads_keeps. unfold wait_for_session. keeps_tac; by eauto with flame. }
    intros [[ssn|]|]; [|apply leads_ret..].
    apply leads_after; [|intros; apply leads_ret]. apply read_leads, keeps_engine; apply _.
  - apply leads_after; [|intros; apply leads_ret]. eapply op_moved; [apply ro_bound|done].
  - apply leads_after; [|intros; apply leads_ret]. eapply op_moved; [apply ro_unbind|done].
  - apply leads_after; [|intros; apply leads_ret]. eapply op_moved; [apply ro_unbound|done].
  - apply leads_after; [|intros; apply leads_ret]. eapply op_moved; [apply ro_launch|done].
  - destruct r as [r|]; [|intros k Hk; by apply same_moved].
    apply (leads_spec _ _ (eq r)); [intros ?; apply same_moved|apply keeps_lift|by intros ??? [= ->]|].
    intros r' <-. apply leads_after; [|intros; apply leads_ret]. eapply op_moved; [apply ro_complete|done].
Qed.

Lemma serve_moved r k : ctl_wf k -> moved r k (cm_callbacks (serve r k).2).
Proof.
  intros [Hg Hd]. assert (onst (same k) k) as Hk by (split_and!; done).
  pose proof (frontend_session_same k r) as H1'. pose proof (frontend_other_same k r) as H2'.
  pose proof (backend_node_moved k r) as H3'. pose proof (backend_executor_moved k r) as H4'.
  destruct r; (by apply H3') || (by apply H4') || (by apply same_moved, H1') || by apply same_moved, H2'.
Qed.

Lemma serve_wf r k : ctl_wf k -> ctl_wf (serve r k).2.
Proof. intros Hk. by destruct (serve_moved r k Hk) as (? & ? & _). Qed.

Lemma serve_ok r k : ctl_wf k -> execs_ok k -> execs_ok (serve r k).2.
Proof.
  intros Hk Hok id v Hv. destruct (serve_moved r k Hk) as (_ & _ & Hm).
  destruct (Hm id) as [Heq|(op & _ & Hl)].
  - apply (Hok id). rewrite <- Heq. exact Hv.
  - change (view_st (cm_callbacks (serve r k).2) id = Some v) in Hv. rewrite Hv in Hl.
    eapply lstep_view_ok; [|done]. intros v0 Hv0. by apply (Hok id).
Qed.

(** C7 [refinement] The API server implements the life cycle of executors:
    whatever request a client or an executor manager sends, and whatever the
    server answers, the invariant of the controller holds afterwards, and every
    executor keeps its state, session and task or takes a transition the life
    cycle allows for the operation the request stands for.  No request of the
    frontend moves an executor, and a request of the backend about one executor
    moves no other. *)
Theorem server_lifecycle r k :
  ctl_wf k ->
  ctl_wf (serve r k).2 /\
  forall id, view_in (serve r k).2 id = view_in k id \/
    exists op, request_op r op /\ lstep op id (view_in k id) (view_in (serve r k).2 id).
Proof.
  intros Hk. split; [by apply serve_wf|]. by destruct (serve_moved r k Hk) as (_ & _ & Hm).
Qed.

(** C8 [invariant] Whatever requests, scheduler calls, drain timers and calls
    that waited are served, in whatever order, each as one step from where it
    starts or resumes, the storage stays well formed and the fields of every
    executor agree with its state.  A handler that is overtaken while it waits
    for the engine is outside this: [Lifecycle.unbind_during_launch] is an
    unbind that overtakes a launch. *)
Theorem server_invariant evs k :
  ctl_wf k -> execs_ok k ->
  let k' := server_run (E := E) (V := V) cluster_default_resreq evs k in ctl_wf k' /\ execs_ok k'.
Proof.
  revert k. induction evs as [|[r|op] evs IH]; intros k Hk Hok; [done|..]; apply IH.
  - by apply serve_wf.
  - by apply serve_ok.
  - by apply ctl_apply_wf.
  - by apply ctl_apply_ok.
Qed.
End refinement.

(** ** What an executor manager learns when its executor is bound *)

Section answers.
Context `{Env} `{Chrono} `{DurationsSpec} `{Schemas} {E V : Type} `{Engine E} `{EventManager V}.
Abbreviation K := (ConnectionManager (Storage E V)).
Implicit Types k : K.

Lemma bound_session_context app x :
  session_context_try_from (application_to app) (Backend.bound_session x) =
  Ok (mkSsnContext (ssn_id x) (application_context app) (ssn_common_data x) (ssn_tokens x)
        (ssn_batch_size x)).
Proof.
  unfold session_context_try_from. rewrite application_context_roundtrip. done.
Qed.

(** [roundtrip] The context an executor manager decodes from the answer to
    [bind_executor] is that of the session its executor is bound to: the
    session's identifier, common data, batch size and tokens, which no answer of
    the frontend carries, and the application as it is stored. *)
Theorem bind_executor_context id k e ssn x app :
  st_executors (cm_callbacks k) !! id = Some e ->
  ex_state e <> ExecReleasing -> ex_state e <> ExecReleased -> ex_ssn_id e = Some ssn ->
  st_sessions (cm_callbacks k) !! ssn = Some x -> is_open x = true ->
  (Storage.get_application (ssn_application x) (cm_callbacks k)).1 = Ok app ->
  exists a s k', Backend.bind_executor id k = (Reply (Ready (Some a, Some s)), k') /\
    session_context_try_from a s =
      Ok (mkSsnContext (ssn_id x) (application_context app) (ssn_common_data x) (ssn_tokens x)
            (ssn_batch_size x)).
Proof.
  intros He Hr1 Hr2 Hs Hx Ho Happ.
  assert (wait_for_session id k = (Ok (Ready (Some x)), k)) as Hw.
  { destruct k as [cs ts tok st]. unfold wait_for_session, mbind, M_bind, storage, zoom, get_executor_ptr, gets.
    simpl in *. unfold mbind, M_bind. rewrite He. simpl.
    destruct (ex_state e); try done; rewrite Hs; unfold gets; simpl; rewrite Hx; simpl; by rewrite Ho. }
  unfold Backend.bind_executor, mbind, Api_bind, call. rewrite Hw. unfold storage, zoom.
  destruct (Storage.get_application (ssn_application x) (cm_callbacks k)) as [r st']. simpl in Happ.
  subst r. simpl. eexists _, _, _. split; [done|]. apply bound_session_context.
Qed.
End answers.
