(* ===== verification/Requests.v ===== *)
(** * What the API server answers

    The outcomes of requests to create sessions and to register applications,
    runs of the server, and the examples for the theorems of [Server]. *)
From S2P Require Import Connections.
From S2P Require Import Prelude Types Session Filters Snapshot Events Engine Storage Controller Codes Rpc Frontend Backend.
From S2P Require Import StorageInv Frames Lifecycle Server.
Local Open Scope Z_scope.

(** ** Creating a session *)

Section sessions.
Context `{Env} `{Chrono} `{Durations} `{Schemas} {E V : Type} `{EngineSpec E} `{EventManager V}.
Abbreviation K := (ConnectionManager (Storage E V)).
Implicit Types k : K.

Lemma create_session_stored attr (s s' : Storage E V) x :
  Storage.create_session attr s = (Ok x, s') ->
  session_made attr x /\ st_sessions s' !! sa_id attr = Some x.
Proof.
  intros Hr.
  assert (wp (Storage.create_session attr)
    (fun r s' => forall x, r = Ok x -> session_made attr x /\ st_sessions s' !! sa_id attr = Some x) s) as Hw.
  { unfold Storage.create_session. apply wp_bind, wp_now, wp_bind, wp_engine. intros [y|e|] e' Hc; [|done..].
    apply create_session_made in Hc as Hy. apply wp_bind, wp_event_result; [by eauto with flame|].
    intros [u|e|] s1 _ _; [|done..]. apply wp_bind, wp_modify, wp_bind, wp_evict_sessions.
    intros m Hm. apply wp_ret. intros z [= <-]. split; [done|].
    rewrite <- (made_id _ _ Hy). apply (ev_open _ _ Hm); [by apply lookup_insert_eq|].
    unfold is_closed. by rewrite (made_state _ _ Hy). }
  unfold wp in Hw. rewrite Hr in Hw. by apply Hw.
Qed.

(** The operation behind a call that replied. *)
Lemma call_reply {S A B} (m : M S A) (f : A -> B) (s s' : S) b :
  (a ← call m; mret (f a)) s = (Reply b, s') -> exists a, m s = (Ok a, s') /\ b = f a.
Proof.
  unfold mbind, Api_bind, call. destruct (m s) as [[a|e|] s1]; [|done..]. intros [= <- <-]. by exists a.
Qed.

(** [functional] A session the frontend creates is stored under the
    requested identifier with a resource requirement, the one of the request or
    else the default of the cluster, and a batch of at least one; it keeps the
    tokens of the request, which the answer does not carry. *)
Theorem create_session_resolved cluster_default id spec k m k' :
  Frontend.create_session cluster_default id (Some spec) k = (Reply m, k') ->
  exists x, st_sessions (cm_callbacks k') !! id = Some x /\ m = session_to x /\
    ssn_resreq x = Some (resolve_session_resreq (requirement_from <$> rpc.ssp_resreq spec) cluster_default) /\
    1 <= ssn_batch_size x /\ ssn_tokens x = rpc.ssp_tokens spec /\
    (rpc.ssp_tokens <$> rpc.s_spec m) = Some ∅.
Proof.
  intros Hr. apply (call_reply (Controller.create_session _)) in Hr as (x & Hc & ->).
  unfold Controller.create_session in Hc. do 2 inv_bind Hc. unfold storage, zoom in Hc.
  destruct (Storage.create_session _ _) as [r st'] eqn:Hs. injection Hc as -> <-.
  apply create_session_stored in Hs as [Hm Hx]. exists x. split_and!; try done.
  - by rewrite (made_resreq _ _ Hm).
  - rewrite (made_batch_size _ _ Hm). simpl. lia.
  - by rewrite (made_tokens _ _ Hm).
Qed.
End sessions.

(** ** Registering an application *)

Section applications.
Context `{Env} `{Chrono} `{DurationsSpec} `{Schemas} {E V : Type} `{Engine E} `{EventManager V}.
Abbreviation K := (ConnectionManager (Storage E V)).
Implicit Types k : K.

Lemma validate_schema_result o : validate_schema o = Ok tt \/ validate_schema o = Err EInvalidConfig.
Proof.
  destruct o as [t|]; simpl; [|by left]. destruct (json_from_str t) as [v|]; simpl; [|by right].
  unfold mbind, result_bind, ensure. destruct (meta_validate v); auto.
Qed.

Lemma validate_spec_result spec :
  validate_application_spec spec = Ok tt \/ validate_application_spec spec = Err EInvalidConfig.
Proof.
  assert (validate_working_directory (rpc.asp_working_directory spec) = Ok tt \/
          validate_working_directory (rpc.asp_working_directory spec) = Err EInvalidConfig) as Hw.
  { unfold validate_working_directory. destruct (rpc.asp_working_directory spec); [|by left].
    destruct (_ && _); auto. }
  unfold validate_application_spec. destruct (rpc.asp_schema spec) as [sc|]; simpl; [|done].
  destruct (validate_schema_result (rpc.asc_input sc)) as [-> | ->]; simpl; [|by right].
  destruct (validate_schema_result (rpc.asc_output sc)) as [-> | ->]; simpl; [|by right].
  by destruct (validate_schema_result (rpc.asc_common_data sc)) as [-> | ->]; simpl; [|right].
Qed.

(** Whether chrono can hold the delay of a request. *)
Definition delay_in_bounds (spec : rpc.ApplicationSpec) : bool :=
  match rpc.asp_delay_release spec with
  | Some n => (- MAX_SECONDS <=? n) && (n <=? MAX_SECONDS)
  | None => true
  end.

Lemma attributes_total spec :
  if delay_in_bounds spec then exists attr, application_attributes_from spec = Ok attr
  else application_attributes_from spec = Panic.
Proof.
  unfold delay_in_bounds, application_attributes_from, delay_or_default, seconds.
  destruct (rpc.asp_delay_release spec) as [n|]; [|by eexists].
  pose proof (try_seconds_bounds n) as Hb.
  destruct (try_seconds n) as [d|], (Z.leb_spec (- MAX_SECONDS) n), (Z.leb_spec n MAX_SECONDS); simpl;
    try (by eexists); try done; exfalso.
  - destruct Hb as [Hb _]. specialize (Hb ltac:(by eexists)). lia.
  - destruct Hb as [Hb _]. specialize (Hb ltac:(by eexists)). lia.
  - destruct Hb as [Hb _]. specialize (Hb ltac:(by eexists)). lia.
  - destruct Hb as [_ Hb]. destruct Hb; [lia|done].
Qed.

(** [error] What [register_application] does with a specification: one with
    a schema that is not a JSON schema, or with a relative working directory, is
    refused as an invalid argument; a delay that chrono cannot hold makes the
    handler panic; in both cases nothing is changed.  Any other specification
    reaches the controller, and the answer carries its verdict. *)
Theorem register_application_outcome name spec k :
  Frontend.register_application name (Some spec) k =
    match validate_application_spec spec with
    | Ok _ =>
        match application_attributes_from spec with
        | Ok attr =>
            let '(r, k') := Controller.register_application name attr k in
            (match r with
             | Ok _ => Reply (rpc.mkResult 0 None)
             | Err e => Reply (rpc.mkResult (-1) (Some (error_text e)))
             | Panic => Crash
             end, k')
        | _ => (Crash, k)
        end
    | _ => (Status InvalidArgument, k)
    end /\
  (application_attributes_from spec = Panic <-> delay_in_bounds spec = false).
Proof.
  split.
  - unfold Frontend.register_application, mbind, Api_bind, call, lift. simpl.
    destruct (validate_spec_result spec) as [-> | ->]; [|done]. pose proof (attributes_total spec) as Ha.
    destruct (delay_in_bounds spec); [destruct Ha as [attr ->]|by rewrite Ha]. simpl.
    unfold Frontend.result_of, mbind, Api_bind, call, attempt.
    by destruct (Controller.register_application name attr k) as [[]].
  - pose proof (attributes_total spec) as Ha. destruct (delay_in_bounds spec); [|done].
    destruct Ha as [attr ->]. done.
Qed.
End applications.

(** ** Examples *)

#[export] Instance demo_durations : Durations := {
  try_seconds := fun n =>
    if (- MAX_SECONDS <=? n) && (n <=? MAX_SECONDS) then Some (n * 1000000000) else None;
  whole_seconds := fun d => Z.quot d 1000000000
}.

#[export] Instance demo_durations_spec : DurationsSpec.
Proof.
  split; simpl; intros n.
  - destruct (Z.leb_spec (- MAX_SECONDS) n), (Z.leb_spec n MAX_SECONDS); simpl; split; intros Hn;
      try lia; try (by eexists); by destruct Hn.
  - intros d. destruct (_ && _); [|done]. intros [= <-]. apply Z.quot_mul. lia.
Qed.

Definition demo_schemas : Schemas := {|
  json_value := string;
  json_from_str := fun s => if String.prefix "{" s then Some s else None;
  meta_validate := fun _ => true;
  error_text := fun _ => "error"%string
|}.

Section examples.
#[local] Existing Instance demo_env.
#[local] Existing Instance demo_chrono.
#[local] Existing Instance demo_uuid_inj.
#[local] Existing Instance demo_schemas.

Definition demo_node_message : rpc.Node :=
  node_to (mkNode "n1" (mkRR 8 64 0) (mkRR 8 64 0) (mkPlatform "x86_64" "linux") NodeReady [ShimHost]).

Definition demo_heartbeat : NodeHeartbeat := mkHeartbeat "n1" (rpc.n_status demo_node_message).

(** A node registers and opens a stream; an executor is created on it. *)
Definition demo_setup : list server_event :=
  [Internal_op (CRegisterApplication "app" demo_app); Internal_op (CCreateSession demo_attr);
   Served (BRegisterNode (Some demo_node_message) []);
   Served (BWatchMessage None (Some demo_heartbeat) true);
   Internal_op (CCreateExecutor "n1" "s1")].

Definition demo_server : ConnectionManager demo_store := server_run None demo_setup demo_ctl.

Lemma demo_server_wf : ctl_wf demo_server.
Proof.
  assert (forall evs (k : ConnectionManager demo_store), ctl_wf k -> ctl_wf (server_run None evs k)) as Hr;
    [|apply Hr, demo_ctl_wf].
  induction evs as [|[r|op] evs IH]; intros k Hk; [done|..]; apply IH; [by apply serve_wf|by apply ctl_apply_wf].
Qed.

Lemma server_lifecycle_witness :
  view_in (serve None (BRegisterExecutor "id0" (rpc.x_spec (executor_to demo_reported))) demo_server).2 "id0" =
    Some (ExecIdle, None, None) /\
  ctl_wf (serve None (BRegisterExecutor "id0" (rpc.x_spec (executor_to demo_reported))) demo_server).2.
Proof.
  split; [vm_compute; reflexivity|].
  exact (proj1 (server_lifecycle None (BRegisterExecutor "id0" (rpc.x_spec (executor_to demo_reported)))
    demo_server demo_server_wf)).
Defined.

Lemma server_invariant_witness :
  ctl_wf (server_run None demo_setup demo_ctl) /\
  view_in (server_run None demo_setup demo_ctl) "id0" = Some (ExecVoid, None, None).
Proof.
  split; [|vm_compute; reflexivity].
  exact (proj1 (server_invariant None demo_setup demo_ctl demo_ctl_wf demo_ctl_ok)).
Defined.

(** The controller with the bound executor of [Lifecycle]. *)
Lemma demo_bound_lookups :
  exists e x app, st_executors (cm_callbacks demo_bound_ctl) !! "id0" = Some e /\
    st_sessions (cm_callbacks demo_bound_ctl) !! "s1" = Some x /\
    (Storage.get_application (ssn_application x) (cm_callbacks demo_bound_ctl)).1 = Ok app /\
    ex_state e = ExecBound /\ ex_ssn_id e = Some "s1"%string /\ is_open x = true.
Proof. eexists _, _, _. split_and!; vm_compute; reflexivity. Defined.

Lemma bind_executor_context_witness :
  exists a s k', Backend.bind_executor "id0" demo_bound_ctl = (Reply (Ready (Some a, Some s)), k') /\
    is_ok (session_context_try_from a s) = true.
Proof.
  destruct demo_bound_lookups as (e & x & app & He & Hx & Ha & Hs & Hssn & Ho).
  destruct (bind_executor_context "id0" demo_bound_ctl e "s1" x app He
    ltac:(by rewrite Hs) ltac:(by rewrite Hs) Hssn Hx Ho Ha) as (a & s & k' & Hb & Hc).
  exists a, s, k'. split; [exact Hb|]. by rewrite Hc.
Defined.

Definition demo_session_spec : rpc.SessionSpec :=
  rpc.mkSessionSpec "app" None 0 None 0 0 None {["token" := "secret"%string]}.

Lemma create_session_resolved_witness :
  exists x (k' : ConnectionManager demo_store), st_sessions (cm_callbacks k') !! "s9" = Some x /\
    ssn_resreq x = Some DEFAULT_FALLBACK_RESREQ.
Proof.
  destruct (Frontend.create_session None "s9" (Some demo_session_spec) demo_server) as [[m|c|] k'] eqn:Hr.
  - destruct (create_session_resolved None "s9" demo_session_spec demo_server m k' Hr)
      as (x & Hx & _ & Hq & _). exact (ex_intro _ x (ex_intro _ k' (conj Hx Hq))).
  - exfalso. apply (f_equal (fun p => match p.1 with Reply _ => true | _ => false end)) in Hr.
    vm_compute in Hr. discriminate.
  - exfalso. apply (f_equal (fun p => match p.1 with Reply _ => true | _ => false end)) in Hr.
    vm_compute in Hr. discriminate.
Defined.

(** A specification whose delay is the largest [i64]. *)
Definition demo_late_spec : rpc.ApplicationSpec :=
  rpc.mkApplicationSpec 0 None [] None None [] [] None None (Some (2 ^ 63 - 1)) None None None.

Lemma register_application_outcome_witness :
  Frontend.register_application "late" (Some demo_late_spec) demo_server = (Crash, demo_server) /\
  application_attributes_from demo_late_spec = Panic.
Proof.
  destruct (register_application_outcome "late" demo_late_spec demo_server) as [Hr [_ Hp]].
  assert (application_attributes_from demo_late_spec = Panic) as Ha by (apply Hp; vm_compute; reflexivity).
  split; [|exact Ha]. rewrite Hr, Ha. reflexivity.
Defined.

(** The node comes back, with a second stream, before the server noticed that
    the first one is dead; then the first one times out, and the drain timer
    fires while heartbeats arrive on the second. *)
Definition demo_reconnect : list server_event :=
  [Served (BRegisterNode (Some demo_node_message) [executor_to demo_reported]);
   Served (BWatchMessage None (Some demo_heartbeat) true)].
Definition demo_stale_close : list server_event :=
  [Served (BWatchClosed (Some "n1"%string));
   Served (BWatchMessage (Some "n1"%string) (Some demo_heartbeat) true);
   Internal_op (CFireTimer 0)].

Definition demo_node_state (k : ConnectionManager demo_store) : option NodeState :=
  node_state <$> st_nodes (cm_callbacks k) !! "n1".

(** [safety] The end of a stream drains its node even when the node has
    reconnected since: after a node registered again and opened a second stream,
    the timeout of the first stream makes the node unknown and starts the drain
    timer; heartbeats on the second stream are acknowledged but stop neither, and
    when the timer fires the node is not ready, its connection is gone and its
    executors are deleted, while its live stream is still served. *)
Theorem stale_stream_drains_live_node :
  let k := server_run None demo_reconnect demo_server in
  let k' := server_run None demo_stale_close k in
  (demo_node_state k, get_state "n1" k, view_in k "id0") =
    (Some NodeReady, Some Connected, Some (ExecVoid, None, None)) /\
  (demo_node_state k', get_state "n1" k', view_in k' "id0") = (Some NodeNotReady, None, None) /\
  fst (serve None (BWatchMessage (Some "n1"%string) (Some demo_heartbeat) true) k') =
    Reply (RWatch (Continue (Some "n1"%string) false)).
Proof. split_and!; vm_compute; reflexivity. Qed.
End examples.
