(* ===== verification/Worker.v ===== *)
(** * Executors of the executor manager ([executor_manager/src])

    The executor of [executor.rs], the calls of [client.rs] and the states of
    [states/].  The [execute] of a state is a program that asks the session
    manager, a shim or the device managers and goes on with the answer, so that
    other steps of the system can come between any two questions.  The shims
    are behind the trait [Shim]: what they answer is arbitrary. *)
From S2P Require Import Prelude Types Controller Codes Rpc.
Local Open Scope Z_scope.

(** ** The executor *)

(** [DeviceAssignment] of [devices/mod.rs]. *)
Record DeviceAssignment := mkAssignment {
  da_envs : gmap string string;
  da_cdi : list string;
  da_devices : list string;
  da_value : Z
}.

#[export] Instance DeviceAssignment_eq_dec : EqDecision DeviceAssignment.
Proof. solve_decision. Defined.

Definition BIND_RESULT_SHIM_CREATE_FAILED : Z := 11.
Definition BIND_RESULT_ON_SESSION_ENTER_FAILED : Z := 12.

Module fem.
(** [app_mgr] and [dev_mgr] tell whether the shared managers are attached; a
    shim instance is the number of its pointer.  [context] is left out: only
    the shims read it. *)
Record Executor := mkExecutor {
  id : string;
  application : string;
  resreq : ResourceRequirement;
  assignments : gmap string DeviceAssignment;
  app_mgr : bool;
  dev_mgr : bool;
  node : string;
  shim : Shim;
  session : option SessionContext;
  task : option TaskContext;
  shim_instance : option nat;
  state : ExecutorState
}.

Definition with_state (s : ExecutorState) (e : Executor) : Executor :=
  mkExecutor (id e) (application e) (resreq e) (assignments e) (app_mgr e) (dev_mgr e) (node e)
    (shim e) (session e) (task e) (shim_instance e) s.
Definition with_session (s : option SessionContext) (e : Executor) : Executor :=
  mkExecutor (id e) (application e) (resreq e) (assignments e) (app_mgr e) (dev_mgr e) (node e)
    (shim e) s (task e) (shim_instance e) (state e).
Definition with_task (t : option TaskContext) (e : Executor) : Executor :=
  mkExecutor (id e) (application e) (resreq e) (assignments e) (app_mgr e) (dev_mgr e) (node e)
    (shim e) (session e) t (shim_instance e) (state e).
Definition with_instance (h : option nat) (e : Executor) : Executor :=
  mkExecutor (id e) (application e) (resreq e) (assignments e) (app_mgr e) (dev_mgr e) (node e)
    (shim e) (session e) (task e) h (state e).

(** [Executor::try_from]: a field that is missing is an error. *)
Definition try_from (e : rpc.Executor) : result Executor :=
  spec ← ok_or (rpc.x_spec e) EInternal;
  status ← ok_or (rpc.x_status e) EInternal;
  metadata ← ok_or (rpc.x_metadata e) EInternal;
  state ← match executor_state_unwrap (rpc.xst_state status) with
          | Ok s => Ok s
          | _ => Err EInternal
          end;
  resreq ← ok_or (rpc.xsp_resreq spec) EInternal;
  Ok (mkExecutor (rpc.md_id metadata) (rpc.xsp_application spec) (requirement_from resreq) ∅ false
        false (rpc.xsp_node spec) (shim_or_default (rpc.xsp_shim spec)) None None None state).

(** [rpc::Executor::from(&executor)]. *)
Definition to_rpc (e : Executor) : rpc.Executor :=
  rpc.mkExecutor (Some (rpc.mkMetadata (id e) (id e)))
    (Some (rpc.mkExecutorSpec (node e) (Some (requirement_to (resreq e))) (i32_of_shim (shim e))
       (application e)))
    (Some (rpc.mkExecutorStatus (i32_of_executor_state (state e)) (sc_session_id <$> session e))).

Definition release (e : Executor) : Executor :=
  mkExecutor (id e) (application e) (resreq e) ∅ (app_mgr e) (dev_mgr e) (node e) (shim e)
    None None None ExecReleased.

Definition update (e next : Executor) : Executor :=
  mkExecutor (id e) (application next) (resreq e) (assignments next) (app_mgr e) (dev_mgr e) (node e)
    (shim e) (session next) (task next) (shim_instance next) (state next).
End fem.

(** ** Programs *)

(** The requests of [client.rs]; [SmLaunchNext] is the rest of a [LaunchTask]
    that waits on the session manager. *)
Inductive sm_call : Type -> Type :=
  | SmRegisterExecutor (id : string) (spec : rpc.ExecutorSpec) : sm_call unit
  | SmBindExecutor (id : string) : sm_call (option rpc.Application * option rpc.Session)
  | SmBindCompleted (id : string) (result : option rpc.Result)
      (attributes : option ExecutorAttributes) : sm_call unit
  | SmUnbindExecutor (id : string) : sm_call unit
  | SmUnbindCompleted (id : string) : sm_call unit
  | SmLaunchTask (id : string) : sm_call (option rpc.Task)
  | SmLaunchNext (id ssn : string) : sm_call (option rpc.Task)
  | SmCompleteTask (id : string) (result : rpc.TaskResult)
      (attributes : option ExecutorAttributes) : sm_call unit
  | SmUnregisterExecutor (id : string) : sm_call unit.

(** The methods of the trait [Shim] on the instance [h]. *)
Inductive shim_call : Type -> Type :=
  | CreateInstance (h : nat) : shim_call unit
  | OnSessionEnter (h : nat) (ctx : SessionContext) : shim_call (option ExecutorAttributes)
  | OnTaskInvoke (h : nat) (ctx : TaskContext) : shim_call (TaskResult * option ExecutorAttributes)
  | OnSessionLeave (h : nat) : shim_call unit
  | DestroyInstance (h : nat) : shim_call unit.

Inductive prog (A : Type) : Type :=
  | Done (r : result A)
  | AskSm {B : Type} (c : sm_call B) (k : result B -> prog A)
  | AskShim {B : Type} (c : shim_call B) (k : result B -> prog A)
  | NewShim (k : nat -> prog A)
  | FreeDevices (e : fem.Executor) (k : result unit -> prog A).
Arguments Done {A} _.
Arguments AskSm {A B} _ _.
Arguments AskShim {A B} _ _.
Arguments NewShim {A} _.
Arguments FreeDevices {A} _ _.

(** [p?] and then [f]. *)
#[export] Instance prog_bind : MBind prog := fun A B f =>
  fix go (p : prog A) : prog B :=
    match p with
    | Done (Ok a) => f a
    | Done (Err e) => Done (Err e)
    | Done Panic => Done Panic
    | AskSm c k => AskSm c (fun r => go (k r))
    | AskShim c k => AskShim c (fun r => go (k r))
    | NewShim k => NewShim (fun h => go (k h))
    | FreeDevices e k => FreeDevices e (fun r => go (k r))
    end.
#[export] Instance prog_ret : MRet prog := fun A a => Done (Ok a).

Section worker.
(** [e.to_string()], and whether the binary is built with the feature [wasm]. *)
Variable error_text : FlameError -> string.
Variable wasm : bool.

(** ** The client *)

Definition client_register_executor (e : fem.Executor) : prog unit :=
  AskSm (SmRegisterExecutor (fem.id e)
    (rpc.mkExecutorSpec (fem.node e) (Some (requirement_to (fem.resreq e)))
       (i32_of_shim (fem.shim e)) (fem.application e))) Done.

Definition client_bind_executor (e : fem.Executor) : prog (option SessionContext) :=
  resp ← AskSm (SmBindExecutor (fem.id e)) Done;
  match resp with
  | (Some app, Some ssn) => ctx ← Done (session_context_try_from app ssn); mret (Some ctx)
  | _ => mret None
  end.

Definition client_bind_executor_completed (e : fem.Executor) (result : option FlameResult)
    (attributes : option ExecutorAttributes) : prog unit :=
  AskSm (SmBindCompleted (fem.id e) (result_to <$> result) attributes) Done.

Definition client_unbind_executor (e : fem.Executor) : prog unit :=
  AskSm (SmUnbindExecutor (fem.id e)) Done.

Definition client_unbind_executor_completed (e : fem.Executor) : prog unit :=
  AskSm (SmUnbindCompleted (fem.id e)) Done.

Definition client_launch_task (e : fem.Executor) : prog (option TaskContext) :=
  resp ← AskSm (SmLaunchTask (fem.id e)) Done;
  match resp with
  | Some t => ctx ← Done (task_context_try_from t); mret (Some ctx)
  | None => mret None
  end.

Definition client_complete_task (e : fem.Executor) (task_result : TaskResult)
    (attributes : option ExecutorAttributes) : prog unit :=
  r ← Done (task_result_try_into task_result);
  AskSm (SmCompleteTask (fem.id e) r attributes) Done.

Definition client_unregister_executor (e : fem.Executor) : prog unit :=
  AskSm (SmUnregisterExecutor (fem.id e)) Done.

(** [shims::new_ptr]: the constructors themselves do not fail. *)
Definition shims_new_ptr (e : fem.Executor) (app : option ApplicationContext) : prog nat :=
  match fem.shim e, app with
  | ShimWasm, Some _ => if wasm then NewShim mret else Done (Err EInvalidConfig)
  | ShimHost, Some _ => NewShim mret
  | ShimCri, _ => NewShim mret
  | ShimHost, None | ShimWasm, None => Done (Err EInvalidConfig)
  end.

(** ** States *)

Definition void_execute (e : fem.Executor) : prog fem.Executor :=
  client_register_executor e ≫= fun _ =>
  mret (fem.with_state ExecIdle e).

(** [IdleState::bind_executor_failed]. *)
Definition bind_executor_failed (return_code : Z) (message : string) (ssn : SessionContext)
    (e : fem.Executor) : prog fem.Executor :=
  let e := fem.with_state ExecUnbinding (fem.with_session (Some ssn) e) in
  client_bind_executor_completed e (Some (mkFlameResult return_code (Some message))) None ≫= fun _ =>
  mret e.

(** [IdleState::create_instance]: its result, and the executor as it left it. *)
Definition create_instance (h : nat) (e : fem.Executor) : prog (result unit * fem.Executor) :=
  let e := fem.with_instance (Some h) e in
  AskShim (CreateInstance h) (fun r =>
    match r with
    | Err err =>
        AskShim (DestroyInstance h) (fun cleanup =>
          match cleanup with
          | Err error => mret (Err error, fem.with_state ExecReleasing e)
          | Ok _ => mret (Err err, fem.with_instance None e)
          | Panic => Done Panic
          end)
    | Ok _ => mret (Ok tt, e)
    | Panic => Done Panic
    end).

(** From [on_session_enter] on. *)
Definition enter_session (h : nat) (ssn : SessionContext) (e : fem.Executor) : prog fem.Executor :=
  AskShim (OnSessionEnter h ssn) (fun r =>
    match r with
    | Ok attributes =>
        let e := fem.with_state ExecUnbinding (fem.with_session (Some ssn) e) in
        client_bind_executor_completed e (Some (mkFlameResult BIND_RESULT_OK None)) attributes
          ≫= fun _ =>
        mret (fem.with_state ExecBound e)
    | Err err =>
        bind_executor_failed BIND_RESULT_ON_SESSION_ENTER_FAILED
          ("on_session_enter failed: " +:+ error_text err) ssn e
    | Panic => Done Panic
    end).

(** A new instance for the application of the session. *)
Definition enter_with_new_instance (ssn : SessionContext) (e : fem.Executor) : prog fem.Executor :=
  match shims_new_ptr e (Some (sc_application ssn)) with
  | Done (Err err) =>
      bind_executor_failed BIND_RESULT_SHIM_CREATE_FAILED
        ("shim creation failed: " +:+ error_text err) ssn e
  | made =>
      h ← made;
      created ← create_instance h e;
      match created with
      | (Ok _, e) => enter_session h ssn e
      | (Err error, e) =>
          if bool_decide (fem.state e = ExecReleasing) then mret e
          else bind_executor_failed BIND_RESULT_SHIM_CREATE_FAILED
                 ("shim service creation failed: " +:+ error_text error) ssn e
      | (Panic, _) => Done Panic
      end
  end.

(** The part of [IdleState::execute] with a session. *)
Definition bind_to (ssn : SessionContext) (e : fem.Executor) : prog fem.Executor :=
  if negb (bool_decide (fem.shim e = ac_shim (sc_application ssn))) then Done (Err EInvalidConfig)
  else
    match fem.shim_instance e with
    | Some h => enter_session h ssn e
    | None =>
        if negb (fem.app_mgr e) then Done (Err EInvalidState) else enter_with_new_instance ssn e
    end.

Definition idle_execute (e : fem.Executor) : prog fem.Executor :=
  ssn ← client_bind_executor e;
  match ssn with
  | None => mret (fem.with_state ExecReleasing (fem.with_session None e))
  | Some ssn => bind_to ssn e
  end.

(** Recovery of an executor received while it was binding. *)
Definition binding_execute (e : fem.Executor) : prog fem.Executor :=
  mret (fem.with_session None (fem.with_state ExecIdle e)).

(** The part of [BoundState::execute] with a task. *)
Definition invoke_task (h : nat) (ctx : TaskContext) (e : fem.Executor) : prog fem.Executor :=
  AskShim (OnTaskInvoke h ctx) (fun r =>
    match r with
    | Ok (task_result, attributes) =>
        client_complete_task e task_result attributes ≫= fun _ =>
        mret (fem.with_task None e)
    | Err err =>
        let e := fem.with_state ExecUnbinding e in
        client_complete_task e (mkTaskResult TaskFailed None (Some (error_text err))) None ≫= fun _ =>
        mret (fem.with_task None e)
    | Panic => Done Panic
    end).

Definition bound_execute (e : fem.Executor) : prog fem.Executor :=
  match fem.shim_instance e with
  | None => Done (Err EInvalidState)
  | Some h =>
      task ← client_launch_task e;
      match task with
      | Some ctx => invoke_task h ctx (fem.with_task task e)
      | None => mret (fem.with_task None (fem.with_state ExecUnbinding (fem.with_task task e)))
      end
  end.

(** [UnbindingState::leave_session]: an error is logged. *)
Definition leave_session (e : fem.Executor) : prog unit :=
  match fem.shim_instance e with
  | Some h => AskShim (OnSessionLeave h) (fun r => match r with Panic => Done Panic | _ => mret tt end)
  | None => mret tt
  end.

Definition unbind_completed (e : fem.Executor) : fem.Executor :=
  fem.with_state ExecIdle (fem.with_session None (fem.with_task None e)).

Definition unbinding_execute (e : fem.Executor) : prog fem.Executor :=
  match fem.session e, fem.shim_instance e with
  | None, None => Done (Err EInvalidState)
  | _, _ =>
      client_unbind_executor e ≫= fun _ =>
      leave_session e ≫= fun _ =>
      client_unbind_executor_completed e ≫= fun _ =>
      mret (unbind_completed e)
  end.

Definition releasing_execute (e : fem.Executor) : prog fem.Executor :=
  shim_ptr ← match fem.shim_instance e with
             | Some h => mret (Some h)
             | None =>
                 match fem.shim e with
                 | ShimCri => h ← shims_new_ptr e None; mret (Some h)
                 | _ => mret None
                 end
             end;
  e ← match shim_ptr with
      | Some h => AskShim (DestroyInstance h) Done ≫= fun _ => mret (fem.with_instance None e)
      | None => mret e
      end;
  (if fem.dev_mgr e then FreeDevices e Done else mret tt) ≫= fun _ =>
  client_unregister_executor e ≫= fun _ =>
  mret (fem.release e).

(** [states::from(..).execute()]. *)
Definition execute (e : fem.Executor) : prog fem.Executor :=
  match fem.state e with
  | ExecVoid => void_execute e
  | ExecIdle => idle_execute e
  | ExecBinding => binding_execute e
  | ExecBound => bound_execute e
  | ExecUnbinding => unbinding_execute e
  | ExecReleasing => releasing_execute e
  | _ => mret e
  end.
End worker.

(** ** Messages *)

(** What a report of an executor says of it comes back: the rest is local to
    the executor manager. *)
Lemma fem_roundtrip e :
  fem.try_from (fem.to_rpc e) =
    Ok (fem.mkExecutor (fem.id e) (fem.application e) (fem.resreq e) ∅ false false (fem.node e)
          (fem.shim e) None None None (fem.state e)).
Proof.
  unfold fem.try_from, fem.to_rpc. simpl. destruct e as [? ? [] ? ? ? ? [] ? ? ? []]; reflexivity.
Qed.
