(* ===== verification/Answers.v ===== *)
(** * What an answer of the session manager tells an executor

    The calls of an executor ([Worker]) as the session manager answers them
    ([Backend], [Controller]), and what the answer says about the executor as
    the session manager sees it: an accepted call has made its transition, a
    refused one has changed nothing. *)
From stdpp Require Import pretty.
From S2P Require Import Connections Nodes Executors.
From S2P Require Import Prelude Types Session Filters Events Engine Storage StorageInv Controller Frames Lifecycle.
From S2P Require Import Codes Rpc Frontend Backend Server Worker.
Local Open Scope Z_scope.

Definition call_id {B} (c : sm_call B) : string :=
  match c with
  | SmRegisterExecutor id _ | SmBindExecutor id | SmBindCompleted id _ _ | SmUnbindExecutor id
  | SmUnbindCompleted id | SmLaunchTask id | SmLaunchNext id _ | SmCompleteTask id _ _
  | SmUnregisterExecutor id => id
  end.

(** [.map_err(FlameError::from)]: a status is a network error, and so is the
    broken stream of a handler that panicked. *)
Definition answered {A} (r : reply A) : result A :=
  match r with Reply a => Ok a | _ => Err ENetwork end.

Definition polled {A B} (f : A -> B) (r : reply (poll A)) : poll (result B) :=
  match r with
  | Reply (Ready a) => Ready (Ok (f a))
  | Reply Waiting => Waiting
  | _ => Ready (Err ENetwork)
  end.

Section server.
Context `{Env} `{Chrono} `{Durations} {E V : Type} `{Engine E} `{EventManager V}.
Abbreviation K := (ConnectionManager (Storage E V)).
Abbreviation KA := (Api (ConnectionManager (Storage E V))).

Definition acknowledged (m : KA rpc.Result) : K -> poll (result unit) * K := fun k =>
  let '(r, k) := m k in (Ready (match answered r with Ok _ => Ok tt | Err e => Err e | Panic => Panic end), k).

Definition on_server {B} (c : sm_call B) : K -> poll (result B) * K :=
  match c with
  | SmRegisterExecutor id spec => acknowledged (Backend.register_executor id (Some spec))
  | SmBindExecutor id => fun k => let '(r, k) := Backend.bind_executor id k in (polled (fun x => x) r, k)
  | SmBindCompleted id r a => acknowledged (Backend.bind_executor_completed id r a)
  | SmUnbindExecutor id => acknowledged (Backend.unbind_executor id)
  | SmUnbindCompleted id => acknowledged (Backend.unbind_executor_completed id)
  | SmLaunchTask id => fun k => let '(r, k) := Backend.launch_task id k in (polled (fun x => x) r, k)
  | SmLaunchNext id ssn => fun k =>
      let '(r, k) := call (launch_next id ssn) k in (polled (fmap task_to) r, k)
  | SmCompleteTask id r a => acknowledged (Backend.complete_task id (Some r) a)
  | SmUnregisterExecutor id => acknowledged (Backend.unregister_executor id)
  end.
End server.

(** ** The transitions behind the answers *)

Definition state_of (Q : option view) : option ExecutorState := (fun v => v.1.1) <$> Q.

Definition bind_ok (r : option rpc.Result) : bool :=
  match r with Some r => rpc.r_return_code r =? BIND_RESULT_OK | None => true end.

(** A task message is about the task [t] of the session [s]. *)
Definition task_is (tk : rpc.Task) (s : string) (t : Z) : Prop :=
  rpc.md_id <$> rpc.t_metadata tk = Some (pretty t) /\
  rpc.tsp_session_id <$> rpc.t_spec tk = Some s.

Definition launch_post (Q : option view) (r : result (option rpc.Task)) (Q' : option view) : Prop :=
  state_of Q' = state_of Q /\
  match r with
  | Ok (Some tk) => exists st s t, Q' = Some (st, Some s, Some t) /\ st <> ExecIdle /\ st <> ExecBinding /\ task_is tk s t
  | _ => True
  end.

(** The view of the executor before and after a call with the answer [r]. *)
Definition post {B} (c : sm_call B) : option view -> result B -> option view -> Prop :=
  match c with
  | SmRegisterExecutor _ _ => fun Q r Q' =>
      match r with
      | Ok _ => exists s t, Q = Some (ExecVoid, s, t) /\ Q' = Some (ExecIdle, s, t)
      | _ => Q' = Q
      end
  | SmBindExecutor _ => fun Q r Q' =>
      Q' = Q /\
      match r with
      | Ok (Some _, Some _) => exists st s t, Q = Some (st, Some s, t) /\ st <> ExecIdle /\ st <> ExecReleasing
      | Ok _ => exists st s t, Q = Some (st, s, t) /\ st <> ExecIdle /\ st <> ExecVoid
      | _ => True
      end
  | SmBindCompleted _ res attributes => fun Q r Q' =>
      match r with
      | Ok _ => exists s t, Q = Some (ExecBinding, Some s, t) /\
          Q' = Some (if bind_ok res then (ExecBound, Some s, t) else (ExecUnbinding, None, None))
      | _ => Q' = Q \/ attributes <> None /\ bind_ok res = false
      end
  | SmUnbindExecutor _ => fun Q r Q' =>
      match r with
      | Ok _ => exists st s t s' t', Q = Some (st, s, t) /\ Q' = Some (ExecUnbinding, s', t') /\
                  st ∈ [ExecBinding; ExecBound; ExecUnbinding]
      | _ => Q' = Q
      end
  | SmUnbindCompleted _ => fun Q r Q' =>
      match r with
      | Ok _ => exists st s t, Q = Some (st, s, t) /\ Q' = Some (ExecIdle, None, None) /\
                  st ∈ [ExecBinding; ExecUnbinding]
      | _ => Q' = Q
      end
  | SmLaunchTask _ | SmLaunchNext _ _ => launch_post
  | SmCompleteTask _ _ _ => fun Q _ Q' => state_of Q' = state_of Q
  | SmUnregisterExecutor _ => fun Q r Q' =>
      let gone := Q = None \/ exists st s t, Q = Some (st, s, t) /\ st ∈ [ExecBinding; ExecReleasing] in
      match r with
      | Ok _ => Q' = None /\ gone
      | _ => Q' = Q \/ Q' = None /\ gone
      end
  end.

Section transitions.
Context `{Env} {E V : Type} `{EngineSpec E} `{EventManager V}.
Abbreviation K := (ConnectionManager (Storage E V)).
Implicit Types (X : gmap string Executor) (k : K).

(** Publishing succeeds with the executor written, or fails without a trace. *)
Lemma update_executor_reply X e e' (s : Storage E V) :
  base X s -> X !! ex_id e' = Some e ->
  wp (Storage.update_executor e') (fun r s' =>
    match r with
    | Ok _ => exists p, view_of p = view_of e' /\ st_executors s' = <[ex_id e' := p]> X
    | _ => st_executors s' = X
    end) s.
Proof.
  intros Hb He. unfold Storage.update_executor. apply wp_bind.
  eapply wp_mono; [apply (wp_keeps (base X)); [by apply (keeps_engine (base X))|done]|].
  intros [u|err|] s1 [Hg1 Hx1]; [|done..]. apply wp_bind, wp_gets. simpl. unfold execs in Hx1.
  rewrite Hx1, He. apply wp_bind, wp_now. unfold wp. simpl. rewrite Hx1. eexists. split; [|done].
  unfold view_of. simpl. unfold set_state. by destruct (decide _).
Qed.

Lemma notify_node_reply e k :
  exists k', notify_node e k = (Ok tt, k') /\ cm_callbacks k' = cm_callbacks k.
Proof.
  pose proof (onst_notify_node (eq (cm_callbacks k)) e k eq_refl) as Hc. unfold onst in Hc.
  assert (fst (notify_node e k) = Ok tt) as Hr.
  { unfold notify_node, Connections.notify_executor, mbind, M_bind, attempt, gets, lift.
    destruct (cm_connections k !! ex_node e) as [c|]; simpl; [|done].
    unfold Connections.from. by destruct (nc_state c). }
  destruct (notify_node e k) as [r k']. simpl in *. subst r. by exists k'.
Qed.

Lemma transition_reply id (f : States E V -> Executor -> M (Storage E V) Executor) X
    (R : Executor -> Executor -> Prop) k :
  onst (base X) k ->
  (forall st e, X !! id = Some e -> ex_id e = id -> Executors.from e = Ok st ->
     spec (base X) (f st e) (fun e' => ex_id e' = id /\ R e e')) ->
  wp (transition id f) (fun r k' =>
    match r with
    | Ok _ => exists e e', X !! id = Some e /\ R e e' /\ view_in k' id = Some (view_of e')
    | _ => view_in k' id = view_of <$> X !! id
    end) k.
Proof.
  intros Hk Hf. unfold transition. apply wp_bind.
  eapply wp_mono; [apply (wp_spec (onst (base X))); [apply spec_storage, spec_get_executor_ptr|done]|].
  intros [e|err|] k1 [[Hg1 Hx1] He]; [|unfold view_in; by rewrite Hx1..]. destruct (He e eq_refl) as [HX Hid].
  apply wp_bind, wp_lift. destruct (Executors.from e) as [st|err|] eqn:Hst;
    [|unfold view_in; by rewrite Hx1..].
  apply wp_bind. eapply wp_mono.
  { apply (wp_spec (onst (base X))); [apply spec_storage, (Hf st e HX Hid Hst)|by split]. }
  intros [e'|err|] k2 [[Hg2 Hx2] He']; [|unfold view_in; by rewrite Hx2..].
  destruct (He' e' eq_refl) as [Hid' HR]. apply wp_bind, wp_storage. rewrite <-Hid' in HX.
  eapply wp_mono; [apply (update_executor_reply X e e'); [by split|done]|]. simpl.
  intros [u|err|] s3; [|unfold view_in; simpl; by intros ->..]. intros (p & Hp & Hs). unfold wp.
  destruct (notify_node_reply e' (with_callbacks s3 k2)) as (k4 & Hn & Hc).
  unfold mbind, M_bind. rewrite Hn. simpl. exists e, e'. rewrite Hid' in HX. split_and!; [done..|].
  unfold view_in. rewrite Hc. simpl. by rewrite Hs, Hid', lookup_insert_eq, <-Hp.
Qed.

(** An answer, with the transition an accepted call has made. *)
Definition told {A} (T : view -> view -> Prop) (id : string) k (r : result A) k' : Prop :=
  match r with
  | Ok _ => exists v v', view_in k id = Some v /\ view_in k' id = Some v' /\ T v v'
  | _ => view_in k' id = view_in k id
  end.

Lemma transition_told {A} id (f : States E V -> Executor -> M (Storage E V) Executor) (T : view -> view -> Prop)
    (g : Executor -> A) k :
  good (cm_callbacks k) ->
  (forall X st e, X !! id = Some e -> ex_id e = id -> Executors.from e = Ok st ->
     spec (base X) (f st e) (fun e' => ex_id e' = id /\ T (view_of e) (view_of e'))) ->
  wp (transition id f ≫= fun e => mret (g e)) (told T id k) k.
Proof.
  intros Hg Hf. apply wp_bind. eapply wp_mono.
  { apply (transition_reply id f (st_executors (cm_callbacks k)) (fun e e' => T (view_of e) (view_of e')));
      [by split|by intros; apply Hf]. }
  intros [e|err|] k'; simpl; [|done..]. intros (e1 & e2 & He & HT & Hv).
  exists (view_of e1), (view_of e2). unfold view_in at 1. by rewrite He.
Qed.

Ltac by_state e Hst :=
  unfold Executors.from in Hst; destruct (ex_state e) eqn:Hstate; try discriminate Hst;
  injection Hst as <-; simpl; try (by apply spec_invalid).

Lemma register_told e k :
  good (cm_callbacks k) ->
  wp (Controller.register_executor e) (told (fun v v' => exists s t, v = (ExecVoid, s, t) /\ v' = (ExecIdle, s, t))
    (ex_id e) k) k.
Proof.
  intros Hg. apply transition_told; [done|]. intros X st x Hx Hid Hst. by_state x Hst.
  eapply spec_weaken; [apply (spec_enter (base X))|]. intros e' [Hid' Hv]. split; [congruence|].
  exists (ex_ssn_id x), (ex_task_id x). unfold view_of at 1. by rewrite Hstate.
Qed.

Lemma unbind_told id k :
  good (cm_callbacks k) ->
  wp (Controller.unbind_executor id) (told (fun v v' => v.1.1 ∈ [ExecBinding; ExecBound; ExecUnbinding] /\
    v'.1.1 = ExecUnbinding) id k) k.
Proof.
  intros Hg. apply transition_told; [done|]. intros X st x Hx Hid Hst. by_state x Hst; simpl;
    (eapply spec_weaken; [apply (spec_enter (base X)) || apply (spec_enter_unbound (base X))|]);
    intros e' [Hid' Hv]; (split; [congruence|]); injection Hv as -> _ _; rewrite Hstate; set_solver.
Qed.

Lemma unbind_completed_told id k :
  good (cm_callbacks k) ->
  wp (Controller.unbind_executor_completed id) (told (fun v v' => v.1.1 ∈ [ExecBinding; ExecUnbinding] /\
    v' = (ExecIdle, None, None)) id k) k.
Proof.
  intros Hg. apply transition_told; [done|]. intros X st x Hx Hid Hst. by_state x Hst; simpl;
    (eapply spec_weaken; [apply (spec_enter_unbound (base X))|]);
    intros e' [Hid' Hv]; (split; [congruence|]); rewrite Hstate; set_solver.
Qed.

Definition result_ok (r : option FlameResult) : bool :=
  match r with Some r => fr_return_code r =? BIND_RESULT_OK | None => true end.

Lemma bind_completed_told id r k :
  good (cm_callbacks k) ->
  wp (Controller.bind_session_completed id r) (told (fun v v' => exists s t, v = (ExecBinding, Some s, t) /\
    v' = if result_ok r then (ExecBound, Some s, t) else (ExecUnbinding, None, None)) id k) k.
Proof.
  intros Hg. apply transition_told; [done|]. intros X st x Hx Hid Hst. by_state x Hst.
  assert (result_ok r = true -> spec (@base E V X) (bind_session_success x) (fun e' => ex_id e' = id /\ exists s t,
    view_of x = (ExecBinding, Some s, t) /\
    view_of e' = if result_ok r then (ExecBound, Some s, t) else (ExecUnbinding, None, None))) as Hok.
  { intros ->. eapply spec_weaken; [apply spec_bind_success|]. intros e' (Hid' & [ssn Hs] & Hv).
    split; [congruence|]. exists ssn, (ex_task_id x). unfold view_of at 1. by rewrite Hv, Hstate, Hs. }
  unfold binding_completed. destruct r as [r|]; [|by apply Hok]. unfold result_ok in Hok |- *.
  destruct (fr_return_code r =? BIND_RESULT_OK); simpl in *; [by apply Hok|].
  eapply spec_weaken; [apply spec_bind_failed|]. intros e' (Hid' & [ssn Hs] & Hv).
  split; [congruence|]. exists ssn, (ex_task_id x). unfold view_of at 1. by rewrite Hv, Hstate, Hs.
Qed.

(** The attributes of a bound executor can be set. *)
Lemma update_attributes_bound id u k s t :
  view_in k id = Some (ExecBound, Some s, t) ->
  wp (update_executor_attributes id u) (fun r k' => r = Ok tt /\ view_in k' id = view_in k id) k.
Proof.
  unfold view_in, wp, update_executor_attributes, get_executor_ptr, storage, zoom, mbind, M_bind, gets, lift.
  destruct k as [cs ts n x]. simpl. destruct (st_executors x !! id) as [e|] eqn:He; [|done]. simpl.
  intros [= Hst Hs Ht]. rewrite bool_decide_eq_true_2 by done. simpl. rewrite Hs. simpl.
  by rewrite lookup_insert_eq.
Qed.

Lemma bind_executor_completed_told id r a k :
  good (cm_callbacks k) ->
  wp (Controller.bind_executor_completed id r a) (fun res k' =>
    match res with
    | Ok _ => exists s t, view_in k id = Some (ExecBinding, Some s, t) /\
        view_in k' id = Some (if result_ok r then (ExecBound, Some s, t) else (ExecUnbinding, None, None))
    | _ => view_in k' id = view_in k id \/ a <> None /\ result_ok r = false
    end) k.
Proof.
  intros Hg. unfold Controller.bind_executor_completed. apply wp_bind, wp_lift.
  destruct (transpose validate_executor_attributes a) as [u|err|] eqn:Hu; [|by left..].
  apply wp_bind. eapply wp_mono; [by apply bind_completed_told|].
  intros [[]|err|] k'; unfold told; [|by left..]. intros (v & v' & Hv & Hv' & s & t & -> & ->).
  destruct u as [u|]; [|apply wp_ret; by exists s, t].
  destruct (result_ok r) eqn:Hr.
  - eapply wp_mono; [by eapply update_attributes_bound|]. intros res k1 [-> Hk1]. exists s, t. by rewrite Hk1.
  - unfold wp, update_executor_attributes, get_executor_ptr, storage, zoom, mbind, M_bind, gets, lift.
    unfold view_in in Hv'. destruct k' as [cs ts n x]. simpl in *.
    destruct (st_executors x !! id) as [e|] eqn:He; [|done]. simpl in *. injection Hv' as Hst _ _.
    rewrite bool_decide_eq_false_2 by (by rewrite Hst). simpl. right. split; [|done].
    intros ->. by injection Hu.
Qed.

Lemma unregister_told id k :
  wp (Controller.unregister_executor id) (fun r k' => r = Ok tt -> view_in k' id = None) k.
Proof.
  unfold Controller.unregister_executor. apply wp_bind, wp_storage, wp_gets. simpl.
  destruct (st_executors (cm_callbacks k) !! id) as [e|] eqn:He.
  - apply wp_bind. eapply wp_mono; [by apply (wp_keeps (fun _ => True))|]. intros [u|err|] k1 _; [|done..].
    apply wp_bind, wp_lift. destruct (Executors.from e); [|done..].
    apply wp_bind. eapply wp_mono; [by apply (wp_keeps (fun _ => True))|]. intros [e1|err|] k2 _; [|done..].
    apply wp_bind, wp_storage. unfold delete_executor. apply wp_bind.
    eapply wp_mono; [by apply (wp_keeps (fun _ => True))|]. intros [u1|err|] s3 _; [|done..].
    unfold wp at 1. simpl. unfold wp.
    lazymatch goal with |- context [notify_node ?x ?kk] =>
      destruct (notify_node_reply x kk) as (k4 & -> & Hc) end.
    intros _. unfold view_in. rewrite Hc. simpl. by rewrite lookup_delete_eq.
  - intros _. unfold view_in. simpl. destruct k. by rewrite He.
Qed.

Lemma spec_launched X st ssn t e :
  Executors.from e = Ok st -> task_ssn_id t = ssn ->
  spec (@base E V X) (Executors.launch_task st ssn t e) (fun r => ex_id r.1 = ex_id e /\
    forall t', r.2 = Some t' -> t' = t /\ view_of r.1 = (ExecBound, Some ssn, Some (task_id t))).
Proof.
  intros Hst Ht. by_state e Hst.
  - unfold bound_launch_task. apply (spec_bind (base X) _ _ (fun _ => True)).
    + apply keeps_spec, keeps_base; [by apply good_update_task_state|by eauto with flame].
    + intros _ _. apply spec_ret. split; [done|]. intros t' [= <-]. split; [done|].
      unfold view_of. simpl. by rewrite Hstate, Ht.
  - by apply spec_ret.
Qed.

Definition launched (id : string) k (r : result (poll (option Task))) k' : Prop :=
  match r with
  | Ok (Ready (Some t)) => exists st, view_in k' id = Some (st, Some (task_ssn_id t), Some (task_id t))
  | Ok Waiting => view_in k' id = view_in k id
  | _ => True
  end.

Lemma launch_next_told id ssn k :
  good (cm_callbacks k) -> wp (launch_next id ssn) (launched id k) k.
Proof.
  intros Hg. set (X := st_executors (cm_callbacks k)). assert (onst (base X) k) as Hk by done.
  unfold launch_next. apply wp_bind. eapply wp_mono; [by apply (wp_spec (onst (base X))), Hk; apply spec_wait_for_task|].
  intros [r|err|] k1 [Hk1 Hr]; [|done..]. specialize (Hr r eq_refl).
  destruct r as [[t|]|]; [|done|apply wp_ret; unfold launched, view_in; by rewrite (proj2 Hk1)]. destruct (Hr t eq_refl) as (Ht & e0 & He0 & Hs).
  apply wp_bind. eapply wp_mono.
  { apply (wp_spec (onst (base X))); [apply spec_storage, spec_get_executor_ptr|done]. }
  intros [e|err|] k2 [Hk2 He]; [|done..]. destruct (He e eq_refl) as [HX Hid].
  apply wp_bind, wp_lift. destruct (Executors.from e) as [st|err|] eqn:Hst; [|done..].
  apply wp_bind. eapply wp_mono.
  { apply (wp_spec (onst (base X))); [apply spec_storage, (spec_launched X st ssn t e Hst Ht)|done]. }
  intros [[e' l]|err|] k3 [[Hg3 Hx3] He']; [|done..]. destruct (He' _ eq_refl) as [Hid' Hv]. simpl in *.
  assert (id = ex_id e') as -> by congruence.
  apply wp_bind, wp_storage. unfold wp at 1. simpl. apply wp_bind, wp_storage. simpl.
  set (s3 := with_executors _ (cm_callbacks k3)).
  assert (base (<[ex_id e' := e']> X) s3) as Hb3.
  { split; [by apply (good_put_executor e')|]. unfold execs, s3. simpl. by rewrite Hx3. }
  eapply wp_mono; [apply (update_executor_reply _ e' e' s3 Hb3); by rewrite lookup_insert_eq|].
  intros [u|err|] s4; [|done..]. intros (p & Hp & Hs4). apply wp_ret. destruct l as [t'|]; [|done].
  destruct (Hv t' eq_refl) as [-> Hv']. eexists. unfold view_in. simpl. by rewrite Hs4, lookup_insert_eq, Ht, <-Hv', <-Hp.
Qed.

Lemma get_task_ptr_told g (x : Storage E V) :
  good x -> wp (get_task_ptr g) (fun r x' => x' = x /\ forall t, r = Ok t ->
    task_ssn_id t = gid_ssn_id g /\ task_id t = gid_task_id g) x.
Proof.
  intros Hg. unfold wp, get_task_ptr, mbind, M_bind, get_session_ptr, gets, lift. simpl.
  destruct (st_sessions x !! gid_ssn_id g) as [y|] eqn:Hs; [|done]. simpl.
  destruct (ssn_tasks y !! gid_task_id g) as [t|] eqn:Ht; [|done]. split; [done|]. intros ? [= <-]. split.
  - rewrite (g_owned x Hg _ _ Hs _ _ Ht). by apply (swf_ssns x (g_wf x Hg)).
  - by apply (iw_key y (swf_index x (g_wf x Hg) _ _ Hs)).
Qed.

Lemma launch_task_told id k :
  good (cm_callbacks k) -> wp (Controller.launch_task id) (launched id k) k.
Proof.
  intros Hg. unfold Controller.launch_task. apply wp_bind, wp_storage, wp_get_executor_ptr.
  destruct (st_executors (cm_callbacks k) !! id) as [e|] eqn:He; simpl; [|done].
  apply wp_bind, wp_lift. destruct (Executors.from e) as [st|err|]; [|done..].
  destruct (ex_ssn_id e) as [ssn|] eqn:Hs; [|done]. destruct (ex_task_id e) as [tid|] eqn:Ht.
  - apply wp_bind, wp_storage. eapply wp_mono; [by apply get_task_ptr_told|]. simpl.
    intros [t|err|] x' [-> Htk]; [|done..]. destruct (Htk t eq_refl) as [Hts Hti]. simpl in *.
    apply wp_ret. exists (ex_state e). unfold view_in. simpl. rewrite He. simpl. unfold view_of.
    by rewrite Hs, Ht, Hts, Hti.
  - apply wp_bind, wp_storage, wp_gets. simpl. destruct (_ !! ssn); [|done].
    eapply wp_mono; [apply launch_next_told; by destruct k|]. by destruct k.
Qed.
End transitions.

(** ** Every answer *)

Section answers.
Context `{Env} `{Chrono} `{Durations} `{Schemas} {E V : Type} `{EngineSpec E} `{EventManager V}.
Context `{!Inj (=) (=) new_uuid}.
Abbreviation K := (ConnectionManager (Storage E V)).
Implicit Types k : K.

(** The request a call is on the wire. *)
Definition request_of {B} (c : sm_call B) : server_event :=
  match c with
  | SmRegisterExecutor id spec => Served (BRegisterExecutor id (Some spec))
  | SmBindExecutor id => Served (BBindExecutor id)
  | SmBindCompleted id r a => Served (BBindCompleted id r a)
  | SmUnbindExecutor id => Served (BUnbindExecutor id)
  | SmUnbindCompleted id => Served (BUnbindCompleted id)
  | SmLaunchTask id => Served (BLaunchTask id)
  | SmLaunchNext id ssn => Internal_op (CLaunchNext id ssn)
  | SmCompleteTask id r a => Served (BCompleteTask id (Some r) a)
  | SmUnregisterExecutor id => Served (BUnregisterExecutor id)
  end.

Lemma acknowledged_returns (m : Api K rpc.Result) k :
  (acknowledged m k).2 = (returns RResult m k).2.
Proof.
  unfold acknowledged, returns, mbind, Api_bind. by destruct (m k) as [[] ?].
Qed.

Lemma on_server_step {B} (c : sm_call B) k d :
  (on_server c k).2 = server_step d (request_of c) k.
Proof.
  destruct c; simpl; try apply acknowledged_returns; unfold returns, mbind, Api_bind.
  - by destruct (Backend.bind_executor id k) as [[] ?].
  - by destruct (Backend.launch_task id k) as [[] ?].
  - unfold call. by destruct (launch_next id ssn k) as [[] ?].
Qed.

Lemma on_server_wf {B} (c : sm_call B) k : ctl_wf k -> ctl_wf (on_server c k).2.
Proof.
  intros Hk. rewrite (on_server_step c k None). destruct (request_of c); simpl; [by apply serve_wf|by apply ctl_apply_wf].
Qed.

Lemma on_server_ok {B} (c : sm_call B) k : ctl_wf k -> execs_ok k -> execs_ok (on_server c k).2.
Proof.
  intros Hk. rewrite (on_server_step c k None). destruct (request_of c); simpl; [by apply serve_ok|by apply ctl_apply_ok].
Qed.

(** The operation of the controller behind a call. *)
Lemma on_server_moved {B} (c : sm_call B) k id :
  ctl_wf k -> view_in (on_server c k).2 id = view_in k id \/
    exists op, (request_of c = Internal_op op \/ exists r, request_of c = Served r /\ request_op r op) /\
      lstep op id (view_in k id) (view_in (on_server c k).2 id).
Proof.
  intros Hk. rewrite (on_server_step c k None). destruct (request_of c) as [r|op] eqn:Hr; simpl.
  - destruct (serve_moved None r k Hk) as (_ & _ & Hm). destruct (Hm id) as [|(op & Hop & Hl)]; [by left|right].
    exists op. split; [right; by exists r|done].
  - destruct (ctl_apply_view op k id Hk); [by left|right]. exists op. split; [by left|done].
Qed.

(** What [call m] acknowledged says is the result of [m]. *)
Lemma acknowledged_call (m : M K unit) k :
  acknowledged (call m ≫= fun _ => mret rpc.default_result) k =
    (Ready (match (m k).1 with Ok _ => Ok tt | _ => Err ENetwork end), (m k).2).
Proof. unfold acknowledged, mbind, Api_bind, call. by destruct (m k) as [[] ?]. Qed.

Lemma told_acknowledged (T : view -> view -> Prop) id (m : M K unit) k :
  wp m (told T id k) k -> told T id k (match (m k).1 with Ok _ => Ok tt | _ => Err ENetwork end) (m k).2.
Proof. unfold wp. by destruct (m k) as [[] ?]. Qed.

Lemma register_post id spec k r k' :
  ctl_wf k -> on_server (SmRegisterExecutor id spec) k = (Ready r, k') ->
  post (SmRegisterExecutor id spec) (view_in k id) r (view_in k' id).
Proof.
  intros [Hg _]. simpl. unfold Backend.register_executor, acknowledged, mbind, Api_bind, call, lift, now, storage, zoom.
  simpl. set (k1 := with_callbacks _ k). set (e := mkExecutor _ _ _ _ _ _ _ _ _ _ _ _).
  assert (good (cm_callbacks k1)) as Hg1 by (by apply good_cache).
  pose proof (register_told e k1 Hg1) as Ht. unfold wp in Ht.
  assert (view_in k1 id = view_in k id) as Hv by done.
  destruct (Controller.register_executor e k1) as [[[]|err|] k2]; intros [= <- <-]; simpl in *; rewrite <-Hv; [|done..].
  destruct Ht as (v & v' & -> & -> & s & t & -> & ->). by exists s, t.
Qed.

(** A call that moves no executor. *)
Lemma on_server_still {B} (c : sm_call B) k id :
  ctl_wf k -> match c with SmBindExecutor _ => True | _ => False end ->
  view_in (on_server c k).2 id = view_in k id.
Proof.
  intros Hk Hc. destruct c; try done.
  destruct (on_server_moved (SmBindExecutor id0) k id Hk) as [|(op & [Hop|(r & Hr & Hop)] & _)]; [done|done|].
  injection Hr as <-. inversion Hop.
Qed.

Lemma wait_for_session_told id k :
  execs_ok k ->
  match (wait_for_session id k).1 with
  | Ok (Ready (Some _)) =>
      exists st s t, view_in k id = Some (st, Some s, t) /\ st <> ExecIdle /\ st <> ExecReleasing
  | Ok (Ready None) => exists st s t, view_in k id = Some (st, s, t) /\ st <> ExecIdle /\ st <> ExecVoid
  | _ => True
  end.
Proof.
  intros Hok. specialize (Hok id). unfold wait_for_session, view_in in *. unfold mbind, M_bind, storage, zoom,
    get_executor_ptr, gets, lift. destruct k as [cs ts n x]. simpl in *.
  destruct (st_executors x !! id) as [e|] eqn:He; [|done]. simpl in *.
  specialize (Hok _ eq_refl). unfold view_of in *.
  destruct (ex_state e) eqn:Hst; simpl in *; try done; try (by eexists _, _, _); destruct (ex_ssn_id e) as [ssn|];
    simpl in *; try done; try (by destruct Hok); destruct (st_sessions x !! ssn) as [y|]; simpl;
    try (by eexists _, _, _); destruct (negb (is_open y)); simpl; by eexists _, _, _.
Qed.

Lemma bind_post id k r k' :
  ctl_wf k -> execs_ok k -> on_server (SmBindExecutor id) k = (Ready r, k') ->
  post (SmBindExecutor id) (view_in k id) r (view_in k' id).
Proof.
  intros Hk Hok Hr. pose proof (on_server_still (SmBindExecutor id) k id Hk I) as Hs. rewrite Hr in Hs.
  simpl in Hs. split; [done|]. pose proof (wait_for_session_told id k Hok) as Hw. clear Hs. revert Hr. simpl.
  unfold Backend.bind_executor, mbind, Api_bind, call.
  destruct (wait_for_session id k) as [[[[x|]|]|err|] k1]; simpl in *; try (by intros [= <- <-]).
  destruct (storage _ k1) as [[app|err|] k2]; simpl; by intros [= <- <-].
Qed.

Lemma bind_completed_post id res a k r k' :
  ctl_wf k -> on_server (SmBindCompleted id res a) k = (Ready r, k') ->
  post (SmBindCompleted id res a) (view_in k id) r (view_in k' id).
Proof.
  intros [Hg _]. simpl. unfold Backend.bind_executor_completed. rewrite acknowledged_call. intros [= <- <-].
  pose proof (bind_executor_completed_told id (result_from <$> res) a k Hg) as Ht. unfold wp in Ht.
  assert (result_ok (result_from <$> res) = bind_ok res) as Hb by (by destruct res). rewrite Hb in Ht.
  by destruct (Controller.bind_executor_completed id (result_from <$> res) a k) as [[] ?].
Qed.

Lemma unbind_post id k r k' :
  ctl_wf k -> on_server (SmUnbindExecutor id) k = (Ready r, k') ->
  post (SmUnbindExecutor id) (view_in k id) r (view_in k' id).
Proof.
  intros [Hg _]. simpl. unfold Backend.unbind_executor. rewrite acknowledged_call. intros [= <- <-].
  pose proof (told_acknowledged _ id _ k (unbind_told id k Hg)) as Ht. unfold told in Ht.
  destruct (Controller.unbind_executor id k) as [[] k']; simpl in *; [|done..].
  destruct Ht as ([[st s] t] & [[st' s'] t'] & -> & -> & Hst & Hst'). simpl in *. subst st'. by eexists _, _, _, _, _.
Qed.

Lemma unbind_completed_post id k r k' :
  ctl_wf k -> on_server (SmUnbindCompleted id) k = (Ready r, k') ->
  post (SmUnbindCompleted id) (view_in k id) r (view_in k' id).
Proof.
  intros [Hg _]. simpl. unfold Backend.unbind_executor_completed. rewrite acknowledged_call. intros [= <- <-].
  pose proof (told_acknowledged _ id _ k (unbind_completed_told id k Hg)) as Ht. unfold told in Ht.
  destruct (Controller.unbind_executor_completed id k) as [[] k']; simpl in *; [|done..].
  destruct Ht as ([[st s] t] & v' & -> & -> & Hst & ->). by eexists _, _, _.
Qed.

Lemma unregister_post id k r k' :
  ctl_wf k -> on_server (SmUnregisterExecutor id) k = (Ready r, k') ->
  post (SmUnregisterExecutor id) (view_in k id) r (view_in k' id).
Proof.
  intros Hk Hr. pose proof (on_server_moved (SmUnregisterExecutor id) k id Hk) as Hm. rewrite Hr in Hm. simpl in Hm.
  revert Hr. simpl. unfold Backend.unregister_executor. rewrite acknowledged_call. intros [= <- <-].
  pose proof (unregister_told id k) as Ht. unfold wp in Ht.
  assert (view_in (Controller.unregister_executor id k).2 id = view_in k id \/
    view_in (Controller.unregister_executor id k).2 id = None /\ (view_in k id = None \/
      exists st s t, view_in k id = Some (st, s, t) /\ st ∈ [ExecBinding; ExecReleasing])) as Hg.
  { destruct Hm as [|(op & [?|(q & Hq & Hop)] & Hl)]; [by left|done|]. injection Hq as <-. inversion Hop; subst.
    inversion Hl; subst. right. split; [done|]. right. eexists _, _, _. split; [done|]. set_solver. }
  destruct (Controller.unregister_executor id k) as [[[]|err|] k']; simpl in *; [|done..].
  rewrite (Ht eq_refl) in *. destruct Hg as [<-|[_ Hg]]; split; auto.
Qed.

Lemma task_to_is (t : Task) : task_is (task_to t) (task_ssn_id t) (task_id t).
Proof. by split. Qed.

(** A launch leaves the state of the executor. *)
Lemma launch_state {B} (c : sm_call B) k id :
  ctl_wf k -> match c with SmLaunchTask _ | SmLaunchNext _ _ | SmCompleteTask _ _ _ => True | _ => False end ->
  state_of (view_in (on_server c k).2 id) = state_of (view_in k id).
Proof.
  intros Hk Hc. destruct (on_server_moved c k id Hk) as [->|(op & Hop & Hl)]; [done|].
  revert Hl. generalize (view_in (on_server c k).2 id) (view_in k id). intros Q' Q Hl.
  destruct c; try done; simpl in Hop;
    (destruct Hop as [Hop|(q & Hq & Hop)]; [try done; injection Hop as <-|try done; injection Hq as <-; inversion Hop; subst]);
    by inversion Hl; subst.
Qed.

Lemma launch_polled id k (m : M K (poll (option Task))) :
  wp m (launched id k) k ->
  match polled (fmap task_to) (call m k).1 with
  | Ready (Ok (Some tk)) => execs_ok (call m k).2 ->
      exists st s t, view_in (call m k).2 id = Some (st, Some s, Some t) /\ st <> ExecIdle /\ st <> ExecBinding /\
        task_is tk s t
  | Waiting => view_in (call m k).2 id = view_in k id
  | _ => True
  end.
Proof.
  unfold wp, call, launched. destruct (m k) as [[[[t|]|]|err|] k']; simpl; try done.
  intros [st Hv] Hok. specialize (Hok id _ Hv). eexists _, _, _. split; [done|].
  split; [by intros ->; destruct Hok|]. split; [by intros ->; destruct Hok|apply task_to_is].
Qed.

Lemma launch_task_polled id k :
  on_server (SmLaunchTask id) k =
    (polled (fmap task_to) (call (Controller.launch_task id) k).1, (call (Controller.launch_task id) k).2).
Proof.
  simpl. unfold Backend.launch_task, mbind, Api_bind.
  by destruct (call (Controller.launch_task id) k) as [[[]| |] k'].
Qed.

Lemma launch_next_polled id ssn k :
  on_server (SmLaunchNext id ssn) k =
    (polled (fmap task_to) (call (launch_next id ssn) k).1, (call (launch_next id ssn) k).2).
Proof. simpl. by destruct (call (launch_next id ssn) k). Qed.

(** What the answer to a call says. *)
Lemma on_server_post {B} (c : sm_call B) k r k' :
  ctl_wf k -> execs_ok k -> on_server c k = (Ready r, k') ->
  post c (view_in k (call_id c)) r (view_in k' (call_id c)).
Proof.
  intros Hk Hok Hr. destruct c.
  - by apply register_post.
  - by apply bind_post.
  - by apply bind_completed_post.
  - by apply unbind_post.
  - by apply unbind_completed_post.
  - split; [simpl call_id; by rewrite <-(launch_state (SmLaunchTask id) k id Hk I), Hr|].
    pose proof (launch_polled id k _ (launch_task_told id k (proj1 Hk))) as Hl.
    pose proof (on_server_ok (SmLaunchTask id) k Hk Hok) as Hok'.
    rewrite launch_task_polled in Hr, Hok'. injection Hr as Hr <-. rewrite Hr in Hl. by destruct r as [[]| |]; auto.
  - split; [simpl call_id; by rewrite <-(launch_state (SmLaunchNext id ssn) k id Hk I), Hr|].
    pose proof (launch_polled id k _ (launch_next_told id ssn k (proj1 Hk))) as Hl.
    pose proof (on_server_ok (SmLaunchNext id ssn) k Hk Hok) as Hok'.
    rewrite launch_next_polled in Hr, Hok'. injection Hr as Hr <-. rewrite Hr in Hl. by destruct r as [[]| |]; auto.
  - change (state_of (view_in k' id) = state_of (view_in k id)). by rewrite <-(launch_state (SmCompleteTask id result attributes) k id Hk I), Hr.
  - by apply unregister_post.
Qed.

(** A call that waits has changed nothing. *)
Lemma on_server_waiting {B} (c : sm_call B) k k' :
  ctl_wf k -> on_server c k = (Waiting, k') -> view_in k' (call_id c) = view_in k (call_id c).
Proof.
  intros Hk Hr. destruct c; try (simpl in Hr; unfold acknowledged in Hr;
    lazymatch type of Hr with context [let '(_, _) := ?m in _] => by destruct m end).
  - simpl call_id. by rewrite <-(on_server_still (SmBindExecutor id) k id Hk I), Hr.
  - pose proof (launch_polled id k _ (launch_task_told id k (proj1 Hk))) as Hl.
    rewrite launch_task_polled in Hr. injection Hr as Hr <-. by rewrite Hr in Hl.
  - pose proof (launch_polled id k _ (launch_next_told id ssn k (proj1 Hk))) as Hl.
    rewrite launch_next_polled in Hr. injection Hr as Hr <-. by rewrite Hr in Hl.
Qed.
End answers.
