(* ===== verification/Fleet.v ===== *)
(** * An executor and the session manager together

    The worker of an executor ([executor::start] and the states, [Worker]) runs
    beside the session manager ([Server]): between any two of its questions the
    scheduler, clients and other executors act, and the network may lose a
    request or a reply.  What the executor does and what the session manager
    believes of it are related along every such run. *)
From stdpp Require Import pretty.
From S2P Require Import Connections Nodes Executors.
From S2P Require Import Prelude Types Session Filters Snapshot Events Engine Storage StorageInv Controller Frames Lifecycle.
From S2P Require Import Codes Rpc Frontend Backend Server Requests Worker Answers.
Local Open Scope Z_scope.

(** What the shims and the device managers answer to the [n]-th question. *)
Class Local := {
  shim_reply : nat -> forall B, shim_call B -> result B;
  device_reply : nat -> fem.Executor -> result unit
}.
Arguments shim_reply {_} _ {_} _.

Inductive delivery := Answered | RequestLost | ReplyLost.

Inductive pc :=
  | Between
  | Runs (p : prog fem.Executor)
  | Exited.

(** The task a shim was last given. *)
Definition invoked {B} (c : shim_call B) (last : option TaskContext) : option TaskContext :=
  match c with OnTaskInvoke _ ctx => Some ctx | _ => last end.

Section joint.
Context `{Env} `{Chrono} `{Durations} `{Schemas} `{Local} {E V : Type} `{Engine E} `{EventManager V}.
Variable cluster_default_resreq : option ResourceRequirement.
Variable error_text : FlameError -> string.
Variable wasm : bool.
Abbreviation K := (ConnectionManager (Storage E V)).
Implicit Types (id : string).

Record joint := mkJoint {
  j_sm : K;
  j_exec : fem.Executor;
  j_pc : pc;
  j_asked : nat;
  j_invoked : option TaskContext
}.

(** A call that waits goes on with the session it waits for. *)
Definition resumed {B} (c : sm_call B) (sm : K) : sm_call B :=
  match c in sm_call B return sm_call B with
  | SmLaunchTask id =>
      match st_executors (cm_callbacks sm) !! id ≫= ex_ssn_id with
      | Some ssn => SmLaunchNext id ssn
      | None => SmLaunchTask id
      end
  | c => c
  end.

Definition ask {B} (d : delivery) (c : sm_call B) (k : result B -> prog fem.Executor) (sm : K)
    : K * prog fem.Executor :=
  match d with
  | RequestLost => (sm, k (Err ENetwork))
  | ReplyLost => ((on_server c sm).2, k (Err ENetwork))
  | Answered =>
      match on_server c sm with
      | (Ready r, sm) => (sm, k r)
      | (Waiting, sm) => (sm, AskSm (resumed c sm) k)
      end
  end.

(** The steps of the worker, and of everything else. *)
Inductive joint_event :=
  | Turn
  | Asks (d : delivery)
  | Locally
  | Finishes
  | Others (ev : server_event).

(** The loop of [executor::start]; a turn that fails is repeated later. *)
Definition joint_apply (ev : joint_event) (j : joint) : option joint :=
  match ev, j_pc j with
  | Turn, Between =>
      Some (mkJoint (j_sm j) (j_exec j)
        (if bool_decide (fem.state (j_exec j) = ExecReleased) then Exited
         else Runs (execute error_text wasm (j_exec j))) (j_asked j) (j_invoked j))
  | Asks d, Runs (AskSm c k) =>
      let '(sm, p) := ask d c k (j_sm j) in
      Some (mkJoint sm (j_exec j) (Runs p) (j_asked j) (j_invoked j))
  | Locally, Runs (AskShim c k) =>
      Some (mkJoint (j_sm j) (j_exec j) (Runs (k (shim_reply (j_asked j) c))) (S (j_asked j))
        (invoked c (j_invoked j)))
  | Locally, Runs (NewShim k) =>
      Some (mkJoint (j_sm j) (j_exec j) (Runs (k (j_asked j))) (S (j_asked j)) (j_invoked j))
  | Locally, Runs (FreeDevices e k) =>
      Some (mkJoint (j_sm j) (j_exec j) (Runs (k (device_reply (j_asked j) e))) (S (j_asked j))
        (j_invoked j))
  | Finishes, Runs (Done r) =>
      Some (match r with
            | Ok next =>
                mkJoint (j_sm j)
                  (if bool_decide (fem.state (j_exec j) = ExecReleased) then j_exec j
                   else fem.update (j_exec j) next) Between (j_asked j) (j_invoked j)
            | Err _ => mkJoint (j_sm j) (j_exec j) Between (j_asked j) (j_invoked j)
            | Panic => mkJoint (j_sm j) (j_exec j) Exited (j_asked j) (j_invoked j)
            end)
  | Others ev, _ =>
      Some (mkJoint (server_step cluster_default_resreq ev (j_sm j)) (j_exec j) (j_pc j) (j_asked j)
        (j_invoked j))
  | _, _ => None
  end.

(** ** What others do *)

(** Nobody else speaks for the executor [id].  Without [churn] its node is not
    lost and reports it whenever it registers. *)
Definition spares (churn : bool) (id : string) (op : ctl_op) : Prop :=
  match op with
  | CRegisterExecutor e => ex_id e <> id
  | CBindCompleted i _ _ | CUnbindExecutor i | CUnbindCompleted i | CLaunchTask i | CLaunchNext i _
  | CCompleteTask i _ _ | CUnregisterExecutor i => i <> id
  | CRegisterNode _ reported => churn = true \/ id ∈ ex_id <$> reported
  | CFireTimer _ => churn = true
  | _ => True
  end.

(** A new executor gets an identifier of its own. *)
Definition outside (churn : bool) (id : string) (ev : server_event) (sm : K) : Prop :=
  match ev with
  | Served r => forall op, request_op r op -> spares churn id op
  | Internal_op (CCreateExecutor _ _) => new_uuid (st_uuids (cm_callbacks sm)) <> id
  | Internal_op op => spares churn id op
  end.

Definition admissible (churn lossy : bool) (id : string) (ev : joint_event) (j : joint) : Prop :=
  match ev with
  | Asks ReplyLost => lossy = true
  | Others ev => outside churn id ev (j_sm j)
  | _ => True
  end.

Inductive joint_reach (churn lossy : bool) (id : string) (j0 : joint) : joint -> Prop :=
  | jr_start : joint_reach churn lossy id j0 j0
  | jr_step ev j j' :
      joint_reach churn lossy id j0 j -> admissible churn lossy id ev j ->
      joint_apply ev j = Some j' -> joint_reach churn lossy id j0 j'.
End joint.
Arguments joint E V : clear implicits.
Arguments mkJoint {E V} _ _ _ _ _.

(** ** What the session manager does on its own *)

Inductive dstep (churn : bool) : option view -> option view -> Prop :=
  | d_bind st s t ssn : st = ExecIdle \/ st = ExecBinding ->
      dstep churn (Some (st, s, t)) (Some (ExecBinding, Some ssn, t))
  | d_release s t : dstep churn (Some (ExecIdle, s, t)) (Some (ExecReleasing, s, t))
  | d_orphan st s t : churn = true -> dstep churn (Some (st, s, t)) (Some (ExecReleasing, s, t))
  | d_lost v : churn = true -> dstep churn (Some v) None.

Abbreviation drift churn := (rtc (dstep churn)).

Section outside.
Context `{Env} `{Chrono} `{Durations} `{Schemas} {E V : Type} `{EngineSpec E} `{EventManager V}.
Context `{!Inj (=) (=) new_uuid}.
Variable cluster_default_resreq : option ResourceRequirement.
Abbreviation K := (ConnectionManager (Storage E V)).
Implicit Types k : K.

(** A transition that spares the executor is one the session manager makes on
    its own. *)
Lemma spares_dstep churn id op Q Q' :
  spares churn id op -> (forall node ssn, op <> CCreateExecutor node ssn) -> lstep op id Q Q' -> dstep churn Q Q'.
Proof.
  intros Hs Hc Hl. inversion Hl; subst; simpl in Hs; try done.
  - by destruct (Hc node ssn).
  - constructor. by left.
  - constructor. by right.
  - constructor.
  - destruct Hs; [by constructor|done].
  - by constructor.
Qed.

(** Creating an executor leaves the others. *)
Lemma create_executor_other node ssn id k :
  ctl_wf k -> new_uuid (st_uuids (cm_callbacks k)) <> id ->
  view_in (ctl_apply (CCreateExecutor node ssn) k) id = view_in k id.
Proof.
  intros [Hg Hd] Hne. simpl. set (x := cm_callbacks k) in *.
  destruct (create_executor_result node ssn (st_executors x) x) as [_ Hr]; [by split|].
  set (P := fun y : Storage E V => st_executors y !! id = st_executors x !! id).
  assert (P (Storage.create_executor node ssn x).2) as HP.
  { unfold P. destruct Hr as [->|(e & _ & _ & ->)]; [done|]. by rewrite lookup_insert_ne. }
  enough (onst P (create_executor node ssn k).2) as Ho by (unfold view_in; by rewrite Ho).
  apply wp_onst. unfold create_executor. apply wp_bind, wp_storage. fold x. unfold wp at 1.
  destruct (Storage.create_executor node ssn x) as [[e|err|] x']; simpl in *; try done.
  apply (wp_keeps (onst P)); [|done]. keeps_step; [apply keeps_attempt, onst_notify|by eauto with flame].
Qed.

Lemma outside_drift churn id ev k :
  ctl_wf k -> outside churn id ev k ->
  drift churn (view_in k id) (view_in (server_step cluster_default_resreq ev k) id).
Proof.
  intros Hk Ho. destruct ev as [r|op]; simpl in Ho |- *.
  - destruct (serve_moved cluster_default_resreq r k Hk) as (_ & _ & Hm).
    destruct (Hm id) as [Heq|(op & Hop & Hl)].
    + unfold view_in at 2. unfold view_st in Heq. by rewrite Heq.
    + apply rtc_once. eapply spares_dstep; [by apply Ho| |done]. intros node ssn ->. inversion Hop.
  - destruct (ctl_apply_view op k id Hk) as [->|Hl]; [done|].
    destruct op; try (apply rtc_once; eapply spares_dstep; done).
    by rewrite create_executor_other.
Qed.
End outside.

(** ** Following a program *)

(** A program follows the session manager: it asks only what is [allowed] in the
    view the session manager then has, and the executor it ends with, or the
    one it started from if it fails, [agrees] with that view. *)
Section follows.
Variable id : string.
Variables churn lossy : bool.
Variable agrees : ExecutorState -> option view -> Prop.
Variable allowed : forall B, sm_call B -> option TaskContext -> option view -> Prop.

Fixpoint follows (s0 : ExecutorState) (inv : option TaskContext) (Q : option view)
    (p : prog fem.Executor) : Prop :=
  match p with
  | Done (Ok e) => agrees (fem.state e) Q
  | Done (Err _) => agrees s0 Q
  | Done Panic => True
  | AskSm c k => forall Q1, drift churn Q Q1 ->
      call_id c = id /\ allowed _ c inv Q1 /\ follows s0 inv Q1 (k (Err ENetwork)) /\
      forall r Q2, post c Q1 r Q2 -> follows s0 inv Q2 (k r) /\
        (lossy = true -> follows s0 inv Q2 (k (Err ENetwork)))
  | AskShim c k => forall r, follows s0 (invoked c inv) Q (k r)
  | NewShim k => forall h, follows s0 inv Q (k h)
  | FreeDevices _ k => forall r, follows s0 inv Q (k r)
  end.

Hypothesis agrees_drift : forall s Q Q', agrees s Q -> dstep churn Q Q' -> agrees s Q'.
Hypothesis allowed_next : forall i ssn inv Q,
  allowed _ (SmLaunchTask i) inv Q -> allowed _ (SmLaunchNext i ssn) inv Q.

Lemma agrees_drifts s Q Q' : drift churn Q Q' -> agrees s Q -> agrees s Q'.
Proof. induction 1; eauto. Qed.

(** A program may be a step behind. *)
Lemma follows_drift s0 inv Q Q' p : drift churn Q Q' -> follows s0 inv Q p -> follows s0 inv Q' p.
Proof.
  intros Hd. revert inv. induction p as [[e|err|]|B c k _|B c k IH|k IH|e k IH]; intros inv Hp; simpl in *.
  - by eapply agrees_drifts.
  - by eapply agrees_drifts.
  - done.
  - intros Q1 HQ1. apply Hp. by etrans.
  - intros r. by apply IH.
  - intros h. by apply IH.
  - intros r. by apply IH.
Qed.

Context `{Env} `{Chrono} `{Durations} `{Schemas} `{Local} {E V : Type} `{EngineSpec E} `{EventManager V}.
Context `{!Inj (=) (=) new_uuid}.
Variable cluster_default_resreq : option ResourceRequirement.
Variable error_text : FlameError -> string.
Variable wasm : bool.
Abbreviation K := (ConnectionManager (Storage E V)).
Implicit Types j : joint E V.

Hypothesis execute_follows : forall e inv Q,
  fem.id e = id -> fem.state e <> ExecReleased -> agrees (fem.state e) Q -> follows (fem.state e) inv Q (execute error_text wasm e).

Definition sm_view j : option view := view_in (j_sm j) id.

Record joint_ok j : Prop := {
  jo_wf : ctl_wf (j_sm j);
  jo_execs : execs_ok (j_sm j);
  jo_id : fem.id (j_exec j) = id;
  jo_pc : match j_pc j with
          | Between => agrees (fem.state (j_exec j)) (sm_view j)
          | Runs p => fem.state (j_exec j) <> ExecReleased /\
                      follows (fem.state (j_exec j)) (j_invoked j) (sm_view j) p
          | Exited => True
          end
}.

Lemma follows_resumed {B} s0 inv Q (c : sm_call B) k (sm : K) :
  follows s0 inv Q (AskSm c k) -> follows s0 inv Q (AskSm (resumed c sm) k).
Proof.
  destruct c; try done. unfold resumed. destruct (_ ≫= ex_ssn_id); [|done]. intros Hp Q1 HQ1.
  destruct (Hp Q1 HQ1) as (Hid & Ha & He & Hk). split_and!; auto.
Qed.

Lemma ask_ok {B} d s0 inv (c : sm_call B) k (sm : K) :
  (d = ReplyLost -> lossy = true) -> ctl_wf sm -> execs_ok sm ->
  follows s0 inv (view_in sm id) (AskSm c k) ->
  let '(sm', p) := ask d c k sm in
  ctl_wf sm' /\ execs_ok sm' /\ follows s0 inv (view_in sm' id) p.
Proof.
  intros Hd Hw Hok Hp. pose proof (on_server_wf c sm Hw) as Hw'. pose proof (on_server_ok c sm Hw Hok) as Hok'.
  pose proof (on_server_post c sm) as Hpost. pose proof (on_server_waiting c sm) as Hwait.
  destruct (Hp _ (rtc_refl _ _)) as (Hid & _ & He & Hk). rewrite Hid in Hpost, Hwait.
  unfold ask. destruct d; [|done|].
  - destruct (on_server c sm) as [[r|] sm'] eqn:Hr; simpl in *; split_and!; try done.
    + by eapply Hk, Hpost.
    + rewrite (Hwait _ Hw eq_refl). by apply follows_resumed.
  - simpl. destruct (on_server c sm) as [[r|] sm'] eqn:Hr; simpl in *; split_and!; try done.
    + eapply Hk; [by apply Hpost|by apply Hd].
    + by rewrite (Hwait _ Hw eq_refl).
Qed.

Lemma joint_apply_ok ev j j' :
  joint_ok j -> admissible churn lossy id ev j ->
  joint_apply cluster_default_resreq error_text wasm ev j = Some j' -> joint_ok j'.
Proof.
  intros [Hw Hok Hid Hpc] Ha Hj. unfold sm_view in *.
  destruct ev as [|d| | |ev]; simpl in Hj, Ha.
  - destruct (j_pc j) as [| |]; try done. injection Hj as <-. split; try done. simpl.
    case_bool_decide; [done|]. split; [done|by apply execute_follows].
  - destruct (j_pc j) as [|[|B c k|B c k|k|e k]|]; try done. destruct Hpc as [Hr Hpc].
    assert (d = ReplyLost -> lossy = true) as Hd by (by destruct d).
    pose proof (ask_ok d _ _ c k (j_sm j) Hd Hw Hok Hpc) as Hask.
    destruct (ask d c k (j_sm j)) as [sm p]. injection Hj as <-. by destruct Hask as (? & ? & ?).
  - destruct (j_pc j) as [|[|B c k|B c k|k|e k]|]; try done; destruct Hpc as [Hr Hpc];
      injection Hj as <-; split; try done; (split; [done|apply Hpc]).
  - destruct (j_pc j) as [|[r| | | |]|]; try done. destruct Hpc as [Hr Hpc]. injection Hj as <-.
    rewrite bool_decide_eq_false_2 by done. by destruct r as [e|err|].
  - injection Hj as <-. assert (ctl_wf (server_step cluster_default_resreq ev (j_sm j))) as Hw'
      by (destruct ev; [by apply serve_wf|by apply ctl_apply_wf]).
    assert (execs_ok (server_step cluster_default_resreq ev (j_sm j))) as Hok'
      by (destruct ev; [by apply serve_ok|by apply ctl_apply_ok]).
    pose proof (outside_drift cluster_default_resreq churn id ev (j_sm j) Hw Ha) as Hd.
    split; try done. simpl. destruct (j_pc j); try done; [by eapply agrees_drifts|].
    split; [apply Hpc|]. eapply follows_drift; [done|apply Hpc].
Qed.

Lemma joint_reach_ok j0 j :
  joint_ok j0 -> joint_reach cluster_default_resreq error_text wasm churn lossy id j0 j -> joint_ok j.
Proof. intros H0'. induction 1 as [|ev j j' _ IH Ha Hj]; [done|]. by eapply joint_apply_ok. Qed.
End follows.

(** ** The states that bind and release *)

(** What an instance shows of the phases of [idle_execute] and
    [releasing_execute]: when it asks for a session, when it was given one, and
    when it unregisters. *)
Section phases.
Variable id : string.
Variables churn lossy : bool.
Variable agrees : ExecutorState -> option view -> Prop.
Variable allowed : forall B, sm_call B -> option TaskContext -> option view -> Prop.
Variable error_text : FlameError -> string.
Variable wasm : bool.
Abbreviation fol := (follows id churn lossy agrees allowed).

Variables asks given ends : option view -> Prop.
Hypothesis asks_drift : forall Q Q1, drift churn Q Q1 -> asks Q -> asks Q1.
Hypothesis given_drift : forall Q Q1, drift churn Q Q1 -> given Q -> given Q1.
Hypothesis ends_drift : forall Q Q1, drift churn Q Q1 -> ends Q -> ends Q1.
Hypothesis asks_idle : forall inv Q, asks Q ->
  agrees ExecIdle Q /\ allowed _ (SmBindExecutor id) inv Q /\
  forall r, post (SmBindExecutor id) Q r Q ->
    match r with
    | Ok (Some _, Some _) => given Q
    | Ok _ => agrees ExecReleasing Q
    | _ => True
    end.
Hypothesis given_idle : forall Q, given Q -> agrees ExecIdle Q /\ agrees ExecReleasing Q.
Hypothesis given_report : forall inv Q res a,
  given Q -> (bind_ok res = false -> a = None) ->
  allowed _ (SmBindCompleted id res a) inv Q /\
  forall r Q', post (SmBindCompleted id res a) Q r Q' ->
    match r with
    | Ok _ => agrees (if bind_ok res then ExecBound else ExecUnbinding) Q' /\
              (lossy = true -> agrees ExecIdle Q')
    | _ => agrees ExecIdle Q'
    end.
Hypothesis ends_unregister : forall inv Q, ends Q ->
  agrees ExecReleasing Q /\ allowed _ (SmUnregisterExecutor id) inv Q /\
  forall r Q', post (SmUnregisterExecutor id) Q r Q' ->
    match r with
    | Ok _ => agrees ExecReleased Q' /\ (lossy = true -> agrees ExecReleasing Q')
    | _ => agrees ExecReleasing Q'
    end.

Lemma bind_completed_fol inv Q e res a e' :
  fem.id e = id -> given Q -> (bind_ok (result_to <$> res) = false -> a = None) ->
  fem.state e' = (if bind_ok (result_to <$> res) then ExecBound else ExecUnbinding) ->
  fol ExecIdle inv Q (client_bind_executor_completed e res a ≫= fun _ => mret e').
Proof.
  intros Hid HQ Ha He' Q1 Hd. pose proof (given_drift _ _ Hd HQ) as H1. simpl call_id. rewrite Hid.
  destruct (given_report inv Q1 (result_to <$> res) a H1 Ha) as [Hal Hp].
  split_and!; [done|done|by apply given_idle|]. intros r Q2 Hr. specialize (Hp r Q2 Hr).
  destruct r as [u|err|]; simpl; [|done..]. by rewrite He'.
Qed.

Lemma bind_failed_fol inv Q code message ssn e :
  fem.id e = id -> given Q -> code <> 0 ->
  fol ExecIdle inv Q (bind_executor_failed code message ssn e).
Proof.
  intros Hid HQ Hc. apply bind_completed_fol; try done.
  simpl. unfold BIND_RESULT_OK. by rewrite (proj2 (Z.eqb_neq _ _)).
Qed.

Lemma enter_session_fol inv Q h ssn e :
  fem.id e = id -> given Q -> fol ExecIdle inv Q (enter_session error_text h ssn e).
Proof.
  intros Hid HQ r. destruct r as [attributes|err|]; [|by apply bind_failed_fol|done].
  by apply bind_completed_fol.
Qed.

Lemma create_instance_fol inv Q h ssn e :
  fem.id e = id -> fem.state e = ExecIdle -> given Q ->
  fol ExecIdle inv Q
    (created ← create_instance h e;
     match created with
     | (Ok _, e) => enter_session error_text h ssn e
     | (Err error, e) =>
         if bool_decide (fem.state e = ExecReleasing) then mret e
         else bind_executor_failed BIND_RESULT_SHIM_CREATE_FAILED
                ("shim service creation failed: " +:+ error_text error) ssn e
     | (Panic, _) => Done Panic
     end).
Proof.
  intros Hid Hst HQ r. destruct r as [u|err|]; [by apply enter_session_fol| |done].
  intros r. destruct r as [u|error|]; [| |done].
  - change (fol ExecIdle inv Q (if bool_decide (fem.state e = ExecReleasing) then mret (fem.with_instance None (fem.with_instance (Some h) e))
      else bind_executor_failed BIND_RESULT_SHIM_CREATE_FAILED
             ("shim service creation failed: " +:+ error_text err) ssn
             (fem.with_instance None (fem.with_instance (Some h) e)))).
    rewrite bool_decide_eq_false_2 by (by rewrite Hst). by apply bind_failed_fol.
  - by apply given_idle.
Qed.

Lemma enter_with_new_instance_fol inv Q ssn e :
  fem.id e = id -> fem.state e = ExecIdle -> given Q ->
  fol ExecIdle inv Q (enter_with_new_instance error_text wasm ssn e).
Proof.
  intros Hid Hst HQ. unfold enter_with_new_instance, shims_new_ptr.
  destruct (fem.shim e); [|destruct wasm|];
    first [by apply bind_failed_fol|intros h; by apply (create_instance_fol inv Q h ssn e)].
Qed.

Lemma bind_to_fol inv Q ssn e :
  fem.id e = id -> fem.state e = ExecIdle -> given Q -> fol ExecIdle inv Q (bind_to error_text wasm ssn e).
Proof.
  intros Hid Hst HQ. pose proof (given_idle Q HQ) as [Hi _]. unfold bind_to.
  destruct (negb _); [done|]. destruct (fem.shim_instance e) as [h|]; [by apply enter_session_fol|].
  destruct (negb _); [done|]. by apply enter_with_new_instance_fol.
Qed.

Lemma idle_fol inv Q e :
  fem.id e = id -> fem.state e = ExecIdle -> asks Q -> fol ExecIdle inv Q (idle_execute error_text wasm e).
Proof.
  intros Hid Hst HQ Q1 Hd. pose proof (asks_drift _ _ Hd HQ) as H1. simpl call_id. rewrite Hid.
  destruct (asks_idle inv Q1 H1) as (Hi & Ha & Hp). split_and!; [done..|].
  intros r Q2 Hr. assert (Q2 = Q1) as -> by apply Hr. specialize (Hp r Hr). split; [|done].
  destruct r as [[[app|] [ssn|]]|err|]; try done.
  change (fol ExecIdle inv Q1 (o ← (ctx ← Done (session_context_try_from app ssn); mret (Some ctx));
    match o with
    | None => mret (fem.with_state ExecReleasing (fem.with_session None e))
    | Some ctx => bind_to error_text wasm ctx e
    end)).
  destruct (session_context_try_from app ssn) as [ctx|err|]; [|done..]. by apply (bind_to_fol inv Q1 ctx e).
Qed.

Lemma unregister_fol inv Q e :
  fem.id e = id -> ends Q ->
  fol ExecReleasing inv Q (client_unregister_executor e ≫= fun _ => mret (fem.release e)).
Proof.
  intros Hid HQ Q1 Hd. pose proof (ends_drift _ _ Hd HQ) as H1. simpl call_id. rewrite Hid.
  destruct (ends_unregister inv Q1 H1) as (Hr & Ha & Hp). split_and!; [done..|].
  intros r Q2 Hr2. specialize (Hp r Q2 Hr2). by destruct r.
Qed.

Lemma free_devices_fol inv Q e :
  fem.id e = id -> ends Q ->
  fol ExecReleasing inv Q
    ((if fem.dev_mgr e then FreeDevices e Done else mret tt) ≫= fun _ =>
     client_unregister_executor e ≫= fun _ => mret (fem.release e)).
Proof.
  intros Hid HQ. destruct (fem.dev_mgr e); [|by apply unregister_fol].
  intros r. destruct r; [by apply unregister_fol| |done]. by apply (ends_unregister None).
Qed.

Lemma releasing_fol inv Q e :
  fem.id e = id -> ends Q -> fol ExecReleasing inv Q (releasing_execute wasm e).
Proof.
  intros Hid HQ. pose proof (proj1 (ends_unregister None Q HQ)) as Hr. unfold releasing_execute.
  destruct (fem.shim_instance e) as [h|].
  - intros r. destruct r; [by apply free_devices_fol|done..].
  - destruct (fem.shim e) eqn:Hs; [by apply free_devices_fol..|]. unfold shims_new_ptr. rewrite Hs.
    intros h r. destruct r; [by apply free_devices_fol|done..].
Qed.
End phases.

(** ** In step *)

(** The states the session manager can have an executor in. *)
Definition in_step (s : ExecutorState) (Q : option view) : Prop :=
  match s with
  | ExecVoid => state_of Q = Some ExecVoid
  | ExecIdle | ExecBinding => state_of Q ∈ [Some ExecIdle; Some ExecBinding; Some ExecReleasing]
  | ExecBound => state_of Q = Some ExecBound
  | ExecUnbinding => state_of Q ∈ [Some ExecBound; Some ExecUnbinding]
  | ExecReleasing => state_of Q ∈ [None; Some ExecBinding; Some ExecReleasing]
  | ExecReleased | ExecUnknown => True
  end.

(** The states in which the session manager accepts a call. *)
Definition accepts {B} (c : sm_call B) (Q : option view) : Prop :=
  match c with
  | SmRegisterExecutor _ _ => state_of Q = Some ExecVoid
  | SmBindExecutor _ => is_Some Q
  | SmBindCompleted _ _ _ => state_of Q = Some ExecBinding
  | SmUnbindExecutor _ => state_of Q ∈ [Some ExecBinding; Some ExecBound; Some ExecUnbinding]
  | SmUnbindCompleted _ => state_of Q ∈ [Some ExecBinding; Some ExecUnbinding]
  | SmLaunchTask _ | SmLaunchNext _ _ => state_of Q = Some ExecBound
  | SmCompleteTask _ _ _ => state_of Q = Some ExecBound
  | SmUnregisterExecutor _ => state_of Q ∈ [None; Some ExecBinding; Some ExecReleasing]
  end.

Lemma drift_state Q Q' :
  drift false Q Q' -> state_of Q' = state_of Q \/
    state_of Q = Some ExecIdle /\ state_of Q' ∈ [Some ExecBinding; Some ExecReleasing].
Proof.
  induction 1 as [|Q1 Q2 Q3 Hs _ IH]; [by left|].
  inversion Hs as [st s t ssn Hst|s t| |]; subst; simpl in *; try done.
  - destruct IH as [->|[? _]]; [|done]. destruct Hst as [->| ->]; [right; set_solver|by left].
  - destruct IH as [->|[? _]]; [|done]. right. set_solver.
Qed.

Lemma in_step_drift s Q Q' : in_step s Q -> dstep false Q Q' -> in_step s Q'.
Proof.
  intros Hs Hd. destruct (drift_state Q Q' (rtc_once _ _ Hd)) as [Heq|[HQ HQ']].
  - destruct s; simpl in *; rewrite ?Heq; done.
  - destruct s; simpl in *; rewrite ?HQ in Hs; set_solver.
Qed.

Section in_step.
Variable id : string.
Variable error_text : FlameError -> string.
Variable wasm : bool.
Abbreviation fol := (follows id false false in_step (fun B c _ Q => accepts c Q)).

Lemma drift_fixed Q Q' : drift false Q Q' -> state_of Q <> Some ExecIdle -> state_of Q' = state_of Q.
Proof. intros Hd Hs. by destruct (drift_state Q Q' Hd) as [|[? _]]. Qed.

Lemma void_fol inv Q e :
  fem.id e = id -> in_step ExecVoid Q -> fol ExecVoid inv Q (void_execute e).
Proof.
  intros Hid HQ Q1 Hd. pose proof (agrees_drifts false in_step in_step_drift _ _ _ Hd HQ) as H1.
  split_and!; [done..|]. intros r Q2 Hp. split; [|done].
  destruct r as [u|err|]; simpl in *; [destruct Hp as (s & t & _ & ->); simpl; set_solver|by rewrite Hp|done].
Qed.

(** The report of a task, bound. *)
Lemma complete_fol inv Q e task_result attributes (e' : fem.Executor) :
  fem.id e = id -> state_of Q = Some ExecBound -> fem.state e' ∈ [ExecBound; ExecUnbinding] ->
  fol ExecBound inv Q (client_complete_task e task_result attributes ≫= fun _ => mret e').
Proof.
  intros Hid HQ He'. unfold client_complete_task. destruct (task_result_try_into task_result) as [r|err|];
    [|done..]. intros Q1 Hd. pose proof (drift_fixed Q Q1 Hd ltac:(by rewrite HQ)) as H1. rewrite HQ in H1.
  simpl. split_and!; [done..|]. intros res Q2 Hp. split; [|done]. rewrite H1 in Hp.
  destruct res; simpl; [|done..]. destruct (fem.state e'); simpl; set_solver.
Qed.

Lemma invoke_task_fol inv Q h ctx e :
  fem.id e = id -> fem.state e = ExecBound -> state_of Q = Some ExecBound ->
  fol ExecBound inv Q (invoke_task error_text h ctx e).
Proof.
  intros Hid Hst HQ r. destruct r as [[task_result attributes]|err|]; [..|done].
  - apply (complete_fol _ Q e task_result attributes); [done..|]. rewrite <-Hst. set_solver.
  - apply (complete_fol _ Q (fem.with_state ExecUnbinding e)); [done..|]. set_solver.
Qed.

Lemma bound_fol inv Q e :
  fem.id e = id -> fem.state e = ExecBound -> in_step ExecBound Q ->
  fol ExecBound inv Q (bound_execute error_text e).
Proof.
  intros Hid Hst HQ. unfold bound_execute. destruct (fem.shim_instance e) as [h|]; [|done].
  intros Q1 Hd. pose proof (drift_fixed Q Q1 Hd ltac:(by rewrite HQ)) as H1. rewrite HQ in H1.
  split_and!; [done..|]. intros r Q2 [Hs _]. rewrite H1 in Hs. split; [|done].
  destruct r as [[tk|]|err|]; [|simpl; set_solver|done..].
  cbn -[follows]. destruct (task_context_try_from tk) as [ctx|err|]; [|done..].
  by apply (invoke_task_fol inv Q2 h ctx (fem.with_task (Some ctx) e)).
Qed.

Lemma unbinding_fol inv Q e :
  fem.id e = id -> in_step ExecUnbinding Q -> fol ExecUnbinding inv Q (unbinding_execute e).
Proof.
  intros Hid HQ. assert (fol ExecUnbinding inv Q (client_unbind_executor e ≫= fun _ => leave_session e ≫= fun _ =>
    client_unbind_executor_completed e ≫= fun _ => mret (unbind_completed e))) as Hf.
  { intros Q1 Hd. pose proof (agrees_drifts false in_step in_step_drift _ _ _ Hd HQ) as H1.
    split_and!; [done|simpl in *; set_solver|done|]. intros r Q2 Hp. split; [|done].
    destruct r as [u|err|]; simpl in Hp |- *; [|by rewrite Hp|done].
    destruct Hp as (st & s & t & s' & t' & _ & -> & _).
    assert (forall inv', fol ExecUnbinding inv' (Some (ExecUnbinding, s', t'))
      (client_unbind_executor_completed e ≫= fun _ => mret (unbind_completed e))) as Hc.
    { intros inv' Q3 Hd3. pose proof (drift_fixed _ Q3 Hd3 ltac:(done)) as H3. simpl in H3.
      split_and!; [done|simpl; set_solver|simpl; set_solver|]. intros r Q4 Hp. split; [|done].
      destruct r as [u'|err|]; simpl in Hp |- *; [|rewrite Hp; set_solver|done].
      destruct Hp as (? & ? & ? & _ & -> & _). simpl. set_solver. }
    unfold leave_session. destruct (fem.shim_instance e) as [h|]; [|apply Hc].
    intros r. destruct r; [apply Hc..|done]. }
  unfold unbinding_execute. by destruct (fem.session e), (fem.shim_instance e).
Qed.

Lemma idle_in_step inv Q e :
  fem.id e = id -> fem.state e = ExecIdle -> in_step ExecIdle Q ->
  fol ExecIdle inv Q (idle_execute error_text wasm e).
Proof.
  intros Hid Hst HQ.
  apply (idle_fol id false false in_step _ error_text wasm (in_step ExecIdle) (fun Q => state_of Q = Some ExecBinding)); try done.
  - intros Q1 Q2 Hd. by apply (agrees_drifts false in_step in_step_drift).
  - intros Q1 Q2 Hd H1. rewrite <-H1. apply drift_fixed; [done|by rewrite H1].
  - intros inv' Q1 H1. split; [done|]. split; [destruct Q1; [by eexists|simpl in H1; set_solver]|].
    intros r [_ Hp]. destruct r as [[[app|] [ssn|]]|err|]; try done;
      destruct Hp as (st & s & t & -> & ? & ?); simpl in *; set_solver.
  - intros Q1 H1. simpl. rewrite H1. set_solver.
  - intros inv' Q1 res a H1 Ha. split; [done|]. intros r Q2 Hp. destruct r as [u|err|]; simpl in Hp |- *.
    + destruct Hp as (s & t & -> & ->). split; [|done]. destruct (bind_ok res); simpl; set_solver.
    + destruct Hp as [->|[Hn Hb]]; [rewrite H1; set_solver|]. by destruct Hn; apply Ha.
    + destruct Hp as [->|[Hn Hb]]; [rewrite H1; set_solver|]. by destruct Hn; apply Ha.
Qed.

Lemma releasing_in_step inv Q e :
  fem.id e = id -> in_step ExecReleasing Q -> fol ExecReleasing inv Q (releasing_execute wasm e).
Proof.
  intros Hid HQ. apply (releasing_fol id false false in_step _ wasm (in_step ExecReleasing)); try done.
  - intros Q1 Q2 Hd. by apply (agrees_drifts false in_step in_step_drift).
  - intros inv' Q1 H1. split_and!; [done..|]. intros r Q2 Hp.
    destruct r as [u|err|]; simpl in Hp |- *; [done|..]; (destruct Hp as [->|[-> _]]; [done|simpl; set_solver]).
Qed.

Lemma execute_in_step e inv Q :
  fem.id e = id -> fem.state e <> ExecReleased -> in_step (fem.state e) Q ->
  fol (fem.state e) inv Q (execute error_text wasm e).
Proof.
  intros Hid Hr HQ. unfold execute. destruct (fem.state e) eqn:Hst; try done.
  - simpl. by rewrite Hst.
  - by apply void_fol.
  - by apply idle_in_step.
  - by apply bound_fol.
  - by apply unbinding_fol.
  - by apply releasing_in_step.
Qed.
End in_step.

(** ** Tasks and results *)

(** The result of a task is reported while the executor holds that task. *)
Definition reports_own {B} (c : sm_call B) (inv : option TaskContext) (Q : option view) : Prop :=
  match c with
  | SmCompleteTask _ _ _ =>
      exists st s t ctx, Q = Some (st, Some s, Some t) /\ inv = Some ctx /\
        tc_task_id ctx = pretty t /\ tc_session_id ctx = s
  | _ => True
  end.

Section reports.
Variable id : string.
Variable error_text : FlameError -> string.
Variable wasm : bool.
Abbreviation fol := (follows id false true (fun _ _ => True) (fun B c => reports_own c)).

(** Nothing happens to an executor at work. *)
Lemma drift_same st s t Q :
  st <> ExecIdle -> st <> ExecBinding -> drift false (Some (st, s, t)) Q -> Q = Some (st, s, t).
Proof.
  intros Hi Hb Hd. inversion Hd as [|? ? ? Hs _]; subst; [done|].
  by inversion Hs as [? ? ? ? [->| ->]| | |]; subst.
Qed.

Lemma complete_reports st s t ctx e task_result attributes e' s0 :
  fem.id e = id -> st <> ExecIdle -> st <> ExecBinding -> tc_task_id ctx = pretty t -> tc_session_id ctx = s ->
  fol s0 (Some ctx) (Some (st, Some s, Some t)) (client_complete_task e task_result attributes ≫= fun _ => mret e').
Proof.
  intros Hid Hi Hb Ht Hs. unfold client_complete_task.
  destruct (task_result_try_into task_result) as [r|err|]; [|done..].
  intros Q1 Hd. apply drift_same in Hd as ->; [|done..].
  split_and!; [done|by exists st, s, t, ctx|done|]. intros res Q2 _. by destruct res.
Qed.

Lemma invoke_reports st s t ctx e h inv s0 :
  fem.id e = id -> st <> ExecIdle -> st <> ExecBinding -> tc_task_id ctx = pretty t -> tc_session_id ctx = s ->
  fol s0 inv (Some (st, Some s, Some t)) (invoke_task error_text h ctx e).
Proof.
  intros Hid Hi Hb Ht Hs r. destruct r as [[task_result attributes]|err|]; [..|done]; by apply complete_reports.
Qed.

Lemma bound_reports inv Q e :
  fem.id e = id -> fol ExecBound inv Q (bound_execute error_text e).
Proof.
  intros Hid. unfold bound_execute. destruct (fem.shim_instance e) as [h|]; [|done].
  intros Q1 Hd. split_and!; [done..|]. intros r Q2 [_ Hp]. split; [|done].
  destruct r as [[tk|]|err|]; [|done..]. destruct Hp as (st & s & t & -> & Hi & Hb & Hm & Hsp).
  cbn -[follows invoke_task]. unfold task_context_try_from.
  destruct (rpc.t_metadata tk) as [m|]; [|done]. destruct (rpc.t_spec tk) as [sp|]; [|done].
  injection Hm as Hm. injection Hsp as Hsp.
  by apply (invoke_reports st s t (mkTaskContext (rpc.md_id m) (rpc.tsp_session_id sp) (rpc.tsp_input sp))).
Qed.

Lemma execute_reports e inv Q :
  fem.id e = id -> fem.state e <> ExecReleased -> True -> fol (fem.state e) inv Q (execute error_text wasm e).
Proof.
  intros Hid Hr _. unfold execute. destruct (fem.state e) eqn:Hst; try done.
  - intros Q1 Hd. split_and!; [done..|]. intros r Q2 _. by destruct r.
  - apply (idle_fol id false true _ _ error_text wasm (fun _ => True) (fun _ => True)); try done.
    + intros. split_and!; [done..|]. by intros [[[] []]| |].
    + intros. split; [done|]. by intros [].
  - by apply bound_reports.
  - assert (forall inv' Q', fol ExecUnbinding inv' Q' (client_unbind_executor_completed e ≫= fun _ =>
      mret (unbind_completed e))) as Hc.
    { intros inv' Q' Q1 _. split_and!; [done..|]. intros r Q2 _. by destruct r. }
    assert (fol ExecUnbinding inv Q (client_unbind_executor e ≫= fun _ => leave_session e ≫= fun _ =>
      client_unbind_executor_completed e ≫= fun _ => mret (unbind_completed e))) as Hf.
    { intros Q1 _. split_and!; [done..|]. intros r Q2 _. split; [|done]. destruct r as [u|err|]; [|done..].
      unfold leave_session. destruct (fem.shim_instance e) as [h|]; [|apply Hc]. intros r. destruct r; [apply Hc..|done]. }
    unfold unbinding_execute. by destruct (fem.session e), (fem.shim_instance e).
  - apply (releasing_fol id false true _ _ wasm (fun _ => True)); try done. intros. split_and!; [done..|]. by intros [].
Qed.
End reports.

(** ** Stranded executors *)

(** A registered executor whose worker does not know it. *)
Definition void_stranded (s : ExecutorState) (Q : option view) : Prop :=
  s = ExecVoid /\ state_of Q <> Some ExecVoid.

(** A bound executor whose worker does not know it. *)
Definition bound_stranded (s : ExecutorState) (Q : option view) : Prop :=
  s ∈ [ExecIdle; ExecReleasing] /\ state_of Q = Some ExecBound.

(** No task is asked for. *)
Definition launches {B} (c : sm_call B) : bool :=
  match c with SmLaunchTask _ | SmLaunchNext _ _ => true | _ => false end.

Section stranded.
Variable id : string.
Variable error_text : FlameError -> string.
Variable wasm : bool.

Lemma void_stranded_drift s Q Q' : void_stranded s Q -> dstep true Q Q' -> void_stranded s Q'.
Proof. intros [-> HQ] Hd. split; [done|]. by inversion Hd; subst. Qed.

Lemma execute_void_stranded e inv Q :
  fem.id e = id -> fem.state e <> ExecReleased -> void_stranded (fem.state e) Q ->
  follows id true true void_stranded (fun _ _ _ _ => True) (fem.state e) inv Q (execute error_text wasm e).
Proof.
  intros Hid Hr [Hst HQ]. unfold execute. rewrite Hst. intros Q1 Hd.
  destruct (agrees_drifts true void_stranded void_stranded_drift ExecVoid Q Q1 Hd (conj eq_refl HQ)) as [_ H1].
  split_and!; [done..|]. intros r Q2 Hp. destruct r as [u|err|]; simpl in Hp |- *.
  - destruct Hp as (s & t & -> & _). by destruct H1.
  - by rewrite Hp.
  - by rewrite Hp.
Qed.

Lemma bound_stranded_drift s Q Q' : bound_stranded s Q -> dstep false Q Q' -> bound_stranded s Q'.
Proof.
  intros [Hs HQ] Hd. split; [done|]. rewrite <-HQ. apply drift_fixed; [by apply rtc_once|by rewrite HQ].
Qed.

Abbreviation fol :=
  (follows id false true bound_stranded (fun B c _ _ => launches c = false)).

Lemma stranded_fixed Q Q1 : drift false Q Q1 -> state_of Q = Some ExecBound -> state_of Q1 = Some ExecBound.
Proof. intros Hd HQ. rewrite <-HQ. apply drift_fixed; [done|by rewrite HQ]. Qed.

Lemma execute_bound_stranded e inv Q :
  fem.id e = id -> fem.state e <> ExecReleased -> bound_stranded (fem.state e) Q ->
  fol (fem.state e) inv Q (execute error_text wasm e).
Proof.
  intros Hid Hr [Hst HQ]. set (at_work := fun Q : option view => state_of Q = Some ExecBound).
  assert (forall s Q', s ∈ [ExecIdle; ExecReleasing] -> at_work Q' -> bound_stranded s Q') as Hs by (by split).
  unfold execute. destruct (fem.state e) eqn:He; try set_solver.
  - apply (idle_fol id false true _ _ error_text wasm at_work at_work); try done; try apply stranded_fixed.
    + intros inv' Q1 H1. split_and!; [apply Hs; set_solver|done|]. intros r _.
      destruct r as [[[app|] [ssn|]]|err|]; try done; apply Hs; set_solver.
    + intros Q1 H1. split; apply Hs; set_solver.
    + intros inv' Q1 res a H1 Ha. split; [done|]. unfold at_work in H1. intros r Q2 Hp. destruct r as [u|err|]; simpl in Hp.
      * destruct Hp as (s & t & -> & _). done.
      * destruct Hp as [->|[Hn Hb]]; [apply Hs; set_solver|by destruct Hn; apply Ha].
      * destruct Hp as [->|[Hn Hb]]; [apply Hs; set_solver|by destruct Hn; apply Ha].
  - apply (releasing_fol id false true _ _ wasm at_work); try done; try apply stranded_fixed.
    intros inv' Q1 H1. split_and!; [apply Hs; set_solver|done|]. unfold at_work in H1. intros r Q2 Hp.
    assert (Q2 = Q1) as ->; [|destruct r; [destruct Hp as [-> _]; done|apply Hs; set_solver..]].
    destruct r as [u|err|]; simpl in Hp.
    + destruct Hp as [_ [->|(st & s & t & -> & ?)]]; simpl in *; set_solver.
    + destruct Hp as [->|[_ [->|(st & s & t & -> & ?)]]]; simpl in *; [done|set_solver..].
    + destruct Hp as [->|[_ [->|(st & s & t & -> & ?)]]]; simpl in *; [done|set_solver..].
Qed.
End stranded.

(** ** Along every run *)

Section fleet.
Context `{Env} `{Chrono} `{Durations} `{Schemas} `{Local} {E V : Type} `{EngineSpec E} `{EventManager V}.
Context `{!Inj (=) (=) new_uuid}.
Variable cluster_default_resreq : option ResourceRequirement.
Variable error_text : FlameError -> string.
Variable wasm : bool.
Abbreviation K := (ConnectionManager (Storage E V)).
Abbreviation reach := (joint_reach (E := E) (V := V) cluster_default_resreq error_text wasm).
Abbreviation sm_state id j := (view_in (j_sm j) id).
Implicit Types (id : string) (j : joint E V).

(** The state object of the executor has an operation of its own for the call;
    an executor that is gone may be unregistered again. *)
Definition handled {B} (c : sm_call B) (sm : K) : Prop :=
  match st_executors (cm_callbacks sm) !! call_id c with
  | None => match c with SmUnregisterExecutor _ => True | _ => False end
  | Some e => exists st : States E V, Executors.from e = Ok st /\
      match c with
      | SmRegisterExecutor _ _ => Executors.register_executor st = enter ExecIdle
      | SmBindExecutor _ => True
      | SmBindCompleted _ _ _ => Executors.bind_session_completed st = binding_completed
      | SmUnbindExecutor _ =>
          Executors.unbind_executor st = enter ExecUnbinding \/
          Executors.unbind_executor st = enter_unbound ExecUnbinding
      | SmUnbindCompleted _ => Executors.unbind_executor_completed st = enter_unbound ExecIdle
      | SmLaunchTask _ | SmLaunchNext _ _ => Executors.launch_task st = bound_launch_task
      | SmCompleteTask _ _ _ => Executors.complete_task st = bound_complete_task
      | SmUnregisterExecutor _ =>
          Executors.unregister_executor st = enter_unbound ExecReleased \/
          Executors.unregister_executor st = enter ExecReleased
      end
  end.

Lemma accepts_handled {B} (c : sm_call B) (sm : K) :
  execs_ok sm -> accepts c (view_in sm (call_id c)) -> handled c sm.
Proof.
  intros Hok. specialize (Hok (call_id c)). revert Hok. unfold view_in, handled.
  destruct (st_executors (cm_callbacks sm) !! call_id c) as [e|]; simpl.
  - intros Hok. specialize (Hok _ eq_refl). revert Hok. unfold view_of, Executors.from. simpl. intros Hok Ha.
    destruct c; simpl in Ha; destruct (ex_state e); try done;
      first [by eexists|eexists; split; [done|by left]|eexists; split; [done|by right]|set_solver].
  - intros _ Ha. destruct c; simpl in Ha; try done; try (by destruct Ha); set_solver.
Qed.

(** What holds when the loop of the worker is between two turns, and at every
    question it asks. *)
Lemma joint_reach_between churn lossy agrees (allowed : forall B, sm_call B -> option TaskContext -> option view -> Prop) id j0 j :
  (forall s Q Q', agrees s Q -> dstep churn Q Q' -> agrees s Q') ->
  (forall i ssn inv Q, allowed _ (SmLaunchTask i) inv Q -> allowed _ (SmLaunchNext i ssn) inv Q) ->
  (forall e inv Q, fem.id e = id -> fem.state e <> ExecReleased -> agrees (fem.state e) Q ->
     follows id churn lossy agrees allowed (fem.state e) inv Q (execute error_text wasm e)) ->
  ctl_wf (j_sm j0) -> execs_ok (j_sm j0) -> fem.id (j_exec j0) = id -> j_pc j0 = Between ->
  agrees (fem.state (j_exec j0)) (sm_state id j0) -> reach churn lossy id j0 j ->
  ctl_wf (j_sm j) /\ execs_ok (j_sm j) /\
  match j_pc j with
  | Between => agrees (fem.state (j_exec j)) (sm_state id j)
  | Runs (AskSm c k) => call_id c = id /\ allowed _ c (j_invoked j) (sm_state id j)
  | _ => True
  end.
Proof.
  intros Had Hal Hex Hw Hok Hid Hpc Hag Hj.
  assert (joint_ok id churn lossy agrees allowed j0) as H0' by (split; try done; by rewrite Hpc).
  destruct (joint_reach_ok id churn lossy agrees allowed Had Hal cluster_default_resreq error_text wasm Hex j0 j H0' Hj)
    as [Hw' Hok' _ Hpc']. split_and!; [done..|].
  destruct (j_pc j) as [|[| B c k| | |]|]; try done. destruct Hpc' as [_ Hf].
  destruct (Hf _ (rtc_refl _ _)) as (? & ? & _). done.
Qed.

(** Whatever is lost, the session manager stays consistent. *)
Lemma joint_reach_wf id j0 j :
  ctl_wf (j_sm j0) -> execs_ok (j_sm j0) -> fem.id (j_exec j0) = id -> j_pc j0 = Between ->
  reach false true id j0 j -> ctl_wf (j_sm j) /\ execs_ok (j_sm j).
Proof.
  intros Hw Hok Hid Hpc Hj.
  destruct (joint_reach_between false true (fun _ _ => True) (fun B c => reports_own c) id j0 j)
    as (? & ? & _); try done. intros e' inv Q. apply execute_reports.
Qed.

(** C1 [safety] While no reply is lost (requests may be), and the node of the
    executor stays and reports it, worker and session manager stay in step:
    between two turns the state of the worker is one the session manager's state
    allows, and every call the worker makes is one the state object of the
    executor has an operation for, so that none is refused for the state.  This
    is for every interleaving with clients, the scheduler, other nodes and other
    executors, and for whatever the shims and the devices answer. *)
Theorem executor_in_step id j0 j :
  ctl_wf (j_sm j0) -> execs_ok (j_sm j0) -> fem.id (j_exec j0) = id -> j_pc j0 = Between ->
  in_step (fem.state (j_exec j0)) (sm_state id j0) -> reach false false id j0 j ->
  match j_pc j with
  | Between => in_step (fem.state (j_exec j)) (sm_state id j)
  | Runs (AskSm c k) => call_id c = id /\ handled c (j_sm j)
  | _ => True
  end.
Proof.
  intros Hw Hok Hid Hpc Hs Hj.
  destruct (joint_reach_between false false in_step (fun B c _ Q => accepts c Q) id j0 j) as (_ & Hok' & Hj'); try done.
  - apply in_step_drift.
  - intros e inv Q. apply execute_in_step.
  - destruct (j_pc j) as [|[| B c k| | |]|]; try done. destruct Hj' as [Hc Ha]. split; [done|].
    apply accepts_handled; [done|]. by rewrite Hc.
Qed.


(** [safety] A reply that is lost strands its executor.  Once the session
    manager has registered an executor whose worker is still Void, the worker
    stays Void, whatever happens; once it has bound an executor whose worker is
    still Idle, and while the node stays, it keeps it Bound, and the worker never
    asks for a task. *)
Theorem lost_reply_strands id j0 j :
  ctl_wf (j_sm j0) -> execs_ok (j_sm j0) -> fem.id (j_exec j0) = id -> j_pc j0 = Between ->
  (void_stranded (fem.state (j_exec j0)) (sm_state id j0) -> reach true true id j0 j ->
   j_pc j = Between -> void_stranded (fem.state (j_exec j)) (sm_state id j)) /\
  (bound_stranded (fem.state (j_exec j0)) (sm_state id j0) -> reach false true id j0 j ->
   match j_pc j with
   | Between => bound_stranded (fem.state (j_exec j)) (sm_state id j)
   | Runs (AskSm c k) => launches c = false
   | _ => True
   end).
Proof.
  intros Hw Hok Hid Hpc. split; intros Hs Hj.
  - intros Hb. destruct (joint_reach_between true true void_stranded (fun _ _ _ _ => True) id j0 j)
      as (_ & _ & Hj'); try done; [apply void_stranded_drift|intros e inv Q; apply execute_void_stranded|].
    by rewrite Hb in Hj'.
  - destruct (joint_reach_between false true bound_stranded (fun B c _ _ => launches c = false) id j0 j)
      as (_ & _ & Hj'); try done; [apply bound_stranded_drift|intros e inv Q; apply execute_bound_stranded|].
    destruct (j_pc j) as [|[| B c k| | |]|]; try done. by destruct Hj'.
Qed.
End fleet.

(** * Runs of an executor and the session manager

    The theorems of [Fleet] on the server of [Requests]: a node with one
    executor, whose worker starts Void. *)


(** ** Runs *)

Section paths.
Context `{Env} `{Chrono} `{Durations} `{Schemas} `{Local} {E V : Type} `{Engine E} `{EventManager V}.
Variable cluster_default_resreq : option ResourceRequirement.
Variable error_text : FlameError -> string.
Variable wasm : bool.
Abbreviation step := (joint_apply (E := E) (V := V) cluster_default_resreq error_text wasm).

Fixpoint joint_run (evs : list joint_event) (j : joint E V) : option (joint E V) :=
  match evs with
  | [] => Some j
  | ev :: evs => j' ← step ev j; joint_run evs j'
  end.

Fixpoint joint_path (churn lossy : bool) (id : string) (evs : list joint_event) (j : joint E V) : Prop :=
  match evs with
  | [] => True
  | ev :: evs => admissible churn lossy id ev j /\
      match step ev j with Some j' => joint_path churn lossy id evs j' | None => True end
  end.

Lemma joint_run_reach churn lossy id evs j0 j j' :
  joint_reach cluster_default_resreq error_text wasm churn lossy id j0 j ->
  joint_path churn lossy id evs j -> joint_run evs j = Some j' ->
  joint_reach cluster_default_resreq error_text wasm churn lossy id j0 j'.
Proof.
  revert j. induction evs as [|ev evs IH]; intros j Hr Hp Hj; simpl in *; [by injection Hj as <-|].
  destruct Hp as [Ha Hp]. destruct (step ev j) as [j1|] eqn:Hs; [|done].
  apply (IH j1); [by eapply jr_step|done..].
Qed.
End paths.

(** ** Examples *)

Section examples.
#[local] Existing Instance demo_env.
#[local] Existing Instance demo_chrono.
#[local] Existing Instance demo_uuid_inj.
#[local] Existing Instance demo_schemas.

(** Every service starts, and every task succeeds. *)
#[local] Instance demo_local : Local := {
  shim_reply := fun _ B c =>
    match c in shim_call B return result B with
    | OnSessionEnter _ _ => Ok None
    | OnTaskInvoke _ _ => Ok (mkTaskResult TaskSucceed None None, None)
    | CreateInstance _ | OnSessionLeave _ | DestroyInstance _ => Ok tt
    end;
  device_reply := fun _ _ => Ok tt
}.

Definition demo_text (e : FlameError) : string := "error".

Definition demo_worker : fem.Executor :=
  fem.mkExecutor "id0" "app" (mkRR 1 1 0) ∅ true true "n1" ShimHost None None None ExecVoid.

Definition demo_joint : joint _ _ := mkJoint demo_server demo_worker Between 0 None.

Lemma demo_server_ok : execs_ok demo_server.
Proof.
  assert (forall evs (k : ConnectionManager demo_store), ctl_wf k -> execs_ok k -> execs_ok (server_run None evs k)) as Hr;
    [|apply Hr; [apply demo_ctl_wf|apply demo_ctl_ok]].
  induction evs as [|[r|op] evs IH]; intros k Hk Hok; [done|..]; apply IH;
    [by apply serve_wf|by apply serve_ok|by apply ctl_apply_wf|by apply ctl_apply_ok].
Qed.

(** The worker registers. *)
Definition demo_register : list joint_event := [Turn; Asks Answered; Finishes].

(** The scheduler binds the executor, and the worker enters the session. *)
Definition demo_enter : list joint_event :=
  [Others (Internal_op (CBindSession "id0" "s1")); Others (Internal_op (CCreateTask "s1" None None));
   Turn; Asks Answered; Locally; Locally; Locally].


Abbreviation demo_steps := (joint_run None demo_text false).

(** The state after a run, with [demo_joint] where the run is not possible. *)
Definition demo_after (evs : list joint_event) (j : joint _ _) : joint _ _ :=
  default j (demo_steps evs j).

Lemma demo_after_reach churn lossy evs :
  joint_path None demo_text false churn lossy "id0" evs demo_joint ->
  joint_reach None demo_text false churn lossy "id0" demo_joint (demo_after evs demo_joint).
Proof.
  intros Hp. unfold demo_after. destruct (demo_steps evs demo_joint) as [j|] eqn:Hj; [|apply jr_start].
  eapply joint_run_reach; [apply jr_start|done..].
Qed.


(** The worker reports the session entered. *)
Definition demo_entered := demo_after (demo_register ++ demo_enter) demo_joint.

Definition asks_sm (j : joint NoneEngine.t MemoryEventManager.t) : bool :=
  match j_pc j with Runs (AskSm _ _) => true | _ => false end.

Lemma executor_in_step_witness :
  asks_sm demo_entered = true /\ view_in (j_sm demo_entered) "id0" = Some (ExecBinding, Some "s1"%string, None) /\
  match j_pc demo_entered with
  | Between => in_step (fem.state (j_exec demo_entered)) (view_in (j_sm demo_entered) "id0")
  | Runs (AskSm c k) => call_id c = "id0"%string /\ handled c (j_sm demo_entered)
  | _ => True
  end.
Proof.
  split; [vm_compute; reflexivity|]. split; [vm_compute; reflexivity|].
  apply (executor_in_step None demo_text false "id0" demo_joint demo_entered demo_server_wf demo_server_ok
    eq_refl eq_refl); [vm_compute; reflexivity|]. apply demo_after_reach. vm_compute. tauto.
Defined.



(** The reply to the registration is lost, and later turns do not help. *)
Definition demo_lost := demo_after [Turn; Asks ReplyLost; Finishes] demo_joint.

Lemma demo_lost_wf : ctl_wf (j_sm demo_lost) /\ execs_ok (j_sm demo_lost).
Proof.
  apply (joint_reach_wf None demo_text false "id0" demo_joint demo_lost demo_server_wf demo_server_ok eq_refl eq_refl).
  apply demo_after_reach. vm_compute. tauto.
Qed.

Lemma lost_reply_strands_witness :
  (fem.state (j_exec demo_lost), view_in (j_sm demo_lost) "id0") = (ExecVoid, Some (ExecIdle, None, None)) /\
  forall j, joint_reach None demo_text false true true "id0" demo_lost j -> j_pc j = Between ->
    void_stranded (fem.state (j_exec j)) (view_in (j_sm j) "id0").
Proof.
  split; [vm_compute; reflexivity|]. intros j.
  refine (proj1 (lost_reply_strands None demo_text false "id0" demo_lost j (proj1 demo_lost_wf) (proj2 demo_lost_wf) _ _) _).
  - vm_compute. reflexivity.
  - vm_compute. reflexivity.
  - split; vm_compute; [reflexivity|discriminate].
Defined.
End examples.
