(* ===== verification/Ledger.v ===== *)
(** * Claims on the resources of a host ([executor_manager/src/devices/ledger.rs])

    A ledger has the claims of executors on a countable resource, against the
    total of the host less what is held back for the system.  Amounts are [u64]
    and the arithmetic wraps as the release build does; along every run it never
    has to. *)
From S2P Require Import Prelude.
Local Open Scope Z_scope.

Record Ledger := mkLedger {
  lg_resource : string;
  lg_total : Z;
  lg_reserved : Z;
  lg_claims : gmap string Z
}.

Module Ledger.
Section ledger.
Context `{Env}.

(** [values().sum::<u64>()]. *)
Definition sum_u64 (l : list Z) : Z := foldl (fun acc x => wrap_u64 (acc + x)) 0 l.

Definition claimed (l : Ledger) : Z := sum_u64 (hm_values (lg_claims l)).

Definition new (resource : string) (total : Z) : Ledger := mkLedger resource total 0 ∅.

Definition net (host reserved : Z) : result Z :=
  if host <? reserved then Err EInvalidConfig else Ok (host - reserved).

Definition reserve (l : Ledger) (reserved : Z) : result Ledger :=
  total ← net (lg_total l) reserved;
  Ok (mkLedger (lg_resource l) total reserved (lg_claims l)).

Definition total (l : Ledger) : Z := lg_total l.

Definition refresh (host : Z) : M Ledger unit :=
  l ← gets (fun l => l);
  total ← lift (net host (lg_reserved l));
  if total <? claimed l then throw EInvalidState
  else modify (fun l => mkLedger (lg_resource l) total (lg_reserved l) (lg_claims l)).

Definition allocate (executor_id : string) (amount : Z) : M Ledger Z :=
  l ← gets (fun l => l);
  match lg_claims l !! executor_id with
  | Some claimed => mret claimed
  | None =>
      let available := wrap_u64 (lg_total l - claimed l) in
      if available <? amount then throw EInvalidState
      else modify (fun l => mkLedger (lg_resource l) (lg_total l) (lg_reserved l)
             (<[executor_id := amount]> (lg_claims l))) ≫= fun _ => mret amount
  end.

Definition release (executor_id : string) : M Ledger unit :=
  modify (fun l => mkLedger (lg_resource l) (lg_total l) (lg_reserved l) (delete executor_id (lg_claims l))).

(** ** Claims within the total *)

(** The claims, without wrapping. *)
Definition spent (m : gmap string Z) : Z := Zsum (fun x => x) (map_to_list m).*2.

Record ledger_ok (l : Ledger) : Prop := {
  lo_total : is_u64 (lg_total l);
  lo_reserved : is_u64 (lg_reserved l);
  lo_claims : map_Forall (fun _ x => is_u64 x) (lg_claims l);
  lo_spent : spent (lg_claims l) <= lg_total l
}.

Lemma spent_insert m k x : m !! k = None -> spent (<[k := x]> m) = x + spent m.
Proof. intros Hk. unfold spent. by rewrite map_to_list_insert. Qed.

Lemma spent_nonneg m : map_Forall (fun _ x => is_u64 x) m -> 0 <= spent m.
Proof.
  intros Hm. unfold spent. apply Zsum_nonneg. intros x ([k y] & -> & Hy)%list_elem_of_fmap.
  apply elem_of_map_to_list in Hy. specialize (Hm k y Hy). simpl in *. width.
Qed.

Lemma spent_delete m k : map_Forall (fun _ x => is_u64 x) m -> spent (delete k m) <= spent m.
Proof.
  intros Hm. destruct (m !! k) as [x|] eqn:Hk; [|by rewrite delete_id].
  rewrite <-(insert_delete_id m k x Hk) at 2. rewrite spent_insert by apply lookup_delete_eq.
  specialize (Hm k x Hk). simpl in *. width.
Qed.

Lemma spent_subseteq m m' : m ⊆ m' -> map_Forall (fun _ x => is_u64 x) m' -> spent m <= spent m'.
Proof.
  revert m'. induction m as [|k x m Hk IH] using map_ind; intros m' Hs Hm'.
  - unfold spent at 1. rewrite map_to_list_empty. by apply spent_nonneg.
  - assert (m' !! k = Some x) as Hx by (eapply lookup_weaken; [apply lookup_insert_eq|done]).
    rewrite spent_insert by done. rewrite <-(insert_delete_id m' k x Hx), spent_insert by apply lookup_delete_eq.
    enough (spent m <= spent (delete k m')) by lia. apply IH; [|by apply map_Forall_delete].
    rewrite <-(delete_insert_id m k x Hk). by apply delete_mono.
Qed.

Lemma sum_u64_spec l acc : foldl (fun acc x => wrap_u64 (acc + x)) (wrap_u64 acc) l = wrap_u64 (acc + Zsum (fun x => x) l).
Proof.
  revert acc. induction l as [|x l IH]; intros acc; simpl; [by rewrite Z.add_0_r|].
  rewrite wrap_u64_add_l, IH. f_equal. lia.
Qed.

(** What the ledger computes is what was claimed. *)
Lemma claimed_spent l : ledger_ok l -> claimed l = spent (lg_claims l).
Proof.
  intros [Ht _ Hc Hs]. unfold claimed, sum_u64, hm_values. rewrite (sum_u64_spec _ 0). simpl.
  assert (Zsum (fun x => x) (hm_iter (lg_claims l)).*2 = spent (lg_claims l)) as ->
    by (unfold spent; by rewrite hm_iter_perm).
  apply wrap_u64_small. pose proof (spent_nonneg _ Hc). width.
Qed.

Lemma new_ok resource n : is_u64 n -> ledger_ok (new resource n).
Proof. split; simpl; [done|width|apply map_Forall_empty|unfold spent; rewrite map_to_list_empty; simpl; width]. Qed.

Lemma reserve_ok resource n r l :
  is_u64 n -> is_u64 r -> reserve (new resource n) r = Ok l -> ledger_ok l /\ lg_total l = n - r /\ lg_claims l = ∅.
Proof.
  intros Hn Hr. unfold reserve, net. simpl. destruct (Z.ltb_spec n r); [done|]. intros [= <-]. simpl. split; [|done].
  split; simpl; [width|done|apply map_Forall_empty|unfold spent; rewrite map_to_list_empty; simpl; lia].
Qed.

(** A refresh takes the new total, less what is held back, unless claims
    exceed it. *)
Lemma refresh_spec host l : ledger_ok l -> is_u64 host ->
  let '(r, l') := refresh host l in
  ledger_ok l' /\ lg_claims l' = lg_claims l /\ lg_reserved l' = lg_reserved l /\
  (r = Ok tt /\ lg_total l' = host - lg_reserved l \/ (exists e, r = Err e) /\ l' = l).
Proof.
  intros Hl Hh. unfold refresh, net. cbv [mbind M_bind gets lift modify throw]. rewrite (claimed_spent l Hl).
  destruct (Z.ltb_spec host (lg_reserved l)); simpl; [split_and!; try done; right; by eauto|].
  destruct (Z.ltb_spec (host - lg_reserved l) (spent (lg_claims l))); simpl; [split_and!; try done; right; by eauto|].
  destruct Hl as [Ht Hr Hc Hs]. split_and!; try done; [|by left]. split; simpl; try done. width.
Qed.

(** A claim that exists is kept; a new one is granted exactly if it fits. *)
Lemma allocate_spec id amount l : ledger_ok l -> is_u64 amount ->
  let '(r, l') := allocate id amount l in
  ledger_ok l' /\ lg_total l' = lg_total l /\ lg_reserved l' = lg_reserved l /\
  match lg_claims l !! id with
  | Some x => r = Ok x /\ l' = l
  | None => if spent (lg_claims l) + amount <=? lg_total l
            then r = Ok amount /\ lg_claims l' = <[id := amount]> (lg_claims l)
            else r = Err EInvalidState /\ l' = l
  end.
Proof.
  intros Hl Ha. unfold allocate. cbv [mbind M_bind gets modify throw mret]. rewrite (claimed_spent l Hl).
  destruct Hl as [Ht Hr Hc Hs] eqn:Heq. pose proof (spent_nonneg _ Hc) as Hn.
  destruct (lg_claims l !! id) as [x|] eqn:Hid; [done|].
  rewrite wrap_u64_small by width.
  destruct (Z.ltb_spec (lg_total l - spent (lg_claims l)) amount);
    destruct (Z.leb_spec (spent (lg_claims l) + amount) (lg_total l)); try lia; simpl; split_and!; try done.
  split; simpl; try done; [by apply map_Forall_insert|]. rewrite spent_insert by done. lia.
Qed.

Lemma release_spec id l : ledger_ok l ->
  let '(r, l') := release id l in
  r = Ok tt /\ ledger_ok l' /\ lg_total l' = lg_total l /\ lg_reserved l' = lg_reserved l /\
  lg_claims l' = delete id (lg_claims l).
Proof.
  intros [Ht Hr Hc Hs]. simpl. split_and!; try done. split; simpl; try done.
  - by apply map_Forall_delete.
  - pose proof (spent_delete _ id Hc). lia.
Qed.
End ledger.
End Ledger.
