(* ===== verification/Gpu.v ===== *)
(** * GPUs held by executors ([executor_manager/src/devices/gpu])

    [GpuManager] gives whole devices of the inventory to executors and keeps a
    record of every assignment in the directory [gpu] under its working
    directory, so that a new process finds what is still in use.  The files are
    on the disk of [FsDisk], whose calls can fail and leave part of their effect
    behind; a process that dies is one whose calls all fail from some point
    on. *)
From Stdlib Require Import Ascii.
From S2P Require Import Prelude Text Types FsDisk FsRecord Worker.
Local Open Scope Z_scope.

Definition GPU : string := "gpu".

(** [Uuid::parse_str(s)], as the hyphenated text of the identifier. *)
Class Uuids := { parse_uuid : string -> option string }.

(** ** Files of the assignments ([gpu/storage.rs]) *)

Definition id_byte (a : ascii) : bool :=
  is_ascii_alphanumeric a || Ascii.eqb a "-" || Ascii.eqb a "_" || Ascii.eqb a ".".

Definition validate_executor_id (executor_id : string) : result unit :=
  if bool_decide (executor_id = EmptyString) || String.prefix "." executor_id ||
     negb (string_forall id_byte executor_id)
  then Err EInvalidConfig else Ok tt.

Record GpuManager := mkGpu {
  gm_inventory : list string;
  gm_assignments : gmap string DeviceAssignment;
  gm_workdir : path;
  gm_fs : Fs;
  gm_uuids : nat
}.

Definition gpu_dir (workdir : path) : path := workdir ++ [GPU].

Definition assignment_path (workdir : path) (executor_id : string) : result path :=
  validate_executor_id executor_id ≫= fun _ => Ok (gpu_dir workdir ++ [executor_id +:+ ".json"]).

Section gpu.
Context `{Disk} `{Json DeviceAssignment} `{Env} `{Uuids}.
Abbreviation GM := (M GpuManager).

Definition with_disk (fs : Fs) (g : GpuManager) : GpuManager :=
  mkGpu (gm_inventory g) (gm_assignments g) (gm_workdir g) fs (gm_uuids g).

(** [File::open], [sync_all], [create_new], [remove_file] and [file_type]. *)
Definition open_file (p : path) : M Fs (io unit) :=
  FsDisk.call intact (fun fs =>
    (if bool_decide (p = [] \/ p ∈ fs_dirs fs \/ is_Some (fs_files fs !! p)) then IoOk tt
     else IoErr IoNotFound, fs)).
Definition sync_all : M Fs (io unit) := FsDisk.call intact (fun fs => (IoOk tt, fs)).
Definition create_new (p : path) : M Fs (io unit) :=
  FsDisk.call intact (fun fs =>
    if bool_decide (is_Some (fs_files fs !! p) \/ p ∈ fs_dirs fs) then (IoErr IoOther, fs)
    else if bool_decide (parent p ∈ fs_dirs fs) then (IoOk tt, with_files (<[p := []]> (fs_files fs)) fs)
    else (IoErr IoNotFound, fs)).
Definition remove_file (p : path) : M Fs (io unit) :=
  FsDisk.call intact (fun fs =>
    match fs_files fs !! p with
    | Some _ => (IoOk tt, with_files (delete p (fs_files fs)) fs)
    | None => (IoErr IoNotFound, fs)
    end).
Definition next_entry : M Fs (io unit) := FsDisk.call intact (fun fs => (IoOk tt, fs)).
Definition is_file (p : path) : M Fs (io bool) :=
  FsDisk.call intact (fun fs => (IoOk (bool_decide (is_Some (fs_files fs !! p))), fs)).

(** A call whose error is passed on. *)
Definition sys {A} (m : M Fs (io A)) : GM (io A) := zoom gm_fs with_disk m.
Definition or_internal {A} (m : M Fs (io A)) : GM A :=
  r ← sys m;
  match r with IoOk a => mret a | IoErr _ => throw EInternal end.

(** The rest of an interrupted write. *)
Definition interrupted (name : string) : bool :=
  match strip_prefix ".gpu-assignment-" name ≫= strip_suffix ".tmp" with
  | Some id => bool_decide (is_Some (parse_uuid id))
  | None => false
  end.

Fixpoint load_entries (directory : path) (names : list string) (assignments : gmap string DeviceAssignment)
    : GM (gmap string DeviceAssignment) :=
  match names with
  | [] => mret assignments
  | name :: names =>
      or_internal next_entry ≫= fun _ =>
      if negb (is_utf8 name) then throw EInvalidConfig
      else if interrupted name then load_entries directory names assignments
      else
        executor_id ← lift (ok_or (strip_suffix ".json" name) EInvalidConfig);
        lift (validate_executor_id executor_id) ≫= fun _ =>
        regular ← or_internal (is_file (directory ++ [name]));
        if negb regular then throw EInvalidConfig
        else
          bytes ← or_internal (read (directory ++ [name]));
          assignment ← lift (ok_or (from_str bytes) EInvalidConfig);
          match assignments !! executor_id with
          | Some _ => throw EInvalidConfig
          | None => load_entries directory names (<[executor_id := assignment]> assignments)
          end
  end.

Definition load : GM (gmap string DeviceAssignment) :=
  workdir ← gets gm_workdir;
  entries ← sys (read_dir (gpu_dir workdir));
  match entries with
  | IoOk names => load_entries (gpu_dir workdir) names ∅
  | IoErr IoNotFound => mret ∅
  | IoErr IoOther => throw EInternal
  end.

Definition fresh_uuid : GM string := fun g =>
  (Ok (new_uuid (gm_uuids g)),
   mkGpu (gm_inventory g) (gm_assignments g) (gm_workdir g) (gm_fs g) (S (gm_uuids g))).

Definition temporary_name (uuid : string) : string := ".gpu-assignment-" +:+ uuid +:+ ".tmp".

(** The closure of [save]: the record is whole before it has its name. *)
Definition write_record (workdir temporary p : path) (assignment : DeviceAssignment) : GM unit :=
  or_internal (create_dir_all (gpu_dir workdir)) ≫= fun _ =>
  or_internal (open_file workdir) ≫= fun _ =>
  or_internal sync_all ≫= fun _ =>
  or_internal (open_file (gpu_dir workdir)) ≫= fun _ =>
  or_internal (create_new temporary) ≫= fun _ =>
  content ← lift (ok_or (to_string_pretty assignment) EInternal);
  or_internal (write_all_at temporary content 0) ≫= fun _ =>
  or_internal sync_all ≫= fun _ =>
  or_internal (rename temporary p) ≫= fun _ =>
  or_internal sync_all.

Definition save (executor_id : string) (assignment : DeviceAssignment) : GM unit :=
  workdir ← gets gm_workdir;
  p ← lift (assignment_path workdir executor_id);
  uuid ← fresh_uuid;
  let temporary := gpu_dir workdir ++ [temporary_name uuid] in
  result ← attempt (write_record workdir temporary p assignment);
  match result with
  | Ok _ => mret tt
  | _ => sys (remove_file temporary) ≫= fun _ => throw EInternal
  end.

Definition remove (executor_id : string) : GM unit :=
  workdir ← gets gm_workdir;
  p ← lift (assignment_path workdir executor_id);
  removed ← sys (remove_file p);
  match removed with
  | IoErr IoOther => throw EInternal
  | _ =>
      opened ← sys (open_file (gpu_dir workdir));
      match opened with
      | IoOk _ => or_internal sync_all
      | IoErr IoNotFound => mret tt
      | IoErr IoOther => throw EInternal
      end
  end.

(** ** The manager ([gpu/mod.rs]) *)

Definition CUDA_VISIBLE_DEVICES : string := "CUDA_VISIBLE_DEVICES".
Definition NVIDIA_VISIBLE_DEVICES : string := "NVIDIA_VISIBLE_DEVICES".

(** What a container and a process get to see. *)
Definition visibility (devices : list string) : gmap string string :=
  <[NVIDIA_VISIBLE_DEVICES := "void"%string]> (<[CUDA_VISIBLE_DEVICES := String.concat "," devices]> ∅).
Definition cdi_names (devices : list string) : list string :=
  (fun device => "nvidia.com/gpu=" +:+ device) <$> devices.

(** The devices of all assignments. *)
Definition assigned (assignments : gmap string DeviceAssignment) : list string :=
  hm_values assignments ≫= da_devices.

Definition validate_inventory (inventory : list string) (assignments : gmap string DeviceAssignment)
    : result unit :=
  let unique : gset string := list_to_set inventory in
  if negb (Nat.eqb (size unique) (length inventory)) then Err EInvalidConfig
  else if existsb (fun device => negb (bool_decide (device ∈ unique))) (assigned assignments)
  then Err EInvalidState else Ok tt.

Fixpoint check_devices (available occupied : gset string) (devices : list string) : result (gset string) :=
  match devices with
  | [] => Ok occupied
  | device :: devices =>
      if negb (bool_decide (device ∈ available)) || bool_decide (device ∈ occupied) then Err EInvalidConfig
      else check_devices available ({[device]} ∪ occupied) devices
  end.

Fixpoint check_restored (available occupied : gset string) (restored : list (string * DeviceAssignment))
    : result unit :=
  match restored with
  | [] => Ok tt
  | (executor_id, assignment) :: restored =>
      if bool_decide (executor_id = EmptyString) then Err EInvalidConfig
      else
        occupied ← check_devices available occupied (da_devices assignment);
        if negb (bool_decide (da_envs assignment = visibility (da_devices assignment))) ||
           negb (bool_decide (da_cdi assignment = cdi_names (da_devices assignment))) ||
           negb (da_value assignment =? Z.of_nat (length (da_devices assignment)))
        then Err EInvalidConfig
        else check_restored available occupied restored
  end.

Definition refresh_inventory (inventory : list string) : GM unit :=
  assignments ← gets gm_assignments;
  lift (validate_inventory inventory assignments) ≫= fun _ =>
  restored ← load;
  lift (check_restored (list_to_set inventory) ∅ (hm_iter restored)) ≫= fun _ =>
  if negb (bool_decide (assignments = ∅)) && negb (bool_decide (assignments = restored))
  then throw EInvalidState
  else modify (fun g => mkGpu inventory restored (gm_workdir g) (gm_fs g) (gm_uuids g)).

(** [discover], given what [GpuDiscovery::devices] finds. *)
Definition gpu_discover (devices : result (list string)) : GM unit :=
  inventory ← lift devices;
  refresh_inventory inventory.

Definition gpu_capacity (g : GpuManager) : ResourceRequirement :=
  mkRR 0 0 (wrap_i32 (Z.of_nat (length (gm_inventory g)))).

Definition gpu_allocate (executor : fem.Executor) : GM DeviceAssignment :=
  lift (validate_executor_id (fem.id executor)) ≫= fun _ =>
  g ← get;
  match gm_assignments g !! fem.id executor with
  | Some assignment => mret assignment
  | None =>
      let gpu := rr_gpu (fem.resreq executor) in
      if gpu <? 0 then throw EInvalidConfig
      else
        let count := Z.to_nat gpu in
        let occupied := assigned (gm_assignments g) in
        let devices := take count (List.filter (fun device => negb (bool_decide (device ∈ occupied)))
                                     (gm_inventory g)) in
        if negb (Nat.eqb (length devices) count) then throw EInvalidState
        else
          let assignment := mkAssignment (visibility devices) (cdi_names devices) devices (Z.of_nat count) in
          save (fem.id executor) assignment ≫= fun _ =>
          modify (fun g => mkGpu (gm_inventory g) (<[fem.id executor := assignment]> (gm_assignments g))
                     (gm_workdir g) (gm_fs g) (gm_uuids g)) ≫= fun _ =>
          mret assignment
  end.

Definition gpu_release (executor : fem.Executor) : GM unit :=
  lift (validate_executor_id (fem.id executor)) ≫= fun _ =>
  held ← gets (fun g => gm_assignments g !! fem.id executor);
  match held with
  | None => mret tt
  | Some _ =>
      remove (fem.id executor) ≫= fun _ =>
      modify (fun g => mkGpu (gm_inventory g) (delete (fem.id executor) (gm_assignments g))
                 (gm_workdir g) (gm_fs g) (gm_uuids g))
  end.

(** A new process over the same files. *)
Definition gpu_restart (g : GpuManager) : GpuManager := mkGpu [] ∅ (gm_workdir g) (gm_fs g) (gm_uuids g).
End gpu.
