(* ===== verification/GpuInv.v ===== *)
(** * Who holds which GPU

    Whatever calls to the file system fail, no device is given to two executors,
    and an assignment that was handed out is on the disk, whole, until its
    executor is released: it survives every restart of the executor manager. *)
From Stdlib Require Import Ascii.
From S2P Require Import Prelude Text Types FsDisk FsRecord Worker Gpu.
Local Open Scope Z_scope.

Lemma valid_id_nonempty id : validate_executor_id id = Ok tt -> id <> EmptyString /\ String.prefix "." id = false.
Proof.
  unfold validate_executor_id. destruct (bool_decide (id = EmptyString)) eqn:He; [done|].
  destruct (String.prefix "." id); [done|]. intros _. split; [by apply bool_decide_eq_false in He|done].
Qed.

Lemma valid_id_first a id : validate_executor_id (String a id) = Ok tt -> a <> "."%char.
Proof. intros [_ Hp]%valid_id_nonempty ->. by destruct id. Qed.

(** A record's name is not one of an interrupted write. *)
Lemma record_not_temporary id uuid :
  validate_executor_id id = Ok tt -> id +:+ ".json" <> temporary_name uuid.
Proof.
  destruct id as [|a id]; [done|]. intros Ha%valid_id_first. unfold temporary_name. simpl. by intros [= ->].
Qed.

Lemma record_not_interrupted `{Uuids} id : validate_executor_id id = Ok tt -> interrupted (id +:+ ".json") = false.
Proof.
  destruct id as [|a id]; [done|]. intros Ha%valid_id_first. unfold interrupted.
  change (String a id +:+ ".json") with (String a (id +:+ ".json")). cbn [strip_prefix]. by rewrite (proj2 (Ascii.eqb_neq _ _)) by congruence.
Qed.

Lemma record_name_inj id id' : id +:+ ".json" = id' +:+ ".json" -> id = id'.
Proof.
  intros Heq. apply (f_equal (strip_suffix ".json")) in Heq. rewrite !strip_suffix_app in Heq. by injection Heq.
Qed.

(** ** Calls *)

Section calls.
Context `{Disk} `{Json DeviceAssignment} `{Env} `{Uuids}.
Implicit Types (g : GpuManager) (p q : path).

Definition files g : gmap path bytes := fs_files (gm_fs g).

(** What the calls leave alone. *)
Definition memory g : list string * gmap string DeviceAssignment * path :=
  (gm_inventory g, gm_assignments g, gm_workdir g).

(** A run that succeeded, step by step. *)
Lemma bind_ok {S A B} (m : M S A) (f : A -> M S B) s b s' :
  (m ≫= f) s = (Ok b, s') -> exists a s1, m s = (Ok a, s1) /\ f a s1 = (Ok b, s').
Proof. unfold mbind, M_bind. destruct (m s) as [[a|e|] s1]; try done. by exists a, s1. Qed.

(** A call that succeeded did what it does. *)
Lemma or_internal_ok {A} broken (ok : Fs -> io A * Fs) g a g' :
  or_internal (FsDisk.call broken ok) g = (Ok a, g') ->
  exists fs, ok (mkFs (files g) (fs_dirs (gm_fs g)) (S (fs_calls (gm_fs g)))) = (IoOk a, fs) /\
    g' = with_disk fs g.
Proof.
  unfold or_internal, mbind, M_bind, sys, zoom, FsDisk.call, files.
  destruct (io_fault (fs_calls (gm_fs g))) as [k|]; simpl; [done|].
  destruct (ok _) as [[x|e] fs]; simpl; [|done]. intros [= <- <-]. by exists fs.
Qed.

(** A file in its directory; whatever else a call does, it keeps it, also if it
    fails. *)
Definition file_at (q : path) (c : bytes) (fs : Fs) : Prop :=
  fs_files fs !! q = Some c /\ parent q ∈ fs_dirs fs.

Lemma keeps_sys {A : Type} q c X broken (ok : Fs -> io A * Fs) :
  (forall n k fs, file_at q c fs -> file_at q c (broken n k fs)) ->
  (forall fs, file_at q c fs -> file_at q c (ok fs).2) ->
  keeps (fun g => file_at q c (gm_fs g) /\ memory g = X) (sys (FsDisk.call broken ok)).
Proof.
  intros Hb Ho g [HP HX]. unfold sys, zoom, FsDisk.call.
  set (fs := mkFs (fs_files (gm_fs g)) (fs_dirs (gm_fs g)) (S (fs_calls (gm_fs g)))).
  assert (file_at q c fs) as Hfs by done.
  destruct (io_fault (fs_calls (gm_fs g))) as [k|]; simpl.
  - split; [by apply Hb|done].
  - specialize (Ho fs Hfs). destruct (ok fs) as [r fs']. by split.
Qed.

Lemma keeps_or_internal {A} I (m : M Fs (io A)) : keeps I (sys m) -> keeps I (or_internal m).
Proof. intros Hm. apply keeps_bind; [done|]. intros [a|e]; auto with flame. Qed.

Abbreviation at_path q c X := (fun g => file_at q c (gm_fs g) /\ memory g = X).

Lemma keeps_gpu_dir q c X p : keeps (at_path q c X) (sys (create_dir_all p)).
Proof. apply keeps_sys; [intros _ k fs|intros fs]; intros [Hc Hq]; (split; [done|]; simpl; set_solver). Qed.
Lemma keeps_open_file q c X p : keeps (at_path q c X) (sys (open_file p)).
Proof. by apply keeps_sys. Qed.
Lemma keeps_sync_all q c X : keeps (at_path q c X) (sys sync_all).
Proof. by apply keeps_sys. Qed.
Lemma keeps_next_entry q c X : keeps (at_path q c X) (sys next_entry).
Proof. by apply keeps_sys. Qed.
Lemma keeps_is_file q c X p : keeps (at_path q c X) (sys (is_file p)).
Proof. by apply keeps_sys. Qed.
Lemma keeps_read q c X p : keeps (at_path q c X) (sys (read p)).
Proof. by apply keeps_sys. Qed.
Lemma keeps_read_dir q c X p : keeps (at_path q c X) (sys (read_dir p)).
Proof. by apply keeps_sys. Qed.

Lemma file_at_put q c p c' fs : p <> q -> file_at q c fs -> file_at q c (with_files (<[p := c']> (fs_files fs)) fs).
Proof. intros Hp [Hc Hq]. split; [|done]. simpl. by rewrite lookup_insert_ne. Qed.
Lemma file_at_delete q c p fs : p <> q -> file_at q c fs -> file_at q c (with_files (delete p (fs_files fs)) fs).
Proof. intros Hp [Hc Hq]. split; [|done]. simpl. by rewrite lookup_delete_ne. Qed.

Lemma keeps_create_new q c X p : p <> q -> keeps (at_path q c X) (sys (create_new p)).
Proof.
  intros Hp. apply keeps_sys; [done|]. intros fs Hq. repeat case_bool_decide; [done| |done]. by apply file_at_put.
Qed.
Lemma keeps_write_all_at q c X p data n : p <> q -> keeps (at_path q c X) (sys (write_all_at p data n)).
Proof.
  intros Hp. apply keeps_sys; [intros _ k fs|intros fs]; intros Hq.
  - destruct (_ <? _); [done|]. destruct (fs_files fs !! p); [by apply file_at_put|done].
  - destruct (fs_files fs !! p); [|done]. destruct (_ <? _); [done|]. by apply file_at_put.
Qed.
Lemma keeps_gpu_rename q c X p p' : p <> q -> p' <> q -> keeps (at_path q c X) (sys (rename p p')).
Proof.
  intros Hp Hp'. apply keeps_sys; [done|]. intros fs [Hc Hq]. destruct (fs_files fs !! p) as [l|]; [|done].
  split; [|done]. simpl. by rewrite lookup_insert_ne, lookup_delete_ne.
Qed.
Lemma keeps_remove_file q c X p : p <> q -> keeps (at_path q c X) (sys (remove_file p)).
Proof.
  intros Hp. apply keeps_sys; [done|]. intros fs Hq. destruct (fs_files fs !! p); [by apply file_at_delete|done].
Qed.
End calls.

#[export] Hint Resolve keeps_gpu_dir keeps_open_file keeps_sync_all keeps_next_entry keeps_is_file keeps_read
  keeps_read_dir keeps_create_new keeps_write_all_at keeps_gpu_rename keeps_remove_file keeps_or_internal : gpu.

(** ** The record of an assignment *)

Section records.
Context `{Disk} `{Json DeviceAssignment} `{!JsonSpec DeviceAssignment} `{Env} `{Uuids}.
Implicit Types (g : GpuManager) (id : string) (a : DeviceAssignment).
Abbreviation at_path q c X := (fun g => file_at q c (gm_fs g) /\ memory g = X).

Definition record_path (workdir : path) id : path := gpu_dir workdir ++ [id +:+ ".json"].

(** The disk has the assignment of an executor. *)
Definition recorded id a g : Prop :=
  exists c, file_at (record_path (gm_workdir g) id) c (gm_fs g) /\ from_str c = Some a.

Lemma parent_app (dir : path) name : parent (dir ++ [name]) = dir.
Proof. unfold parent. rewrite length_app. simpl. by rewrite Nat.add_sub, take_app_length. Qed.

Lemma assignment_path_ok w id p : assignment_path w id = Ok p -> p = record_path w id.
Proof. unfold assignment_path. destruct (validate_executor_id id); [|done..]. by intros [= <-]. Qed.

(** What a record that was written contains. *)
Lemma write_record_ok w temporary p a g g' :
  parent p = parent temporary -> write_record w temporary p a g = (Ok tt, g') -> memory g' = memory g /\
  exists c, file_at p c (gm_fs g') /\ from_str c = Some a.
Proof.
  intros Hpp. unfold write_record. intros (? & g1 & (fs1 & [= <- <-] & ->)%or_internal_ok & Hr)%bind_ok.
  apply bind_ok in Hr as (? & g2 & (fs2 & Ho & ->)%or_internal_ok & Hr).
  destruct (bool_decide _) in Ho; [injection Ho as <- <-|done].
  apply bind_ok in Hr as (? & g3 & (fs3 & [= <- <-] & ->)%or_internal_ok & Hr).
  apply bind_ok in Hr as (? & g4 & (fs4 & Ho & ->)%or_internal_ok & Hr).
  destruct (bool_decide _) in Ho; [injection Ho as <- <-|done].
  apply bind_ok in Hr as (? & g5 & (fs5 & Ho & ->)%or_internal_ok & Hr).
  destruct (bool_decide _) in Ho; [done|].
  destruct (bool_decide (parent temporary ∈ _)) eqn:Hd in Ho; [injection Ho as <- <-|done].
  apply bool_decide_eq_true in Hd.
  apply bind_ok in Hr as (c & g6 & Hc & Hr). unfold lift, ok_or in Hc.
  destruct (to_string_pretty a) as [c'|] eqn:Ha; [injection Hc as <- <-|done].
  apply bind_ok in Hr as (? & g7 & (fs7 & Ho & ->)%or_internal_ok & Hr).
  unfold files in Ho. simpl in Ho. rewrite lookup_insert_eq in Ho. destruct (_ <? _); [done|]. injection Ho as <- <-.
  apply bind_ok in Hr as (? & g8 & (fs8 & [= <- <-] & ->)%or_internal_ok & Hr).
  apply bind_ok in Hr as (? & g9 & (fs9 & Ho & ->)%or_internal_ok & Hr).
  unfold files in Ho. simpl in Ho. rewrite lookup_insert_eq in Ho. injection Ho as <- <-.
  apply or_internal_ok in Hr as (fs10 & [= <-] & ->). split; [done|]. exists c'.
  split; [|by apply from_to_string]. split; [|by rewrite Hpp]. unfold files. simpl. rewrite lookup_insert_eq.
  unfold overlay. simpl. by rewrite drop_nil, app_nil_r.
Qed.

Lemma save_ok id a g g' :
  save id a g = (Ok tt, g') -> memory g' = memory g /\ recorded id a g'.
Proof.
  unfold save. intros (w & g1 & [= <- <-] & Hr)%bind_ok.
  apply bind_ok in Hr as (p & g2 & Hp & Hr). injection Hp as Hp <-. apply assignment_path_ok in Hp as ->.
  apply bind_ok in Hr as (uuid & g3 & [= <- <-] & Hr).
  apply bind_ok in Hr as (r & g4 & Hw & Hr). unfold attempt in Hw.
  destruct (write_record _ _ _ _ _) as [[[]|e|] g5] eqn:Hwr; simplify_eq.
  - injection Hr as <-. apply write_record_ok in Hwr as [Hm (c & Hc & Ha)]; [|unfold record_path; by rewrite !parent_app]. split; [done|].
    exists c. by injection Hm as _ _ ->.
  - apply bind_ok in Hr as (? & ? & _ & Hr). done.
Qed.

Lemma keeps_workdir {B : Type} q c X (f : path -> M GpuManager B) :
  keeps (at_path q c X) (f X.2) -> keeps (at_path q c X) (gets gm_workdir ≫= f).
Proof.
  intros Hf. apply keeps_bind_gets. intros g Hg. assert (gm_workdir g = X.2) as -> by (by destruct Hg as [_ <-]).
  by apply Hf.
Qed.

Lemma keeps_fresh_uuid q c X : keeps (at_path q c X) fresh_uuid.
Proof. by intros g [Hg HX]. Qed.

(** Other files stay, whether it succeeds or not. *)
Lemma keeps_save q c X id a :
  (forall uuid, gpu_dir X.2 ++ [temporary_name uuid] <> q) -> record_path X.2 id <> q ->
  keeps (at_path q c X) (save id a).
Proof.
  intros Ht Hq. apply keeps_workdir. apply keeps_bind_lift. intros p ->%assignment_path_ok.
  keeps_step; [apply keeps_fresh_uuid|]. cbv zeta. keeps_step; [|keeps_tac; auto with flame gpu].
  apply keeps_attempt. unfold write_record. keeps_tac; auto with flame gpu.
Qed.

Lemma keeps_remove q c X id : record_path X.2 id <> q -> keeps (at_path q c X) (remove id).
Proof.
  intros Hq. apply keeps_workdir. apply keeps_bind_lift. intros p ->%assignment_path_ok.
  keeps_tac; auto with flame gpu.
Qed.

Lemma keeps_load_entries q c X dir names m : keeps (at_path q c X) (load_entries dir names m).
Proof.
  revert m. induction names as [|name names IH]; intros m; simpl; keeps_tac; auto with flame gpu.
Qed.

Lemma keeps_load q c X : keeps (at_path q c X) load.
Proof.
  apply keeps_workdir. keeps_tac; auto using keeps_load_entries with flame gpu.
Qed.

(** ** Loading *)

(** One entry of a directory that was read completely. *)
Lemma load_entries_cons dir name names m g m' g' :
  load_entries dir (name :: names) m g = (Ok m', g') ->
  exists g1, files g1 = files g /\
    (interrupted name = true /\ load_entries dir names m g1 = (Ok m', g') \/
     exists id c a, strip_suffix ".json" name = Some id /\ files g !! (dir ++ [name]) = Some c /\
       from_str c = Some a /\ m !! id = None /\ load_entries dir names (<[id := a]> m) g1 = (Ok m', g')).
Proof.
  simpl. intros (? & g1 & (fs1 & [= <- <-] & ->)%or_internal_ok & Hr)%bind_ok.
  destruct (is_utf8 name); [|done]. simpl in Hr. destruct (interrupted name); [eexists; split; [|left; done]; done|].
  apply bind_ok in Hr as (id & g2 & Hid & Hr). unfold lift, ok_or in Hid.
  destruct (strip_suffix ".json" name) as [id'|]; [injection Hid as <- <-|done].
  apply bind_ok in Hr as (? & g3 & Hv & Hr). injection Hv as _ <-.
  apply bind_ok in Hr as (regular & g4 & (fs4 & [= <- <-] & ->)%or_internal_ok & Hr).
  destruct (bool_decide _) in Hr; [|done]. simpl in Hr.
  apply bind_ok in Hr as (c & g5 & (fs5 & Ho & ->)%or_internal_ok & Hr). unfold files in Ho. simpl in Ho.
  destruct (fs_files (gm_fs g) !! (dir ++ [name])) as [c'|] eqn:Hc; [injection Ho as <- <-|done].
  apply bind_ok in Hr as (a & g6 & Ha & Hr). unfold lift, ok_or in Ha.
  destruct (from_str c') as [a'|] eqn:Hfa; [injection Ha as <- <-|done].
  destruct (m !! id') eqn:Hm; [done|]. eexists. split; [|right; exists id', c', a'; split_and!; done]. done.
Qed.

Lemma load_entries_mono dir names m g m' g' : load_entries dir names m g = (Ok m', g') -> m ⊆ m'.
Proof.
  revert m g. induction names as [|name names IH]; intros m g Hr; [by injection Hr as <- <-|].
  apply load_entries_cons in Hr as (g1 & _ & [[_ Hr]|(id & c & a & _ & _ & _ & Hm & Hr)]).
  - by eapply IH.
  - etrans; [by apply (insert_subseteq _ id a)|by eapply IH].
Qed.

(** A directory that was read completely had the record. *)
Lemma load_entries_has dir id c a names m g m' g' :
  validate_executor_id id = Ok tt -> id +:+ ".json" ∈ names -> files g !! (dir ++ [id +:+ ".json"]) = Some c ->
  from_str c = Some a -> load_entries dir names m g = (Ok m', g') -> m' !! id = Some a.
Proof.
  intros Hv Hin Hc Ha. revert m g Hc. induction names as [|name names IH]; intros m g Hc Hr; [by apply not_elem_of_nil in Hin|].
  apply load_entries_cons in Hr as (g1 & Hg1 & Hr). rewrite <-Hg1 in Hc.
  apply elem_of_cons in Hin as [<-|Hin].
  - rewrite record_not_interrupted, strip_suffix_app in Hr by done. rewrite <-Hg1 in Hr.
    destruct Hr as [[? _]|(id' & c' & a' & [= <-] & Hc' & Ha' & _ & Hr)]; [done|].
    apply load_entries_mono in Hr. eapply lookup_weaken; [|done]. rewrite lookup_insert_eq. congruence.
  - destruct Hr as [[_ Hr]|(id' & c' & a' & _ & _ & _ & _ & Hr)]; by eapply IH.
Qed.

Lemma children_file dir name (fs : Fs) c : fs_files fs !! (dir ++ [name]) = Some c -> name ∈ children dir fs.
Proof.
  intros Hc. unfold children. apply elem_of_list_to_set, list_elem_of_omap. exists (dir ++ [name]). split.
  - apply elem_of_app. right. apply list_elem_of_fmap. exists (dir ++ [name], c). split; [done|].
    by apply elem_of_map_to_list.
  - unfold child_of, under. rewrite bool_decide_eq_true_2 by (by exists [name]). by rewrite drop_app_length.
Qed.

(** What [load] returns has every record there is. *)
Lemma load_has id a g m g' :
  validate_executor_id id = Ok tt -> recorded id a g -> load g = (Ok m, g') -> m !! id = Some a.
Proof.
  intros Hv (c & [Hc Hd] & Ha). unfold record_path in *. rewrite parent_app in Hd.
  unfold load. intros (w & g1 & [= <- <-] & Hr)%bind_ok. revert Hr.
  unfold mbind, M_bind, sys, zoom, read_dir, FsDisk.call. simpl.
  destruct (io_fault _); simpl; [done|]. rewrite bool_decide_eq_true_2 by done. intros Hr.
  apply (load_entries_has _ id c a _ _ _ _ _ Hv) in Hr; [done| |done|done].
  rewrite dir_order_perm. apply elem_of_elements. by eapply children_file.
Qed.
End records.

(** ** Exclusive use *)

Section exclusive.
Context `{Disk} `{Json DeviceAssignment} `{Env} `{Uuids}.
Implicit Types (g : GpuManager) (id : string) (a : DeviceAssignment) (m : gmap string DeviceAssignment).

Definition assignment_for (devices : list string) : DeviceAssignment :=
  mkAssignment (visibility devices) (cdi_names devices) devices (Z.of_nat (length devices)).

(** Every device of an assignment is in the inventory, no two assignments share
    one, and an assignment shows its executor exactly its devices. *)
Record gpu_ok g : Prop := {
  go_inventory : NoDup (gm_inventory g);
  go_within : forall d, d ∈ assigned (gm_assignments g) -> d ∈ gm_inventory g;
  go_disjoint : NoDup (assigned (gm_assignments g));
  go_shape : forall id a, gm_assignments g !! id = Some a -> a = assignment_for (da_devices a)
}.

Lemma assigned_perm m : assigned m ≡ₚ ((map_to_list m).*2 ≫= da_devices).
Proof. unfold assigned, hm_values. by rewrite hm_iter_perm. Qed.

Lemma elem_of_assigned d m : d ∈ assigned m <-> exists id a, m !! id = Some a /\ d ∈ da_devices a.
Proof.
  rewrite assigned_perm, list_elem_of_bind. split.
  - intros (a & Hd & ([id b] & -> & Hb)%list_elem_of_fmap). apply elem_of_map_to_list in Hb. by exists id, b.
  - intros (id & a & Ha & Hd). exists a. split; [done|]. apply list_elem_of_fmap. exists (id, a).
    split; [done|]. by apply elem_of_map_to_list.
Qed.

Lemma assigned_insert m id a : m !! id = None -> assigned (<[id := a]> m) ≡ₚ da_devices a ++ assigned m.
Proof. intros Hid. by rewrite !assigned_perm, map_to_list_insert. Qed.

(** Two executors never share a device. *)
Lemma exclusive m id1 id2 a1 a2 d :
  NoDup (assigned m) -> m !! id1 = Some a1 -> m !! id2 = Some a2 -> d ∈ da_devices a1 -> d ∈ da_devices a2 -> id1 = id2.
Proof.
  intros Hn Hm1 Hm2 Hd1 Hd2. destruct (decide (id1 = id2)) as [|Hne]; [done|]. exfalso.
  rewrite <-(insert_delete_id m id1 a1 Hm1), assigned_insert in Hn by apply lookup_delete_eq.
  apply list.NoDup_app in Hn as (_ & Hn & _). apply (Hn d Hd1), elem_of_assigned. exists id2, a2.
  by rewrite lookup_delete_ne.
Qed.

Lemma unique_le (l : list string) : (size (list_to_set l : gset string) <= length l)%nat.
Proof.
  induction l as [|d l IH]; simpl; [done|]. destruct (decide (d ∈ l)).
  - rewrite subseteq_union_1_L by set_solver. lia.
  - rewrite size_union, size_singleton by set_solver. lia.
Qed.

Lemma unique_NoDup (l : list string) : size (list_to_set l : gset string) = length l -> NoDup l.
Proof.
  induction l as [|d l IH]; intros Hs; [constructor|]. simpl in Hs. pose proof (unique_le l).
  destruct (decide (d ∈ l)).
  - rewrite subseteq_union_1_L in Hs by set_solver. lia.
  - rewrite size_union, size_singleton in Hs by set_solver. constructor; [done|]. apply IH. lia.
Qed.

Lemma check_devices_ok avail occ ds occ' :
  check_devices avail occ ds = Ok occ' ->
  NoDup ds /\ (forall d, d ∈ ds -> d ∈ avail /\ d ∉ occ) /\ occ' = occ ∪ list_to_set ds.
Proof.
  revert occ. induction ds as [|d ds IH]; intros occ; simpl.
  - intros [= <-]. split_and!; [constructor|set_solver|set_solver].
  - case_bool_decide as Ha; [|done]. case_bool_decide as Ho; [done|]. simpl. intros (Hn & Hd & ->)%IH.
    split_and!; [|set_solver|set_solver]. constructor; [|done]. intros Hin. apply Hd in Hin. set_solver.
Qed.

Lemma check_restored_ok avail occ (l : list (string * DeviceAssignment)) :
  check_restored avail occ l = Ok tt ->
  NoDup (l.*2 ≫= da_devices) /\ (forall d, d ∈ l.*2 ≫= da_devices -> d ∈ avail /\ d ∉ occ) /\
  (forall id a, (id, a) ∈ l -> a = assignment_for (da_devices a)).
Proof.
  revert occ. induction l as [|[id a] l IH]; intros occ; cbn [check_restored].
  - intros _. split_and!; [constructor|set_solver|set_solver].
  - case_bool_decide; [done|]. destruct (check_devices avail occ (da_devices a)) as [occ'| |] eqn:Hc; [|done..].
    apply check_devices_ok in Hc as (Hn & Hd & ->). cbn.
    case_bool_decide as He; [|done]. case_bool_decide as Hcdi; [|done].
    destruct (Z.eqb_spec (da_value a) (Z.of_nat (length (da_devices a)))) as [Hv|]; [|done]. cbn.
    intros (Hn' & Hd' & Hs)%IH. split_and!.
    + apply list.NoDup_app. split_and!; [done| |done]. intros d Hin Hin'. apply Hd' in Hin'. set_solver.
    + intros d [Hin|Hin]%elem_of_app; [by apply Hd|]. apply Hd' in Hin. set_solver.
    + intros id' a' [[= -> ->]|Hin]%elem_of_cons; [|by eapply Hs]. destruct a. simpl in *. by subst.
Qed.
End exclusive.

(** ** Runs *)

(** What happens to the manager; a new process starts by discovering its
    devices, and does not go on if that fails. *)
Inductive gpu_event :=
  | GpuAllocate (e : fem.Executor)
  | GpuRelease (e : fem.Executor)
  | GpuDiscover (devices : result (list string))
  | GpuRestart (devices : result (list string)).

Section runs.
Context `{Disk} `{Json DeviceAssignment} `{!JsonSpec DeviceAssignment} `{Env} `{Uuids}.
Implicit Types (g : GpuManager) (id : string) (a : DeviceAssignment).

(** The manager, and whether its process runs. *)
Definition gpu_apply (ev : gpu_event) (x : bool * GpuManager) : bool * GpuManager :=
  match ev, x with
  | GpuRestart devices, (_, g) => let '(r, g) := gpu_discover devices (gpu_restart g) in (is_ok r, g)
  | _, (false, g) => (false, g)
  | GpuAllocate e, (true, g) => (true, (gpu_allocate e g).2)
  | GpuRelease e, (true, g) => (true, (gpu_release e g).2)
  | GpuDiscover devices, (true, g) => (true, (gpu_discover devices g).2)
  end.

Definition gpu_run (evs : list gpu_event) (x : bool * GpuManager) : bool * GpuManager :=
  foldl (fun x ev => gpu_apply ev x) x evs.

(** The files do not matter to what is in memory. *)
Lemma memory_only {A} (m : M GpuManager A) : (forall X, keeps (fun g => memory g = X) m) ->
  forall g, memory (m g).2 = memory g.
Proof. intros Hm g. by apply (Hm (memory g)). Qed.

Lemma keeps_memory_sys {A : Type} X (m : M Fs (io A)) : keeps (fun g => memory g = X) (sys m).
Proof. intros g Hg. unfold sys, zoom. by destruct (m (gm_fs g)). Qed.

Lemma keeps_memory_internal {A : Type} X (m : M Fs (io A)) : keeps (fun g => memory g = X) (or_internal m).
Proof. apply keeps_or_internal, keeps_memory_sys. Qed.

Lemma keeps_memory_save X id a : keeps (fun g => memory g = X) (save id a).
Proof.
  unfold save, write_record. keeps_tac; cbv zeta; keeps_tac; auto using keeps_memory_sys, keeps_memory_internal with flame.
  apply keeps_attempt. keeps_tac; auto using keeps_memory_internal with flame.
Qed.

Lemma keeps_memory_remove X id : keeps (fun g => memory g = X) (remove id).
Proof. unfold remove. keeps_tac; auto using keeps_memory_sys, keeps_memory_internal with flame. Qed.

Lemma keeps_memory_load X : keeps (fun g => memory g = X) load.
Proof.
  assert (forall dir names m, keeps (fun g => memory g = X) (load_entries dir names m)) as Hl.
  { intros dir names. induction names as [|name names IH]; intros m; simpl; keeps_tac;
      auto using keeps_memory_internal with flame. }
  unfold load. keeps_tac; auto using keeps_memory_sys with flame.
Qed.

(** ** Every step keeps the devices apart *)

Lemma gpu_ok_memory g g' : memory g' = memory g -> gpu_ok g -> gpu_ok g'.
Proof. intros Hm [Hi Hw Hd Hs]. injection Hm as Hi' Ha' _. split; rewrite ?Hi', ?Ha'; done. Qed.

Lemma restored_ok inventory restored w fs u :
  NoDup inventory -> check_restored (list_to_set inventory) ∅ (hm_iter restored) = Ok tt ->
  gpu_ok (mkGpu inventory restored w fs u).
Proof.
  intros Hi (Hn & Hd & Hs)%check_restored_ok. split; simpl; [done| |done|].
  - intros d Hin. apply Hd in Hin as [Hin _]. by apply elem_of_list_to_set in Hin.
  - intros id a Ha. apply (Hs id). rewrite hm_iter_perm. by apply elem_of_map_to_list.
Qed.

(** A refresh that fails leaves the memory; one that succeeds has checked it. *)
Lemma refresh_ok inventory g :
  let '(r, g') := refresh_inventory inventory g in
  (is_ok r = false -> g' = g \/ g' = (load g).2) /\
  (is_ok r = true -> gpu_ok g' /\ gm_workdir g' = gm_workdir g /\ gm_assignments g ⊆ gm_assignments g' /\
    exists g1, load g = (Ok (gm_assignments g'), g1) /\ gm_fs g1 = gm_fs g').
Proof.
  unfold refresh_inventory. unfold mbind at 1, M_bind at 1. simpl. unfold mbind at 1, M_bind at 1. unfold lift at 1.
  unfold validate_inventory. destruct (Nat.eqb_spec (size (list_to_set inventory : gset string)) (length inventory)) as [Hu|]; simpl; [|by split; [left|]].
  destruct (existsb _ _); [by split; [left|]|]. simpl. unfold mbind at 1, M_bind at 1.
  pose proof (keeps_memory_load (memory g) g eq_refl) as Hm.
  destruct (load g) as [[restored|e|] g1] eqn:Hl; simpl in Hm |- *; [|by split; [right|]..].
  unfold mbind, M_bind, lift.
  destruct (check_restored _ _ _) as [[]|e|] eqn:Hc; simpl; [|by split; [right|]..].
  destruct (_ && _) eqn:Heq; simpl; [by split; [right|]|]. split; [done|]. intros _. split_and!.
  - apply restored_ok; [by apply unique_NoDup|done].
  - by injection Hm.
  - apply andb_false_iff in Heq as [Heq|Heq]; apply negb_false_iff, bool_decide_eq_true in Heq; rewrite Heq; [|done].
    apply map_empty_subseteq.
  - by exists g1.
Qed.

Lemma discover_ok devices g :
  let '(r, g') := gpu_discover devices g in
  (is_ok r = false -> g' = g \/ g' = (load g).2) /\
  (is_ok r = true -> gpu_ok g' /\ gm_workdir g' = gm_workdir g /\ gm_assignments g ⊆ gm_assignments g' /\
    exists g1, load g = (Ok (gm_assignments g'), g1) /\ gm_fs g1 = gm_fs g').
Proof. destruct devices as [inv|err|]; [apply refresh_ok|by split; [left|]..]. Qed.

(** A discovery forgets no assignment. *)
Lemma discover_claims devices g :
  let '(r, g') := gpu_discover devices g in
  (gpu_ok g -> gpu_ok g') /\ gm_assignments g ⊆ gm_assignments g'.
Proof.
  pose proof (discover_ok devices g) as Hd. destruct (gpu_discover devices g) as [r g'] eqn:Hr. destruct Hd as [He Ho].
  pose proof (keeps_memory_load (memory g) g eq_refl) as Hm.
  destruct (is_ok r) eqn:Hok.
  - destruct (Ho eq_refl) as (? & _ & ? & _). by split.
  - destruct (He eq_refl) as [->| ->]; [done|]. split; [by apply gpu_ok_memory|]. by injection Hm as _ -> _.
Qed.

Lemma take_free_ok g n :
  gpu_ok g -> let devices := take n (List.filter (fun d => negb (bool_decide (d ∈ assigned (gm_assignments g)))) (gm_inventory g)) in
  NoDup devices /\ forall d, d ∈ devices -> d ∈ gm_inventory g /\ d ∉ assigned (gm_assignments g).
Proof.
  intros [Hi _ _ _] devices. split.
  - apply NoDup_ListNoDup, (List.NoDup_filter (fun d => negb (bool_decide (d ∈ assigned (gm_assignments g))))), NoDup_ListNoDup in Hi.
    rewrite <-(take_drop n (List.filter _ _)) in Hi. by apply list.NoDup_app in Hi as [? _].
  - intros d (i & Hd)%list_elem_of_lookup. unfold devices in Hd. apply lookup_take_Some in Hd as [Hd _].
    apply list_elem_of_lookup_2, list_elem_of_In, List.filter_In in Hd as [Hd Hf]. split; [by apply list_elem_of_In|].
    by case_bool_decide.
Qed.

Lemma allocated_ok g g' id ds :
  gpu_ok g -> memory g' = memory g -> gm_assignments g !! id = None -> NoDup ds ->
  (forall d, d ∈ ds -> d ∈ gm_inventory g /\ d ∉ assigned (gm_assignments g)) ->
  gpu_ok (mkGpu (gm_inventory g') (<[id := assignment_for ds]> (gm_assignments g')) (gm_workdir g') (gm_fs g') (gm_uuids g')).
Proof.
  intros [Hi Hw Hd Hs] Hm Hid Hn Hf. injection Hm as -> -> _. split; simpl; [done|..].
  - intros d. rewrite assigned_insert by done. intros [Hin|Hin]%elem_of_app; [by apply Hf|by apply Hw].
  - rewrite assigned_insert by done. apply list.NoDup_app. split_and!; [done| |done]. intros d Hin. by apply Hf.
  - intros id' a. destruct (decide (id = id')) as [->|]; [rewrite lookup_insert_eq; by intros [= <-]|].
    rewrite lookup_insert_ne by done. apply Hs.
Qed.

(** The ways an allocation ends: nothing changes in memory, or the executor holds
    a new assignment that the disk has. *)
Lemma allocate_cases e g :
  let '(r, g') := gpu_allocate e g in
  memory g' = memory g /\ (forall a, r = Ok a -> gm_assignments g !! fem.id e = Some a) /\
    (g' = g \/ gm_assignments g !! fem.id e = None /\ exists a, g' = (save (fem.id e) a g).2) \/
  exists g1 ds, r = Ok (assignment_for ds) /\ gm_assignments g !! fem.id e = None /\
    save (fem.id e) (assignment_for ds) g = (Ok tt, g1) /\
    ds = take (Z.to_nat (rr_gpu (fem.resreq e)))
           (List.filter (fun d => negb (bool_decide (d ∈ assigned (gm_assignments g)))) (gm_inventory g)) /\
    g' = mkGpu (gm_inventory g1) (<[fem.id e := assignment_for ds]> (gm_assignments g1)) (gm_workdir g1) (gm_fs g1) (gm_uuids g1).
Proof.
  unfold gpu_allocate. unfold mbind at 1, M_bind at 1, lift at 1.
  assert (forall r : result DeviceAssignment, is_ok r = false -> memory g = memory g /\
    (forall a, r = Ok a -> gm_assignments g !! fem.id e = Some a) /\
    (g = g \/ gm_assignments g !! fem.id e = None /\ exists a, g = (save (fem.id e) a g).2)) as Hsame.
  { intros r Hr. split_and!; [done| |by left]. by intros a ->. }
  destruct (validate_executor_id (fem.id e)) as [[]| |]; [|left; by apply Hsame..]. unfold mbind at 1, M_bind at 1. simpl.
  destruct (gm_assignments g !! fem.id e) as [a|] eqn:Ha; [left; split_and!; [done|by intros a' [= <-]|by left]|].
  destruct (_ <? 0); [left; by apply Hsame|]. set (ds := take _ _).
  destruct (Nat.eqb_spec (length ds) (Z.to_nat (rr_gpu (fem.resreq e)))) as [Hlen|]; simpl; [|left; by apply Hsame].
  rewrite <-Hlen. fold (assignment_for ds). unfold mbind, M_bind.
  pose proof (keeps_memory_save (memory g) (fem.id e) (assignment_for ds) g eq_refl) as Hm.
  destruct (save (fem.id e) (assignment_for ds) g) as [[[]|err|] g1] eqn:Hs; simpl in Hm |- *.
  - right. exists g1, ds. by rewrite Hs.
  - left. split_and!; [done..|]. right. split; [done|]. exists (assignment_for ds). by rewrite Hs.
  - left. split_and!; [done..|]. right. split; [done|]. exists (assignment_for ds). by rewrite Hs.
Qed.

Lemma allocate_keeps_ok e g : gpu_ok g -> gpu_ok (gpu_allocate e g).2.
Proof.
  intros Hg. pose proof (allocate_cases e g) as Hc. destruct (gpu_allocate e g) as [r g'].
  destruct Hc as [(Hm & _)|(g1 & ds & -> & Hid & Hs & Hds & ->)]; [by apply (gpu_ok_memory g)|].
  pose proof (take_free_ok g (Z.to_nat (rr_gpu (fem.resreq e))) Hg) as [Hn Hf]. rewrite <-Hds in Hn, Hf.
  apply (allocated_ok g); try done. by apply save_ok in Hs as [? _].
Qed.

Lemma release_cases e g :
  let '(r, g') := gpu_release e g in
  g' = g \/ g' = (remove (fem.id e) g).2 \/
  exists g1, g1 = (remove (fem.id e) g).2 /\
    g' = mkGpu (gm_inventory g1) (delete (fem.id e) (gm_assignments g1)) (gm_workdir g1) (gm_fs g1) (gm_uuids g1).
Proof.
  unfold gpu_release. unfold mbind at 1, M_bind at 1, lift at 1.
  destruct (validate_executor_id (fem.id e)) as [[]| |]; [|by left..]. unfold mbind at 1, M_bind at 1. simpl.
  destruct (gm_assignments g !! fem.id e); [|by left]. unfold mbind, M_bind.
  destruct (remove (fem.id e) g) as [[[]|err|] g1]; simpl in *; [|by right; left..]. right. right. by exists g1.
Qed.

Lemma release_keeps_ok e g : gpu_ok g -> gpu_ok (gpu_release e g).2.
Proof.
  intros Hg. pose proof (release_cases e g) as Hc. destruct (gpu_release e g) as [r g'].
  pose proof (keeps_memory_remove (memory g) (fem.id e) g eq_refl) as Hm.
  destruct Hc as [->|[->|(g1 & -> & ->)]]; [done|by apply (gpu_ok_memory g)|]. injection Hm as Hi Ha _.
  destruct Hg as [Hi0 Hw Hd Hs]. split; simpl; rewrite ?Hi, ?Ha; [done|..].
  - intros d (id & a & [_ Hid]%lookup_delete_Some & Hin)%elem_of_assigned. apply Hw, elem_of_assigned. by exists id, a.
  - destruct (gm_assignments g !! fem.id e) as [a|] eqn:He; [|by rewrite delete_id].
    rewrite <-(insert_delete_id _ _ _ He), assigned_insert in Hd by apply lookup_delete_eq.
    by apply list.NoDup_app in Hd as (_ & _ & ?).
  - intros id a [_ Hid]%lookup_delete_Some. by eapply Hs.
Qed.

(** C14 [invariant] No GPU is ever given to two executors.  From any files on disk,
    along every sequence of starts, discoveries, allocations and releases, and
    whichever calls to the file system fail, the assignments of a running manager
    are within its inventory, share no device, and show each executor exactly
    its devices. *)
Theorem gpu_exclusive evs g0 :
  let '(running, g) := gpu_run evs (false, g0) in
  running = true -> gpu_ok g /\
    forall id1 id2 a1 a2 d, gm_assignments g !! id1 = Some a1 -> gm_assignments g !! id2 = Some a2 ->
      d ∈ da_devices a1 -> d ∈ da_devices a2 -> id1 = id2.
Proof.
  assert (forall x, (x.1 = true -> gpu_ok x.2) -> (gpu_run evs x).1 = true -> gpu_ok (gpu_run evs x).2) as Hr.
  { induction evs as [|ev evs IH]; intros [running g] Hx; [done|]. apply IH. clear IH. simpl in Hx.
    destruct ev as [e|e|devices|devices], running; try done; simpl.
    - intros _. by apply allocate_keeps_ok, Hx.
    - intros _. by apply release_keeps_ok, Hx.
    - intros _. pose proof (discover_ok devices g) as Hf. destruct (gpu_discover devices g) as [r g'].
      destruct Hf as [He Ho]. destruct (is_ok r); [by apply Ho|]. destruct (He eq_refl) as [->| ->]; [by apply Hx|].
      apply (gpu_ok_memory g); [by apply keeps_memory_load|by apply Hx].
    - pose proof (discover_ok devices (gpu_restart g)) as Hf. destruct (gpu_discover devices (gpu_restart g)). apply Hf.
    - pose proof (discover_ok devices (gpu_restart g)) as Hf. destruct (gpu_discover devices (gpu_restart g)). apply Hf. }
  pose proof (Hr (false, g0) ltac:(done)) as Hg. destruct (gpu_run evs (false, g0)) as [running g].
  intros ->. specialize (Hg eq_refl). split; [done|]. intros id1 id2 a1 a2 d. apply exclusive, Hg.
Qed.

(** ** Every step keeps what was handed out *)

(** An executor holds an assignment: the disk has it, and so has the memory of a
    running process. *)
Definition holds id a (x : bool * GpuManager) : Prop :=
  recorded id a x.2 /\ (x.1 = true -> gm_assignments x.2 !! id = Some a).

(** A part of the program that keeps the file of the record and the memory. *)
Lemma recorded_keeps {A : Type} id a (m : M GpuManager A) g :
  (forall c, keeps (fun g' => file_at (record_path (gm_workdir g) id) c (gm_fs g') /\ memory g' = memory g) m) ->
  recorded id a g -> recorded id a (m g).2 /\ memory (m g).2 = memory g.
Proof.
  intros Hm (c & Hc & Ha). destruct (Hm c g (conj Hc eq_refl)) as [Hc' Hmem]. split; [|done]. exists c.
  injection Hmem as _ _ ->. done.
Qed.

Lemma record_path_ne w id id' : id <> id' -> record_path w id' <> record_path w id.
Proof. intros Hne [= Heq]%app_inv_head. apply Hne. symmetry. by apply record_name_inj. Qed.

Lemma recorded_save id a id' a' g :
  validate_executor_id id = Ok tt -> id <> id' -> recorded id a g -> recorded id a (save id' a' g).2.
Proof.
  intros Hv Hne Hr. apply (recorded_keeps id a (save id' a') g); [|done]. intros c. apply keeps_save; simpl.
  - intros uuid [= Heq]%app_inv_head. by eapply record_not_temporary.
  - by apply record_path_ne.
Qed.

Lemma recorded_with id a g m : recorded id a g -> recorded id a (mkGpu (gm_inventory g) m (gm_workdir g) (gm_fs g) (gm_uuids g)).
Proof. intros (c & ? & ?). by exists c. Qed.

Lemma recorded_remove id a id' g : id <> id' -> recorded id a g -> recorded id a (remove id' g).2.
Proof.
  intros Hne Hr. apply (recorded_keeps id a (remove id') g); [|done]. intros c. by apply keeps_remove, record_path_ne.
Qed.

Lemma holds_allocate id a e g :
  validate_executor_id id = Ok tt -> holds id a (true, g) -> holds id a (true, (gpu_allocate e g).2).
Proof.
  intros Hv [Hr Ha]. simpl in *. specialize (Ha eq_refl). pose proof (allocate_cases e g) as Hc.
  destruct (gpu_allocate e g) as [r g']. simpl. destruct Hc as [(Hm & _ & Hg)|(g1 & ds & _ & Hid & Hs & _ & ->)].
  - injection Hm as _ Hm _. split; simpl; [|by rewrite Hm]. destruct Hg as [->|(Hid & a' & ->)]; [done|].
    apply recorded_save; [done|congruence|done].
  - assert (id <> fem.id e) as Hne by congruence. pose proof (recorded_save id a _ (assignment_for ds) g Hv Hne Hr) as Hr'.
    rewrite Hs in Hr'. apply save_ok in Hs as [[= _ Hm _] _].
    split; simpl; [by apply (recorded_with id a g1)|]. intros _. by rewrite lookup_insert_ne, Hm.
Qed.

Lemma holds_release id a e g : fem.id e <> id -> holds id a (true, g) -> holds id a (true, (gpu_release e g).2).
Proof.
  intros Hne [Hr Ha]. simpl in *. specialize (Ha eq_refl). pose proof (release_cases e g) as Hc.
  pose proof (keeps_memory_remove (memory g) (fem.id e) g eq_refl) as [= _ Hm _].
  pose proof (recorded_remove id a (fem.id e) g (not_eq_sym Hne) Hr) as Hr'.
  destruct (gpu_release e g) as [r g']. destruct Hc as [->|[->|(g1 & -> & ->)]]; [done|..]; split; simpl; try done.
  - intros _. by rewrite Hm.
  - intros _. by rewrite lookup_delete_ne, Hm.
Qed.

Lemma recorded_load id a g : recorded id a g -> recorded id a (load g).2.
Proof. intros Hr. apply (recorded_keeps id a load g); [|done]. intros c. apply keeps_load. Qed.

Lemma recorded_discover id a devices g :
  validate_executor_id id = Ok tt -> recorded id a g ->
  let '(r, g') := gpu_discover devices g in recorded id a g' /\ (is_ok r = true -> gm_assignments g' !! id = Some a).
Proof.
  intros Hv Hr. pose proof (recorded_load id a g Hr) as (c & Hc & Ha).
  pose proof (keeps_memory_load (memory g) g eq_refl) as [= _ _ Hw].
  pose proof (discover_ok devices g) as Hd. destruct (gpu_discover devices g) as [r g']. destruct Hd as [He Ho].
  destruct (is_ok r).
  - destruct (Ho eq_refl) as (_ & Hw' & _ & g1 & Hl & Hfs). rewrite Hl in Hc, Hw. simpl in Hc, Hw. split.
    + exists c. by rewrite Hw', <-Hfs, <-Hw.
    + intros _. by eapply load_has.
  - split; [|done]. destruct (He eq_refl) as [->| ->]; [done|]. by apply recorded_load.
Qed.

Lemma recorded_restart id a g : recorded id a g -> recorded id a (gpu_restart g).
Proof. intros (c & ? & ?). by exists c. Qed.

Lemma holds_discover id a devices g :
  validate_executor_id id = Ok tt -> holds id a (true, g) -> holds id a (true, (gpu_discover devices g).2).
Proof.
  intros Hv [Hr Ha]. specialize (Ha eq_refl). simpl in *. pose proof (recorded_discover id a devices g Hv Hr) as Hd.
  pose proof (discover_ok devices g) as Ho. pose proof (keeps_memory_load (memory g) g eq_refl) as [= _ Hm _].
  destruct (gpu_discover devices g) as [r g']. destruct Hd as [Hr' Hd]. split; [done|]. intros _. simpl.
  destruct Ho as [He _]. destruct (is_ok r); [by apply Hd|].
  destruct (He eq_refl) as [->| ->]; [done|by rewrite Hm].
Qed.

Lemma holds_restart id a devices running g :
  validate_executor_id id = Ok tt -> holds id a (running, g) ->
  holds id a (let '(r, g') := gpu_discover devices (gpu_restart g) in (is_ok r, g')).
Proof.
  intros Hv [Hr _]. pose proof (recorded_discover id a devices (gpu_restart g) Hv (recorded_restart _ _ _ Hr)) as Hd.
  by destruct (gpu_discover devices (gpu_restart g)).
Qed.

(** C13 [safety] A GPU assignment that was handed out lasts until its executor is
    released.  Whatever starts, discoveries, allocations and releases of other
    executors follow, and whichever calls to the file system fail, the disk has
    the assignment, and every process that starts successfully knows it: its
    devices are given to no one else. *)
Theorem gpu_assignment_lasts e a g g1 evs :
  gm_assignments g !! fem.id e = None -> gpu_allocate e g = (Ok a, g1) ->
  (forall e', GpuRelease e' ∈ evs -> fem.id e' <> fem.id e) ->
  holds (fem.id e) a (gpu_run evs (true, g1)).
Proof.
  intros Hnew Hal Hevs.
  assert (validate_executor_id (fem.id e) = Ok tt) as Hv.
  { unfold gpu_allocate, mbind, M_bind, lift in Hal. by destruct (validate_executor_id (fem.id e)) as [[]| |]. }
  pose proof (allocate_cases e g) as Hc. rewrite Hal in Hc.
  destruct Hc as [(_ & Hn & _)|(g2 & ds & [= ->] & _ & Hs & _ & ->)]; [by rewrite Hnew in Hn; specialize (Hn a eq_refl)|].
  apply save_ok in Hs as [_ Hr].
  match goal with |- holds _ _ (gpu_run _ ?x) => assert (holds (fem.id e) (assignment_for ds) x) as Hx; [|revert Hx; generalize x] end.
  { split; [by apply recorded_with|]. intros _. simpl. by rewrite lookup_insert_eq. }
  induction evs as [|ev evs IH]; intros [running g3] Hx; [done|].
  apply IH; [intros e' He'; apply Hevs; by right|]. clear IH.
  destruct ev as [e'|e'|devices|devices], running; try done; simpl.
  - by apply holds_allocate.
  - apply holds_release; [|done]. apply Hevs. by left.
  - by apply holds_discover.
  - by eapply holds_restart.
  - by eapply holds_restart.
Qed.
End runs.
