(* ===== verification/Devices.v ===== *)
(** * The devices of a node and who runs on them

    [executor_manager/src/devices]: the managers of CPU, memory and GPUs behind
    one trait, and [executor_manager/src/manager.rs]: the executors a node runs,
    started by the notifications of the session manager. *)
From S2P Require Import Prelude Types FsDisk FsRecord Rpc Worker Ledger Gpu GpuInv.
Local Open Scope Z_scope.

Definition CPU : string := "cpu".
Definition MEMORY : string := "memory".

(** The [n]-th look at the machine: its processors, its memory and the GPUs
    [GpuDiscovery] finds. *)
Class Hardware := {
  num_cpus : nat -> Z;
  total_memory : nat -> Z;
  gpu_devices : nat -> result (list string)
}.

Class HardwareSpec `{Hardware} : Prop := {
  num_cpus_u64 : forall n, is_u64 (num_cpus n);
  total_memory_u64 : forall n, is_u64 (total_memory n)
}.

(** The implementations of the trait [DeviceManager]. *)
Inductive Manager :=
  | CpuManager (l : Ledger)
  | MemoryManager (l : Ledger)
  | TheGpuManager (g : GpuManager).

(** [DeviceAssignment::new(Vec::new()).with_value(value)]. *)
Definition amount (value : Z) : DeviceAssignment := mkAssignment ∅ [] [] value.

Section devices.
Context `{Disk} `{Json DeviceAssignment} `{Env} `{Uuids} `{Hardware}.

(** An operation of a ledger is one of the manager that has it. *)
Definition on_ledger {A B} (mk : Ledger -> Manager) (f : A -> B) (m : M Ledger A) (l : Ledger) : result B * Manager :=
  let '(r, l) := m l in (f <$> r, mk l).

Definition manager_discover (n : nat) : M Manager unit := fun m =>
  match m with
  | CpuManager l => on_ledger CpuManager (fun x => x) (Ledger.refresh (num_cpus n)) l
  | MemoryManager l => on_ledger MemoryManager (fun x => x) (Ledger.refresh (total_memory n)) l
  | TheGpuManager g => let '(r, g) := gpu_discover (gpu_devices n) g in (r, TheGpuManager g)
  end.

Definition manager_capacity (m : Manager) : ResourceRequirement :=
  match m with
  | CpuManager l => mkRR (Ledger.total l) 0 0
  | MemoryManager l => mkRR 0 (Ledger.total l) 0
  | TheGpuManager g => gpu_capacity g
  end.

Definition manager_allocate (e : fem.Executor) : M Manager DeviceAssignment := fun m =>
  match m with
  | CpuManager l => on_ledger CpuManager amount (Ledger.allocate (fem.id e) (rr_cpu (fem.resreq e))) l
  | MemoryManager l => on_ledger MemoryManager amount (Ledger.allocate (fem.id e) (rr_memory (fem.resreq e))) l
  | TheGpuManager g => let '(r, g) := gpu_allocate e g in (r, TheGpuManager g)
  end.

Definition manager_release (e : fem.Executor) : M Manager unit := fun m =>
  match m with
  | CpuManager l => on_ledger CpuManager (fun x => x) (Ledger.release (fem.id e)) l
  | MemoryManager l => on_ledger MemoryManager (fun x => x) (Ledger.release (fem.id e)) l
  | TheGpuManager g => let '(r, g) := gpu_release e g in (r, TheGpuManager g)
  end.

(** ** The registry of managers *)

Record DeviceManagers := mkDevices { dm_managers : list (string * Manager); dm_looks : nat }.

(** [for (name, manager) in &self.managers], until one fails. *)
Fixpoint each {A} (op : M Manager A) (l : list (string * Manager))
    : result (list (string * A)) * list (string * Manager) :=
  match l with
  | [] => (Ok [], [])
  | (name, m) :: l =>
      match op m with
      | (Ok a, m) => let '(r, l) := each op l in (cons (name, a) <$> r, (name, m) :: l)
      | (Err e, m) => (Err e, (name, m) :: l)
      | (Panic, m) => (Panic, (name, m) :: l)
      end
  end.

Definition on_each {A} (op : nat -> M Manager A) : M DeviceManagers (list (string * A)) := fun d =>
  let '(r, l) := each (op (dm_looks d)) (dm_managers d) in (r, mkDevices l (S (dm_looks d))).

Definition discover : M DeviceManagers unit :=
  on_each manager_discover ≫= fun _ => mret tt.

Definition add_capacity (c devices : ResourceRequirement) : ResourceRequirement :=
  mkRR (wrap_u64 (rr_cpu c + rr_cpu devices)) (wrap_u64 (rr_memory c + rr_memory devices))
    (wrap_i32 (rr_gpu c + rr_gpu devices)).

Definition capacity (d : DeviceManagers) : ResourceRequirement :=
  foldl (fun c nm => add_capacity c (manager_capacity nm.2)) (mkRR 0 0 0) (dm_managers d).

(** Claims of the managers that succeeded stay if a later one fails. *)
Definition allocate (e : fem.Executor) : M DeviceManagers (gmap string DeviceAssignment) :=
  l ← on_each (fun _ => manager_allocate e);
  mret (hm_collect l).

Definition release (e : fem.Executor) : M DeviceManagers unit :=
  on_each (fun _ => manager_release e) ≫= fun _ => mret tt.

(** The names of the configuration are checked before anything else. *)
Fixpoint check_names (seen : gset string) (names : list string) : result unit :=
  match names with
  | [] => Ok tt
  | name :: names =>
      if bool_decide (name ∈ seen) then Err EInvalidConfig
      else if bool_decide (name = CPU) || bool_decide (name = MEMORY) then Err EInvalidConfig
      else if negb (bool_decide (name = GPU)) then Err EInvalidConfig
      else check_names ({[name]} ∪ seen) names
  end.

Fixpoint load_extras (g : GpuManager) (n : nat) (names : list string) : result (list (string * Manager)) :=
  match names with
  | [] => Ok []
  | name :: names =>
      match gpu_discover (gpu_devices n) g with
      | (Ok _, g) => cons (name, TheGpuManager g) <$> load_extras g n names
      | (Err e, _) => Err e
      | (Panic, _) => Panic
      end
  end.

(** [DeviceManagers::load], at the [n]-th look and over the files of [g]. *)
Definition load (g : GpuManager) (n : nat) (names : list string) (system : ResourceRequirement)
    : result DeviceManagers :=
  if negb (rr_gpu system =? 0) then Err EInvalidConfig
  else
    check_names ∅ names ≫= fun _ =>
    cpu ← Ledger.reserve (Ledger.new CPU (num_cpus n)) (rr_cpu system);
    memory ← Ledger.reserve (Ledger.new MEMORY (total_memory n)) (rr_memory system);
    extras ← load_extras (gpu_restart g) n names;
    Ok (mkDevices ((CPU, CpuManager cpu) :: (MEMORY, MemoryManager memory) :: extras) (S n)).

(** ** The executors of a node ([manager.rs]) *)

Record ExecutorManager := mkManager {
  em_shims : list Shim;
  em_executors : gmap string fem.Executor;
  em_devices : DeviceManagers
}.

(** [FlameExecutors::shim_for]; the list of shims has a first one. *)
Definition shim_for (shims : list Shim) (requested : Shim) : result Shim :=
  if bool_decide (requested ∈ shims) then Ok requested
  else match shims with shim :: _ => Ok shim | [] => Panic end.

Definition with_devices (d : DeviceManagers) (m : ExecutorManager) : ExecutorManager :=
  mkManager (em_shims m) (em_executors m) d.

Definition put_executor (id : string) (e : fem.Executor) : M ExecutorManager unit :=
  modify (fun m => mkManager (em_shims m) (<[id := e]> (em_executors m)) (em_devices m)).

(** What the manager adds to an executor it starts. *)
Definition equipped (shim : Shim) (assignments : gmap string DeviceAssignment) (e : fem.Executor) : fem.Executor :=
  fem.mkExecutor (fem.id e) (fem.application e) (fem.resreq e) assignments true true (fem.node e) shim
    (fem.session e) (fem.task e) (fem.shim_instance e) (fem.state e).

(** The worker of an executor that is put in the map is started. *)
Definition handle_executor_update (e : fem.Executor) : M ExecutorManager unit :=
  existing ← gets (fun m => em_executors m !! fem.id e);
  if bool_decide (fem.state e = ExecReleased)
  then modify (fun m => mkManager (em_shims m) (delete (fem.id e) (em_executors m)) (em_devices m))
  else match existing with
  | Some _ => mret tt
  | None =>
      shims ← gets em_shims;
      shim ← lift (shim_for shims (fem.shim e));
      let e := equipped shim (fem.assignments e) e in
      assignments ← zoom em_devices with_devices (allocate e);
      put_executor (fem.id e) (equipped shim assignments e)
  end.

(** A worker frees the devices of its executor. *)
Definition free_devices (e : fem.Executor) : M ExecutorManager unit :=
  zoom em_devices with_devices (release e).
End devices.
