(* ===== verification/DevicesInv.v ===== *)
(** * A node never promises more than it has

    The managers of [Devices] keep the claims of executors within what the node
    reports as its capacity, and every executor the node runs has exactly the
    claims its assignments say. *)
From stdpp Require Import countable.
From S2P Require Import Prelude Types Snapshot FsDisk FsRecord FsDemo Rpc Worker Ledger Gpu GpuInv Devices.
Local Open Scope Z_scope.

Section invariant.
Context `{Disk} `{Json DeviceAssignment} `{!JsonSpec DeviceAssignment} `{Env} `{Uuids} `{HardwareSpec}.
Implicit Types (m : Manager) (e : fem.Executor) (id : string).

Definition manager_ok m : Prop :=
  match m with
  | CpuManager l | MemoryManager l => Ledger.ledger_ok l
  | TheGpuManager g => gpu_ok g
  end.

(** What a manager has given to an executor. *)
Definition claim_of m id : option DeviceAssignment :=
  match m with
  | CpuManager l | MemoryManager l => amount <$> lg_claims l !! id
  | TheGpuManager g => gm_assignments g !! id
  end.

Definition kind m : nat := match m with CpuManager _ => 0 | MemoryManager _ => 1 | TheGpuManager _ => 2 end.

(** The requests of an executor are [u64]. *)
Definition exec_ok e : Prop := is_u64 (rr_cpu (fem.resreq e)) /\ is_u64 (rr_memory (fem.resreq e)).

(** An operation keeps a manager consistent, and the claims of the executors
    [keep] speaks of. *)
Definition preserves {A} (op : M Manager A) (keep : string -> Prop) : Prop := forall m,
  manager_ok m -> let '(r, m') := op m in
  manager_ok m' /\ kind m' = kind m /\
  forall id x, keep id -> claim_of m id = Some x -> claim_of m' id = Some x.

(** ** Allocation *)

Lemma ledger_allocate_claims id n l : Ledger.ledger_ok l -> is_u64 n ->
  let '(r, l') := Ledger.allocate id n l in
  Ledger.ledger_ok l' /\ lg_claims l ⊆ lg_claims l' /\ forall x, r = Ok x -> lg_claims l' !! id = Some x.
Proof.
  intros Hl Hn. pose proof (Ledger.allocate_spec id n l Hl Hn) as Ha. destruct (Ledger.allocate id n l) as [r l'].
  destruct Ha as (Hok & _ & _ & Ha). split; [done|].
  destruct (lg_claims l !! id) as [y|] eqn:Hid; [destruct Ha as [-> ->]; split; [done|by intros x [= <-]]|].
  destruct (_ <=? _).
  - destruct Ha as [-> ->]. split; [by apply insert_subseteq|]. intros x [= <-]. by rewrite lookup_insert_eq.
  - destruct Ha as [-> ->]. by split.
Qed.

Lemma gpu_allocate_claims e g :
  let '(r, g') := gpu_allocate e g in
  gm_assignments g ⊆ gm_assignments g' /\ forall a, r = Ok a -> gm_assignments g' !! fem.id e = Some a.
Proof.
  pose proof (allocate_cases e g) as Hc. destruct (gpu_allocate e g) as [r g'].
  destruct Hc as [([= _ -> _] & Ha & _)|(g1 & ds & -> & Hid & [[= _ Hm _] _]%save_ok & _ & ->)].
  - split; [done|]. exact Ha.
  - simpl. rewrite Hm. split; [by apply insert_subseteq|]. intros a [= <-]. by rewrite lookup_insert_eq.
Qed.

Lemma claims_subseteq (f g : gmap string Z) id x : f ⊆ g -> amount <$> f !! id = Some x -> amount <$> g !! id = Some x.
Proof. intros Hs (y & Hy & ->)%fmap_Some. by rewrite (lookup_weaken _ _ _ _ Hy Hs). Qed.

Lemma allocate_preserves e : exec_ok e -> preserves (manager_allocate e) (fun _ => True).
Proof.
  intros [Hc Hm] [l|l|g] Hok; simpl in Hok |- *; unfold on_ledger.
  - pose proof (ledger_allocate_claims (fem.id e) _ l Hok Hc) as Ha. destruct (Ledger.allocate _ _ l) as [r l'].
    destruct Ha as (Hok' & Hs & _). split_and!; [done..|]. intros id x _. by apply claims_subseteq.
  - pose proof (ledger_allocate_claims (fem.id e) _ l Hok Hm) as Ha. destruct (Ledger.allocate _ _ l) as [r l'].
    destruct Ha as (Hok' & Hs & _). split_and!; [done..|]. intros id x _. by apply claims_subseteq.
  - pose proof (gpu_allocate_claims e g) as Ha. pose proof (allocate_keeps_ok e g Hok) as Hok'.
    destruct (gpu_allocate e g) as [r g']. destruct Ha as [Hs _]. split_and!; [done..|]. intros id x _ Hx.
    by eapply lookup_weaken.
Qed.

(** What is returned is what is held. *)
Lemma allocate_given e m : manager_ok m -> exec_ok e ->
  let '(r, m') := manager_allocate e m in forall a, r = Ok a -> claim_of m' (fem.id e) = Some a.
Proof.
  intros Hok [Hc Hm]. destruct m as [l|l|g]; simpl in Hok |- *; unfold on_ledger.
  - pose proof (ledger_allocate_claims (fem.id e) _ l Hok Hc) as Ha. destruct (Ledger.allocate _ _ l) as [[v| |] l']; [|done..].
    destruct Ha as (_ & _ & Ha). intros a [= <-]. simpl. by rewrite (Ha v eq_refl).
  - pose proof (ledger_allocate_claims (fem.id e) _ l Hok Hm) as Ha. destruct (Ledger.allocate _ _ l) as [[v| |] l']; [|done..].
    destruct Ha as (_ & _ & Ha). intros a [= <-]. simpl. by rewrite (Ha v eq_refl).
  - pose proof (gpu_allocate_claims e g) as Ha. by destruct (gpu_allocate e g) as [r g'], Ha as [_ Ha].
Qed.

(** ** Release and discovery *)

Lemma release_preserves e : preserves (manager_release e) (fun id => id <> fem.id e).
Proof.
  intros [l|l|g] Hok; simpl in Hok |- *.
  - split_and!; [by apply (Ledger.release_spec (fem.id e))|done|]. intros id x Hne. simpl. by rewrite lookup_delete_ne.
  - split_and!; [by apply (Ledger.release_spec (fem.id e))|done|]. intros id x Hne. simpl. by rewrite lookup_delete_ne.
  - pose proof (release_cases e g) as Hc. pose proof (release_keeps_ok e g Hok) as Hok'.
    pose proof (keeps_memory_remove (memory g) (fem.id e) g eq_refl) as [= _ Hm _].
    destruct (gpu_release e g) as [r g']. split_and!; [done..|]. intros id x Hne Hx. simpl in *.
    destruct Hc as [->|[->|(g1 & -> & ->)]]; [done|by rewrite Hm|]. simpl. by rewrite lookup_delete_ne, Hm.
Qed.

Lemma discover_preserves n : preserves (manager_discover n) (fun _ => True).
Proof.
  intros [l|l|g] Hok; simpl in Hok |- *; unfold on_ledger.
  - pose proof (Ledger.refresh_spec (num_cpus n) l Hok (num_cpus_u64 n)) as Hr.
    destruct (Ledger.refresh _ l) as [r l']. destruct Hr as (Hok' & Hc & _). split_and!; [done..|]. simpl. by rewrite Hc.
  - pose proof (Ledger.refresh_spec (total_memory n) l Hok (total_memory_u64 n)) as Hr.
    destruct (Ledger.refresh _ l) as [r l']. destruct Hr as (Hok' & Hc & _). split_and!; [done..|]. simpl. by rewrite Hc.
  - pose proof (discover_claims (gpu_devices n) g) as Hd. destruct (gpu_discover (gpu_devices n) g) as [r g'].
    destruct Hd as [Hok' Hs]. split_and!; [by apply Hok'|done|]. intros id x _ Hx. by eapply lookup_weaken.
Qed.

(** ** All managers *)

Definition shape (l : list (string * Manager)) : list (string * nat) := (fun nm => (nm.1, kind nm.2)) <$> l.

(** What an executor holds with every manager. *)
Definition held_by (l : list (string * Manager)) id (a : gmap string DeviceAssignment) : Prop :=
  forall name m, (name, m) ∈ l -> is_Some (claim_of m id) /\ a !! name = claim_of m id.

Lemma each_preserves {A} (op : M Manager A) keep l :
  preserves op keep -> Forall manager_ok l.*2 ->
  let '(r, l') := each op l in
  Forall manager_ok l'.*2 /\ shape l' = shape l /\
  Forall2 (fun nm nm' => forall id x, keep id -> claim_of nm.2 id = Some x -> claim_of nm'.2 id = Some x) l l'.
Proof.
  intros Hp. induction l as [|[name m] l IH]; intros Hok; simpl; [by split_and!|].
  rewrite fmap_cons, list.Forall_cons in Hok. destruct Hok as [Hm Hok]. specialize (IH Hok). specialize (Hp m Hm).
  destruct (op m) as [[a|e|] m'].
  2,3: destruct Hp as (? & Hk & ?); split_and!; [by constructor|unfold shape; simpl; by rewrite Hk|];
    constructor; [done|]; clear; induction l; by constructor.
  destruct (each op l) as [r l']. destruct Hp as (? & Hk & ?), IH as (? & Hs & ?). simpl in *.
  split_and!; [by constructor|unfold shape in *; simpl; by rewrite Hk, Hs|by constructor].
Qed.

(** Claims that are kept are held as before. *)
Lemma held_by_keeps l l' id a :
  shape l' = shape l -> NoDup l.*1 ->
  Forall2 (fun nm nm' => forall x, claim_of nm.2 id = Some x -> claim_of nm'.2 id = Some x) l l' ->
  held_by l id a -> held_by l' id a.
Proof.
  intros Hs Hn Hf Ha. revert Hs Hn Ha. induction Hf as [|[n1 m1] [n2 m2] l l' Hc _ IH]; intros Hs Hn Ha; [done|].
  injection Hs as -> Hk Hs. apply list.NoDup_cons in Hn as [_ Hn]. intros name m [[= -> ->]|Hin]%elem_of_cons.
  - destruct (Ha n1 m1 ltac:(left)) as [[x Hx] Heq]. simpl in Hc. rewrite (Hc x Hx). split; [by eexists|]. by rewrite Heq.
  - eapply IH; [done..| |done]. intros n m0 Hin0. apply Ha. by right.
Qed.

(** The assignments that are returned are the claims. *)
Lemma each_given e l :
  exec_ok e -> Forall manager_ok l.*2 ->
  let '(r, l') := each (manager_allocate e) l in
  forall rs, r = Ok rs -> Forall2 (fun na nm => na.1 = nm.1 /\ claim_of nm.2 (fem.id e) = Some na.2) rs l'.
Proof.
  intros He. induction l as [|[name m] l IH]; intros Hok; simpl; [by intros rs [= <-]|].
  rewrite fmap_cons, list.Forall_cons in Hok. destruct Hok as [Hm Hok]. specialize (IH Hok). pose proof (allocate_given e m Hm He) as Hg.
  destruct (manager_allocate e m) as [[a|err|] m']; [|done..].
  destruct (each (manager_allocate e) l) as [[rs'|err|] l']; [|done..].
  intros rs [= <-]. constructor; [split; [done|by apply Hg]|by apply IH].
Qed.


(** ** The executors of a node *)

(** A notification of the session manager, a worker that frees its devices, and
    a look at the machine. *)
Inductive node_event :=
  | NodeUpdate (e : fem.Executor)
  | NodeFree (e : fem.Executor)
  | NodeDiscover.

(** The manager, with the executors whose workers have freed their devices. *)
Definition node_apply (ev : node_event) (x : ExecutorManager * gset string) : ExecutorManager * gset string :=
  let '(m, freed) := x in
  match ev with
  | NodeUpdate e =>
      ((handle_executor_update e m).2, if em_executors m !! fem.id e then freed else freed ∖ {[fem.id e]})
  | NodeFree e => ((free_devices e m).2, freed ∪ {[fem.id e]})
  | NodeDiscover => ((zoom em_devices with_devices discover m).2, freed)
  end.

Definition node_run (evs : list node_event) (x : ExecutorManager * gset string) : ExecutorManager * gset string :=
  foldl (fun x ev => node_apply ev x) x evs.

Definition event_ok (ev : node_event) : Prop :=
  match ev with NodeUpdate e => exec_ok e | _ => True end.

Abbreviation managers m := (dm_managers (em_devices m)).

Record node_ok (S : list (string * nat)) (x : ExecutorManager * gset string) : Prop := {
  no_managers : Forall manager_ok (managers x.1).*2;
  no_shape : shape (managers x.1) = S;
  no_executors : forall id e, em_executors x.1 !! id = Some e ->
    fem.id e = id /\ (id ∉ x.2 -> held_by (managers x.1) id (fem.assignments e))
}.

Lemma shape_names l : (shape l).*1 = l.*1.
Proof. unfold shape. rewrite <-list_fmap_compose. by apply list_fmap_ext. Qed.

(** A step on all managers, as the registry makes it. *)
Lemma on_each_ok {A} (op : nat -> M Manager A) keep S (m : ExecutorManager) freed :
  NoDup S.*1 -> (forall n, preserves (op n) keep) -> node_ok S (m, freed) ->
  let d := (on_each op (em_devices m)).2 in
  Forall manager_ok (dm_managers d).*2 /\ shape (dm_managers d) = S /\
  forall id a, keep id -> held_by (managers m) id a -> held_by (dm_managers d) id a.
Proof.
  intros Hn Hp [Hm Hs _]. simpl in *. unfold on_each.
  pose proof (each_preserves (op (dm_looks (em_devices m))) keep (managers m) (Hp _) Hm) as He.
  destruct (each _ (managers m)) as [r l']. destruct He as (Hm' & Hs' & Hf). simpl.
  split_and!; [done|congruence|]. intros id a Hk. apply held_by_keeps; [done|by rewrite <-shape_names, Hs|].
  eapply (list.Forall2_impl _ _ _ _ Hf). intros nm nm' Hnm x. by apply Hnm.
Qed.

Lemma node_free_ok S e x : NoDup S.*1 -> node_ok S x -> node_ok S (node_apply (NodeFree e) x).
Proof.
  destruct x as [m freed]. intros Hn Hx. simpl. unfold free_devices, zoom, release, mbind, M_bind.
  pose proof (on_each_ok _ _ S m freed Hn (fun _ => release_preserves e) Hx) as Ho.
  destruct (on_each _ (em_devices m)) as [r d]. simpl in Ho. destruct Ho as (Hm & Hs & Hk).
  assert (node_ok S (with_devices d m, freed ∪ {[fem.id e]})) as Hok; [|by destruct r].
  destruct Hx as [_ _ He]. split; [done..|]. intros id x Hx. destruct (He id x Hx) as [Hid Hh]. split; [done|].
  simpl. intros Hnot. apply Hk; [set_solver|]. apply Hh. set_solver.
Qed.

Lemma node_discover_ok S x : NoDup S.*1 -> node_ok S x -> node_ok S (node_apply NodeDiscover x).
Proof.
  destruct x as [m freed]. intros Hn Hx. simpl. unfold zoom, discover, mbind, M_bind.
  pose proof (on_each_ok _ _ S m freed Hn discover_preserves Hx) as Ho.
  destruct (on_each _ (em_devices m)) as [r d]. simpl in Ho. destruct Ho as (Hm & Hs & Hk).
  assert (node_ok S (with_devices d m, freed)) as Hok; [|by destruct r].
  destruct Hx as [_ _ He]. split; [done..|]. intros id x Hx. destruct (He id x Hx) as [Hid Hh]. split; [done|].
  intros Hnot. apply Hk; [done|]. by apply Hh.
Qed.

(** A successful allocation gives the executor its claims. *)
Lemma allocate_held S e (m : ExecutorManager) freed assignments d :
  NoDup S.*1 -> exec_ok e -> node_ok S (m, freed) -> allocate e (em_devices m) = (Ok assignments, d) ->
  held_by (dm_managers d) (fem.id e) assignments.
Proof.
  intros Hn He [Hm Hs _]. simpl in *. unfold allocate, mbind, M_bind, on_each.
  pose proof (each_given e (managers m) He Hm) as Hg.
  pose proof (each_preserves (manager_allocate e) _ (managers m) (allocate_preserves e He) Hm) as Hp.
  destruct (each _ (managers m)) as [[rs|err|] l]; [|done..]. intros [= <- <-]. simpl. specialize (Hg rs eq_refl).
  destruct Hp as (_ & Hs' & _). assert (rs.*1 = l.*1) as Hnames.
  { clear -Hg. induction Hg as [|na nm rs l [Hna _] _ IH]; [done|]. rewrite !fmap_cons. by f_equal. }
  intros name mg (i & Hi)%list_elem_of_lookup. destruct (Forall2_lookup_r _ _ _ _ _ Hg Hi) as ([name' a] & Hr & Heq & Hc).
  simpl in *. subst name'. rewrite Hc. split; [by eexists|]. apply hm_collect_lookup.
  - rewrite Hnames, <-shape_names, Hs', Hs. done.
  - by eapply list_elem_of_lookup_2.
Qed.

(** The executors a step leaves hold what they held, whatever it does for an
    executor that the node did not have. *)
Lemma node_ok_others S id (m : ExecutorManager) freed d :
  em_executors m !! id = None -> node_ok S (m, freed) ->
  Forall manager_ok (dm_managers d).*2 -> shape (dm_managers d) = S ->
  (forall id a, held_by (managers m) id a -> held_by (dm_managers d) id a) ->
  node_ok S (with_devices d m, freed ∖ {[id]}).
Proof.
  intros Hid [_ _ Hh] Hm Hs Hk. split; [done..|]. intros id' x Hx. destruct (Hh id' x Hx) as [Hid' Hh'].
  split; [done|]. simpl in *. intros Hnot. apply Hk, Hh'. set_solver.
Qed.

Lemma node_update_ok S e x : NoDup S.*1 -> exec_ok e -> node_ok S x -> node_ok S (node_apply (NodeUpdate e) x).
Proof.
  destruct x as [m freed]. intros Hn He Hx. simpl. unfold handle_executor_update, mbind, M_bind. simpl.
  assert (em_executors m !! fem.id e = None -> node_ok S (m, freed ∖ {[fem.id e]})) as Hsame.
  { intros Hnone. destruct m. by apply (node_ok_others S (fem.id e) _ freed _ Hnone Hx); destruct Hx. }
  case_bool_decide.
  - simpl. assert (forall f, node_ok S (m, f) -> node_ok S
      (mkManager (em_shims m) (delete (fem.id e) (em_executors m)) (em_devices m), f)) as Hd.
    { intros f [? ? Hh]. split; [done..|]. intros id x. simpl. intros [_ Hd]%lookup_delete_Some. by apply Hh. }
    destruct (em_executors m !! fem.id e) eqn:Hold; apply Hd; [done|by apply Hsame].
  - destruct (em_executors m !! fem.id e) as [old|] eqn:Hold; [done|]. simpl. unfold lift.
    destruct (shim_for (em_shims m) (fem.shim e)) as [shim|err|]; simpl; [|by apply Hsame..].
    set (e' := equipped shim (fem.assignments e) e). unfold zoom.
    pose proof (on_each_ok _ _ S m freed Hn (fun _ => allocate_preserves e' He) Hx) as Ho.
    pose proof (fun a d => allocate_held S e' m freed a d Hn He Hx) as Hheld.
    unfold allocate, mbind, M_bind in Hheld |- *.
    destruct (on_each (fun _ => manager_allocate e') (em_devices m)) as [[rs|err|] d]; simpl in Ho |- *;
      destruct Ho as (Hm & Hs & Hk).
    2,3: apply node_ok_others; auto.
    pose proof (node_ok_others S (fem.id e) m freed d Hold Hx Hm Hs (fun id a => Hk id a I)) as [_ _ Hh].
    split; [done..|]. intros id x. simpl. destruct (decide (fem.id e = id)) as [<-|Hne].
    + rewrite lookup_insert_eq. intros [= <-]. split; [done|]. intros _. by apply (Hheld _ _ eq_refl).
    + rewrite lookup_insert_ne by done. apply Hh.
Qed.

Lemma node_run_ok S evs x : NoDup S.*1 -> Forall event_ok evs -> node_ok S x -> node_ok S (node_run evs x).
Proof.
  intros Hn Hevs. revert x. induction Hevs as [|ev evs Hev _ IH]; intros x Hx; [done|]. apply IH.
  destruct ev; [by apply node_update_ok|by apply node_free_ok|by apply node_discover_ok].
Qed.

(** ** From the start *)

Lemma check_names_ok names : check_names ∅ names = Ok tt -> names = [] \/ names = [GPU].
Proof.
  destruct names as [|name names]; [by left|]. simpl. case_bool_decide; [done|].
  destruct (_ || _); [done|]. case_bool_decide as Hg; [|done]. subst. simpl.
  destruct names as [|name names]; [by right|]. simpl. case_bool_decide as Hin; [done|].
  destruct (_ || _); [done|]. case_bool_decide; [|done]. set_solver.
Qed.

Definition node_shape (names : list string) : list (string * nat) :=
  (CPU, 0%nat) :: (MEMORY, 1%nat) :: ((fun name => (name, 2%nat)) <$> names).

Lemma load_ok g n names system d :
  is_u64 (rr_cpu system) -> is_u64 (rr_memory system) -> load g n names system = Ok d ->
  (names = [] \/ names = [GPU]) /\ Forall manager_ok (dm_managers d).*2 /\ shape (dm_managers d) = node_shape names.
Proof.
  intros Hc Hm. unfold load. destruct (negb _); [done|].
  destruct (check_names ∅ names) as [[]| |] eqn:Hn; [|done..]. apply check_names_ok in Hn. simpl.
  destruct (Ledger.reserve _ (rr_cpu system)) as [cpu| |] eqn:Hcpu; [|done..].
  apply Ledger.reserve_ok in Hcpu as [Hcpu _]; [|apply num_cpus_u64|done]. simpl.
  destruct (Ledger.reserve _ (rr_memory system)) as [memory| |] eqn:Hmem; [|done..].
  apply Ledger.reserve_ok in Hmem as [Hmem _]; [|apply total_memory_u64|done]. simpl.
  destruct Hn as [->| ->]; simpl; [intros [= <-]; split_and!; [by left|constructor; [exact Hcpu|constructor; [exact Hmem|constructor]]|done]|].
  pose proof (discover_ok (gpu_devices n) (gpu_restart g)) as Hd.
  destruct (gpu_discover (gpu_devices n) (gpu_restart g)) as [[u| |] g']; simpl in *; [|done..].
  intros [= <-]. split_and!; [by right| |done].
  constructor; [exact Hcpu|constructor; [exact Hmem|constructor; [|constructor]]]. by apply Hd.
Qed.

(** The amounts the executors of a node hold, but for those who have freed their
    devices. *)
Definition held (name : string) (x : ExecutorManager * gset string) : gmap string Z :=
  map_imap (fun id e => if bool_decide (id ∈ x.2) then None else da_value <$> fem.assignments e !! name) (em_executors x.1).

(** What a ledger was asked for covers what executors hold of it. *)
Lemma held_claims S name m l x :
  node_ok S x -> (name, m) ∈ managers x.1 -> (m = CpuManager l \/ m = MemoryManager l) ->
  Ledger.spent (held name x) <= Ledger.total l.
Proof.
  intros [Hm _ Hh] Hin Hl. assert (Ledger.ledger_ok l) as Hok.
  { rewrite list.Forall_forall in Hm. specialize (Hm m (list_elem_of_fmap_2 snd _ _ Hin)). by destruct Hl as [->| ->]. }
  etrans; [|apply (Ledger.lo_spent l Hok)]. apply Ledger.spent_subseteq; [|apply (Ledger.lo_claims l Hok)].
  apply map_subseteq_spec. intros id v. unfold held. rewrite map_lookup_imap.
  intros (e & He & Hv)%bind_Some. case_bool_decide as Hf; [done|]. destruct (Hh id e He) as [_ He'].
  destruct (He' Hf name m Hin) as [_ Heq]. rewrite Heq in Hv.
  destruct Hl as [->| ->]; simpl in Hv; destruct (lg_claims l !! id) as [v'|]; simplify_eq/=; done.
Qed.

Lemma shape_inv names l :
  names = [] \/ names = [GPU] -> shape l = node_shape names ->
  exists c mem gs, l = (CPU, CpuManager c) :: (MEMORY, MemoryManager mem) :: gs /\
    (names = [] /\ gs = [] \/ exists g, names = [GPU] /\ gs = [(GPU, TheGpuManager g)]).
Proof.
  intros Hn. destruct l as [|[n1 m1] [|[n2 m2] gs]]; try done. intros [= -> Hk1 -> Hk2 Hgs].
  destruct m1 as [c| |]; try done. destruct m2 as [|mem|]; try done. exists c, mem, gs. split; [done|].
  destruct Hn as [->| ->]; destruct gs as [|[n3 m3] [|]]; try done; [by left|].
  injection Hgs as -> Hk3. destruct m3 as [| |g]; try done. right. by exists g.
Qed.

(** C12 [bounds] A node never gives its executors more than it reports.  From every
    successful start, whatever notifications arrive, devices are freed and looks
    at the machine succeed or fail, and whichever calls to the file system fail:
    the CPU and memory the executors of the node hold are within the capacity
    the node reports, and no two of them have a GPU in common. *)
Theorem node_within_capacity g n names system shims d evs :
  is_u64 (rr_cpu system) -> is_u64 (rr_memory system) -> load g n names system = Ok d -> Forall event_ok evs ->
  let x := node_run evs (mkManager shims ∅ d, ∅) in
  Ledger.spent (held CPU x) <= rr_cpu (capacity (em_devices x.1)) /\
  Ledger.spent (held MEMORY x) <= rr_memory (capacity (em_devices x.1)) /\
  (GPU ∈ names -> forall id1 id2 e1 e2 a1 a2 device,
     em_executors x.1 !! id1 = Some e1 -> em_executors x.1 !! id2 = Some e2 -> id1 ∉ x.2 -> id2 ∉ x.2 ->
     fem.assignments e1 !! GPU = Some a1 -> fem.assignments e2 !! GPU = Some a2 ->
     device ∈ da_devices a1 -> device ∈ da_devices a2 -> id1 = id2).
Proof.
  intros Hc Hm Hl Hevs. destruct (load_ok g n names system d Hc Hm Hl) as (Hn & Hok & Hs).
  assert (node_ok (node_shape names) (mkManager shims ∅ d, ∅)) as H0' by (split; [done..|]; intros id e; simpl; by rewrite lookup_empty).
  assert (NoDup (node_shape names).*1) as Hnd by (destruct Hn as [->| ->]; apply NoDup_ListNoDup; repeat constructor; set_solver).
  pose proof (node_run_ok _ evs _ Hnd Hevs H0') as Hx. simpl. set (x := node_run evs _) in *. clearbody x.
  destruct (shape_inv names (managers x.1) Hn (no_shape _ _ Hx)) as (c & mem & gs & Hms & Hgs).
  pose proof (no_managers _ _ Hx) as Hmo. rewrite Hms in Hmo.
  rewrite !fmap_cons, !list.Forall_cons in Hmo. destruct Hmo as ([Hc' _ _ _] & [Hm' _ _ _] & Hg).
  assert (rr_cpu (capacity (em_devices x.1)) = Ledger.total c /\ rr_memory (capacity (em_devices x.1)) = Ledger.total mem) as [-> ->].
  { unfold capacity. rewrite Hms. unfold Ledger.total in *. destruct Hgs as [[_ ->]|(gm & _ & ->)]; simpl;
      unfold Ledger.total; rewrite ?Z.add_0_l, !Z.add_0_r;
      by rewrite !(wrap_u64_small (lg_total c)), !(wrap_u64_small (lg_total mem)), ?(wrap_u64_small 0). }
  split_and!.
  - eapply held_claims; [done| |by left]. rewrite Hms. left.
  - eapply held_claims; [done| |by right]. rewrite Hms. right. left.
  - intros Hin id1 id2 e1 e2 a1 a2 device He1 He2 Hf1 Hf2 Ha1 Ha2.
    destruct Hgs as [[-> _]|(gm & _ & ->)]; [by apply not_elem_of_nil in Hin|].
    assert ((GPU, TheGpuManager gm) ∈ managers x.1) as Hgm by (rewrite Hms; set_solver).
    destruct (no_executors _ _ Hx id1 e1 He1) as [_ Hh1], (no_executors _ _ Hx id2 e2 He2) as [_ Hh2].
    destruct (Hh1 Hf1 GPU _ Hgm) as [_ Heq1], (Hh2 Hf2 GPU _ Hgm) as [_ Heq2]. simpl in *.
    apply (exclusive (gm_assignments gm)); [|congruence..]. by apply list.Forall_cons in Hg as [[_ _ ? _] _].
Qed.
End invariant.

(** * Devices: examples

    The theorems of [GpuInv] and [DevicesInv] on a machine with two GPUs, and an
    allocation that fails and still takes a GPU. *)

(** ** A machine *)

#[local] Instance DeviceAssignment_countable : Countable DeviceAssignment.
Proof.
  refine (inj_countable' (fun a => (da_envs a, da_cdi a, da_devices a, da_value a))
    (fun '(envs, cdi, devices, value) => mkAssignment envs cdi devices value) _).
  by intros [].
Defined.

#[local] Instance demo_assignment_json : Json DeviceAssignment := CountableCodec.countable_json.
#[local] Instance demo_assignment_json_spec : JsonSpec DeviceAssignment := CountableCodec.countable_json_spec.
#[local] Existing Instance demo_env.

#[local] Instance demo_uuids : Uuids := {| parse_uuid := fun s => if String.prefix "id" s then Some s else None |}.

#[local] Instance demo_hardware : Hardware :=
  {| num_cpus := fun _ => 8; total_memory := fun _ => 64; gpu_devices := fun _ => Ok ["GPU-a"; "GPU-b"]%string |}.

#[local] Instance demo_hardware_spec : HardwareSpec.
Proof. split; intros n; simpl; width. Qed.

Definition demo_executor (id : string) (cpu gpu : Z) : fem.Executor :=
  fem.mkExecutor id "app" (mkRR cpu 8 gpu) ∅ false false "n1" ShimHost None None None ExecVoid.

Definition demo_gpu : GpuManager := mkGpu [] ∅ [] (mkFs ∅ ∅ 0) 0.

Definition demo_inventory : result (list string) := Ok ["GPU-a"; "GPU-b"]%string.

Section quiet.
#[local] Instance no_faults : Disk := demo_disk [].

(** A start, and an executor with one GPU. *)
Definition demo_started : GpuManager := (gpu_run [GpuRestart demo_inventory] (false, demo_gpu)).2.
Definition demo_first : fem.Executor := demo_executor "e1" 4 1.
Definition demo_allocated : result DeviceAssignment * GpuManager := gpu_allocate demo_first demo_started.

(** Another executor comes and goes, and the process is started again. *)
Definition demo_later : list gpu_event :=
  [GpuAllocate (demo_executor "e2" 1 1); GpuRelease (demo_executor "e2" 1 1); GpuRestart demo_inventory;
   GpuAllocate (demo_executor "e3" 1 2)].

Lemma gpu_assignment_lasts_witness :
  exists a, demo_allocated.1 = Ok a /\ da_devices a = ["GPU-a"]%string /\
    holds "e1" a (gpu_run demo_later (true, demo_allocated.2)).
Proof.
  assert (exists a, demo_allocated.1 = Ok a /\ da_devices a = ["GPU-a"]%string) as (a & Ha & Hd).
  { eexists. split; vm_compute; reflexivity. }
  exists a. split; [exact Ha|]. split; [exact Hd|].
  apply (gpu_assignment_lasts demo_first a demo_started demo_allocated.2 demo_later).
  - vm_compute. reflexivity.
  - rewrite <-Ha. unfold demo_allocated. destruct (gpu_allocate demo_first demo_started). reflexivity.
  - intros e' He'. unfold demo_later in He'. set_unfold in He'. destruct He' as [He'|[He'|[He'|[He'|[]]]]]; try discriminate He'.
    injection He' as ->. discriminate.
Defined.

Lemma gpu_exclusive_witness :
  exists g, gpu_run (GpuRestart demo_inventory :: GpuAllocate demo_first :: demo_later) (false, demo_gpu) = (true, g) /\ gpu_ok g.
Proof.
  pose proof (gpu_exclusive (GpuRestart demo_inventory :: GpuAllocate demo_first :: demo_later) demo_gpu) as Hg.
  assert ((gpu_run (GpuRestart demo_inventory :: GpuAllocate demo_first :: demo_later) (false, demo_gpu)).1 = true) as Hr
    by (vm_compute; reflexivity).
  destruct (gpu_run (GpuRestart demo_inventory :: GpuAllocate demo_first :: demo_later) (false, demo_gpu)) as [running g].
  simpl in Hr. subst running. exists g. split; [reflexivity|]. exact (proj1 (Hg eq_refl)).
Defined.

(** Two executors fit the node, a third does not. *)
Definition demo_devices : DeviceManagers :=
  match load demo_gpu 0 [GPU] (mkRR 1 0 0) with Ok d => d | _ => mkDevices [] 0 end.
Definition demo_events : list node_event :=
  [NodeUpdate demo_first; NodeUpdate (demo_executor "e2" 3 1); NodeDiscover; NodeUpdate (demo_executor "e3" 1 0)].

Lemma node_within_capacity_witness :
  let x := node_run demo_events (mkManager [ShimHost] ∅ demo_devices, ∅) in
  Ledger.spent (held CPU x) = 7 /\ rr_cpu (capacity (em_devices x.1)) = 7 /\
  Ledger.spent (held CPU x) <= rr_cpu (capacity (em_devices x.1)).
Proof.
  intros x. split; [vm_compute; reflexivity|]. split; [vm_compute; reflexivity|].
  refine (proj1 (node_within_capacity demo_gpu 0 [GPU] (mkRR 1 0 0) [ShimHost] demo_devices demo_events _ _ _ _)).
  - vm_compute. split; discriminate.
  - vm_compute. split; discriminate.
  - unfold demo_devices. destruct (load demo_gpu 0 [GPU] (mkRR 1 0 0)) eqn:Hl; [reflexivity|exfalso; revert Hl; vm_compute; discriminate..].
  - repeat constructor; vm_compute; discriminate.
Defined.
End quiet.

(** ** A failure that is not one *)

(** The second executor's record is renamed, but syncing the directory fails. *)
Section faulty.
#[local] Instance one_sync_fails : Disk := demo_disk [(18%nat, 0%nat)].

Definition demo_holder : fem.Executor := demo_executor "e1" 1 1.
Definition demo_failing : fem.Executor := demo_executor "e2" 1 1.
Definition demo_held : GpuManager :=
  (gpu_run [GpuRestart demo_inventory; GpuAllocate demo_holder] (false, demo_gpu)).2.

(** [error] An allocation that fails can still take its GPU.  When only the last
    step of writing the record fails, the executor gets an error and holds
    nothing in memory, but the record stays on disk: the next look at the
    devices is refused, and after a restart the GPU is held for the executor
    that never had it, so that a new one is turned away. *)
Theorem failed_allocation_takes_gpu :
  let '(r, g) := gpu_allocate demo_failing demo_held in
  r = Err EInternal /\ gm_assignments g !! fem.id demo_failing = None /\
  (gpu_discover demo_inventory g).1 = Err EInvalidState /\
  let '(running, g') := gpu_run [GpuRestart demo_inventory] (true, g) in
  running = true /\ da_devices <$> gm_assignments g' !! fem.id demo_failing = Some ["GPU-b"]%string /\
  (gpu_allocate (demo_executor "e3" 1 1) g').1 = Err EInvalidState.
Proof. vm_compute. repeat split; reflexivity. Qed.
End faulty.
