(* ===== verification/Notify.v ===== *)
(** * Notifications ([session_manager/src/notify.rs])

    The keyed fan-out of events.  The channels are tokio's broadcast channels,
    which are behind an interface: [BroadcastSpec] states what its documentation
    promises of a receiver's unread values.  A channel whose sender was dropped
    from the map lives on, closed, as long as a subscription holds a receiver of
    it, so channels are in a heap. *)
From S2P Require Import Prelude.

(** ** tokio's broadcast channel *)

Inductive recv_result (V : Type) :=
  | Received (v : V)
  | Lagged
  | Closed
  | Empty.
Arguments Received {V} _.
Arguments Lagged {V}.
Arguments Closed {V}.
Arguments Empty {V}.

(** [broadcast::channel], [Sender::subscribe], [Sender::send],
    [Sender::receiver_count], the drop of a receiver and of the last sender, and
    [Receiver::try_recv]; a receiver is a number. *)
Class Broadcast (V C : Type) := {
  bc_channel : nat -> C;
  bc_subscribe : C -> nat * C;
  bc_send : V -> C -> C;
  bc_receiver_count : C -> nat;
  bc_drop : nat -> C -> C;
  bc_close : C -> C;
  bc_recv : nat -> C -> recv_result V * C
}.

(** The unread values of a live receiver, whether it missed some, and whether
    the channel is closed. *)
Class BroadcastSpec (V C : Type) `{Broadcast V C} := {
  unread : nat -> C -> option (list V * bool);
  closed : C -> bool;
  capacity : C -> nat;

  channel_empty : forall n r, unread r (bc_channel n) = None;
  channel_open : forall n, closed (bc_channel n) = false;
  channel_capacity : forall n, capacity (bc_channel n) = n;
  channel_count : forall n, bc_receiver_count (bc_channel n) = 0%nat;
  subscribe_view : forall c r c', bc_subscribe c = (r, c') ->
    unread r c = None /\
    (forall r', unread r' c' = if decide (r' = r) then Some ([], false) else unread r' c) /\
    bc_receiver_count c' = S (bc_receiver_count c) /\
    closed c' = closed c /\ capacity c' = capacity c;
  send_view : forall v c,
    (forall r, match unread r c with
               | None => unread r (bc_send v c) = None
               | Some (q, lag) =>
                   unread r (bc_send v c) = Some (q ++ [v], lag) \/
                   (capacity c <= length q)%nat /\ exists q', unread r (bc_send v c) = Some (q', true)
               end) /\
    bc_receiver_count (bc_send v c) = bc_receiver_count c /\
    closed (bc_send v c) = closed c /\ capacity (bc_send v c) = capacity c;
  drop_view : forall r c, is_Some (unread r c) ->
    (forall r', unread r' (bc_drop r c) = if decide (r' = r) then None else unread r' c) /\
    bc_receiver_count c = S (bc_receiver_count (bc_drop r c)) /\
    closed (bc_drop r c) = closed c /\ capacity (bc_drop r c) = capacity c;
  close_view : forall c,
    (forall r, unread r (bc_close c) = unread r c) /\
    bc_receiver_count (bc_close c) = bc_receiver_count c /\
    closed (bc_close c) = true /\ capacity (bc_close c) = capacity c;
  recv_view : forall r c q lag, unread r c = Some (q, lag) ->
    let '(x, c') := bc_recv r c in
    match lag, q with
    | true, _ => x = Lagged /\ exists q', unread r c' = Some (q', false)
    | false, v :: q' => x = Received v /\ unread r c' = Some (q', false)
    | false, [] => x = (if closed c then Closed else Empty) /\ c' = c
    end
}.

(** ** The notifier *)

Definition NOTIFICATION_CAPACITY : nat := 1024.

Record Notifier (C : Type) := mkNotifier {
  nf_channels : gmap string nat;
  nf_heap : gmap nat C;
  nf_next : nat
}.
Arguments mkNotifier {C}.
Arguments nf_channels {C}.
Arguments nf_heap {C}.
Arguments nf_next {C}.

Record Subscription := mkSubscription { sub_receiver : nat; sub_channel : nat; sub_key : string }.

#[export] Instance Subscription_eq_dec : EqDecision Subscription.
Proof. solve_decision. Defined.

Section notifier.
Context {V C : Type} `{Broadcast V C}.
Abbreviation N := (Notifier C).

Definition new : N := mkNotifier ∅ ∅ 0.

Definition with_channels m (n : N) : N := mkNotifier m (nf_heap n) (nf_next n).
Definition with_heap m (n : N) : N := mkNotifier (nf_channels n) m (nf_next n).

(** [channels.entry(key).or_insert_with(..)]. *)
Definition channel_entry (key : string) (n : N) : nat * N :=
  match nf_channels n !! key with
  | Some ch => (ch, n)
  | None =>
      (nf_next n,
       mkNotifier (<[key := nf_next n]> (nf_channels n))
         (<[nf_next n := bc_channel NOTIFICATION_CAPACITY]> (nf_heap n)) (S (nf_next n)))
  end.

Definition subscribe (key : string) (n : N) : option Subscription * N :=
  let '(ch, n) := channel_entry key n in
  match nf_heap n !! ch with
  | Some c => let '(r, c') := bc_subscribe c in
              (Some (mkSubscription r ch key), with_heap (<[ch := c']> (nf_heap n)) n)
  | None => (None, n)
  end.

Definition notify (key : string) (event : V) (n : N) : N :=
  match nf_channels n !! key with
  | Some ch => with_heap (alter (bc_send event) ch (nf_heap n)) n
  | None => n
  end.

(** [channels.remove(key)]: the sender that was in the map is dropped. *)
Definition remove (key : string) (n : N) : N :=
  match nf_channels n !! key with
  | Some ch => mkNotifier (delete key (nf_channels n)) (alter bc_close ch (nf_heap n)) (nf_next n)
  | None => n
  end.

(** [Drop for Subscription]. *)
Definition drop_subscription (s : Subscription) (n : N) : N :=
  let n := with_heap (alter (bc_drop (sub_receiver s)) (sub_channel s) (nf_heap n)) n in
  match nf_channels n !! sub_key s ≫= fun ch => nf_heap n !! ch with
  | Some c => if (bc_receiver_count c =? 0)%nat then remove (sub_key s) n else n
  | None => n
  end.
End notifier.

(** ** The invariant *)

Lemma NoDup_app_cons {A} (l1 l2 : list A) x : NoDup (l1 ++ x :: l2) -> x ∉ l1 ++ l2 /\ NoDup (l1 ++ l2).
Proof. rewrite <- Permutation_middle. by intros ?%list.NoDup_cons. Qed.

Section invariant.
Context {V C : Type} `{BroadcastSpec V C}.
Abbreviation N := (Notifier C).
Implicit Types (n : N) (s : Subscription) (l : list Subscription).

(** The channel and the unread values of a subscription. *)
Definition sub_view s n : option (list V * bool) := nf_heap n !! sub_channel s ≫= unread (sub_receiver s).

Definition sub_handle s : nat * nat := (sub_channel s, sub_receiver s).

Definition subs_of (ch : nat) l : nat := length (filter (fun s => sub_channel s = ch) l).

(** The live subscriptions [l] of the notifier [n]; the channel [ex] may be
    without one for the moment. *)
Record wf_but (ex : option nat) n l : Prop := {
  nw_open : forall key ch, nf_channels n !! key = Some ch ->
    (ex <> Some ch -> subs_of ch l <> 0%nat) /\ exists c, nf_heap n !! ch = Some c /\ closed c = false;
  nw_channel : forall ch c, nf_heap n !! ch = Some c ->
    (ch < nf_next n)%nat /\ bc_receiver_count c = subs_of ch l /\ capacity c = NOTIFICATION_CAPACITY;
  nw_live : forall s, s ∈ l -> is_Some (sub_view s n);
  nw_receivers : NoDup (sub_handle <$> l);
  nw_distinct : forall key key' ch,
    nf_channels n !! key = Some ch -> nf_channels n !! key' = Some ch -> key = key';
  nw_key : forall s key, s ∈ l -> nf_channels n !! key = Some (sub_channel s) -> key = sub_key s
}.

Definition notifier_wf := wf_but None.

Lemma new_wf : notifier_wf new [].
Proof.
  split; simpl; try (intros *; by rewrite lookup_empty); try (by intros * ?%elem_of_nil). constructor.
Qed.

Lemma sub_view_insert s n ch c :
  sub_view s (with_heap (<[ch := c]> (nf_heap n)) n) =
  if decide (sub_channel s = ch) then unread (sub_receiver s) c else sub_view s n.
Proof.
  unfold sub_view. simpl. case_decide as E; [by rewrite E, lookup_insert_eq|by rewrite lookup_insert_ne].
Qed.

Lemma sub_channel_known ex n l s : wf_but ex n l -> s ∈ l -> (sub_channel s < nf_next n)%nat.
Proof.
  intros Hw Hs. destruct (nw_live ex n l Hw s Hs) as [v Hv]. unfold sub_view in Hv.
  destruct (nf_heap n !! sub_channel s) eqn:Hc; [|done]. by apply (nw_channel ex n l Hw) in Hc as [? _].
Qed.

Lemma subs_of_fresh ex n l : wf_but ex n l -> subs_of (nf_next n) l = 0%nat.
Proof.
  intros Hw. unfold subs_of. apply length_zero_iff_nil. destruct (filter _ l) as [|s l'] eqn:Hf; [done|].
  assert (s ∈ s :: l') as Hs by left. rewrite <- Hf in Hs. apply list_elem_of_filter in Hs as [E Hs].
  pose proof (sub_channel_known ex n l s Hw Hs). lia.
Qed.

Lemma subs_of_cons ch s l :
  subs_of ch (s :: l) = ((if decide (sub_channel s = ch) then 1 else 0) + subs_of ch l)%nat.
Proof. unfold subs_of. rewrite filter_cons. by case_decide. Qed.

(** The entry of a key: a channel that may still be without a receiver. *)
Lemma channel_entry_but key n l ch n' :
  notifier_wf n l -> channel_entry key n = (ch, n') ->
  wf_but (Some ch) n' l /\ nf_channels n' !! key = Some ch /\
  forall s, s ∈ l -> sub_view s n' = sub_view s n.
Proof.
  intros Hw. pose proof Hw as [Ho Hc Hl Hr Hd Hk]. unfold channel_entry.
  destruct (nf_channels n !! key) as [ch0|] eqn:Hkey; intros [= <- <-].
  { split_and!; [|done..]. split; try done. intros key' ch' Hk'. by destruct (Ho key' ch' Hk'); auto. }
  assert (forall ch, is_Some (nf_heap n !! ch) -> nf_next n <> ch) as Hlt by (intros ch [c Hx] <-; apply Hc in Hx; lia).
  assert (forall s, s ∈ l -> nf_next n <> sub_channel s) as Hold.
  { intros s Hs. pose proof (sub_channel_known None n l s Hw Hs). lia. }
  assert (forall s, s ∈ l -> sub_view s (mkNotifier (<[key := nf_next n]> (nf_channels n))
     (<[nf_next n := bc_channel NOTIFICATION_CAPACITY]> (nf_heap n)) (S (nf_next n))) = sub_view s n) as Hv.
  { intros s Hs. unfold sub_view. simpl. by rewrite lookup_insert_ne by (by apply Hold). }
  assert (forall key' ch', nf_channels n !! key' = Some ch' -> nf_next n <> ch') as Hch.
  { intros key' ch' Hk'. apply Hlt. destruct (Ho key' ch' Hk') as (_ & c & -> & _). by eexists. }
  split_and!; [|by apply lookup_insert_eq|done]. split; simpl.
  - intros key' ch' [[<- <-]|[_ Hk']]%lookup_insert_Some.
    + split; [done|]. eexists. rewrite lookup_insert_eq. split; [done|apply channel_open].
    + destruct (Ho key' ch' Hk') as (Hs & c & Hx & Hcl). split; [by auto|]. exists c.
      rewrite lookup_insert_ne; [done|by apply (Hch key')].
  - intros ch' c [[<- <-]|[_ Hx]]%lookup_insert_Some.
    + rewrite channel_count, channel_capacity, (subs_of_fresh None n l Hw). split_and!; [lia|done..].
    + destruct (Hc ch' c Hx) as (? & ? & ?). split_and!; [lia|done..].
  - intros s Hs. rewrite Hv by done. by apply Hl.
  - done.
  - intros key1 key2 ch' [[<- <-]|[_ H1]]%lookup_insert_Some [[<- Hx]|[_ H2]]%lookup_insert_Some; try done.
    + by apply Hch in H2.
    + subst ch'. by apply Hch in H1.
    + by eapply Hd.
  - intros s key' Hs [[_ E]|[_ Hx]]%lookup_insert_Some; [by apply Hold in E|by apply Hk].
Qed.

Lemma subscribe_but key ch n l c r c' :
  wf_but (Some ch) n l -> nf_channels n !! key = Some ch -> nf_heap n !! ch = Some c ->
  bc_subscribe c = (r, c') ->
  notifier_wf (with_heap (<[ch := c']> (nf_heap n)) n) (mkSubscription r ch key :: l).
Proof.
  intros [Ho Hc Hl Hr Hd Hk] Hkey Hch Hs. apply subscribe_view in Hs as (Hnew & Hu & Hn & Hcl & Hcap).
  destruct (Ho _ _ Hkey) as (_ & c0 & Hc0 & Hcl0). simplify_eq. split; simpl.
  - intros key' ch' Hk'. rewrite subs_of_cons. simpl. destruct (Ho key' ch' Hk') as (Hne & c1 & Hc1 & Hcl1).
    destruct (decide (ch = ch')) as [<-|Hch'].
    + split; [lia|]. exists c'. rewrite lookup_insert_eq. split; [done|congruence].
    + split; [intros _; apply Hne; congruence|]. exists c1. by rewrite lookup_insert_ne.
  - intros ch' c1. rewrite subs_of_cons. simpl. intros [[<- <-]|[Hne Hc1]]%lookup_insert_Some.
    + destruct (Hc _ _ Hch) as (? & ? & ?). rewrite decide_True by done. split_and!; [done|lia|congruence].
    + rewrite decide_False by done. by apply Hc.
  - intros s [->|Hs]%elem_of_cons; rewrite sub_view_insert; simpl; case_decide as E; try done.
    + rewrite Hu, decide_True by done. by eexists.
    + rewrite Hu. case_decide; [by eexists|]. destruct (Hl s Hs) as [v Hv]. unfold sub_view in Hv.
      rewrite E, Hch in Hv. by eexists.
    + by apply Hl.
  - apply list.NoDup_cons. split; [|done]. intros (s & Heq & Hs)%list_elem_of_fmap.
    injection Heq as E1 E2. destruct (Hl s Hs) as [v Hv]. unfold sub_view in Hv.
    rewrite <- E1, Hch, <- E2 in Hv. simpl in Hv. congruence.
  - done.
  - intros s key' [->|Hs]%elem_of_cons Hk'; [by eapply Hd|by apply Hk].
Qed.

Lemma alter_heap n ch c (f : C -> C) :
  nf_heap n !! ch = Some c -> alter f ch (nf_heap n) = <[ch := f c]> (nf_heap n).
Proof. intros Hc. rewrite <- (insert_id (nf_heap n) ch c Hc) at 1. apply alter_insert_eq. Qed.

(** Removing a key whose channel may be without a receiver. *)
Lemma remove_but ex key n l :
  wf_but ex n l -> (forall ch, ex = Some ch -> nf_channels n !! key = Some ch \/
                    forall key', nf_channels n !! key' <> Some ch) ->
  notifier_wf (remove key n) l /\ forall s, s ∈ l -> sub_view s (remove key n) = sub_view s n.
Proof.
  intros [Ho Hc Hl Hr Hd Hk] Hex. unfold remove. destruct (nf_channels n !! key) as [ch|] eqn:Hkey.
  - destruct (Ho _ _ Hkey) as (_ & c & Hch & Hcl). destruct (close_view c) as (Hu & Hn & _ & Hcap).
    assert (forall s, sub_view s (mkNotifier (delete key (nf_channels n)) (alter bc_close ch (nf_heap n)) (nf_next n))
                      = sub_view s n) as Hv.
    { intros s. unfold sub_view. simpl. rewrite (alter_heap n ch c) by done.
      destruct (decide (sub_channel s = ch)) as [->|]; [|by rewrite lookup_insert_ne].
      by rewrite lookup_insert_eq, Hch; simpl. }
    split; [|done]. split; simpl.
    + rewrite (alter_heap n ch c) by done. intros key' ch' [Hne Hk']%lookup_delete_Some. destruct (Ho key' ch' Hk') as (Hs & c1 & Hc1 & Hcl1).
      assert (ch <> ch') as Hne' by (intros <-; by apply Hne, (Hd key key' ch)). split.
      * intros _. apply Hs. intros E. destruct (Hex ch' E) as [Hx|Hx]; [congruence|by apply (Hx key')].
      * exists c1. by rewrite lookup_insert_ne.
    + rewrite (alter_heap n ch c) by done. intros ch' c1 [[<- <-]|[_ Hc1]]%lookup_insert_Some; [|by apply Hc].
      destruct (Hc _ _ Hch) as (? & ? & ?). split_and!; congruence.
    + intros s Hs. rewrite Hv. by apply Hl.
    + done.
    + intros k1 k2 ch' [_ H1]%lookup_delete_Some [_ H2]%lookup_delete_Some. by eapply Hd.
    + intros s k Hs [_ Hx]%lookup_delete_Some. by apply Hk.
  - split; [|done]. split; try done. intros key' ch' Hk'. destruct (Ho key' ch' Hk') as (Hs & Hx).
    split; [|done]. intros _. apply Hs. intros E. destruct (Hex ch' E) as [|Hx']; [done|by apply (Hx' key')].
Qed.

Lemma notify_wf key v n l : notifier_wf n l -> notifier_wf (notify key v n) l.
Proof.
  intros Hw. pose proof Hw as [Ho Hc Hl Hr Hd Hk]. unfold notify. destruct (nf_channels n !! key) as [ch|] eqn:Hkey; [|done].
  destruct (Ho _ _ Hkey) as (_ & c & Hch & Hcl). rewrite (alter_heap n ch c) by done.
  destruct (send_view v c) as (Hu & Hn & Hcl' & Hcap). split; simpl; [| | |done..].
  - intros key' ch' Hk'. destruct (Ho key' ch' Hk') as (Hs & c1 & Hc1 & Hcl1). split; [done|].
    destruct (decide (ch' = ch)) as [->|]; [|exists c1; by rewrite lookup_insert_ne].
    exists (bc_send v c). rewrite lookup_insert_eq. split; congruence.
  - intros ch' c1 [[<- <-]|[_ Hc1]]%lookup_insert_Some; [|by apply Hc].
    destruct (Hc _ _ Hch) as (? & ? & ?). split_and!; congruence.
  - intros s Hs. rewrite sub_view_insert. case_decide as E; [|by apply Hl].
    destruct (Hl s Hs) as [[q lag] Hv]. unfold sub_view in Hv. rewrite E, Hch in Hv. simpl in Hv.
    specialize (Hu (sub_receiver s)). rewrite Hv in Hu. destruct Hu as [->|(_ & q' & ->)]; by eexists.
Qed.

(** The receiver is dropped first. *)
Lemma drop_receiver_but s l1 l2 n c :
  notifier_wf n (l1 ++ s :: l2) -> nf_heap n !! sub_channel s = Some c ->
  wf_but (Some (sub_channel s)) (with_heap (<[sub_channel s := bc_drop (sub_receiver s) c]> (nf_heap n)) n) (l1 ++ l2).
Proof.
  intros [Ho Hc Hl Hr Hd Hk] Hch. assert (s ∈ l1 ++ s :: l2) as Hin by (apply elem_of_app; right; left).
  assert (is_Some (unread (sub_receiver s) c)) as Hlive.
  { destruct (Hl s Hin) as [v Hv]. unfold sub_view in Hv. rewrite Hch in Hv. by eexists. }
  destruct (drop_view _ _ Hlive) as (Hu & Hn & Hcl & Hcap).
  assert (forall ch, subs_of ch (l1 ++ s :: l2) =
    ((if decide (sub_channel s = ch) then 1 else 0) + subs_of ch (l1 ++ l2))%nat) as Hsub.
  { intros ch. unfold subs_of. rewrite !list.filter_app, !length_app, filter_cons. case_decide; simpl; lia. }
  assert (forall s', s' ∈ l1 ++ l2 -> s' ∈ l1 ++ s :: l2) as Hsl by set_solver.
  assert (sub_handle s ∉ sub_handle <$> l1 ++ l2) as Hnot.
  { rewrite fmap_app, fmap_cons in Hr. rewrite fmap_app. by apply NoDup_app_cons in Hr as [Hx _]. }
  split; simpl.
  - intros key ch Hkey. destruct (Ho key ch Hkey) as (Hs & c1 & Hc1 & Hcl1). rewrite Hsub in Hs. split.
    + intros Hne. specialize (Hs ltac:(done)). rewrite decide_False in Hs by congruence. done.
    + destruct (decide (sub_channel s = ch)) as [<-|]; [|exists c1; by rewrite lookup_insert_ne].
      eexists. rewrite lookup_insert_eq. split; [done|congruence].
  - intros ch c1 [[<- <-]|[Hne Hc1]]%lookup_insert_Some.
    + destruct (Hc _ _ Hch) as (? & Hcnt & ?). rewrite Hsub, decide_True in Hcnt by done. split_and!; [done|lia|congruence].
    + destruct (Hc _ _ Hc1) as (? & Hcnt & ?). rewrite Hsub, decide_False in Hcnt by done. done.
  - intros s' Hs'. rewrite sub_view_insert. case_decide as E; [|by apply Hl, Hsl].
    destruct (Hl s' (Hsl s' Hs')) as [v Hv]. unfold sub_view in Hv. rewrite E, Hch in Hv. rewrite Hu, decide_False.
    + by eexists.
    + intros E'. apply Hnot, list_elem_of_fmap. exists s'. unfold sub_handle. by rewrite E, E'.
  - rewrite fmap_app, fmap_cons in Hr. rewrite fmap_app. by apply NoDup_app_cons in Hr as [_ Hx].
  - done.
  - intros s' key Hs'. by apply Hk, Hsl.
Qed.

Lemma but_wf ch n l :
  wf_but (Some ch) n l -> (forall key, nf_channels n !! key = Some ch -> subs_of ch l <> 0%nat) ->
  notifier_wf n l.
Proof.
  intros [Ho Hc Hl Hr Hd Hk] Hs. split; try done. intros key ch' Hkey. destruct (Ho key ch' Hkey) as (Hne & Hx).
  split; [|done]. intros _. destruct (decide (ch' = ch)) as [->|]; [by eapply Hs|]. apply Hne. congruence.
Qed.

Lemma subscribe_wf key n l :
  notifier_wf n l -> exists s n', subscribe key n = (Some s, n') /\ notifier_wf n' (s :: l) /\
    sub_key s = key /\ nf_channels n' !! key = Some (sub_channel s) /\ sub_view s n' = Some ([], false) /\
    forall s', s' ∈ l -> nf_channels n' !! sub_key s' = Some (sub_channel s') <->
      nf_channels n !! sub_key s' = Some (sub_channel s').
Proof.
  intros Hw. unfold subscribe. destruct (channel_entry key n) as [ch n1] eqn:He. pose proof He as He'.
  apply (channel_entry_but _ _ l) in He as (Hb & Hkey & _); [|done].
  destruct (nw_open _ _ _ Hb _ _ Hkey) as (_ & c & Hc & _). rewrite Hc.
  destruct (bc_subscribe c) as [r c'] eqn:Hs. eexists _, _. split; [done|].
  split; [by eapply subscribe_but|]. split; [done|]. split; [done|]. split.
  { rewrite sub_view_insert. simpl. rewrite decide_True by done.
    apply subscribe_view in Hs as (_ & Hu & _). by rewrite Hu, decide_True. }
  intros s' Hs'. simpl. pose proof (sub_channel_known _ _ _ _ Hw Hs') as Hlt. unfold channel_entry in He'.
  destruct (nf_channels n !! key) as [ch0|] eqn:Hch; injection He' as <- <-; [done|]. simpl.
  destruct (decide (key = sub_key s')) as [->|Hne]; [|by rewrite lookup_insert_ne].
  rewrite lookup_insert_eq, Hch. split; [|done]. intros [= E]. lia.
Qed.

Lemma drop_subscription_wf s l1 l2 n :
  notifier_wf n (l1 ++ s :: l2) -> notifier_wf (drop_subscription s n) (l1 ++ l2).
Proof.
  intros Hw. assert (s ∈ l1 ++ s :: l2) as Hin by (apply elem_of_app; right; left).
  destruct (nw_live _ _ _ Hw s Hin) as [v Hv]. unfold sub_view in Hv.
  destruct (nf_heap n !! sub_channel s) as [c|] eqn:Hc; [|done].
  pose proof (drop_receiver_but s l1 l2 n c Hw Hc) as Hb. unfold drop_subscription.
  rewrite (alter_heap n _ c) by done. set (n1 := with_heap _ n) in *.
  assert (forall key, nf_channels n1 !! key = Some (sub_channel s) -> key = sub_key s) as Hkey.
  { intros key Hx. by apply (nw_key _ _ _ Hw). }
  destruct (nf_channels n1 !! sub_key s) as [ch|] eqn:Hch.
  - change (Some ch ≫= (fun ch => nf_heap n1 !! ch)) with (nf_heap n1 !! ch). destruct (nw_open _ _ _ Hb _ _ Hch) as (_ & c1 & Hc1 & _). rewrite Hc1.
    apply (nw_channel _ _ _ Hb) in Hc1 as (_ & Hcnt & _). rewrite Hcnt.
    destruct (Nat.eqb_spec (subs_of ch (l1 ++ l2)) 0) as [Hz|Hz].
    + eapply remove_but; [exact Hb|]. intros ch' [= <-]. destruct (decide (ch = sub_channel s)) as [->|Hne]; [by left|].
      right. intros key Hx. pose proof (Hkey key Hx) as ->. congruence.
    + eapply but_wf; [exact Hb|]. intros key Hx. pose proof (Hkey key Hx) as ->.
      rewrite Hx in Hch. by injection Hch as ->.
  - apply (but_wf (sub_channel s) n1); [exact Hb|]. intros key Hx. pose proof (Hkey key Hx) as ->. by rewrite Hx in Hch.
Qed.

(** ** Runs *)

(** The calls that reach the notifier; a subscription is dropped by its place
    among the live ones. *)
Inductive notify_op :=
  | NSubscribe (key : string)
  | NNotify (key : string) (event : V)
  | NRemove (key : string)
  | NDrop (i : nat).

(** The live subscriptions, and of each whether its key was not removed since
    it was made. *)
Definition notify_apply (op : notify_op) (nl : N * list (Subscription * bool)) : N * list (Subscription * bool) :=
  let '(n, l) := nl in
  match op with
  | NSubscribe key =>
      let '(s, n) := subscribe key n in (n, match s with Some s => (s, true) :: l | None => l end)
  | NNotify key event => (notify key event n, l)
  | NRemove key =>
      (remove key n, (fun sb => (sb.1, sb.2 && negb (bool_decide (sub_key sb.1 = key)))) <$> l)
  | NDrop i => match l !! i with Some sb => (drop_subscription sb.1 n, delete i l) | None => (n, l) end
  end.

(** The subscriptions that are attached are those on the channel of their key. *)
Record runs_wf n (l : list (Subscription * bool)) : Prop := {
  rw_notifier : notifier_wf n l.*1;
  rw_attached : forall s b, (s, b) ∈ l -> (nf_channels n !! sub_key s = Some (sub_channel s) <-> b = true)
}.

(** A subscription that is dropped takes the channel of its key with it only if
    nobody else is on it. *)
Lemma drop_subscription_channels s l1 l2 n key s' :
  notifier_wf n (l1 ++ s :: l2) -> s' ∈ l1 ++ l2 -> key = sub_key s' ->
  nf_channels (drop_subscription s n) !! key = Some (sub_channel s') <->
  nf_channels n !! key = Some (sub_channel s').
Proof.
  intros Hw Hs' ->. assert (s ∈ l1 ++ s :: l2) as Hin by (apply elem_of_app; right; left).
  destruct (nw_live _ _ _ Hw s Hin) as [v Hv]. unfold sub_view in Hv.
  destruct (nf_heap n !! sub_channel s) as [c|] eqn:Hc; [|done].
  pose proof (drop_receiver_but s l1 l2 n c Hw Hc) as Hb. unfold drop_subscription.
  rewrite (alter_heap n _ c) by done. set (n1 := with_heap _ n) in *.
  change (nf_channels n) with (nf_channels n1).
  destruct (nf_channels n1 !! sub_key s) as [ch|] eqn:Hch; [|done].
  change (Some ch ≫= (fun ch => nf_heap n1 !! ch)) with (nf_heap n1 !! ch).
  destruct (nw_open _ _ _ Hb _ _ Hch) as (_ & c1 & Hc1 & _). rewrite Hc1.
  apply (nw_channel _ _ _ Hb) in Hc1 as (_ & Hcnt & _). rewrite Hcnt.
  destruct (Nat.eqb_spec (subs_of ch (l1 ++ l2)) 0) as [Hz|Hz]; [|done].
  unfold remove. rewrite Hch. simpl. destruct (decide (sub_key s = sub_key s')) as [Hk|Hk].
  - rewrite <- Hk, lookup_delete_eq. change (nf_channels n1) with (nf_channels n) in Hch. rewrite Hch.
    split; [done|]. intros [= ->]. exfalso.
    unfold subs_of in Hz. apply length_zero_iff_nil in Hz.
    assert (s' ∈ filter (fun s => sub_channel s = sub_channel s') (l1 ++ l2)) as Hf
      by (apply list_elem_of_filter; done).
    rewrite Hz in Hf. by apply elem_of_nil in Hf.
  - by rewrite lookup_delete_ne.
Qed.

Lemma notify_apply_wf op n (l : list (Subscription * bool)) : runs_wf n l -> runs_wf (notify_apply op (n, l)).1 (notify_apply op (n, l)).2.
Proof.
  intros [Hw Ha]. destruct op as [key|key v|key|i]; simpl.
  - destruct (subscribe_wf key n l.*1 Hw) as (s & n' & Heq & Hw' & Hk & Hch & _ & Hold).
    rewrite Heq. simpl. split; [done|]. intros s' b [[= -> ->]|Hs']%elem_of_cons; [by rewrite Hk|].
    rewrite Hold; [by apply Ha|]. apply list_elem_of_fmap. by exists (s', b).
  - split; [by apply notify_wf|]. intros s b Hs. rewrite <- (Ha s b Hs). unfold notify. by destruct (nf_channels n !! key).
  - split; [rewrite <- list_fmap_compose; by eapply remove_but|].
    intros s b ([s0 b0] & Heq & Hs)%list_elem_of_fmap. simpl in Heq. injection Heq as -> ->.
    rewrite andb_true_iff, negb_true_iff, bool_decide_eq_false, <- (Ha s0 b0 Hs). unfold remove.
    destruct (decide (sub_key s0 = key)) as [<-|Hne].
    + destruct (nf_channels n !! sub_key s0) eqn:Hch; simpl; [rewrite lookup_delete_eq|rewrite Hch]; naive_solver.
    + destruct (nf_channels n !! key) eqn:Hch; simpl; [rewrite lookup_delete_ne by done|]; naive_solver.
  - destruct (l !! i) as [[s b]|] eqn:Hi; [|by split]. simpl. rewrite delete_take_drop.
    assert (Hl : l = take i l ++ (s, b) :: drop (S i) l) by (by rewrite take_drop_middle).
    rewrite Hl, fmap_app, fmap_cons in Hw. split; [rewrite fmap_app; by apply drop_subscription_wf|]. intros s' b' Hs'.
    rewrite (drop_subscription_channels s _ _ n (sub_key s') s' Hw); [| |done].
    + apply Ha. rewrite Hl. set_solver.
    + rewrite <- fmap_app. apply list_elem_of_fmap. by exists (s', b').
Qed.

Definition notify_run (ops : list notify_op) : N * list (Subscription * bool) :=
  foldl (fun nl op => notify_apply op nl) (new, []) ops.

Lemma notify_run_wf ops : runs_wf (notify_run ops).1 (notify_run ops).2.
Proof.
  unfold notify_run. assert (runs_wf (new : N) []) as Hw by (split; [apply new_wf|by intros s b ?%elem_of_nil]).
  revert Hw. generalize (new : N) (@nil (Subscription * bool)).
  induction ops as [|op ops IH]; intros n l Hw; cbn [foldl]; [done|].
  pose proof (notify_apply_wf op n l Hw) as Hw'. destruct (notify_apply op (n, l)) as [n' l']. by apply IH.
Qed.

Lemma subs_of_elem ch l : subs_of ch l <> 0%nat -> exists s, s ∈ l /\ sub_channel s = ch.
Proof.
  unfold subs_of. destruct (filter _ l) as [|s l'] eqn:Hf; [done|]. intros _. exists s.
  assert (s ∈ s :: l') as Hs by left. rewrite <- Hf in Hs. apply list_elem_of_filter in Hs. by destruct Hs.
Qed.

(** C29 [invariant] Whatever the order of subscriptions, notifications, removals
    and drops: a notification of a key is unread by every live subscription of
    the key, unless the key was removed after that subscription was made, or the
    subscription learns that it lagged behind by the capacity of 1024; no other
    subscription sees it.  A channel is in the map only while a live subscription
    of its key holds a receiver of it. *)
Theorem notifier_fanout ops key v :
  let '(n, l) := notify_run ops in
  (forall ch, nf_channels n !! key = Some ch -> exists s, (s, true) ∈ l /\ sub_key s = key /\ sub_channel s = ch) /\
  forall s attached, (s, attached) ∈ l -> exists q lag, sub_view s n = Some (q, lag) /\
    if decide (sub_key s = key /\ attached = true) then
      sub_view s (notify key v n) = Some (q ++ [v], lag) \/
      (NOTIFICATION_CAPACITY <= length q)%nat /\ exists q', sub_view s (notify key v n) = Some (q', true)
    else sub_view s (notify key v n) = Some (q, lag).
Proof.
  pose proof (notify_run_wf ops) as Hrw. destruct (notify_run ops) as [n l]. simpl in Hrw.
  destruct Hrw as [[Ho Hc Hl Hr Hd Hk] Ha]. split.
  - intros ch Hch. destruct (Ho key ch Hch) as (Hs & _). destruct (subs_of_elem ch _ (Hs ltac:(done))) as (s & Hs' & <-).
    pose proof (Hk s key Hs' Hch) as ->. apply list_elem_of_fmap in Hs' as ([s' b] & -> & Hs'). simpl in *.
    rewrite (Ha s' b Hs') in Hch. subst b. by exists s'.
  - intros s att Hs. assert (Hin : s ∈ l.*1) by (apply list_elem_of_fmap; by exists (s, att)).
    destruct (Hl s Hin) as [[q lag] Hv]. exists q, lag. split; [done|]. pose proof (Ha s att Hs) as Hat.
    unfold notify. destruct (nf_channels n !! key) as [ch|] eqn:Hch.
    2: { rewrite decide_False; [done|]. intros [<- ->]. pose proof (proj2 Hat eq_refl). congruence. }
    destruct (Ho key ch Hch) as (_ & c & Hc1 & _). rewrite (alter_heap n ch c), sub_view_insert by done.
    destruct (decide (sub_channel s = ch)) as [E|Hne].
    + assert (sub_key s = key) as E' by (symmetry; apply Hk; congruence).
      rewrite decide_True by (split; [done|apply Hat; congruence]). unfold sub_view in Hv. rewrite E, Hc1 in Hv. simpl in Hv.
      destruct (send_view v c) as (Hu & _). specialize (Hu (sub_receiver s)). rewrite Hv in Hu.
      by rewrite <- (proj2 (proj2 (Hc _ _ Hc1))).
    + rewrite decide_False; [done|]. intros [<- ->]. pose proof (proj2 Hat eq_refl). congruence.
Qed.
End invariant.

(** ** A channel that keeps the promises *)

Module Ring.

(** Every receiver with its unread values and whether it missed some. *)
Record t (V : Type) := mk {
  rg_capacity : nat;
  rg_receivers : gmap nat (list V * bool);
  rg_next : nat;
  rg_closed : bool
}.
Arguments mk {V}.
Arguments rg_capacity {V}.
Arguments rg_receivers {V}.
Arguments rg_next {V}.
Arguments rg_closed {V}.

Section ring.
Context {V : Type}.

Definition with_receivers m (c : t V) : t V := mk (rg_capacity c) m (rg_next c) (rg_closed c).

(** A receiver that has [capacity] unread values loses the oldest. *)
Definition push (cap : nat) (v : V) (x : list V * bool) : list V * bool :=
  if (length x.1 <? cap)%nat then (x.1 ++ [v], x.2) else (tail x.1 ++ [v], true).

Definition recv (r : nat) (c : t V) : recv_result V * t V :=
  match rg_receivers c !! r with
  | Some (q, true) => (Lagged, with_receivers (<[r := (q, false)]> (rg_receivers c)) c)
  | Some (v :: q, false) => (Received v, with_receivers (<[r := (q, false)]> (rg_receivers c)) c)
  | _ => (if rg_closed c then Closed else Empty, c)
  end.

(** A receiver's number is the first that no live receiver has. *)
Definition fresh_receiver (c : t V) : nat := fresh (dom (rg_receivers c) : gset nat).

#[global] Instance ring_broadcast : Broadcast V (t V) := {
  bc_channel := fun cap => mk cap ∅ 0 false;
  bc_subscribe := fun c =>
    (fresh_receiver c, with_receivers (<[fresh_receiver c := ([], false)]> (rg_receivers c)) c);
  bc_send := fun v c => with_receivers (push (rg_capacity c) v <$> rg_receivers c) c;
  bc_receiver_count := fun c => size (rg_receivers c);
  bc_drop := fun r c => with_receivers (delete r (rg_receivers c)) c;
  bc_close := fun c => mk (rg_capacity c) (rg_receivers c) (rg_next c) true;
  bc_recv := recv
}.

Lemma fresh_receiver_None c : rg_receivers c !! fresh_receiver c = None.
Proof. apply (not_elem_of_dom (D := gset nat)). unfold fresh_receiver. apply is_fresh. Qed.

#[global, refine] Instance ring_spec : BroadcastSpec V (t V) := {
  unread := fun r c => rg_receivers c !! r;
  closed := rg_closed;
  capacity := rg_capacity
}.
Proof.
  all: simpl.
  - intros n r. apply lookup_empty.
  - done.
  - done.
  - intros n. apply map_size_empty.
  - intros c r c' [= <- <-]. split_and!; [apply fresh_receiver_None| |by apply map_size_insert_None, fresh_receiver_None|done..].
    intros r'. case_decide as E; [subst; apply lookup_insert_eq|]. by apply lookup_insert_ne.
  - intros v c. split_and!; [|apply map_size_fmap|done..]. intros r. rewrite lookup_fmap.
    destruct (rg_receivers c !! r) as [[q lag]|]; simpl; [|done]. unfold push. simpl.
    destruct (Nat.ltb_spec (length q) (rg_capacity c)); [by left|]. right. split; [done|by eexists].
  - intros r c Hr. split_and!; [| |done..].
    + intros r'. case_decide as E; [subst; apply lookup_delete_eq|]. by apply lookup_delete_ne.
    + assert (size (rg_receivers c) <> 0%nat) as Hne by (apply map_size_ne_0_lookup; by exists r).
      rewrite map_size_delete_Some by done. lia.
  - done.
  - intros r c q lag Hr. unfold recv. rewrite Hr. destruct lag; simpl.
    + destruct q; simpl; (split; [done|]); eexists; apply lookup_insert_eq.
    + destruct q; simpl; [done|]. split; [done|]. apply lookup_insert_eq.
Defined.
End ring.
End Ring.

(** Two subscriptions of a session, one of another, a removal of the session
    and a new subscription of it, and a notification. *)
Definition demo_notify : list (notify_op (V := Z)) :=
  [NSubscribe "s1"; NSubscribe "s2"; NSubscribe "s1"; NRemove "s1"; NSubscribe "s1"; NSubscribe "s1"].

Lemma notifier_fanout_witness :
  let '(n, l) := notify_run (V := Z) (C := Ring.t Z) demo_notify in
  (forall ch, nf_channels n !! "s1"%string = Some ch ->
     exists s, (s, true) ∈ l /\ sub_key s = "s1"%string /\ sub_channel s = ch) /\
  (fun sb => sub_view sb.1 (notify "s1" 7%Z n)) <$> l =
    [Some ([7%Z], false); Some ([7%Z], false); Some ([], false); Some ([], false); Some ([], false)].
Proof.
  split; [|vm_compute; reflexivity]. exact (proj1 (notifier_fanout demo_notify "s1" 7%Z)).
Defined.
