(* ===== verification/Watch.v ===== *)
(** * Watching tasks ([watch_tasks] of [apiserver/frontend.rs])

    A watch is a task of the server that runs beside the operations that change
    the tasks of its session, so it is a transition system: an event is one
    atomic step of the watch (a read of the storage, a message sent, an item of
    the subscription taken) or of the rest of the server (a task changes, and
    later its notification arrives).  The subscription is seen through
    [BroadcastSpec] of [Notify]: unread identifiers, whether some were missed,
    and whether the channel was removed. *)
From S2P Require Import Prelude Types Session Frontend.
Local Open Scope Z_scope.

(** ** The state *)

(** What the server does beside the watch: the cached tasks of the session
    ([None] once the session left the cache), the changes whose notification is
    outstanding, the tasks a lost node gave back (their change is announced to
    nobody), and whether the removal of the channel is outstanding. *)
Record Rest := mkRest {
  rs_tasks : option (gmap Z Task);
  rs_due : list Z;
  rs_silent : gset Z;
  rs_closing : bool
}.

Record Feed := mkFeed { fd_unread : list Z; fd_lagged : bool; fd_closed : bool }.

(** After a run of [forward_task_update]: the loop again, or the end of a watch
    whose channel is closed. *)
Inductive after := ToLoop | ToClosed.

(** Where the watch stands: in the [select!], before the read of the next task
    of a list, between the two reads of a completed task, before a send, or at
    its end. *)
Inductive pc :=
  | Waits
  | Forwards (todo : list Z) (a : after)
  | Reloads (id : Z) (todo : list Z) (a : after)
  | Sends (id : Z) (t : Task) (todo : list Z) (a : after)
  | Ended
  | ClientGone
  | Failed (c : Code).

Record Watcher := mkWatcher {
  wt_registered : gset Z;
  wt_requests_closed : bool;
  wt_asked : gset Z;
  wt_pc : pc;
  wt_sent : list (Z * Task)
}.

Record world := mkWorld { w_rest : Rest; w_feed : Feed; w_watch : Watcher }.

Definition with_pc (p : pc) (w : Watcher) : Watcher :=
  mkWatcher (wt_registered w) (wt_requests_closed w) (wt_asked w) p (wt_sent w).
Definition with_registered (r : gset Z) (w : Watcher) : Watcher :=
  mkWatcher r (wt_requests_closed w) (wt_asked w) (wt_pc w) (wt_sent w).

(** ** The watch *)

(** [registered_tasks.insert(task_id)] and the call of [forward_task_update]. *)
Definition register_task (id : Z) (w : Watcher) : Watcher :=
  mkWatcher ({[id]} ∪ wt_registered w) (wt_requests_closed w) ({[id]} ∪ wt_asked w)
    (Forwards [id] ToLoop) (wt_sent w).

(** The snapshot of a task, [get_task_metadata] or [get_task]. *)
Definition read_task (id : Z) (r : Rest) : option Task := rs_tasks r ≫= fun m => m !! id.

(** [forward_task_update], a step at a time: the first read, for a completed task
    the second one, then the send. *)
Definition forward_step (r : Rest) (w : Watcher) : option Watcher :=
  match wt_pc w with
  | Forwards [] ToLoop => Some (with_pc Waits w)
  | Forwards [] ToClosed => Some (with_pc (Failed NotFound) w)
  | Forwards (id :: todo) a =>
      Some (match read_task id r with
            | None => with_pc (Failed NotFound) w
            | Some t => if is_completed t then with_pc (Reloads id todo a) w
                        else with_pc (Sends id t todo a) w
            end)
  | Reloads id todo a =>
      Some (match read_task id r with
            | None => with_pc (Failed NotFound) w
            | Some t => with_pc (Sends id t todo a)
                          (with_registered (wt_registered w ∖ {[id]}) w)
            end)
  | Sends id t todo a =>
      Some (mkWatcher (wt_registered w) (wt_requests_closed w) (wt_asked w) (Forwards todo a)
              (wt_sent w ++ [(id, t)]))
  | _ => None
  end.

(** The head of the loop: the watch ends when no request can come and no task is
    registered. *)
Definition loop_done (w : Watcher) : bool :=
  wt_requests_closed w && bool_decide (wt_registered w = ∅).

(** Whether the [select!] of the loop is reached. *)
Definition selects (w : Watcher) : bool :=
  match wt_pc w with Waits => negb (loop_done w) | _ => false end.

(** [task_updates.recv()]; [order] is the order of the iterator of the set. *)
Definition recv_update (order : list Z) (unread_left : list Z) (f : Feed) (w : Watcher)
    : option (Feed * Watcher) :=
  if fd_lagged f then
    if bool_decide (order ≡ₚ elements (wt_registered w))
    then Some (mkFeed unread_left false (fd_closed f), with_pc (Forwards order ToLoop) w)
    else None
  else match fd_unread f with
       | id :: q =>
           Some (mkFeed q false (fd_closed f),
                 if bool_decide (id ∈ wt_registered w) then with_pc (Forwards [id] ToLoop) w else w)
       | [] => if fd_closed f && bool_decide (order ≡ₚ elements (wt_registered w))
               then Some (f, with_pc (Forwards order ToClosed) w) else None
       end.

(** ** Events *)

Inductive watch_event :=
  (* the rest of the server *)
  | Changes (id : Z) (t : Task)
  | Requeues (id : Z) (t : Task)
  | Notifies (i : nat) (lost : option (list Z))
  | Closes (m : gmap Z Task)
  | Removes
  | Forgets
  (* the watch *)
  | Forward
  | Request (same_session : bool) (task_id : option Z)
  | RequestsEnd
  | RequestFails (c : Code)
  | Recv (order unread_left : list Z)
  | Ends
  | ClientLeaves.

(** A completed task stays completed. *)
Definition stays_completed (m m' : gmap Z Task) : bool :=
  bool_decide (map_Forall (fun id t => is_completed t = true ->
    is_some_and (m' !! id) is_completed = true) m).

(** What the rest of the server does.  That every change of a task but a requeue is
    followed by a notification of its key is assumed here: the controller calls
    [notifier.tasks.notify] after the storage has changed the task. *)
Definition rest_step (ev : watch_event) (r : Rest) (f : Feed) : option (Rest * Feed) :=
  match ev with
  | Changes id t =>
      match rs_tasks r with
      | Some m =>
          if stays_completed m (<[id := t]> m)
          then Some (mkRest (Some (<[id := t]> m)) (rs_due r ++ [id]) (rs_silent r ∖ {[id]}) (rs_closing r), f)
          else None
      | None => None
      end
  | Requeues id t =>
      match rs_tasks r with
      | Some m =>
          if stays_completed m (<[id := t]> m)
          then Some (mkRest (Some (<[id := t]> m)) (rs_due r) ({[id]} ∪ rs_silent r) (rs_closing r), f)
          else None
      | None => None
      end
  | Notifies i lost =>
      match rs_due r !! i with
      | Some id =>
          Some (mkRest (rs_tasks r) (delete i (rs_due r)) (rs_silent r) (rs_closing r),
                if fd_closed f then f
                else match lost with
                     | None => mkFeed (fd_unread f ++ [id]) (fd_lagged f) false
                     | Some q => mkFeed q true false
                     end)
      | None => None
      end
  | Closes m =>
      match rs_tasks r with
      | Some m0 =>
          if stays_completed m0 m
          then Some (mkRest (Some m) (rs_due r) (rs_silent r) true, f) else None
      | None => Some (mkRest None (rs_due r) (rs_silent r) true, f)
      end
  | Removes =>
      if rs_closing r then Some (r, mkFeed (fd_unread f) (fd_lagged f) true) else None
  | Forgets => Some (mkRest None (rs_due r) (rs_silent r) (rs_closing r), f)
  | _ => None
  end.

Definition watch_step (ev : watch_event) (r : Rest) (f : Feed) (w : Watcher)
    : option (Feed * Watcher) :=
  match ev with
  | Forward => (fun w' => (f, w')) <$> forward_step r w
  | Request same_session task_id =>
      if selects w && negb (wt_requests_closed w) then
        Some (f, if negb same_session then with_pc (Failed InvalidArgument) w
                 else match task_id with
                      | None => with_pc (Failed InvalidArgument) w
                      | Some id => register_task id w
                      end)
      else None
  | RequestsEnd =>
      if selects w && negb (wt_requests_closed w) then
        Some (f, mkWatcher (wt_registered w) true (wt_asked w) (wt_pc w) (wt_sent w))
      else None
  | RequestFails c =>
      if selects w && negb (wt_requests_closed w) then Some (f, with_pc (Failed c) w) else None
  | Recv order unread_left => if selects w then recv_update order unread_left f w else None
  | Ends =>
      match wt_pc w with
      | Waits => if loop_done w then Some (f, with_pc Ended w) else None
      | _ => None
      end
  | ClientLeaves =>
      match wt_pc w with
      | Waits => if loop_done w then None else Some (f, with_pc ClientGone w)
      | Sends _ _ _ _ => Some (f, with_pc (Failed Cancelled) w)
      | _ => None
      end
  | _ => None
  end.

(** One event, if it can happen. *)
Definition watch_apply (ev : watch_event) (x : world) : option world :=
  match rest_step ev (w_rest x) (w_feed x) with
  | Some (r, f) => Some (mkWorld r f (w_watch x))
  | None =>
      match watch_step ev (w_rest x) (w_feed x) (w_watch x) with
      | Some (f, w) => Some (mkWorld (w_rest x) f w)
      | None => None
      end
  end.

(** The watch after its subscription, for the task of the first request. *)
Definition watch_start (id : Z) (r : Rest) : world :=
  mkWorld r (mkFeed [] false false) (register_task id (mkWatcher ∅ false ∅ Waits [])).

Inductive watch_reach (id : Z) (r : Rest) : world -> Prop :=
  | wr_start : watch_reach id r (watch_start id r)
  | wr_step ev x y : watch_reach id r x -> watch_apply ev x = Some y -> watch_reach id r y.

(** ** The invariant *)

(** The last message about a task. *)
Definition last_msg (id : Z) (l : list (Z * Task)) : option Task :=
  foldl (fun acc m => if decide (m.1 = id) then Some m.2 else acc) None l.

Lemma last_msg_snoc id l id' t :
  last_msg id (l ++ [(id', t)]) = if decide (id' = id) then Some t else last_msg id l.
Proof. unfold last_msg. by rewrite foldl_app. Qed.

(** The messages sent, and the one the watch is about to send. *)
Definition msgs (w : Watcher) : list (Z * Task) :=
  wt_sent w ++ match wt_pc w with Sends id t _ _ => [(id, t)] | _ => [] end.

Definition todo (p : pc) : list Z :=
  match p with
  | Forwards l _ | Sends _ _ l _ => l
  | Reloads id l _ => id :: l
  | _ => []
  end.

Definition active (p : pc) : bool :=
  match p with Waits | Forwards _ _ | Reloads _ _ _ | Sends _ _ _ _ => true | _ => false end.

(** A registered task is up to date for the client, or something that is still
    to happen will bring the watch to look at it. *)
Definition covered (x : world) (id : Z) : Prop :=
  let r := w_rest x in let f := w_feed x in let w := w_watch x in
  id ∈ todo (wt_pc w) \/ id ∈ rs_due r \/ id ∈ fd_unread f \/
  fd_lagged f = true \/ fd_closed f = true \/ rs_closing r = true \/
  id ∈ rs_silent r \/ rs_tasks r = None \/
  exists t, read_task id r = Some t /\ last_msg id (msgs w) = Some t.

Record watch_inv (x : world) : Prop := {
  wi_todo : forall id, id ∈ todo (wt_pc (w_watch x)) -> id ∈ wt_registered (w_watch x);
  wi_nodup : NoDup (todo (wt_pc (w_watch x)));
  wi_reload : forall id l a m, wt_pc (w_watch x) = Reloads id l a -> rs_tasks (w_rest x) = Some m ->
    is_some_and (m !! id) is_completed = true;
  wi_covered : active (wt_pc (w_watch x)) = true ->
    forall id, id ∈ wt_registered (w_watch x) -> covered x id;
  wi_asked : active (wt_pc (w_watch x)) = true \/ wt_pc (w_watch x) = Ended ->
    forall id, id ∈ wt_asked (w_watch x) ->
    id ∈ wt_registered (w_watch x) \/ is_some_and (last_msg id (msgs (w_watch x))) is_completed = true;
  wi_open : active (wt_pc (w_watch x)) = true -> forall id, id ∈ wt_registered (w_watch x) ->
    id ∈ todo (wt_pc (w_watch x)) \/
    is_some_and (last_msg id (msgs (w_watch x))) is_completed = false
}.

Lemma stays_completed_lookup m m' id :
  stays_completed m m' = true -> is_some_and (m !! id) is_completed = true ->
  is_some_and (m' !! id) is_completed = true.
Proof.
  unfold stays_completed. intros Hs%bool_decide_eq_true. destruct (m !! id) as [t|] eqn:Ht; [|done].
  simpl. intros Hc. by apply (Hs id t).
Qed.

Lemma watch_start_inv id r : watch_inv (watch_start id r).
Proof.
  split; simpl.
  - intros id' ->%list_elem_of_singleton. set_solver.
  - by apply NoDup_singleton.
  - done.
  - intros _ id' Hid. left. simpl. set_solver.
  - intros _ id' Hid. left. set_solver.
  - intros _ id' Hid. left. set_solver.
Qed.

(** The watch stands still: its part of the invariant only depends on what it
    covers. *)
Lemma rest_inv x r f :
  watch_inv x ->
  (forall id l a m, wt_pc (w_watch x) = Reloads id l a -> rs_tasks r = Some m ->
     (exists m0, rs_tasks (w_rest x) = Some m0 /\ stays_completed m0 m = true) \/ rs_tasks (w_rest x) = Some m) ->
  (forall id, covered x id -> covered (mkWorld r f (w_watch x)) id) ->
  watch_inv (mkWorld r f (w_watch x)).
Proof.
  intros [Ht Hn Hr Hc Ha Ho] Hm Hcov. split; simpl; try done.
  - intros id l a m Hpc Hm'. destruct (Hm id l a m Hpc Hm') as [(m0 & Hm0 & Hs)|Hm0]; [|by eapply Hr].
    eapply stays_completed_lookup; [done|]. by eapply Hr.
  - intros Hact id Hid. by apply Hcov, Hc.
Qed.

Lemma covered_read x r f id :
  covered x id -> id ∈ rs_due r \/ id ∉ rs_due (w_rest x) \/ id ∈ fd_unread f ->
  (id ∈ rs_silent (w_rest x) -> id ∈ rs_silent r \/ id ∈ rs_due r) ->
  (id ∈ fd_unread (w_feed x) -> id ∈ fd_unread f) ->
  (fd_lagged (w_feed x) = true -> fd_lagged f = true) -> (fd_closed (w_feed x) = true -> fd_closed f = true) ->
  (rs_closing (w_rest x) = true -> rs_closing r = true) ->
  (rs_tasks (w_rest x) = None -> rs_tasks r = None) ->
  (forall t, read_task id (w_rest x) = Some t -> read_task id r = Some t \/ id ∈ rs_due r \/ id ∈ rs_silent r) ->
  covered (mkWorld r f (w_watch x)) id.
Proof.
  intros Hc Hd Hs Hu Hl Hcl Hcg Hn Hr. unfold covered in *. simpl.
  destruct Hc as [?|[?|[?|[?|[?|[?|[?|[?|(t & Ht & Hm)]]]]]]]]; try tauto.
  destruct (Hr t Ht) as [?|[?|?]]; [|tauto..]. do 8 right. by exists t.
Qed.

Lemma read_insert_ne id id' t m d s c r :
  rs_tasks r = Some m -> id <> id' -> read_task id' (mkRest (Some (<[id := t]> m)) d s c) = read_task id' r.
Proof. intros Hm Hne. unfold read_task. rewrite Hm. simpl. by rewrite lookup_insert_ne. Qed.

Lemma rest_step_inv ev x r f :
  watch_inv x -> rest_step ev (w_rest x) (w_feed x) = Some (r, f) ->
  watch_inv (mkWorld r f (w_watch x)).
Proof.
  intros Hi Hs. destruct x as [r0 f0 w]. simpl in *. destruct ev; simpl in Hs; try done.
  - destruct (rs_tasks r0) as [m|] eqn:Hm; [|done]. destruct (stays_completed _ _) eqn:Hst; [|done].
    injection Hs as <- <-. apply (rest_inv (mkWorld r0 f0 w)); [done| |].
    + intros id' l a m' _ [= <-]. left. by exists m.
    + intros id' Hc. apply (covered_read (mkWorld r0 f0 w)); simpl; try done; try (by rewrite Hm).
      * destruct (decide (id' ∈ rs_due r0)); [left; by apply elem_of_app; left|by right; left].
      * intros Hsil. destruct (decide (id' = id)) as [->|]; [right; set_solver|left; set_solver].
      * intros t' Ht'. destruct (decide (id = id')) as [->|]; [right; left; set_solver|].
        left. by rewrite (read_insert_ne id id' t m _ _ _ r0).
  - destruct (rs_tasks r0) as [m|] eqn:Hm; [|done]. destruct (stays_completed _ _) eqn:Hst; [|done].
    injection Hs as <- <-. apply (rest_inv (mkWorld r0 f0 w)); [done| |].
    + intros id' l a m' _ [= <-]. left. by exists m.
    + intros id' Hc. apply (covered_read (mkWorld r0 f0 w)); simpl; try done; try (by rewrite Hm).
      * destruct (decide (id' ∈ rs_due r0)); auto.
      * intros Hsil. left. set_solver.
      * intros t' Ht'. destruct (decide (id = id')) as [->|]; [right; right; set_solver|].
        left. by rewrite (read_insert_ne id id' t m _ _ _ r0).
  - destruct (rs_due r0 !! i) as [id|] eqn:Hd; [|done]. injection Hs as <- <-.
    apply (rest_inv (mkWorld r0 f0 w)); [done|by right|]. intros id' Hc.
    destruct (fd_closed f0) eqn:Hcl; [unfold covered; simpl; tauto|].
    destruct lost as [q|]; [unfold covered; simpl; tauto|].
    apply (covered_read (mkWorld r0 f0 w)); simpl; try done; auto; [|set_solver|by rewrite Hcl].
    destruct (decide (id' = id)) as [->|Hne]; [right; right; set_solver|].
    destruct (decide (id' ∈ rs_due r0)) as [Hin|]; [left|by right; left].
    rewrite <- (take_drop_middle _ _ _ Hd) in Hin. rewrite delete_take_drop. set_solver.
  - destruct (rs_tasks r0) as [m0|] eqn:Hm.
    + destruct (stays_completed _ _) eqn:Hst; [|done]. injection Hs as <- <-.
      apply (rest_inv (mkWorld r0 f0 w)); [done| |unfold covered; simpl; tauto].
      intros id' l a m' _ [= <-]. left. by exists m0.
    + injection Hs as <- <-. apply (rest_inv (mkWorld r0 f0 w)); [done|done|unfold covered; simpl; tauto].
  - destruct (rs_closing r0) eqn:Hcl; [|done]. injection Hs as <- <-.
    apply (rest_inv (mkWorld r0 f0 w)); [done|by right|unfold covered; simpl; tauto].
  - injection Hs as <- <-. apply (rest_inv (mkWorld r0 f0 w)); [done|done|unfold covered; simpl; tauto].
Qed.

(** A watch that failed or lost its client. *)
Lemma stopped_inv r f w p :
  active p = false -> p <> Ended -> watch_inv (mkWorld r f (with_pc p w)).
Proof.
  intros Ha He. assert (todo p = []) as Ht by (by destruct p).
  split; simpl; rewrite ?Ht, ?Ha; try done; [by intros id ?%elem_of_nil|constructor|..].
  - intros id l a m ->. done.
  - by intros [|].
Qed.

(** The second read of a completed task: it is no longer registered. *)
Lemma reload_inv r f w id l a t :
  watch_inv (mkWorld r f w) -> wt_pc w = Reloads id l a -> read_task id r = Some t ->
  watch_inv (mkWorld r f (with_pc (Sends id t l a) (with_registered (wt_registered w ∖ {[id]}) w))).
Proof.
  intros [Ht Hn Hr Hc Ha Ho] Hpc Hread. unfold covered, msgs in *. simpl in *. rewrite Hpc in *. simpl in *.
  apply list.NoDup_cons in Hn as [Hnin Hn].
  assert (is_completed t = true) as Hct.
  { unfold read_task in Hread. destruct (rs_tasks r) as [m|]; [|done]. specialize (Hr id l a m eq_refl eq_refl).
    simpl in Hread. by rewrite Hread in Hr. }
  split; simpl; unfold covered, msgs; simpl.
  - intros id' Hid. apply elem_of_difference. split; [apply Ht; by right|]. by intros ->%elem_of_singleton.
  - done.
  - done.
  - intros _ id' [Hid Hne%not_elem_of_singleton]%elem_of_difference. rewrite last_msg_snoc, decide_False by done.
    specialize (Hc eq_refl id' Hid). simpl in Hc. rewrite app_nil_r, elem_of_cons in Hc. intuition congruence.
  - intros _ id' Hid. rewrite last_msg_snoc. case_decide as E; [by right|].
    specialize (Ha (or_introl eq_refl) id' Hid). rewrite app_nil_r in Ha. destruct Ha; [left; set_solver|by right].
  - intros _ id' [Hid Hne%not_elem_of_singleton]%elem_of_difference. rewrite last_msg_snoc, decide_False by done.
    specialize (Ho eq_refl id' Hid). simpl in Ho. rewrite app_nil_r, elem_of_cons in Ho. intuition congruence.
Qed.

Lemma forward_step_inv r f w w' :
  watch_inv (mkWorld r f w) -> forward_step r w = Some w' -> watch_inv (mkWorld r f w').
Proof.
  intros Hi Hs. pose proof Hi as [Ht Hn Hr Hc Ha Ho]. unfold forward_step in Hs. unfold covered, msgs in *. simpl in *.
  destruct (wt_pc w) as [|[|id l] a|id l a|id t l a| | |] eqn:Hpc; try done.
  - destruct a; injection Hs as <-; [|by apply stopped_inv]. split; simpl; unfold covered, msgs; simpl; auto.
    done.
  - injection Hs as <-. destruct (read_task id r) as [t|] eqn:Hread; [|by apply stopped_inv].
    apply list.NoDup_cons in Hn as [Hnin Hn].
    destruct (is_completed t) eqn:Hct; (split; simpl; unfold covered, msgs; simpl).
    + done.
    + by apply list.NoDup_cons.
    + intros id' l' a' m [= <- <- <-] Hm. unfold read_task in Hread. rewrite Hm in Hread. simpl in Hread. by rewrite Hread.
    + auto.
    + intros [_|]; [auto|done].
    + auto.
    + intros id' Hid. apply Ht. by right.
    + done.
    + done.
    + intros _ id' Hid. rewrite last_msg_snoc. case_decide as E; [subst; do 8 right; by exists t|].
      specialize (Hc eq_refl id' Hid). simpl in Hc. rewrite app_nil_r in Hc. rewrite elem_of_cons in Hc. intuition congruence.
    + intros _ id' Hid. rewrite last_msg_snoc. case_decide as E; [subst; left; apply Ht; left|].
      specialize (Ha (or_introl eq_refl) id' Hid). by rewrite app_nil_r in Ha.
    + intros _ id' Hid. rewrite last_msg_snoc. case_decide as E; [by right|].
      specialize (Ho eq_refl id' Hid). simpl in Ho. rewrite app_nil_r, elem_of_cons in Ho. intuition congruence.
  - injection Hs as <-. destruct (read_task id r) as [t|] eqn:Hread; [|by apply stopped_inv].
    by apply reload_inv.
  - injection Hs as <-. split; simpl; unfold covered, msgs; simpl; rewrite ?app_nil_r; auto.
    done.
Qed.

Lemma selects_waits w : selects w = true -> wt_pc w = Waits.
Proof. unfold selects. by destruct (wt_pc w). Qed.

(** From the [select!] to a run over tasks that are registered. *)
Lemma forwards_inv r f f' w l a :
  watch_inv (mkWorld r f w) -> wt_pc w = Waits -> NoDup l -> (forall id, id ∈ l -> id ∈ wt_registered w) ->
  (forall id, id ∈ wt_registered w -> covered (mkWorld r f w) id ->
     covered (mkWorld r f' (with_pc (Forwards l a) w)) id) ->
  watch_inv (mkWorld r f' (with_pc (Forwards l a) w)).
Proof.
  intros [Ht Hn Hr Hc Ha Ho] Hpc Hl Hreg Hcov. unfold msgs in *. simpl in *. rewrite Hpc in *. simpl in *.
  split; simpl; unfold msgs; simpl; try done; auto.
  - intros _ id Hid. destruct (Ho eq_refl id Hid) as [?%elem_of_nil|]; [done|auto].
Qed.

Lemma recv_update_inv order left r f w f' w' :
  watch_inv (mkWorld r f w) -> selects w = true -> recv_update order left f w = Some (f', w') ->
  watch_inv (mkWorld r f' w').
Proof.
  intros Hi Hpc%selects_waits Hs. unfold recv_update in Hs.
  destruct (fd_lagged f) eqn:Hlag.
  { case_bool_decide as Hord; [|done]. injection Hs as <- <-. apply (forwards_inv r f); try done.
    - rewrite Hord. apply NoDup_elements.
    - intros id. by rewrite Hord, elem_of_elements.
    - intros id Hid _. left. simpl. by rewrite Hord, elem_of_elements. }
  destruct (fd_unread f) as [|id q] eqn:Hq.
  - destruct (fd_closed f) eqn:Hcl; [|done]. simpl in Hs. case_bool_decide as Hord; [|done].
    injection Hs as <- <-. apply (forwards_inv r f); try done.
    + rewrite Hord. apply NoDup_elements.
    + intros id. by rewrite Hord, elem_of_elements.
    + intros id Hid _. left. simpl. by rewrite Hord, elem_of_elements.
  - injection Hs as <- <-. case_bool_decide as Hreg.
    + apply (forwards_inv r f); try done; [by apply NoDup_singleton|by intros id' ->%list_elem_of_singleton|].
      intros id' _ Hc. unfold covered, msgs in *. simpl in *. rewrite Hpc, Hq, elem_of_cons in Hc.
      rewrite elem_of_cons. simpl in Hc. rewrite elem_of_nil in Hc. intuition congruence.
    + destruct Hi as [Ht Hn Hr Hc Ha Ho]. split; simpl in *; try done.
      intros Hact id' Hid'. specialize (Hc Hact id' Hid'). unfold covered in *. simpl in *.
      rewrite Hq, elem_of_cons in Hc. intuition congruence.
Qed.

Lemma watch_step_inv ev r f w f' w' :
  watch_inv (mkWorld r f w) -> watch_step ev r f w = Some (f', w') -> watch_inv (mkWorld r f' w').
Proof.
  intros Hi Hs. destruct ev; simpl in Hs; try done.
  - destruct (forward_step r w) as [w1|] eqn:Hf; [|done]. injection Hs as <- <-. by eapply forward_step_inv.
  - destruct (selects w) eqn:Hsel; [|done]. destruct (wt_requests_closed w); [done|]. simpl in Hs.
    injection Hs as <- <-. destruct same_session; simpl; [|by apply stopped_inv].
    destruct task_id as [id|]; [|by apply stopped_inv]. apply selects_waits in Hsel.
    destruct Hi as [Ht Hn Hr Hc Ha Ho]. unfold covered, msgs in *. simpl in *. rewrite Hsel in *.
    simpl in *. split; simpl; unfold covered, msgs; simpl; try done.
    + intros id' ->%list_elem_of_singleton. set_solver.
    + by apply NoDup_singleton.
    + intros _ id' [->%elem_of_singleton|Hid]%elem_of_union; [left; set_solver|]. specialize (Hc eq_refl id' Hid).
      rewrite elem_of_nil in Hc. tauto.
    + intros _ id' [->%elem_of_singleton|Hid]%elem_of_union; [left; set_solver|].
      destruct (Ha (or_introl eq_refl) id' Hid); [left; set_solver|by right].
    + intros _ id' [->%elem_of_singleton|Hid]%elem_of_union; [left; set_solver|].
      destruct (Ho eq_refl id' Hid) as [?%elem_of_nil|]; [done|by right].
  - destruct (selects w && negb (wt_requests_closed w)); [|done]. injection Hs as <- <-.
    destruct Hi as [Ht Hn Hr Hc Ha Ho]. by split.
  - destruct (selects w && negb (wt_requests_closed w)); [|done]. injection Hs as <- <-. by apply stopped_inv.
  - destruct (selects w) eqn:Hsel; [|done]. by eapply recv_update_inv.
  - destruct (wt_pc w) eqn:Hpc; try done. destruct (loop_done w) eqn:Hd; [|done]. injection Hs as <- <-.
    destruct Hi as [Ht Hn Hr Hc Ha Ho]. unfold msgs in *. simpl in *. rewrite Hpc in *. simpl in *.
    split; simpl; unfold msgs; simpl; try done. auto.
  - destruct (wt_pc w) eqn:Hpc; try done.
    + destruct (loop_done w); [done|]. injection Hs as <- <-. by apply stopped_inv.
    + injection Hs as <- <-. by apply stopped_inv.
Qed.

Lemma watch_reach_inv id r x : watch_reach id r x -> watch_inv x.
Proof.
  induction 1 as [|ev x y _ IH Hs]; [apply watch_start_inv|]. unfold watch_apply in Hs. destruct x as [r0 f0 w0].
  simpl in *. destruct (rest_step ev r0 f0) as [[r1 f1]|] eqn:Hr.
  - injection Hs as <-. by apply (rest_step_inv ev (mkWorld r0 f0 w0)).
  - destruct (watch_step ev r0 f0 w0) as [[f1 w1]|] eqn:Hw; [|done]. injection Hs as <-. by eapply watch_step_inv.
Qed.

(** ** What the client learns *)

(** Nothing is left to happen: no notification is outstanding or unread. *)
Definition quiet (x : world) : Prop :=
  rs_due (w_rest x) = [] /\ fd_unread (w_feed x) = [] /\ fd_lagged (w_feed x) = false /\
  fd_closed (w_feed x) = false /\ rs_closing (w_rest x) = false.

(** When the watch waits and nothing is left to happen, what is not covered by
    anything else is up to date. *)
Lemma quiet_fresh x m tid :
  watch_inv x -> wt_pc (w_watch x) = Waits -> quiet x -> rs_tasks (w_rest x) = Some m ->
  tid ∈ wt_registered (w_watch x) -> tid ∉ rs_silent (w_rest x) ->
  exists t, m !! tid = Some t /\ last_msg tid (wt_sent (w_watch x)) = Some t.
Proof.
  intros Hx Hpc (Hd & Hu & Hl & Hc & Hcg) Hm Hreg Hsil.
  pose proof (wi_covered x Hx ltac:(by rewrite Hpc) tid Hreg) as Hcov. unfold covered in Hcov.
  rewrite Hpc, Hd, Hu, Hl, Hc, Hcg, Hm in Hcov. simpl in Hcov. rewrite !elem_of_nil in Hcov.
  destruct Hcov as [?|[?|[?|[?|[?|[?|[?|[?|(t & Ht & Hlast)]]]]]]]]; try done.
  exists t. unfold read_task in Ht. rewrite Hm in Ht. split; [done|].
  unfold msgs in Hlast. by rewrite Hpc, app_nil_r in Hlast.
Qed.

(** A watch ends by itself only when it watches nothing. *)
Lemma ended_registered id r x :
  watch_reach id r x -> wt_pc (w_watch x) = Ended -> wt_registered (w_watch x) = ∅.
Proof.
  intros Hx Hpc. induction Hx as [|ev x y Hx IH Hs]; [done|]. unfold watch_apply in Hs. destruct x as [r0 f0 w0].
  simpl in *. destruct (rest_step ev r0 f0) as [[r1 f1]|] eqn:Hr; [injection Hs as <-; by apply IH|].
  destruct (watch_step ev r0 f0 w0) as [[f1 w1]|] eqn:Hw; [|done]. injection Hs as <-. simpl in *.
  destruct ev; simpl in Hw; try done.
  - unfold forward_step in Hw. destruct (wt_pc w0) as [|[|? ?] []|? ? ?|? ? ? ?| | |]; try done;
      injection Hw as <- <-; try done; destruct (read_task _ _); try done; by destruct (is_completed _).
  - destruct (_ && _); [|done]. injection Hw as <- <-. destruct same_session, task_id; done.
  - destruct (selects w0) eqn:Hsel; [|done]. destruct (negb _); [|done]. injection Hw as <- <-. simpl in *.
    apply selects_waits in Hsel. congruence.
  - destruct (_ && _); [|done]. by injection Hw as <- <-.
  - destruct (selects w0) eqn:Hsel; [|done]. apply selects_waits in Hsel. unfold recv_update in Hw.
    repeat case_match; simplify_eq; simpl in *; congruence.
  - destruct (wt_pc w0); try done. destruct (loop_done w0) eqn:Hd; [|done]. injection Hw as <- <-. simpl.
    unfold loop_done in Hd. apply andb_true_iff in Hd as [_ Hd]. by apply bool_decide_eq_true in Hd.
  - destruct (wt_pc w0); try done; [destruct (loop_done w0); [done|]|]; by injection Hw as <- <-.
Qed.

(** C9 [safety] No update of a watched task is lost.  However the changes of
    tasks, their notifications, the requests of the client and the steps of the
    watch interleave, and however far the subscription lags behind: when the
    watch waits and no notification is left, the last message about every task
    that is still watched is the task as it is stored, except a task a lost node
    gave back to the queue, whose change is announced to nobody. *)
Theorem watch_no_lost_update id r x m tid :
  watch_reach id r x -> wt_pc (w_watch x) = Waits -> quiet x -> rs_tasks (w_rest x) = Some m ->
  tid ∈ wt_registered (w_watch x) -> tid ∉ rs_silent (w_rest x) ->
  exists t, m !! tid = Some t /\ last_msg tid (wt_sent (w_watch x)) = Some t.
Proof.
  intros Hx. by apply quiet_fresh, (watch_reach_inv id r).
Qed.

(** [functional] A watch that ends by itself has told the client the end of
    every task it asked for: the last message about the task is a completed one. *)
Theorem watch_end_complete id r x tid :
  watch_reach id r x -> wt_pc (w_watch x) = Ended -> tid ∈ wt_asked (w_watch x) ->
  exists t, last_msg tid (wt_sent (w_watch x)) = Some t /\ is_completed t = true.
Proof.
  intros Hx Hpc Hask. pose proof (ended_registered id r x Hx Hpc) as He.
  apply watch_reach_inv in Hx. destruct (wi_asked x Hx (or_intror Hpc) tid Hask) as [Hr|Hr].
  - rewrite He in Hr. by apply elem_of_empty in Hr.
  - unfold msgs in Hr. rewrite Hpc, app_nil_r in Hr.
    destruct (last_msg tid (wt_sent (w_watch x))) as [t|]; [|done]. by exists t.
Qed.

(** C31 [liveness] A watch never waits in vain: when no request can come and no
    notification is left, either the watch ends with its next step or it still
    watches a task that is not completed, or one that a lost node gave back. *)
Theorem watch_not_stuck id r x m :
  watch_reach id r x -> wt_pc (w_watch x) = Waits -> quiet x -> rs_tasks (w_rest x) = Some m ->
  wt_requests_closed (w_watch x) = true ->
  watch_apply Ends x = Some (mkWorld (w_rest x) (w_feed x) (with_pc Ended (w_watch x))) \/
  exists tid, tid ∈ wt_registered (w_watch x) /\
    (tid ∈ rs_silent (w_rest x) \/ exists t, m !! tid = Some t /\ is_completed t = false).
Proof.
  intros Hx Hpc Hq Hm Hreq. apply watch_reach_inv in Hx.
  destruct (set_choose_or_empty (wt_registered (w_watch x))) as [[tid Hreg]|He].
  - right. exists tid. split; [done|]. destruct (decide (tid ∈ rs_silent (w_rest x))) as [|Hsil]; [by left|right].
    destruct (quiet_fresh x m tid Hx Hpc Hq Hm Hreg Hsil) as (t & Ht & Hlast). exists t. split; [done|].
    destruct (wi_open x Hx ltac:(by rewrite Hpc) tid Hreg) as [Ho|Ho].
    { rewrite Hpc in Ho. by apply elem_of_nil in Ho. }
    unfold msgs in Ho. by rewrite Hpc, app_nil_r, Hlast in Ho.
  - left. apply leibniz_equiv in He. unfold watch_apply. simpl. rewrite Hpc. unfold loop_done.
    by rewrite Hreq, He, bool_decide_true by done.
Qed.

(** ** Examples *)

Definition watch_run (evs : list watch_event) (x : world) : option world :=
  foldl (fun o ev => o ≫= watch_apply ev) (Some x) evs.

Lemma watch_run_reach id r evs x y : watch_reach id r x -> watch_run evs x = Some y -> watch_reach id r y.
Proof.
  unfold watch_run. revert x. induction evs as [|ev evs IH]; intros x Hx Hr; [by injection Hr as <-|].
  change (foldl (fun o ev => o ≫= watch_apply ev) (watch_apply ev x) evs = Some y) in Hr.
  destruct (watch_apply ev x) as [x1|] eqn:H1.
  - apply (IH x1); [by eapply wr_step|done].
  - exfalso. clear -Hr. induction evs; [done|auto].
Qed.

Definition demo_task (st : TaskState) : Task := mkTask 1 "s1" 1 None None ∅ 0 None [] st.
Definition demo_rest : Rest := mkRest (Some {[1 := demo_task TaskPending]}) [] ∅ false.

(** The task starts and the client is told; two changes happen before the watch
    reads the notification of the first. *)
Definition demo_watch : list watch_event :=
  [Forward; Forward; Forward; Changes 1 (demo_task TaskRunning); Notifies 0 None;
   Recv [] []; Forward; Forward; Forward; Changes 1 (demo_task TaskSucceed)].
Definition demo_finish : list watch_event :=
  [Notifies 0 None; Recv [] []; Forward; Forward; Forward; Forward; RequestsEnd].

Definition demo_world (evs : list watch_event) : world :=
  default (watch_start 1 demo_rest) (watch_run evs (watch_start 1 demo_rest)).

Lemma demo_world_reach evs : watch_reach 1 demo_rest (demo_world evs).
Proof.
  unfold demo_world. destruct (watch_run evs _) as [y|] eqn:Hr; [|apply wr_start].
  eapply watch_run_reach; [apply wr_start|done].
Qed.

(** The watch after the first change was forwarded. *)
Definition demo_waiting : world :=
  demo_world (take 9 demo_watch).

Lemma watch_no_lost_update_witness :
  exists t, ({[1 := demo_task TaskRunning]} : gmap Z Task) !! 1 = Some t /\
    last_msg 1 (wt_sent (w_watch demo_waiting)) = Some t.
Proof.
  apply (watch_no_lost_update 1 demo_rest demo_waiting {[1 := demo_task TaskRunning]} 1).
  - apply demo_world_reach.
  - vm_compute. reflexivity.
  - split_and!; vm_compute; reflexivity.
  - vm_compute. reflexivity.
  - vm_compute. reflexivity.
  - apply not_elem_of_empty.
Defined.

Lemma watch_end_complete_witness :
  exists t, last_msg 1 (wt_sent (w_watch (demo_world (demo_watch ++ demo_finish ++ [Ends])))) = Some t /\
    is_completed t = true.
Proof.
  apply (watch_end_complete 1 demo_rest).
  - apply demo_world_reach.
  - vm_compute. reflexivity.
  - vm_compute. reflexivity.
Defined.

(** The client sends no more requests while the task runs. *)
Definition demo_running : world := demo_world (take 9 demo_watch ++ [RequestsEnd]).

Lemma watch_not_stuck_witness :
  watch_apply Ends demo_running = None /\
  exists tid, tid ∈ wt_registered (w_watch demo_running).
Proof.
  assert (watch_apply Ends demo_running = None) as Hn by (vm_compute; reflexivity). split; [exact Hn|].
  destruct (watch_not_stuck 1 demo_rest demo_running {[1 := demo_task TaskRunning]}) as [He|(tid & Ht & _)].
  - apply demo_world_reach.
  - vm_compute. reflexivity.
  - split_and!; vm_compute; reflexivity.
  - vm_compute. reflexivity.
  - vm_compute. reflexivity.
  - rewrite Hn in He. discriminate.
  - by exists tid.
Defined.
