(* ===== verification/Forward.v ===== *)
(** * Forwarding executors to a node ([forward_executors] of [backend.rs])

    The queue of a node's notifications ([AsyncQueue] of
    [stdng/src/collections/async_queue.rs]) outlives the streams of the node:
    every stream has a forwarder that reads the same queue, and the forwarder of
    a stream that died puts back what it could not send.  Streams, forwarders
    and the code that queues notifications run beside each other: an event is an
    atomic step of one of them.  The queue is that of one connection: when a
    connection is closed and removed, its queue and what is in it go with it, and
    that is outside this file. *)
From S2P Require Import Prelude Types.

(** ** The queue *)

Definition DEFAULT_CAPACITY : nat := 256.

(** [push] waits while the queue is full; [pop] while it is empty. *)
Definition push {A} (item : A) (q : list A) : option (list A) :=
  if (length q <? DEFAULT_CAPACITY)%nat then Some (q ++ [item]) else None.

Definition pop {A} (q : list A) : option (A * list A) :=
  match q with [] => None | x :: q => Some (x, q) end.

(** ** Forwarders *)

(** Where a forwarder stands: in the [select!], before the send of an executor,
    before it queues an executor again, or at its end. *)
Inductive stage :=
  | Selects
  | SendsExecutor (e : Executor)
  | QueuesAgain (e : Executor)
  | Stopped.

(** A stream with its forwarder: whether the client still reads it, and what was
    sent on it. *)
Record Stream := mkStream { sm_open : bool; sm_stage : stage; sm_sent : list Executor }.

Definition with_stage (p : stage) (s : Stream) : Stream := mkStream (sm_open s) p (sm_sent s).

Record link := mkLink { lk_queue : list Executor; lk_streams : list Stream; lk_pushed : list Executor }.

(** One step of a forwarder on the queue: a closed stream wins over a ready
    notification; a send on a closed stream fails. *)
Definition forwarder_step (q : list Executor) (s : Stream) : option (list Executor * Stream) :=
  match sm_stage s with
  | Selects =>
      if negb (sm_open s) then Some (q, with_stage Stopped s)
      else match pop q with
           | Some (e, q) => Some (q, with_stage (SendsExecutor e) s)
           | None => None
           end
  | SendsExecutor e =>
      Some (q, if sm_open s then mkStream true Selects (sm_sent s ++ [e])
               else with_stage (QueuesAgain e) s)
  | QueuesAgain e => match push e q with
                     | Some q => Some (q, with_stage Stopped s)
                     | None => None
                     end
  | Stopped => None
  end.

Inductive link_event :=
  | Pushes (e : Executor)
  | Opens
  | Closes (i : nat)
  | Steps (i : nat).

Definition link_apply (ev : link_event) (k : link) : option link :=
  match ev with
  | Pushes e =>
      q ← push e (lk_queue k);
      Some (mkLink q (lk_streams k) (lk_pushed k ++ [e]))
  | Opens => Some (mkLink (lk_queue k) (lk_streams k ++ [mkStream true Selects []]) (lk_pushed k))
  | Closes i =>
      s ← lk_streams k !! i;
      Some (mkLink (lk_queue k) (<[i := mkStream false (sm_stage s) (sm_sent s)]> (lk_streams k)) (lk_pushed k))
  | Steps i =>
      s ← lk_streams k !! i;
      '(q, s) ← forwarder_step (lk_queue k) s;
      Some (mkLink q (<[i := s]> (lk_streams k)) (lk_pushed k))
  end.

Definition new_link : link := mkLink [] [] [].

Definition link_run (evs : list link_event) : option link :=
  foldl (fun o ev => o ≫= link_apply ev) (Some new_link) evs.

(** ** Nothing is lost *)

(** What a stream has of the notifications: those sent and the one held. *)
Definition stream_has (s : Stream) : list Executor :=
  sm_sent s ++ match sm_stage s with SendsExecutor e | QueuesAgain e => [e] | _ => [] end.

Definition accounted (k : link) : Prop :=
  lk_pushed k ≡ₚ lk_queue k ++ mjoin (stream_has <$> lk_streams k).

Lemma push_Some {A} (x : A) q q' : push x q = Some q' -> q' = q ++ [x].
Proof. unfold push. destruct (_ <? _)%nat; [|done]. by intros [= <-]. Qed.

(** A stream replaced in the list. *)
Lemma join_insert {A B} (f : A -> list B) (l : list A) i x y :
  l !! i = Some x -> exists l1 l2, mjoin (f <$> l) = l1 ++ f x ++ l2 /\
    mjoin (f <$> <[i := y]> l) = l1 ++ f y ++ l2.
Proof.
  intros Hi. exists (mjoin (f <$> take i l)), (mjoin (f <$> drop (S i) l)). split.
  - rewrite <- (take_drop_middle l i x Hi) at 1. by rewrite fmap_app, join_app.
  - rewrite insert_take_drop by (by eapply lookup_lt_Some). by rewrite fmap_app, join_app.
Qed.

Lemma forwarder_step_has q s q' s' :
  forwarder_step q s = Some (q', s') -> q' ++ stream_has s' ≡ₚ q ++ stream_has s.
Proof.
  unfold forwarder_step, stream_has. destruct s as [op st sent]. simpl.
  destruct st as [|e|e|]; simpl; [| | |done].
  - destruct op; simpl; [|by intros [= <- <-]]. destruct q as [|e q]; [done|].
    intros [= <- <-]. simpl. rewrite app_nil_r. solve_Permutation.
  - intros [= <- <-]. destruct op; simpl; by rewrite ?app_nil_r.
  - destruct (push e q) as [q1|] eqn:Hp; [|done]. intros [= <- <-]. apply push_Some in Hp as ->.
    simpl. rewrite app_nil_r. solve_Permutation.
Qed.

Lemma link_apply_accounted ev k k' : accounted k -> link_apply ev k = Some k' -> accounted k'.
Proof.
  unfold accounted. intros Hk Hs. destruct k as [q ss ps]. destruct ev as [e| |i|i]; simpl in *.
  - destruct (push e q) as [q'|] eqn:Hp; [|done]. injection Hs as <-. apply push_Some in Hp as ->. simpl.
    rewrite Hk. solve_Permutation.
  - injection Hs as <-. simpl. rewrite fmap_app, join_app. simpl. by rewrite !app_nil_r.
  - destruct (ss !! i) as [s|] eqn:Hi; [|done]. injection Hs as <-. simpl.
    destruct (join_insert stream_has ss i s (mkStream false (sm_stage s) (sm_sent s)) Hi) as (l1 & l2 & E1 & ->).
    by rewrite Hk, E1.
  - destruct (ss !! i) as [s|] eqn:Hi; [|done]. simpl in Hs.
    destruct (forwarder_step q s) as [[q' s']|] eqn:Hf; [|done]. injection Hs as <-. simpl.
    apply forwarder_step_has in Hf. destruct (join_insert stream_has ss i s s' Hi) as (l1 & l2 & E1 & ->).
    rewrite Hk, E1. trans (l1 ++ (q ++ stream_has s) ++ l2); [solve_Permutation|].
    rewrite <- Hf. solve_Permutation.
Qed.

(** C30 [safety] Whatever streams a node opens and closes, and whenever they die
    while an executor is being sent, every notification queued for the node is
    exactly once in the queue, in the hands of a forwarder that will send it or
    queue it again, or sent on a stream; a forwarder that stopped holds none. *)
Theorem forward_loses_nothing evs k :
  link_run evs = Some k ->
  lk_pushed k ≡ₚ lk_queue k ++ mjoin (stream_has <$> lk_streams k) /\
  forall i s, lk_streams k !! i = Some s -> sm_stage s = Stopped -> stream_has s = sm_sent s.
Proof.
  intros Hr. split.
  - change (accounted k). unfold link_run in Hr. assert (accounted new_link) as H0 by apply perm_nil. revert H0 Hr.
    generalize new_link. induction evs as [|ev evs IH]; intros k0 H0 Hr; [by injection Hr as <-|].
    cbn [foldl] in Hr. change (Some k0 ≫= link_apply ev) with (link_apply ev k0) in Hr.
    destruct (link_apply ev k0) as [k1|] eqn:H1.
    + eapply IH; [|done]. by eapply link_apply_accounted.
    + exfalso. clear -Hr. induction evs; [done|auto].
  - intros i s _ Hs. unfold stream_has. by rewrite Hs, app_nil_r.
Qed.

(** ** Examples *)

Definition demo_executor (id : string) (st : ExecutorState) : Executor :=
  mkExecutor id "n1" (mkRR 1 1 0) ShimHost "app" None None ∅ 0 0 st None.

(** The stream dies while its forwarder holds a notification. *)
Definition demo_dying : list link_event :=
  [Opens; Pushes (demo_executor "x1" ExecVoid); Steps 0; Closes 0].

Lemma forward_loses_nothing_witness :
  exists k, link_run (demo_dying ++ [Steps 0; Steps 0; Opens; Steps 1; Steps 1]) = Some k /\
    lk_pushed k ≡ₚ lk_queue k ++ mjoin (stream_has <$> lk_streams k).
Proof.
  eexists. split; [vm_compute; reflexivity|].
  apply (proj1 (forward_loses_nothing (demo_dying ++ [Steps 0; Steps 0; Opens; Steps 1; Steps 1]) _ eq_refl)).
Defined.

(** [functional] A notification that is queued again is overtaken: the stream
    dies while it sends that an executor was created; the node reconnects, and
    the executor's later state is queued before the forwarder of the dead stream
    puts the old one back.  The new stream then sends the states in the wrong
    order, and the last the node hears of the executor is the older one. *)
Theorem requeued_notification_reordered :
  match link_run (demo_dying ++ [Pushes (demo_executor "x1" ExecReleasing); Opens; Steps 0; Steps 0;
                                 Steps 1; Steps 1; Steps 1; Steps 1]) with
  | Some k => (fun s => ex_state <$> sm_sent s) <$> lk_streams k = [[]; [ExecReleasing; ExecVoid]] /\
              ex_state <$> lk_pushed k = [ExecVoid; ExecReleasing] /\ lk_queue k = []
  | None => False
  end.
Proof. vm_compute. done. Qed.

(** ** The replay of a large node *)

(** [register_node] queues the executors of a node one after another, before
    the node opens its stream. *)
Fixpoint push_all (l : list Executor) (q : list Executor) : list Executor * list Executor :=
  match l with
  | [] => (q, [])
  | e :: l => match push e q with Some q => push_all l q | None => (q, e :: l) end
  end.

Lemma push_all_spec l q :
  (length q <= DEFAULT_CAPACITY)%nat ->
  push_all l q = (q ++ take (DEFAULT_CAPACITY - length q) l, drop (DEFAULT_CAPACITY - length q) l).
Proof.
  revert q. induction l as [|e l IH]; intros q Hq; simpl; [by rewrite take_nil, drop_nil, app_nil_r|].
  unfold push. destruct (Nat.ltb_spec (length q) DEFAULT_CAPACITY) as [Hlt|Hge].
  - rewrite IH by (rewrite length_app; simpl; lia). rewrite length_app. simpl.
    replace (DEFAULT_CAPACITY - length q)%nat with (S (DEFAULT_CAPACITY - (length q + 1)))%nat by lia.
    simpl. by rewrite <- (assoc_L (++)).
  - replace (DEFAULT_CAPACITY - length q)%nat with 0%nat by lia. simpl. by rewrite app_nil_r.
Qed.

(** [bounds] The registration of a node completes exactly when its queue has
    room for all its executors: with an empty queue that is 256.  With more, the
    call waits for room, while the node opens the stream that would make room
    only after the call has returned. *)
Theorem replay_blocks_beyond_capacity l q :
  (length q <= DEFAULT_CAPACITY)%nat ->
  ((push_all l q).2 = [] <-> (length q + length l <= DEFAULT_CAPACITY)%nat) /\
  ((push_all l q).2 <> [] -> forall e, push e (push_all l q).1 = None).
Proof.
  intros Hq. rewrite push_all_spec by done. simpl. split.
  - split; intros Hl.
    + apply (f_equal length) in Hl. rewrite length_drop in Hl. simpl in Hl. lia.
    + apply drop_ge. lia.
  - intros Hl e. unfold push. rewrite length_app, length_take.
    assert (length (drop (DEFAULT_CAPACITY - length q) l) <> 0)%nat as Hn by (by intros ?%nil_length_inv).
    rewrite length_drop in Hn. destruct (Nat.ltb_spec (length q + Nat.min (DEFAULT_CAPACITY - length q) (length l)) DEFAULT_CAPACITY); [lia|done].
Qed.

Lemma replay_blocks_beyond_capacity_witness :
  (push_all (replicate 257 (demo_executor "x1" ExecIdle)) []).2 <> [] /\
  forall e, push e (push_all (replicate 257 (demo_executor "x1" ExecIdle)) []).1 = None.
Proof.
  assert ((push_all (replicate 257 (demo_executor "x1" ExecIdle)) []).2 <> []) as Hn by (by vm_compute).
  split; [exact Hn|].
  exact (proj2 (replay_blocks_beyond_capacity (replicate 257 (demo_executor "x1" ExecIdle)) []
    ltac:(simpl; lia)) Hn).
Defined.
