(* ===== verification/ClientWatch.v ===== *)
(** * Waiting for tasks in the client ([sdk/rust/src/client/mod.rs])

    A client that runs a task waits for its end on a stream all waiters of a
    session share.  [WatchManager] keeps the stream and, for each task, the
    tokio watch channel its waiters read; a task of its own copies the updates
    of the stream into these channels.  Registering, updating, the end of the
    stream and closing the session take the manager's lock one after the other,
    so each is one step here, and what waiters do between them is another. *)
From S2P Require Import Prelude Types Codes Events Rpc.
Local Open Scope Z_scope.

(** ** tokio's watch channel *)

(** [watch::channel], [Sender::subscribe], [Sender::send_replace], the drop of
    the sender and of a receiver; [wc_next] is [changed().await] with
    [borrow_and_update()]: nothing yet, the sender is gone, or a value. *)
Inductive next_result (V : Type) := NotYet | SenderGone | Next (v : V).
Arguments NotYet {V}.
Arguments SenderGone {V}.
Arguments Next {V} _.

Class WatchChan (V C : Type) := {
  wc_channel : V -> nat * C;
  wc_subscribe : C -> nat * C;
  wc_send_replace : V -> C -> C;
  wc_drop_sender : C -> C;
  wc_drop : nat -> C -> C;
  wc_next : nat -> C -> next_result V * C
}.

(** A channel has one value; a live receiver has seen it or not. *)
Class WatchChanSpec (V C : Type) `{WatchChan V C} := {
  value : C -> V;
  unseen : nat -> C -> option bool;
  sealed : C -> bool;

  wchannel_view : forall v r c, wc_channel v = (r, c) ->
    value c = v /\ sealed c = false /\
    forall r', unseen r' c = if decide (r' = r) then Some false else None;
  wsubscribe_view : forall c r c', wc_subscribe c = (r, c') ->
    unseen r c = None /\ value c' = value c /\ sealed c' = sealed c /\
    forall r', unseen r' c' = if decide (r' = r) then Some false else unseen r' c;
  wsend_view : forall v c,
    value (wc_send_replace v c) = v /\ sealed (wc_send_replace v c) = sealed c /\
    forall r, unseen r (wc_send_replace v c) = (fun _ => true) <$> unseen r c;
  wdrop_sender_view : forall c,
    value (wc_drop_sender c) = value c /\ sealed (wc_drop_sender c) = true /\
    forall r, unseen r (wc_drop_sender c) = unseen r c;
  wdrop_view : forall r c,
    value (wc_drop r c) = value c /\ sealed (wc_drop r c) = sealed c /\
    forall r', unseen r' (wc_drop r c) = if decide (r' = r) then None else unseen r' c;
  wnext_view : forall r c b, unseen r c = Some b ->
    let '(x, c') := wc_next r c in
    x = (if b then Next (value c) else if sealed c then SenderGone else NotYet) /\
    value c' = value c /\ sealed c' = sealed c /\
    forall r', unseen r' c' = if decide (r' = r) then Some false else unseen r' c
}.

(** ** Tasks of the client *)

Module sdk.

Record Task := mkTask {
  t_id : string;
  t_ssn_id : string;
  t_state : TaskState;
  t_input : option string;
  t_output : option string;
  t_affinity : gset string;
  t_events : list Event
}.

Definition is_completed (t : Task) : bool :=
  match t_state t with TaskSucceed | TaskFailed | TaskCancelled => true | _ => false end.
Definition is_succeed (t : Task) : bool :=
  match t_state t with TaskSucceed => true | _ => false end.

Section conversions.
Context `{Chrono}.

(** [Event::try_from(&rpc::Event)]. *)
Definition event_try_from (event : rpc.Event) : result Event :=
  creation_time ← ok_or (from_timestamp_millis (rpc.e_creation_time event)) EInternal;
  Ok (mkEvent (rpc.e_code event) (rpc.e_message event) creation_time).

Fixpoint events_try_from (l : list rpc.Event) : result (list Event) :=
  match l with
  | [] => Ok []
  | ev :: l => e ← event_try_from ev; es ← events_try_from l; Ok (e :: es)
  end.

(** An unknown state is the default, [Pending]. *)
Definition task_try_from (task : rpc.Task) : result Task :=
  metadata ← ok_or (rpc.t_metadata task) EInternal;
  spec ← ok_or (rpc.t_spec task) EInternal;
  status ← ok_or (rpc.t_status task) EInternal;
  events ← events_try_from (rpc.tst_events status);
  Ok (mkTask (rpc.md_id metadata) (rpc.tsp_session_id spec)
        (match task_state_try_from (rpc.tst_state status) with Ok s => s | _ => TaskPending end)
        (rpc.tsp_input spec) (rpc.tsp_output spec) (list_to_set (rpc.tsp_affinity spec)) events).
End conversions.

(** [O::from_task_output] of the type a client asks for. *)
Class Outputs (O : Type) := { from_task_output : option string -> result (option O) }.

Record TaskResult (O : Type) := mkTaskResult {
  tr_task_id : string;
  tr_session_id : string;
  tr_state : TaskState;
  tr_output : option O;
  tr_error_code : option Z;
  tr_error_message : option string
}.
Arguments mkTaskResult {O}.
Arguments tr_task_id {O}.
Arguments tr_state {O}.
Arguments tr_output {O}.

Definition task_error_code (t : Task) : option Z := ev_code <$> list.last (t_events t).

Definition task_error_message (t : Task) : option string :=
  let message := String.concat "; " (omap ev_message (t_events t)) in
  if String.eqb message EmptyString then None else Some message.

Definition from_task {O} `{Outputs O} (t : Task) : result (TaskResult O) :=
  let '(error_code, error_message) :=
    if is_succeed t then (None, None) else (task_error_code t, task_error_message t) in
  output ← (if is_succeed t then from_task_output (t_output t) else Ok None);
  Ok (mkTaskResult (t_id t) (t_ssn_id t) (t_state t) output error_code error_message).

(** [TaskHandle::from]: only the output of a task that succeeded is one. *)
Definition handle_result {O} (r : result (TaskResult O)) : result (option O) :=
  result ← r;
  match tr_state result with TaskSucceed => Ok (tr_output result) | _ => Err EInternal end.
End sdk.

(** ** Events on the wire *)

Section events.
Context `{Chrono}.

(** An event as the client reads it. *)
Definition event_on_wire (e : Event) : Event :=
  mkEvent (ev_code e) (ev_message e)
    (default 0 (from_timestamp_millis (timestamp_millis (ev_creation_time e)))).

Lemma events_roundtrip l : sdk.events_try_from (event_to <$> l) = Ok (event_on_wire <$> l).
Proof.
  induction l as [|e l IH]; [done|]. rewrite !fmap_cons. simpl. rewrite IH. unfold sdk.event_try_from, event_on_wire.
  simpl. destruct (from_timestamp_millis_total (ev_creation_time e)) as [t Ht]. by rewrite Ht.
Qed.

End events.

(** ** The manager of a session's watch *)

Abbreviation update := (option (sdk.Task + FlameError)).

(** The task that reads the stream: its requests that the server has not taken,
    and whether it reads, has the error it ends with, or is gone. *)
Inductive stream_status := Running | Finishing (e : FlameError) | Gone.
Record StreamTask := mkStreamTask { sk_requests : list string; sk_status : stream_status }.

Record WatchState := mkWatchState { ws_stream : option nat; ws_task_watcher : gmap string nat }.

Record Manager (C : Type) := mkManager {
  mg_state : WatchState;
  mg_streams : gmap nat StreamTask;
  mg_channels : gmap nat C;
  mg_next : nat
}.
Arguments mkManager {C}.
Arguments mg_state {C}.
Arguments mg_streams {C}.
Arguments mg_channels {C}.
Arguments mg_next {C}.

Section manager.
Context `{Env} `{Chrono} {C : Type} `{WatchChan update C}.
Abbreviation Mg := (Manager C).

Definition new_manager : Mg := mkManager (mkWatchState None ∅) ∅ ∅ 0.

Definition with_state (s : WatchState) (m : Mg) : Mg :=
  mkManager s (mg_streams m) (mg_channels m) (mg_next m).
Definition with_streams x (m : Mg) : Mg := mkManager (mg_state m) x (mg_channels m) (mg_next m).
Definition with_chans x (m : Mg) : Mg := mkManager (mg_state m) (mg_streams m) x (mg_next m).

(** [register] under the lock: the receiver of the task's channel, ... *)
Definition register_waiter (id : string) (m : Mg) : option (nat * nat * Mg) :=
  match ws_task_watcher (mg_state m) !! id with
  | Some ch =>
      c ← mg_channels m !! ch;
      let '(r, c) := wc_subscribe c in
      Some (ch, r, with_chans (<[ch := c]> (mg_channels m)) m)
  | None =>
      let ch := mg_next m in
      let '(r, c) := wc_channel None in
      Some (ch, r, mkManager
        (mkWatchState (ws_stream (mg_state m)) (<[id := ch]> (ws_task_watcher (mg_state m))))
        (mg_streams m) (<[ch := c]> (mg_channels m)) (S ch))
  end.

(** ... and the stream, which is started if there is none. *)
Definition register_stream (m : Mg) : nat * Mg :=
  match ws_stream (mg_state m) with
  | Some sid => (sid, m)
  | None =>
      let sid := mg_next m in
      (sid, mkManager (mkWatchState (Some sid) (ws_task_watcher (mg_state m)))
              (<[sid := mkStreamTask [] Running]> (mg_streams m)) (mg_channels m) (S sid))
  end.

(** [requests.send(..)]: whether it succeeds depends on the stream. *)
Definition request (sid : nat) (id : string) (m : Mg) : Mg :=
  with_streams (alter (fun k => mkStreamTask (sk_requests k ++ [id]) (sk_status k)) sid (mg_streams m)) m.

(** [waiter.send_replace(..)] of a sender that is dropped next. *)
Definition answer (u : update) (c : C) : C := wc_drop_sender (wc_send_replace u c).

Definition drain (u : update) (m : Mg) : Mg :=
  mkManager (mkWatchState None ∅) (mg_streams m)
    (foldl (fun h ch => alter (answer u) ch h) (mg_channels m) (hm_values (ws_task_watcher (mg_state m))))
    (mg_next m).

Definition finish (error : FlameError) (m : Mg) : Mg := drain (Some (inr error)) m.

Definition deliver (t : sdk.Task) (m : Mg) : Mg :=
  match ws_task_watcher (mg_state m) !! sdk.t_id t with
  | Some ch =>
      if sdk.is_completed t then
        mkManager (mkWatchState (ws_stream (mg_state m)) (delete (sdk.t_id t) (ws_task_watcher (mg_state m))))
          (mg_streams m) (alter (answer (Some (inl t))) ch (mg_channels m)) (mg_next m)
      else with_chans (alter (wc_send_replace (Some (inl t))) ch (mg_channels m)) m
  | None => m
  end.

Definition set_status (s : stream_status) (k : StreamTask) : StreamTask := mkStreamTask (sk_requests k) s.

(** [abort] of the stream's task, which takes effect unless the task is past
    the point where it can be aborted. *)
Definition close (late : bool) (m : Mg) : Mg :=
  let m := match ws_stream (mg_state m) with
           | Some sid => if late then m else with_streams (alter (set_status Gone) sid (mg_streams m)) m
           | None => m
           end in
  drain (Some (inr ENetwork)) m.

(** One item of the stream in [watch_task_stream]. *)
Definition stream_item (sid : nat) (item : rpc.Task + FlameError) (m : Mg) : Mg :=
  match item with
  | inl u =>
      match sdk.task_try_from u with
      | Ok t => deliver t m
      | Err e => with_streams (alter (set_status (Finishing e)) sid (mg_streams m)) m
      | Panic => m
      end
  | inr e => with_streams (alter (set_status (Finishing e)) sid (mg_streams m)) m
  end.

(** [next_watch_update]; [None] is a receiver that must wait. *)
Definition next_watch_update (ch r : nat) (m : Mg) : option (update * Mg) :=
  c ← mg_channels m !! ch;
  match wc_next r c with
  | (NotYet, _) => None
  | (SenderGone, c) => Some (None, with_chans (<[ch := c]> (mg_channels m)) m)
  | (Next u, c) => Some (u, with_chans (<[ch := c]> (mg_channels m)) m)
  end.

Definition drop_receiver (ch r : nat) (m : Mg) : Mg :=
  with_chans (alter (wc_drop r) ch (mg_channels m)) m.
End manager.

(** ** Waiters *)

Inductive informer_call := OnUpdate (t : sdk.Task) | OnError (e : FlameError).

Section waiters.
Context {O : Type} `{sdk.Outputs O}.

(** The body of the loop in [run_with_options], the result of a task; [None]
    goes on. *)
Definition run_next (u : update) : option (result (sdk.TaskResult O)) :=
  match u with
  | None => Some (Err ENetwork)
  | Some (inl t) => if sdk.is_completed t then Some (sdk.from_task t) else None
  | Some (inr e) => Some (Err e)
  end.

(** The body of the loop in [run_task]: what the informer is told, and how the
    call ends. *)
Definition run_task_next (u : update) : list informer_call * option (result unit) :=
  match u with
  | None => ([OnError ENetwork], Some (Err ENetwork))
  | Some (inl t) => ([OnUpdate t], if sdk.is_completed t then Some (Ok tt) else None)
  | Some (inr e) => ([OnError e], Some (Err e))
  end.

(** [watch_task] tells its informer the same. *)
Definition watch_task_next (u : update) : list informer_call * option (result unit) :=
  match u with
  | Some (inl t) => ([OnUpdate t], then_some (sdk.is_completed t) (Ok tt))
  | Some (inr e) => ([OnError e], Some (Err e))
  | None => ([OnError ENetwork], Some (Err ENetwork))
  end.

Inductive wait_kind := RunFuture | RunTask | WatchTask.

Inductive returned :=
  | RResult (r : result (sdk.TaskResult O))
  | RUnit (r : result unit).

Definition wait_next (k : wait_kind) (u : update) : list informer_call * option returned :=
  match k with
  | RunFuture => ([], RResult <$> run_next u)
  | RunTask => prod_map id (fmap RUnit) (run_task_next u)
  | WatchTask => prod_map id (fmap RUnit) (watch_task_next u)
  end.

(** A registration that fails is told to the informer, if there is one. *)
Definition register_failed (k : wait_kind) : list informer_call * returned :=
  match k with
  | RunFuture => ([], RResult (Err ENetwork))
  | RunTask | WatchTask => ([OnError ENetwork], RUnit (Err ENetwork))
  end.

(** Where a waiter stands: before the lock of [register], before the request is
    sent, in the loop, or at its end. *)
Inductive wait_pc :=
  | Registers
  | Requests (sid ch r : nat)
  | Awaits (ch r : nat)
  | Returned (x : returned).

Record Waiter := mkWaiter {
  wa_kind : wait_kind;
  wa_task : string;
  wa_pc : wait_pc;
  wa_calls : list informer_call
}.

Definition wa_step (p : wait_pc) (calls : list informer_call) (w : Waiter) : Waiter :=
  mkWaiter (wa_kind w) (wa_task w) p (wa_calls w ++ calls).
End waiters.
Arguments returned : clear implicits.
Arguments wait_pc : clear implicits.
Arguments Waiter : clear implicits.

(** ** The client *)

(** [cl_log] are the tasks the streams delivered, to state what waiters were
    told. *)
Record Client (O C : Type) := mkClient {
  cl_manager : Manager C;
  cl_waiters : gmap nat (Waiter O);
  cl_log : list sdk.Task
}.
Arguments mkClient {O C}.
Arguments cl_manager {O C}.
Arguments cl_waiters {O C}.
Arguments cl_log {O C}.

Inductive client_event :=
  | Calls (i : nat) (k : wait_kind) (id : string)
  | Register (i : nat)
  | SendRequest (i : nat) (sent : bool)
  | Poll (i : nat)
  | Leave (i : nat)
  | Taken (sid : nat)
  | Item (sid : nat) (item : rpc.Task + FlameError)
  | Finish (sid : nat)
  | CloseSession (late : bool).

Section client.
Context `{Env} `{Chrono} {O C : Type} `{sdk.Outputs O} `{WatchChan update C}.
Abbreviation Cl := (Client O C).

Definition new_client : Cl := mkClient new_manager ∅ [].

Definition status_of (sid : nat) (c : Cl) : stream_status :=
  match mg_streams (cl_manager c) !! sid with Some k => sk_status k | None => Gone end.

Definition put_waiter (i : nat) (w : Waiter O) (m : Manager C) (c : Cl) : Cl :=
  mkClient m (<[i := w]> (cl_waiters c)) (cl_log c).

Definition requests_of (sid : nat) (c : Cl) : list string :=
  match mg_streams (cl_manager c) !! sid with Some k => sk_requests k | None => [] end.

(** What one item adds to the log. *)
Definition logged (item : rpc.Task + FlameError) : list sdk.Task :=
  match item with inl u => match sdk.task_try_from u with Ok t => [t] | _ => [] end | _ => [] end.

Definition waiter_step (ev : client_event) (w : Waiter O) (m : Manager C) : option (Waiter O * Manager C) :=
  match ev, wa_pc w with
  | Register _, Registers =>
      '(ch, r, m) ← register_waiter (wa_task w) m;
      let '(sid, m) := register_stream m in
      Some (wa_step (Requests sid ch r) [] w, m)
  | SendRequest _ true, Requests sid ch r =>
      Some (wa_step (Awaits ch r) [] w, request sid (wa_task w) m)
  | SendRequest _ false, Requests sid ch r =>
      let '(calls, x) := register_failed (wa_kind w) in
      Some (wa_step (Returned x) calls w, drop_receiver ch r m)
  | Poll _, Awaits ch r =>
      '(u, m) ← next_watch_update ch r m;
      Some (match wait_next (wa_kind w) u with
            | (calls, None) => (wa_step (Awaits ch r) calls w, m)
            | (calls, Some x) => (wa_step (Returned x) calls w, drop_receiver ch r m)
            end)
  | _, _ => None
  end.

Definition client_apply (ev : client_event) (c : Cl) : option Cl :=
  match ev with
  | Calls i k id =>
      match cl_waiters c !! i with
      | Some _ => None
      | None => Some (put_waiter i (mkWaiter k id Registers []) (cl_manager c) c)
      end
  | Register i | SendRequest i _ | Poll i =>
      w ← cl_waiters c !! i;
      '(w, m) ← waiter_step ev w (cl_manager c);
      Some (put_waiter i w m c)
  | Leave i =>
      w ← cl_waiters c !! i;
      let m := match wa_pc w with
               | Requests _ ch r | Awaits ch r => drop_receiver ch r (cl_manager c)
               | _ => cl_manager c
               end in
      Some (mkClient m (delete i (cl_waiters c)) (cl_log c))
  | Taken sid =>
      match requests_of sid c with
      | _ :: q =>
          Some (mkClient (with_streams (alter (fun k => mkStreamTask q (sk_status k)) sid (mg_streams (cl_manager c)))
                  (cl_manager c)) (cl_waiters c) (cl_log c))
      | [] => None
      end
  | Item sid item =>
      match status_of sid c with
      | Running => Some (mkClient (stream_item sid item (cl_manager c)) (cl_waiters c) (cl_log c ++ logged item))
      | _ => None
      end
  | Finish sid =>
      match status_of sid c with
      | Finishing e =>
          Some (mkClient (finish e (with_streams (alter (set_status Gone) sid (mg_streams (cl_manager c)))
                  (cl_manager c))) (cl_waiters c) (cl_log c))
      | _ => None
      end
  | CloseSession late => Some (mkClient (close late (cl_manager c)) (cl_waiters c) (cl_log c))
  end.

Inductive client_reach : Cl -> Prop :=
  | cr_start : client_reach new_client
  | cr_step ev x y : client_reach x -> client_apply ev x = Some y -> client_reach y.
End client.

(** ** Lemmas *)

Lemma foldl_alter_lookup {A} (f : A -> A) (l : list nat) (h : gmap nat A) k : NoDup l ->
  foldl (fun h k => alter f k h) h l !! k = if decide (k ∈ l) then f <$> h !! k else h !! k.
Proof.
  revert h. induction l as [|x l IH]; intros h; simpl.
  { intros _. by destruct (decide (k ∈ [])) as [?%elem_of_nil|]. }
  intros [Hx Hl]%list.NoDup_cons. rewrite IH by done.
  destruct (decide (k ∈ l)) as [Hk|Hk], (decide (k ∈ x :: l)) as [Hk'|Hk']; try done.
  - rewrite lookup_alter_ne; [done|]. by intros ->.
  - destruct Hk'. by right.
  - apply elem_of_cons in Hk' as [->|]; [|done]. by rewrite lookup_alter_eq.
  - rewrite lookup_alter_ne; [done|]. intros ->. destruct Hk'. left.
Qed.

Lemma alter_as_insert {A} (f : A -> A) (h : gmap nat A) k x : h !! k = Some x -> alter f k h = <[k := f x]> h.
Proof.
  intros Hk. apply map_eq. intros j. destruct (decide (j = k)) as [->|].
  - by rewrite lookup_alter_eq, lookup_insert_eq, Hk.
  - by rewrite lookup_alter_ne, lookup_insert_ne.
Qed.

Lemma hm_values_inj_NoDup `{Env} {V} (m : gmap string V) :
  (forall k k' v, m !! k = Some v -> m !! k' = Some v -> k = k') -> NoDup (hm_values m).
Proof.
  intros Hinj. unfold hm_values. apply NoDup_fmap_2_strong.
  - intros [k v] [k' v'] Hk Hk' ?. simpl in *. subst v'. apply hm_iter_elem in Hk, Hk'.
    by rewrite (Hinj k k' v Hk Hk').
  - apply (NoDup_fmap_1 fst), hm_iter_NoDup.
Qed.

(** A value after which a waiter waits no longer. *)
Definition final (u : update) : Prop :=
  match u with Some (inl t) => sdk.is_completed t = true | Some (inr _) => True | None => False end.

(** A task that was delivered, for a waiter of it. *)
Definition told (log : list sdk.Task) (id : string) (u : update) : Prop :=
  match u with Some (inl t) => sdk.t_id t = id /\ t ∈ log | _ => True end.

Lemma told_mono log log' id u : told log id u -> told (log ++ log') id u.
Proof. destruct u as [[t|e]|]; simpl; try done. intros [? ?]. split; [done|]. apply elem_of_app. by left. Qed.

Section invariant.
Context `{Env} `{Chrono} {C : Type} `{WatchChanSpec update C}.
Abbreviation Mg := (Manager C).
Abbreviation watcher m := (ws_task_watcher (mg_state m)).

Record base_inv (log : list sdk.Task) (m : Mg) : Prop := {
  mi_alive : forall sid, ws_stream (mg_state m) = Some sid ->
    exists k, mg_streams m !! sid = Some k /\ sk_status k <> Gone;
  mi_chan : forall id ch, watcher m !! id = Some ch ->
    exists c, mg_channels m !! ch = Some c /\ sealed c = false /\ told log id (value c);
  mi_inj : forall id id' ch, watcher m !! id = Some ch -> watcher m !! id' = Some ch -> id = id';
  mi_chan_fresh : forall n, is_Some (mg_channels m !! n) -> (n < mg_next m)%nat;
  mi_stream_fresh : forall n, is_Some (mg_streams m !! n) -> (n < mg_next m)%nat
}.

(** Where there are waiters there is a stream. *)
Record manager_inv (log : list sdk.Task) (m : Mg) : Prop := {
  mi_base : base_inv log m;
  mi_stream : ws_stream (mg_state m) = None -> watcher m = ∅
}.

(** A receiver is of the open channel of its task, or has the last value before
    it. *)
Definition waits_ok (log : list sdk.Task) (m : Mg) (id : string) (ch r : nat) : Prop :=
  exists c, mg_channels m !! ch = Some c /\
    ((watcher m !! id = Some ch /\ exists b, unseen r c = Some b /\ (b = true -> value c <> None)) \/
     (sealed c = true /\ unseen r c = Some true /\ final (value c) /\ told log id (value c))).

Lemma manager_inv_mono log log' m : manager_inv log m -> manager_inv (log ++ log') m.
Proof.
  intros [[Ha Hc Hi Hf Hg] Hs]. split; [split; try done|done].
  intros id ch Hid. destruct (Hc id ch Hid) as (c & ? & ? & ?). exists c. eauto using told_mono.
Qed.

Lemma waits_ok_mono log log' m id ch r : waits_ok log m id ch r -> waits_ok (log ++ log') m id ch r.
Proof.
  intros (c & Hc & [Ho|(Hs & Hu & Hf & Ht)]); exists c; (split; [done|]); [by left|right].
  eauto using told_mono.
Qed.

(** The parts of the state the waiters do not depend on. *)
Lemma waits_ok_same log m m' id ch r : mg_channels m' = mg_channels m -> watcher m' = watcher m ->
  waits_ok log m id ch r -> waits_ok log m' id ch r.
Proof. unfold waits_ok. by intros -> ->. Qed.

Lemma new_manager_inv : manager_inv [] new_manager.
Proof. repeat split; simpl; try done; intros *; rewrite ?lookup_empty; try done; by intros [? ?]. Qed.

(** What registering promises: the new receiver waits, and those that waited
    still do and are others. *)
Definition joins (log : list sdk.Task) (id : string) (ch r : nat) (m m' : Mg) : Prop :=
  base_inv log m' /\ waits_ok log m' id ch r /\ mg_streams m' = mg_streams m /\
  ws_stream (mg_state m') = ws_stream (mg_state m) /\
  (forall id0 ch0, watcher m' !! id0 = Some ch0 -> is_Some (mg_channels m !! ch0) -> watcher m !! id0 = Some ch0) /\
  forall id0 ch0 r0, waits_ok log m id0 ch0 r0 -> waits_ok log m' id0 ch0 r0 /\ (ch0, r0) <> (ch, r).

Lemma subscribe_joins log m id ch c r c' :
  base_inv log m -> watcher m !! id = Some ch -> mg_channels m !! ch = Some c -> wc_subscribe c = (r, c') ->
  joins log id ch r m (with_chans (<[ch := c']> (mg_channels m)) m).
Proof.
  intros [Ha Hc Hi Hf Hg] Hid Hch Hsub. destruct (wsubscribe_view c r c' Hsub) as (Hn & Hv & Hs & Hu).
  unfold joins. simpl. split_and!; [split; simpl; try done| |done..|].
  - intros id' ch'. destruct (decide (ch' = ch)) as [->|Hne]; [|by rewrite lookup_insert_ne; auto].
    intros Hid'. rewrite lookup_insert_eq. exists c'. rewrite Hv, Hs.
    rewrite (Hi _ _ _ Hid' Hid). destruct (Hc id ch Hid) as (? & ? & ?). by simplify_eq.
  - intros n [x [[<- _]|[_ Hx]]%lookup_insert_Some]; eauto.
  - exists c'. simpl. rewrite lookup_insert_eq. split; [done|]. left. split; [done|].
    exists false. by rewrite Hu, decide_True.
  - intros id0 ch0 r0 (c0 & Hch0 & Hok). destruct (decide (ch0 = ch)) as [->|Hne].
    + rewrite Hch in Hch0. injection Hch0 as <-.
      assert (r0 <> r) as Hr by (intros ->; destruct Hok as [(_ & b & Hb & _)|(_ & Hb & _)]; congruence).
      split; [|congruence]. exists c'. simpl. rewrite lookup_insert_eq. split; [done|].
      by rewrite Hu, decide_False, Hv, Hs.
    + split; [|congruence]. exists c0. simpl. by rewrite lookup_insert_ne.
Qed.

Lemma channel_joins log m id r c :
  base_inv log m -> watcher m !! id = None -> wc_channel None = (r, c) ->
  joins log id (mg_next m) r m
    (mkManager (mkWatchState (ws_stream (mg_state m)) (<[id := mg_next m]> (watcher m)))
       (mg_streams m) (<[mg_next m := c]> (mg_channels m)) (S (mg_next m))).
Proof.
  intros [Ha Hc Hi Hf Hg] Hid Hnew. destruct (wchannel_view _ _ _ Hnew) as (Hv & Hs & Hu).
  assert (mg_channels m !! mg_next m = None) as Hfresh.
  { destruct (mg_channels m !! mg_next m) eqn:Hl; [|done]. specialize (Hf (mg_next m) ltac:(by eexists)). lia. }
  assert (Hne : forall id' ch', watcher m !! id' = Some ch' -> ch' <> mg_next m).
  { intros id' ch' Hw ->. destruct (Hc _ _ Hw) as (? & ? & _). congruence. }
  unfold joins. simpl. split_and!; [split; simpl; try done| |done|done| |].
  - intros id' ch' [[<- <-]|[_ Hid']]%lookup_insert_Some.
    + rewrite lookup_insert_eq. exists c. by rewrite Hv.
    + rewrite lookup_insert_ne by (by apply not_eq_sym, (Hne id')). by apply Hc.
  - intros id1 id2 ch0. rewrite !lookup_insert_Some.
    intros [[<- <-]|[? H1']] [[<- H2']|[? H2']]; try done; [| |by eapply Hi]; subst; exfalso; by eapply Hne.
  - intros n [x [[<- _]|[_ Hx]]%lookup_insert_Some]; [lia|]. specialize (Hf n ltac:(by eexists)). lia.
  - intros n Hn%Hg. lia.
  - exists c. simpl. rewrite !lookup_insert_eq. split; [done|]. left. split; [done|].
    exists false. by rewrite Hu, decide_True.
  - intros id0 ch0 [[<- <-]|[_ ?]]%lookup_insert_Some; [|done]. rewrite Hfresh. by intros [? ?].
  - intros id0 ch0 r0 (c0 & Hch0 & Hok). assert (ch0 <> mg_next m) by congruence.
    split; [|congruence]. exists c0. simpl. rewrite lookup_insert_ne by done. split; [done|].
    destruct Hok as [[Hw Hb]|?]; [left|by right]. split; [|done].
    rewrite lookup_insert_ne; [done|]. intros <-. congruence.
Qed.

Lemma register_waiter_ok log m id ch r m' :
  base_inv log m -> register_waiter id m = Some (ch, r, m') -> joins log id ch r m m'.
Proof.
  intros Hb. unfold register_waiter. destruct (watcher m !! id) as [ch1|] eqn:Hid.
  - destruct (mi_chan _ _ Hb id ch1 Hid) as (c & Hch & _). rewrite Hch. simpl.
    destruct (wc_subscribe c) as [r1 c1] eqn:Hsub. intros [= <- <- <-]. by eapply subscribe_joins.
  - destruct (wc_channel None) as [r1 c1] eqn:Hnew. intros [= <- <- <-]. by apply channel_joins.
Qed.

Lemma register_stream_ok log m sid m' : base_inv log m -> register_stream m = (sid, m') ->
  manager_inv log m' /\ ws_stream (mg_state m') = Some sid /\
  mg_channels m' = mg_channels m /\ watcher m' = watcher m.
Proof.
  intros Hb. unfold register_stream. destruct (ws_stream (mg_state m)) as [sid0|] eqn:Hst.
  - intros [= <- <-]. split_and!; [|done..]. split; [done|]. congruence.
  - intros [= <- <-]. simpl. split_and!; [|done..]. destruct Hb as [Ha Hc Hi Hf Hg].
    split; [split; simpl; try done|done].
    + intros ? [= <-]. rewrite lookup_insert_eq. by eexists.
    + intros n Hn%Hf. lia.
    + intros n [x [[<- _]|[_ Hx]]%lookup_insert_Some]; [lia|]. specialize (Hg n ltac:(by eexists)). lia.
Qed.

(** Changes of a stream's task that leave a current one alive. *)
Lemma alter_stream_ok log m f sid :
  manager_inv log m ->
  (ws_stream (mg_state m) = Some sid -> forall k, sk_status k <> Gone -> sk_status (f k) <> Gone) ->
  manager_inv log (with_streams (alter f sid (mg_streams m)) m).
Proof.
  intros [[Ha Hc Hi Hf Hg] Hs] Hok. split; [split; simpl; try done|done].
  - intros sid' Hst. destruct (Ha sid' Hst) as (k & Hk & Hne). destruct (decide (sid' = sid)) as [->|Hns].
    + exists (f k). rewrite lookup_alter_eq, Hk. eauto.
    + exists k. by rewrite lookup_alter_ne.
  - intros n Hn%lookup_alter_is_Some. by apply Hg.
Qed.
Lemma answer_view u (c : C) :
  value (answer u c) = u /\ sealed (answer u c) = true /\
  forall r, unseen r (answer u c) = (fun _ => true) <$> unseen r c.
Proof.
  unfold answer. destruct (wdrop_sender_view (wc_send_replace u c)) as (Hv & Hs & Hu).
  destruct (wsend_view u c) as (Hv' & Hs' & Hu'). rewrite Hv, Hs. split_and!; [done..|].
  intros r. by rewrite Hu, Hu'.
Qed.

(** Draining answers every waiter. *)
Lemma drain_ok log e m S : base_inv log m -> (forall n, is_Some (S !! n) -> is_Some (mg_streams m !! n)) ->
  let m' := drain (Some (inr e)) (with_streams S m) in
  manager_inv log m' /\ forall id ch r, waits_ok log m id ch r -> waits_ok log m' id ch r.
Proof.
  intros [Ha Hc Hi Hf Hg] HS. pose proof (hm_values_inj_NoDup (watcher m) Hi) as Hnd. simpl.
  split.
  - repeat split; simpl; try done; [|by auto]. intros n. rewrite foldl_alter_lookup by done.
    case_decide; [|by apply Hf]. intros [x Hx]. apply Hf. by destruct (mg_channels m !! n).
  - intros id ch r (c & Hch & Hok). unfold waits_ok. simpl. rewrite foldl_alter_lookup, Hch by done.
    case_decide as Hin; simpl.
    + eexists. split; [done|]. right. destruct (answer_view (Some (inr e)) c) as (Hv & Hs & Hu).
      rewrite Hv, Hs, Hu. split_and!; try done. destruct Hok as [(_ & b & Hb & _)|(_ & Hb & _)]; by rewrite Hb.
    + exists c. split; [done|]. right. destruct Hok as [[Hw _]|Hok]; [|done].
      destruct Hin. apply hm_values_elem. by exists id.
Qed.

Lemma channel_of_other log m id ch c id' : base_inv log m -> watcher m !! id = Some ch ->
  mg_channels m !! ch = Some c -> sealed c = true \/ (watcher m !! id' = Some ch /\ id' <> id) -> False.
Proof.
  intros [Ha Hc Hi Hf Hg] Hid Hch Hor. destruct (Hc _ _ Hid) as (c0 & Hc0 & Hs & _).
  destruct Hor as [?|[Hid' Hne]]; [congruence|]. by destruct Hne; eapply Hi.
Qed.

Lemma deliver_update_ok log t m ch : manager_inv log m -> t ∈ log -> watcher m !! sdk.t_id t = Some ch ->
  let m' := with_chans (alter (wc_send_replace (Some (inl t))) ch (mg_channels m)) m in
  manager_inv log m' /\ forall id ch0 r, waits_ok log m id ch0 r -> waits_ok log m' id ch0 r.
Proof.
  intros [Hb Hst] Ht Hch. pose proof Hb as [Ha Hc Hi Hf Hg]. simpl. split.
  - split; [split; simpl; try done|done].
    + intros id' ch' Hid'. destruct (Hc _ _ Hid') as (c & Hcc & Hs & Htold).
      destruct (wsend_view (Some (inl t)) c) as (Hv & Hs' & _).
      destruct (decide (ch' = ch)) as [->|Hne].
      * rewrite lookup_alter_eq, Hcc. eexists. split; [done|]. rewrite Hv, Hs'.
        by rewrite (Hi _ _ _ Hid' Hch).
      * rewrite lookup_alter_ne by done. eauto.
    + intros n Hn%lookup_alter_is_Some. by apply Hf.
  - intros id ch0 r (c & Hcc & Hok). unfold waits_ok. simpl. destruct (decide (ch0 = ch)) as [->|Hne].
    + rewrite lookup_alter_eq, Hcc. eexists. split; [done|]. left.
      destruct (wsend_view (Some (inl t)) c) as (Hv & _ & Hu). rewrite Hv, Hu.
      destruct Hok as [(Hw & b & Hb' & _)|(Hs & _)]; [|by destruct (channel_of_other log m (sdk.t_id t) ch c id); auto].
      split; [done|]. rewrite Hb'. by exists true.
    + rewrite lookup_alter_ne by done. eauto.
Qed.

Lemma deliver_final_ok log t m ch : manager_inv log m -> t ∈ log -> sdk.is_completed t = true ->
  watcher m !! sdk.t_id t = Some ch ->
  let m' := mkManager (mkWatchState (ws_stream (mg_state m)) (delete (sdk.t_id t) (watcher m)))
              (mg_streams m) (alter (answer (Some (inl t))) ch (mg_channels m)) (mg_next m) in
  manager_inv log m' /\ forall id ch0 r, waits_ok log m id ch0 r -> waits_ok log m' id ch0 r.
Proof.
  intros [Hb Hst] Ht Hcomp Hch. pose proof Hb as [Ha Hc Hi Hf Hg]. simpl. split.
  - split; [split; simpl; try done|simpl; intros Hn; by rewrite (Hst Hn), delete_empty].
    + intros id' ch' [Hne Hid']%lookup_delete_Some. rewrite lookup_alter_ne; [by apply Hc|].
      intros ->. destruct Hne. by eapply Hi.
    + intros id1 id2 ch0 [_ ?]%lookup_delete_Some [_ ?]%lookup_delete_Some. by eapply Hi.
    + intros n Hn%lookup_alter_is_Some. by apply Hf.
  - intros id ch0 r (c & Hcc & Hok). unfold waits_ok. simpl. destruct (decide (ch0 = ch)) as [->|Hne].
    + rewrite lookup_alter_eq, Hcc. eexists. split; [done|]. right.
      destruct (answer_view (Some (inl t)) c) as (Hv & Hs & Hu). rewrite Hv, Hs, Hu.
      destruct Hok as [(Hw & b & Hb' & _)|(Hs' & _)]; [|by destruct (channel_of_other log m (sdk.t_id t) ch c id); auto].
      rewrite Hb', (Hi _ _ _ Hw Hch). done.
    + rewrite lookup_alter_ne by done. exists c. split; [done|].
      destruct Hok as [[Hw Hb']|?]; [left|by right]. split; [|done]. rewrite lookup_delete_ne; [done|].
      intros <-. congruence.
Qed.

Lemma deliver_ok log t m : manager_inv log m -> t ∈ log ->
  manager_inv log (deliver t m) /\ forall id ch r, waits_ok log m id ch r -> waits_ok log (deliver t m) id ch r.
Proof.
  intros Hm Ht. unfold deliver. destruct (watcher m !! sdk.t_id t) as [ch|] eqn:Hch; [|done].
  destruct (sdk.is_completed t) eqn:Hc; [by apply deliver_final_ok|by apply deliver_update_ok].
Qed.

(** A receiver's own steps do not concern the others. *)
Lemma own_channel_ok log m ch c c' r : manager_inv log m -> mg_channels m !! ch = Some c ->
  value c' = value c -> sealed c' = sealed c ->
  (forall r', r' <> r -> unseen r' c' = unseen r' c) ->
  let m' := with_chans (<[ch := c']> (mg_channels m)) m in
  manager_inv log m' /\
  forall id ch0 r0, waits_ok log m id ch0 r0 -> (ch0, r0) <> (ch, r) -> waits_ok log m' id ch0 r0.
Proof.
  intros [[Ha Hc Hi Hf Hg] Hst] Hch Hv Hs Hu. simpl. split.
  - split; [split; simpl; try done|done].
    + intros id' ch' Hid'. destruct (decide (ch' = ch)) as [->|Hne]; [|rewrite lookup_insert_ne by done; by apply Hc].
      rewrite lookup_insert_eq. destruct (Hc _ _ Hid') as (? & ? & ? & ?). simplify_eq. exists c'.
      by rewrite Hv, Hs.
    + intros n [x [[<- _]|[_ Hx]]%lookup_insert_Some]; eauto.
  - intros id ch0 r0 (c0 & Hc0 & Hok) Hne. unfold waits_ok. simpl. destruct (decide (ch0 = ch)) as [->|Hn].
    + rewrite lookup_insert_eq. exists c'. split; [done|]. simplify_eq.
      rewrite Hv, Hs, Hu by congruence. done.
    + rewrite lookup_insert_ne by done. eauto.
Qed.

Lemma drop_receiver_ok log m ch r : manager_inv log m -> is_Some (mg_channels m !! ch) ->
  manager_inv log (drop_receiver ch r m) /\
  forall id ch0 r0, waits_ok log m id ch0 r0 -> (ch0, r0) <> (ch, r) -> waits_ok log (drop_receiver ch r m) id ch0 r0.
Proof.
  intros Hm [c Hch]. unfold drop_receiver. destruct (wdrop_view r c) as (Hv & Hs & Hu).
  rewrite (alter_as_insert _ _ _ c) by done. apply (own_channel_ok log m ch c); try done.
  intros r' Hr. by rewrite Hu, decide_False.
Qed.

(** What a waiter reads is the end of its task, or it goes on waiting. *)
Lemma next_watch_update_ok log m id ch r u m' :
  manager_inv log m -> waits_ok log m id ch r -> next_watch_update ch r m = Some (u, m') ->
  manager_inv log m' /\ u <> None /\ told log id u /\ (final u \/ waits_ok log m' id ch r) /\
  is_Some (mg_channels m' !! ch) /\
  forall id0 ch0 r0, waits_ok log m id0 ch0 r0 -> (ch0, r0) <> (ch, r) -> waits_ok log m' id0 ch0 r0.
Proof.
  intros Hm (c & Hch & Hok) Hnext. unfold next_watch_update in Hnext. rewrite Hch in Hnext. simpl in Hnext.
  assert (exists b, unseen r c = Some b /\ (b = false -> sealed c = false)) as (b & Hb & Hbs).
  { destruct Hok as [(Hw & b & Hb & _)|(_ & Hb & _)]; [|by exists true]. exists b. split; [done|].
    destruct (mi_chan _ _ (mi_base _ _ Hm) _ _ Hw) as (? & ? & ? & _). by simplify_eq. }
  pose proof (wnext_view r c b Hb) as Hv. destruct (wc_next r c) as [x c']. destruct Hv as (-> & Hv & Hs & Hu).
  destruct b; [|by rewrite (Hbs eq_refl) in Hnext]. injection Hnext as <- <-.
  destruct (own_channel_ok log m ch c c' r Hm Hch Hv Hs) as [Hm' Hrest]; [by intros r' Hr; rewrite Hu, decide_False|].
  split_and!; [done| | | |simpl; rewrite lookup_insert_eq; by eexists|done].
  - destruct Hok as [(_ & b & Hb' & Hne)|(_ & _ & Hf & _)]; [|by intros Hn; rewrite Hn in Hf]. simplify_eq. auto.
  - destruct Hok as [(Hw & _)|(_ & _ & _ & Ht)]; [|done].
    destruct (mi_chan _ _ (mi_base _ _ Hm) _ _ Hw) as (? & ? & ? & ?). by simplify_eq.
  - destruct Hok as [(Hw & _)|(_ & _ & Hf & _)]; [right|by left]. exists c'. simpl. rewrite lookup_insert_eq.
    split; [done|]. left. split; [done|]. exists false. by rewrite Hu, decide_True.
Qed.
End invariant.

(** ** Reachable clients *)

Section reach.
Context `{Env} `{Chrono} {O C : Type} `{sdk.Outputs O} `{WatchChanSpec update C}.
Abbreviation Mg := (Manager C).
Abbreviation Cl := (Client O C).
Abbreviation watcher m := (ws_task_watcher (mg_state m)).

Definition handle (w : Waiter O) : option (nat * nat) :=
  match wa_pc w with Requests _ ch r | Awaits ch r => Some (ch, r) | _ => None end.

(** How a waiter ended: with the end of its task, with an error of the stream or
    the session, or because its request could not be sent. *)
Definition ended (log : list sdk.Task) (w : Waiter O) (x : returned O) : Prop :=
  (exists u, final u /\ told log (wa_task w) u /\ (wait_next (wa_kind w) u).2 = Some x) \/
  x = (register_failed (wa_kind w)).2.

Record waiter_ok (log : list sdk.Task) (m : Mg) (w : Waiter O) : Prop := {
  wo_waits : forall ch r, handle w = Some (ch, r) -> waits_ok log m (wa_task w) ch r;
  wo_request : forall sid ch r, wa_pc w = Requests sid ch r -> watcher m !! wa_task w = Some ch ->
    ws_stream (mg_state m) = Some sid;
  wo_ended : forall x, wa_pc w = Returned x -> ended log w x;
  wo_calls : forall t, OnUpdate t ∈ wa_calls w -> sdk.t_id t = wa_task w /\ t ∈ log
}.

Record client_inv (c : Cl) : Prop := {
  ci_manager : manager_inv (cl_log c) (cl_manager c);
  ci_waiters : forall i w, cl_waiters c !! i = Some w -> waiter_ok (cl_log c) (cl_manager c) w;
  ci_handles : forall i j w w' h, cl_waiters c !! i = Some w -> cl_waiters c !! j = Some w' ->
    handle w = Some h -> handle w' = Some h -> i = j
}.

(** An open channel that was there before was open, for the same stream. *)
Definition same_stream (m m' : Mg) : Prop := forall id ch,
  watcher m' !! id = Some ch -> is_Some (mg_channels m !! ch) ->
  watcher m !! id = Some ch /\ ws_stream (mg_state m') = ws_stream (mg_state m).

Lemma waiter_ok_step log log' m m' w : waiter_ok log m w -> same_stream m m' ->
  (forall ch r, handle w = Some (ch, r) -> waits_ok (log ++ log') m' (wa_task w) ch r) ->
  waiter_ok (log ++ log') m' w.
Proof.
  intros [Hw Hr He Hc] Hss Hw'. split; [done| | |].
  - intros sid ch r Hpc Hopen. destruct (Hw ch r) as (c & Hch & _); [unfold handle; by rewrite Hpc|].
    destruct (Hss _ _ Hopen) as [Ho ->]; [by exists c|]. by eapply Hr.
  - intros x Hx. destruct (He x Hx) as [(u & ? & ? & ?)|?]; [left|by right]. exists u. eauto using told_mono.
  - intros t Ht. destruct (Hc t Ht). split; [done|]. apply elem_of_app. by left.
Qed.

(** Steps of the manager that concern all waiters alike. *)
Lemma client_inv_manager c m' log' :
  client_inv c -> manager_inv (cl_log c ++ log') m' -> same_stream (cl_manager c) m' ->
  (forall id ch r, waits_ok (cl_log c ++ log') (cl_manager c) id ch r -> waits_ok (cl_log c ++ log') m' id ch r) ->
  client_inv (mkClient m' (cl_waiters c) (cl_log c ++ log')).
Proof.
  intros [Hm Hw Hh] Hm' Hss Hstep. split; simpl; [done| |done].
  intros i w Hi. apply (waiter_ok_step _ _ _ _ _ (Hw i w Hi) Hss).
  intros ch r Hhd. apply Hstep, waits_ok_mono. by apply (Hw i w Hi).
Qed.

(** A step of one waiter. *)
Lemma client_inv_waiter c i w w' m' :
  client_inv c -> cl_waiters c !! i = Some w -> manager_inv (cl_log c) m' -> same_stream (cl_manager c) m' ->
  waiter_ok (cl_log c) m' w' ->
  (forall id ch r, waits_ok (cl_log c) (cl_manager c) id ch r -> handle w <> Some (ch, r) ->
     waits_ok (cl_log c) m' id ch r /\ handle w' <> Some (ch, r)) ->
  client_inv (put_waiter i w' m' c).
Proof.
  intros [Hm Hw Hh] Hi Hm' Hss Hw' Hstep.
  assert (Hother : forall j wj ch r, j <> i -> cl_waiters c !! j = Some wj -> handle wj = Some (ch, r) ->
    waits_ok (cl_log c) m' (wa_task wj) ch r /\ handle w' <> Some (ch, r)).
  { intros j wj ch r Hji Hj Hhd. apply Hstep; [by apply (Hw j wj Hj)|]. intros Hhw. destruct Hji. by eapply Hh. }
  split; simpl; [done| |].
  - intros j wj [[<- <-]|[Hne Hj]]%lookup_insert_Some; [done|].
    rewrite <- (app_nil_r (cl_log c)). apply (waiter_ok_step _ _ (cl_manager c)); [by eapply Hw|done|].
    intros ch r Hhd. rewrite app_nil_r. by apply (Hother j).
  - intros j1 j2 w1 w2 [ch r]. rewrite !lookup_insert_Some.
    intros [[<- <-]|[? H1']] [[<- <-]|[? H2']] Hh1 Hh2; try done; [| |by eapply Hh].
    + by destruct (Hother j2 w2 ch r).
    + by destruct (Hother j1 w1 ch r).
Qed.

Lemma same_stream_refl m m' : watcher m' = watcher m -> ws_stream (mg_state m') = ws_stream (mg_state m) ->
  same_stream m m'.
Proof. by intros Hw Hs id ch; rewrite Hw. Qed.

(** ** Every step keeps the invariant *)

(** What is new after a registration is the channel of the waiter. *)
Lemma register_same_stream log m id ch r m1 sid m2 : manager_inv log m ->
  register_waiter id m = Some (ch, r, m1) -> register_stream m1 = (sid, m2) -> same_stream m m2.
Proof.
  intros Hm Hreg Hrs. destruct (register_waiter_ok _ _ _ _ _ _ (mi_base _ _ Hm) Hreg) as (Hb & _ & _ & Hws & Hold & _).
  destruct (register_stream_ok _ _ _ _ Hb Hrs) as (_ & Hsid & _ & Hwt).
  intros id' ch0 Hopen Hin. rewrite Hwt in Hopen. specialize (Hold _ _ Hopen Hin). split; [done|].
  unfold register_stream in Hrs. rewrite Hws in Hrs.
  destruct (ws_stream (mg_state m)) eqn:Hcur; [injection Hrs as <- <-; congruence|].
  rewrite (mi_stream _ _ Hm Hcur) in Hold. by rewrite lookup_empty in Hold.
Qed.

Lemma register_inv c i w w' m' :
  client_inv c -> cl_waiters c !! i = Some w ->
  waiter_step (Register i) w (cl_manager c) = Some (w', m') -> client_inv (put_waiter i w' m' c).
Proof.
  intros Hc Hi. simpl. destruct (wa_pc w) eqn:Hpc; try done.
  destruct (register_waiter (wa_task w) (cl_manager c)) as [[[ch r] m1]|] eqn:Hreg; [|done]. simpl.
  destruct (register_stream m1) as [sid m2] eqn:Hrs. intros [= <- <-]. pose proof (ci_manager c Hc) as Hm.
  destruct (register_waiter_ok _ _ _ _ _ _ (mi_base _ _ Hm) Hreg) as (Hb & Hw & Hst & Hws & Hold & Hrest).
  destruct (register_stream_ok _ _ _ _ Hb Hrs) as (Hm2 & Hsid & Hch & Hwt).
  apply (client_inv_waiter c i w); try done.
  - by eapply register_same_stream.
  - destruct (ci_waiters c Hc i w Hi) as [_ _ _ Hcalls]. split; simpl; try done.
    + intros ch0 r0 [= <- <-]. by apply (waits_ok_same _ m1).
    + intros ? ? ? [= <- <- <-] _. done.
    + intros t. rewrite app_nil_r. apply Hcalls.
  - intros id ch0 r0 Hok _. destruct (Hrest id ch0 r0 Hok) as [Hok' Hne].
    split; [by apply (waits_ok_same _ m1)|]. unfold handle. simpl. congruence.
Qed.

Lemma send_request_inv c i sent w w' m' :
  client_inv c -> cl_waiters c !! i = Some w ->
  waiter_step (SendRequest i sent) w (cl_manager c) = Some (w', m') -> client_inv (put_waiter i w' m' c).
Proof.
  intros Hc Hi. simpl. destruct (wa_pc w) as [|sid ch r| |] eqn:Hpc; try (by destruct sent).
  pose proof (ci_manager c Hc) as Hm. destruct (ci_waiters c Hc i w Hi) as [Hwaits _ _ Hcalls].
  assert (Hhd : handle w = Some (ch, r)) by (unfold handle; by rewrite Hpc). specialize (Hwaits ch r Hhd).
  destruct sent.
  - intros [= <- <-]. apply (client_inv_waiter c i w); try done.
    + by apply alter_stream_ok.
    + split; simpl; try done.
      * intros ch0 r0 [= <- <-]. by apply (waits_ok_same _ (cl_manager c)).
      * intros t. rewrite app_nil_r. apply Hcalls.
    + intros id ch0 r0 Hok Hne. split; [by apply (waits_ok_same _ (cl_manager c))|]. unfold handle. simpl. congruence.
  - destruct (register_failed (wa_kind w)) as [calls x] eqn:Hf. intros [= <- <-].
    assert (is_Some (mg_channels (cl_manager c) !! ch)) as Hch by (destruct Hwaits as (? & ? & _); by eexists).
    destruct (drop_receiver_ok _ _ ch r Hm Hch) as [Hm' Hrest].
    apply (client_inv_waiter c i w); try done.
    + split; simpl; try done.
      * intros y [= <-]. right. simpl. by rewrite Hf.
      * intros t [?|Ht]%elem_of_app; [by apply Hcalls|].
        destruct (wa_kind w); simpl in Hf; injection Hf as <- <-; by rewrite ?list_elem_of_singleton, ?elem_of_nil in Ht.
    + intros id ch0 r0 Hok Hne. split; [|done]. apply Hrest; [done|]. congruence.
Qed.

(** What the informer is told, and when the loop ends. *)
Lemma wait_next_final k u x : u <> None -> (wait_next (O := O) k u).2 = Some x -> final u.
Proof. destruct u as [[t|e]|]; [|done|done]. intros _. destruct k; simpl; unfold then_some; by destruct (sdk.is_completed t). Qed.

Lemma wait_next_calls k u t : OnUpdate t ∈ (wait_next (O := O) k u).1 -> u = Some (inl t).
Proof.
  destruct u as [[t'|e]|], k; simpl; rewrite ?elem_of_nil, ?list_elem_of_singleton; try done; by intros [= ->].
Qed.

Lemma poll_inv c i w w' m' :
  client_inv c -> cl_waiters c !! i = Some w ->
  waiter_step (Poll i) w (cl_manager c) = Some (w', m') -> client_inv (put_waiter i w' m' c).
Proof.
  intros Hc Hi. simpl. destruct (wa_pc w) as [| |ch r|] eqn:Hpc; try done.
  destruct (next_watch_update ch r (cl_manager c)) as [[u m1]|] eqn:Hnext; [|done]. simpl.
  pose proof (ci_manager c Hc) as Hm. destruct (ci_waiters c Hc i w Hi) as [Hwaits _ _ Hcalls].
  assert (Hhd : handle w = Some (ch, r)) by (unfold handle; by rewrite Hpc). specialize (Hwaits ch r Hhd).
  destruct (next_watch_update_ok _ _ _ _ _ _ _ Hm Hwaits Hnext) as (Hm1 & Hu & Ht & Hor & Hch & Hrest).
  assert (Hcalls' : forall t, OnUpdate t ∈ wa_calls w ++ (wait_next (O := O) (wa_kind w) u).1 ->
    sdk.t_id t = wa_task w /\ t ∈ cl_log c).
  { intros t [?|Hin%wait_next_calls]%elem_of_app; [by apply Hcalls|]. by subst u. }
  assert (Hss : same_stream (cl_manager c) m1).
  { unfold next_watch_update in Hnext. destruct (mg_channels _ !! ch); [|done]. simpl in Hnext.
    destruct (wc_next r c0) as [[]]; simplify_eq; by apply same_stream_refl. }
  destruct (wait_next (wa_kind w) u) as [calls [x|]] eqn:Hnx; intros [= <- <-].
  - destruct (drop_receiver_ok _ _ ch r Hm1 Hch) as [Hm' Hrest']. apply (client_inv_waiter c i w); try done.
    + split; simpl; try done. intros y [= <-]. left. exists u. simpl. rewrite Hnx. split_and!; [|done..].
      apply (wait_next_final (wa_kind w) u x Hu). by rewrite Hnx.
    + intros id ch0 r0 Hok Hne. split; [|done]. apply Hrest'; [apply Hrest|]; congruence.
  - apply (client_inv_waiter c i w); try done.
    + split; simpl; try done. intros ch0 r0 [= <- <-]. destruct Hor as [Hf|?]; [|done].
      exfalso. destruct u as [[t|e]|]; [|by destruct (wa_kind w)|done]. simpl in Hf.
      destruct (wa_kind w); simpl in Hnx; unfold then_some in Hnx; by rewrite Hf in Hnx.
    + intros id ch0 r0 Hok Hne. split; [apply Hrest; congruence|]. unfold handle. simpl. congruence.
Qed.

Lemma calls_inv c i k id : client_inv c -> cl_waiters c !! i = None ->
  client_inv (put_waiter i (mkWaiter k id Registers []) (cl_manager c) c).
Proof.
  intros [Hm Hw Hh] Hi. split; simpl; [done| |].
  - intros j w [[<- <-]|[_ Hj]]%lookup_insert_Some; [|by eapply Hw].
    split; simpl; try done. by intros t ?%elem_of_nil.
  - intros j1 j2 w1 w2 h. rewrite !lookup_insert_Some.
    intros [[<- <-]|[? ?]] [[<- <-]|[? ?]]; try done. by eapply Hh.
Qed.

Lemma leave_inv c i w : client_inv c -> cl_waiters c !! i = Some w ->
  client_inv (mkClient (match wa_pc w with
                        | Requests _ ch r | Awaits ch r => drop_receiver ch r (cl_manager c)
                        | _ => cl_manager c
                        end) (delete i (cl_waiters c)) (cl_log c)).
Proof.
  intros [Hm Hw Hh] Hi. set (m' := match wa_pc w with Requests _ _ _ => _ | _ => _ end).
  assert (manager_inv (cl_log c) m' /\ same_stream (cl_manager c) m' /\
    forall id ch r, waits_ok (cl_log c) (cl_manager c) id ch r -> handle w <> Some (ch, r) ->
      waits_ok (cl_log c) m' id ch r) as (Hm' & Hss & Hstep).
  { subst m'. destruct (wa_pc w) as [|sid ch r|ch r|x] eqn:Hpc; try by (split_and!; [done|by apply same_stream_refl|done]).
    all: assert (Hhd : handle w = Some (ch, r)) by (unfold handle; by rewrite Hpc).
    all: destruct (wo_waits _ _ _ (Hw i w Hi) ch r Hhd) as (cc & Hcc & _).
    all: destruct (drop_receiver_ok _ _ ch r Hm (ex_intro _ cc Hcc)) as [? Hr].
    all: split_and!; [done|by apply same_stream_refl|]; intros ????; rewrite Hhd; intros Hne; apply Hr; congruence. }
  split; simpl; [done| |].
  - intros j wj [Hne Hj]%lookup_delete_Some. rewrite <- (app_nil_r (cl_log c)).
    apply (waiter_ok_step _ _ (cl_manager c)); [by eapply Hw|done|]. intros ch r Hhd. rewrite app_nil_r.
    apply Hstep; [by apply (Hw j wj Hj)|]. intros Hhw. destruct Hne. by eapply Hh.
  - intros j1 j2 w1 w2 h [_ ?]%lookup_delete_Some [_ ?]%lookup_delete_Some. by eapply Hh.
Qed.

Lemma item_inv c sid item : client_inv c ->
  client_inv (mkClient (stream_item sid item (cl_manager c)) (cl_waiters c) (cl_log c ++ logged item)).
Proof.
  intros Hc. pose proof (manager_inv_mono _ (logged item) _ (ci_manager c Hc)) as Hm.
  assert (Hfin : forall e log, manager_inv log (cl_manager c) ->
    let m' := with_streams (alter (set_status (Finishing e)) sid (mg_streams (cl_manager c))) (cl_manager c) in
    manager_inv log m' /\ forall id ch r, waits_ok log (cl_manager c) id ch r -> waits_ok log m' id ch r).
  { intros e log Hlog. split; [by apply alter_stream_ok|]. intros id ch r. by apply waits_ok_same. }
  destruct item as [u|e]; simpl in *; [destruct (sdk.task_try_from u) as [t|e|]|].
  - destruct (deliver_ok (cl_log c ++ [t]) t (cl_manager c) Hm) as [Hm' Hw]; [set_solver|].
    apply client_inv_manager; try done. intros id ch. unfold deliver.
    destruct (watcher (cl_manager c) !! sdk.t_id t); [|done]. destruct (sdk.is_completed t); simpl; [|done].
    intros [_ ?]%lookup_delete_Some. done.
  - destruct (Hfin e _ Hm). by apply client_inv_manager.
  - apply client_inv_manager; [done..|by apply same_stream_refl|done].
  - destruct (Hfin e _ Hm). by apply client_inv_manager.
Qed.

Lemma taken_inv c sid q : client_inv c ->
  client_inv (mkClient (with_streams (alter (fun k => mkStreamTask q (sk_status k)) sid (mg_streams (cl_manager c)))
                (cl_manager c)) (cl_waiters c) (cl_log c)).
Proof.
  intros Hc. rewrite <- (app_nil_r (cl_log c)). apply client_inv_manager; rewrite ?app_nil_r; try done.
  by apply alter_stream_ok; [apply (ci_manager c Hc)|].
Qed.

Lemma drain_inv c e S : client_inv c ->
  (forall n, is_Some (S !! n) -> is_Some (mg_streams (cl_manager c) !! n)) ->
  client_inv (mkClient (drain (Some (inr e)) (with_streams S (cl_manager c))) (cl_waiters c) (cl_log c)).
Proof.
  intros Hc HS. destruct (drain_ok _ e _ S (mi_base _ _ (ci_manager c Hc)) HS) as [Hm' Hwaits].
  rewrite <- (app_nil_r (cl_log c)). apply client_inv_manager; rewrite ?app_nil_r; done.
Qed.

Lemma client_apply_inv ev c c' : client_inv c -> client_apply ev c = Some c' -> client_inv c'.
Proof.
  intros Hc. destruct ev as [i k id|i|i sent|i|i|sid|sid item|sid|late]; simpl.
  - destruct (cl_waiters c !! i) eqn:Hi; [done|]. intros [= <-]. by apply calls_inv.
  - destruct (cl_waiters c !! i) as [w|] eqn:Hi; [|done]. simpl.
    destruct (waiter_step (Register i) w (cl_manager c)) as [[w' m']|] eqn:Hs; simpl in Hs; rewrite Hs; [|done].
    intros [= <-]. by apply (register_inv c i w).
  - destruct (cl_waiters c !! i) as [w|] eqn:Hi; [|done]. simpl.
    destruct (waiter_step (SendRequest i sent) w (cl_manager c)) as [[w' m']|] eqn:Hs; simpl in Hs; rewrite Hs; [|done].
    intros [= <-]. by apply (send_request_inv c i sent w).
  - destruct (cl_waiters c !! i) as [w|] eqn:Hi; [|done]. simpl.
    destruct (waiter_step (Poll i) w (cl_manager c)) as [[w' m']|] eqn:Hs; simpl in Hs; rewrite Hs; [|done].
    intros [= <-]. by apply (poll_inv c i w).
  - destruct (cl_waiters c !! i) as [w|] eqn:Hi; [|done]. simpl. intros [= <-]. by apply leave_inv.
  - destruct (requests_of sid c) as [|id q]; [done|]. intros [= <-]. by apply taken_inv.
  - destruct (status_of sid c); [|done..]. intros [= <-]. by apply item_inv.
  - destruct (status_of sid c); [done| |done]. intros [= <-]. apply drain_inv; [done|].
    intros n. by rewrite lookup_alter_is_Some.
  - intros [= <-]. unfold close. destruct (ws_stream (mg_state (cl_manager c))) as [sid|]; [destruct late|].
    2: apply drain_inv; [done|]; intros n; by rewrite lookup_alter_is_Some.
    all: assert (cl_manager c = with_streams (mg_streams (cl_manager c)) (cl_manager c)) as -> by (by destruct (cl_manager c)).
    all: by apply drain_inv.
Qed.

Lemma client_reach_inv c : client_reach c -> client_inv c.
Proof.
  induction 1 as [|ev x y _ IH Hs]; [|by eapply client_apply_inv]. split; simpl.
  - apply new_manager_inv.
  - intros i w. by rewrite lookup_empty.
  - intros i j w w' h. by rewrite lookup_empty.
Qed.

(** The next value a waiter reads ends its wait. *)
Definition answered (c : Cl) (w : Waiter O) (ch r : nat) : Prop :=
  exists u m', next_watch_update ch r (cl_manager c) = Some (u, m') /\
    final u /\ told (cl_log c) (wa_task w) u.

Lemma sealed_answered c w ch r : client_inv c -> waits_ok (cl_log c) (cl_manager c) (wa_task w) ch r ->
  watcher (cl_manager c) !! wa_task w <> Some ch -> answered c w ch r.
Proof.
  intros Hc (cc & Hch & Hok) Hno. destruct Hok as [[? _]|(Hs & Hu & Hf & Ht)]; [done|].
  pose proof (wnext_view r cc true Hu) as Hv. unfold answered, next_watch_update. rewrite Hch. simpl.
  destruct (wc_next r cc) as [x c']. destruct Hv as (-> & _). eauto.
Qed.

(** C11 [safety] No waiter of the client is forgotten.  However its calls, the
    updates and the end of the stream and the closing of the session interleave,
    a waiter that waits has an answer it has not read yet, or its task is
    registered with a stream whose task is alive; and a waiter that returned did
    so with the end of its own task as it was delivered, with the error of the
    stream or the session, or because its request could not be sent.  It never
    finds its channel closed without an answer. *)
Theorem waiter_never_forgotten c i w :
  client_reach c -> cl_waiters c !! i = Some w ->
  match wa_pc w with
  | Registers => True
  | Requests _ ch r | Awaits ch r =>
      answered c w ch r \/
      exists sid k, ws_stream (mg_state (cl_manager c)) = Some sid /\
        mg_streams (cl_manager c) !! sid = Some k /\ sk_status k <> Gone /\
        watcher (cl_manager c) !! wa_task w = Some ch
  | Returned x => ended (cl_log c) w x
  end.
Proof.
  intros Hc%client_reach_inv Hi. pose proof (ci_waiters c Hc i w Hi) as Hw.
  assert (Hlive : forall ch r, handle w = Some (ch, r) -> answered c w ch r \/
    exists sid k, ws_stream (mg_state (cl_manager c)) = Some sid /\
        mg_streams (cl_manager c) !! sid = Some k /\ sk_status k <> Gone /\
        watcher (cl_manager c) !! wa_task w = Some ch).
  { intros ch r Hhd. destruct (decide (watcher (cl_manager c) !! wa_task w = Some ch)) as [Ho|Hno].
    - right. pose proof (ci_manager c Hc) as [Hb Hst].
      destruct (ws_stream (mg_state (cl_manager c))) as [sid|] eqn:Hcur.
      + destruct (mi_alive _ _ Hb sid Hcur) as (k & ? & ?). by exists sid, k.
      + by rewrite (Hst eq_refl), lookup_empty in Ho.
    - left. apply sealed_answered; [done| |done]. by apply (wo_waits _ _ _ Hw). }
  destruct (wa_pc w) as [|sid ch r|ch r|x] eqn:Hpc; [done|apply Hlive; unfold handle; by rewrite Hpc..|].
  by apply (wo_ended _ _ _ Hw).
Qed.
End reach.
