(* ===== verification/ClientTypes.v ===== *)
(** * What a client asks for and what it reads ([sdk/rust/src/client/mod.rs])

    The options of a session, resource requirements written as text, the
    attributes of an application, the requests made of them, and the records a
    client makes of the server's answers.  Together with the conversions of the
    server ([Rpc], [Frontend]) they say what becomes of what a client writes. *)
From Stdlib Require Import Ascii.
From stdpp Require Import pretty.
From S2P Require Import Prelude Text Types Resource Codes Session Events Engine Storage Connections Controller FsDisk FsRecord FsEngine FsDemo FsInv Rpc Frontend Requests Snapshot ClientWatch.
Local Open Scope Z_scope.

#[local] Existing Instance FilesystemEngine.engine.

Module client.

(** ** Resource requirements *)

Definition KIB : Z := 1024.
Definition MIB : Z := KIB * 1024.
Definition GIB : Z := MIB * 1024.
Definition TIB : Z := GIB * 1024.
Definition PIB : Z := TIB * 1024.

(** The suffixes in the order they are tried. *)
Definition memory_suffixes : list (string * Z) :=
  [("pib", PIB); ("pi", PIB); ("pb", PIB); ("p", PIB); ("tib", TIB); ("ti", TIB); ("tb", TIB); ("t", TIB);
   ("gib", GIB); ("gi", GIB); ("gb", GIB); ("g", GIB); ("mib", MIB); ("mi", MIB); ("mb", MIB); ("m", MIB);
   ("kib", KIB); ("ki", KIB); ("kb", KIB); ("k", KIB); ("b", 1)]%string.

Fixpoint with_multiplier (suffixes : list (string * Z)) (lower : string) : string * Z :=
  match suffixes with
  | [] => (lower, 1)
  | (suffix, multiplier) :: suffixes =>
      match strip_suffix suffix lower with
      | Some number => (number, multiplier)
      | None => with_multiplier suffixes lower
      end
  end.

Definition parse_memory_result (s : string) : result Z :=
  let s := trim s in
  if String.eqb s EmptyString then Err EInvalidConfig
  else
    let '(number, multiplier) := with_multiplier memory_suffixes (to_ascii_lowercase s) in
    value ← ok_or (parse_u64 number) EInvalidConfig;
    Ok (wrap_u64 (value * multiplier)).

(** [ResourceRequirement::parse]. *)
Definition parse : string -> result ResourceRequirement := parse_requirement parse_memory_result.

(** [ResourceRequirement::from(&str)]: what does not parse is nothing. *)
Definition requirement_of (s : string) : ResourceRequirement :=
  match parse s with Ok r => r | _ => mkRR 0 0 0 end.

(** ** Sessions *)

Record SessionOptions := mkOptions {
  so_id : option string;
  so_application : string;
  so_common_data : option string;
  so_tokens : gmap string string;
  so_min_instances : Z;
  so_max_instances : option Z;
  so_batch_size : Z;
  so_priority : Z;
  so_resreq : option ResourceRequirement
}.

Definition new (application : string) : SessionOptions :=
  mkOptions None application None ∅ 0 None 1 0 None.

Definition id (v : string) (o : SessionOptions) : SessionOptions :=
  mkOptions (Some v) (so_application o) (so_common_data o) (so_tokens o) (so_min_instances o)
    (so_max_instances o) (so_batch_size o) (so_priority o) (so_resreq o).
Definition common_data (v : string) (o : SessionOptions) : SessionOptions :=
  mkOptions (so_id o) (so_application o) (Some v) (so_tokens o) (so_min_instances o)
    (so_max_instances o) (so_batch_size o) (so_priority o) (so_resreq o).
Definition token (service v : string) (o : SessionOptions) : SessionOptions :=
  mkOptions (so_id o) (so_application o) (so_common_data o) (<[service := v]> (so_tokens o)) (so_min_instances o)
    (so_max_instances o) (so_batch_size o) (so_priority o) (so_resreq o).
Definition min_instances (v : Z) (o : SessionOptions) : SessionOptions :=
  mkOptions (so_id o) (so_application o) (so_common_data o) (so_tokens o) v
    (so_max_instances o) (so_batch_size o) (so_priority o) (so_resreq o).
Definition max_instances (v : Z) (o : SessionOptions) : SessionOptions :=
  mkOptions (so_id o) (so_application o) (so_common_data o) (so_tokens o) (so_min_instances o)
    (Some v) (so_batch_size o) (so_priority o) (so_resreq o).
Definition batch_size (v : Z) (o : SessionOptions) : SessionOptions :=
  mkOptions (so_id o) (so_application o) (so_common_data o) (so_tokens o) (so_min_instances o)
    (so_max_instances o) (Z.max v 1) (so_priority o) (so_resreq o).
Definition priority (v : Z) (o : SessionOptions) : SessionOptions :=
  mkOptions (so_id o) (so_application o) (so_common_data o) (so_tokens o) (so_min_instances o)
    (so_max_instances o) (so_batch_size o) v (so_resreq o).
Definition resreq (v : ResourceRequirement) (o : SessionOptions) : SessionOptions :=
  mkOptions (so_id o) (so_application o) (so_common_data o) (so_tokens o) (so_min_instances o)
    (so_max_instances o) (so_batch_size o) (so_priority o) (Some v).

(** [SessionAttributes::from]; [short_name] is the random name drawn. *)
Definition session_attributes_from (short_name : string) (o : SessionOptions) : SessionAttributes :=
  mkSsnAttr (default (so_application o +:+ "-" +:+ short_name) (so_id o)) (so_application o)
    (so_common_data o) (so_tokens o) (so_min_instances o) (so_max_instances o) (so_batch_size o)
    (so_priority o) (so_resreq o).

Definition into_session_attributes (short_name : string) (o : SessionOptions) : result SessionAttributes :=
  if String.eqb (trim (so_application o)) EmptyString then Err EInvalidConfig
  else Ok (session_attributes_from short_name o).

(** The [SessionSpec] of [create_session] and [open_session]. *)
Definition session_spec (a : SessionAttributes) : rpc.SessionSpec :=
  rpc.mkSessionSpec (sa_application a) (sa_common_data a) (sa_min_instances a) (sa_max_instances a)
    (Z.max (sa_batch_size a) 1) (sa_priority a) (requirement_to <$> sa_resreq a) (sa_tokens a).

(** The request of [create_session_with]: the identifier and the specification. *)
Definition create_session_with (short_name : string) (o : SessionOptions)
    : result (string * option rpc.SessionSpec) :=
  attrs ← into_session_attributes short_name o;
  Ok (sa_id attrs, Some (session_spec attrs)).

(** The request of [open_or_create_session_with]. *)
Definition open_or_create_session_with (short_name session_id : string) (o : SessionOptions)
    : result (string * option rpc.SessionSpec) :=
  if is_none_or (so_id o) (fun option_id => String.eqb option_id session_id) then
    attrs ← into_session_attributes short_name (id session_id o);
    Ok (session_id, Some (session_spec attrs))
  else Err EInvalidConfig.

(** ** Applications *)

Record ApplicationAttributes := mkAttributes {
  ca_shim : option Shim;
  ca_image : option string;
  ca_description : option string;
  ca_labels : list string;
  ca_command : option string;
  ca_arguments : list string;
  ca_environments : gmap string string;
  ca_working_directory : option string;
  ca_max_instances : option Z;
  ca_delay_release : option Z;
  ca_schema : option ApplicationSchema;
  ca_url : option string;
  ca_installer : option string
}.

Record Application := mkApplication {
  cap_name : string;
  cap_attributes : ApplicationAttributes;
  cap_state : ApplicationState;
  cap_creation_time : Z
}.

(** ** What is read of the server *)

Record Session := mkSession {
  cs_id : string;
  cs_application : string;
  cs_common_data : option string;
  cs_creation_time : Z;
  cs_state : SessionState;
  cs_pending : Z;
  cs_running : Z;
  cs_succeed : Z;
  cs_failed : Z;
  cs_events : list Event;
  cs_priority : Z;
  cs_resreq : option ResourceRequirement
}.

Record Executor := mkExecutor {
  ce_id : string;
  ce_application : string;
  ce_state : ExecutorState;
  ce_session_id : option string;
  ce_node : string
}.

Record Node := mkNode {
  cn_name : string;
  cn_hostname : string;
  cn_state : NodeState;
  cn_cpu : Z;
  cn_memory : Z;
  cn_gpu : Z;
  cn_arch : string;
  cn_os : string
}.

Section conversions.
Context `{Env} `{Chrono} `{Durations}.

(** [ApplicationSpec::from(ApplicationAttributes)]. *)
Definition spec_from (app : ApplicationAttributes) : rpc.ApplicationSpec :=
  rpc.mkApplicationSpec (default 0 (i32_of_shim <$> ca_shim app)) (ca_description app) (ca_labels app)
    (ca_image app) (ca_command app) (ca_arguments app)
    ((fun kv => rpc.mkEnvironment kv.1 kv.2) <$> hm_iter (ca_environments app))
    (ca_working_directory app) (ca_max_instances app) (whole_seconds <$> ca_delay_release app)
    (schema_to <$> ca_schema app) (ca_url app) (ca_installer app).

(** [ApplicationAttributes::from(ApplicationSpec)]; [Duration::seconds] panics
    out of its range. *)
Definition attributes_from (app : rpc.ApplicationSpec) : result ApplicationAttributes :=
  delay_release ← match rpc.asp_delay_release app with
                  | Some n => Some <$> seconds n
                  | None => Ok None
                  end;
  Ok (mkAttributes (Some (shim_or_default (rpc.asp_shim app))) (rpc.asp_image app) (rpc.asp_description app)
        (rpc.asp_labels app) (rpc.asp_command app) (rpc.asp_arguments app)
        (environments_from (rpc.asp_environments app)) (nonempty (rpc.asp_working_directory app))
        (rpc.asp_max_instances app) delay_release (schema_from <$> rpc.asp_schema app)
        (rpc.asp_url app) (rpc.asp_installer app)).

Definition application_try_from (app : rpc.Application) : result Application :=
  metadata ← ok_or (rpc.a_metadata app) EInternal;
  spec ← ok_or (rpc.a_spec app) EInternal;
  status ← ok_or (rpc.a_status app) EInternal;
  creation_time ← ok_or (from_timestamp_millis (rpc.ast_creation_time status)) EInternal;
  attributes ← attributes_from spec;
  Ok (mkApplication (rpc.md_name metadata) attributes
        (application_state_or_default (rpc.ast_state status)) creation_time).

(** An unknown state is the default, [Open]. *)
Definition session_try_from (ssn : rpc.Session) : result Session :=
  metadata ← ok_or (rpc.s_metadata ssn) EInternal;
  status ← ok_or (rpc.s_status ssn) EInternal;
  spec ← ok_or (rpc.s_spec ssn) EInternal;
  creation_time ← ok_or (from_timestamp_millis (rpc.sst_creation_time status)) EInternal;
  events ← sdk.events_try_from (rpc.sst_events status);
  Ok (mkSession (rpc.md_id metadata) (rpc.ssp_application spec) (rpc.ssp_common_data spec) creation_time
        (match session_state_try_from (rpc.sst_state status) with Ok s => s | _ => SsnOpen end)
        (rpc.sst_pending status) (rpc.sst_running status) (rpc.sst_succeed status) (rpc.sst_failed status)
        events (rpc.ssp_priority spec) (requirement_from <$> rpc.ssp_resreq spec)).

Definition executor_try_from (e : rpc.Executor) : result Executor :=
  spec ← ok_or (rpc.x_spec e) EInternal;
  status ← ok_or (rpc.x_status e) EInternal;
  metadata ← ok_or (rpc.x_metadata e) EInternal;
  state ← (let v := rpc.xst_state status in
           if (0 <=? v) && (v <=? 7) then Ok (executor_state_from v) else Err EInternal);
  Ok (mkExecutor (rpc.md_id metadata) (rpc.xsp_application spec) state (rpc.xst_session_id status)
        (rpc.xsp_node spec)).

(** Fields that are missing are the defaults of their messages. *)
Definition node_from (n : rpc.Node) : Node :=
  let metadata := default (rpc.mkMetadata "" "") (rpc.n_metadata n) in
  let spec := default (rpc.mkNodeSpec "" []) (rpc.n_spec n) in
  let status := default (rpc.mkNodeStatus 0 None None None [] 0) (rpc.n_status n) in
  let state := match rpc.nst_state status with 1 => NodeReady | 2 => NodeNotReady | _ => NodeUnknown end in
  let capacity := default (rpc.mkRR 0 0 0) (rpc.nst_capacity status) in
  let info := default (rpc.mkNodeInfo "" "") (rpc.nst_info status) in
  mkNode (rpc.md_name metadata) (rpc.nsp_hostname spec) state (rpc.rq_cpu capacity) (rpc.rq_memory capacity)
    (rpc.rq_gpu capacity) (rpc.ni_arch info) (rpc.ni_os info).
End conversions.

(** ** Numbers stay in their range *)

Lemma parse_memory_range s n : parse_memory_result s = Ok n -> is_u64 n.
Proof.
  unfold parse_memory_result. destruct (String.eqb _ _); [done|].
  destruct (with_multiplier _ _) as [number multiplier]. unfold mbind, result_bind.
  destruct (parse_u64 number) as [v|]; [|done]. simpl. intros [= <-]. apply wrap_u64_range.
Qed.

Lemma requirement_of_range s : requirement_in_range (requirement_of s).
Proof.
  unfold requirement_of. destruct (parse s) as [r| |] eqn:Hp; [|by vm_compute..].
  by eapply parse_requirement_range; [apply parse_memory_range|].
Qed.

(** A size that does not fit in 64 bits is taken modulo [2^64]. *)
Lemma parse_memory_wraps : parse "cpu=2, Memory=18014398509481985Ki" = Ok (mkRR 2 1024 0).
Proof. vm_compute. reflexivity. Qed.

(** ** What the server makes of a request *)

Section server.
Context `{Env} `{Chrono} `{DurationsSpec}.

Lemma session_spec_kept cluster_default short_name sid o :
  Frontend.session_attributes cluster_default sid (session_spec (session_attributes_from short_name o)) =
    mkSsnAttr sid (so_application o) (so_common_data o) (so_tokens o) (so_min_instances o)
      (so_max_instances o) (Z.max (so_batch_size o) 1) (so_priority o)
      (Some (Frontend.resolve_session_resreq (so_resreq o) cluster_default)).
Proof.
  unfold Frontend.session_attributes. simpl.
  rewrite (option_roundtrip requirement_to requirement_from _ requirement_roundtrip). f_equal. lia.
Qed.

(** [functional] The session a server is asked for is the one the options
    describe: whether a client creates a session or opens it with options, the
    attributes the server reads of the request are the identifier, the
    application, the data, the tokens, the numbers of instances and the priority
    of the options, a batch of at least one, and the resources the options ask
    for, or the default of the cluster. *)
Theorem session_request_kept cluster_default short_name o sid spec :
  create_session_with short_name o = Ok (sid, Some spec) \/
  open_or_create_session_with short_name sid o = Ok (sid, Some spec) ->
  Frontend.session_attributes cluster_default sid spec =
    mkSsnAttr sid (so_application o) (so_common_data o) (so_tokens o) (so_min_instances o)
      (so_max_instances o) (Z.max (so_batch_size o) 1) (so_priority o)
      (Some (Frontend.resolve_session_resreq (so_resreq o) cluster_default)).
Proof.
  unfold create_session_with, open_or_create_session_with, into_session_attributes, mbind, result_bind.
  intros [Hs|Hs].
  - destruct (String.eqb _ _); [done|]. injection Hs as <- <-. apply session_spec_kept.
  - destruct (is_none_or _ _); [|done]. destruct (String.eqb _ _); [done|]. injection Hs as <-.
    exact (session_spec_kept cluster_default short_name sid (id sid o)).
Qed.

(** *** Applications *)

(** The application has the attributes, its delay to the second. *)
Definition kept_as (app : Types.Application) (attr : Types.ApplicationAttributes) : Prop :=
  attr = mkAppAttr (app_shim app) (app_image app) (app_description app) (app_labels app) (app_command app)
           (app_arguments app) (app_environments app) (app_working_directory app) (app_max_instances app)
           (aa_delay_release attr) (app_schema app) (app_url app) (app_installer app) /\
  whole_seconds (app_delay_release app) = whole_seconds (aa_delay_release attr).

(** The attributes with the defaults of the server, and [d] for the delay. *)
Definition with_defaults (d : Z) (a : ApplicationAttributes) : ApplicationAttributes :=
  mkAttributes (Some (default ShimHost (ca_shim a))) (ca_image a) (ca_description a) (ca_labels a)
    (ca_command a) (ca_arguments a) (ca_environments a) (nonempty (ca_working_directory a))
    (Some (default DEFAULT_MAX_INSTANCES (ca_max_instances a))) (Some d) (ca_schema a) (ca_url a) (ca_installer a).

Lemma shim_of_spec o : shim_or_default (default 0 (i32_of_shim <$> o)) = default ShimHost o.
Proof. destruct o as [s|]; [apply shim_or_default_code|done]. Qed.

Lemma nonempty_idem o : nonempty (nonempty o) = nonempty o.
Proof. destruct o as [s|]; [|done]. simpl. destruct (String.eqb s "") eqn:Hs; [done|]. simpl. by rewrite Hs. Qed.

(** The delay the server reads is the one it sends. *)
Lemma delay_kept o d : seconds (whole_seconds (default DEFAULT_DELAY_RELEASE o)) = Ok d ->
  exists d', delay_or_default (whole_seconds <$> o) = Ok d' /\ seconds (whole_seconds d') = Ok d.
Proof.
  destruct o as [d0|]; simpl; [|by eexists]. intros Hd. exists d. split; [done|].
  unfold seconds in *. destruct (try_seconds (whole_seconds d0)) as [d1|] eqn:Ht; [|done]. injection Hd as <-.
  rewrite (whole_try_seconds _ _ Ht). by rewrite Ht.
Qed.

(** What a client reads of an application that has the attributes of a request. *)
Lemma application_read a app attr d :
  seconds (whole_seconds (default DEFAULT_DELAY_RELEASE (ca_delay_release a))) = Ok d ->
  application_attributes_from (spec_from a) = Ok attr -> kept_as app attr ->
  exists t, application_try_from (application_to app) =
    Ok (mkApplication (app_name app) (with_defaults d a) (app_state app) t).
Proof.
  intros Hd Hattr [Hk Hdelay]. destruct (from_timestamp_millis_total (app_creation_time app)) as [t Ht]. exists t.
  destruct (delay_kept _ _ Hd) as (d' & Hd' & Hs). unfold application_attributes_from in Hattr. simpl in Hattr.
  rewrite Hd' in Hattr. simpl in Hattr. injection Hattr as <-. simpl in Hdelay.
  injection Hk as Hk1 Hk2 Hk3 Hk4 Hk5 Hk6 Hk7 Hk8 Hk9 Hk11 Hk12 Hk13.
  unfold application_try_from, attributes_from. simpl. unfold mbind, result_bind. rewrite Ht. simpl.
  rewrite Hdelay, Hs. simpl. unfold with_defaults.
  rewrite shim_or_default_code, application_state_or_default_code, environments_roundtrip,
    (option_roundtrip schema_to schema_from _ schema_roundtrip).
  rewrite <- Hk1, <- Hk2, <- Hk3, <- Hk4, <- Hk5, <- Hk6, <- Hk7, <- Hk8, <- Hk9, <- Hk11, <- Hk12, <- Hk13.
  by rewrite shim_of_spec, nonempty_idem, environments_roundtrip,
    (option_roundtrip schema_to schema_from _ schema_roundtrip).
Qed.

(** *** Sessions and executors *)

(** A session is read with its times rounded to milliseconds, and the tasks of
    its index counted. *)
Lemma session_read ssn : exists t,
  from_timestamp_millis (timestamp_millis (ssn_creation_time ssn)) = Some t /\
  session_try_from (session_to ssn) =
    Ok (mkSession (ssn_id ssn) (ssn_application ssn) (ssn_common_data ssn) t (ssn_state ssn)
          (indexed_count TaskPending ssn) (indexed_count TaskRunning ssn) (indexed_count TaskSucceed ssn)
          (indexed_count TaskFailed ssn) (event_on_wire <$> ssn_events ssn) (ssn_priority ssn) (ssn_resreq ssn)).
Proof.
  destruct (from_timestamp_millis_total (ssn_creation_time ssn)) as [t Ht]. exists t. split; [done|].
  unfold session_try_from. simpl. unfold mbind, result_bind.
  rewrite Ht. simpl. rewrite events_roundtrip. by rewrite session_state_code,
    (option_roundtrip requirement_to requirement_from _ requirement_roundtrip).
Qed.

Lemma executor_read e : executor_try_from (executor_to e) =
  Ok (mkExecutor (ex_id e) (ex_application e) (ex_state e) (ex_ssn_id e) (ex_node e)).
Proof. unfold executor_try_from. simpl. by destruct (ex_state e). Qed.

Lemma node_read n : node_from (node_to n) =
  mkNode (node_name n) (node_name n) (node_state n) (rr_cpu (node_capacity n)) (rr_memory (node_capacity n))
    (rr_gpu (node_capacity n)) (pf_arch (node_info n)) (pf_os (node_info n)).
Proof. unfold node_from. simpl. by destruct (node_state n). Qed.

(** *** Registered and read *)

Section registered.
Context `{Schemas} {E V : Type} `{Engine E} `{EventManager V}.
Implicit Types k : ConnectionManager (Storage E V).

(** The request [register_application] of a client succeeds, and a client then
    asks for the application. *)
Definition reads_back (name : string) (a : ApplicationAttributes) (d : Z) (k : ConnectionManager (Storage E V)) : Prop :=
  forall k', Frontend.register_application name (Some (spec_from a)) k = (Reply (rpc.mkResult 0 None), k') ->
  exists app t, (Frontend.get_application name k').1 = Reply app /\
    application_try_from app = Ok (mkApplication name (with_defaults d a) AppEnabled t).

Lemma registered name spec k k' :
  Frontend.register_application name (Some spec) k = (Reply (rpc.mkResult 0 None), k') ->
  exists attr app now, application_attributes_from spec = Ok attr /\
    Engine.register_application name attr now (st_engine (cm_callbacks k)) = (Ok app, st_engine (cm_callbacks k')).
Proof.
  unfold Frontend.register_application, mbind, Api_bind, call, lift. simpl.
  destruct (validate_application_spec spec); [|done..]. destruct (application_attributes_from spec) as [attr| |]; [|done..].
  unfold Frontend.result_of, mbind, Api_bind, call, attempt, Controller.register_application.
  unfold mbind, M_bind, lift. destruct (validate_application_name name); [|done..].
  unfold storage, zoom, Storage.register_application, mbind, M_bind, Storage.now, engine, zoom. simpl.
  destruct (Engine.register_application name attr _ (st_engine (cm_callbacks k))) as [[app| |] e'] eqn:Hr; [|done..].
  intros [= <-]. exists attr, app. eexists. split; [done|]. exact Hr.
Qed.

Lemma register_reads_back name a d k :
  seconds (whole_seconds (default DEFAULT_DELAY_RELEASE (ca_delay_release a))) = Ok d ->
  (forall attr now e app e', Engine.register_application name attr now e = (Ok app, e') ->
   exists app', (Engine.get_application name e').1 = Ok app' /\ app_name app' = name /\ app_state app' = AppEnabled /\
     kept_as app' attr) ->
  reads_back name a d k.
Proof.
  intros Hd Hengine k' (attr & app & now & Hattr & Hr)%registered.
  destruct (Hengine _ _ _ _ _ Hr) as (app' & Hget & <- & Hst & Hk).
  destruct (application_read a app' attr d Hd Hattr Hk) as [t Ht]. exists (application_to app'), t.
  rewrite <-Hst. split; [|done]. unfold Frontend.get_application, mbind, Api_bind, call, storage, zoom.
  unfold Storage.get_application, engine, zoom. destruct (Engine.get_application _ _) as [r e]. simpl in Hget. by subst r.
Qed.
End registered.

(** C39 [roundtrip] An application that a client registered is the one a client
    reads, whether the server keeps it in memory or in files: every attribute is
    as given, what was left open is the default of the server, an empty working
    directory is none, and the delay is cut to whole seconds.  The delay is one that
    a duration in seconds can hold. *)
Theorem application_read_back `{Disk} `{Crates} `{Schemas} {V} `{EventManager V} name a d
    (k1 : ConnectionManager (Storage NoneEngine.t V)) (k2 : ConnectionManager (Storage FilesystemEngine.t V)) :
  seconds (whole_seconds (default DEFAULT_DELAY_RELEASE (ca_delay_release a))) = Ok d ->
  (forall x, whole_seconds (duration_seconds (num_seconds x)) = whole_seconds x) ->
  reads_back name a d k1 /\ reads_back name a d k2.
Proof.
  intros Hd Hsec. split; (apply register_reads_back; [done|]); intros attr now e app e' Hr.
  - simpl in *. unfold NoneEngine.register_application in Hr. destruct (NoneEngine.applications e !! name); [done|].
    injection Hr as <- <-. simpl. rewrite lookup_insert_eq. eexists. split_and!; [done..|]. split; [by destruct attr|done].
  - apply register_application_kept in Hr as [Happ Hget]. exists app. split; [done|].
    unfold application_from_metadata in Happ. destruct (from_timestamp _); [|done]. injection Happ as <-. simpl.
    split_and!; [done..|]. split; [|apply Hsec]. simpl. rewrite shim_or_default_code. by destruct attr.
Qed.
End server.
End client.

(** ** A registered application *)

Section examples.
#[local] Existing Instances demo_env demo_chrono demo_schemas CountableCodec.demo_crates.
#[local] Instance working_disk : Disk := demo_disk [].

(** A delay of one second and a half. *)
Definition demo_attributes : client.ApplicationAttributes :=
  client.mkAttributes None None None ["l"]%string (Some "run") [] {["A" := "b"]}%string (Some "")
    None (Some 1500000000) None None (Some "pip"%string).

Definition in_memory : ConnectionManager (Storage NoneEngine.t MemoryEventManager.t) :=
  Connections.new (Storage.new NoneEngine.new MemoryEventManager.new None 3).

Definition in_files : ConnectionManager (Storage FilesystemEngine.t MemoryEventManager.t) :=
  Connections.new (Storage.new (FilesystemEngine.start (FilesystemEngine.on_disk (mkFs ∅ ∅ 0))).2
    MemoryEventManager.new None 3).

Lemma application_read_back_witness :
  (exists app t, (Frontend.get_application "app" (Frontend.register_application "app" (Some (client.spec_from demo_attributes)) in_memory).2).1 =
     Reply app /\ client.application_try_from app =
       Ok (client.mkApplication "app" (client.with_defaults 1000000000 demo_attributes) AppEnabled t)) /\
  (exists app t, (Frontend.get_application "app" (Frontend.register_application "app" (Some (client.spec_from demo_attributes)) in_files).2).1 =
     Reply app /\ client.application_try_from app =
       Ok (client.mkApplication "app" (client.with_defaults 1000000000 demo_attributes) AppEnabled t)).
Proof.
  destruct (client.application_read_back "app" demo_attributes 1000000000 in_memory in_files) as [H1 H2].
  - vm_compute. reflexivity.
  - intros x. simpl. by rewrite Z.quot_mul.
  - split; [apply H1|apply H2]; vm_compute; reflexivity.
Defined.
End examples.
