(* ===== verification/Config.v ===== *)
(** * The configuration of a cluster ([common/src/ctx.rs])

    The file as [serde_yaml] reads it, what the processes make of it, and the
    checks between the two.  YAML, durations ([humantime]) and sizes ([bytesize])
    are read by libraries, and the tables of Unicode are not written out: they
    are parameters, with what they do to ASCII text. *)
From Stdlib Require Import Ascii.
From stdpp Require Import pretty.
From S2P Require Import Prelude Text Types Resource PluginApi Codes Session Events Rpc Frontend ClientWatch ClientTypes.
Local Open Scope Z_scope.

(** ** The file *)

Record FlameSessionRecoveryYaml := mkSessionRecoveryYaml { sry_retry_limits : option Z }.
Record FlameRecoveryYaml := mkRecoveryYaml { rcy_session : option FlameSessionRecoveryYaml }.

Record FlameExecutorsYaml := mkExecutorsYaml {
  exy_shims : option (list string);
  exy_devices : option (list string);
  exy_system_resource : option string
}.

Record FlameApplicationLimitsYaml := mkApplicationLimitsYaml { aly_max_executors : option Z }.
Record FlameSessionLimitsYaml := mkSessionLimitsYaml { sly_max_executors : option Z }.
Record FlameNodeLimitsYaml := mkNodeLimitsYaml { nly_max_executors : option Z }.

Record FlameLimitsYaml := mkLimitsYaml {
  lmy_max_sessions : option nat;
  lmy_application : option FlameApplicationLimitsYaml;
  lmy_session : option FlameSessionLimitsYaml;
  lmy_node : option FlameNodeLimitsYaml
}.

Record FlameTlsYaml := mkTlsYaml {
  tly_cert_file : option string;
  tly_key_file : option string;
  tly_ca_file : option string
}.

Record FlamePprofYaml := mkPprofYaml { ppy_port : option Z }.

Record FlameClusterYaml := mkClusterYaml {
  cly_name : string;
  cly_endpoint : string;
  cly_advertise : option string;
  cly_resreq : option string;
  cly_policies : option (list string);
  cly_storage : option string;
  cly_schedule_interval : option Z;
  cly_executors : option FlameExecutorsYaml;
  cly_tls : option FlameTlsYaml;
  cly_limits : option FlameLimitsYaml;
  cly_pprof : option FlamePprofYaml;
  cly_recovery : option FlameRecoveryYaml
}.

Record FlameCacheGcYaml := mkCacheGcYaml { gcy_interval : option string }.

Record FlameEvictionYaml := mkEvictionYaml {
  evy_policy : option string;
  evy_max_memory : option string;
  evy_max_objects : option Z
}.

Record FlameCacheYaml := mkCacheYaml {
  cay_endpoint : option string;
  cay_advertise : option string;
  cay_storage : option string;
  cay_eviction : option FlameEvictionYaml;
  cay_gc : option FlameCacheGcYaml;
  cay_tls : option FlameTlsYaml;
  cay_pprof : option FlamePprofYaml
}.

Record FlameClusterContextYaml := mkContextYaml {
  cxy_cluster : FlameClusterYaml;
  cxy_cache : option FlameCacheYaml
}.

(** ** What the processes use *)

Record FlameExecutors := mkExecutors {
  fe_shims : list Shim;
  fe_devices : list string;
  fe_system_resource : ResourceRequirement
}.

Record FlameTls := mkTls { ft_cert_file : string; ft_key_file : string; ft_ca_file : option string }.

(** [FlameSessionRecovery] is all of [FlameRecovery]; ports and intervals are
    numbers. *)
Record FlameCluster := mkCluster {
  fc_name : string;
  fc_endpoint : string;
  fc_advertise : option string;
  fc_resreq : option ResourceRequirement;
  fc_policies : list string;
  fc_storage : string;
  fc_schedule_interval : Z;
  fc_executors : FlameExecutors;
  fc_tls : option FlameTls;
  fc_limits : FlameLimits;
  fc_retry_limits : Z;
  fc_pprof_port : option Z
}.

Record FlameEviction := mkEviction { fv_policy : string; fv_max_memory : Z; fv_max_objects : option Z }.

Record FlameCache := mkCache {
  fa_endpoint : string;
  fa_advertise : option string;
  fa_storage : option string;
  fa_eviction : FlameEviction;
  fa_gc_interval : Z;
  fa_tls : option FlameTls;
  fa_pprof_port : option Z
}.

Record FlameClusterContext := mkContext { cx_cluster : FlameCluster; cx_cache : option FlameCache }.

Definition DEFAULT_CONTEXT_NAME : string := "flame".
Definition DEFAULT_FLAME_ENDPOINT : string := "http://127.0.0.1:8080".
Definition DEFAULT_POLICIES : list string := ["priority"; "drf"; "das"]%string.
Definition DEFAULT_STORAGE : string := "sqlite://flame.db".
Definition DEFAULT_MAX_EXECUTORS_PER_NODE : Z := 128.
Definition DEFAULT_SESSION_RETRY_LIMITS : Z := 5.
Definition DEFAULT_SCHEDULE_INTERVAL : Z := 100.
Definition DEFAULT_SHIM : string := "host".
Definition DEFAULT_FLAME_CACHE_ENDPOINT : string := "http://127.0.0.1:9090".
Definition DEFAULT_EVICTION_POLICY : string := "lru".
Definition DEFAULT_MAX_MEMORY : string := "1G".
Definition DEFAULT_PPROF_PORT : Z := 6060.
Definition DEFAULT_CACHE_GC_INTERVAL : Z := 60 * 1000000000.
Definition DEFAULT_FLAME_CONF : string := "flame-cluster.yaml".

(** ** What libraries do *)

(** Unicode: the byte of the first alphabetic character, and the letter cases. *)
Class Unicode := {
  find_alphabetic : string -> option nat;
  to_uppercase : string -> string;
  to_lowercase : string -> string
}.

Fixpoint find_ascii_alphabetic (s : string) : option nat :=
  match s with
  | EmptyString => None
  | String c s => if is_ascii_alphabetic c then Some 0%nat else S <$> find_ascii_alphabetic s
  end.

Class UnicodeSpec `{Unicode} := {
  find_alphabetic_inside : forall s n, find_alphabetic s = Some n -> (n < String.length s)%nat;
  find_alphabetic_ascii : forall s, string_forall is_ascii s = true -> find_alphabetic s = find_ascii_alphabetic s;
  to_uppercase_ascii : forall s, string_forall is_ascii s = true -> to_uppercase s = to_ascii_uppercase s;
  to_lowercase_ascii : forall s, string_forall is_ascii s = true -> to_lowercase s = to_ascii_lowercase s
}.

(** [bytesize]'s [parse], [humantime::parse_duration] in nanoseconds,
    [serde_yaml::from_str]. *)
Class ConfigLibs := {
  parse_byte_size : string -> option Z;
  parse_duration : string -> option Z;
  from_yaml : string -> option FlameClusterContextYaml
}.

Definition IEC : list (string * Z) :=
  [("KiB", 2 ^ 10); ("MiB", 2 ^ 20); ("GiB", 2 ^ 30); ("TiB", 2 ^ 40); ("PiB", 2 ^ 50)]%string.

Lemma IEC_nonneg u m : (u, m) ∈ IEC -> 0 <= m.
Proof. unfold IEC. set_unfold. naive_solver lia. Qed.

(** A size is a number of 64 bits; a whole number that a float holds exactly,
    with a unit of the IEC, is that many units. *)
Class ConfigLibsSpec `{ConfigLibs} := {
  parse_byte_size_range : forall s n, parse_byte_size s = Some n -> is_u64 n;
  parse_byte_size_iec : forall n u m, 0 <= n < 2 ^ 53 -> (u, m) ∈ IEC -> n * m <= u64_max ->
    parse_byte_size (pretty n +:+ u) = Some (n * m)
}.

(** ** Reading *)

(** [options.map(f).transpose()?]. *)
Definition transpose {A B} (f : A -> result B) (o : option A) : result (option B) :=
  match o with Some a => b ← f a; Ok (Some b) | None => Ok None end.

(** [o.filter(|value| !value.is_empty())]. *)
Definition non_empty (o : option string) : option string :=
  match o with Some s => if String.eqb s EmptyString then None else Some s | None => None end.

Section config.
Context `{Unicode} `{ConfigLibs}.

Definition binary_unit (unit_upper unit_part : string) : string :=
  let among l := existsb (String.eqb unit_upper) l in
  if among ["GI"; "GIB"; "G"; "GB"]%string then "GiB"
  else if among ["MI"; "MIB"; "M"; "MB"]%string then "MiB"
  else if among ["KI"; "KIB"; "K"; "KB"]%string then "KiB"
  else if among ["TI"; "TIB"; "T"; "TB"]%string then "TiB"
  else if among ["PI"; "PIB"; "P"; "PB"]%string then "PiB"
  else unit_part.

Definition convert_to_binary_units (s : string) : string :=
  let s := trim s in
  if String.eqb s EmptyString then s
  else
    let unit_start := default (String.length s) (find_alphabetic s) in
    let '(num_part, unit_part) := split_at unit_start s in
    num_part +:+ binary_unit (to_uppercase unit_part) unit_part.

Definition parse_memory_size (s : string) : result Z :=
  let s := trim s in
  if String.eqb s EmptyString then Err EInvalidConfig
  else ok_or (parse_byte_size (convert_to_binary_units s)) EInvalidConfig.

(** [ResourceRequirement::parse] of the server. *)
Definition parse : string -> result ResourceRequirement := parse_requirement parse_memory_size.

(** [ResourceRequirement::from(&String)]. *)
Definition requirement_from (s : string) : ResourceRequirement :=
  match parse s with Ok r => r | _ => rr_default end.

Definition shim_from_name (s : string) : result Shim :=
  let l := to_lowercase s in
  if String.eqb l "host" then Ok ShimHost
  else if String.eqb l "wasm" then Ok ShimWasm
  else if String.eqb l "cri" then Ok ShimCri
  else Err EInvalidConfig.

Definition executors_default : FlameExecutors := mkExecutors [ShimHost] ["gpu"%string] rr_default.

(** [for name in &devices { if !names.insert(name) { return Err(..) } }]. *)
Fixpoint check_distinct {A} `{EqDecision A} (seen l : list A) : result unit :=
  match l with
  | [] => Ok tt
  | x :: l => if bool_decide (x ∈ seen) then Err EInvalidConfig else check_distinct (x :: seen) l
  end.

Fixpoint collect_shims (names : list string) : result (list Shim) :=
  match names with
  | [] => Ok []
  | name :: names => shim ← shim_from_name name; shims ← collect_shims names; Ok (shim :: shims)
  end.

Definition executors_try_from (e : FlameExecutorsYaml) : result FlameExecutors :=
  let devices := default (fe_devices executors_default) (exy_devices e) in
  check_distinct [] devices ≫= fun _ =>
  system_resource ←
    match exy_system_resource e with
    | Some resources => match parse resources with Ok r => Ok r | Err _ => Err EInvalidConfig | Panic => Panic end
    | None => Ok rr_default
    end;
  shims ←
    match exy_shims e with
    | Some names =>
        if bool_decide (names = []) then Err EInvalidConfig
        else shims ← collect_shims names; check_distinct [] shims ≫= fun _ => Ok shims
    | None => shim ← shim_from_name DEFAULT_SHIM; Ok [shim]
    end;
  Ok (mkExecutors shims devices system_resource).



Definition limits_default : FlameLimits := mkLimits None None None DEFAULT_MAX_EXECUTORS_PER_NODE.

Definition limits_from (l : FlameLimitsYaml) : FlameLimits :=
  mkLimits (lmy_max_sessions l) (lmy_application l ≫= aly_max_executors) (lmy_session l ≫= sly_max_executors)
    (default DEFAULT_MAX_EXECUTORS_PER_NODE (lmy_node l ≫= nly_max_executors)).

Definition recovery_from (r : FlameRecoveryYaml) : Z :=
  match rcy_session r with
  | Some s => default DEFAULT_SESSION_RETRY_LIMITS (sry_retry_limits s)
  | None => DEFAULT_SESSION_RETRY_LIMITS
  end.

Definition pprof_from (p : FlamePprofYaml) : Z := default DEFAULT_PPROF_PORT (ppy_port p).

Definition tls_try_from (t : FlameTlsYaml) : result FlameTls :=
  cert_file ← ok_or (tly_cert_file t) EInvalidConfig;
  key_file ← ok_or (tly_key_file t) EInvalidConfig;
  Ok (mkTls cert_file key_file (tly_ca_file t)).

Definition cluster_try_from (c : FlameClusterYaml) : result FlameCluster :=
  executors ← transpose executors_try_from (cly_executors c);
  tls ← transpose tls_try_from (cly_tls c);
  resreq ← transpose parse (cly_resreq c);
  Ok (mkCluster (cly_name c) (cly_endpoint c) (non_empty (cly_advertise c)) resreq
        (default DEFAULT_POLICIES (cly_policies c)) (default DEFAULT_STORAGE (cly_storage c))
        (default DEFAULT_SCHEDULE_INTERVAL (cly_schedule_interval c)) (default executors_default executors) tls
        (default limits_default (limits_from <$> cly_limits c))
        (default DEFAULT_SESSION_RETRY_LIMITS (recovery_from <$> cly_recovery c)) (pprof_from <$> cly_pprof c)).

Definition cluster_default : FlameCluster :=
  mkCluster DEFAULT_CONTEXT_NAME DEFAULT_FLAME_ENDPOINT None None DEFAULT_POLICIES DEFAULT_STORAGE
    DEFAULT_SCHEDULE_INTERVAL executors_default None limits_default DEFAULT_SESSION_RETRY_LIMITS None.

Definition gc_try_from (g : FlameCacheGcYaml) : result Z :=
  match gcy_interval g with
  | None => Ok DEFAULT_CACHE_GC_INTERVAL
  | Some interval =>
      interval ← ok_or (parse_duration interval) EInvalidConfig;
      if interval =? 0 then Err EInvalidConfig else Ok interval
  end.

Definition eviction_default : FlameEviction :=
  mkEviction DEFAULT_EVICTION_POLICY
    (match parse_memory_size DEFAULT_MAX_MEMORY with Ok n => n | _ => 1024 * 1024 * 1024 end) None.

Definition eviction_try_from (e : FlameEvictionYaml) : result FlameEviction :=
  max_memory ← parse_memory_size (default DEFAULT_MAX_MEMORY (evy_max_memory e));
  Ok (mkEviction (default DEFAULT_EVICTION_POLICY (evy_policy e)) max_memory (evy_max_objects e)).

Definition cache_try_from (c : FlameCacheYaml) : result FlameCache :=
  tls ← transpose tls_try_from (cay_tls c);
  gc ← transpose gc_try_from (cay_gc c);
  eviction ← transpose eviction_try_from (cay_eviction c);
  Ok (mkCache (default DEFAULT_FLAME_CACHE_ENDPOINT (cay_endpoint c)) (non_empty (cay_advertise c)) (cay_storage c)
        (default eviction_default eviction) (default DEFAULT_CACHE_GC_INTERVAL gc) tls (pprof_from <$> cay_pprof c)).

Definition context_try_from (c : FlameClusterContextYaml) : result FlameClusterContext :=
  cluster ← cluster_try_from (cxy_cluster c);
  cache ← transpose cache_try_from (cxy_cache c);
  Ok (mkContext cluster cache).

(** The files: whether a path is one, and its text. *)
Definition config_path (home : string) (fp : option string) : string :=
  default (home +:+ "/.flame/" +:+ DEFAULT_FLAME_CONF) fp.

Definition from_file (home : string) (is_file : string -> bool) (read_to_string : string -> option string)
    (fp : option string) : result FlameClusterContext :=
  let fp := config_path home fp in
  if negb (is_file fp) then Err EInvalidConfig
  else
    contents ← ok_or (read_to_string fp) EInternal;
    ctx ← ok_or (from_yaml contents) EInternal;
    context_try_from ctx.

Definition cluster_requires_tls (c : FlameCluster) : bool := bool_decide (is_Some (strip_prefix "https://" (fc_endpoint c))).
Definition cache_requires_tls (c : FlameCache) : bool := bool_decide (is_Some (strip_prefix "grpcs://" (fa_endpoint c))).
End config.

(** ** The checks *)







Section checked.
Context `{Unicode} `{!UnicodeSpec} `{ConfigLibs} `{!ConfigLibsSpec}.

(** *** Trimmed text *)











(** *** The grammar of sizes and requirements *)







(** *** The parsers read it *)


Lemma split_at_app d u : split_at (String.length d) (d +:+ u) = (d, u).
Proof.
  induction d as [|a d IH]; [by destruct u|]. change (String a d +:+ u) with (String a (d +:+ u)).
  cbn [split_at String.length]. by rewrite IH.
Qed.








Lemma split_once_app c k v : lacks c k = true -> split_once c (k +:+ String c v) = Some (k, v).
Proof.
  unfold lacks. induction k as [|a k IH]; intros Hk.
  - change (EmptyString +:+ ?x) with x. cbn [split_once]. by rewrite Ascii.eqb_refl.
  - revert Hk. cbn [string_forall]. intros [Ha Hk]%andb_true_iff. apply negb_true_iff in Ha.
    change (String a k +:+ ?x) with (String a (k +:+ x)). cbn [split_once]. by rewrite Ha, IH.
Qed.


Lemma lacks_contains c s : contains_char c s = negb (lacks c s).
Proof.
  unfold lacks, contains_char. f_equal. induction s as [|a s IH]; [done|]. simpl. by rewrite IH, (Ascii.eqb_sym a c).
Qed.




















(** ** They are what the code checks *)

Definition shim_name (s : Shim) : string :=
  match s with ShimHost => "host" | ShimWasm => "wasm" | ShimCri => "cri" end.

Instance shim_name_inj : Inj (=) (=) shim_name.
Proof. by intros [] []. Qed.

















End checked.

(** ** Sizes as text *)

Section text.
Context `{Unicode} `{!UnicodeSpec} `{ConfigLibs} `{!ConfigLibsSpec}.

(** The units a size may have, with what they stand for; their letters may be of
    either case. *)
Definition sizes : list (string * Z) :=
  [("k", 2 ^ 10); ("ki", 2 ^ 10); ("kb", 2 ^ 10); ("kib", 2 ^ 10); ("m", 2 ^ 20); ("mi", 2 ^ 20); ("mb", 2 ^ 20); ("mib", 2 ^ 20);
   ("g", 2 ^ 30); ("gi", 2 ^ 30); ("gb", 2 ^ 30); ("gib", 2 ^ 30); ("t", 2 ^ 40); ("ti", 2 ^ 40); ("tb", 2 ^ 40); ("tib", 2 ^ 40);
   ("p", 2 ^ 50); ("pi", 2 ^ 50); ("pb", 2 ^ 50); ("pib", 2 ^ 50)]%string.

Fixpoint spellings (s : string) : list string :=
  match s with
  | EmptyString => [EmptyString]
  | String c s => l ← spellings s; [String c l; to_ascii_uppercase (String c EmptyString) +:+ l]
  end.

Definition units : list (string * Z) := '(u, m) ← sizes; (fun s => (s, m)) <$> spellings u.

(** ASCII without white space. *)
Definition plain (s : string) : bool := string_forall (fun c => is_ascii c && negb (space1 c)) s.

Lemma plain_app s s' : plain (s +:+ s') = plain s && plain s'.
Proof. apply string_forall_app. Qed.

Lemma plain_ascii s : plain s = true -> string_forall is_ascii s = true.
Proof. apply string_forall_impl. intros c [? _]%andb_true_iff. done. Qed.

Lemma plain_digits s : string_forall is_digit s = true -> plain s = true.
Proof.
  apply string_forall_impl. intros [[] [] [] [] [] [] [] []]; vm_compute; congruence.
Qed.

Lemma trim_start_plain l : Forall (fun c => is_ascii c && negb (space1 c) = true) l -> trim_start l = l.
Proof.
  destruct 1 as [|a l Ha Hl]; [done|]. apply andb_true_iff in Ha as [Ha1 Ha2]. apply negb_true_iff in Ha2.
  unfold is_ascii in Ha1. apply Nat.ltb_lt in Ha1. simpl. rewrite Ha2. destruct l as [|b l]; [done|].
  assert (space2 a b = false) as -> by (unfold space2; rewrite (proj2 (Nat.eqb_neq _ _)) by lia; done).
  destruct l as [|c l]; [done|]. unfold space3. by rewrite !(proj2 (Nat.eqb_neq (nat_of_ascii a) _)) by lia.
Qed.

Lemma trim_back_plain l : Forall (fun c => is_ascii c && negb (space1 c) = true) l -> trim_back l = l.
Proof.
  destruct 1 as [|a l Ha Hl]; [done|]. apply andb_true_iff in Ha as [_ Ha2]. apply negb_true_iff in Ha2.
  simpl. rewrite Ha2. destruct Hl as [|b l Hb Hl]; [done|]. apply andb_true_iff in Hb as [Hb _].
  unfold is_ascii in Hb. apply Nat.ltb_lt in Hb.
  assert (space2 b a = false) as -> by (unfold space2; rewrite (proj2 (Nat.eqb_neq _ _)) by lia; done).
  destruct Hl as [|c l Hc Hl]; [done|]. apply andb_true_iff in Hc as [Hc _]. unfold is_ascii in Hc. apply Nat.ltb_lt in Hc.
  unfold space3. by rewrite !(proj2 (Nat.eqb_neq (nat_of_ascii c) _)) by lia.
Qed.

Lemma plain_bytes s : plain s = true -> Forall (fun c => is_ascii c && negb (space1 c) = true) (String.list_ascii_of_string s).
Proof. induction s as [|a s IH]; [constructor|]. intros [Ha Hs]%andb_true_iff. constructor; [done|by apply IH]. Qed.

Lemma trim_plain s : plain s = true -> trim s = s.
Proof.
  intros Hs%plain_bytes. unfold trim. rewrite trim_start_plain by done.
  rewrite trim_back_plain by (by apply Forall_reverse). rewrite reverse_involutive.
  apply String.string_of_list_ascii_of_string.
Qed.

Lemma lowercase_app s s' : to_ascii_lowercase (s +:+ s') = to_ascii_lowercase s +:+ to_ascii_lowercase s'.
Proof. induction s as [|a s IH]; [done|]. unfold to_ascii_lowercase in *. cbn. apply (f_equal (String _)), IH. Qed.

Lemma lowercase_digits s : string_forall is_digit s = true -> to_ascii_lowercase s = s.
Proof.
  induction s as [|a s IH]; [done|]. cbn [string_forall]. intros [Ha Hs]%andb_true_iff. specialize (IH Hs).
  change (to_ascii_lowercase (String a s)) with (to_ascii_lowercase (String a EmptyString) +:+ to_ascii_lowercase s).
  rewrite IH. apply (f_equal (fun x => x +:+ s) (y := String a EmptyString)). revert Ha. clear.
  destruct a as [[] [] [] [] [] [] [] []]; vm_compute; congruence.
Qed.

Definition starts_letter (s : string) : bool := match s with String c _ => negb (is_digit c) | EmptyString => false end.

(** A suffix that does not start with a digit is looked for after the digits. *)
Lemma strip_suffix_digits suf d u : string_forall is_digit d = true ->
  starts_letter suf = true ->
  strip_suffix suf (d +:+ u) = String.append d <$> strip_suffix suf u.
Proof.
  intros Hd Hsuf. induction d as [|a d IH].
  { change (EmptyString +:+ u) with u. by destruct (strip_suffix suf u). }
  revert Hd. cbn [string_forall]. intros [Ha Hd]%andb_true_iff.
  change (String a d +:+ u) with (String a (d +:+ u)). rewrite strip_suffix_eq, bool_decide_eq_false_2.
  - rewrite IH by done. by destruct (strip_suffix suf u).
  - destruct suf as [|c suf]; [done|]. intros [= -> _]. simpl in Hsuf. by rewrite Ha in Hsuf.
Qed.

Lemma with_multiplier_digits l d u : string_forall is_digit d = true ->
  Forall (fun sm : string * Z => starts_letter sm.1 = true) l ->
  client.with_multiplier l (d +:+ u) = (d +:+ (client.with_multiplier l u).1, (client.with_multiplier l u).2).
Proof.
  intros Hd. induction 1 as [|[suf m] l Hs _ IH]; [done|]. cbn [client.with_multiplier].
  rewrite strip_suffix_digits by done. destruct (strip_suffix suf u); [done|]. apply IH.
Qed.

(** What holds of each of the units. *)
Definition unit_ok (um : string * Z) : bool :=
  plain um.1 && lacks "=" um.1 && lacks "," um.1 &&
  bool_decide (find_ascii_alphabetic um.1 = Some 0%nat) &&
  bool_decide ((binary_unit (to_ascii_uppercase um.1) um.1, um.2) ∈ IEC) &&
  bool_decide (client.with_multiplier client.memory_suffixes (to_ascii_lowercase um.1) = (EmptyString, um.2)).

Lemma units_ok u m : (u, m) ∈ units -> unit_ok (u, m) = true.
Proof.
  assert (Hall : Forall (fun um => unit_ok um = true) units) by (apply (bool_decide_unpack _); by vm_compute).
  intros Hu. rewrite list.Forall_forall in Hall. by apply Hall.
Qed.

Lemma pretty_not_empty n u : is_u64 n -> String.eqb (pretty n +:+ u) EmptyString = false.
Proof.
  intros Hn. apply String.eqb_neq. pose proof (parse_u64_pretty n Hn). by destruct (pretty n).
Qed.

Lemma client_memory n u m : 0 <= n < 2 ^ 53 -> (u, m) ∈ units -> n * m <= u64_max -> 0 <= n * m ->
  client.parse_memory_result (pretty n +:+ u) = Ok (n * m).
Proof.
  intros Hn Hu Hm Hp. pose proof (units_ok u m Hu) as Hok. unfold unit_ok in Hok. rewrite !andb_true_iff in Hok.
  destruct Hok as [[[[[Hpl _] _] _] _] Hw%bool_decide_eq_true]. cbn [fst snd] in *.
  pose proof (pretty_digits n ltac:(lia)) as Hd. unfold client.parse_memory_result.
  rewrite trim_plain by (rewrite plain_app, plain_digits, Hpl by done; done).
  rewrite pretty_not_empty by width.
  rewrite lowercase_app, lowercase_digits, with_multiplier_digits, Hw by (done || apply (bool_decide_unpack _); by vm_compute).
  cbn [fst snd]. rewrite string_app_nil, parse_u64_pretty by width. cbn [ok_or mbind result_bind]. by rewrite wrap_u64_small by width.
Qed.

Lemma find_ascii_digits d u : string_forall is_digit d = true -> find_ascii_alphabetic u = Some 0%nat ->
  find_ascii_alphabetic (d +:+ u) = Some (String.length d).
Proof.
  intros Hd Hu. induction d as [|a d IH]; [done|]. revert Hd. cbn [string_forall]. intros [Ha Hd]%andb_true_iff.
  change (String a d +:+ u) with (String a (d +:+ u)). cbn [find_ascii_alphabetic String.length]. rewrite IH by done.
  assert (is_ascii_alphabetic a = false) as -> by (revert Ha; clear; destruct a as [[] [] [] [] [] [] [] []]; vm_compute; congruence).
  done.
Qed.

Lemma server_memory n u m : 0 <= n < 2 ^ 53 -> (u, m) ∈ units -> n * m <= u64_max ->
  parse_memory_size (pretty n +:+ u) = Ok (n * m).
Proof.
  intros Hn Hu Hm. pose proof (units_ok u m Hu) as Hok. unfold unit_ok in Hok. rewrite !andb_true_iff in Hok.
  destruct Hok as [[[[[Hpl _] _] Hf%bool_decide_eq_true] Hb%bool_decide_eq_true] _]. cbn [fst snd] in *.
  pose proof (pretty_digits n ltac:(lia)) as Hd.
  assert (Hp : plain (pretty n +:+ u) = true) by (by rewrite plain_app, plain_digits, Hpl).
  unfold parse_memory_size, convert_to_binary_units. rewrite !trim_plain, pretty_not_empty by (done || width).
  rewrite find_alphabetic_ascii, find_ascii_digits by (done || by apply plain_ascii).
  change (default ?a (Some ?b)) with b.
  rewrite split_at_app, to_uppercase_ascii by (by apply plain_ascii).
  by rewrite (parse_byte_size_iec n _ m).
Qed.

(** An entry without white space. *)
Lemma parse_entry_text memory k v r : plain k = true -> plain v = true -> lacks "=" k = true -> lacks "=" v = true ->
  v <> EmptyString ->
  parse_entry memory (k +:+ String "=" v) r =
    (if String.eqb (to_ascii_lowercase k) "cpu" then
       cpu ← ok_or (parse_u64 v) EInvalidConfig; Ok (mkRR cpu (rr_memory r) (rr_gpu r))
     else if String.eqb (to_ascii_lowercase k) "memory" || String.eqb (to_ascii_lowercase k) "mem" then
       memory ← memory v; Ok (mkRR (rr_cpu r) memory (rr_gpu r))
     else if String.eqb (to_ascii_lowercase k) "gpu" then
       gpu ← ok_or (parse_i32 v) EInvalidConfig; Ok (mkRR (rr_cpu r) (rr_memory r) gpu)
     else Err EInvalidConfig).
Proof.
  intros Hk Hv Hke Hve Hne. unfold parse_entry.
  rewrite trim_plain by (rewrite plain_app, Hk; exact Hv).
  assert (String.eqb (k +:+ String "=" v) EmptyString = false) as -> by (by destruct k).
  rewrite split_once_app by done. cbn [ok_or mbind result_bind fst snd].
  rewrite lacks_contains, Hve, !trim_plain by done. simpl negb. rewrite (proj2 (String.eqb_neq v EmptyString)) by done. done.
Qed.

Lemma pretty_plain z : is_u64 z ->
  plain (pretty z) = true /\ lacks "=" (pretty z) = true /\ lacks "," (pretty z) = true /\ pretty z <> EmptyString.
Proof.
  intros Hz. assert (Hd : string_forall is_digit (pretty z) = true) by (apply pretty_digits; width).
  split_and!; [by apply plain_digits|by apply lacks_digits..|].
  pose proof (parse_u64_pretty z Hz) as Hp. intros E. by rewrite E in Hp.
Qed.

(** A requirement as a client writes it. *)
Definition requirement_text (cpu n : Z) (u : string) (gpu : Z) : string :=
  "cpu" +:+ String "=" (pretty cpu +:+ String "," ("mem" +:+ String "=" ((pretty n +:+ u) +:+ String "," ("gpu" +:+ String "=" (pretty gpu))))).

Lemma requirement_split cpu n u gpu : is_u64 cpu -> is_u64 n -> is_u64 gpu -> lacks "," u = true ->
  split "," (requirement_text cpu n u gpu) =
    ["cpu" +:+ String "=" (pretty cpu); "mem" +:+ String "=" (pretty n +:+ u); "gpu" +:+ String "=" (pretty gpu)]%string.
Proof.
  intros (_ & _ & Hc & _)%pretty_plain (_ & _ & Hn & _)%pretty_plain (_ & _ & Hg & _)%pretty_plain Hu.
  unfold requirement_text. change ("cpu" +:+ String "=" (?x +:+ ?y)) with (("cpu" +:+ String "=" x) +:+ y).
  rewrite split_app by exact Hc. f_equal. change ("mem" +:+ String "=" (?x +:+ ?y)) with (("mem" +:+ String "=" x) +:+ y).
  assert (Hx : lacks "," ("mem" +:+ String "=" (pretty n +:+ u)) = true).
  { change (lacks "," (pretty n +:+ u) = true). unfold lacks. rewrite string_forall_app. by apply andb_true_iff. }
  rewrite split_app by exact Hx. f_equal. by apply split_lacks.
Qed.

Lemma requirement_plain cpu n u gpu : is_u64 cpu -> is_u64 n -> is_u64 gpu -> plain u = true ->
  plain (requirement_text cpu n u gpu) = true.
Proof.
  intros (Hc & _)%pretty_plain (Hn & _)%pretty_plain (Hg & _)%pretty_plain Hu. unfold requirement_text.
  change (plain (pretty cpu +:+ String "," ("mem" +:+ String "=" ((pretty n +:+ u) +:+ String "," ("gpu" +:+ String "=" (pretty gpu))))) = true).
  rewrite plain_app, Hc. change (plain ((pretty n +:+ u) +:+ String "," ("gpu" +:+ String "=" (pretty gpu))) = true).
  rewrite !plain_app, Hn, Hu. exact Hg.
Qed.

Lemma parse_requirement_text memory cpu n u gpu k : is_u64 cpu -> is_u64 n -> 0 <= gpu <= i32_max ->
  plain u = true -> lacks "=" u = true -> lacks "," u = true -> memory (pretty n +:+ u) = Ok k ->
  parse_requirement memory (requirement_text cpu n u gpu) = Ok (mkRR cpu k gpu).
Proof.
  intros Hc Hn Hg Hu1 Hu2 Hu3 Hm. assert (Hg' : is_u64 gpu) by width.
  pose proof (requirement_plain cpu n u gpu Hc Hn Hg' Hu1) as Hp. pose proof (requirement_split cpu n u gpu Hc Hn Hg' Hu3) as Hs.
  destruct (pretty_plain cpu Hc) as (? & ? & _ & ?). destruct (pretty_plain n Hn) as (Hn1 & ? & _ & ?).
  destruct (pretty_plain gpu Hg') as (? & ? & _ & ?).
  unfold parse_requirement. rewrite trim_plain by done. change (String.eqb (requirement_text cpu n u gpu) EmptyString) with false.
  cbv iota. rewrite Hs. cbn [parse_entries].
  rewrite parse_entry_text by done. change (String.eqb _ "cpu") with true. cbv iota.
  rewrite parse_u64_pretty by done. cbn [ok_or mbind result_bind].
  rewrite parse_entry_text; [|done|by rewrite plain_app, Hn1|done| |].
  - change (String.eqb _ "cpu") with false. change (_ || _) with true. cbv iota. rewrite Hm. cbn [mbind result_bind rr_cpu rr_memory rr_gpu].
    rewrite parse_entry_text by done. change (String.eqb _ "cpu") with false. change (_ || _) with false.
    change (String.eqb _ "gpu") with true. cbv iota. unfold parse_i32. rewrite parse_int_pretty by width. done.
  - unfold lacks. rewrite string_forall_app. by apply andb_true_iff.
  - by destruct (pretty n).
Qed.
End text.

(** ** A reader of sizes *)

Module ConfigDemo.

#[export] Instance ascii_only : Unicode := {
  find_alphabetic := find_ascii_alphabetic;
  to_uppercase := to_ascii_uppercase;
  to_lowercase := to_ascii_lowercase
}.

#[export] Instance ascii_only_spec : UnicodeSpec.
Proof.
  split; [|done..]. induction s as [|c s IH]; intros n; [done|]. simpl. destruct (is_ascii_alphabetic c); [intros [= <-]; lia|].
  destruct (find_ascii_alphabetic s) as [k|] eqn:Hk; [|done]. intros [= <-]. specialize (IH k Hk). lia.
Qed.

Definition iec_size (s : string) : option Z :=
  let '(d, u) := split_at (default (String.length s) (find_ascii_alphabetic s)) s in
  n ← parse_u64 d;
  m ← snd <$> find (fun um => String.eqb u um.1) IEC;
  if n * m <=? u64_max then Some (n * m) else None.

#[export] Instance libs : ConfigLibs := {
  parse_byte_size := iec_size;
  parse_duration s := parse_u64 s;
  from_yaml _ := None
}.

#[export] Instance libs_spec : ConfigLibsSpec.
Proof.
  split.
  - intros s n. simpl. unfold iec_size. destruct (split_at _ s) as [d u].
    destruct (parse_u64 d) as [z|] eqn:Hz; [|done]. cbn [mbind option_bind].
    destruct (find _ IEC) as [[u' m]|] eqn:Hf; [|done]. cbn [mbind option_bind fmap option_fmap option_map snd].
    destruct (Z.leb_spec (z * m) u64_max); [|done]. intros [= <-]. apply parse_int_range in Hz.
    apply find_some in Hf as [Hin _]. apply list_elem_of_In in Hin. pose proof (IEC_nonneg _ _ Hin).
    split; [apply Z.mul_nonneg_nonneg; lia|done].
  - intros n u m Hn Hu Hm. simpl. unfold iec_size. assert (Hf : find_ascii_alphabetic u = Some 0%nat).
    { unfold IEC in Hu. set_unfold. naive_solver. }
    rewrite find_ascii_digits by (done || apply pretty_digits; lia). change (default ?a (Some ?b)) with b.
    rewrite split_at_app, parse_u64_pretty by width. cbn [mbind option_bind].
    assert (find (fun um => String.eqb u um.1) IEC = Some (u, m)) as -> by (unfold IEC in *; set_unfold; naive_solver).
    cbn [mbind option_bind fmap option_fmap option_map snd]. by rewrite (proj2 (Z.leb_le _ _)).
Qed.
End ConfigDemo.

(** ** Properties *)


(** C21 A requirement written as CPUs, memory and GPUs, the memory a whole number
    below 2^53 with a unit of either letter case that stands for a power of 1024,
    and not more than 64 bits hold, is read the same by the client's library and
    by the server, as what it says.  Of other texts the two may differ: only the
    server reads fractions, and only the client wraps around. *)
Theorem requirement_read_alike `{Unicode} `{!UnicodeSpec} `{ConfigLibs} `{!ConfigLibsSpec} cpu n u m gpu :
  is_u64 cpu -> 0 <= n < 2 ^ 53 -> (u, m) ∈ units -> n * m <= u64_max -> 0 <= gpu <= i32_max ->
  client.parse (requirement_text cpu n u gpu) = Ok (mkRR cpu (n * m) gpu) /\
  parse (requirement_text cpu n u gpu) = Ok (mkRR cpu (n * m) gpu).
Proof.
  intros Hc Hn Hu Hm Hg. pose proof (units_ok u m Hu) as Hok. unfold unit_ok in Hok. rewrite !andb_true_iff in Hok.
  destruct Hok as [[[[[? ?] ?] _] Hb%bool_decide_eq_true] _]. cbn [fst snd] in *.
  pose proof (IEC_nonneg _ _ Hb). assert (0 <= n * m) by (apply Z.mul_nonneg_nonneg; lia).
  split; apply parse_requirement_text; try done; try width; [by apply client_memory|by apply server_memory].
Qed.


Import ConfigDemo.


Lemma requirement_read_alike_witness :
  client.parse "cpu=2,mem=512Mi,gpu=1" = Ok (mkRR 2 (512 * 2 ^ 20) 1) /\ parse "cpu=2,mem=512Mi,gpu=1" = Ok (mkRR 2 (512 * 2 ^ 20) 1).
Proof.
  apply (requirement_read_alike 2 512 "Mi" (2 ^ 20) 1); [width|lia| |width|width].
  apply (bool_decide_unpack _). vm_compute. exact I.
Defined.
