(* ===== verification/Waiting.v ===== *)
(** * Clients that wait, with the server they wait for

    The waiters of a client ([ClientWatch]) and the watch of the API server
    ([Watch]) composed: the requests of the client's stream are taken by the
    server's watch in their order, and the messages of the watch are the items
    of the stream.  A stream may break at any time, and items of streams that
    were replaced may still arrive; a new stream is a new watch. *)
From stdpp Require Import pretty.
From S2P Require Import Prelude Text Types Session Snapshot Events Codes Rpc Frontend Requests Watch ClientWatch ClientTypes.
Local Open Scope Z_scope.

(** ** Tasks on the wire *)

Section wire.
Context `{Env} `{Chrono}.

Definition client_task (t : Task) : sdk.Task :=
  sdk.mkTask (pretty (task_id t)) (task_ssn_id t) (task_state t) (task_input t) (task_output t)
    (task_affinity t) (event_on_wire <$> task_events t).

Lemma task_read_back t : sdk.task_try_from (task_to t) = Ok (client_task t).
Proof.
  unfold sdk.task_try_from, task_to. simpl. rewrite events_roundtrip. simpl.
  by rewrite task_state_code_inv, hs_iter_roundtrip.
Qed.
End wire.

(** ** The joint system *)

Record joint (O C : Type) := mkJoint {
  jn_client : Client O C;
  jn_rest : Rest;
  jn_watch : option (Feed * Watcher * nat)
}.
Arguments mkJoint {O C}.
Arguments jn_client {O C}.
Arguments jn_rest {O C}.
Arguments jn_watch {O C}.

Inductive joint_event :=
  | JClient (ev : client_event)
  | JRest (ev : watch_event)
  | JWatch (ev : watch_event)
  | JTake
  | JDeliver.

(** Tasks are stored under their identifiers. *)
Definition rest_event_ok (ev : watch_event) : bool :=
  match ev with
  | Changes id t | Requeues id t => task_id t =? id
  | Closes m => bool_decide (map_Forall (fun id t => task_id t = id) m)
  | _ => true
  end.

Definition is_request (ev : watch_event) : bool := match ev with Request _ _ => true | _ => false end.

Section joint.
Context `{Env} `{Chrono} {O C : Type} `{sdk.Outputs O} `{WatchChan update C}.
Abbreviation J := (joint O C).
Abbreviation current c := (ws_stream (mg_state (cl_manager c))).

Definition new_feed : Feed := mkFeed [] false false.

(** The current stream is read and its requests are taken by its watch. *)
Definition from_elsewhere (ev : client_event) (c : Client O C) : bool :=
  match ev with Item sid (inl _) | Taken sid => bool_decide (current c <> Some sid) | _ => true end.

(** The server takes a request: the first one of a stream starts its watch; an
    identifier that is no number ends the stream with an error. *)
Definition take_request (id : string) (r : Rest) (x : option (Feed * Watcher * nat))
    : option (option (Feed * Watcher * nat)) :=
  match x with
  | None => Some ((fun z => (new_feed, register_task z (mkWatcher ∅ false ∅ Waits []), 0%nat)) <$> parse_i64 id)
  | Some (f, w, n) => (fun fw => Some (fw, n)) <$> watch_step (Request true (parse_i64 id)) r f w
  end.

Definition joint_apply (ev : joint_event) (j : J) : option J :=
  let c := jn_client j in
  match ev with
  | JClient ev =>
      if from_elsewhere ev c then
        c' ← client_apply ev c;
        Some (mkJoint c' (jn_rest j) (if decide (current c' = current c) then jn_watch j else None))
      else None
  | JRest ev =>
      if rest_event_ok ev then
        match jn_watch j with
        | Some (f, w, n) => '(r, f) ← rest_step ev (jn_rest j) f; Some (mkJoint c r (Some (f, w, n)))
        | None => '(r, _) ← rest_step ev (jn_rest j) new_feed; Some (mkJoint c r None)
        end
      else None
  | JWatch ev =>
      if is_request ev then None
      else
        '(f, w, n) ← jn_watch j;
        '(f, w) ← watch_step ev (jn_rest j) f w;
        Some (mkJoint c (jn_rest j) (Some (f, w, n)))
  | JTake =>
      sid ← current c;
      match status_of sid c, requests_of sid c with
      | Running, id :: q =>
          x ← take_request id (jn_rest j) (jn_watch j);
          match x with
          | Some _ => c' ← client_apply (Taken sid) c; Some (mkJoint c' (jn_rest j) x)
          | None => c' ← client_apply (Item sid (inr ENetwork)) c; Some (mkJoint c' (jn_rest j) None)
          end
      | _, _ => None
      end
  | JDeliver =>
      sid ← current c;
      '(f, w, n) ← jn_watch j;
      m ← wt_sent w !! n;
      c' ← client_apply (Item sid (inl (task_to m.2))) c;
      Some (mkJoint c' (jn_rest j) (Some (f, w, S n)))
  end.

Definition joint_start (r : Rest) : J := mkJoint new_client r None.

Definition rest_ok (r : Rest) : Prop :=
  forall m, rs_tasks r = Some m -> map_Forall (fun id t => task_id t = id) m.

Inductive joint_reach (r : Rest) : J -> Prop :=
  | jr_start : joint_reach r (joint_start r)
  | jr_step ev x y : joint_reach r x -> joint_apply ev x = Some y -> joint_reach r y.
End joint.

(** ** What the client's steps leave as it is *)

Section frame.
Context `{Env} `{Chrono} {O C : Type} `{sdk.Outputs O} `{WatchChanSpec update C}.
Abbreviation Cl := (Client O C).
Abbreviation current c := (ws_stream (mg_state (cl_manager c))).
Abbreviation watcher c := (ws_task_watcher (mg_state (cl_manager c))).

(** A waiter whose task is registered, for the stream [sid] that is read. *)
Definition open_waiter (c : Cl) (id : string) (ch r sid : nat) (w : Waiter O) : Prop :=
  wa_task w = id /\ wa_pc w = Awaits ch r /\ watcher c !! id = Some ch /\
  current c = Some sid /\ status_of sid c = Running.

Lemma open_waiter_frame c c' id ch r sid w w' :
  same_stream (cl_manager c) (cl_manager c') -> waiter_ok (cl_log c) (cl_manager c) w ->
  mg_streams (cl_manager c') = mg_streams (cl_manager c) ->
  wa_pc w = Awaits ch r -> wa_task w = id ->
  open_waiter c' id ch r sid w' -> open_waiter c id ch r sid w.
Proof.
  intros Hss Hok Hst Hpc Hid (_ & _ & Ho & Hcur & Hrun).
  destruct (wo_waits _ _ _ Hok ch r) as (cc & Hcc & _); [unfold handle; by rewrite Hpc|].
  destruct (Hss id ch Ho) as [? Hcur']; [by exists cc|]. unfold status_of in *. rewrite Hst in Hrun.
  split_and!; [done..| |done]. congruence.
Qed.

(** A step of the client leaves its open waiters and the requests of their
    stream, adds a request for a new one, or takes a request. *)
Definition waits_before (c c' : Cl) (i : nat) (id : string) (ch r sid : nat) : Prop :=
  (exists w, cl_waiters c !! i = Some w /\ open_waiter c id ch r sid w /\
     requests_of sid c ⊆ requests_of sid c') \/ id ∈ requests_of sid c'.

Lemma register_frame c c' i0 i id ch r sid w :
  client_inv c -> client_apply (Register i0) c = Some c' -> cl_waiters c' !! i = Some w ->
  open_waiter c' id ch r sid w -> waits_before c c' i id ch r sid.
Proof.
  intros Hc Hs Hi How. simpl in Hs. destruct (cl_waiters c !! i0) as [w0|] eqn:Hi0; [|done]. simpl in Hs.
  destruct (wa_pc w0) eqn:Hpc; try done.
  destruct (register_waiter (wa_task w0) (cl_manager c)) as [[[ch0 r0] m1]|] eqn:Hreg; [|done]. simpl in Hs.
  destruct (register_stream m1) as [sid0 m2] eqn:Hrs. injection Hs as <-. simpl in Hi.
  apply lookup_insert_Some in Hi as [[_ <-]|[_ Hi]]; [by destruct How as (_ & ? & _)|].
  pose proof (ci_manager c Hc) as Hm.
  pose proof (register_same_stream _ _ _ _ _ _ _ _ Hm Hreg Hrs) as Hss.
  destruct How as (Hid & Hpcw & Ho & Hcur & Hrun). simpl in *.
  destruct (wo_waits _ _ _ (ci_waiters c Hc i w Hi) ch r) as (cc & Hcc & _); [unfold handle; by rewrite Hpcw|].
  destruct (Hss id ch Ho) as [Ho' Hcur']; [by exists cc|].
  destruct (register_waiter_ok _ _ _ _ _ _ (mi_base _ _ Hm) Hreg) as (_ & _ & Hst & Hws & _ & _).
  assert (m2 = m1) as ->.
  { unfold register_stream in Hrs. rewrite Hws, <- Hcur', Hcur in Hrs. by injection Hrs. }
  left. exists w. unfold open_waiter, status_of, requests_of in *. simpl in *. rewrite Hst in *.
  split_and!; try done. congruence.
Qed.

(** The steps of waiters after their registration. *)
Lemma send_request_frame c c' i0 sent i id ch r sid w :
  client_inv c -> client_apply (SendRequest i0 sent) c = Some c' -> cl_waiters c' !! i = Some w ->
  open_waiter c' id ch r sid w -> waits_before c c' i id ch r sid.
Proof.
  intros Hc Hs Hi How. simpl in Hs. destruct (cl_waiters c !! i0) as [w0|] eqn:Hi0; [|done]. simpl in Hs.
  destruct (wa_pc w0) as [|sid0 ch0 r0| |] eqn:Hpc; try (by destruct sent). destruct sent; simpl in Hs.
  - injection Hs as <-. simpl in Hi. destruct How as (Hid & Hpcw & Ho & Hcur & Hrun). simpl in *.
    assert (Hreq : requests_of sid (put_waiter i0 (wa_step (Awaits ch0 r0) [] w0)
        (request sid0 (wa_task w0) (cl_manager c)) c) =
      requests_of sid c ++ (if decide (sid = sid0) then [wa_task w0] else []) /\
      (status_of sid c = Running)).
    { unfold requests_of, status_of in *. simpl in *. destruct (decide (sid = sid0)) as [->|Hne].
      - rewrite lookup_alter_eq in *. by destruct (mg_streams (cl_manager c) !! sid0).
      - rewrite lookup_alter_ne in * by done. by rewrite app_nil_r. }
    destruct Hreq as [Hreq Hrun']. apply lookup_insert_Some in Hi as [[<- <-]|[_ Hi]].
    + right. rewrite Hreq. injection Hpcw as <- <-. simpl in Hid. subst id.
      rewrite (wo_request _ _ _ (ci_waiters c Hc i0 w0 Hi0) sid0 ch0 r0 Hpc Ho) in Hcur. injection Hcur as <-.
      rewrite decide_True by done. apply elem_of_app. right. by apply list_elem_of_singleton.
    + left. exists w. split_and!; [done|by unfold open_waiter|]. rewrite Hreq. set_solver.
  - destruct (register_failed (wa_kind w0)) as [calls x]. injection Hs as <-. simpl in Hi.
    apply lookup_insert_Some in Hi as [[<- <-]|[_ Hi]]; [by destruct How as (_ & ? & _)|].
    left. exists w. split_and!; [done| |done]. apply (open_waiter_frame c _ id ch r sid w w) in How; try done.
    + by apply (ci_waiters c Hc i).
    + by destruct How as (_ & ? & _).
    + by destruct How as (? & _).
Qed.

Lemma poll_frame c c' i0 i id ch r sid w :
  client_inv c -> client_apply (Poll i0) c = Some c' -> cl_waiters c' !! i = Some w ->
  open_waiter c' id ch r sid w -> waits_before c c' i id ch r sid.
Proof.
  intros Hc Hs Hi How. simpl in Hs. destruct (cl_waiters c !! i0) as [w0|] eqn:Hi0; [|done]. simpl in Hs.
  destruct (wa_pc w0) as [| |ch0 r0|] eqn:Hpc; try done.
  destruct (next_watch_update ch0 r0 (cl_manager c)) as [[u m1]|] eqn:Hnext; [|done]. simpl in Hs.
  assert (mg_state m1 = mg_state (cl_manager c) /\ mg_streams m1 = mg_streams (cl_manager c)) as [Hst Hsk].
  { unfold next_watch_update in Hnext. destruct (mg_channels _ !! ch0); [|done]. simpl in Hnext.
    by destruct (wc_next r0 c0) as [[]]; simplify_eq. }
  destruct How as (Hid & Hpcw & Ho & Hcur & Hrun). left.
  destruct (wait_next (wa_kind w0) u) as [calls [x|]]; injection Hs as <-; simpl in *;
    unfold status_of, requests_of in *; simpl in *; rewrite ?Hst, ?Hsk in *;
    apply lookup_insert_Some in Hi as [[<- <-]|[_ Hi]]; try done.
  2: exists w0; injection Hpcw as <- <-.
  1,3: exists w.
  all: split_and!; try done; unfold open_waiter, status_of; by rewrite ?Hsk.
Qed.

Lemma leave_frame c c' i0 i id ch r sid w :
  client_inv c -> client_apply (Leave i0) c = Some c' -> cl_waiters c' !! i = Some w ->
  open_waiter c' id ch r sid w -> waits_before c c' i id ch r sid.
Proof.
  intros Hc Hs Hi How. simpl in Hs. destruct (cl_waiters c !! i0) as [w0|] eqn:Hi0; [|done].
  injection Hs as <-. simpl in Hi. apply lookup_delete_Some in Hi as [_ Hi]. left. exists w.
  destruct How as (Hid & Hpcw & Ho & Hcur & Hrun). unfold open_waiter, status_of, requests_of in *. simpl in *.
  destruct (wa_pc w0); simpl in *; by split_and!.
Qed.

(** The steps of streams. *)
Lemma item_frame c c' sid0 item i id ch r sid w :
  client_inv c -> client_apply (Item sid0 item) c = Some c' -> cl_waiters c' !! i = Some w ->
  open_waiter c' id ch r sid w -> waits_before c c' i id ch r sid.
Proof.
  intros Hc Hs Hi How. simpl in Hs. destruct (status_of sid0 c) eqn:Hrun0; [|done..]. injection Hs as <-. simpl in Hi.
  destruct How as (Hid & Hpcw & Ho & Hcur & Hrun). left. exists w. split; [done|].
  unfold open_waiter, status_of, requests_of in *. simpl in *.
  assert (Hset : forall e, let S := alter (set_status (Finishing e)) sid0 (mg_streams (cl_manager c)) in
    match S !! sid with Some k => sk_status k | None => Gone end = Running -> S !! sid = mg_streams (cl_manager c) !! sid).
  { intros e. simpl. destruct (decide (sid = sid0)) as [->|]; [|by rewrite lookup_alter_ne].
    rewrite lookup_alter_eq. by destruct (mg_streams (cl_manager c) !! sid0). }
  destruct item as [u|e]; simpl in *; [destruct (sdk.task_try_from u) as [t|e|]|]; simpl in *.
  2,4: pose proof (Hset e Hrun) as Heq; rewrite Heq in Hrun |- *; by split_and!.
  2: by split_and!.
  unfold deliver in *. destruct (watcher c !! sdk.t_id t) as [ch0|] eqn:Hch; [|by split_and!].
  destruct (sdk.is_completed t); simpl in *; [|by split_and!].
  apply lookup_delete_Some in Ho as [_ Ho]. by split_and!.
Qed.

Lemma client_frame ev c c' i id ch r sid w :
  client_inv c -> client_apply ev c = Some c' -> ev <> Taken sid -> cl_waiters c' !! i = Some w ->
  open_waiter c' id ch r sid w -> waits_before c c' i id ch r sid.
Proof.
  intros Hc Hs Hne Hi How. destruct ev as [i0 k id0|i0|i0 sent|i0|i0|sid0|sid0 item|sid0|late].
  - simpl in Hs. destruct (cl_waiters c !! i0); [done|]. injection Hs as <-. simpl in Hi.
    apply lookup_insert_Some in Hi as [[_ <-]|[_ Hi]]; [by destruct How as (_ & ? & _)|]. left. by exists w.
  - by eapply register_frame.
  - by eapply send_request_frame.
  - by eapply poll_frame.
  - by eapply leave_frame.
  - simpl in Hs. destruct (requests_of sid0 c) as [|x q]; [done|]. injection Hs as <-. simpl in Hi.
    assert (sid <> sid0) by congruence. destruct How as (Hid & Hpcw & Ho & Hcur & Hrun).
    left. exists w. unfold open_waiter, status_of, requests_of in *. simpl in *.
    rewrite lookup_alter_ne in * by done. by split_and!.
  - by eapply item_frame.
  - destruct How as (_ & _ & _ & Hcur & _). simpl in Hs. destruct (status_of sid0 c); [done| |done].
    injection Hs as <-. done.
  - destruct How as (_ & _ & _ & Hcur & _). simpl in Hs. injection Hs as <-. done.
Qed.
End frame.

(** ** What the watch owes the client *)

(** The watch still looks after the task, or its end is on the way: [n] messages
    were delivered. *)
Definition owed (z : Z) (w : Watcher) (n : nat) : Prop :=
  z ∈ wt_registered w \/ exists t, (z, t) ∈ drop n (msgs w) /\ is_completed t = true.

Definition live (w : Watcher) : Prop := active (wt_pc w) = true \/ wt_pc w = Ended.

(** Messages carry the task they are about. *)
Definition own_ids (w : Watcher) : Prop := forall z t, (z, t) ∈ msgs w -> task_id t = z.

Lemma owed_grows z w w' n l : wt_registered w ⊆ wt_registered w' -> msgs w' = msgs w ++ l ->
  owed z w n -> owed z w' n.
Proof.
  intros Hr Hm [?|(t & Ht & Hc)]; [left; set_solver|right]. exists t. split; [|done]. rewrite Hm, drop_app.
  apply elem_of_app. by left.
Qed.

Lemma read_task_id r id t : rest_ok r -> read_task id r = Some t -> task_id t = id.
Proof.
  unfold read_task. intros Hr. destruct (rs_tasks r) as [m|] eqn:Hm; [|done]. intros Ht. by apply (Hr m Hm id t).
Qed.

Lemma own_ids_snoc w w' id t : own_ids w -> msgs w' = msgs w ++ [(id, t)] -> task_id t = id -> own_ids w'.
Proof.
  intros Ho Hm Ht z t'. rewrite Hm. intros [?|Hz%list_elem_of_singleton]%elem_of_app; [by apply Ho|]. by simplify_eq.
Qed.

(** What one step of the watch keeps. *)
Definition keeps_owed (w w' : Watcher) : Prop :=
  (wt_sent w `prefix_of` wt_sent w') /\ (own_ids w -> own_ids w') /\
  forall z n, (n <= length (wt_sent w))%nat -> live w' -> (live w -> owed z w n) -> owed z w' n.

(** A step that only stops the watch. *)
Lemma stopped_owed w p : p <> Ended -> active p = false -> keeps_owed w (with_pc p w).
Proof.
  intros Hp Ha. assert (Hm : msgs (with_pc p w) = wt_sent w) by (unfold msgs; destruct p; simpl; by rewrite ?app_nil_r).
  split_and!; [done| |].
  - intros Ho z t Hz. rewrite Hm in Hz. apply Ho. unfold msgs. apply elem_of_app. by left.
  - intros z n _ [?|?]; simpl in *; congruence.
Qed.

Lemma same_msgs_owed w w' : live w -> wt_sent w `prefix_of` wt_sent w' -> wt_registered w ⊆ wt_registered w' ->
  msgs w' = msgs w -> keeps_owed w w'.
Proof.
  intros Hl Hp Hr Hm. split_and!; [done|by unfold own_ids; rewrite Hm|].
  intros z n _ _ Ho. apply (owed_grows z w w' n []); [done|by rewrite app_nil_r|auto].
Qed.

Lemma forward_owed r f w w' : rest_ok r -> watch_inv (mkWorld r f w) -> forward_step r w = Some w' -> keeps_owed w w'.
Proof.
  intros Hrest Hi Hs. unfold forward_step in Hs.
  destruct (wt_pc w) as [|[|id l] a|id l a|id t l a| | |] eqn:Hpc; try done.
  - destruct a; injection Hs as <-; [|by apply stopped_owed].
    apply same_msgs_owed; [left; by rewrite Hpc|done|done|]. unfold msgs. simpl. by rewrite Hpc.
  - injection Hs as <-. destruct (read_task id r) as [t|] eqn:Ht; [|by apply stopped_owed].
    destruct (is_completed t).
    + apply same_msgs_owed; [left; by rewrite Hpc|done|done|]. unfold msgs. simpl. by rewrite Hpc.
    + assert (Hm : msgs (with_pc (Sends id t l a) w) = msgs w ++ [(id, t)])
        by (unfold msgs; simpl; by rewrite Hpc, app_nil_r).
      split_and!; [done|by intros Ho; eapply own_ids_snoc; eauto using read_task_id|].
      intros z n _ _ Ho. eapply owed_grows; [|exact Hm|]; [done|]. apply Ho. left. by rewrite Hpc.
  - injection Hs as <-. destruct (read_task id r) as [t|] eqn:Ht; [|by apply stopped_owed].
    set (w1 := with_pc _ _). assert (Hm : msgs w1 = msgs w ++ [(id, t)])
      by (unfold msgs; simpl; by rewrite Hpc, app_nil_r).
    split_and!; [done|by intros Ho; eapply own_ids_snoc; eauto using read_task_id|].
    intros z n Hn _ Ho. specialize (Ho ltac:(left; by rewrite Hpc)). destruct (decide (z = id)) as [->|Hne].
    + right. exists t. split.
      * rewrite Hm. unfold msgs. rewrite Hpc, app_nil_r, drop_app. apply elem_of_app. right.
        replace (n - length (wt_sent w))%nat with 0%nat by lia. by apply list_elem_of_singleton.
      * unfold read_task in Ht. destruct (rs_tasks r) as [m|] eqn:Hmm; [|done]. simpl in Ht.
        pose proof (wi_reload _ Hi id l a m Hpc Hmm) as Hc. by rewrite Ht in Hc.
    + destruct Ho as [?|(t' & Ht' & ?)]; [left; simpl; set_solver|right]. exists t'. split; [|done].
      rewrite Hm, drop_app. apply elem_of_app. by left.
  - injection Hs as <-. apply same_msgs_owed; [left; by rewrite Hpc|simpl; by apply prefix_app_r|done|].
    unfold msgs. simpl. by rewrite Hpc, app_nil_r.
Qed.

Lemma watch_step_owed ev r f w f' w' : rest_ok r -> watch_inv (mkWorld r f w) ->
  watch_step ev r f w = Some (f', w') -> keeps_owed w w'.
Proof.
  intros Hrest Hi Hs. assert (Hwait : wt_pc w = Waits -> live w /\ msgs w = wt_sent w).
  { intros Hpc. split; [left; by rewrite Hpc|]. unfold msgs. by rewrite Hpc, app_nil_r. }
  destruct ev; simpl in Hs; try done.
  - destruct (forward_step r w) as [w1|] eqn:Hf; [|done]. injection Hs as <- <-. by eapply forward_owed.
  - destruct (selects w) eqn:Hsel; [|done]. destruct (wt_requests_closed w); [done|]. injection Hs as <- <-.
    destruct same_session; simpl; [|by apply stopped_owed]. destruct task_id as [id|]; [|by apply stopped_owed].
    destruct (Hwait (selects_waits _ Hsel)) as [Hl Hm]. apply same_msgs_owed; [done|done|simpl; set_solver|].
    rewrite Hm. unfold msgs. simpl. by rewrite app_nil_r.
  - destruct (selects w) eqn:Hsel; [|done]. destruct (negb _); [|done]. injection Hs as <- <-.
    destruct (Hwait (selects_waits _ Hsel)) as [Hl Hm]. by apply same_msgs_owed.
  - destruct (selects w && negb (wt_requests_closed w)); [|done]. injection Hs as <- <-. by apply stopped_owed.
  - destruct (selects w) eqn:Hsel; [|done]. destruct (Hwait (selects_waits _ Hsel)) as [Hl Hm].
    assert (forall l a, keeps_owed w (with_pc (Forwards l a) w)) as Hfw.
    { intros l a. apply same_msgs_owed; [done..|]. rewrite Hm. unfold msgs. simpl. by rewrite app_nil_r. }
    unfold recv_update in Hs. repeat case_match; simplify_eq; try done. by apply same_msgs_owed.
  - destruct (wt_pc w) eqn:Hpc; try done. destruct (loop_done w); [|done]. injection Hs as <- <-.
    destruct (Hwait eq_refl) as [Hl Hm]. apply same_msgs_owed; [done..|]. rewrite Hm. unfold msgs. simpl. by rewrite app_nil_r.
  - destruct (wt_pc w) eqn:Hpc; try done; [destruct (loop_done w); [done|]|]; injection Hs as <- <-; by apply stopped_owed.
Qed.

(** ** The joint invariant *)

Section invariant.
Context `{Env} `{Chrono} {O C : Type} `{sdk.Outputs O} `{WatchChanSpec update C}.
Abbreviation J := (joint O C).
Abbreviation current c := (ws_stream (mg_state (cl_manager c))).
Abbreviation watcher c := (ws_task_watcher (mg_state (cl_manager c))).
Abbreviation i64 z := (- 2 ^ 63 <= z < 2 ^ 63).

Definition watch_ok (r : Rest) (x : option (Feed * Watcher * nat)) : Prop :=
  forall f w n, x = Some (f, w, n) ->
    watch_inv (mkWorld r f w) /\ (n <= length (wt_sent w))%nat /\ own_ids w.

(** The request of an open waiter is on its way, or the watch owes it. *)
Definition waiters_owed (c : Client O C) (x : option (Feed * Watcher * nat)) : Prop :=
  forall i w0 ch r sid z, cl_waiters c !! i = Some w0 -> open_waiter c (pretty z) ch r sid w0 -> i64 z ->
    pretty z ∈ requests_of sid c \/
    exists f w n, x = Some (f, w, n) /\ (live w -> owed z w n).

Record joint_inv (j : J) : Prop := {
  ji_client : client_inv (jn_client j);
  ji_rest : rest_ok (jn_rest j);
  ji_watch : watch_ok (jn_rest j) (jn_watch j);
  ji_owed : waiters_owed (jn_client j) (jn_watch j)
}.

Lemma rest_step_ok ev r f r' f' : rest_event_ok ev = true -> rest_ok r -> rest_step ev r f = Some (r', f') -> rest_ok r'.
Proof.
  intros Hev Hr Hs. destruct ev; simpl in Hs; try done; unfold rest_ok in *.
  - destruct (rs_tasks r) as [m|]; [|done]. destruct (stays_completed _ _); [|done]. injection Hs as <- <-.
    intros m' [= <-]. simpl in Hev. apply map_Forall_insert_2; [lia|by apply Hr].
  - destruct (rs_tasks r) as [m|]; [|done]. destruct (stays_completed _ _); [|done]. injection Hs as <- <-.
    intros m' [= <-]. simpl in Hev. apply map_Forall_insert_2; [lia|by apply Hr].
  - destruct (rs_due r !! i); [|done]. injection Hs as <- _. by apply Hr.
  - simpl in Hev. apply bool_decide_eq_true in Hev. destruct (rs_tasks r) as [m0|].
    + destruct (stays_completed _ _); [|done]. injection Hs as <- <-. by intros m' [= <-].
    + by injection Hs as <- <-.
  - destruct (rs_closing r); [|done]. by injection Hs as <- <-.
  - by injection Hs as <- <-.
Qed.

Lemma joint_client_inv ev j c' : joint_inv j -> from_elsewhere ev (jn_client j) = true ->
  client_apply ev (jn_client j) = Some c' ->
  joint_inv (mkJoint c' (jn_rest j) (if decide (current c' = current (jn_client j)) then jn_watch j else None)).
Proof.
  intros [Hc Hr Hw Ho] Hev Hs. split; simpl; [by eapply client_apply_inv|done|by case_decide|].
  intros i w0 ch r sid z Hi How Hz.
  assert (ev <> Taken sid) as Hne.
  { intros ->. simpl in Hev, Hs. apply bool_decide_eq_true in Hev. destruct (requests_of sid (jn_client j)); [done|].
    injection Hs as <-. by destruct How as (_ & _ & _ & ? & _). }
  destruct (client_frame ev _ c' i _ ch r sid w0 Hc Hs Hne Hi How) as [(w1 & Hi1 & How1 & Hsub)|Hin]; [|by left].
  rewrite decide_True by (destruct How as (_ & _ & _ & -> & _); by destruct How1 as (_ & _ & _ & -> & _)).
  destruct (Ho i w1 ch r sid z Hi1 How1 Hz) as [Hq|Hq]; [left; set_solver|by right].
Qed.

Lemma watch_run_inv ev j f w n f' w' : joint_inv j -> jn_watch j = Some (f, w, n) ->
  watch_step ev (jn_rest j) f w = Some (f', w') ->
  watch_ok (jn_rest j) (Some (f', w', n)) /\ waiters_owed (jn_client j) (Some (f', w', n)).
Proof.
  intros [Hc Hr Hw Ho] Hj Hs. destruct (Hw f w n Hj) as (Hi & Hn & Hown).
  destruct (watch_step_owed _ _ _ _ _ _ Hr Hi Hs) as (Hpre & Hids & Hkeep). split.
  - intros ? ? ? [= <- <- <-]. split_and!; [by eapply watch_step_inv| |auto]. apply prefix_length in Hpre. lia.
  - intros i w0 ch r sid z Hi0 How Hz. destruct (Ho i w0 ch r sid z Hi0 How Hz) as [?|(f1 & w1 & n1 & Heq & Howed)]; [by left|].
    right. rewrite Hj in Heq. injection Heq as <- <- <-. exists f', w', n. split; [done|]. intros Hl. by apply Hkeep.
Qed.

(** Taking a request: what was owed is, and the task of the request is watched. *)
Lemma take_request_ok id r x y : rest_ok r -> watch_ok r x -> take_request id r x = Some (Some y) ->
  watch_ok r (Some y) /\
  (forall z, parse_i64 id = Some z -> z ∈ wt_registered y.1.2 \/ ~ live y.1.2) /\
  (forall f w n, x = Some (f, w, n) -> n = y.2 /\ keeps_owed w y.1.2).
Proof.
  intros Hr Hx. unfold take_request. destruct x as [[[f w] n]|].
  - destruct (Hx f w n eq_refl) as (Hi & Hn & Hown).
    destruct (watch_step (Request true (parse_i64 id)) r f w) as [[f' w']|] eqn:Hs; [|done].
    intros [= <-]. destruct (watch_step_owed _ _ _ _ _ _ Hr Hi Hs) as (Hpre & Hids & Hkeep).
    split_and!.
    + intros ? ? ? [= <- <- <-]. split_and!; [by eapply watch_step_inv| |auto]. apply prefix_length in Hpre. lia.
    + intros z Hz. simpl in Hs. rewrite Hz in Hs. destruct (selects w && _); [|done]. injection Hs as <- <-.
      left. simpl. set_solver.
    + intros ? ? ? [= <- <- <-]. done.
  - destruct (parse_i64 id) as [z|]; [|done]. intros [= <-]. split_and!; [|intros z' [= <-]; left; simpl; set_solver|done].
    intros ? ? ? [= <- <- <-]. split_and!; [apply (watch_start_inv z r)|simpl; lia|].
    by intros z' t ?%elem_of_nil.
Qed.

Lemma joint_take_inv j sid id q y c' : joint_inv j -> current (jn_client j) = Some sid ->
  requests_of sid (jn_client j) = id :: q -> take_request id (jn_rest j) (jn_watch j) = Some (Some y) ->
  client_apply (Taken sid) (jn_client j) = Some c' -> joint_inv (mkJoint c' (jn_rest j) (Some y)).
Proof.
  intros [Hc Hr Hw Ho] Hcur Hq Ht Hs. destruct (take_request_ok _ _ _ _ Hr Hw Ht) as (Hw' & Hreg & Hkeep).
  split; simpl; [by eapply client_apply_inv|done|done|]. simpl in Hs. rewrite Hq in Hs. injection Hs as <-.
  intros i w0 ch r sid0 z Hi How Hz. destruct How as (Hid & Hpc & Hopen & Hcur0 & Hrun). simpl in *.
  assert (sid0 = sid) as -> by congruence.
  assert (Hst : requests_of sid (mkClient (with_streams (alter (fun k => mkStreamTask q (sk_status k)) sid
      (mg_streams (cl_manager (jn_client j)))) (cl_manager (jn_client j))) (cl_waiters (jn_client j)) (cl_log (jn_client j))) = q /\
      status_of sid (jn_client j) = Running).
  { unfold requests_of, status_of in *. simpl in *. rewrite lookup_alter_eq in *.
    by destruct (mg_streams (cl_manager (jn_client j)) !! sid). }
  destruct Hst as [-> Hrun']. destruct y as [[f' w'] n']. simpl in *.
  destruct (Ho i w0 ch r sid z Hi ltac:(by unfold open_waiter) Hz) as [Hin|(f & w & n & Hx & Howed)].
  - rewrite Hq in Hin. apply elem_of_cons in Hin as [<-|?]; [right|by left].
    exists f', w', n'. split; [done|]. intros Hl. left.
    by destruct (Hreg z (parse_i64_pretty z Hz)).
  - right. exists f', w', n'. split; [done|]. intros Hl. destruct (Hkeep f w n Hx) as [-> (_ & _ & Hk)].
    apply Hk; [|done|done]. by destruct (Hw f w n' Hx) as (_ & ? & _).
Qed.

(** A message reaches the waiters of its task. *)
Lemma joint_deliver_inv j sid f w n z t c' : joint_inv j -> current (jn_client j) = Some sid ->
  jn_watch j = Some (f, w, n) -> wt_sent w !! n = Some (z, t) ->
  client_apply (Item sid (inl (task_to t))) (jn_client j) = Some c' ->
  joint_inv (mkJoint c' (jn_rest j) (Some (f, w, S n))).
Proof.
  intros [Hc Hr Hw Ho] Hcur Hj Hm Hs. destruct (Hw f w n Hj) as (Hi & Hn & Hown).
  assert (task_id t = z) as Htz.
  { apply Hown. unfold msgs. apply elem_of_app. left. by apply list_elem_of_lookup_2 in Hm. }
  split; simpl; [by eapply client_apply_inv|done| |].
  { intros ? ? ? [= <- <- <-]. apply lookup_lt_Some in Hm. split_and!; [done|lia|done]. }
  intros i w0 ch r sid0 z0 Hi0 How Hz.
  destruct (client_frame _ _ c' i _ ch r sid0 w0 Hc Hs ltac:(done) Hi0 How) as [(w1 & Hi1 & How1 & Hsub)|Hin]; [|by left].
  destruct (Ho i w1 ch r sid0 z0 Hi1 How1 Hz) as [Hq|(f1 & w2 & n1 & Hx & Howed)]; [left; set_solver|right].
  rewrite Hj in Hx. injection Hx as <- <- <-. subst z. exists f, w, (S n). split; [done|]. intros Hl.
  destruct (Howed Hl) as [?|(t' & Hin & Hcomp)]; [by left|].
  assert (msgs w !! n = Some (task_id t, t)) as Hm' by (unfold msgs; by apply lookup_app_l_Some).
  rewrite (drop_S _ _ _ Hm') in Hin. apply elem_of_cons in Hin as [[= -> ->]|Hin]; [exfalso|right; eauto].
  destruct How as (_ & _ & Hopen & _). simpl in Hs. destruct (status_of sid (jn_client j)); [|done..].
  injection Hs as <-. simpl in Hopen. rewrite task_read_back in Hopen. unfold deliver in Hopen. simpl in Hopen.
  destruct (watcher (jn_client j) !! pretty (task_id t)) eqn:Hch; [|congruence].
  assert (sdk.is_completed (client_task t) = true) as Hc' by (clear -Hcomp; by destruct t as [? ? ? ? ? ? ? ? ? []]).
  rewrite Hc' in Hopen. simpl in Hopen. by rewrite lookup_delete_eq in Hopen.
Qed.

Lemma joint_rest_inv ev j j' : joint_inv j -> joint_apply (JRest ev) j = Some j' -> joint_inv j'.
Proof.
  intros [Hc Hr Hw Ho] Hs. simpl in Hs. destruct (rest_event_ok ev) eqn:Hev; [|done].
  destruct (jn_watch j) as [[[f w] n]|] eqn:Hj.
  - destruct (rest_step ev (jn_rest j) f) as [[r' f']|] eqn:Hstep; [|done]. injection Hs as <-.
    destruct (Hw f w n eq_refl) as (Hi & Hn & Hown). split; simpl; [done|by eapply rest_step_ok| |].
    + intros ? ? ? [= <- <- <-]. split_and!; [|done|done]. by apply (rest_step_inv ev (mkWorld (jn_rest j) f w)).
    + intros i w0 ch rc sid z Hi0 How Hz. destruct (Ho i w0 ch rc sid z Hi0 How Hz) as [?|(? & ? & ? & [= <- <- <-] & ?)]; [by left|].
      right. eauto.
  - destruct (rest_step ev (jn_rest j) new_feed) as [[r' f']|] eqn:Hstep; [|done]. injection Hs as <-.
    split; simpl; [done|by eapply rest_step_ok|done|done].
Qed.

(** A request that is no identifier ends the stream. *)
Lemma joint_refuse_inv j sid c' : joint_inv j -> current (jn_client j) = Some sid ->
  client_apply (Item sid (inr ENetwork)) (jn_client j) = Some c' -> joint_inv (mkJoint c' (jn_rest j) None).
Proof.
  intros [Hc Hr _ _] Hcur Hs. split; simpl; [by eapply client_apply_inv|done|done|].
  intros i w0 ch rc sid0 z Hi How Hz. exfalso. destruct How as (_ & _ & _ & Hcur' & Hrun').
  simpl in Hs. destruct (status_of sid (jn_client j)); [|done..]. injection Hs as <-. simpl in *.
  assert (sid0 = sid) as -> by congruence. unfold status_of in *. simpl in *. rewrite lookup_alter_eq in Hrun'.
  by destruct (mg_streams (cl_manager (jn_client j)) !! sid).
Qed.

Lemma joint_apply_inv ev j j' : joint_inv j -> joint_apply ev j = Some j' -> joint_inv j'.
Proof.
  intros Hj Hs. destruct ev as [ev|ev|ev| |]; [|by eapply joint_rest_inv|..]; cbn -[client_apply] in Hs.
  - destruct (from_elsewhere ev (jn_client j)) eqn:Hev; [|done].
    destruct (client_apply ev (jn_client j)) as [c'|] eqn:Hc; [|done]. injection Hs as <-. by apply (joint_client_inv ev).
  - destruct (is_request ev); [done|]. destruct (jn_watch j) as [[[f w] n]|] eqn:Hx; [|done]. cbn -[client_apply] in Hs.
    destruct (watch_step ev (jn_rest j) f w) as [[f' w']|] eqn:Hw; [|done]. injection Hs as <-.
    destruct (watch_run_inv ev j f w n f' w' Hj Hx Hw). destruct Hj. by split.
  - destruct (current (jn_client j)) as [sid|] eqn:Hcur; [|done]. cbn -[client_apply] in Hs.
    destruct (status_of sid (jn_client j)) eqn:Hrun; [|done..].
    destruct (requests_of sid (jn_client j)) as [|id q] eqn:Hq; [done|].
    destruct (take_request id (jn_rest j) (jn_watch j)) as [[y|]|] eqn:Ht; [| |done]; cbn -[client_apply] in Hs.
    + destruct (client_apply (Taken sid) (jn_client j)) as [c'|] eqn:Hc; [|done]. injection Hs as <-.
      by eapply joint_take_inv.
    + destruct (client_apply (Item sid (inr ENetwork)) (jn_client j)) as [c'|] eqn:Hc; [|done]. injection Hs as <-.
      by eapply joint_refuse_inv.
  - destruct (current (jn_client j)) as [sid|] eqn:Hcur; [|done]. cbn -[client_apply] in Hs.
    destruct (jn_watch j) as [[[f w] n]|] eqn:Hx; [|done]. cbn -[client_apply] in Hs.
    destruct (wt_sent w !! n) as [[z t]|] eqn:Hm; [|done]. cbn -[client_apply] in Hs.
    destruct (client_apply (Item sid (inl (task_to t))) (jn_client j)) as [c'|] eqn:Hc; [|done]. injection Hs as <-.
    by eapply joint_deliver_inv.
Qed.

Lemma joint_reach_inv r j : rest_ok r -> joint_reach r j -> joint_inv j.
Proof.
  intros Hr. induction 1 as [|ev x y _ IH Hs]; [|by eapply joint_apply_inv]. split; simpl; [|done|done|].
  - apply client_reach_inv. constructor.
  - intros i w0 ch rc sid z. simpl. by rewrite lookup_empty.
Qed.

(** Nothing is under way: the stream is read, the server took all its requests
    and waits, and all it sent was delivered. *)
Definition settled (j : J) : Prop :=
  forall sid, current (jn_client j) = Some sid ->
    status_of sid (jn_client j) = Running /\ requests_of sid (jn_client j) = [] /\
    exists f w, jn_watch j = Some (f, w, length (wt_sent w)) /\ wt_pc w = Waits /\ quiet (mkWorld (jn_rest j) f w).

(** C10 [safety] No client waits for a task that has ended.  Whatever the calls of
    the client, the changes of tasks and their notifications, the steps of the
    watch, the loss of streams and their replacement: when nothing is under way,
    a waiter that names its task as the server prints it (the decimal form of the
    number) has the answer to read, or the task is stored as not completed,
    except a task a lost node gave back, whose change is announced to nobody.
    The condition on the name is needed: [other_spelling_waits_on] is a client
    that asks for the task 01 and waits on. *)
Theorem no_wait_for_ended_task r j i w ch rc z m :
  rest_ok r -> joint_reach r j -> settled j ->
  cl_waiters (jn_client j) !! i = Some w -> wa_task w = pretty z -> i64 z -> wa_pc w = Awaits ch rc ->
  rs_tasks (jn_rest j) = Some m -> z ∉ rs_silent (jn_rest j) ->
  answered (jn_client j) w ch rc \/ exists t, m !! z = Some t /\ is_completed t = false.
Proof.
  intros Hr Hj%joint_reach_inv Hset Hi Hid Hz Hpc Hm Hsil; [|done]. destruct Hj as [Hc _ Hw Ho].
  pose proof (ci_waiters _ Hc i w Hi) as Hok.
  destruct (decide (watcher (jn_client j) !! wa_task w = Some ch)) as [Hopen|Hno].
  2: { left. apply sealed_answered; [done| |done]. apply (wo_waits _ _ _ Hok). unfold handle. by rewrite Hpc. }
  destruct (current (jn_client j)) as [sid|] eqn:Hcur.
  2: { rewrite (mi_stream _ _ (ci_manager _ Hc) Hcur), lookup_empty in Hopen. done. }
  destruct (Hset sid Hcur) as (Hrun & Hq & f & wt & Hx & Hpcw & Hquiet).
  assert (open_waiter (jn_client j) (pretty z) ch rc sid w) as How by (unfold open_waiter; rewrite <- Hid; done).
  destruct (Ho i w ch rc sid z Hi How Hz) as [Hin|(f' & w' & n & Hx' & Howed)]; [rewrite Hq in Hin; by apply elem_of_nil in Hin|].
  rewrite Hx in Hx'. injection Hx' as <- <- <-. destruct (Hw f wt _ Hx) as (Hwi & _ & _).
  assert (msgs wt = wt_sent wt) as Hmsgs by (unfold msgs; by rewrite Hpcw, app_nil_r).
  destruct Howed as [Hreg|(t & Hin & _)]; [left; by rewrite Hpcw| |].
  2: { rewrite Hmsgs, drop_all in Hin. by apply elem_of_nil in Hin. }
  destruct (quiet_fresh _ m z Hwi Hpcw Hquiet Hm Hreg Hsil) as (t & Ht & Hlast). right. exists t. split; [done|].
  destruct (wi_open _ Hwi ltac:(simpl; by rewrite Hpcw) z Hreg) as [Hin|Hnot]; simpl in *.
  - rewrite Hpcw in Hin. by apply elem_of_nil in Hin.
  - by rewrite Hmsgs, Hlast in Hnot.
Qed.
End invariant.

(** * Runs of clients

    A concrete watch channel, and runs on which the theorems about waiting are
    applied: a task that ends while a client waits, and one that is watched
    under another spelling of its identifier; and requests of sessions and
    applications. *)

(** ** A watch channel *)

Module Cell.

(** The value, whether each receiver has yet to see it, and whether the sender
    is gone. *)
Record t (V : Type) := mk { cv : V; cr : gmap nat bool; cg : bool }.
Arguments mk {V}.
Arguments cv {V}.
Arguments cr {V}.
Arguments cg {V}.

Section cell.
Context {V : Type}.

Definition fresh_receiver (c : t V) : nat := fresh (dom (cr c) : gset nat).

Definition next (r : nat) (c : t V) : next_result V * t V :=
  match cr c !! r with
  | Some true => (Next (cv c), mk (cv c) (<[r := false]> (cr c)) (cg c))
  | Some false => (if cg c then SenderGone else NotYet, c)
  | None => (NotYet, c)
  end.

#[global] Instance cell_chan : WatchChan V (t V) := {
  wc_channel := fun v => (0%nat, mk v {[0%nat := false]} false);
  wc_subscribe := fun c => (fresh_receiver c, mk (cv c) (<[fresh_receiver c := false]> (cr c)) (cg c));
  wc_send_replace := fun v c => mk v ((fun _ => true) <$> cr c) (cg c);
  wc_drop_sender := fun c => mk (cv c) (cr c) true;
  wc_drop := fun r c => mk (cv c) (delete r (cr c)) (cg c);
  wc_next := next
}.

Lemma insert_view (m : gmap nat bool) r r' b :
  <[r := b]> m !! r' = if decide (r' = r) then Some b else m !! r'.
Proof. case_decide as E; [subst; apply lookup_insert_eq|by apply lookup_insert_ne]. Qed.

#[global, refine] Instance cell_spec : WatchChanSpec V (t V) := {
  value := cv;
  unseen := fun r c => cr c !! r;
  sealed := cg
}.
Proof.
  all: simpl.
  - intros v r c [= <- <-]. split_and!; [done..|]. intros r'. simpl.
    case_decide as E; [subst; apply lookup_singleton_eq|by apply lookup_singleton_ne].
  - intros c r c' [= <- <-]. split_and!; [|done..|intros r'; apply insert_view].
    apply (not_elem_of_dom (D := gset nat)). unfold fresh_receiver. apply is_fresh.
  - intros v c. split_and!; [done..|]. intros r. apply lookup_fmap.
  - done.
  - intros r c. split_and!; [done..|]. intros r'. simpl.
    case_decide as E; [subst; apply lookup_delete_eq|by apply lookup_delete_ne].
  - intros r c b Hb. unfold next. rewrite Hb. destruct b; simpl.
    + split_and!; [done..|]. intros r'. apply insert_view.
    + split_and!; [done..|]. intros r'. case_decide as E; [by subst|done].
Defined.
End cell.
End Cell.

#[local] Existing Instance demo_env.
#[local] Existing Instance demo_chrono.
#[local] Instance demo_outputs : sdk.Outputs string := {| sdk.from_task_output := fun o => Ok o |}.

Abbreviation J := (joint string (Cell.t update)).

(** ** A task that ends *)

Definition joint_run (evs : list joint_event) (j : J) : option J :=
  foldl (fun o ev => o ≫= joint_apply ev) (Some j) evs.

Lemma joint_run_waits r evs (j j' : J) : joint_reach r j -> joint_run evs j = Some j' -> joint_reach r j'.
Proof.
  unfold joint_run. revert j. induction evs as [|ev evs IH]; intros j Hj Hr; [by injection Hr as <-|].
  change (foldl (fun o ev => o ≫= joint_apply ev) (joint_apply ev j) evs = Some j') in Hr.
  destruct (joint_apply ev j) as [j1|] eqn:H1.
  - apply (IH j1); [by eapply jr_step|done].
  - exfalso. clear -Hr. induction evs; [done|auto].
Qed.

(** A client asks for a task and is told that it is pending. *)
Definition asks (id : string) : list joint_event :=
  [JClient (Calls 0 RunFuture id); JClient (Register 0); JClient (SendRequest 0 true); JTake;
   JWatch Forward; JWatch Forward; JWatch Forward; JDeliver].

(** The task succeeds, and the watch sends its end. *)
Definition succeeds : list joint_event :=
  [JRest (Changes 1 (demo_task TaskSucceed)); JRest (Notifies 0 None); JWatch (Recv [] []);
   JWatch Forward; JWatch Forward; JWatch Forward; JWatch Forward; JDeliver].

Definition demo_joint (id : string) : J :=
  default (joint_start demo_rest) (joint_run (asks id ++ succeeds) (joint_start demo_rest)).

Lemma demo_joint_reach id : joint_reach demo_rest (demo_joint id).
Proof.
  unfold demo_joint. destruct (joint_run _ _) as [y|] eqn:Hr; [|apply jr_start].
  eapply joint_run_waits; [apply jr_start|done].
Qed.

Lemma demo_rest_ok : rest_ok demo_rest.
Proof. intros m [= <-]. apply map_Forall_singleton. done. Qed.

Lemma settled_demo id f w n :
  ws_stream (mg_state (cl_manager (jn_client (demo_joint id)))) = Some 1%nat ->
  status_of 1 (jn_client (demo_joint id)) = Running -> requests_of 1 (jn_client (demo_joint id)) = [] ->
  jn_watch (demo_joint id) = Some (f, w, n) -> n = length (wt_sent w) -> wt_pc w = Waits ->
  quiet (mkWorld (jn_rest (demo_joint id)) f w) -> settled (demo_joint id).
Proof. intros Hc ? ? ? -> ? ? sid Hsid. rewrite Hc in Hsid. injection Hsid as <-. eauto 10. Qed.

Lemma demo_settled id : id = "1"%string \/ id = "01"%string -> settled (demo_joint id).
Proof.
  intros [-> | ->]; eapply settled_demo; try (vm_compute; reflexivity); split_and!; vm_compute; reflexivity.
Qed.

Definition demo_waiter (id : string) : Waiter string := mkWaiter RunFuture id (Awaits 0 0) [].

Lemma no_wait_for_ended_task_witness :
  cl_waiters (jn_client (demo_joint "1")) !! 0%nat = Some (demo_waiter "1") /\
  answered (jn_client (demo_joint "1")) (demo_waiter "1") 0 0.
Proof.
  assert (cl_waiters (jn_client (demo_joint "1")) !! 0%nat = Some (demo_waiter "1")) as Hw
    by (vm_compute; reflexivity).
  assert (rs_silent (jn_rest (demo_joint "1")) = ∅) as Hs by (vm_compute; reflexivity).
  split; [exact Hw|].
  destruct (no_wait_for_ended_task demo_rest (demo_joint "1") 0 (demo_waiter "1") 0 0 1
    {[1 := demo_task TaskSucceed]}) as [Ha|(t & Ht & Hn)].
  - apply demo_rest_ok.
  - apply demo_joint_reach.
  - apply demo_settled. by left.
  - exact Hw.
  - reflexivity.
  - lia.
  - reflexivity.
  - vm_compute. reflexivity.
  - rewrite Hs. apply not_elem_of_empty.
  - exact Ha.
  - rewrite lookup_singleton_eq in Ht. injection Ht as <-. discriminate.
Defined.

(** The client alone: two waiters of one task, one of which has the answer. *)
Definition client_run (evs : list client_event) : option (Client string (Cell.t update)) :=
  foldl (fun o ev => o ≫= client_apply ev) (Some new_client) evs.

Lemma client_run_reach evs c : client_run evs = Some c -> client_reach c.
Proof.
  unfold client_run. generalize (cr_start (O := string) (C := Cell.t update)). generalize (new_client (O := string) (C := Cell.t update)).
  induction evs as [|ev evs IH]; intros c0 Hc Hr; [by injection Hr as <-|].
  change (foldl (fun o ev => o ≫= client_apply ev) (client_apply ev c0) evs = Some c) in Hr.
  destruct (client_apply ev c0) as [c1|] eqn:H1.
  - apply (IH c1); [by eapply cr_step|done].
  - exfalso. clear -Hr. induction evs; [done|auto].
Qed.

(** The stream ends with an error before the task does. *)
Definition demo_lost : list client_event :=
  [Calls 0 WatchTask "1"; Calls 1 RunFuture "1"; Register 0; Register 1; SendRequest 0 true; SendRequest 1 true;
   Item 1 (inr ENetwork); Finish 1; Poll 0].

Lemma waiter_never_forgotten_witness :
  exists c, client_run demo_lost = Some c /\
    ended (cl_log c) (mkWaiter WatchTask "1" (Returned (RUnit (O := string) (Err ENetwork))) [OnError ENetwork])
      (RUnit (Err ENetwork)) /\
    answered c (mkWaiter RunFuture "1" (Awaits 0 1) []) 0 1.
Proof.
  destruct (client_run demo_lost) as [c|] eqn:Hc; [|vm_compute in Hc; discriminate]. exists c.
  assert (cl_waiters c !! 0%nat = Some (mkWaiter WatchTask "1" (Returned (RUnit (Err ENetwork))) [OnError ENetwork]) /\
    cl_waiters c !! 1%nat = Some (mkWaiter RunFuture "1" (Awaits 0 1) []) /\
    ws_stream (mg_state (cl_manager c)) = None) as (H0 & H1 & H2)
    by (vm_compute in Hc; injection Hc as <-; split_and!; vm_compute; reflexivity).
  split_and!; [reflexivity| |].
  - exact (waiter_never_forgotten c 0 _ (client_run_reach _ _ Hc) H0).
  - destruct (waiter_never_forgotten c 1 _ (client_run_reach _ _ Hc) H1) as [Ha|(sid & k & Hs & _)]; [exact Ha|].
    rewrite H2 in Hs. discriminate.
Defined.

(** ** Another spelling of an identifier *)

(** A task watched as [01] is watched by the server, which reads the number 1,
    but its messages are about the task 1: the waiter waits on, although the task
    has ended and nothing is under way. *)
Lemma other_spelling_waits_on :
  settled (demo_joint "01") /\
  rs_tasks (jn_rest (demo_joint "01")) = Some {[1 := demo_task TaskSucceed]} /\
  cl_waiters (jn_client (demo_joint "01")) !! 0%nat = Some (demo_waiter "01") /\
  next_watch_update 0 0 (cl_manager (jn_client (demo_joint "01"))) = None.
Proof. split_and!; [apply demo_settled; by right|vm_compute; reflexivity..]. Qed.

(** ** Requests *)

Lemma session_request_kept_witness :
  let o := client.batch_size 0 (client.resreq (client.requirement_of "cpu=2,mem=4Gi") (client.new "app")) in
  exists spec, client.create_session_with "x1" o = Ok ("app-x1", Some spec)%string /\
    Frontend.session_attributes None "app-x1" spec =
      mkSsnAttr "app-x1" "app" None ∅ 0 None 1 0 (Some (mkRR 2 (4 * 2 ^ 30) 0)).
Proof.
  simpl. eexists. split; [vm_compute; reflexivity|].
  exact (client.session_request_kept None "x1"
    (client.batch_size 0 (client.resreq (client.requirement_of "cpu=2,mem=4Gi") (client.new "app")))
    "app-x1" _ (or_introl eq_refl)).
Defined.
