(* ===== verification/Lru.v ===== *)
(** * The eviction policies of the object cache ([object_cache/src/eviction.rs])

    The LRU policy keeps its keys in a doubly linked list whose nodes live in a
    hash map, with the memory and the number of objects in atomic counters.  It
    refines a list of keys with sizes, least recently used first.  The three
    locks and the counters are read and written in one step; the environment
    variables of [new_policy] and the size strings of the configuration are
    parsed before. *)
From S2P Require Import Prelude.
Local Open Scope Z_scope.

(** ** The code *)

Record LRUNode := mkLRUNode {
  ln_key : string;
  ln_size : Z;
  ln_prev : option string;
  ln_next : option string
}.

Definition set_prev (p : option string) (n : LRUNode) : LRUNode := mkLRUNode (ln_key n) (ln_size n) p (ln_next n).
Definition set_next (x : option string) (n : LRUNode) : LRUNode := mkLRUNode (ln_key n) (ln_size n) (ln_prev n) x.

(** The map with both ends of the list. *)
Record lru_list := mkList {
  ll_nodes : gmap string LRUNode;
  ll_head : option string;
  ll_tail : option string
}.

Record LRUPolicy := mkLRU {
  lp_max_memory : Z;
  lp_max_objects : option Z;
  lp_list : lru_list;
  lp_current_memory : Z;
  lp_current_count : Z
}.

(** The limits of an [EvictionConfig]. *)
Definition new_lru (max_memory : Z) (max_objects : option Z) : LRUPolicy :=
  mkLRU max_memory max_objects (mkList ∅ None None) 0 0.

Definition should_evict (p : LRUPolicy) : bool :=
  (lp_max_memory p <? lp_current_memory p) ||
  match lp_max_objects p with Some max => max <? lp_current_count p | None => false end.

Definition remove_from_list (l : lru_list) (key : string) : lru_list :=
  match ll_nodes l !! key with
  | None => l
  | Some node =>
      let '(nodes, head) :=
        match ln_prev node with
        | Some prev_key => (alter (set_next (ln_next node)) prev_key (ll_nodes l), ll_head l)
        | None => (ll_nodes l, ln_next node)
        end in
      let '(nodes, tail) :=
        match ln_next node with
        | Some next_key => (alter (set_prev (ln_prev node)) next_key nodes, ll_tail l)
        | None => (nodes, ln_prev node)
        end in
      mkList (alter (fun n => set_next None (set_prev None n)) key nodes) head tail
  end.

Definition add_to_tail (l : lru_list) (key : string) : lru_list :=
  match ll_nodes l !! key with
  | None => l
  | Some _ =>
      let nodes := alter (fun n => set_next None (set_prev (ll_tail l) n)) key (ll_nodes l) in
      let nodes :=
        match ll_tail l with
        | Some tail_key => alter (set_next (Some key)) tail_key nodes
        | None => nodes
        end in
      mkList nodes (match ll_head l with None => Some key | head => head end) (Some key)
  end.

Definition with_list (l : lru_list) (memory count : Z) (p : LRUPolicy) : LRUPolicy :=
  mkLRU (lp_max_memory p) (lp_max_objects p) l memory count.

Definition on_access (key : string) (p : LRUPolicy) : LRUPolicy :=
  match ll_nodes (lp_list p) !! key with
  | Some _ =>
      with_list (add_to_tail (remove_from_list (lp_list p) key) key)
        (lp_current_memory p) (lp_current_count p) p
  | None => p
  end.

(** The [while] loop of [victims]: at most [count] keys along the links. *)
Fixpoint walk (nodes : gmap string LRUNode) (current : option string) (count : nat) : list string :=
  match count, current with
  | S count, Some key => key :: walk nodes (node ← nodes !! key; ln_next node) count
  | _, _ => []
  end.

Definition victims (count : nat) (p : LRUPolicy) : list string :=
  if negb (should_evict p) then [] else walk (ll_nodes (lp_list p)) (ll_head (lp_list p)) count.

Definition on_evict (key : string) (p : LRUPolicy) : LRUPolicy :=
  match ll_nodes (lp_list p) !! key with
  | Some node =>
      let l := remove_from_list (lp_list p) key in
      with_list (mkList (delete key (ll_nodes l)) (ll_head l) (ll_tail l))
        (wrap_u64 (lp_current_memory p - ln_size node)) (wrap_u64 (lp_current_count p - 1)) p
  | None => p
  end.

Definition on_add (key : string) (size : Z) (p : LRUPolicy) : LRUPolicy :=
  let p :=
    match ll_nodes (lp_list p) !! key with
    | Some existing =>
        with_list (remove_from_list (lp_list p) key)
          (wrap_u64 (lp_current_memory p - ln_size existing)) (wrap_u64 (lp_current_count p - 1)) p
    | None => p
    end in
  let l := lp_list p in
  let l := mkList (<[key := mkLRUNode key size None None]> (ll_nodes l)) (ll_head l) (ll_tail l) in
  with_list (add_to_tail l key)
    (wrap_u64 (lp_current_memory p + size)) (wrap_u64 (lp_current_count p + 1)) p.

Definition on_remove (key : string) (p : LRUPolicy) : LRUPolicy := on_evict key p.

(** The default method of the trait. *)
Definition on_update (key : string) (size : Z) (p : LRUPolicy) : LRUPolicy :=
  on_add key size (on_remove key p).

(** ** What the policy stands for *)

(** Keys with their sizes, least recently used first. *)
Abbreviation entries := (list (string * Z)).

Definition without (key : string) (l : entries) : entries := filter (fun e => e.1 <> key) l.

Definition spec_access (key : string) (l : entries) : entries :=
  match list_find (fun e : string * Z => e.1 = key) l with
  | Some (_, e) => without key l ++ [e]
  | None => l
  end.
Definition spec_add (key : string) (size : Z) (l : entries) : entries := without key l ++ [(key, size)].

Definition total_size (l : entries) : Z := foldr (fun e z => e.2 + z) 0 l.

(** The links of a stretch of the list between [prev] and [next]. *)
Definition first_key (l : entries) (next : option string) : option string :=
  match l with [] => next | e :: _ => Some e.1 end.

Fixpoint last_key (prev : option string) (l : entries) : option string :=
  match l with [] => prev | e :: l => last_key (Some e.1) l end.

Fixpoint linked (nodes : gmap string LRUNode) (prev : option string) (l : entries) (next : option string) : Prop :=
  match l with
  | [] => True
  | e :: l =>
      nodes !! e.1 = Some (mkLRUNode e.1 e.2 prev (first_key l next)) /\
      linked nodes (Some e.1) l next
  end.

Record list_rep (ll : lru_list) (l : entries) : Prop := {
  lr_nodup : NoDup l.*1;
  lr_linked : linked (ll_nodes ll) None l None;
  lr_head : ll_head ll = first_key l None;
  lr_tail : ll_tail ll = last_key None l;
  lr_dom : forall k n, ll_nodes ll !! k = Some n -> k ∈ l.*1
}.

Record lru_rep (p : LRUPolicy) (l : entries) : Prop := {
  rep_list : list_rep (lp_list p) l;
  rep_memory : lp_current_memory p = wrap_u64 (total_size l);
  rep_count : lp_current_count p = wrap_u64 (Z.of_nat (length l))
}.

(** ** Links *)

Lemma first_key_app l1 l2 n : first_key (l1 ++ l2) n = first_key l1 (first_key l2 n).
Proof. by destruct l1. Qed.

Lemma last_key_app p l1 l2 : last_key p (l1 ++ l2) = last_key (last_key p l1) l2.
Proof. revert p. induction l1 as [|e l1 IH]; intros p; simpl; [done|apply IH]. Qed.

Lemma linked_app nodes p l1 l2 n :
  linked nodes p (l1 ++ l2) n <-> linked nodes p l1 (first_key l2 n) /\ linked nodes (last_key p l1) l2 n.
Proof.
  revert p. induction l1 as [|e l1 IH]; intros p; simpl; [tauto|].
  rewrite IH, first_key_app. tauto.
Qed.

Lemma linked_frame nodes nodes' p l n :
  (forall k, k ∈ l.*1 -> nodes' !! k = nodes !! k) -> linked nodes p l n -> linked nodes' p l n.
Proof.
  revert p. induction l as [|e l IH]; intros p Hf; simpl; [done|]. intros [He Hl]. split.
  - rewrite Hf; [done|by left].
  - apply IH; [|done]. intros k Hk. apply Hf. by right.
Qed.

Lemma linked_alter f k nodes p l n : k ∉ l.*1 -> linked nodes p l n -> linked (alter f k nodes) p l n.
Proof. intros Hk. apply linked_frame. intros j Hj. apply lookup_alter_ne. by intros ->. Qed.

Lemma linked_set_next nodes p l e n n' : e.1 ∉ l.*1 ->
  linked nodes p (l ++ [e]) n -> linked (alter (set_next n') e.1 nodes) p (l ++ [e]) n'.
Proof.
  intros He. rewrite !linked_app. intros [Hl [Hk _]]. split; [by apply linked_alter|].
  split; [|done]. simpl. by rewrite lookup_alter_eq, Hk.
Qed.

Lemma linked_set_prev nodes p e l n p' : e.1 ∉ l.*1 ->
  linked nodes p (e :: l) n -> linked (alter (set_prev p') e.1 nodes) p' (e :: l) n.
Proof.
  intros He [Hk Hl]. split; [by rewrite lookup_alter_eq, Hk|by apply linked_alter].
Qed.

Lemma last_key_snoc p l e : last_key p (l ++ [e]) = Some e.1.
Proof. by rewrite last_key_app. Qed.

Lemma NoDup_middle (l1 l2 : entries) e : NoDup (l1 ++ e :: l2).*1 ->
  NoDup (l1 ++ l2).*1 /\ e.1 ∉ l1.*1 /\ e.1 ∉ l2.*1 /\ forall k, k ∈ l1.*1 -> k ∉ l2.*1.
Proof.
  rewrite !fmap_app, fmap_cons. intros (H1 & Hd & [He H2]%list.NoDup_cons)%list.NoDup_app.
  split_and!.
  - apply list.NoDup_app. split_and!; [done| |done]. intros k Hk1 Hk2. apply (Hd k Hk1). by right.
  - intros Hin. apply (Hd _ Hin). by left.
  - done.
  - intros k Hk1 Hk2. apply (Hd k Hk1). by right.
Qed.

(** The next pointer of the stretch before a key, and the previous one of the
    stretch after it. *)
Definition link_next (next prev : option string) (nodes : gmap string LRUNode) : gmap string LRUNode :=
  match prev with Some k => alter (set_next next) k nodes | None => nodes end.
Definition link_prev (prev next : option string) (nodes : gmap string LRUNode) : gmap string LRUNode :=
  match next with Some k => alter (set_prev prev) k nodes | None => nodes end.

Lemma linked_link_next nodes l n n' : NoDup l.*1 -> linked nodes None l n ->
  linked (link_next n' (last_key None l) nodes) None l n'.
Proof.
  destruct l as [|e l] using rev_ind; [done|]. rewrite last_key_snoc, fmap_app. intros (_ & Hd & _)%list.NoDup_app.
  apply linked_set_next. intros He. apply (Hd _ He). by left.
Qed.

Lemma linked_link_prev nodes l p p' : NoDup l.*1 -> linked nodes p l None ->
  linked (link_prev p' (first_key l None) nodes) p' l None.
Proof. destruct l as [|e l]; [done|]. intros [He _]%list.NoDup_cons. by apply linked_set_prev. Qed.

Lemma lookup_link_next next prev nodes k : prev <> Some k -> link_next next prev nodes !! k = nodes !! k.
Proof. destruct prev as [j|]; [|done]. intros Hj. apply lookup_alter_ne. congruence. Qed.
Lemma lookup_link_prev prev next nodes k : next <> Some k -> link_prev prev next nodes !! k = nodes !! k.
Proof. destruct next as [j|]; [|done]. intros Hj. apply lookup_alter_ne. congruence. Qed.

Lemma last_key_elem l k : last_key None l = Some k -> k ∈ l.*1.
Proof.
  destruct l as [|e l] using rev_ind; [done|]. rewrite last_key_snoc, fmap_app. intros [= <-].
  apply elem_of_app. right. by left.
Qed.
Lemma first_key_elem l k : first_key l None = Some k -> k ∈ l.*1.
Proof. destruct l as [|e l]; [done|]. intros [= <-]. by left. Qed.

Lemma remove_from_list_eq ll k s l1 l2 : list_rep ll (l1 ++ (k, s) :: l2) ->
  remove_from_list ll k =
  mkList (alter (fun n => set_next None (set_prev None n)) k
            (link_prev (last_key None l1) (first_key l2 None)
               (link_next (first_key l2 None) (last_key None l1) (ll_nodes ll))))
    (first_key (l1 ++ l2) None) (last_key None (l1 ++ l2)).
Proof.
  intros [Hnd Hl Hh Ht _]. apply linked_app in Hl as [_ [Hk _]]. simpl in Hk.
  unfold remove_from_list. rewrite Hk. simpl. rewrite first_key_app, last_key_app.
  rewrite first_key_app in Hh. rewrite last_key_app in Ht. simpl in Hh, Ht.
  destruct l1 as [|e1 l1 _] using rev_ind; destruct l2 as [|e2 l2]; simpl;
    rewrite ?last_key_snoc in *; simpl in *; rewrite ?Hh, ?Ht; try done.
  all: by destruct l1.
Qed.

(** A list whose key [k] is in the map and not linked. *)
Record detached (ll : lru_list) (k : string) (s : Z) (l : entries) : Prop := {
  dt_nodup : NoDup l.*1;
  dt_fresh : k ∉ l.*1;
  dt_linked : linked (ll_nodes ll) None l None;
  dt_head : ll_head ll = first_key l None;
  dt_tail : ll_tail ll = last_key None l;
  dt_node : exists p n, ll_nodes ll !! k = Some (mkLRUNode k s p n);
  dt_dom : forall j n, ll_nodes ll !! j = Some n -> j = k \/ j ∈ l.*1
}.

Lemma list_rep_remove ll k s l1 l2 : list_rep ll (l1 ++ (k, s) :: l2) ->
  detached (remove_from_list ll k) k s (l1 ++ l2).
Proof.
  intros Hrep. rewrite (remove_from_list_eq ll k s l1 l2 Hrep). destruct Hrep as [Hnd Hl Hh Ht Hdom].
  destruct (NoDup_middle _ _ _ Hnd) as (Hnd12 & Hk1 & Hk2 & H12). simpl in Hk1, Hk2.
  pose proof Hnd12 as Hnds. rewrite fmap_app in Hnds. apply list.NoDup_app in Hnds as (Hnd1 & _ & Hnd2).
  apply linked_app in Hl as [Hl1 [Hk Hl2]]. simpl in Hk, Hl1, Hl2.
  assert (Hpk : last_key None l1 <> Some k) by (intros ?%last_key_elem; done).
  assert (Hnk : first_key l2 None <> Some k) by (intros ?%first_key_elem; done).
  split; [done|rewrite fmap_app, elem_of_app; tauto| |done|done| |].
  - apply linked_app. split.
    + apply linked_alter; [done|]. eapply linked_frame; [|by apply (linked_link_next (ll_nodes ll) l1 (Some k))].
      intros j Hj. apply lookup_link_prev. intros ?%first_key_elem. by apply (H12 j).
    + apply linked_alter; [done|]. apply (linked_link_prev _ _ (Some k)); [done|].
      eapply linked_frame; [|done]. intros j Hj. apply lookup_link_next. intros ?%last_key_elem. by apply (H12 j).
  - exists None, None. simpl. by rewrite lookup_alter_eq, lookup_link_prev, lookup_link_next, Hk by done.
  - intros j n Hj. simpl in Hj. assert (Hsome : is_Some (ll_nodes ll !! j)).
    { assert (Hal : forall f i (m : gmap string LRUNode), is_Some (alter f i m !! j) -> is_Some (m !! j))
        by (intros f i m; by rewrite lookup_alter_is_Some).
      apply mk_is_Some, Hal in Hj. unfold link_prev, link_next in Hj.
      destruct (first_key l2 None); [apply Hal in Hj|]; destruct (last_key None l1); eauto. }
    destruct Hsome as [m Hm]. apply Hdom in Hm. revert Hm. rewrite !fmap_app, !elem_of_app. simpl.
    rewrite elem_of_cons. tauto.
Qed.

Lemma detached_add ll k s l : detached ll k s l -> list_rep (add_to_tail ll k) (l ++ [(k, s)]).
Proof.
  intros [Hnd Hk Hl Hh Ht (p & n & Hn) Hdom]. unfold add_to_tail. rewrite Hn, Ht.
  change (match last_key None l with Some tk => alter (set_next (Some k)) tk ?m | None => ?m end)
    with (link_next (Some k) (last_key None l) m).
  split; simpl.
  - rewrite fmap_app. apply list.NoDup_app. split_and!; [done| |apply NoDup_singleton].
    intros j Hj ->%list_elem_of_singleton. done.
  - apply linked_app. split; [|split; [|done]].
    + apply (linked_link_next _ _ None); [done|]. by apply linked_alter.
    + simpl. rewrite lookup_link_next; [by rewrite lookup_alter_eq, Hn|]. intros ?%last_key_elem. done.
  - rewrite Hh. by destruct l.
  - by rewrite last_key_app.
  - intros j m Hj. rewrite fmap_app, elem_of_app. simpl. rewrite list_elem_of_singleton.
    enough (is_Some (ll_nodes ll !! j)) as [m' Hm'] by (apply Hdom in Hm'; tauto).
    unfold link_next in Hj. apply mk_is_Some in Hj.
    destruct (last_key None l); rewrite ?lookup_alter_is_Some in Hj; done.
Qed.

(** ** The operations *)

Lemma without_fresh k l : k ∉ l.*1 -> without k l = l.
Proof.
  unfold without. induction l as [|e l IH]; [done|]. rewrite fmap_cons, not_elem_of_cons. intros [Hk Hl].
  rewrite filter_cons_True by congruence. by rewrite IH.
Qed.

Lemma without_middle k s l1 l2 : k ∉ l1.*1 -> k ∉ l2.*1 -> without k (l1 ++ (k, s) :: l2) = l1 ++ l2.
Proof.
  intros H1 H2. unfold without. rewrite list.filter_app, filter_cons_False by (simpl; tauto).
  f_equal; by apply without_fresh.
Qed.

Lemma elem_of_without k j l : j ∈ (without k l).*1 <-> j <> k /\ j ∈ l.*1.
Proof.
  rewrite !list_elem_of_fmap. unfold without. setoid_rewrite list_elem_of_filter. split.
  - intros (e & -> & Hk & He). eauto.
  - intros (Hk & e & -> & He). eauto.
Qed.

Lemma NoDup_without k l : NoDup l.*1 -> NoDup (without k l).*1.
Proof.
  induction l as [|e l IH]; [done|]. rewrite fmap_cons. intros [He Hl]%list.NoDup_cons. unfold without.
  destruct (decide (e.1 = k)) as [Hk|Hk]; [rewrite filter_cons_False by tauto; auto|].
  rewrite filter_cons_True by done. simpl. apply list.NoDup_cons. split; [|auto].
  change (e.1 ∉ (without k l).*1). rewrite elem_of_without. tauto.
Qed.

Lemma total_size_app l1 l2 : total_size (l1 ++ l2) = total_size l1 + total_size l2.
Proof. induction l1 as [|e l1 IH]; simpl; [done|lia]. Qed.

Lemma linked_lookup nodes p l n k : linked nodes p l n -> k ∈ l.*1 -> is_Some (nodes !! k).
Proof.
  revert p. induction l as [|e l IH]; intros p; simpl; [by intros _ ?%not_elem_of_nil|].
  intros [He Hl] [->|Hk]%elem_of_cons; [by rewrite He|by eapply IH].
Qed.

(** A key of the map is one entry of the list. *)
Lemma list_rep_split ll l k n : list_rep ll l -> ll_nodes ll !! k = Some n ->
  exists l1 l2, l = l1 ++ (k, ln_size n) :: l2 /\ k ∉ l1.*1 /\ k ∉ l2.*1.
Proof.
  intros [Hnd Hl _ _ Hdom] Hn. pose proof (Hdom _ _ Hn) as ([k' s] & -> & Hin)%list_elem_of_fmap.
  apply list_elem_of_split in Hin as (l1 & l2 & ->). exists l1, l2.
  apply linked_app in Hl as [_ [Hk _]]. simpl in Hk, Hn. rewrite Hn in Hk. injection Hk as ->.
  destruct (NoDup_middle _ _ _ Hnd) as (_ & ? & ? & _). done.
Qed.

Lemma list_rep_fresh ll l k : list_rep ll l -> ll_nodes ll !! k = None -> k ∉ l.*1.
Proof. intros Hrep Hn Hk. destruct (linked_lookup _ _ _ _ k (lr_linked _ _ Hrep) Hk). congruence. Qed.

Lemma list_find_middle k s (l1 l2 : entries) : k ∉ l1.*1 ->
  list_find (fun e : string * Z => e.1 = k) (l1 ++ (k, s) :: l2) = Some (length l1, (k, s)).
Proof.
  intros Hk. apply list_find_Some. split_and!; [by apply list_lookup_middle|done|].
  intros j y Hj Hlt Hy. rewrite lookup_app_l in Hj by done. apply Hk. rewrite <- Hy.
  apply list_elem_of_fmap. exists y. split; [done|by eapply list_elem_of_lookup_2].
Qed.

Lemma detached_delete ll k s l : detached ll k s l -> list_rep (mkList (delete k (ll_nodes ll)) (ll_head ll) (ll_tail ll)) l.
Proof.
  intros [Hnd Hk Hl Hh Ht _ Hdom]. split; simpl; [done| |done|done|].
  - eapply linked_frame; [|done]. intros j Hj. apply lookup_delete_ne. by intros ->.
  - intros j n [Hne Hj]%lookup_delete_Some. by destruct (Hdom _ _ Hj) as [->|?].
Qed.

Lemma detached_insert ll k s l : NoDup l.*1 -> k ∉ l.*1 -> linked (ll_nodes ll) None l None ->
  ll_head ll = first_key l None -> ll_tail ll = last_key None l ->
  (forall j n, ll_nodes ll !! j = Some n -> j = k \/ j ∈ l.*1) ->
  detached (mkList (<[k := mkLRUNode k s None None]> (ll_nodes ll)) (ll_head ll) (ll_tail ll)) k s l.
Proof.
  intros Hnd Hk Hl Hh Ht Hdom. split; simpl; try done.
  - eapply linked_frame; [|done]. intros j Hj. apply lookup_insert_ne. by intros ->.
  - exists None, None. apply lookup_insert_eq.
  - intros j n. destruct (decide (j = k)) as [->|Hne]; [by left|].
    rewrite lookup_insert_ne by done. apply Hdom.
Qed.

Lemma on_access_rep p l k : lru_rep p l -> lru_rep (on_access k p) (spec_access k l).
Proof.
  intros [Hl Hm Hc]. unfold on_access, spec_access. destruct (ll_nodes (lp_list p) !! k) as [n|] eqn:Hn.
  - destruct (list_rep_split _ _ _ _ Hl Hn) as (l1 & l2 & -> & H1 & H2).
    rewrite list_find_middle, without_middle by done. split; simpl.
    + by apply detached_add, list_rep_remove.
    + rewrite Hm, !total_size_app. simpl. f_equal. lia.
    + rewrite Hc, !length_app. simpl. f_equal. lia.
  - destruct (list_find _ l) as [[i e]|] eqn:Hf; [|done].
    apply list_find_Some in Hf as (Hi & He & _). exfalso. apply (list_rep_fresh _ _ _ Hl Hn).
    rewrite <- He. apply list_elem_of_fmap. exists e. split; [done|by eapply list_elem_of_lookup_2].
Qed.

Lemma on_evict_rep p l k : lru_rep p l -> lru_rep (on_evict k p) (without k l).
Proof.
  intros [Hl Hm Hc]. unfold on_evict. destruct (ll_nodes (lp_list p) !! k) as [n|] eqn:Hn.
  - destruct (list_rep_split _ _ _ _ Hl Hn) as (l1 & l2 & -> & H1 & H2).
    rewrite without_middle by done. split; simpl.
    + by eapply detached_delete, list_rep_remove.
    + rewrite Hm, !total_size_app. unfold Z.sub. rewrite wrap_u64_add_l. simpl. f_equal. lia.
    + rewrite Hc, !length_app. unfold Z.sub. rewrite wrap_u64_add_l. simpl. f_equal. lia.
  - rewrite without_fresh by (by eapply list_rep_fresh). done.
Qed.

Lemma on_add_rep p l k s : lru_rep p l -> lru_rep (on_add k s p) (spec_add k s l).
Proof.
  intros [Hl Hm Hc]. unfold on_add, spec_add. destruct (ll_nodes (lp_list p) !! k) as [n|] eqn:Hn.
  - destruct (list_rep_split _ _ _ _ Hl Hn) as (l1 & l2 & -> & H1 & H2).
    rewrite without_middle by done. destruct (list_rep_remove _ _ _ _ _ Hl). split; simpl.
    + by apply detached_add, detached_insert.
    + rewrite Hm, wrap_u64_add_l. unfold Z.sub. rewrite <- Z.add_assoc, wrap_u64_add_l, !total_size_app. simpl. f_equal. lia.
    + rewrite Hc, wrap_u64_add_l. unfold Z.sub. rewrite <- Z.add_assoc, wrap_u64_add_l, !length_app. simpl. f_equal. lia.
  - assert (Hk : k ∉ l.*1) by (by eapply list_rep_fresh). rewrite without_fresh by done.
    destruct Hl as [Hnd Hlk Hh Ht Hdom]. split; simpl.
    + apply detached_add, detached_insert; eauto.
    + rewrite Hm, wrap_u64_add_l, total_size_app. simpl. f_equal. lia.
    + rewrite Hc, wrap_u64_add_l, length_app. simpl. f_equal. lia.
Qed.

Lemma without_idemp k l : without k (without k l) = without k l.
Proof. apply without_fresh. rewrite elem_of_without. tauto. Qed.

Lemma on_update_rep p l k s : lru_rep p l -> lru_rep (on_update k s p) (spec_add k s l).
Proof.
  intros Hp. unfold on_update, on_remove. apply (on_evict_rep _ _ k), (on_add_rep _ _ k s) in Hp.
  unfold spec_add in *. by rewrite without_idemp in Hp.
Qed.

Lemma new_lru_rep m o : lru_rep (new_lru m o) [].
Proof. split; simpl; [|done|done]. split; simpl; [constructor|done|done|done|done]. Qed.

(** ** The victims *)

Lemma walk_linked nodes p l count : linked nodes p l None -> walk nodes (first_key l None) count = take count l.*1.
Proof.
  revert p count. induction l as [|e l IH]; intros p [|count]; try done. simpl.
  intros [He Hl]. rewrite He. simpl. f_equal. by eapply IH.
Qed.

(** The limits on the sum of the sizes and on the number of the keys. *)
Definition over_limit (max_memory : Z) (max_objects : option Z) (l : entries) : bool :=
  (max_memory <? total_size l) ||
  match max_objects with Some max => max <? Z.of_nat (length l) | None => false end.

Lemma should_evict_rep p l : lru_rep p l -> is_u64 (total_size l) ->
  lp_max_objects p = None \/ is_u64 (Z.of_nat (length l)) ->
  should_evict p = over_limit (lp_max_memory p) (lp_max_objects p) l.
Proof.
  intros [_ Hm Hc] H1 H2. unfold should_evict, over_limit. rewrite Hm, Hc, (wrap_u64_small (total_size l)) by done.
  destruct H2 as [->|H2]; [done|]. by rewrite wrap_u64_small.
Qed.

Lemma victims_rep p l count : lru_rep p l -> is_u64 (total_size l) ->
  lp_max_objects p = None \/ is_u64 (Z.of_nat (length l)) ->
  victims count p = if over_limit (lp_max_memory p) (lp_max_objects p) l then take count l.*1 else [].
Proof.
  intros Hp H1 H2. unfold victims. rewrite (should_evict_rep p l Hp H1 H2).
  destruct (over_limit _ _ _); [simpl|done]. destruct Hp as [[_ Hl -> _ _] _ _]. by eapply walk_linked.
Qed.

(** The calls of the trait, on the policy and on the list. *)
Inductive lru_op :=
| Access (key : string)
| Evict (key : string)
| Add (key : string) (size : Z)
| Update (key : string) (size : Z)
| Remove (key : string).

Definition lru_step (p : LRUPolicy) (o : lru_op) : LRUPolicy :=
  match o with
  | Access k => on_access k p
  | Evict k => on_evict k p
  | Add k s => on_add k s p
  | Update k s => on_update k s p
  | Remove k => on_remove k p
  end.

Definition spec_step (l : entries) (o : lru_op) : entries :=
  match o with
  | Access k => spec_access k l
  | Evict k | Remove k => without k l
  | Add k s | Update k s => spec_add k s l
  end.

Lemma lru_step_rep p l o : lru_rep p l -> lru_rep (lru_step p o) (spec_step l o).
Proof.
  destruct o; simpl; auto using on_access_rep, on_evict_rep, on_add_rep, on_update_rep.
Qed.

Lemma lru_steps_rep p l ops : lru_rep p l -> lru_rep (foldl lru_step p ops) (foldl spec_step l ops).
Proof. revert p l. induction ops as [|o ops IH]; intros p l Hp; simpl; [done|]. by apply IH, lru_step_rep. Qed.

Lemma lru_steps_limits p ops :
  lp_max_memory (foldl lru_step p ops) = lp_max_memory p /\ lp_max_objects (foldl lru_step p ops) = lp_max_objects p.
Proof.
  revert p. induction ops as [|o ops IH]; intros p; simpl; [done|]. destruct (IH (lru_step p o)) as [-> ->].
  destruct o; simpl; unfold on_access, on_update, on_remove, on_add, on_evict; repeat case_match; simpl; try done.
  all: repeat case_match; done.
Qed.

(** C18 [refinement] The doubly linked list of the LRU policy implements a queue
    of keys ordered by their last use.  After any calls, [victims] returns
    nothing while the sum of the sizes and the number of the keys are within
    the limits of the configuration, and otherwise the first [count] keys of the
    queue: those added, updated or read the longest ago. *)
Theorem lru_refines_queue max_memory max_objects ops count :
  let queue := foldl spec_step [] ops in
  is_u64 (total_size queue) -> is_u64 (Z.of_nat (length queue)) ->
  NoDup queue.*1 /\
  victims count (foldl lru_step (new_lru max_memory max_objects) ops) =
  if over_limit max_memory max_objects queue then take count queue.*1 else [].
Proof.
  intros queue H1 H2. pose proof (lru_steps_rep _ _ ops (new_lru_rep max_memory max_objects)) as Hp.
  split; [exact (lr_nodup _ _ (rep_list _ _ Hp))|].
  rewrite (victims_rep _ _ count Hp H1 (or_intror H2)). by destruct (lru_steps_limits (new_lru max_memory max_objects) ops) as [-> ->].
Qed.

Lemma lru_refines_queue_witness :
  let ops := [Add "a" 10; Add "b" 20; Add "c" 30; Access "a"; Update "b" 5; Evict "x"; Remove "c"; Add "d" 70] in
  victims 2 (foldl lru_step (new_lru 80 None) ops) = ["a"; "b"] /\
  victims 2 (foldl lru_step (new_lru 85 (Some 3)) ops) = [].
Proof.
  intros ops. split.
  - refine (proj2 (lru_refines_queue 80 None ops 2 _ _)); vm_compute; done.
  - refine (proj2 (lru_refines_queue 85 (Some 3) ops 2 _ _)); vm_compute; done.
Defined.
