(* ===== verification/ObjKey.v ===== *)
(** * Keys of the object cache ([object_cache/src/cache.rs])

    An object is named [<app>/<session>/<object>]; a key without its last part
    names a session, and the session ["*"] every session of the application.
    Deleting by key is a comparison of strings, so what it may touch depends on
    how keys are parsed. *)
From Stdlib Require Import Ascii.
From S2P Require Import Prelude.
Local Open Scope string_scope.

(** ** [str] methods *)

Definition slash : ascii := "/"%char.

(** [s.split('/').collect()]. *)
Fixpoint split_slash (s : string) : list string :=
  match s with
  | EmptyString => [""]
  | String a s =>
      if Ascii.eqb a slash then "" :: split_slash s
      else match split_slash s with
           | part :: parts => String a part :: parts
           | [] => [String a ""]
           end
  end.

(** [s.starts_with(p)]. *)
Definition starts_with (p s : string) : bool := String.prefix p s.

(** [s.contains(p)]. *)
Fixpoint contains (p s : string) : bool :=
  starts_with p s || match s with EmptyString => false | String _ s => contains p s end.

(** ** The key *)

Definition WILDCARD_SESSION : string := "*".

Record ObjectKey := mkKey {
  app_name : string;
  session_id : string;
  object_id : option string
}.

Definition invalid_component (part : string) : bool :=
  bool_decide (part = "") || contains ".." part || contains "\" part.

(** The loop of [from_path] over the components from index [i]. *)
Fixpoint check_components (i : nat) (parts : list string) : result unit :=
  match parts with
  | [] => Ok tt
  | part :: parts =>
      if invalid_component part then Err EInvalidConfig
      else if bool_decide (part = WILDCARD_SESSION) && negb (Nat.eqb i 1) then Err EInvalidConfig
      else check_components (S i) parts
  end.

Definition from_path (path_str : string) : result ObjectKey :=
  let parts := split_slash path_str in
  check_components 0 parts ≫= fun _ =>
  match parts with
  | [app; ssn] => Ok (mkKey app ssn None)
  | [app; ssn; object] =>
      if bool_decide (ssn = WILDCARD_SESSION) then Err EInvalidConfig
      else if bool_decide (object = WILDCARD_SESSION) then Err EInvalidConfig
      else Ok (mkKey app ssn (Some object))
  | _ => Err EInvalidConfig
  end.

Definition is_all_sessions (key : ObjectKey) : bool := bool_decide (session_id key = WILDCARD_SESSION).

Definition to_key (key : ObjectKey) : option string :=
  if is_all_sessions key then None
  else (fun oid => app_name key +:+ "/" +:+ session_id key +:+ "/" +:+ oid) <$> object_id key.

Definition to_prefix (key : ObjectKey) : string :=
  if is_all_sessions key then app_name key else app_name key +:+ "/" +:+ session_id key.

Definition matches (key : ObjectKey) (key_str : string) : bool :=
  if is_all_sessions key then starts_with (app_name key +:+ "/") key_str
  else match to_key key with
       | Some full_key => bool_decide (key_str = full_key)
       | None => starts_with (to_prefix key +:+ "/") key_str
       end.

(** [with_generated_id]; [uuid] is what [Uuid::new_v4] drew. *)
Definition with_generated_id (uuid : string) (key : ObjectKey) : ObjectKey :=
  mkKey (app_name key) (session_id key) (Some uuid).

Definition with_object_id (id : string) (key : ObjectKey) : result ObjectKey :=
  if is_all_sessions key then Err EInvalidConfig
  else if invalid_component id || contains "/" id then Err EInvalidConfig
  else Ok (mkKey (app_name key) (session_id key) (Some id)).

(** [ObjectKey::try_from(&str)]. *)
Definition key_try_from (key : string) : result ObjectKey :=
  match split_slash key with
  | [app; ssn; object] =>
      if existsb invalid_component [app; ssn; object] then Err EInvalidConfig
      else Ok (mkKey app ssn (Some object))
  | _ => Err EInvalidConfig
  end.

(** ** Splitting and joining *)

(** A component has no slash. *)
Fixpoint slash_free (s : string) : Prop :=
  match s with EmptyString => True | String a s => a <> slash /\ slash_free s end.

Definition join (parts : list string) : string := String.concat "/" parts.

Lemma split_slash_nonempty s : exists part parts, split_slash s = part :: parts.
Proof.
  induction s as [|a s (p & ps & IH)]; simpl; [eauto|]. destruct (Ascii.eqb a slash); [eauto|].
  rewrite IH. eauto.
Qed.

Lemma split_slash_free s : Forall slash_free (split_slash s).
Proof.
  induction s as [|a s IH]; simpl; [repeat constructor|]. destruct (Ascii.eqb_spec a slash) as [Ha|Ha].
  - constructor; [exact I|done].
  - destruct (split_slash_nonempty s) as (p & ps & Hs). rewrite Hs in *.
    apply list.Forall_cons in IH as [Hp Hps]. constructor; [split; done|done].
Qed.

Lemma join_split s : join (split_slash s) = s.
Proof.
  induction s as [|a s IH]; simpl; [done|]. destruct (split_slash_nonempty s) as (p & ps & Hs).
  rewrite Hs in *. unfold join in *. destruct (Ascii.eqb_spec a slash) as [->|Ha].
  - change (String slash (String.concat "/" (p :: ps)) = String slash s). by rewrite IH.
  - destruct ps as [|q ps].
    + change (String a (String.concat "/" [p]) = String a s). by rewrite IH.
    + change (String a (String.concat "/" (p :: q :: ps)) = String a s). by rewrite IH.
Qed.

Lemma split_slash_cons part s : slash_free part ->
  split_slash (part +:+ "/" +:+ s) = part :: split_slash s.
Proof.
  induction part as [|a part IH]; simpl; [done|]. intros [Ha Hp].
  destruct (Ascii.eqb_spec a slash); [done|]. by rewrite IH.
Qed.

Lemma split_slash_one part : slash_free part -> split_slash part = [part].
Proof.
  induction part as [|a part IH]; simpl; [done|]. intros [Ha Hp].
  destruct (Ascii.eqb_spec a slash); [done|]. by rewrite IH.
Qed.

Lemma append_assoc (a b c : string) : (a +:+ b) +:+ c = a +:+ (b +:+ c).
Proof. induction a as [|x a IH]; [done|]. exact (f_equal (String x) IH). Qed.

Lemma starts_with_iff p s : starts_with p s = true <-> exists r, s = p +:+ r.
Proof.
  unfold starts_with. revert s. induction p as [|a p IH]; intros s; simpl.
  - split; [intros _; by exists s|]. intros _. by destruct s.
  - destruct s as [|b s]; simpl; [split; [done|by intros [r ?]]|].
    destruct (ascii_dec a b) as [->|Hne].
    + rewrite IH. split; intros [r Hr]; exists r; [by rewrite Hr|by injection Hr].
    + split; [done|]. intros [r [= ? _]]. congruence.
Qed.

(** A component followed by a slash is a prefix of another only if they are the
    same. *)
Lemma component_inj a b r1 r2 : slash_free a -> slash_free b ->
  a +:+ "/" +:+ r1 = b +:+ "/" +:+ r2 -> a = b /\ r1 = r2.
Proof.
  intros Ha Hb Heq. pose proof (f_equal split_slash Heq) as Hs.
  rewrite !split_slash_cons in Hs by done. injection Hs as -> Hr. split; [done|].
  by rewrite <- (join_split r1), Hr, join_split.
Qed.

(** ** Parsed keys *)

Lemma check_components_ok i parts : check_components i parts = Ok tt ->
  Forall (fun part => invalid_component part = false) parts.
Proof.
  revert i. induction parts as [|p ps IH]; intros i; simpl; [constructor|].
  destruct (invalid_component p) eqn:Hp; [done|]. destruct (_ && _); [done|]. intros. constructor; eauto.
Qed.

(** What [key_try_from] accepts. *)
Lemma key_try_from_Ok s k : key_try_from s = Ok k <->
  exists o, object_id k = Some o /\ s = app_name k +:+ "/" +:+ session_id k +:+ "/" +:+ o /\
  Forall (fun part => slash_free part /\ invalid_component part = false) [app_name k; session_id k; o].
Proof.
  unfold key_try_from. split.
  - pose proof (split_slash_free s) as Hf. pose proof (join_split s) as Hj.
    destruct (split_slash s) as [|a [|b [|o [|? ?]]]]; try done.
    destruct (existsb _ _) eqn:He; [done|]. intros [= <-]. exists o. split; [done|]. split; [done|].
    assert (Hb : Forall (fun part => invalid_component part = false) [a; b; o]).
    { apply list.Forall_forall. intros x Hx. destruct (invalid_component x) eqn:Hi; [|done].
      rewrite <- He. symmetry. apply existsb_exists. exists x. split; [by apply list_elem_of_In|done]. }
    rewrite !list.Forall_cons in Hf, Hb |- *. simpl. naive_solver.
  - destruct k as [a b oid]. intros (o & [= ->] & -> & Hall). simpl in *.
    rewrite !list.Forall_cons in Hall. destruct Hall as ([Ha Ia] & [Hb Ib] & [Ho Io] & _).
    rewrite !split_slash_cons, split_slash_one by done. simpl. by rewrite Ia, Ib, Io.
Qed.

(** What [from_path] accepts with an object: the keys of stored objects. *)
Lemma from_path_object s k o : from_path s = Ok k -> object_id k = Some o ->
  key_try_from s = Ok k /\ is_all_sessions k = false.
Proof.
  unfold from_path, key_try_from. destruct (check_components 0 (split_slash s)) as [[]| |] eqn:Hc; simpl; [|done|done].
  apply check_components_ok in Hc. destruct (split_slash s) as [|a [|b [|c [|? ?]]]]; try done.
  - by intros [= <-].
  - rewrite !list.Forall_cons in Hc. destruct Hc as (Ia & Ib & Ic & _).
    case_bool_decide as Hb; [done|]. case_bool_decide; [done|]. intros [= <-] [= <-].
    unfold is_all_sessions. simpl. rewrite Ia, Ib, Ic. simpl. by rewrite bool_decide_eq_false_2.
Qed.

Lemma from_path_free s k : from_path s = Ok k -> slash_free (app_name k) /\ slash_free (session_id k).
Proof.
  unfold from_path. pose proof (split_slash_free s) as Hf. destruct (check_components _ _) as [[]| |]; simpl; [|done|done].
  destruct (split_slash s) as [|a [|b [|c [|? ?]]]]; try done; rewrite !list.Forall_cons in Hf.
  - intros [= <-]. simpl. tauto.
  - case_bool_decide; [done|]. case_bool_decide; [done|]. intros [= <-]. simpl. tauto.
Qed.

(** Printing a key gives back the string it was parsed from: a
    path that [from_path] accepts with an object, and any key that [try_from]
    accepts outside the wildcard session, is the string [to_key] returns, and
    [try_from] reads it back as the same key.  So the strings that index the
    cache's maps and the parsed keys are in one-to-one correspondence. *)
Theorem object_key_roundtrip s k :
  (from_path s = Ok k /\ object_id k <> None) \/ (key_try_from s = Ok k /\ is_all_sessions k = false) ->
  to_key k = Some s /\ key_try_from s = Ok k.
Proof.
  intros Hk. assert (Ht : key_try_from s = Ok k /\ is_all_sessions k = false).
  { destruct Hk as [[Hp Ho]|Hk]; [|done]. destruct (object_id k) as [o|] eqn:Hoid; [|done].
    by apply (from_path_object s k o). }
  destruct Ht as [Ht Ha]. split; [|done]. apply key_try_from_Ok in Ht as (o & Ho & -> & _).
  unfold to_key. by rewrite Ha, Ho.
Qed.

Lemma object_key_roundtrip_witness :
  from_path "app/ssn/o1" = Ok (mkKey "app" "ssn" (Some "o1")) /\
  to_key (mkKey "app" "ssn" (Some "o1")) = Some "app/ssn/o1" /\ from_path "app/*/o1" = Err EInvalidConfig.
Proof.
  split; [vm_compute; reflexivity|]. split; [|vm_compute; reflexivity].
  refine (proj1 (object_key_roundtrip "app/ssn/o1" (mkKey "app" "ssn" (Some "o1")) _)).
  left. split; [vm_compute; reflexivity|discriminate].
Defined.

(** The objects a key stands for. *)
Definition covers (key k : ObjectKey) : Prop :=
  app_name k = app_name key /\
  (is_all_sessions key = true \/
   session_id k = session_id key /\ (object_id key = None \/ object_id key = object_id k)).

Lemma matches_covers path key s k :
  from_path path = Ok key -> key_try_from s = Ok k ->
  matches key s = true <-> covers key k.
Proof.
  intros Hp Hk. apply key_try_from_Ok in Hk as (o & Ho & -> & Hall).
  rewrite !list.Forall_cons in Hall. destruct Hall as ([Ha _] & [Hb _] & [Hof _] & _).
  destruct (from_path_free _ _ Hp) as [Hka Hkb]. unfold matches, covers.
  destruct (is_all_sessions key) eqn:Hw.
  { rewrite starts_with_iff. split.
    - intros [r Hr]. rewrite append_assoc in Hr. apply component_inj in Hr as [-> _]; auto.
    - intros [-> _]. eexists. rewrite append_assoc. reflexivity. }
  unfold to_key, to_prefix. rewrite Hw. destruct (object_id key) as [o'|] eqn:Ho'; simpl.
  - rewrite bool_decide_eq_true. split.
    + intros Heq. apply component_inj in Heq as [-> Heq]; [|done..].
      apply component_inj in Heq as [-> ->]; [|done..]. rewrite Ho. eauto.
    + intros [-> [?|[-> [?|Hoo]]]]; [done|done|]. by rewrite Ho in Hoo; simplify_eq.
  - rewrite starts_with_iff. split.
    + intros [r Hr]. rewrite !append_assoc in Hr. apply component_inj in Hr as [-> Hr]; [|done..].
      apply component_inj in Hr as [-> _]; [|done..]. eauto.
    + intros [-> [?|[-> _]]]; [done|]. eexists. rewrite !append_assoc. reflexivity.
Qed.

(** [functional] A key selects exactly the objects it names: the comparison
    of strings in [matches] accepts the key of a stored object if and only if
    the object is of the same application and, unless the session is the
    wildcard, of the same session and, if the key names one, is that object.
    No session whose name extends another one's is selected with it. *)
Theorem matches_exact path key s k :
  from_path path = Ok key -> key_try_from s = Ok k ->
  matches key s = true <-> covers key k.
Proof. apply matches_covers. Qed.

Lemma matches_exact_witness :
  matches (mkKey "app" "s1" None) "app/s1/o" = true /\ matches (mkKey "app" "s1" None) "app/s10/o" = false.
Proof.
  split.
  - refine (proj2 (matches_exact "app/s1" (mkKey "app" "s1" None) "app/s1/o" (mkKey "app" "s1" (Some "o")) _ _) _);
      [vm_compute; reflexivity..|]. split; [done|]. right. split; [done|by left].
  - destruct (matches (mkKey "app" "s1" None) "app/s10/o") eqn:Hm; [|done].
    assert (Hc : covers (mkKey "app" "s1" None) (mkKey "app" "s10" (Some "o"))).
    { refine (proj1 (matches_exact "app/s1" (mkKey "app" "s1" None) "app/s10/o" (mkKey "app" "s10" (Some "o")) _ _) Hm);
        vm_compute; reflexivity. }
    destruct Hc as [_ [Hc|[Hc _]]]; discriminate Hc.
Defined.
