(* ===== verification/ObjStore.v ===== *)
(** * Objects and their storage engines ([object_cache/src/cache.rs],
    [storage/mod.rs], [storage/none.rs])

    The objects of the cache, the trait [StorageEngine] as a record of
    operations, and the engine that stores nothing.  A stream of chunks is the
    list of what it yields; the first error ends it.  Time stamps are
    milliseconds; a value that [new] reads from the clock and the caller
    overwrites is not read. *)
From Stdlib Require Import Ascii.
From S2P Require Import Prelude Types Engine FsDisk FsRecord ObjKey.
Local Open Scope Z_scope.

Record ObjectData := mkData { od_creation_time : Z; od_data : bytes }.

Definition data_size (d : ObjectData) : Z := len (od_data d).

Record Object := mkObject {
  ob_version : Z;
  ob_data_type : string;
  ob_data : list ObjectData
}.

(** [Object::size_bytes]; [sum] wraps in a release build. *)
Definition size_bytes (o : Object) : Z := wrap_u64 (Zsum data_size (ob_data o)).

Record ObjectMetadata := mkMeta {
  om_endpoint : string;
  om_key : string;
  om_version : Z;
  om_size : Z;
  om_creation_time : Z;
  om_data_type : string
}.

Definition with_size (size : Z) (m : ObjectMetadata) : ObjectMetadata :=
  mkMeta (om_endpoint m) (om_key m) (om_version m) size (om_creation_time m) (om_data_type m).

Definition with_endpoint (endpoint : string) (m : ObjectMetadata) : ObjectMetadata :=
  mkMeta endpoint (om_key m) (om_version m) (om_size m) (om_creation_time m) (om_data_type m).

Record Record_ := mkRecord { rc_offset : Z; rc_len : Z; rc_creation_time : Z }.

Record ObjectStat := mkStat { os_data_type : string; os_records : list Record_ }.

(** The closure of [ObjectStat::of] maps the parts from [offset] on. *)
Fixpoint records_from (offset : Z) (parts : list ObjectData) : list Record_ :=
  match parts with
  | [] => []
  | part :: parts =>
      mkRecord offset (data_size part) (od_creation_time part) ::
      records_from (wrap_u64 (offset + data_size part)) parts
  end.

Definition stat_of (o : Object) : ObjectStat := mkStat (ob_data_type o) (records_from 0 (ob_data o)).

Definition stat_version (s : ObjectStat) : Z := Z.of_nat (length (os_records s)).

(** [self.records[0]] panics on an object without parts. *)
Definition stat_creation_time (s : ObjectStat) : result Z :=
  match os_records s with r :: _ => Ok (rc_creation_time r) | [] => Panic end.

Definition stat_size (s : ObjectStat) : Z := wrap_u64 (Zsum rc_len (os_records s)).

(** [payload_range]: the bounds of a range within [total] bytes. *)
Definition payload_range (offset n total : Z) : result (Z * Z) :=
  if (offset + n <=? u64_max) && (offset + n <=? total) then Ok (offset, offset + n) else Err EInvalidState.

Definition slice (range : Z * Z) (data : bytes) : bytes :=
  take (Z.to_nat (range.2 - range.1)) (drop (Z.to_nat range.1) data).

(** The trait [StorageEngine] over the state [S] of an engine; [F] are the open
    files of an object. *)
Record StorageEngine (F S : Type) := mkEngine {
  write_stream : ObjectKey -> ObjectMetadata -> list (result bytes) -> M S ObjectMetadata;
  read_range : ObjectKey -> nat -> Z -> Z -> M S bytes;
  open_object : ObjectKey -> M S (option F);
  stat : ObjectKey -> M S (option ObjectStat);
  patch_object : ObjectKey -> ObjectData -> M S ObjectMetadata;
  delete_objects : ObjectKey -> M S unit;
  scan : M S (list (ObjectKey * ObjectStat));
  touch : ObjectKey -> S -> S
}.
Arguments mkEngine {F S}.
Arguments write_stream {F S}.
Arguments read_range {F S}.
Arguments open_object {F S}.
Arguments stat {F S}.
Arguments patch_object {F S}.
Arguments delete_objects {F S}.
Arguments scan {F S}.
Arguments touch {F S}.

(** The data of a stream up to its end or its first error ([try_fold]). *)
Fixpoint drain (chunks : list (result bytes)) : result bytes :=
  match chunks with
  | [] => Ok []
  | chunk :: chunks => data ← chunk; rest ← drain chunks; Ok (data ++ rest)
  end.

Fixpoint chunks_size (size : Z) (chunks : list (result bytes)) : result Z :=
  match chunks with
  | [] => Ok size
  | chunk :: chunks => data ← chunk; chunks_size (wrap_u64 (size + len data)) chunks
  end.

(** [NoStorage]: writes are accepted and discarded. *)
Definition NoStorage {F S} : StorageEngine F S := {|
  write_stream _ meta chunks :=
    size ← lift (chunks_size 0 chunks);
    mret (with_size size meta);
  read_range _ _ _ _ := throw ENotFound;
  open_object _ := mret None;
  stat _ := mret None;
  patch_object key _ := mret (mkMeta "" (default "" (to_key key)) 0 0 0 "");
  delete_objects _ := mret tt;
  scan := mret [];
  touch _ s := s
|}.

(** ** Lemmas *)

Lemma chunks_size_drain chunks size : 0 <= size ->
  chunks_size (wrap_u64 size) chunks =
  (fun data => wrap_u64 (size + len data)) <$> drain chunks.
Proof.
  revert size. induction chunks as [|[c|e|] chunks IH]; intros size Hs; simpl; [|cbn|done|done].
  - unfold fmap, result_fmap. unfold len. simpl. by rewrite Z.add_0_r.
  - rewrite wrap_u64_add_l, IH by (unfold len; lia). destruct (drain chunks); simpl; [|done|done].
    unfold len. rewrite length_app, Nat2Z.inj_add, Z.add_assoc. done.
Qed.

Lemma chunks_size_0 chunks : chunks_size 0 chunks = (fun data => wrap_u64 (len data)) <$> drain chunks.
Proof. exact (chunks_size_drain chunks 0 ltac:(done)). Qed.

Lemma records_from_length offset parts : length (records_from offset parts) = length parts.
Proof. revert offset. induction parts as [|p ps IH]; intros; simpl; [done|by rewrite IH]. Qed.

Lemma stat_of_version o : stat_version (stat_of o) = Z.of_nat (length (ob_data o)).
Proof. unfold stat_version, stat_of. simpl. by rewrite records_from_length. Qed.

Lemma records_from_sum offset parts : Zsum rc_len (records_from offset parts) = Zsum data_size parts.
Proof. revert offset. induction parts as [|p ps IH]; intros; simpl; [done|by rewrite IH]. Qed.

Lemma stat_of_size o : stat_size (stat_of o) = size_bytes o.
Proof. unfold stat_size, size_bytes, stat_of. simpl. by rewrite records_from_sum. Qed.

(** * What a storage engine promises to the object cache

    The contract of the trait [StorageEngine] ([object_cache/src/storage/mod.rs])
    as a class: an engine holds a map from keys to objects, and each operation
    reads or changes that map.  The cache and the collector are verified against
    it; [CacheOnly] and [FileStore] discharge it for the two configurations of
    [connect]. *)

(** Objects within the limits of the engines: a signed time stamp for each part,
    at most a file of payloads, at most one part and [MAX_APPENDS_PER_OBJECT]
    more, and a data type the service accepts. *)
Record fits (o : Object) : Prop := {
  ft_version : ob_version o = 0;
  ft_parts : ob_data o <> [];
  ft_times : Forall (fun d => is_i64 (od_creation_time d)) (ob_data o);
  ft_size : Zsum data_size (ob_data o) <= max_file_len;
  ft_count : (length (ob_data o) <= 1001)%nat;
  ft_type : (String.length (ob_data_type o) <= 128)%nat
}.

(** An object as it is created, and with one more part. *)
Definition created (meta : ObjectMetadata) (data : bytes) : Object :=
  mkObject 0 (om_data_type meta) [mkData (om_creation_time meta) data].
Definition append_part (data : ObjectData) (o : Object) : Object :=
  mkObject (ob_version o) (ob_data_type o) (ob_data o ++ [data]).

Abbreviation objects := (gmap string Object).

(** The objects a delete leaves. *)
Definition unmatched (key : ObjectKey) (m : objects) : objects :=
  filter (fun kv : string * Object => matches key kv.1 = false) m.

(** A key a client can give an object: parsed by [from_path] or completed by a
    generated identifier. *)
Record object_key (key : ObjectKey) (k : string) : Prop := {
  ok_parse : key_try_from k = Ok key;
  ok_key : to_key key = Some k;
  ok_path : from_path k = Ok key
}.

Class StoreSpec {F T} (E : StorageEngine F T) := {
  (** The objects in the state of the engine. *)
  holds : T -> objects -> Prop;
  (** The keys the engine can tell apart. *)
  supported : ObjectKey -> Prop;
  (** Whether an object stays until it is deleted. *)
  lossless : Prop;
  spec_fits s m k o : holds s m -> m !! k = Some o -> fits o;
  spec_write s m key k meta chunks data :
    holds s m -> supported key -> object_key key k -> m !! k = None ->
    drain chunks = Ok data -> fits (created meta data) ->
    exists s' m', write_stream E key meta chunks s = (Ok (with_size (len data) meta), s') /\
      holds s' m' /\ m' ⊆ <[k := created meta data]> m /\
      (lossless -> m' = <[k := created meta data]> m);
  spec_write_broken s m key k meta chunks e :
    holds s m -> supported key -> object_key key k -> m !! k = None -> drain chunks = Err e ->
    exists s', write_stream E key meta chunks s = (Err e, s') /\ holds s' m;
  spec_stat s m key k :
    holds s m -> supported key -> object_key key k ->
    exists s', stat E key s = (Ok (stat_of <$> m !! k), s') /\ holds s' m;
  spec_read s m key k o i d offset n :
    holds s m -> supported key -> object_key key k -> m !! k = Some o -> ob_data o !! i = Some d ->
    0 <= offset -> 0 <= n -> offset + n <= data_size d ->
    exists s', read_range E key i offset n s = (Ok (slice (offset, offset + n) (od_data d)), s') /\ holds s' m;
  spec_patch s m key k o data :
    holds s m -> supported key -> object_key key k -> m !! k = Some o -> fits (append_part data o) ->
    exists meta s' m', patch_object E key data s = (Ok meta, s') /\
      holds s' m' /\ m' ⊆ <[k := append_part data o]> m /\
      (lossless -> m' = <[k := append_part data o]> m);
  spec_delete s m path key :
    holds s m -> supported key -> from_path path = Ok key ->
    exists s', delete_objects E key s = (Ok tt, s') /\ holds s' (unmatched key m);
  spec_touch s m key : holds s m -> holds (touch E key s) m
}.

(** ** Lemmas *)

Lemma Zsum_data_nonneg parts : 0 <= Zsum data_size parts.
Proof. apply Zsum_nonneg. intros d _. unfold data_size, len. lia. Qed.

Lemma fits_size o : fits o -> size_bytes o = Zsum data_size (ob_data o) /\ 0 <= size_bytes o <= max_file_len.
Proof.
  intros []. pose proof (Zsum_data_nonneg (ob_data o)). unfold size_bytes, max_file_len in *.
  rewrite wrap_u64_small by width. lia.
Qed.

Lemma object_key_inj key1 key2 k : object_key key1 k -> object_key key2 k -> key1 = key2.
Proof. intros [H1 _ _] [H2 _ _]. congruence. Qed.

Lemma object_key_object key k : object_key key k -> exists o, object_id key = Some o /\ is_all_sessions key = false.
Proof.
  intros [_ Hk _]. unfold to_key in Hk. destruct (is_all_sessions key); [done|].
  destruct (object_id key); [eauto|done].
Qed.

(** Parsed keys of one object. *)
Lemma from_path_object_key path key : from_path path = Ok key -> object_id key <> None -> object_key key path.
Proof.
  intros Hp Ho. destruct (object_id key) as [o|] eqn:Hoid; [|done].
  destruct (from_path_object path key o Hp Hoid) as [Ht Ha]. split; [done| |done].
  apply key_try_from_Ok in Ht as (o' & Ho' & -> & _). unfold to_key. by rewrite Ha, Ho'.
Qed.

Lemma matches_object key k s : object_key key k -> matches key s = bool_decide (s = k).
Proof.
  intros Hk. destruct (object_key_object key k Hk) as (o & _ & Ha). destruct Hk as [_ Hk _].
  unfold matches. by rewrite Ha, Hk.
Qed.

Lemma unmatched_object key k m : object_key key k -> unmatched key m = delete k m.
Proof.
  intros Hk. apply map_eq. intros j. unfold unmatched. rewrite map_lookup_filter.
  destruct (decide (j = k)) as [->|Hne].
  - rewrite lookup_delete_eq. destruct (m !! k); simpl; [|done]. rewrite option_guard_False; [done|].
    rewrite (matches_object _ _ _ Hk). by rewrite bool_decide_eq_true_2.
  - rewrite lookup_delete_ne by done. destruct (m !! j); simpl; [|done]. rewrite option_guard_True; [done|].
    rewrite (matches_object _ _ _ Hk). by rewrite bool_decide_eq_false_2.
Qed.

Lemma lookup_unmatched key m k o : unmatched key m !! k = Some o <-> m !! k = Some o /\ matches key k = false.
Proof. unfold unmatched. rewrite map_lookup_filter_Some. done. Qed.
