(* ===== verification/ObjOs.v ===== *)
(** * The file system under the object cache

    The calls of [std::fs] that [object_cache/src/storage/disk.rs] makes.  An
    open file is an inode, so it outlives its name; every file is written at
    its end.  Any call may fail: which ones do, and how much of a failed write
    or removal took effect, is the parameter [Disk] of the file system under
    the storage engine. *)
From Stdlib Require Import Ascii.
From S2P Require Import Prelude FsDisk.
Local Open Scope Z_scope.

(** What the engine distinguishes of a [std::io::Error]; [OsExists] stands for
    [AlreadyExists] and [DirectoryNotEmpty]. *)
Inductive OsError := OsNotFound | OsExists | OsOther.

Inductive ores (A : Type) := OOk (a : A) | OErr (e : OsError).
Arguments OOk {A} _.
Arguments OErr {A} _.

(** Names, directories and the contents of the files; [o_counts] are the
    counters of the objects the process has open, [o_fresh] numbers inodes and
    counters, [o_uuids] the identifiers drawn. *)
Record Os := mkOs {
  o_names : gmap path nat;
  o_dirs : gset path;
  o_inodes : gmap nat bytes;
  o_counts : gmap nat nat;
  o_fresh : nat;
  o_uuids : nat;
  o_calls : nat
}.

Definition set_names (m : gmap path nat) (o : Os) : Os :=
  mkOs m (o_dirs o) (o_inodes o) (o_counts o) (o_fresh o) (o_uuids o) (o_calls o).
Definition set_dirs (d : gset path) (o : Os) : Os :=
  mkOs (o_names o) d (o_inodes o) (o_counts o) (o_fresh o) (o_uuids o) (o_calls o).
Definition set_inode (i : nat) (c : bytes) (o : Os) : Os :=
  mkOs (o_names o) (o_dirs o) (<[i := c]> (o_inodes o)) (o_counts o) (o_fresh o) (o_uuids o) (o_calls o).
Definition set_count (h n : nat) (o : Os) : Os :=
  mkOs (o_names o) (o_dirs o) (o_inodes o) (<[h := n]> (o_counts o)) (o_fresh o) (o_uuids o) (o_calls o).
Definition tick_fresh (o : Os) : Os :=
  mkOs (o_names o) (o_dirs o) (o_inodes o) (o_counts o) (S (o_fresh o)) (o_uuids o) (o_calls o).
Definition tick_uuid (o : Os) : Os :=
  mkOs (o_names o) (o_dirs o) (o_inodes o) (o_counts o) (o_fresh o) (S (o_uuids o)) (o_calls o).
Definition tick_call (o : Os) : Os :=
  mkOs (o_names o) (o_dirs o) (o_inodes o) (o_counts o) (o_fresh o) (o_uuids o) (S (o_calls o)).

Definition os_children (dir : path) (o : Os) : gset string :=
  list_to_set (omap (child_of dir) (elements (o_dirs o) ++ (map_to_list (o_names o)).*1)).

Definition path_exists (p : path) (o : Os) : bool :=
  bool_decide (p ∈ o_dirs o) || bool_decide (is_Some (o_names o !! p)).

Definition prune (dir : path) (keep : path -> bool) (o : Os) : Os :=
  set_names (filter (fun pi : path * nat => negb (under dir pi.1) || keep pi.1 = true) (o_names o))
    (set_dirs (filter (fun p => negb (under dir p) || keep p = true) (o_dirs o)) o).

(** Where [p] is after [src] became [dst]. *)
Definition relocate (src dst p : path) : path :=
  if under src p then dst ++ drop (length src) p else p.

Definition move (src dst : path) (o : Os) : Os :=
  set_names (list_to_map (prod_map (relocate src dst) id <$> map_to_list (o_names o)))
    (set_dirs (set_map (relocate src dst) (o_dirs o)) o).

Section calls.
Context `{Disk}.

Definition ocall {A} (broken : nat -> nat -> Os -> Os) (ok : Os -> ores A * Os) : M Os (ores A) := fun o =>
  let n := o_calls o in
  match io_fault n with
  | Some k => (Ok (OErr OsOther), broken n k (tick_call o))
  | None => let '(r, o) := ok (tick_call o) in (Ok r, o)
  end.

Definition unharmed (n k : nat) (o : Os) : Os := o.

(** [Path::exists] and [Path::is_dir]: an error is [false]. *)
Definition os_exists (p : path) : M Os bool :=
  ocall unharmed (fun o => (OOk (path_exists p o), o)) ≫= fun r =>
  mret (match r with OOk b => b | OErr _ => false end).
Definition os_is_dir (p : path) : M Os bool :=
  ocall unharmed (fun o => (OOk (bool_decide (p ∈ o_dirs o)), o)) ≫= fun r =>
  mret (match r with OOk b => b | OErr _ => false end).

Definition os_create_dir_all (p : path) : M Os (ores unit) :=
  ocall (fun _ k o => set_dirs (list_to_set (take k (ancestors p)) ∪ o_dirs o) o)
    (fun o =>
      if existsb (fun a => bool_decide (is_Some (o_names o !! a))) (ancestors p) then (OErr OsOther, o)
      else (OOk tt, set_dirs (list_to_set (ancestors p) ∪ o_dirs o) o)).

Definition os_create_dir (p : path) : M Os (ores unit) :=
  ocall unharmed (fun o =>
    if negb (bool_decide (parent p ∈ o_dirs o)) then (OErr OsNotFound, o)
    else if path_exists p o then (OErr OsExists, o)
    else (OOk tt, set_dirs ({[p]} ∪ o_dirs o) o)).

(** [OpenOptions::new().write(true).create_new(true).open(p)]. *)
Definition os_create_new (p : path) : M Os (ores nat) :=
  ocall unharmed (fun o =>
    if negb (bool_decide (parent p ∈ o_dirs o)) then (OErr OsNotFound, o)
    else if path_exists p o then (OErr OsExists, o)
    else (OOk (o_fresh o), tick_fresh (set_inode (o_fresh o) [] (set_names (<[p := o_fresh o]> (o_names o)) o)))).

(** [OpenOptions::new().read(true).append(true).open(p)]. *)
Definition os_open (p : path) : M Os (ores nat) :=
  ocall unharmed (fun o =>
    (match o_names o !! p with Some i => OOk i | None => OErr OsNotFound end, o)).

(** [fs::read]. *)
Definition os_read (p : path) : M Os (ores bytes) :=
  ocall unharmed (fun o =>
    (match o_names o !! p ≫= (o_inodes o !!.) with Some c => OOk c | None => OErr OsNotFound end, o)).

(** [write_all] to a file at its end. *)
Definition os_append (i : nat) (data : bytes) : M Os (ores unit) :=
  let put data o := match o_inodes o !! i with Some c => set_inode i (c ++ data) o | None => o end in
  ocall (fun _ k o => put (take k data) o)
    (fun o =>
      match o_inodes o !! i with
      | Some c => if max_file_len <? len c + len data then (OErr OsOther, o) else (OOk tt, put data o)
      | None => (OErr OsOther, o)
      end).

(** [sync_all] and [sync_data]. *)
Definition os_sync (i : nat) : M Os (ores unit) := ocall unharmed (fun o => (OOk tt, o)).

Definition os_len (i : nat) : M Os (ores Z) :=
  ocall unharmed (fun o => (match o_inodes o !! i with Some c => OOk (len c) | None => OErr OsOther end, o)).

(** [set_len] to at most the length of the file. *)
Definition os_set_len (i : nat) (n : Z) : M Os (ores unit) :=
  ocall unharmed (fun o =>
    match o_inodes o !! i with
    | Some c => (OOk tt, set_inode i (take (Z.to_nat n) c) o)
    | None => (OErr OsOther, o)
    end).

Definition os_read_exact_at (i : nat) (n offset : Z) : M Os (ores bytes) :=
  ocall unharmed (fun o =>
    (match o_inodes o !! i with
     | Some c => if offset + n <=? len c then OOk (take (Z.to_nat n) (drop (Z.to_nat offset) c)) else OErr OsOther
     | None => OErr OsOther
     end, o)).

(** [fs::rename] of a directory: it may replace an empty one. *)
Definition os_rename_dir (src dst : path) : M Os (ores unit) :=
  ocall unharmed (fun o =>
    if negb (bool_decide (src ∈ o_dirs o) && bool_decide (parent dst ∈ o_dirs o)) then (OErr OsNotFound, o)
    else if bool_decide (is_Some (o_names o !! dst)) || under src dst then (OErr OsOther, o)
    else if bool_decide (os_children dst o <> ∅) then (OErr OsExists, o)
    else (OOk tt, move src dst o)).

Definition os_remove_dir_all (p : path) : M Os (ores unit) :=
  ocall (fun n _ o => prune p (io_keeps n) o)
    (fun o =>
      if bool_decide (p ∈ o_dirs o) then (OOk tt, prune p (fun _ => false) o) else (OErr OsNotFound, o)).

(** [fs::remove_dir]: only an empty directory. *)
Definition os_remove_dir (p : path) : M Os (ores unit) :=
  ocall unharmed (fun o =>
    if negb (bool_decide (p ∈ o_dirs o)) then (OErr OsNotFound, o)
    else if bool_decide (os_children p o <> ∅) then (OErr OsExists, o)
    else (OOk tt, set_dirs (o_dirs o ∖ {[p]}) o)).

Definition os_read_dir (p : path) : M Os (ores (list string)) :=
  ocall unharmed (fun o =>
    (if bool_decide (p ∈ o_dirs o) then OOk (dir_order (os_children p o)) else OErr OsNotFound, o)).

(** [call()?]: [FlameError::Storage]. *)
Definition io_try {A} (m : M Os (ores A)) : M Os A :=
  m ≫= fun r => match r with OOk a => mret a | OErr _ => throw EStorage end.
End calls.

(** ** A disk that works *)

Section quiet.
Context `{Disk}.
Hypothesis quiet : forall n, io_fault n = None.

Lemma ocall_quiet {A} b (ok : Os -> ores A * Os) o :
  ocall b ok o = (Ok (ok (tick_call o)).1, (ok (tick_call o)).2).
Proof. unfold ocall. rewrite quiet. by destruct (ok (tick_call o)). Qed.

Lemma io_try_quiet {A} b (ok : Os -> ores A * Os) o a o' :
  ok (tick_call o) = (OOk a, o') -> io_try (ocall b ok) o = (Ok a, o').
Proof. intros Hok. unfold io_try, mbind, M_bind. rewrite ocall_quiet, Hok. done. Qed.

Lemma os_len_quiet i c o : o_inodes o !! i = Some c -> io_try (os_len i) o = (Ok (len c), tick_call o).
Proof. intros Hi. apply io_try_quiet. simpl. by rewrite Hi. Qed.

Lemma os_read_exact_quiet i c n offset o : o_inodes o !! i = Some c -> offset + n <= len c ->
  io_try (os_read_exact_at i n offset) o = (Ok (take (Z.to_nat n) (drop (Z.to_nat offset) c)), tick_call o).
Proof. intros Hi Hle. apply io_try_quiet. simpl. rewrite Hi. by rewrite (proj2 (Z.leb_le _ _)). Qed.

Lemma os_append_quiet i c data o : o_inodes o !! i = Some c -> len c + len data <= max_file_len ->
  io_try (os_append i data) o = (Ok tt, set_inode i (c ++ data) (tick_call o)).
Proof. intros Hi Hle. apply io_try_quiet. simpl. rewrite Hi. by rewrite (proj2 (Z.ltb_ge _ _)). Qed.

Lemma os_sync_quiet i o : io_try (os_sync i) o = (Ok tt, tick_call o).
Proof. by apply io_try_quiet. Qed.

Lemma os_open_quiet p i o : o_names o !! p = Some i -> io_try (os_open p) o = (Ok i, tick_call o).
Proof. intros Hp. apply io_try_quiet. simpl. by rewrite Hp. Qed.

Lemma os_read_quiet p i b o : o_names o !! p = Some i -> o_inodes o !! i = Some b ->
  io_try (os_read p) o = (Ok b, tick_call o).
Proof. intros Hp Hi. apply io_try_quiet. simpl. rewrite Hp. simpl. by rewrite Hi. Qed.

Lemma os_set_len_quiet i c n o : o_inodes o !! i = Some c ->
  io_try (os_set_len i n) o = (Ok tt, set_inode i (take (Z.to_nat n) c) (tick_call o)).
Proof. intros Hi. apply io_try_quiet. simpl. by rewrite Hi. Qed.

Lemma os_exists_quiet p o : os_exists p o = (Ok (path_exists p o), tick_call o).
Proof. unfold os_exists, mbind, M_bind. rewrite ocall_quiet. done. Qed.
End quiet.
