(* ===== verification/EventFiles.v ===== *)
(** * Events in files ([common/src/events/fs.rs])

    [FsEventManager] keeps the events of a session in a directory: the messages
    one after the other in a file ([common/src/storage/data.rs]), records of a
    fixed size in another, and with them the list of the owners of the records
    and the size ([common/src/storage/object.rs]).  The files are those of
    [ObjOs]: an open file outlives its name, and any call may fail.  Records are
    encoded by [postcard] and the size by [serde_json]: both are behind an
    interface. *)
From Stdlib Require Import Ascii.
From stdpp Require Import pretty.
From S2P Require Import Prelude Text Types Events FsDisk ObjOs.
Local Open Scope Z_scope.

(** ** Calls *)

Section calls.
Context `{Disk}.

(** [OpenOptions] with [create(true)] and without truncation. *)
Definition os_open_create (p : path) : M Os (ores nat) :=
  ocall unharmed (fun o =>
    match o_names o !! p with
    | Some i => (OOk i, o)
    | None =>
        if negb (bool_decide (parent p ∈ o_dirs o)) then (OErr OsNotFound, o)
        else if bool_decide (p ∈ o_dirs o) then (OErr OsOther, o)
        else (OOk (o_fresh o),
              tick_fresh (set_inode (o_fresh o) [] (set_names (<[p := o_fresh o]> (o_names o)) o)))
    end).

(** [seek]: an offset is a signed number. *)
Definition os_seek (offset : Z) : M Os (ores unit) :=
  ocall unharmed (fun o => if max_file_len <? offset then (OErr OsOther, o) else (OOk tt, o)).

(** [write_all] at the offset of the file. *)
Definition os_write_at (i : nat) (data : bytes) (offset : Z) : M Os (ores unit) :=
  let put data o :=
    match o_inodes o !! i with
    | Some c => set_inode i (overlay (Z.to_nat offset) data c) o
    | None => o
    end in
  ocall (fun _ k o => if max_file_len <? offset + len data then o else put (take k data) o)
    (fun o => if max_file_len <? offset + len data then (OErr OsOther, o) else (OOk tt, put data o)).

Definition os_canonicalize (p : path) : M Os (ores path) :=
  ocall unharmed (fun o => (if path_exists p o then OOk p else OErr OsNotFound, o)).

Definition os_remove_file (p : path) : M Os (ores unit) :=
  ocall unharmed (fun o =>
    match o_names o !! p with
    | Some _ => (OOk tt, set_names (delete p (o_names o)) o)
    | None => (OErr OsNotFound, o)
    end).

(** [fs::read_to_string]. *)
Definition os_read_to_string (p : path) : M Os (ores string) :=
  r ← os_read p;
  mret (match r with
        | OOk c => if is_utf8 (String.string_of_list_ascii c) then OOk (String.string_of_list_ascii c) else OErr OsOther
        | OErr e => OErr e
        end).
End calls.

(** ** Records *)

(** A range of the file of messages. *)
Record Index := mkIndex { ix_start : Z; ix_end : Z }.

Record EventDao := mkDao {
  dao_id : Z;
  dao_owner : Z;
  dao_code : Z;
  dao_message : Index;
  dao_creation_time : Z
}.

Definition set_id (id : Z) (d : EventDao) : EventDao :=
  mkDao id (dao_owner d) (dao_code d) (dao_message d) (dao_creation_time d).

(** [self.owner as ObjectId]. *)
Definition owner_id (d : EventDao) : Z := wrap_u64 (dao_owner d).

Record dao_ok (d : EventDao) : Prop := {
  dok_id : is_u64 (dao_id d);
  dok_owner : is_i64 (dao_owner d);
  dok_code : is_i32 (dao_code d);
  dok_start : is_u64 (ix_start (dao_message d));
  dok_end : is_u64 (ix_end (dao_message d));
  dok_time : is_i64 (dao_creation_time d)
}.

(** [postcard] of a record and [serde_json] of the size. *)
Class EventCodec := {
  dao_to_allocvec : EventDao -> option bytes;
  dao_take_from_bytes : bytes -> option (EventDao * bytes);
  size_to_string : Z -> option bytes;
  size_from_str : bytes -> option Z
}.

(** A record of [fixint] fields has a fixed size; what was written reads back;
    JSON is text. *)
Class EventCodecSpec `{EventCodec} := {
  dao_size : nat;
  dao_size_pos : (0 < dao_size <= 1024)%nat;
  dao_to_allocvec_ok : forall d, dao_ok d -> exists b, dao_to_allocvec d = Some b /\ length b = dao_size;
  dao_take_to : forall d b rest, dao_ok d -> dao_to_allocvec d = Some b ->
    dao_take_from_bytes (b ++ rest) = Some (d, rest);
  size_to_string_ok : forall n, is_u64 n -> exists b, size_to_string n = Some b /\ b <> [] /\
    is_utf8 (String.string_of_list_ascii b) = true /\ size_from_str b = Some n /\ len b <= 1024
}.

(** The order a [HashMap] with numbers as keys is iterated in. *)
Class OwnerOrder := {
  ho_iter : gmap Z (list Z) -> list (Z * list Z);
  ho_iter_perm : forall m, ho_iter m ≡ₚ map_to_list m
}.

(** ** Files of objects ([storage/object.rs]) *)

Inductive fkind := FMeta | FOwners | FData | FMessages.

Definition fname (k : fkind) : string :=
  match k with
  | FMeta => "events.json" | FOwners => "events.csv" | FData => "events.dat"
  | FMessages => "event_messages.dat"
  end.

Record ObjectStorage := mkObjects {
  ob_size : Z;
  ob_metadata_file : nat;
  ob_owners : gmap Z (list Z);
  ob_owners_file : nat;
  ob_data_file : nat;
  ob_dir : path
}.

Record DataStorage := mkData { dt_path : path; dt_file : nat }.

Record EventStorage := mkEventStorage { es_objects : ObjectStorage; es_data : DataStorage }.

Definition with_size (n : Z) (s : ObjectStorage) : ObjectStorage :=
  mkObjects n (ob_metadata_file s) (ob_owners s) (ob_owners_file s) (ob_data_file s) (ob_dir s).
Definition with_owners (m : gmap Z (list Z)) (s : ObjectStorage) : ObjectStorage :=
  mkObjects (ob_size s) (ob_metadata_file s) m (ob_owners_file s) (ob_data_file s) (ob_dir s).

(** [owners.entry(owner).or_default().push(id)]. *)
Definition push_owner (owner id : Z) (m : gmap Z (list Z)) : gmap Z (list Z) :=
  <[owner := default [] (m !! owner) ++ [id]]> m.

(** [vec![0; n]]: more than [isize::MAX] bytes is a panic. *)
Definition alloc (n : Z) : result unit := if 2 ^ 63 - 1 <? n then Panic else Ok tt.

(** [writeln!(file, "{id},{owner}")]; the parts of the line are written one by
    one, so any prefix of it may be left by an error. *)
Definition owner_line (id owner : Z) : string :=
  pretty id +:+ "," +:+ pretty owner +:+ String newline EmptyString.

Section storage.
Context `{Disk} `{Chrono} `{EventCodec} `{OwnerOrder}.

Abbreviation OM := (M (ObjectStorage * Os)).

Definition os {A} (m : M Os (ores A)) : OM A := zoom snd (fun o so => (so.1, o)) (io_try m).
Definition obj {A} (f : ObjectStorage -> A) : OM A := gets (fun so => f so.1).
Definition update (f : ObjectStorage -> ObjectStorage) : OM unit := modify (fun so => (f so.1, so.2)).

Definition next_id : OM Z :=
  size ← obj ob_size;
  if size =? 0 then mret 1
  else
    file ← obj ob_data_file;
    n ← os (os_len file);
    mret (wrap_u64 (n / size + 1)).

Definition seek (id : Z) : OM Z :=
  size ← obj ob_size;
  let offset := wrap_u64 (wrap_u64 (id - 1) * size) in
  os (os_seek offset) ≫= fun _ => mret offset.

Definition check_data_size (data_size : Z) : OM unit :=
  size ← obj ob_size;
  if negb (data_size =? size) then throw EInvalidState else mret tt.

Definition write_data (id : Z) (data : bytes) : OM unit :=
  check_data_size (len data) ≫= fun _ =>
  offset ← seek id;
  file ← obj ob_data_file;
  os (os_write_at file data offset).

Definition update_owners (id owner : Z) : OM unit :=
  file ← obj ob_owners_file;
  os (os_append file (String.list_ascii_of_string (owner_line id owner))) ≫= fun _ =>
  update (fun s => with_owners (push_owner owner id (ob_owners s)) s).

(** The size is kept when it is first known, and written once to the file, whose
    position is still its start. *)
Definition save (object : EventDao) : OM EventDao :=
  id ← next_id;
  let object := set_id id object in
  data ← lift (ok_or (dao_to_allocvec object) EInternal);
  size ← obj ob_size;
  (if size =? 0 then
     update (with_size (len data)) ≫= fun _ =>
     metadata_str ← lift (ok_or (size_to_string (len data)) EInternal);
     file ← obj ob_metadata_file;
     os (os_write_at file metadata_str 0)
   else mret tt) ≫= fun _ =>
  write_data (dao_id object) data ≫= fun _ =>
  update_owners (dao_id object) (owner_id object) ≫= fun _ =>
  mret object.

(** An object that is there is written again. *)
Definition object_update (object : EventDao) : OM EventDao :=
  data ← lift (ok_or (dao_to_allocvec object) EInternal);
  write_data (dao_id object) data ≫= fun _ =>
  mret object.

Definition load (id : Z) : OM EventDao :=
  offset ← seek id;
  size ← obj ob_size;
  lift (alloc size) ≫= fun _ =>
  file ← obj ob_data_file;
  object ← os (os_read_exact_at file size offset);
  lift (match dao_take_from_bytes object with Some (d, _) => Ok d | None => Err EInternal end).

Fixpoint load_all (ids : list Z) : OM (list EventDao) :=
  match ids with
  | [] => mret []
  | id :: ids => d ← load id; ds ← load_all ids; mret (d :: ds)
  end.

(** With an owner to look for, or all. *)
Definition list_objects (filter : option Z) : OM (list EventDao) :=
  ids ← obj (fun s =>
    match filter with
    | Some owner => default [] (ob_owners s !! owner)
    | None => concat (ho_iter (ob_owners s)).*2
    end);
  load_all ids.

Definition load_metadata : OM unit :=
  dir ← obj ob_dir;
  metadata_str ← os (os_read_to_string (dir ++ [fname FMeta]));
  if String.eqb metadata_str EmptyString then update (with_size 0)
  else
    n ← lift (ok_or (size_from_str (String.list_ascii_of_string metadata_str)) EInternal);
    update (with_size n).

(** One line: a line without a comma panics. *)
Definition owner_of_line (line : string) : result (Z * Z) :=
  let pairs := split ","%char line in
  id ← ok_or (parse_u64 (default EmptyString (pairs !! 0%nat))) EInternal;
  owner_text ← match pairs !! 1%nat with Some x => Ok x | None => Panic end;
  owner ← ok_or (parse_u64 owner_text) EInternal;
  Ok (id, owner).

Fixpoint owners_of_lines (l : list string) (m : gmap Z (list Z)) : result (gmap Z (list Z)) :=
  match l with
  | [] => Ok m
  | line :: l => p ← owner_of_line line; owners_of_lines l (push_owner p.2 p.1 m)
  end.

Definition load_owners : OM unit :=
  dir ← obj ob_dir;
  text ← os (os_read_to_string (dir ++ [fname FOwners]));
  owners ← lift (owners_of_lines (lines text) ∅);
  update (with_owners owners).

Definition reload : OM unit := load_metadata ≫= fun _ => load_owners.

(** A storage that nobody has a name for until it is returned. *)
Definition reloaded (s : ObjectStorage) : M Os ObjectStorage := fun o =>
  match reload (s, o) with
  | (Ok _, (s, o)) => (Ok s, o)
  | (Err e, (_, o)) => (Err e, o)
  | (Panic, (_, o)) => (Panic, o)
  end.

Definition object_storage_new (dir : path) : M Os ObjectStorage :=
  data ← io_try (os_open_create (dir ++ [fname FData]));
  owners_file ← io_try (os_open_create (dir ++ [fname FOwners]));
  metadata_file ← io_try (os_open_create (dir ++ [fname FMeta]));
  reloaded (mkObjects 0 metadata_file ∅ owners_file data dir).

Definition object_clear (s : ObjectStorage) : M Os unit :=
  io_try (os_remove_file (ob_dir s ++ [fname FData])) ≫= fun _ =>
  io_try (os_remove_file (ob_dir s ++ [fname FOwners])) ≫= fun _ =>
  io_try (os_remove_file (ob_dir s ++ [fname FMeta])).

(** ** The file of messages ([storage/data.rs]) *)

Definition data_storage_new (dir : path) : M Os DataStorage :=
  data ← io_try (os_open_create (dir ++ [fname FMessages]));
  p ← io_try (os_canonicalize (dir ++ [fname FMessages]));
  mret (mkData p data).

Definition data_save (s : DataStorage) (data : bytes) : M Os Index :=
  tail ← io_try (os_len (dt_file s));
  io_try (os_append (dt_file s) data) ≫= fun _ =>
  mret (mkIndex tail (wrap_u64 (tail + len data))).

Definition data_load (s : DataStorage) (index : Index) : M Os bytes :=
  io_try (os_seek (ix_start index)) ≫= fun _ =>
  let n := wrap_u64 (ix_end index - ix_start index) in
  lift (alloc n) ≫= fun _ =>
  io_try (os_read_exact_at (dt_file s) n (ix_start index)).

Definition data_clear (s : DataStorage) : M Os unit := io_try (os_remove_file (dt_path s)).
End storage.

(** ** The manager

    A session is one name of a path.  The sessions' setup is serialized by
    [Storage], so between the two looks at the registry nobody else adds it. *)

Record FsEventManager := mkFsEvents {
  em_os : Os;
  em_path : path;
  em_storage : gmap string EventStorage;
  em_events : gmap string (gmap Z (list EventDao))
}.

Definition with_em_os (o : Os) (m : FsEventManager) : FsEventManager :=
  mkFsEvents o (em_path m) (em_storage m) (em_events m).
Definition with_em_storage x (m : FsEventManager) : FsEventManager :=
  mkFsEvents (em_os m) (em_path m) x (em_events m).
Definition with_em_events x (m : FsEventManager) : FsEventManager :=
  mkFsEvents (em_os m) (em_path m) (em_storage m) x.

(** [events.entry(session).or_default().entry(task).or_default().push(dao)]. *)
Definition push_event (session : string) (task : Z) (d : EventDao)
    (events : gmap string (gmap Z (list EventDao))) : gmap string (gmap Z (list EventDao)) :=
  let tasks := default ∅ (events !! session) in
  <[session := <[task := default [] (tasks !! task) ++ [d]]> tasks]> events.

Section manager.
Context `{Env} `{Disk} `{Chrono} `{EventCodec} `{OwnerOrder}.

Abbreviation EM := (M FsEventManager).

Definition sys {A} (m : M Os A) : EM A := zoom em_os with_em_os m.

Definition session_dir (session_id : string) (m : FsEventManager) : path := em_path m ++ [session_id].

(** The files of a session's objects, under its lock; what the operation did to
    them stays when it fails. *)
Definition on_objects {A} (session_id : string) (entry : EventStorage)
    (m : M (ObjectStorage * Os) A) : EM A := fun mgr =>
  let '(r, (s, o)) := m (es_objects entry, em_os mgr) in
  (r, with_em_storage (<[session_id := mkEventStorage s (es_data entry)]> (em_storage mgr)) (with_em_os o mgr)).

Definition new_manager (p : path) (o : Os) : result FsEventManager * Os :=
  match io_try (os_create_dir_all p) o with
  | (Ok _, o) => (Ok (mkFsEvents o p ∅ ∅), o)
  | (Err e, o) => (Err e, o)
  | (Panic, o) => (Panic, o)
  end.

Definition setup_event_storage (session_id : string) : EM unit :=
  known ← gets (fun m => bool_decide (is_Some (em_storage m !! session_id)));
  if known : bool then mret tt
  else
    base_path ← gets (session_dir session_id);
    sys (io_try (os_create_dir_all base_path)) ≫= fun _ =>
    objects ← sys (object_storage_new base_path);
    data ← sys (data_storage_new base_path);
    recorded ← sys (fun o => let '(r, (_, o)) := list_objects None (objects, o) in (r, o));
    modify (fun m => with_em_events
      (foldl (fun ev d => push_event session_id (dao_owner d) d ev) (em_events m) recorded) m) ≫= fun _ =>
    modify (fun m => with_em_storage (<[session_id := mkEventStorage objects data]> (em_storage m)) m).

Definition record_event (owner : EventOwner) (event : Event) : EM unit :=
  entry ← gets (fun m => em_storage m !! eo_session_id owner);
  match entry with
  | None => throw ENotFound
  | Some entry =>
      let message := default EmptyString (ev_message event) in
      msg_index ← sys (data_save (es_data entry) (String.list_ascii_of_string message));
      let event_dao := mkDao 0 (eo_task_id owner) (ev_code event) msg_index
                         (timestamp_millis (ev_creation_time event)) in
      on_objects (eo_session_id owner) entry (save event_dao) ≫= fun _ =>
      modify (fun m => with_em_events
        (push_event (eo_session_id owner) (eo_task_id owner) event_dao (em_events m)) m)
  end.

Fixpoint load_events (s : DataStorage) (daos : list EventDao) : M Os (list Event) :=
  match daos with
  | [] => mret []
  | d :: daos =>
      message ← data_load s (dao_message d);
      text ← lift (let t := String.string_of_list_ascii message in
                   if is_utf8 t then Ok t else Err EInvalidConfig);
      creation_time ← lift (ok_or (from_timestamp_millis (dao_creation_time d)) EInternal);
      rest ← load_events s daos;
      mret (mkEvent (dao_code d) (Some text) creation_time :: rest)
  end.

Definition find_events (owner : EventOwner) : EM (list Event) :=
  entry ← gets (fun m => em_storage m !! eo_session_id owner);
  match entry with
  | None => mret []
  | Some entry =>
      event_daos ← gets (fun m =>
        default [] (default ∅ (em_events m !! eo_session_id owner) !! eo_task_id owner));
      sys (load_events (es_data entry) event_daos)
  end.

Definition remove_events (session_id : string) : EM unit :=
  dir_path ← gets (session_dir session_id);
  there ← sys (os_exists dir_path);
  (if there : bool then sys (io_try (os_remove_dir_all dir_path)) else mret tt) ≫= fun _ =>
  modify (fun m => with_em_events (delete session_id (em_events m)) m) ≫= fun _ =>
  modify (fun m => with_em_storage (delete session_id (em_storage m)) m).

Definition clear : EM unit :=
  sessions ← gets (fun m => hm_values (em_storage m));
  for_each sessions (fun entry =>
    sys (object_clear (es_objects entry)) ≫= fun _ => sys (data_clear (es_data entry))) ≫= fun _ =>
  modify (with_em_events ∅).
End manager.
