(* ===== verification/EventFilesInv.v ===== *)
(** * What the event files hold

    The files of a session follow from the log of what was recorded in it: the
    text of each file as a function of the log, how each operation of the
    storages under the manager extends it, and how it is read back. *)
From Stdlib Require Import Ascii.
From stdpp Require Import pretty.
From S2P Require Import Prelude Text Types Events FsDisk ObjOs EventFiles.
Local Open Scope Z_scope.

(** A recorded event with its task. *)
Abbreviation entry := (Z * Event)%type.

Definition message_bytes (e : Event) : bytes :=
  String.list_ascii_of_string (default EmptyString (ev_message e)).

(** [push_owner] of every record. *)
Definition owners_of (ds : list EventDao) : gmap Z (list Z) :=
  foldl (fun m d => push_owner (owner_id d) (dao_id d) m) ∅ ds.

(** ** Lists *)

Lemma Forall2_filter_iff {A B} (R : A -> B -> Prop) (P : A -> Prop) (Q : B -> Prop)
    `{forall x, Decision (P x)} `{forall y, Decision (Q y)} (l : list A) (k : list B) :
  (forall x y, R x y -> P x <-> Q y) -> Forall2 R l k -> Forall2 R (filter P l) (filter Q k).
Proof.
  intros HPQ. induction 1 as [|x y l k Hxy _ IH]; [constructor|]. rewrite !filter_cons.
  specialize (HPQ x y Hxy). destruct (decide (P x)), (decide (Q y)); try tauto. by constructor.
Qed.

Lemma filter_ext_in {A} (P Q : A -> Prop) `{forall x, Decision (P x)} `{forall x, Decision (Q x)} (l : list A) :
  (forall x, x ∈ l -> P x <-> Q x) -> filter P l = filter Q l.
Proof.
  induction l as [|x l IH]; intros HPQ; [done|]. rewrite !filter_cons, IH by set_solver.
  pose proof (HPQ x ltac:(set_solver)). destruct (decide (P x)), (decide (Q x)); tauto.
Qed.

Lemma filter_none {A} (P : A -> Prop) `{forall x, Decision (P x)} (l : list A) :
  (forall x, x ∈ l -> ~ P x) -> filter P l = [].
Proof.
  induction l as [|x l IH]; intros HP; [done|].
  rewrite filter_cons_False, IH; set_solver.
Qed.

Lemma filter_concat {A} (P : A -> Prop) `{forall x, Decision (P x)} (l : list (list A)) :
  filter P (concat l) = concat (filter P <$> l).
Proof. induction l as [|x l IH]; [done|]. simpl. by rewrite list.filter_app, IH. Qed.

(** The pieces of a concatenation that all have the same length. *)
Lemma concat_length {A B} (f : A -> list B) n l :
  Forall (fun x => length (f x) = n) l -> length (concat (f <$> l)) = (length l * n)%nat.
Proof. induction 1 as [|x l Hx _ IH]; [done|]. csimpl. by rewrite length_app, IH, Hx. Qed.

Lemma concat_piece {A B} (f : A -> list B) n l i x :
  Forall (fun x => length (f x) = n) l -> l !! i = Some x ->
  take n (drop (i * n) (concat (f <$> l))) = f x.
Proof.
  intros Hl. revert i. induction Hl as [|y l Hy Hl IH]; intros i Hi; [done|].
  destruct i as [|i]; csimpl in *.
  - injection Hi as ->. by rewrite drop_0, take_app_length'.
  - rewrite drop_app_ge by lia. rewrite Hy. replace (n + i * n - n)%nat with (i * n)%nat by lia. by apply IH.
Qed.

(** ** The owners *)

Lemma owners_of_snoc ds d : owners_of (ds ++ [d]) = push_owner (owner_id d) (dao_id d) (owners_of ds).
Proof. unfold owners_of. by rewrite foldl_app. Qed.

Lemma owners_of_lookup ds o :
  default [] (owners_of ds !! o) = dao_id <$> filter (fun d => owner_id d = o) ds.
Proof.
  induction ds as [|d ds IH] using rev_ind; [by unfold owners_of; simpl; rewrite lookup_empty|].
  rewrite owners_of_snoc, list.filter_app, fmap_app. unfold push_owner. rewrite filter_cons, filter_nil.
  destruct (decide (owner_id d = o)) as [<-|Hne].
  - by rewrite lookup_insert_eq, IH.
  - by rewrite lookup_insert_ne, IH, app_nil_r by done.
Qed.

(** The records of each owner in the order of the owners, by their numbers. *)
Lemma owners_ids ds (l : list (Z * list Z)) : l ⊆ map_to_list (owners_of ds) ->
  concat l.*2 = dao_id <$> concat ((fun k => filter (fun d => owner_id d = k) ds) <$> l.*1).
Proof.
  induction l as [|[k ids] l IH]; intros Hl; [done|]. csimpl. rewrite IH, fmap_app by set_solver. f_equal.
  rewrite <-owners_of_lookup. assert (Hk : (k, ids) ∈ map_to_list (owners_of ds)) by set_solver.
  apply elem_of_map_to_list in Hk. by rewrite Hk.
Qed.

(** A task's records, from those of each owner in any order of the owners. *)
Lemma filter_owners (ds : list EventDao) (P : EventDao -> Prop) `{forall d, Decision (P d)} o ks :
  (forall d, d ∈ ds -> P d -> owner_id d = o) -> NoDup ks ->
  filter P (concat ((fun k => filter (fun d => owner_id d = k) ds) <$> ks)) =
  if bool_decide (o ∈ ks) then filter P ds else [].
Proof.
  intros HP. rewrite filter_concat. induction 1 as [|k ks Hk _ IH]; [done|]. csimpl. rewrite IH, list_filter_filter.
  destruct (decide (o = k)) as [->|Hne].
  - rewrite (bool_decide_eq_true_2 (k ∈ k :: ks)), (bool_decide_eq_false_2 (k ∈ ks)) by set_solver.
    rewrite app_nil_r. apply filter_ext_in. naive_solver.
  - rewrite filter_none; [|naive_solver].
    by rewrite (bool_decide_ext (o ∈ k :: ks) (o ∈ ks)) by set_solver.
Qed.

(** ** The text of the files *)

(** A line of the file of owners, without its end. *)
Definition owner_text (id owner : Z) : string := pretty id +:+ "," +:+ pretty owner.

Lemma owner_line_text id owner : owner_line id owner = owner_text id owner +:+ String newline EmptyString.
Proof. unfold owner_line, owner_text. by rewrite <-!string_app_assoc. Qed.

Lemma owner_line_ascii id owner : 0 <= id -> 0 <= owner -> string_forall is_ascii (owner_line id owner) = true.
Proof.
  intros. unfold owner_line. rewrite !string_forall_app.
  by rewrite (ascii_digits (pretty id)), (ascii_digits (pretty owner)) by (by apply pretty_digits).
Qed.

Lemma owner_line_length id owner : is_u64 id -> is_u64 owner ->
  len (String.list_ascii_of_string (owner_line id owner)) <= 64.
Proof.
  intros Hi Ho. unfold len. rewrite length_bytes. unfold owner_line.
  rewrite !string_length_app. pose proof (pretty_length _ Hi). pose proof (pretty_length _ Ho). simpl. lia.
Qed.

Lemma owner_text_lacks c id owner : is_digit c = false -> c <> ","%char -> 0 <= id -> 0 <= owner ->
  lacks c (owner_text id owner) = true.
Proof.
  intros Hc Hcomma Hi Ho. unfold owner_text, lacks. rewrite !string_forall_app. rewrite !andb_true_iff.
  split_and!; [by apply lacks_digits, pretty_digits| |by apply lacks_digits, pretty_digits].
  cbn [string_forall]. rewrite andb_true_r. apply negb_true_iff, Ascii.eqb_neq. congruence.
Qed.

Lemma owner_of_line_text id owner : is_u64 id -> is_u64 owner ->
  owner_of_line (owner_text id owner) = Ok (id, owner).
Proof.
  intros Hi Ho. unfold owner_of_line, owner_text.
  change ("," +:+ pretty owner) with (String ","%char (pretty owner)).
  rewrite split_app, split_lacks by (apply lacks_digits; [done|apply pretty_digits; width]).
  simpl. by rewrite !parse_u64_pretty.
Qed.

Definition owner_lines (ds : list EventDao) : bytes :=
  concat ((fun d => String.list_ascii_of_string (owner_line (dao_id d) (owner_id d))) <$> ds).

Lemma owner_lines_cons d ds : owner_lines (d :: ds) =
  String.list_ascii_of_string (owner_line (dao_id d) (owner_id d)) ++ owner_lines ds.
Proof. done. Qed.

(** The owners read back are those of the records. *)
Lemma owner_lines_read ds m : Forall (fun d => is_u64 (dao_id d)) ds ->
  owners_of_lines (lines (String.string_of_list_ascii (owner_lines ds))) m =
  Ok (foldl (fun m d => push_owner (owner_id d) (dao_id d) m) m ds).
Proof.
  intros Hds. revert m. induction Hds as [|d ds Hd _ IH]; intros m; [done|].
  rewrite owner_lines_cons, string_of_app, owner_line_text, <-string_app_assoc.
  change (String newline EmptyString +:+ ?x) with (String newline x).
  pose proof (wrap_u64_range (dao_owner d)) as Ho. fold (owner_id d) in Ho.
  rewrite lines_app by (apply owner_text_lacks; [done|done|width|width]).
  cbn [owners_of_lines]. rewrite owner_of_line_text by done. apply IH.
Qed.

Lemma owner_lines_utf8 ds : Forall (fun d => is_u64 (dao_id d)) ds ->
  is_utf8 (String.string_of_list_ascii (owner_lines ds)) = true.
Proof.
  induction 1 as [|d ds Hd _ IH]; [done|]. rewrite owner_lines_cons, string_of_app, is_utf8_app; [done|].
  apply owner_line_ascii; [width|]. unfold owner_id. pose proof (wrap_u64_range (dao_owner d)). width.
Qed.

Lemma owner_lines_length ds : Forall (fun d => is_u64 (dao_id d)) ds ->
  len (owner_lines ds) <= 64 * Z.of_nat (length ds).
Proof.
  induction 1 as [|d ds Hd _ IH]; [done|]. rewrite owner_lines_cons, len_app. cbn [length].
  pose proof (owner_line_length _ _ Hd (wrap_u64_range (dao_owner d))). unfold owner_id. lia.
Qed.

(** ** The files of a log *)

Section contents.
Context `{Chrono} `{EventCodec} `{!EventCodecSpec}.

Record entry_ok (r : entry) : Prop := {
  eok_task : is_i64 r.1;
  eok_code : is_i32 (ev_code r.2);
  eok_time : is_i64 (timestamp_millis (ev_creation_time r.2));
  eok_utf8 : is_utf8 (default EmptyString (ev_message r.2)) = true;
  eok_len : len (message_bytes r.2) <= 2 ^ 31
}.

Definition dao_of (id start : Z) (r : entry) : EventDao :=
  mkDao id r.1 (ev_code r.2) (mkIndex start (start + len (message_bytes r.2)))
    (timestamp_millis (ev_creation_time r.2)).

Definition messages (l : list entry) : bytes := concat ((fun r => message_bytes r.2) <$> l).

(** The record of the event that follows [l]. *)
Definition next_dao (l : list entry) (r : entry) : EventDao :=
  dao_of (Z.of_nat (length l) + 1) (len (messages l)) r.

Fixpoint daos_after (pre l : list entry) : list EventDao :=
  match l with
  | [] => []
  | r :: l => next_dao pre r :: daos_after (pre ++ [r]) l
  end.

Definition daos (l : list entry) : list EventDao := daos_after [] l.

Definition record_bytes (d : EventDao) : bytes := default [] (dao_to_allocvec d).

Definition size_bytes : bytes := default [] (size_to_string (Z.of_nat dao_size)).

Definition content (k : fkind) (l : list entry) : bytes :=
  match k with
  | FMeta => match l with [] => [] | _ => size_bytes end
  | FOwners => owner_lines (daos l)
  | FData => concat (record_bytes <$> daos l)
  | FMessages => messages l
  end.

(** The length of a session's log is bounded, so that no file outgrows its
    largest length. *)
Record log_ok (l : list entry) : Prop := {
  lok_entries : Forall entry_ok l;
  lok_length : Z.of_nat (length l) <= 2 ^ 31
}.

Lemma log_ok_app l l' : log_ok (l ++ l') -> log_ok l.
Proof.
  intros [Hf Hl]. rewrite length_app in Hl. apply Forall_app in Hf as [Hf _]. split; [done|lia].
Qed.

Lemma messages_snoc l r : messages (l ++ [r]) = messages l ++ message_bytes r.2.
Proof. unfold messages. rewrite fmap_app, concat_app. simpl. by rewrite app_nil_r. Qed.

Lemma daos_after_snoc pre l r : daos_after pre (l ++ [r]) = daos_after pre l ++ [next_dao (pre ++ l) r].
Proof.
  revert pre. induction l as [|r' l IH]; intros pre; simpl; [by rewrite app_nil_r|].
  by rewrite IH, <-(assoc_L (++)).
Qed.

Lemma daos_snoc l r : daos (l ++ [r]) = daos l ++ [next_dao l r].
Proof. apply daos_after_snoc. Qed.

Lemma daos_length l : length (daos l) = length l.
Proof. induction l as [|r l IH] using rev_ind; [done|]. rewrite daos_snoc, !length_app, IH. done. Qed.

Lemma messages_length l : log_ok l -> len (messages l) <= 2 ^ 31 * Z.of_nat (length l).
Proof.
  intros [Hf _]. induction Hf as [|r l Hr _ IH]; [done|]. unfold messages in *. csimpl.
  rewrite len_app. pose proof (eok_len r Hr). lia.
Qed.

Lemma next_dao_ok l r : log_ok (l ++ [r]) -> dao_ok (next_dao l r).
Proof.
  intros Hl. pose proof (messages_length _ Hl) as Hm. rewrite messages_snoc, len_app in Hm.
  pose proof (len_pos (messages l)). pose proof (len_pos (message_bytes r.2)).
  destruct Hl as [Hf Hn]. rewrite list.Forall_app, list.Forall_singleton in Hf. destruct Hf as [_ Hr].
  rewrite length_app in *. cbn [length] in *. destruct Hr. split; simpl; try done; width.
Qed.

Lemma daos_ok l : log_ok l -> Forall dao_ok (daos l).
Proof.
  induction l as [|r l IH] using rev_ind; [constructor|]. intros Hl. rewrite daos_snoc.
  apply Forall_app; split; [by eapply IH, log_ok_app|]. apply list.Forall_singleton. by apply next_dao_ok.
Qed.

(** The record at a position has the number of the position. *)
Lemma daos_id l n d : daos l !! n = Some d -> dao_id d = Z.of_nat n + 1.
Proof.
  induction l as [|r l IH] using rev_ind; [done|]. rewrite daos_snoc, lookup_app_Some, daos_length.
  intros [?|[Hn Hd]]; [by apply IH|]. apply list_lookup_singleton_Some in Hd as [? <-]. simpl. lia.
Qed.

Lemma record_bytes_ok d : dao_ok d -> dao_to_allocvec d = Some (record_bytes d) /\ length (record_bytes d) = dao_size.
Proof. intros Hd. unfold record_bytes. destruct (dao_to_allocvec_ok d Hd) as (b & -> & Hb). done. Qed.

Lemma size_bytes_ok : size_to_string (Z.of_nat dao_size) = Some size_bytes /\ size_bytes <> [] /\
  is_utf8 (String.string_of_list_ascii size_bytes) = true /\ size_from_str size_bytes = Some (Z.of_nat dao_size) /\
  len size_bytes <= 1024.
Proof.
  assert (Hu : is_u64 (Z.of_nat dao_size)) by (pose proof dao_size_pos; width). unfold size_bytes.
  destruct (size_to_string_ok _ Hu) as (b & -> & Hb). done.
Qed.

Lemma records_length l : log_ok l -> length (content FData l) = (length l * dao_size)%nat.
Proof.
  intros Hl. simpl. rewrite <-(daos_length l). apply concat_length.
  eapply list.Forall_impl; [by apply daos_ok|]. intros d Hd. by apply record_bytes_ok.
Qed.

(** No file is too long. *)
Lemma content_length k l : log_ok l -> len (content k l) <= 2 ^ 62.
Proof.
  intros Hl. pose proof (lok_length _ Hl) as Hn. destruct k; simpl.
  - destruct l; [unfold len; simpl; lia|]. pose proof size_bytes_ok. lia.
  - etrans; [apply owner_lines_length|rewrite daos_length; lia].
    eapply list.Forall_impl; [by apply daos_ok|]. by intros d [].
  - change (concat _) with (content FData l). unfold len. rewrite records_length by done.
    pose proof dao_size_pos. nia.
  - pose proof (messages_length _ Hl). lia.
Qed.

(** [d] describes [r]: the range is where the message is. *)
Record describes (c : bytes) (d : EventDao) (r : entry) : Prop := {
  de_owner : dao_owner d = r.1;
  de_code : dao_code d = ev_code r.2;
  de_time : dao_creation_time d = timestamp_millis (ev_creation_time r.2);
  de_start : 0 <= ix_start (dao_message d);
  de_end : ix_end (dao_message d) = ix_start (dao_message d) + len (message_bytes r.2);
  de_in : ix_end (dao_message d) <= len c;
  de_message : take (length (message_bytes r.2)) (drop (Z.to_nat (ix_start (dao_message d))) c) = message_bytes r.2
}.

Lemma describes_app c c' d r : describes c d r -> describes (c ++ c') d r.
Proof.
  intros []. assert (ix_start (dao_message d) + len (message_bytes r.2) <= len c) by lia. unfold len in *.
  split; try done; [unfold len; rewrite length_app; lia|].
  rewrite drop_app_le by lia. by rewrite take_app_le by (rewrite length_drop; lia).
Qed.

Lemma describes_next l r id : describes (messages (l ++ [r])) (set_id id (next_dao l r)) r.
Proof.
  rewrite messages_snoc. split; simpl; try done; [apply len_pos|by rewrite len_app|].
  unfold len. rewrite Nat2Z.id, drop_app_length. by rewrite firstn_all.
Qed.

Lemma describes_daos l : Forall2 (describes (messages l)) (daos l) l.
Proof.
  induction l as [|r l IH] using rev_ind; [constructor|]. rewrite daos_snoc. apply Forall2_app.
  - rewrite messages_snoc. eapply list.Forall2_impl; [done|]. intros d x. apply describes_app.
  - constructor; [|constructor]. apply (describes_next l r (dao_id (next_dao l r))).
Qed.
End contents.
