(* ===== verification/EventFilesOps.v ===== *)
(** * The storages under the event manager, on a disk that works

    What the directory of the manager holds is a set of sessions and the bytes
    of their files; each call, and each operation of the storages, is given by
    what it does to them. *)
From Stdlib Require Import Ascii.
From S2P Require Import Prelude Text Types Events FsDisk ObjOs EventFiles EventFilesInv.
Local Open Scope Z_scope.

Definition fpath (p : path) (s : string) (k : fkind) : path := (p ++ [s]) ++ [fname k].

#[export] Instance fkind_eq_dec : EqDecision fkind.
Proof. solve_decision. Defined.

Lemma fname_inj k k' : fname k = fname k' -> k = k'.
Proof. by destruct k, k'. Qed.

Lemma fpath_inj p s k s' k' : fpath p s k = fpath p s' k' -> s = s' /\ k = k'.
Proof. unfold fpath. intros [[_ [= ->]]%app_inj_2 [= E]]%app_inj_2; [|done..]. split; [done|by apply fname_inj]. Qed.

(** The bytes of each file of each session. *)
Abbreviation fmap_t := (string -> fkind -> option bytes).

Definition fset (s : string) (k : fkind) (c : bytes) (F : fmap_t) : fmap_t := fun s' k' =>
  if bool_decide (s' = s /\ k' = k) then Some c else F s' k'.

Lemma fset_eq s k c F : fset s k c F s k = Some c.
Proof. unfold fset. by rewrite bool_decide_eq_true_2. Qed.

Lemma fset_ne s k c F s' k' : (s', k') <> (s, k) -> fset s k c F s' k' = F s' k'.
Proof. intros. unfold fset. rewrite bool_decide_eq_false_2; [done|]. naive_solver. Qed.

(** The disk [o] holds, in [p], the sessions [D] with the files [F]. *)
Record disk_rel (p : path) (D : gset string) (F : fmap_t) (o : Os) : Prop := {
  dr_dir : p ∈ o_dirs o;
  dr_dirs : forall d, d ∈ o_dirs o -> p `prefix_of` d -> d = p \/ exists s, d = p ++ [s] /\ s ∈ D;
  dr_sessions : forall s, s ∈ D -> p ++ [s] ∈ o_dirs o;
  dr_names : forall q i, o_names o !! q = Some i ->
    ~ q `prefix_of` p /\ (i < o_fresh o)%nat /\ (p `prefix_of` q -> exists s k, q = fpath p s k /\ s ∈ D);
  dr_inj : forall q q' i, o_names o !! q = Some i -> o_names o !! q' = Some i -> q = q';
  dr_files : forall s k, match F s k with
    | Some c => exists i, o_names o !! fpath p s k = Some i /\ o_inodes o !! i = Some c
    | None => o_names o !! fpath p s k = None
    end
}.

Lemma disk_rel_ext p D F F' o : (forall s k, F s k = F' s k) -> disk_rel p D F o -> disk_rel p D F' o.
Proof. intros HF []. split; try done. intros s k. rewrite <-HF. apply dr_files0. Qed.

Lemma disk_rel_tick p D F o : disk_rel p D F o -> disk_rel p D F (tick_call o).
Proof. by intros []. Qed.

Lemma disk_rel_file p D F o s k c i : disk_rel p D F o -> F s k = Some c ->
  o_names o !! fpath p s k = Some i -> o_inodes o !! i = Some c.
Proof. intros Hd HF Hi. pose proof (dr_files _ _ _ _ Hd s k) as Hf. rewrite HF in Hf. naive_solver. Qed.

(** A file written through its handle. *)
Lemma disk_rel_set p D F o s k c i : disk_rel p D F o -> o_names o !! fpath p s k = Some i ->
  disk_rel p D (fset s k c F) (set_inode i c o).
Proof.
  intros Hd Hi. destruct Hd. split; try done. intros s' k'. simpl.
  destruct (decide ((s', k') = (s, k))) as [[= -> ->]|Hne].
  - rewrite fset_eq. exists i. by rewrite lookup_insert_eq.
  - rewrite fset_ne by done. specialize (dr_files0 s' k'). destruct (F s' k') as [c'|]; [|done].
    destruct dr_files0 as (j & Hj & Hc). exists j. split; [done|]. rewrite lookup_insert_ne; [done|].
    intros ->. apply Hne. by destruct (fpath_inj _ _ _ _ _ (dr_inj0 _ _ _ Hi Hj)) as [-> ->].
Qed.

Lemma fpath_prefix p s k : p `prefix_of` fpath p s k.
Proof. unfold fpath. rewrite <-(assoc_L (++)). by apply prefix_app_r. Qed.

Lemma fpath_parent p s k : parent (fpath p s k) = p ++ [s].
Proof. unfold parent, fpath. rewrite length_app. simpl. by rewrite Nat.add_sub, take_app_length. Qed.

Section quiet.
Context `{Disk} `{Chrono} `{EventCodec} `{!EventCodecSpec} `{OwnerOrder}.
Hypothesis quiet : forall n, io_fault n = None.

(** ** Calls *)

Lemma os_open_create_rel p D F o s k : disk_rel p D F o -> s ∈ D ->
  exists i o', io_try (os_open_create (fpath p s k)) o = (Ok i, o') /\
    disk_rel p D (fset s k (default [] (F s k)) F) o' /\ o_names o' !! fpath p s k = Some i /\
    o_names o ⊆ o_names o'.
Proof.
  intros Hd Hs. pose proof (dr_files _ _ _ _ Hd s k) as Hf. destruct (F s k) as [c|] eqn:EF; simpl.
  - destruct Hf as (i & Hi & Hc). exists i, (tick_call o). split_and!; try done.
    + apply io_try_quiet; [done|]. simpl. by rewrite Hi.
    + apply (disk_rel_ext _ _ F); [|by apply disk_rel_tick]. intros s' k'.
      destruct (decide ((s', k') = (s, k))) as [[= -> ->]|]; [by rewrite fset_eq|by rewrite fset_ne].
  - eexists (o_fresh o), _. split_and!.
    + apply io_try_quiet; [done|]. simpl. rewrite Hf, fpath_parent.
      rewrite (bool_decide_eq_true_2 (p ++ [s] ∈ _)) by (by eapply dr_sessions). simpl.
      rewrite bool_decide_eq_false_2; [done|]. intros Hin.
      destruct (dr_dirs _ _ _ _ Hd _ Hin (fpath_prefix _ _ _)) as [E|(s' & E & _)];
        apply (f_equal length) in E; unfold fpath in E; rewrite !length_app in E; simpl in E; lia.
    + destruct Hd. split; simpl; try done.
      * intros q i. rewrite lookup_insert_Some. intros [[<- <-]|[_ Hq]].
        -- split_and!; [|lia|naive_solver]. intros Hpre%prefix_length. unfold fpath in Hpre.
           rewrite !length_app in Hpre. simpl in Hpre. lia.
        -- destruct (dr_names0 _ _ Hq) as (? & ? & ?). split_and!; [done|lia|done].
      * intros q q' i. rewrite !lookup_insert_Some.
        intros [[<- <-]|[_ Hq]] [[<- Hi]|[_ Hq']]; try done; [|subst|by eapply dr_inj0].
        -- apply dr_names0 in Hq'. lia.
        -- apply dr_names0 in Hq. lia.
      * intros s' k'. destruct (decide ((s', k') = (s, k))) as [[= -> ->]|Hne].
        -- rewrite fset_eq. exists (o_fresh o). by rewrite !lookup_insert_eq.
        -- rewrite fset_ne, lookup_insert_ne by (done || (intros [-> ->]%fpath_inj; done)).
           specialize (dr_files0 s' k'). destruct (F s' k') as [c'|]; [|done].
           destruct dr_files0 as (j & Hj & Hc). exists j. split; [done|].
           rewrite lookup_insert_ne; [done|]. apply dr_names0 in Hj. lia.
    + simpl. by rewrite lookup_insert_eq.
    + simpl. by apply insert_subseteq.
Qed.

Lemma session_not_named p D F o s : disk_rel p D F o -> o_names o !! (p ++ [s]) = None.
Proof.
  intros Hd. destruct (o_names o !! (p ++ [s])) as [i|] eqn:E; [|done].
  destruct (dr_names _ _ _ _ Hd _ _ E) as (_ & _ & Hp).
  destruct Hp as (s' & k & E' & _); [by apply prefix_app_r|].
  apply (f_equal length) in E'. unfold fpath in E'. rewrite !length_app in E'. simpl in E'. lia.
Qed.

Lemma elem_of_ancestors a p : a ∈ ancestors p -> a `prefix_of` p.
Proof. unfold ancestors. intros (n & -> & _)%list_elem_of_fmap. apply prefix_take. Qed.

Lemma self_ancestor p : p <> [] -> p ∈ ancestors p.
Proof.
  intros Hp. unfold ancestors. apply list_elem_of_fmap. exists (length p). rewrite firstn_all. split; [done|].
  apply elem_of_seq. destruct p; [done|]. simpl. lia.
Qed.

(** The directory of a path no file is on. *)
Lemma os_create_dir_all_quiet q o : (forall a, a `prefix_of` q -> o_names o !! a = None) ->
  io_try (os_create_dir_all q) o = (Ok tt, set_dirs (list_to_set (ancestors q) ∪ o_dirs o) (tick_call o)).
Proof.
  intros Hq. apply io_try_quiet; [done|]. simpl. replace (existsb _ _) with false; [done|]. symmetry.
  apply not_true_iff_false. intros (a & Ha & Hn)%existsb_exists. apply bool_decide_eq_true in Hn as [i Hi].
  rewrite Hq in Hi; [done|]. by apply elem_of_ancestors, list_elem_of_In.
Qed.

Lemma prefix_snoc (p q : path) x : q `prefix_of` p ++ [x] -> q `prefix_of` p \/ q = p ++ [x].
Proof.
  intros [k E]. destruct k as [|y k _] using rev_ind; [right; by rewrite app_nil_r in E|left].
  rewrite (assoc_L (++)) in E. apply app_inj_2 in E as [-> _]; [|done]. by exists k.
Qed.

Lemma session_create_rel p D F o s : disk_rel p D F o ->
  exists o', io_try (os_create_dir_all (p ++ [s])) o = (Ok tt, o') /\
    disk_rel p ({[s]} ∪ D) F o' /\ o_names o' = o_names o.
Proof.
  intros Hd. eexists. split_and!; [apply os_create_dir_all_quiet| |done].
  - intros a [Ha| ->]%prefix_snoc; [|by eapply session_not_named].
    destruct (o_names o !! a) as [i|] eqn:E; [|done]. by apply (dr_names _ _ _ _ Hd) in E as [? _].
  - destruct Hd. split; simpl; try done.
    + set_solver.
    + intros d [Hin%elem_of_list_to_set%elem_of_ancestors|Hin]%elem_of_union Hp.
      * destruct (prefix_snoc _ _ _ Hin) as [Hpre| ->]; [|set_solver].
        left. by apply (anti_symm prefix).
      * destruct (dr_dirs0 d Hin Hp) as [->|(s' & -> & ?)]; set_solver.
    + intros s' [->%elem_of_singleton|Hs']%elem_of_union; [|set_solver].
      apply elem_of_union_l, elem_of_list_to_set, self_ancestor. by destruct p.
    + intros q i Hq. destruct (dr_names0 q i Hq) as (? & ? & Hp). split_and!; [done..|].
      intros (s' & k & -> & ?)%Hp. set_solver.
Qed.

(** A manager's directory that is already there. *)
Lemma restart_rel p D F o : disk_rel p D F o ->
  exists o', io_try (os_create_dir_all p) o = (Ok tt, o') /\ disk_rel p D F o'.
Proof.
  intros Hd. eexists. split; [apply os_create_dir_all_quiet|].
  - intros a Ha. destruct (o_names o !! a) as [i|] eqn:E; [|done].
    by apply (dr_names _ _ _ _ Hd) in E as [? _].
  - destruct Hd. split; simpl; try done; [set_solver| |set_solver].
    intros d [Hin%elem_of_list_to_set%elem_of_ancestors|Hin]%elem_of_union Hp; [|by apply dr_dirs0].
    left. by apply (anti_symm prefix).
Qed.

(** Nothing is stored where the manager will be. *)
Record clean (p : path) (o : Os) : Prop := {
  cl_path : p <> [];
  cl_dirs : forall d, d ∈ o_dirs o -> p `prefix_of` d -> d = p;
  cl_names : forall q i, o_names o !! q = Some i -> ~ q `prefix_of` p /\ ~ p `prefix_of` q /\ (i < o_fresh o)%nat;
  cl_inj : forall q q' i, o_names o !! q = Some i -> o_names o !! q' = Some i -> q = q'
}.

Lemma start_rel p o : clean p o ->
  exists o', io_try (os_create_dir_all p) o = (Ok tt, o') /\ disk_rel p ∅ (fun _ _ => None) o'.
Proof.
  intros Hc. eexists. split; [apply os_create_dir_all_quiet|].
  - intros a Ha. destruct (o_names o !! a) as [i|] eqn:E; [|done]. by apply (cl_names _ _ Hc) in E as [? _].
  - destruct Hc. split; simpl; try done.
    + by apply elem_of_union_l, elem_of_list_to_set, self_ancestor.
    + intros d [Hin%elem_of_list_to_set%elem_of_ancestors|Hin]%elem_of_union Hp; left; [|by apply cl_dirs0].
      by apply (anti_symm prefix).
    + intros q i Hq. destruct (cl_names0 _ _ Hq) as (? & ? & ?). done.
    + intros s k. destruct (o_names o !! fpath p s k) as [i|] eqn:E; [|done].
      destruct (cl_names0 _ _ E) as (_ & Hp & _). destruct Hp. apply fpath_prefix.
Qed.

Lemma session_exists p D F o s : disk_rel p D F o -> path_exists (p ++ [s]) o = bool_decide (s ∈ D).
Proof.
  intros Hd. unfold path_exists. erewrite session_not_named by done.
  rewrite (bool_decide_eq_false_2 (is_Some None)), orb_false_r by (by intros []).
  apply bool_decide_ext. split; [|by eapply dr_sessions].
  intros Hin. destruct (dr_dirs _ _ _ _ Hd _ Hin ltac:(by apply prefix_app_r))
    as [E|(s' & [_ [= ->]]%app_inj_2 & ?)]; [|done..].
  apply (f_equal length) in E. rewrite length_app in E. simpl in E. lia.
Qed.

Lemma under_fpath p s s' k : under (p ++ [s]) (fpath p s' k) = bool_decide (s' = s).
Proof.
  unfold under, fpath. apply bool_decide_ext. split; [|intros ->; by apply prefix_app_r].
  rewrite <-!(assoc_L (++)). by intros ?%prefix_app_inv%prefix_cons_inv_1.
Qed.

Lemma under_session_dir p s s' : under (p ++ [s]) (p ++ [s']) = bool_decide (s' = s).
Proof.
  unfold under. apply bool_decide_ext. split; [|by intros ->].
  by intros ?%prefix_app_inv%prefix_cons_inv_1.
Qed.

Lemma names_pruned dir o q : o_names (prune dir (fun _ => false) o) !! q = if under dir q then None else o_names o !! q.
Proof.
  simpl. destruct (under dir q) eqn:E.
  - apply map_lookup_filter_None_2. right. intros i _. simpl. by rewrite E.
  - destruct (o_names o !! q) as [i|] eqn:Ei.
    + apply map_lookup_filter_Some_2; [done|]. simpl. by rewrite E.
    + apply map_lookup_filter_None_2. by left.
Qed.

Lemma session_remove_rel p D F o s : disk_rel p D F o -> s ∈ D ->
  exists o', io_try (os_remove_dir_all (p ++ [s])) o = (Ok tt, o') /\
    disk_rel p (D ∖ {[s]}) (fun s' k => if bool_decide (s' = s) then None else F s' k) o' /\
    (forall s' k, s' <> s -> o_names o' !! fpath p s' k = o_names o !! fpath p s' k).
Proof.
  intros Hd Hs. exists (prune (p ++ [s]) (fun _ => false) (tick_call o)).
  assert (Hfile : forall s' k, o_names (prune (p ++ [s]) (fun _ => false) (tick_call o)) !! fpath p s' k =
      if bool_decide (s' = s) then None else o_names o !! fpath p s' k)
    by (intros; by rewrite names_pruned, under_fpath).
  split_and!.
  - apply io_try_quiet; [done|]. simpl. by rewrite bool_decide_eq_true_2 by (by eapply dr_sessions).
  - destruct Hd. split.
    + simpl. apply elem_of_filter. split; [|done]. unfold under. rewrite bool_decide_eq_false_2; [done|].
      intros Hl%prefix_length. rewrite length_app in Hl. simpl in Hl. lia.
    + simpl. intros d [Hu Hin]%elem_of_filter Hp. destruct (dr_dirs0 d Hin Hp) as [->|(s' & -> & ?)]; [by left|].
      right. exists s'. rewrite under_session_dir in Hu. case_bool_decide; [done|]. set_solver.
    + simpl. intros s' [Hs' Hne]%elem_of_difference. apply elem_of_filter. split; [|by apply dr_sessions0].
      rewrite under_session_dir, bool_decide_eq_false_2 by set_solver. done.
    + intros q i. rewrite names_pruned. destruct (under (p ++ [s]) q) eqn:E; [done|]. intros Hq.
      destruct (dr_names0 q i Hq) as (? & ? & Hp). split_and!; [done..|]. intros (s' & k & -> & ?)%Hp.
      exists s', k. rewrite under_fpath in E. apply bool_decide_eq_false in E. set_solver.
    + intros q q' i. rewrite !names_pruned. destruct (under _ q), (under _ q'); try done. apply dr_inj0.
    + intros s' k. rewrite Hfile. case_bool_decide; [done|]. apply dr_files0.
  - intros s' k Hne. by rewrite Hfile, bool_decide_eq_false_2.
Qed.

Lemma os_seek_quiet offset o : offset <= max_file_len -> io_try (os_seek offset) o = (Ok tt, tick_call o).
Proof. intros. apply io_try_quiet; [done|]. by rewrite (proj2 (Z.ltb_ge _ _)). Qed.

Lemma os_write_at_quiet i c data offset o : o_inodes o !! i = Some c -> offset + len data <= max_file_len ->
  io_try (os_write_at i data offset) o = (Ok tt, set_inode i (overlay (Z.to_nat offset) data c) (tick_call o)).
Proof.
  intros Hi Hle. apply io_try_quiet; [done|]. rewrite (proj2 (Z.ltb_ge _ _)) by done.
  change (o_inodes (tick_call o)) with (o_inodes o). by rewrite Hi.
Qed.

Lemma os_read_to_string_rel p D F o s k c i : disk_rel p D F o -> F s k = Some c ->
  o_names o !! fpath p s k = Some i -> is_utf8 (String.string_of_list_ascii c) = true ->
  io_try (os_read_to_string (fpath p s k)) o = (Ok (String.string_of_list_ascii c), tick_call o).
Proof.
  intros Hd HF Hi Hu. pose proof (os_read_quiet quiet _ _ _ _ Hi (disk_rel_file _ _ _ _ _ _ _ _ Hd HF Hi)) as Hr.
  unfold io_try, os_read_to_string, mbind, M_bind in *. destruct (os_read _ o) as [[[b|]| |] o1]; try done.
  simpl in *. injection Hr as -> ->. by rewrite Hu.
Qed.

Lemma os_canonicalize_quiet q i o : o_names o !! q = Some i -> io_try (os_canonicalize q) o = (Ok q, tick_call o).
Proof.
  intros Hq. apply io_try_quiet; [done|]. unfold path_exists. simpl. rewrite Hq.
  by rewrite (bool_decide_eq_true_2 (is_Some (Some i))), orb_true_r.
Qed.

(** ** Saving a record *)

Definition size_of (l : list entry) : Z := match l with [] => 0 | _ => Z.of_nat dao_size end.

(** The storage of a session, with its handles. *)
Definition objects_of (p : path) (s : string) (l : list entry) (h : fkind -> nat) : ObjectStorage :=
  mkObjects (size_of l) (h FMeta) (owners_of (daos l)) (h FOwners) (h FData) (p ++ [s]).

Definition handles (p : path) (s : string) (h : fkind -> nat) (o : Os) : Prop :=
  forall k, o_names o !! fpath p s k = Some (h k).

Lemma os_ok {A} (m : M Os (ores A)) st o r o' : io_try m o = (r, o') -> os m (st, o) = (r, (st, o')).
Proof. intros Hm. unfold os, zoom. simpl. by rewrite Hm. Qed.

Lemma bind_obj {A B} (f : ObjectStorage -> A) (g : A -> M (ObjectStorage * Os) B) st o :
  (obj f ≫= g) (st, o) = g (f st) (st, o).
Proof. done. Qed.

Lemma bind_update {B} f (g : unit -> M (ObjectStorage * Os) B) st o :
  (update f ≫= g) (st, o) = g tt (f st, o).
Proof. done. Qed.

Lemma size_of_snoc l r : size_of (l ++ [r]) = Z.of_nat dao_size.
Proof. by destruct l. Qed.

Lemma size_of_zero l : (size_of l =? 0) = bool_decide (l = []).
Proof.
  pose proof dao_size_pos. destruct l as [|r l]; [done|].
  rewrite (bool_decide_eq_false_2 (r :: l = [])) by done. apply Z.eqb_neq. simpl. lia.
Qed.

Section session.
Context (p : path) (s : string) (h : fkind -> nat) (D : gset string).

Lemma next_id_ok l F o : log_ok l -> disk_rel p D F o -> handles p s h o -> F s FData = Some (content FData l) ->
  exists o', next_id (objects_of p s l h, o) = (Ok (Z.of_nat (length l) + 1), (objects_of p s l h, o')) /\
    disk_rel p D F o' /\ o_names o' = o_names o.
Proof.
  intros Hl Hd Hh HF. pose proof (lok_length _ Hl) as Hn. pose proof dao_size_pos as Hs.
  pose proof (disk_rel_file _ _ _ _ _ _ _ _ Hd HF (Hh FData)) as Hi.
  unfold next_id. rewrite bind_obj. cbn [ob_size objects_of].
  rewrite size_of_zero. case_bool_decide as Hnil; [subst; by exists o|].
  exists (tick_call o). split_and!; [|by apply disk_rel_tick|done].
  rewrite bind_obj, (bind_Ok _ _ _ _ _ (os_ok _ _ _ _ _ (os_len_quiet quiet _ _ _ Hi))).
  unfold len. rewrite records_length by done. unfold mret, M_ret. do 2 f_equal.
  replace (size_of l) with (Z.of_nat dao_size) by (by destruct l).
  rewrite Nat2Z.inj_mul, Z.div_mul by lia. apply wrap_u64_small. width.
Qed.

Lemma seek_ok st n o : ob_size st = Z.of_nat dao_size -> Z.of_nat n <= 2 ^ 31 ->
  seek (Z.of_nat n + 1) (st, o) = (Ok (Z.of_nat n * Z.of_nat dao_size), (st, tick_call o)).
Proof.
  intros Hst Hn. pose proof dao_size_pos as Hs. unfold seek. rewrite bind_obj.
  assert (Hm : 0 <= Z.of_nat n * Z.of_nat dao_size <= 2 ^ 31 * 1024)
    by (split; [lia|apply Z.mul_le_mono_nonneg; lia]).
  assert (Hmax : Z.of_nat n * Z.of_nat dao_size <= max_file_len) by (unfold max_file_len; lia).
  rewrite Hst, Z.add_simpl_r, (wrap_u64_small (Z.of_nat n)), wrap_u64_small by width.
  rewrite (bind_Ok _ _ _ _ _ (os_ok _ _ _ _ _ (os_seek_quiet _ o Hmax))). done.
Qed.

(** The size is written with the first record. *)
Lemma save_size_ok l r F o : log_ok (l ++ [r]) -> disk_rel p D F o -> handles p s h o -> F s FMeta = Some (content FMeta l) ->
  exists o', (if size_of l =? 0 then
      update (with_size (len (record_bytes (next_dao l r)))) ≫= fun _ =>
      metadata_str ← lift (ok_or (size_to_string (len (record_bytes (next_dao l r)))) EInternal);
      file ← obj ob_metadata_file;
      os (os_write_at file metadata_str 0)
    else mret tt) (objects_of p s l h, o) = (Ok tt, (with_size (Z.of_nat dao_size) (objects_of p s l h), o')) /\
    disk_rel p D (fset s FMeta (content FMeta (l ++ [r])) F) o' /\ o_names o' = o_names o.
Proof.
  intros Hl Hd Hh HF. pose proof size_bytes_ok as (Hto & _ & _ & _ & Hlen).
  assert (Hmax : 0 + len size_bytes <= max_file_len) by (unfold max_file_len; lia).
  replace (content FMeta (l ++ [r])) with size_bytes by (by destruct l).
  rewrite size_of_zero. case_bool_decide as Hnil.
  - subst l. pose proof (disk_rel_file _ _ _ _ _ _ _ _ Hd HF (Hh FMeta)) as Hi.
    destruct (record_bytes_ok _ (next_dao_ok _ _ Hl)) as [_ Hb]. unfold len at 1 2. rewrite Hb, Hto.
    eexists. split_and!; [|by apply disk_rel_set; [apply disk_rel_tick|apply (Hh FMeta)]|done].
    cbn [ok_or]. rewrite bind_update, bind_lift_Ok, bind_obj.
    rewrite (os_ok _ _ _ _ _ (os_write_at_quiet _ _ size_bytes 0 o Hi Hmax)).
    by rewrite (overlay_end size_bytes []).
  - exists o. split_and!; [by destruct l| |done]. eapply disk_rel_ext; [|done]. intros s' k'.
    destruct (decide ((s', k') = (s, FMeta))) as [[= -> ->]|]; [|by rewrite fset_ne].
    rewrite fset_eq, HF. by destruct l.
Qed.

(** A write of [data] at the end of a file of the session. *)
Lemma file_room k l r : log_ok (l ++ [r]) ->
  forall data, content k (l ++ [r]) = content k l ++ data -> len (content k l) + len data <= max_file_len.
Proof.
  intros Hl data E. rewrite <-len_app, <-E. pose proof (content_length k _ Hl). unfold max_file_len. lia.
Qed.

Lemma data_snoc l r : content FData (l ++ [r]) = content FData l ++ record_bytes (next_dao l r).
Proof. simpl. rewrite daos_snoc, fmap_app, concat_app. simpl. by rewrite app_nil_r. Qed.

Lemma owners_snoc l r : content FOwners (l ++ [r]) = content FOwners l ++
  String.list_ascii_of_string (owner_line (dao_id (next_dao l r)) (owner_id (next_dao l r))).
Proof.
  simpl. rewrite daos_snoc. unfold owner_lines. rewrite fmap_app, concat_app.
  cbn [list_fmap fmap concat]. by rewrite app_nil_r.
Qed.

Lemma write_data_ok st l r F o : log_ok (l ++ [r]) -> disk_rel p D F o -> handles p s h o ->
  ob_size st = Z.of_nat dao_size -> ob_data_file st = h FData -> F s FData = Some (content FData l) ->
  exists o', write_data (dao_id (next_dao l r)) (record_bytes (next_dao l r)) (st, o) = (Ok tt, (st, o')) /\
    disk_rel p D (fset s FData (content FData (l ++ [r])) F) o' /\ o_names o' = o_names o.
Proof.
  intros Hl Hd Hh Hsz Hfile HF. pose proof (lok_length _ Hl) as Hn. rewrite length_app in Hn. simpl in Hn.
  destruct (record_bytes_ok _ (next_dao_ok _ _ Hl)) as [_ Hb].
  pose proof (disk_rel_file _ _ _ _ _ _ _ _ Hd HF (Hh FData)) as Hi.
  pose proof (records_length l (log_ok_app _ _ Hl)) as Hlen.
  eexists. split_and!; [|by apply disk_rel_set; [apply disk_rel_tick, disk_rel_tick|apply (Hh FData)]|done].
  unfold write_data, check_data_size. unfold len at 1. rewrite Hb.
  erewrite bind_Ok; [|rewrite bind_obj, Hsz, Z.eqb_refl; done].
  rewrite (bind_Ok _ _ _ _ _ (seek_ok st (length l) o Hsz ltac:(lia))), bind_obj, Hfile.
  replace (Z.of_nat (length l) * Z.of_nat dao_size) with (len (content FData l)) by (unfold len; lia).
  rewrite (os_ok _ _ _ _ _ (os_write_at_quiet (h FData) _ _ _ (tick_call o) Hi (file_room FData _ _ Hl _ (data_snoc l r)))).
  unfold len at 1. by rewrite Nat2Z.id, overlay_end, <-data_snoc.
Qed.

Lemma update_owners_ok st l r F o : log_ok (l ++ [r]) -> disk_rel p D F o -> handles p s h o ->
  ob_owners_file st = h FOwners -> F s FOwners = Some (content FOwners l) ->
  exists o', update_owners (dao_id (next_dao l r)) (owner_id (next_dao l r)) (st, o) =
      (Ok tt, (with_owners (push_owner (owner_id (next_dao l r)) (dao_id (next_dao l r)) (ob_owners st)) st, o')) /\
    disk_rel p D (fset s FOwners (content FOwners (l ++ [r])) F) o' /\ o_names o' = o_names o.
Proof.
  intros Hl Hd Hh Hfile HF. pose proof (disk_rel_file _ _ _ _ _ _ _ _ Hd HF (Hh FOwners)) as Hi.
  eexists. split_and!; [|by apply disk_rel_set; [apply disk_rel_tick|apply (Hh FOwners)]|done].
  unfold update_owners. rewrite bind_obj, Hfile.
  rewrite (bind_Ok _ _ _ _ _ (os_ok _ _ _ _ _ (os_append_quiet quiet _ _ _ _ Hi (file_room FOwners _ _ Hl _ (owners_snoc l r))))).
  by rewrite <-owners_snoc.
Qed.

(** The files of the records after [l]. *)
Definition saved (l : list entry) (F : fmap_t) : fmap_t :=
  fset s FOwners (content FOwners l) (fset s FData (content FData l) (fset s FMeta (content FMeta l) F)).

Lemma save_object_ok l r F o : log_ok (l ++ [r]) -> disk_rel p D F o -> handles p s h o ->
  (forall k, k <> FMessages -> F s k = Some (content k l)) ->
  exists o', save (set_id 0 (next_dao l r)) (objects_of p s l h, o) =
      (Ok (next_dao l r), (objects_of p s (l ++ [r]) h, o')) /\
    disk_rel p D (saved (l ++ [r]) F) o' /\ o_names o' = o_names o.
Proof.
  intros Hl Hd Hh HF. destruct (record_bytes_ok _ (next_dao_ok _ _ Hl)) as [Hto Hb].
  destruct (next_id_ok l F o (log_ok_app _ _ Hl) Hd Hh (HF FData ltac:(done))) as (o1 & Hs1 & Hd1 & Hn1).
  assert (Hh1 : handles p s h o1) by (intros k; rewrite Hn1; apply Hh).
  destruct (save_size_ok l r F o1 Hl Hd1 Hh1 (HF FMeta ltac:(done))) as (o2 & Hs2 & Hd2 & Hn2).
  assert (Hh2 : handles p s h o2) by (intros k; rewrite Hn2; apply Hh1).
  edestruct (write_data_ok (with_size (Z.of_nat dao_size) (objects_of p s l h)) l r _ o2 Hl Hd2 Hh2)
    as (o3 & Hs3 & Hd3 & Hn3); [done|done|by rewrite fset_ne by done; apply HF|].
  assert (Hh3 : handles p s h o3) by (intros k; rewrite Hn3; apply Hh2).
  edestruct (update_owners_ok (with_size (Z.of_nat dao_size) (objects_of p s l h)) l r _ o3 Hl Hd3 Hh3)
    as (o4 & Hs4 & Hd4 & Hn4); [done|by rewrite !fset_ne by done; apply HF|].
  exists o4. split_and!; [|done|congruence]. unfold save. rewrite (bind_Ok _ _ _ _ _ Hs1).
  change (set_id (Z.of_nat (length l) + 1) (set_id 0 (next_dao l r))) with (next_dao l r).
  cbv zeta. rewrite Hto. cbn [ok_or]. rewrite bind_lift_Ok, bind_obj. cbn [ob_size objects_of].
  rewrite (bind_Ok _ _ _ _ _ Hs2), (bind_Ok _ _ _ _ _ Hs3), (bind_Ok _ _ _ _ _ Hs4).
  unfold mret, M_ret, objects_of. rewrite size_of_snoc, daos_snoc, owners_of_snoc. done.
Qed.

(** ** Reading the records back *)

Lemma load_object_ok l F o d : log_ok l -> disk_rel p D F o -> handles p s h o -> F s FData = Some (content FData l) ->
  d ∈ daos l -> exists o', load (dao_id d) (objects_of p s l h, o) = (Ok d, (objects_of p s l h, o')) /\
    disk_rel p D F o' /\ o_names o' = o_names o.
Proof.
  intros Hl Hd Hh HF [n Hn]%list_elem_of_lookup. pose proof (lookup_lt_Some _ _ _ Hn) as Hlt.
  rewrite daos_length in Hlt. pose proof (lok_length _ Hl) as Hlen. pose proof dao_size_pos as Hs.
  assert (Hok : dao_ok d) by (by eapply list.Forall_lookup_1; [apply daos_ok|]).
  destruct (record_bytes_ok d Hok) as [Hto Hb].
  assert (Hsz : ob_size (objects_of p s l h) = Z.of_nat dao_size) by (by destruct l).
  pose proof (disk_rel_file _ _ _ _ _ _ _ _ Hd HF (Hh FData)) as Hi.
  eexists. split_and!; [|by apply disk_rel_tick, disk_rel_tick|done].
  unfold load. rewrite (daos_id _ _ _ Hn), (bind_Ok _ _ _ _ _ (seek_ok _ n o Hsz ltac:(lia))).
  rewrite bind_obj, Hsz. unfold alloc. rewrite (proj2 (Z.ltb_ge _ _)), bind_lift_Ok, bind_obj by lia.
  assert (Hin : Z.of_nat n * Z.of_nat dao_size + Z.of_nat dao_size <= len (content FData l))
    by (unfold len; rewrite records_length by done; nia).
  rewrite (bind_Ok _ _ _ _ _ (os_ok _ _ _ _ _ (os_read_exact_quiet quiet _ _ _ _ (tick_call o) Hi Hin))).
  rewrite <-Nat2Z.inj_mul, !Nat2Z.id. simpl content. erewrite concat_piece; [|clear -Hl|done].
  - rewrite <-(app_nil_r (record_bytes d)), (dao_take_to _ _ _ Hok Hto). done.
  - eapply list.Forall_impl; [by apply daos_ok|]. intros x Hx. by apply record_bytes_ok.
Qed.

Lemma load_all_ok l F ds : log_ok l -> F s FData = Some (content FData l) -> ds ⊆ daos l ->
  forall o, disk_rel p D F o -> handles p s h o ->
  exists o', load_all (dao_id <$> ds) (objects_of p s l h, o) = (Ok ds, (objects_of p s l h, o')) /\
    disk_rel p D F o' /\ o_names o' = o_names o.
Proof.
  intros Hl HF. induction ds as [|d ds IH]; intros Hds o Hd Hh; [by exists o|].
  destruct (load_object_ok l F o d Hl Hd Hh HF ltac:(set_solver)) as (o1 & Ho1 & Hd1 & Hn1).
  destruct (IH ltac:(set_solver) o1 Hd1) as (o2 & Ho2 & Hd2 & Hn2); [intros k; rewrite Hn1; apply Hh|].
  exists o2. split_and!; [|done|congruence]. csimpl.
  by rewrite (bind_Ok _ _ _ _ _ Ho1), (bind_Ok _ _ _ _ _ Ho2).
Qed.

(** All the records, whatever the order of the owners: a task's are in the order
    they were recorded. *)
Lemma list_objects_ok l F o : log_ok l -> disk_rel p D F o -> handles p s h o -> F s FData = Some (content FData l) ->
  exists ds o', list_objects None (objects_of p s l h, o) = (Ok ds, (objects_of p s l h, o')) /\
    (forall t, filter (fun d => dao_owner d = t) ds = filter (fun d => dao_owner d = t) (daos l)) /\
    disk_rel p D F o' /\ o_names o' = o_names o.
Proof.
  intros Hl Hd Hh HF. set (m := owners_of (daos l)). pose proof (ho_iter_perm m) as Hp.
  set (ds := concat ((fun k => filter (fun d => owner_id d = k) (daos l)) <$> (ho_iter m).*1)).
  assert (Hsub : ds ⊆ daos l).
  { intros d (x & (k & -> & _)%list_elem_of_In%list_elem_of_fmap & Hx)%list_elem_of_In%in_concat.
    by apply list_elem_of_In, list_elem_of_filter in Hx as [_ ?]. }
  destruct (load_all_ok l F ds Hl HF Hsub o Hd Hh) as (o' & Ho' & Hd' & Hn').
  exists ds, o'. split_and!; [|intros t|done|done].
  - unfold list_objects. rewrite bind_obj. cbn [ob_owners objects_of]. fold m.
    rewrite (owners_ids (daos l)) by (by intros x; rewrite Hp). done.
  - unfold ds. rewrite (filter_owners _ _ (wrap_u64 t)).
    + case_bool_decide as Hin; [done|]. symmetry. apply filter_none. intros d Hdl <-. apply Hin.
      rewrite Hp. apply list_elem_of_fmap. exists (owner_id d, default [] (m !! owner_id d)). split; [done|].
      apply elem_of_map_to_list. destruct (m !! owner_id d) eqn:E; [done|]. exfalso.
      pose proof (owners_of_lookup (daos l) (owner_id d)) as Ho. fold m in Ho. rewrite E in Ho.
      symmetry in Ho. apply fmap_nil_inv in Ho. by apply (filter_nil_not_elem_of _ _ _ Ho) in Hdl.
    + by intros d _ <-.
    + rewrite Hp. apply NoDup_fst_map_to_list.
Qed.
End session.

(** ** Opening the storages *)

Lemma load_metadata_ok p s l D F o i sz im io id ow : disk_rel p D F o -> F s FMeta = Some (content FMeta l) ->
  o_names o !! fpath p s FMeta = Some i ->
  load_metadata (mkObjects sz im ow io id (p ++ [s]), o) =
    (Ok tt, (mkObjects (size_of l) im ow io id (p ++ [s]), tick_call o)).
Proof.
  intros Hd HF Hi. pose proof size_bytes_ok as (_ & Hnil & Hu & Hfrom & _).
  unfold load_metadata. rewrite bind_obj. cbn [ob_dir]. change ((p ++ [s]) ++ [fname FMeta]) with (fpath p s FMeta).
  rewrite (bind_Ok _ _ _ _ _ (os_ok _ _ _ _ _ (os_read_to_string_rel _ _ _ _ _ _ _ _ Hd HF Hi ltac:(by destruct l)))).
  destruct l as [|r l]; [done|]. cbn [content]. rewrite String.list_ascii_of_string_of_list_ascii, Hfrom.
  by destruct size_bytes.
Qed.

Lemma load_owners_ok p s l D F o i sz im io id ow : log_ok l -> disk_rel p D F o ->
  F s FOwners = Some (content FOwners l) -> o_names o !! fpath p s FOwners = Some i ->
  load_owners (mkObjects sz im ow io id (p ++ [s]), o) =
    (Ok tt, (mkObjects sz im (owners_of (daos l)) io id (p ++ [s]), tick_call o)).
Proof.
  intros Hl Hd HF Hi. assert (Hids : Forall (fun d => is_u64 (dao_id d)) (daos l))
    by (eapply list.Forall_impl; [by apply daos_ok|by intros d []]).
  unfold load_owners. rewrite bind_obj. cbn [ob_dir]. change ((p ++ [s]) ++ [fname FOwners]) with (fpath p s FOwners).
  rewrite (bind_Ok _ _ _ _ _ (os_ok _ _ _ _ _ (os_read_to_string_rel _ _ _ _ _ _ _ _ Hd HF Hi (owner_lines_utf8 _ Hids)))).
  simpl content. by rewrite owner_lines_read.
Qed.

Lemma reloaded_ok p s l D F o i j im io id : log_ok l -> disk_rel p D F o ->
  F s FMeta = Some (content FMeta l) -> F s FOwners = Some (content FOwners l) ->
  o_names o !! fpath p s FMeta = Some i -> o_names o !! fpath p s FOwners = Some j ->
  reloaded (mkObjects 0 im ∅ io id (p ++ [s])) o =
    (Ok (mkObjects (size_of l) im (owners_of (daos l)) io id (p ++ [s])), tick_call (tick_call o)).
Proof.
  intros Hl Hd HFm HFo Hi Hj. unfold reloaded, reload.
  rewrite (bind_Ok _ _ _ _ _ (load_metadata_ok _ _ _ _ _ _ _ _ _ _ _ _ Hd HFm Hi)).
  by rewrite (load_owners_ok _ _ _ _ _ _ _ _ _ _ _ _ Hl (disk_rel_tick _ _ _ _ Hd) HFo Hj).
Qed.

(** The files of a session that is there, or of one that was just made. *)
Definition stored (s : string) (l : list entry) (F : fmap_t) : Prop := forall k, default [] (F s k) = content k l.

Lemma fset_default s k l F s' k' : stored s l F -> fset s k (default [] (F s k)) F s' k' =
  if bool_decide (s' = s /\ k' = k) then Some (content k l) else F s' k'.
Proof. intros HF. unfold fset. by rewrite HF. Qed.

Lemma stored_fset s k l F : stored s l F -> stored s l (fset s k (default [] (F s k)) F).
Proof. intros HF k'. rewrite (fset_default _ _ l) by done. case_bool_decide as E; [by destruct E as [_ ->]|done]. Qed.

Definition opened (s : string) (l : list entry) (F : fmap_t) : fmap_t := fun s' k =>
  if bool_decide (s' = s) then Some (content k l) else F s' k.

Lemma storages_new_ok p s l D F o : log_ok l -> disk_rel p D F o -> s ∈ D -> stored s l F ->
  exists h o1 o2, object_storage_new (p ++ [s]) o = (Ok (objects_of p s l h), o1) /\
    data_storage_new (p ++ [s]) o1 = (Ok (mkData (fpath p s FMessages) (h FMessages)), o2) /\
    disk_rel p D (opened s l F) o2 /\ handles p s h o2 /\ o_names o ⊆ o_names o2.
Proof.
  intros Hl Hd Hs HF.
  destruct (os_open_create_rel _ _ _ _ _ FData Hd Hs) as (id & oa & Ha & Hda & Hia & Hsa).
  apply (stored_fset _ FData) in HF as HFa.
  destruct (os_open_create_rel _ _ _ _ _ FOwners Hda Hs) as (io & ob & Hb & Hdb & Hib & Hsb).
  apply (stored_fset _ FOwners) in HFa as HFb.
  destruct (os_open_create_rel _ _ _ _ _ FMeta Hdb Hs) as (im & oc & Hc & Hdc & Hic & Hsc).
  apply (stored_fset _ FMeta) in HFb as HFc.
  destruct (os_open_create_rel _ _ _ _ _ FMessages (disk_rel_tick _ _ _ _ (disk_rel_tick _ _ _ _ Hdc)) Hs)
    as (ig & od & Hdo & Hdd & Hid & Hsd).
  set (h := fun k => match k with FMeta => im | FOwners => io | FData => id | FMessages => ig end).
  exists h, (tick_call (tick_call oc)), (tick_call od). split_and!.
  - unfold object_storage_new. change ((p ++ [s]) ++ [fname ?k]) with (fpath p s k).
    rewrite (bind_Ok _ _ _ _ _ Ha), (bind_Ok _ _ _ _ _ Hb), (bind_Ok _ _ _ _ _ Hc).
    eapply (reloaded_ok _ _ _ _ _ _ im io); [done|done| | |done|by eapply lookup_weaken].
    + by rewrite fset_eq, HFb.
    + by rewrite fset_ne, fset_eq, HFa by done.
  - unfold data_storage_new. change ((p ++ [s]) ++ [fname ?k]) with (fpath p s k).
    by rewrite (bind_Ok _ _ _ _ _ Hdo), (bind_Ok _ _ _ _ _ (os_canonicalize_quiet _ _ _ Hid)).
  - apply disk_rel_tick. eapply disk_rel_ext; [|done]. intros s' k. unfold opened.
    case_bool_decide as E; [subst s'|by rewrite !fset_ne by (intros [= ]; done)].
    destruct k; repeat first [rewrite fset_eq|rewrite fset_ne by done]; f_equal; done.
  - intros k. change (o_names (tick_call (tick_call oc))) with (o_names oc) in Hsd.
    destruct k; simpl; eauto using lookup_weaken.
  - simpl in *. by do 3 (etrans; [done|]).
Qed.

(** ** Messages *)

Lemma data_save_ok p s h D l r F o : log_ok (l ++ [r]) -> disk_rel p D F o -> handles p s h o ->
  F s FMessages = Some (messages l) ->
  exists o', data_save (mkData (fpath p s FMessages) (h FMessages)) (message_bytes r.2) o =
      (Ok (dao_message (next_dao l r)), o') /\
    disk_rel p D (fset s FMessages (messages (l ++ [r])) F) o' /\ o_names o' = o_names o.
Proof.
  intros Hl Hd Hh HF. pose proof (disk_rel_file _ _ _ _ _ _ _ _ Hd HF (Hh FMessages)) as Hi.
  pose proof (file_room FMessages l r Hl _ (messages_snoc l r)) as Hroom. simpl in Hroom.
  eexists. split_and!; [|by apply disk_rel_set; [apply disk_rel_tick, disk_rel_tick|apply (Hh FMessages)]|done].
  unfold data_save. cbn [dt_file]. rewrite (bind_Ok _ _ _ _ _ (os_len_quiet quiet _ _ _ Hi)).
  rewrite (bind_Ok _ _ _ _ _ (os_append_quiet quiet (h FMessages) _ _ (tick_call o) Hi Hroom)), messages_snoc.
  pose proof (dok_end _ (next_dao_ok _ _ Hl)) as He. simpl in He. by rewrite wrap_u64_small.
Qed.

Lemma data_load_ok i q c d r o : o_inodes o !! i = Some c -> len c <= 2 ^ 62 -> describes c d r ->
  data_load (mkData q i) (dao_message d) o = (Ok (message_bytes r.2), tick_call (tick_call o)).
Proof.
  intros Hi Hc Hde. pose proof (de_message _ _ _ Hde) as Hm. destruct Hde. pose proof (len_pos (message_bytes r.2)). unfold data_load, alloc. cbn [dt_file].
  replace (ix_end (dao_message d) - ix_start (dao_message d)) with (len (message_bytes r.2)) by lia.
  assert (Hmax : ix_start (dao_message d) <= max_file_len) by (unfold max_file_len; lia).
  rewrite (bind_Ok _ _ _ _ _ (os_seek_quiet _ o Hmax)).
  rewrite wrap_u64_small, (proj2 (Z.ltb_ge _ _)), bind_lift_Ok by (lia || width).
  rewrite (os_read_exact_quiet quiet i c) by (done || lia). unfold len. by rewrite Nat2Z.id, Hm.
Qed.

Lemma load_events_ok i q c rs ds o : o_inodes o !! i = Some c -> len c <= 2 ^ 62 -> Forall entry_ok rs ->
  Forall2 (describes c) ds rs ->
  exists o', load_events (mkData q i) ds o = (Ok (MemoryEventManager.reread <$> rs.*2), o').
Proof.
  intros Hi Hc Hrs Hds. revert o Hi. induction Hds as [|d r ds rs Hd _ IH]; intros o Hi; [by exists o|].
  apply list.Forall_cons in Hrs as [Hr Hrs].
  destruct (IH Hrs (tick_call (tick_call o)) Hi) as (o' & Ho'). exists o'.
  cbn [load_events]. rewrite (bind_Ok _ _ _ _ _ (data_load_ok _ _ _ _ _ _ Hi Hc Hd)). cbv zeta.
  unfold message_bytes. rewrite String.string_of_list_ascii_of_string, (eok_utf8 _ Hr), bind_lift_Ok.
  rewrite (de_time _ _ _ Hd), (de_code _ _ _ Hd).
  destruct (from_timestamp_millis_total (ev_creation_time r.2)) as [t Ht]. rewrite Ht. cbn [ok_or].
  rewrite bind_lift_Ok, (bind_Ok _ _ _ _ _ Ho'). csimpl. unfold MemoryEventManager.reread at 2. by rewrite Ht.
Qed.
End quiet.
