(* ===== verification/EventFilesLog.v ===== *)
(** * The event files as a log

    On a disk that works the manager of event files is a log of what was
    recorded in each session: it survives a restart of the manager, and is seen
    again once its session is set up. *)
From Stdlib Require Import Ascii.
From stdpp Require Import pretty.
From S2P Require Import Prelude Text Types Snapshot Events FsDisk FsRecord FsDemo ObjOs EventFiles EventFilesInv EventFilesOps.
Local Open Scope Z_scope.

(** ** The log *)

(** The operations the storage uses; [clear], which it does not, is apart
    ([clear_loses_later_events]). *)
Inductive fs_op :=
  | FSetup (session_id : string)
  | FRecord (owner : EventOwner) (event : Event)
  | FRemove (session_id : string)
  | FRestart.

(** What was recorded in each session, and the sessions that were set up since
    the last restart. *)
Record EventLog := mkLog { lg_recorded : gmap string (list entry); lg_open : gset string }.

Definition new_log : EventLog := mkLog ∅ ∅.

Definition log_step (op : fs_op) (g : EventLog) : result unit * EventLog :=
  match op with
  | FSetup s => (Ok tt, mkLog (<[s := default [] (lg_recorded g !! s)]> (lg_recorded g)) ({[s]} ∪ lg_open g))
  | FRecord o e =>
      if bool_decide (eo_session_id o ∈ lg_open g)
      then (Ok tt, mkLog (alter (fun l => l ++ [(eo_task_id o, e)]) (eo_session_id o) (lg_recorded g)) (lg_open g))
      else (Err ENotFound, g)
  | FRemove s => (Ok tt, mkLog (delete s (lg_recorded g)) (lg_open g ∖ {[s]}))
  | FRestart => (Ok tt, mkLog (lg_recorded g) ∅)
  end.

Definition task_log (task : Z) (l : list entry) : list entry := filter (fun r => r.1 = task) l.

Definition log_find `{Chrono} (owner : EventOwner) (g : EventLog) : list Event :=
  if bool_decide (eo_session_id owner ∈ lg_open g)
  then MemoryEventManager.reread <$> (task_log (eo_task_id owner) (default [] (lg_recorded g !! eo_session_id owner))).*2
  else [].

(** The results of a sequence of operations, and what they lead to. *)
Fixpoint run_ops {A} (step : fs_op -> A -> result unit * A) (ops : list fs_op) (a : A) : list (result unit) * A :=
  match ops with
  | [] => ([], a)
  | op :: ops => let '(r, a) := step op a in let '(rs, a) := run_ops step ops a in (r :: rs, a)
  end.

Section manager.
Context `{Env} `{Disk} `{Chrono} `{EventCodec} `{!EventCodecSpec} `{OwnerOrder}.

(** A restart opens a new manager on the same disk. *)
Definition fs_step (op : fs_op) : M FsEventManager unit :=
  match op with
  | FSetup s => setup_event_storage s
  | FRecord o e => record_event o e
  | FRemove s => remove_events s
  | FRestart => fun m =>
      match new_manager (em_path m) (em_os m) with
      | (Ok m', _) => (Ok tt, m')
      | (Err e, o) => (Err e, with_em_os o m)
      | (Panic, o) => (Panic, with_em_os o m)
      end
  end.

Definition op_ok (op : fs_op) : Prop :=
  match op with FRecord o e => entry_ok (eo_task_id o, e) | _ => True end.

(** ** The invariant *)

Definition storage_of (p : path) (s : string) (l : list entry) (h : fkind -> nat) : EventStorage :=
  mkEventStorage (objects_of p s l h) (mkData (fpath p s FMessages) (h FMessages)).

Definition task_events (s : string) (t : Z) (m : FsEventManager) : list EventDao :=
  default [] (default ∅ (em_events m !! s) !! t).

Definition files_of (logs : gmap string (list entry)) : fmap_t := fun s k => content k <$> logs !! s.

Record session_inv (s : string) (l : list entry) (m : FsEventManager) : Prop := {
  si_storage : exists h, em_storage m !! s = Some (storage_of (em_path m) s l h) /\ handles (em_path m) s h (em_os m);
  si_events : forall t, Forall2 (describes (messages l)) (task_events s t m) (task_log t l)
}.

Record log_inv (n : nat) (g : EventLog) (m : FsEventManager) : Prop := {
  li_disk : disk_rel (em_path m) (dom (lg_recorded g)) (files_of (lg_recorded g)) (em_os m);
  li_open : lg_open g ⊆ dom (lg_recorded g);
  li_closed : forall s, s ∉ lg_open g -> em_storage m !! s = None /\ em_events m !! s = None;
  li_sessions : forall s l, s ∈ lg_open g -> lg_recorded g !! s = Some l -> session_inv s l m;
  li_logs : forall s l, lg_recorded g !! s = Some l -> Forall entry_ok l /\ (length l <= n)%nat
}.

Lemma session_mono s l m m' : session_inv s l m -> em_path m' = em_path m ->
  em_storage m' !! s = em_storage m !! s -> em_events m' !! s = em_events m !! s ->
  (forall k i, o_names (em_os m) !! fpath (em_path m) s k = Some i -> o_names (em_os m') !! fpath (em_path m) s k = Some i) ->
  session_inv s l m'.
Proof.
  intros [(h & Hs & Hh) He] Hp Hs' He' Hn. split.
  - exists h. rewrite Hp, Hs'. split; [done|]. intros k. apply Hn, Hh.
  - unfold task_events in *. by rewrite He'.
Qed.

Lemma logs_ok n g m s l : log_inv n g m -> Z.of_nat n <= 2 ^ 31 -> lg_recorded g !! s = Some l -> log_ok l.
Proof. intros Hg Hn Hl. destruct (li_logs _ _ _ Hg s l Hl) as [Hf Hle]. split; [done|lia]. Qed.

Lemma sys_ok {A} (c : M Os A) m r o' : c (em_os m) = (r, o') -> sys c m = (r, with_em_os o' m).
Proof. intros Hc. unfold sys, zoom. by rewrite Hc. Qed.

(** ** Events in memory *)

Lemma push_event_eq s t d ev : default [] (default ∅ (push_event s t d ev !! s) !! t) =
  default [] (default ∅ (ev !! s) !! t) ++ [d].
Proof. unfold push_event. by rewrite lookup_insert_eq; simpl; rewrite lookup_insert_eq. Qed.

Lemma push_event_task s t t' d ev : t <> t' -> default [] (default ∅ (push_event s t d ev !! s) !! t') =
  default [] (default ∅ (ev !! s) !! t').
Proof. intros. unfold push_event. by rewrite lookup_insert_eq; simpl; rewrite lookup_insert_ne. Qed.

Lemma push_event_ne s s' t d ev : s <> s' -> push_event s t d ev !! s' = ev !! s'.
Proof. intros. unfold push_event. by rewrite lookup_insert_ne. Qed.

Lemma push_events s ds ev t :
  default [] (default ∅ (foldl (fun ev d => push_event s (dao_owner d) d ev) ev ds !! s) !! t) =
  default [] (default ∅ (ev !! s) !! t) ++ filter (fun d => dao_owner d = t) ds.
Proof.
  revert ev. induction ds as [|d ds IH]; intros ev; simpl; [by rewrite app_nil_r|]. rewrite IH, filter_cons.
  destruct (decide (dao_owner d = t)) as [<-|].
  - by rewrite push_event_eq, <-(assoc_L (++)).
  - by rewrite push_event_task.
Qed.

Lemma push_events_ne s s' ds ev : s <> s' ->
  foldl (fun ev d => push_event s (dao_owner d) d ev) ev ds !! s' = ev !! s'.
Proof. intros. revert ev. induction ds as [|d ds IH]; intros ev; simpl; [done|]. by rewrite IH, push_event_ne. Qed.

(** ** The operations *)

Section quiet.
Hypothesis quiet : forall n, io_fault n = None.

Lemma log_inv_S n g m : log_inv n g m -> log_inv (S n) g m.
Proof.
  intros []. split; try done. intros s l Hl. destruct (li_logs0 s l Hl). split; [done|lia].
Qed.

Lemma stored_files logs s : stored s (default [] (logs !! s)) (files_of logs).
Proof. intros k. unfold files_of. destruct (logs !! s); [done|]. by destruct k. Qed.

Lemma setup_known n s g m : log_inv n g m -> s ∈ lg_open g ->
  setup_event_storage s m = (Ok tt, m) /\ (log_step (FSetup s) g).2 = g.
Proof.
  intros Hg Hs. pose proof (li_open _ _ _ Hg s Hs) as [l Hl]%elem_of_dom.
  destruct (si_storage _ _ _ (li_sessions _ _ _ Hg s l Hs Hl)) as (h & Hh & _). split.
  - unfold setup_event_storage. rewrite bind_gets, Hh. by rewrite bool_decide_eq_true_2.
  - simpl. rewrite Hl. simpl. rewrite insert_id by done. destruct g as [recd opn]. simpl in *. f_equal. set_solver.
Qed.

Lemma setup_new n s g m : log_inv n g m -> Z.of_nat n <= 2 ^ 31 -> s ∉ lg_open g ->
  exists m', setup_event_storage s m = (Ok tt, m') /\ log_inv n (log_step (FSetup s) g).2 m'.
Proof.
  intros Hg Hn Hs. set (l := default [] (lg_recorded g !! s)).
  assert (Hl : log_ok l).
  { unfold l. destruct (lg_recorded g !! s) as [l'|] eqn:E; [by eapply logs_ok|]. split; [constructor|simpl; lia]. }
  destruct (session_create_rel quiet _ _ _ _ s (li_disk _ _ _ Hg)) as (o1 & Ho1 & Hd1 & Hn1).
  destruct (storages_new_ok quiet _ s l _ _ o1 Hl Hd1 ltac:(set_solver) (stored_files _ s))
    as (h & oa & o2 & Hoa & Ho2 & Hd2 & Hh & Hsub).
  destruct (list_objects_ok quiet _ s h _ l _ o2 Hl Hd2 Hh) as (ds & o3 & Ho3 & Hds & Hd3 & Hn3);
    [by unfold opened; rewrite bool_decide_eq_true_2|].
  destruct (li_closed _ _ _ Hg s Hs) as [Hst Hev].
  eexists. split.
  - unfold setup_event_storage. rewrite bind_gets, Hst. rewrite (bool_decide_eq_false_2 (is_Some None)) by (by intros []).
    rewrite bind_gets. unfold session_dir.
    rewrite (bind_Ok _ _ _ _ _ (sys_ok _ _ _ _ Ho1)).
    rewrite (bind_Ok _ _ _ _ _ (sys_ok _ (with_em_os o1 m) _ _ Hoa)).
    rewrite (bind_Ok _ _ _ _ _ (sys_ok _ (with_em_os oa (with_em_os o1 m)) _ _ Ho2)).
    erewrite bind_Ok; [|apply sys_ok; simpl; rewrite Ho3; done]. rewrite bind_modify. done.
  - split; simpl.
    + rewrite dom_insert_L. eapply disk_rel_ext; [|done]. intros s' k. unfold opened, files_of.
      case_bool_decide; [subst; by rewrite lookup_insert_eq|by rewrite lookup_insert_ne].
    + rewrite dom_insert_L. pose proof (li_open _ _ _ Hg). set_solver.
    + intros s' Hs'. rewrite lookup_insert_ne, push_events_ne by set_solver. apply (li_closed _ _ _ Hg). set_solver.
    + intros s' l' Hs' Hl'. destruct (decide (s' = s)) as [->|Hne].
      * rewrite lookup_insert_eq in Hl'. injection Hl' as <-. fold l. split; simpl.
        -- exists h. rewrite lookup_insert_eq. split; [done|]. intros k. rewrite Hn3. apply Hh.
        -- intros t. unfold task_events. simpl. rewrite push_events, Hev, Hds. simpl. rewrite lookup_empty. simpl.
           apply Forall2_filter_iff; [|apply describes_daos]. intros d r Hd. by rewrite (de_owner _ _ _ Hd).
      * rewrite lookup_insert_ne in Hl' by done. apply (session_mono _ _ m); simpl.
        -- apply (li_sessions _ _ _ Hg); [set_solver|done].
        -- done.
        -- by rewrite lookup_insert_ne.
        -- by rewrite push_events_ne.
        -- intros k i Hi. rewrite Hn3. eapply lookup_weaken; [|done]. by rewrite Hn1.
    + intros s' l'. rewrite lookup_insert_Some. intros [[<- <-]|[_ Hl']]; [|by apply (li_logs _ _ _ Hg s')].
      destruct (lg_recorded g !! s) as [l''|] eqn:E; [by apply (li_logs _ _ _ Hg s)|]. split; [constructor|simpl; lia].
Qed.

Lemma record_unknown n o e g m : log_inv n g m -> eo_session_id o ∉ lg_open g ->
  record_event o e m = (Err ENotFound, m).
Proof.
  intros Hg Hs. destruct (li_closed _ _ _ Hg _ Hs) as [Hst _]. unfold record_event. by rewrite bind_gets, Hst.
Qed.

(** The files after a record. *)
Lemma files_saved logs s l r s' k : logs !! s = Some l ->
  saved s (l ++ [r]) (fset s FMessages (messages (l ++ [r])) (files_of logs)) s' k =
  files_of (<[s := l ++ [r]]> logs) s' k.
Proof.
  intros Hl. unfold saved, files_of. destruct (decide (s' = s)) as [->|Hne].
  - rewrite lookup_insert_eq. destruct k; repeat first [rewrite fset_eq|rewrite fset_ne by done]; done.
  - rewrite lookup_insert_ne by done. by rewrite !fset_ne by (intros [= ]; done).
Qed.

(** The manager after a record. *)
Definition recorded (s : string) (l : list entry) (r : entry) (h : fkind -> nat) (o : Os) (m : FsEventManager) :=
  with_em_events (push_event s r.1 (set_id 0 (next_dao l r)) (em_events m))
    (with_em_storage (<[s := storage_of (em_path m) s (l ++ [r]) h]> (em_storage m)) (with_em_os o m)).

Lemma record_known n o e g m l : log_inv n g m -> log_ok (l ++ [(eo_task_id o, e)]) ->
  eo_session_id o ∈ lg_open g -> lg_recorded g !! eo_session_id o = Some l ->
  exists h o', record_event o e m = (Ok tt, recorded (eo_session_id o) l (eo_task_id o, e) h o' m) /\
    handles (em_path m) (eo_session_id o) h (em_os m) /\ o_names o' = o_names (em_os m) /\
    disk_rel (em_path m) (dom (lg_recorded g))
      (files_of (<[eo_session_id o := l ++ [(eo_task_id o, e)]]> (lg_recorded g))) o'.
Proof.
  intros Hg Hlog Hs Hl. set (r := (eo_task_id o, e)) in *. set (s := eo_session_id o) in *.
  destruct (li_sessions _ _ _ Hg s l Hs Hl) as [(h & Hst & Hh) _].
  assert (HF : forall k, files_of (lg_recorded g) s k = Some (content k l)) by (intros k; unfold files_of; by rewrite Hl).
  destruct (data_save_ok quiet _ s h _ l r _ _ Hlog (li_disk _ _ _ Hg) Hh (HF FMessages)) as (o1 & Ho1 & Hd1 & Hn1).
  destruct (save_object_ok quiet _ s h _ l r _ o1 Hlog Hd1) as (o2 & Ho2 & Hd2 & Hn2);
    [intros k; rewrite Hn1; apply Hh|intros k Hk; rewrite fset_ne by naive_solver; apply HF|].
  exists h, o2. split_and!; [|done|congruence|].
  - unfold record_event. fold s. rewrite bind_gets, Hst. cbv zeta. change (default EmptyString (ev_message e)) with
      (default EmptyString (ev_message r.2)). fold (message_bytes r.2).
    rewrite (bind_Ok _ _ _ _ _ (sys_ok _ _ _ _ Ho1)).
    change (mkDao 0 (eo_task_id o) (ev_code e) (dao_message (next_dao l r)) (timestamp_millis (ev_creation_time e)))
      with (set_id 0 (next_dao l r)).
    erewrite bind_Ok; [|unfold on_objects; cbn [es_objects storage_of em_os with_em_os]; rewrite Ho2; done]. done.
  - eapply disk_rel_ext; [|done]. intros s' k. by apply files_saved.
Qed.

Lemma alter_Some {A} (f : A -> A) (x : gmap string A) i a : x !! i = Some a -> alter f i x = <[i := f a]> x.
Proof.
  intros Hi. apply map_eq. intros j. destruct (decide (i = j)) as [<-|].
  - by rewrite lookup_alter_eq, lookup_insert_eq, Hi.
  - by rewrite lookup_alter_ne, lookup_insert_ne.
Qed.

Lemma recorded_session s l r h o m : session_inv s l m -> handles (em_path m) s h o ->
  session_inv s (l ++ [r]) (recorded s l r h o m).
Proof.
  intros [_ Hev] Hh. split; simpl.
  - exists h. by rewrite lookup_insert_eq.
  - intros t. unfold task_events, task_log. simpl. rewrite list.filter_app, filter_cons, filter_nil.
    assert (Hold : Forall2 (describes (messages (l ++ [r]))) (task_events s t m) (task_log t l)).
    { rewrite messages_snoc. eapply list.Forall2_impl; [apply Hev|]. intros d x. apply describes_app. }
    destruct (decide (r.1 = t)) as [<-|Hne].
    + rewrite push_event_eq. apply Forall2_app; [done|]. constructor; [apply describes_next|constructor].
    + by rewrite push_event_task, app_nil_r.
Qed.

Lemma record_inv n o e g m : log_inv n g m -> Z.of_nat (S n) <= 2 ^ 31 -> entry_ok (eo_task_id o, e) ->
  eo_session_id o ∈ lg_open g ->
  exists m', record_event o e m = (Ok tt, m') /\ log_inv (S n) (log_step (FRecord o e) g).2 m'.
Proof.
  intros Hg Hn He Hs. pose proof (li_open _ _ _ Hg _ Hs) as [l Hl]%elem_of_dom.
  destruct (li_logs _ _ _ Hg _ _ Hl) as [Hf Hlen].
  assert (Hlog : Forall entry_ok (l ++ [(eo_task_id o, e)])) by (by apply list.Forall_app; split; [|apply list.Forall_singleton]).
  destruct (record_known n o e g m l Hg) as (h & o' & Ho & Hh & Hnames & Hd); [|done|done|].
  { split; [done|]. rewrite length_app. simpl. lia. }
  eexists. split; [done|]. simpl. rewrite (bool_decide_eq_true_2 _ Hs). simpl.
  rewrite (alter_Some _ _ _ _ Hl). set (s := eo_session_id o) in *. set (r := (eo_task_id o, e)) in *.
  assert (Hdom : dom (<[s := l ++ [r]]> (lg_recorded g)) = dom (lg_recorded g)).
  { rewrite dom_insert_L. apply elem_of_dom_2 in Hl. set_solver. }
  split; simpl; rewrite ?Hdom.
  - done.
  - apply (li_open _ _ _ Hg).
  - intros s' Hs'. destruct (li_closed _ _ _ Hg s' Hs') as [? ?].
    rewrite lookup_insert_ne, push_event_ne by (by intros <-). done.
  - intros s' l' Hs'. rewrite lookup_insert_Some. intros [[<- <-]|[Hne Hl']].
    + apply recorded_session; [by apply (li_sessions _ _ _ Hg)|]. intros k. rewrite Hnames. apply Hh.
    + apply (session_mono _ _ m); simpl; [by apply (li_sessions _ _ _ Hg)|done|by rewrite lookup_insert_ne|
        by rewrite push_event_ne|by rewrite Hnames].
  - intros s' l'. rewrite lookup_insert_Some. intros [[<- <-]|[_ Hl']].
    + split; [done|]. rewrite length_app. simpl. lia.
    + destruct (li_logs _ _ _ Hg _ _ Hl'). split; [done|lia].
Qed.

(** What is left of a session that is removed. *)
Lemma remove_files s n g m : log_inv n g m ->
  exists o', (there ← sys (os_exists (session_dir s m));
      if there : bool then sys (io_try (os_remove_dir_all (session_dir s m))) else mret tt) m = (Ok tt, with_em_os o' m) /\
    disk_rel (em_path m) (dom (delete s (lg_recorded g))) (files_of (delete s (lg_recorded g))) o' /\
    (forall s' k, s' <> s -> o_names o' !! fpath (em_path m) s' k = o_names (em_os m) !! fpath (em_path m) s' k).
Proof.
  intros Hg. pose proof (li_disk _ _ _ Hg) as Hd. unfold session_dir.
  rewrite (bind_Ok _ _ _ _ _ (sys_ok _ _ _ _ (os_exists_quiet quiet _ _))), (session_exists _ _ _ _ _ Hd).
  assert (HF : forall s' k, (if bool_decide (s' = s) then None else files_of (lg_recorded g) s' k) =
      files_of (delete s (lg_recorded g)) s' k).
  { intros s' k. unfold files_of. case_bool_decide; [subst; by rewrite lookup_delete_eq|by rewrite lookup_delete_ne]. }
  case_bool_decide as Hs.
  - destruct (session_remove_rel quiet _ _ _ (tick_call (em_os m)) s (disk_rel_tick _ _ _ _ Hd) Hs) as (o' & Ho & Hd' & Hn).
    exists o'. split_and!; [exact (sys_ok _ (with_em_os (tick_call (em_os m)) m) _ _ Ho)| |done].
    rewrite dom_delete_L. by eapply disk_rel_ext; [|done].
  - exists (tick_call (em_os m)). split_and!; [done| |done]. apply disk_rel_tick.
    rewrite dom_delete_L. replace (dom (lg_recorded g) ∖ {[s]}) with (dom (lg_recorded g)) by set_solver.
    eapply disk_rel_ext; [|done]. intros s' k. rewrite <-HF. case_bool_decide; [|done]. subst s'.
    unfold files_of. apply not_elem_of_dom in Hs. by rewrite Hs.
Qed.

Lemma remove_inv n s g m : log_inv n g m ->
  exists m', remove_events s m = (Ok tt, m') /\ log_inv n (log_step (FRemove s) g).2 m'.
Proof.
  intros Hg. destruct (remove_files s n g m Hg) as (o' & Ho & Hd & Hn). eexists. split.
  - unfold remove_events. rewrite bind_gets, bind_assoc, (bind_Ok _ _ _ _ _ Ho). done.
  - split; simpl.
    + done.
    + rewrite dom_delete_L. pose proof (li_open _ _ _ Hg). set_solver.
    + intros s' Hs'. destruct (decide (s' = s)) as [->|]; [by rewrite !lookup_delete_eq|].
      rewrite !lookup_delete_ne by done. apply (li_closed _ _ _ Hg). set_solver.
    + intros s' l Hs'. rewrite lookup_delete_Some. intros [Hne Hl].
      apply (session_mono _ _ m); simpl; [apply (li_sessions _ _ _ Hg); set_solver|done|by rewrite lookup_delete_ne..|].
      intros k i. by rewrite Hn.
    + intros s' l. rewrite lookup_delete_Some. intros [_ Hl]. by apply (li_logs _ _ _ Hg s').
Qed.

Lemma restart_inv n g m : log_inv n g m ->
  exists m', fs_step FRestart m = (Ok tt, m') /\ log_inv n (log_step FRestart g).2 m'.
Proof.
  intros Hg. destruct (restart_rel quiet _ _ _ _ (li_disk _ _ _ Hg)) as (o' & Ho & Hd). eexists. split.
  - simpl. unfold new_manager. by rewrite Ho.
  - split; simpl; [done|set_solver|done|set_solver|apply (li_logs _ _ _ Hg)].
Qed.

(** Each operation does what the log does, with the same result. *)
Lemma step_inv n op g m : log_inv n g m -> Z.of_nat (S n) <= 2 ^ 31 -> op_ok op ->
  exists m', fs_step op m = ((log_step op g).1, m') /\ log_inv (S n) (log_step op g).2 m'.
Proof.
  intros Hg Hn Hop. destruct op as [s|o e|s|]; simpl in Hop.
  - destruct (decide (s ∈ lg_open g)) as [Hs|Hs].
    + destruct (setup_known n s g m Hg Hs) as [Hm Hlog]. exists m. rewrite Hlog. split; [done|by apply log_inv_S].
    + destruct (setup_new n s g m Hg ltac:(lia) Hs) as (m' & Hm & Hi). exists m'. split; [done|by apply log_inv_S].
  - simpl fs_step. destruct (decide (eo_session_id o ∈ lg_open g)) as [Hs|Hs].
    + destruct (record_inv n o e g m Hg Hn Hop Hs) as (m' & Hm & Hi). exists m'. split; [|done].
      simpl. by rewrite (bool_decide_eq_true_2 _ Hs).
    + exists m. simpl. rewrite (bool_decide_eq_false_2 _ Hs). split; [by eapply record_unknown|by apply log_inv_S].
  - destruct (remove_inv n s g m Hg) as (m' & Hm & Hi). exists m'. split; [done|by apply log_inv_S].
  - destruct (restart_inv n g m Hg) as (m' & Hm & Hi). exists m'. split; [done|by apply log_inv_S].
Qed.

Lemma run_inv ops n g m : log_inv n g m -> Z.of_nat (n + length ops) <= 2 ^ 31 -> Forall op_ok ops ->
  (run_ops fs_step ops m).1 = (run_ops log_step ops g).1 /\
  log_inv (n + length ops) (run_ops log_step ops g).2 (run_ops fs_step ops m).2.
Proof.
  intros Hg Hn Hops. revert n g m Hg Hn. induction Hops as [|op ops Hop _ IH]; intros n g m Hg Hn.
  - simpl. by rewrite Nat.add_0_r.
  - cbn [length] in *. destruct (step_inv n op g m Hg ltac:(lia) Hop) as (m' & Hm & Hg').
    destruct (IH _ _ _ Hg') as [Hr Hi]; [lia|]. cbn [run_ops]. rewrite Hm.
    destruct (log_step op g) as [r g']. simpl in *. destruct (run_ops fs_step ops m'), (run_ops log_step ops g').
    simpl in *. split; [by rewrite Hr|]. by rewrite Nat.add_succ_r.
Qed.

(** A lookup reads the log. *)
Lemma find_log n owner g m : log_inv n g m -> Z.of_nat n <= 2 ^ 31 ->
  (find_events owner m).1 = Ok (log_find owner g).
Proof.
  intros Hg Hn. unfold find_events, log_find. rewrite bind_gets. case_bool_decide as Hs.
  - pose proof (li_open _ _ _ Hg _ Hs) as [l Hl]%elem_of_dom.
    destruct (li_sessions _ _ _ Hg _ l Hs Hl) as [(h & Hst & Hh) Hev]. rewrite Hst, bind_gets, Hl. simpl default.
    assert (HF : files_of (lg_recorded g) (eo_session_id owner) FMessages = Some (messages l)) by (unfold files_of; by rewrite Hl).
    pose proof (disk_rel_file _ _ _ _ _ _ _ _ (li_disk _ _ _ Hg) HF (Hh FMessages)) as Hi.
    pose proof (logs_ok _ _ _ _ _ Hg Hn Hl) as Hlog.
    assert (Hok : Forall entry_ok (task_log (eo_task_id owner) l)).
    { apply list.Forall_forall. intros r [_ Hr]%list_elem_of_filter. by eapply list.Forall_forall in Hr; [|apply Hlog]. }
    destruct (load_events_ok quiet _ (fpath (em_path m) (eo_session_id owner) FMessages) _ _ _ _ Hi
      (content_length FMessages _ Hlog) Hok (Hev (eo_task_id owner))) as [o' Ho'].
    exact (f_equal fst (sys_ok _ _ _ _ Ho')).
  - destruct (li_closed _ _ _ Hg _ Hs) as [Hst _]. by rewrite Hst.
Qed.

Lemma start_inv p o : clean p o -> exists m, (new_manager p o).1 = Ok m /\ log_inv 0 new_log m.
Proof.
  intros Hc. destruct (start_rel quiet p o Hc) as (o' & Ho & Hd). eexists. unfold new_manager. rewrite Ho.
  split; [done|]. split; simpl; [|done..].
  rewrite dom_empty_L. eapply disk_rel_ext; [|done]. done.
Qed.
End quiet.
End manager.

(** ** Properties *)

(** C20 The event files refine a log per session.  On a disk that works and starts
    with nothing in the manager's directory, whatever the sequence of setups,
    records, removals and restarts of the manager, of at most 2^31 operations
    with messages of at most 2^31 bytes, every operation has the result the log
    has - a record in a session that is not set up is refused, all else succeeds
    - and a lookup returns exactly the events recorded for the task since its
    session was last removed, in their order, including those recorded before a
    restart once the session is set up again. *)
Theorem event_files_refine_log `{Env} `{Disk} `{Chrono} `{EventCodec} `{!EventCodecSpec} `{OwnerOrder}
    (quiet : forall n, io_fault n = None) p o ops :
  clean p o -> Forall op_ok ops -> Z.of_nat (length ops) <= 2 ^ 31 ->
  exists m, (new_manager p o).1 = Ok m /\
    (run_ops fs_step ops m).1 = (run_ops log_step ops new_log).1 /\
    forall owner, (find_events owner (run_ops fs_step ops m).2).1 = Ok (log_find owner (run_ops log_step ops new_log).2).
Proof.
  intros Hc Hops Hn. destruct (start_inv quiet p o Hc) as (m & Hm & Hg). exists m. split; [done|].
  destruct (run_inv quiet ops 0 new_log m Hg Hn Hops) as [Hr Hi]. split; [done|]. intros owner.
  by eapply find_log.
Qed.

(** * A concrete run of the event files

    A codec that satisfies what the manager relies on, a run against which the
    refinement is checked, and what two failed writes leave behind. *)

(** ** Records as their little-endian fields, the size as JSON *)

Module EventCodecDemo.
Import LeCodec.

Definition encode_dao (d : EventDao) : bytes :=
  le_bytes 8 (dao_id d) ++ le_bytes 8 (dao_owner d) ++ le_bytes 4 (dao_code d) ++
  le_bytes 8 (ix_start (dao_message d)) ++ le_bytes 8 (ix_end (dao_message d)) ++ le_bytes 8 (dao_creation_time d).

Definition decode_dao (b : bytes) : option (EventDao * bytes) :=
  '(id, b) ← field 8 b; '(owner, b) ← field 8 b; '(code, b) ← field 4 b;
  '(start, b) ← field 8 b; '(stop, b) ← field 8 b; '(time, b) ← field 8 b;
  Some (mkDao id (signed owner) (wrap_i32 code) (mkIndex start stop) (signed time), b).

Definition quote : string := String (ascii_of_nat 34) EmptyString.
Definition size_open : string := "{" +:+ quote +:+ "size" +:+ quote +:+ ":".
Definition size_text (n : Z) : string := size_open +:+ (pretty n +:+ "}").
Definition size_value (s : string) : option Z :=
  s ← strip_prefix size_open s; s ← strip_suffix "}" s; parse_u64 s.

#[export] Instance codec : EventCodec := {
  dao_to_allocvec d := Some (encode_dao d);
  dao_take_from_bytes := decode_dao;
  size_to_string n := Some (bytes_of (size_text n));
  size_from_str b := size_value (string_of b)
}.

Lemma encode_dao_length d : length (encode_dao d) = 44%nat.
Proof.
  apply Nat2Z.inj. unfold encode_dao. rewrite !length_app, !Nat2Z.inj_add.
  assert (Hl : forall n z, 0 <= n -> Z.of_nat (length (le_bytes n z)) = n) by (intros; by apply le_bytes_length).
  by rewrite !Hl by lia.
Qed.

#[local] Opaque le_bytes field.

Lemma decode_encode_dao d rest : dao_ok d -> decode_dao (encode_dao d ++ rest) = Some (d, rest).
Proof.
  intros []. unfold decode_dao, encode_dao. rewrite <-!app_assoc.
  unfold is_u64, u64_max in *. rewrite bind_field by lia. cbv beta iota. rewrite bind_signed by done. cbv beta iota.
  rewrite field_app by lia. cbn [mbind option_bind]. do 2 (rewrite bind_field by lia; cbv beta iota).
  rewrite bind_signed by done. cbv beta iota. rewrite !signed_mod by done.
  replace (wrap_i32 (dao_code d mod 2 ^ (4 * 8))) with (dao_code d); [by destruct d as [? ? ? []]|].
  unfold wrap_i32. rewrite Zplus_mod_idemp_l, Z.mod_small by width. lia.
Qed.

Lemma strip_prefix_app a s : strip_prefix a (a +:+ s) = Some s.
Proof. induction a as [|c a IH]; [done|]. simpl. rewrite Ascii.eqb_refl. apply IH. Qed.

Lemma size_value_text n : is_u64 n -> size_value (size_text n) = Some n.
Proof.
  intros Hn. unfold size_value, size_text. rewrite strip_prefix_app. cbn [mbind option_bind].
  rewrite strip_suffix_app. cbn [mbind option_bind]. by apply parse_u64_pretty.
Qed.

#[export] Instance codec_spec : EventCodecSpec.
Proof.
  refine {| dao_size := 44 |}.
  - lia.
  - intros d _. exists (encode_dao d). split; [done|]. apply encode_dao_length.
  - intros d b rest Hd [= <-]. by apply decode_encode_dao.
  - intros n Hn. exists (bytes_of (size_text n)). unfold bytes_of.
    assert (Ha : string_forall is_ascii (size_text n) = true).
    { unfold size_text. rewrite !string_forall_app. rewrite (ascii_digits (pretty n)); [done|].
      apply pretty_digits. width. }
    split_and!; [done|done| | |].
    + rewrite String.string_of_list_ascii_of_string, <-(string_app_nil (size_text n)). by rewrite is_utf8_app.
    + simpl. unfold string_of. rewrite String.string_of_list_ascii_of_string. by apply size_value_text.
    + unfold len. rewrite length_bytes. unfold size_text. rewrite !string_length_app.
      pose proof (pretty_length n Hn). simpl. lia.
Defined.
End EventCodecDemo.
Export (hints) EventCodecDemo.

#[local] Existing Instance demo_env.
#[local] Existing Instance demo_chrono.

#[local] Instance demo_owners : OwnerOrder := {|
  ho_iter m := map_to_list m;
  ho_iter_perm m := reflexivity (map_to_list m)
|}.

Definition demo_dir : path := ["events"%string].
Definition bare_disk : Os := mkOs ∅ ∅ ∅ ∅ 0 0 0.

Definition owner_a (t : Z) : EventOwner := mkEventOwner t "a".
Definition event_b (code : Z) (text : string) : Event := mkEvent code (Some text) 5000000.

(** Two tasks, one of them negative, in a session that is set up again after a
    restart; a session that is never set up; one that is removed. *)
Definition demo_ops : list fs_op :=
  [FSetup "a"; FRecord (owner_a 1) (event_b 7 "started"); FRecord (owner_a (-2)) (event_b 8 "other");
   FRecord (mkEventOwner 1 "c") (event_b 9 "nobody"); FRestart; FSetup "a"; FRecord (owner_a 1) (event_b (-1) "failed");
   FSetup "b"; FRecord (mkEventOwner 1 "b") (event_b 9 "gone"); FRemove "b"].

Lemma bare_clean : clean demo_dir bare_disk.
Proof. split; [done|set_solver|done|done]. Qed.

Lemma demo_ops_ok : Forall op_ok demo_ops.
Proof. repeat constructor; try (vm_compute; congruence). Qed.

Lemma demo_quiet n : @io_fault (demo_disk []) n = None.
Proof. done. Qed.

(** The refinement at the run above. *)
Lemma event_files_refine_log_witness :
  let _ : Disk := demo_disk [] in
  exists m, (new_manager demo_dir bare_disk).1 = Ok m /\
    (run_ops fs_step demo_ops m).1 = [Ok tt; Ok tt; Ok tt; Err ENotFound; Ok tt; Ok tt; Ok tt; Ok tt; Ok tt; Ok tt] /\
    (find_events (owner_a 1) (run_ops fs_step demo_ops m).2).1 =
      Ok [event_b 7 "started"; event_b (-1) "failed"] /\
    (find_events (mkEventOwner 1 "b") (run_ops fs_step demo_ops m).2).1 = Ok [].
Proof.
  intros D. destruct (event_files_refine_log demo_quiet demo_dir bare_disk demo_ops bare_clean demo_ops_ok
    ltac:(simpl; lia)) as (m & Hm & Hr & Hf).
  exists m. split; [exact Hm|]. split; [exact Hr|]. split; [exact (Hf (owner_a 1))|exact (Hf (mkEventOwner 1 "b"))].
Defined.

(** ** Failed writes *)

(** The manager after a run on a disk with faults. *)
Definition faulty_run (faults : list (nat * nat)) (ops : list fs_op) : option (list (result unit) * FsEventManager) :=
  let _ : Disk := demo_disk faults in
  match (new_manager demo_dir bare_disk).1 with
  | Ok m => Some (run_ops fs_step ops m)
  | _ => None
  end.

Definition demo_events (faults : list (nat * nat)) (t : Z) (m : FsEventManager) : result (list Event) :=
  let _ : Disk := demo_disk faults in (find_events (owner_a t) m).1.

(** The write of a line of owners that stops after the number of the record: the
    record fails, and after a restart the setup of the session panics. *)
Lemma torn_owner_line_panics :
  fst <$> faulty_run [(20, 1)]%nat
    [FSetup "a"; FRecord (owner_a 1) (event_b 7 "one"); FRecord (owner_a 1) (event_b 8 "two"); FRestart; FSetup "a"] =
  Some [Ok tt; Ok tt; Err EStorage; Ok tt; Panic].
Proof. vm_compute. reflexivity. Qed.

(** The write of the size that fails: the events that follow are recorded and
    found, but after a restart the session cannot be set up. *)
Lemma lost_size_locks_out :
  (fun x => (x.1, demo_events [(11, 0)]%nat 1 x.2)) <$>
    faulty_run [(11, 0)]%nat [FSetup "a"; FRecord (owner_a 1) (event_b 7 "one"); FRecord (owner_a 1) (event_b 8 "two")] =
  Some ([Ok tt; Err EStorage; Ok tt], Ok [event_b 8 "two"]) /\
  fst <$> faulty_run [(11, 0)]%nat
    [FSetup "a"; FRecord (owner_a 1) (event_b 7 "one"); FRecord (owner_a 1) (event_b 8 "two"); FRestart; FSetup "a"] =
  Some [Ok tt; Err EStorage; Ok tt; Ok tt; Err EInternal].
Proof. split; vm_compute; reflexivity. Qed.

(** [clear] removes the files but keeps them open: an event recorded after it is
    found, and gone after a restart. *)
Lemma clear_loses_later_events :
  let _ : Disk := demo_disk [] in
  let seen m := (find_events (owner_a 1) m).1 in
  (fun x =>
     let '(r, m) := clear x.2 in
     let '(rs, m) := run_ops fs_step [FRecord (owner_a 1) (event_b 8 "after")] m in
     let '(rs', m') := run_ops fs_step [FRestart; FSetup "a"] m in (r :: rs ++ rs', seen m, seen m')) <$>
    faulty_run [] [FSetup "a"; FRecord (owner_a 1) (event_b 7 "before")] =
  Some ([Ok tt; Ok tt; Ok tt; Ok tt], Ok [event_b 8 "after"], Ok []).
Proof. vm_compute. reflexivity. Qed.
