(* ===== verification/ObjDisk.v ===== *)
(** * The disk engine of the object cache ([object_cache/src/storage/disk.rs])

    An object is a directory with its metadata, an index of fixed-size records
    and the payloads of its parts.  An object is built in a temporary directory
    and renamed; a part is appended to the payloads and committed by its index
    record.  [serde_json] is a parameter with the round trip the engine relies
    on.  The blocking closures run in one step with the stream of chunks that
    feeds them; of two errors of a write, the model returns the stream's. *)
From Stdlib Require Import Ascii.
From S2P Require Import Prelude Types Engine FsDisk FsRecord ObjKey ObjStore ObjOs.
Local Open Scope Z_scope.

(** [serde_json] on a [StoredMetadata] (its data type), and
    [size_of::<ObjectFiles>()]. *)
Class Json := {
  encode_metadata : string -> option bytes;
  decode_metadata : bytes -> option string;
  object_files_size : Z;
  json_roundtrip : forall t, exists b, encode_metadata t = Some b /\ decode_metadata b = Some t;
  (** An escaped character takes at most six bytes. *)
  json_size : forall t b, encode_metadata t = Some b -> len b <= 6 * Z.of_nat (String.length t) + 16;
  object_files_size_pos : 0 < object_files_size
}.

Definition MAX_APPENDS_PER_OBJECT : Z := 1000.
Definition METADATA_FILE : string := "metadata.json".
Definition INDEX_FILE : string := "index.bin".
Definition DATA_FILE : string := "data.bin".
Definition LOST_FOUND_DIR : string := "lost+found".
Definition RECORD_LEN : Z := 3 * 8.

Definition encode_record (r : Record_) : bytes :=
  le_bytes 8 (rc_offset r) ++ le_bytes 8 (rc_len r) ++ le_bytes 8 (rc_creation_time r).

Definition decode_record (b : bytes) : Record_ :=
  let word at_ := take 8 (drop at_ b) in
  mkRecord (le_value (word 0%nat)) (le_value (word 8%nat)) (wrap_i64 (le_value (word 16%nat))).

Definition record_end (r : Record_) : Z := wrap_u64 (rc_offset r + rc_len r).

(** [Path::join] as the system resolves it: ["."] is the directory itself. *)
Definition join_path (dir : path) (name : string) : path :=
  if bool_decide (name = ".") then dir else dir ++ [name].

(** An open object: inodes of the index and of the payloads; the counter is
    shared by the clones of the [Arc]. *)
Record ObjectFiles := mkFiles {
  of_data_type : string;
  of_index : nat;
  of_data : nat;
  of_count : nat
}.

Section disk.
Context `{Disk, Env, Json}.

Definition files_count (f : ObjectFiles) : M Os nat := gets (fun o => default 0%nat (o_counts o !! of_count f)).

Definition files_record (f : ObjectFiles) (part : nat) : M Os (option Record_) :=
  count ← files_count f;
  if (count <=? part)%nat then mret None
  else
    b ← io_try (os_read_exact_at (of_index f) RECORD_LEN (Z.of_nat part * RECORD_LEN));
    mret (Some (decode_record b)).

Definition files_open (dir : path) : M Os (option ObjectFiles) :=
  opened ← os_open (join_path dir INDEX_FILE);
  match opened with
  | OErr OsNotFound => mret None
  | OErr _ => throw EStorage
  | OOk index =>
      metadata ← io_try (os_read (join_path dir METADATA_FILE));
      data_type ← lift (ok_or (decode_metadata metadata) EInvalidState);
      data ← io_try (os_open (join_path dir DATA_FILE));
      n ← io_try (os_len index);
      let count := Z.to_nat (n / RECORD_LEN) in
      io_try (os_set_len index (Z.of_nat count * RECORD_LEN)) ≫= fun _ =>
      counter ← gets o_fresh;
      modify (fun o => tick_fresh (set_count counter count o)) ≫= fun _ =>
      let files := mkFiles data_type index data counter in
      (* [count.wrapping_sub(1)] of an empty index is no part. *)
      last ← files_record files (if (count =? 0)%nat then count else count - 1);
      match last with
      | None => throw EInvalidState
      | Some last =>
          n ← io_try (os_len data);
          if record_end last <=? n then mret (Some files) else throw EInvalidState
      end
  end.

(** The records of [n] whole chunks. *)
Fixpoint decode_records (n : nat) (b : bytes) : list Record_ :=
  match n with
  | O => []
  | S n => decode_record (take (Z.to_nat RECORD_LEN) b) :: decode_records n (drop (Z.to_nat RECORD_LEN) b)
  end.

Definition files_records (f : ObjectFiles) : M Os (list Record_) :=
  count ← files_count f;
  b ← io_try (os_read_exact_at (of_index f) (Z.of_nat count * RECORD_LEN) 0);
  mret (decode_records count b).

Definition files_stat (f : ObjectFiles) : M Os ObjectStat :=
  records ← files_records f;
  mret (mkStat (of_data_type f) records).

Definition files_read_range (f : ObjectFiles) (part : nat) (offset n : Z) : M Os bytes :=
  record ← files_record f part;
  record ← lift (ok_or record ENotFound);
  lift (payload_range offset n (rc_len record)) ≫= fun _ =>
  io_try (os_read_exact_at (of_data f) n (wrap_u64 (rc_offset record + offset))).

Definition files_append (f : ObjectFiles) (key : string) (part : ObjectData) : M Os ObjectMetadata :=
  count ← files_count f;
  if MAX_APPENDS_PER_OBJECT <? Z.of_nat count then throw EInvalidState
  else
    offset ← io_try (os_len (of_data f));
    let record := mkRecord offset (data_size part) (od_creation_time part) in
    io_try (os_append (of_data f) (od_data part)) ≫= fun _ =>
    io_try (os_sync (of_data f)) ≫= fun _ =>
    io_try (os_append (of_index f) (encode_record record)) ≫= fun _ =>
    io_try (os_sync (of_index f)) ≫= fun _ =>
    modify (fun o => set_count (of_count f) (S (default 0%nat (o_counts o !! of_count f))) o) ≫= fun _ =>
    st ← files_stat f;
    created ← lift (stat_creation_time st);
    mret (mkMeta "" key (stat_version st) (stat_size st) created (os_data_type st)).

Definition memory_size (f : ObjectFiles) : Z := object_files_size + Z.of_nat (String.length (of_data_type f)).

(** ** [DiskStorage] *)

Definition new_disk_storage (storage_path : path) : M Os path :=
  found ← os_exists storage_path;
  if found : bool then mret storage_path
  else io_try (os_create_dir_all storage_path) ≫= fun _ => mret storage_path.

Section storage.
Variable storage_path : path.

Definition app_dir (key : ObjectKey) : path := join_path storage_path (app_name key).
Definition session_dir (key : ObjectKey) : path := join_path (app_dir key) (session_id key).
Definition object_dir (key : ObjectKey) : result path :=
  match object_id key with Some id => Ok (join_path (session_dir key) id) | None => Panic end.

(** The key with [expect("object_id required")]. *)
Definition expect_key (key : ObjectKey) : result string :=
  match to_key key with Some s => Ok s | None => Panic end.

Definition unique_temp_path (p : path) : M Os path :=
  n ← gets o_uuids;
  modify tick_uuid ≫= fun _ =>
  match p !! pred (length p) with
  | Some name => mret (parent p ++ ["." +:+ name +:+ ".tmp-" +:+ new_uuid n])
  | None => lift Panic
  end.

(** [feed_chunks]: the error of the stream, if it has one. *)
Definition fed (chunks : list (result bytes)) : result unit := (fun _ => tt) <$> drain chunks.

(** The loop of [create_object] over the channel, closed without the commit
    marker when the stream fails. *)
Fixpoint receive (i : nat) (size : Z) (chunks : list (result bytes)) : M Os Z :=
  match chunks with
  | [] => mret size
  | Ok chunk :: chunks =>
      io_try (os_append i chunk) ≫= fun _ => receive i (wrap_u64 (size + len chunk)) chunks
  | _ :: _ => throw EInternal
  end.

Definition write_synced (p : path) (data : bytes) : M Os unit :=
  i ← io_try (os_create_new p);
  io_try (os_append i data) ≫= fun _ =>
  io_try (os_sync i).

Definition create_object (temp_dir object_dir : path) (meta : ObjectMetadata) (chunks : list (result bytes)) : M Os Z :=
  io_try (os_create_dir temp_dir) ≫= fun _ =>
  file ← io_try (os_create_new (join_path temp_dir DATA_FILE));
  size ← receive file 0 chunks;
  io_try (os_sync file) ≫= fun _ =>
  let record := mkRecord 0 size (om_creation_time meta) in
  write_synced (join_path temp_dir INDEX_FILE) (encode_record record) ≫= fun _ =>
  metadata ← lift (ok_or (encode_metadata (om_data_type meta)) EInternal);
  write_synced (join_path temp_dir METADATA_FILE) metadata ≫= fun _ =>
  renamed ← os_rename_dir temp_dir object_dir;
  match renamed with
  | OOk _ => mret size
  | OErr OsExists => throw EAlreadyExist
  | OErr _ => throw EStorage
  end.

(** The blocking closure of [write_stream]. *)
Definition write_object_dir (key : ObjectKey) (dir : path) (meta : ObjectMetadata) (chunks : list (result bytes)) : M Os Z :=
  io_try (os_create_dir_all (session_dir key)) ≫= fun _ =>
  temp_dir ← unique_temp_path dir;
  r ← attempt (create_object temp_dir dir meta chunks);
  match r with
  | Ok size => mret size
  | _ => os_remove_dir_all temp_dir ≫= fun _ => lift r
  end.

Definition disk_write_stream (key : ObjectKey) (meta : ObjectMetadata) (chunks : list (result bytes)) : M Os ObjectMetadata :=
  dir ← lift (object_dir key);
  found ← os_exists dir;
  if found : bool then throw EAlreadyExist
  else
    written ← attempt (write_object_dir key dir meta chunks);
    lift (fed chunks) ≫= fun _ =>
    size ← lift written;
    mret (with_size size meta).

Definition disk_open (key : ObjectKey) : M Os (option ObjectFiles) :=
  dir ← lift (object_dir key);
  files_open dir.

Definition disk_read_range (key : ObjectKey) (part : nat) (offset n : Z) : M Os bytes :=
  lift (expect_key key) ≫= fun _ =>
  files ← disk_open key;
  files ← lift (ok_or files ENotFound);
  files_read_range files part offset n.

Definition disk_stat (key : ObjectKey) : M Os (option ObjectStat) :=
  files ← disk_open key;
  match files with
  | Some files => st ← files_stat files; mret (Some st)
  | None => mret None
  end.

Definition disk_patch_object (key : ObjectKey) (data : ObjectData) : M Os ObjectMetadata :=
  dir ← lift (object_dir key);
  key_str ← lift (expect_key key);
  files ← files_open dir;
  files ← lift (ok_or files ENotFound);
  files_append files key_str data.

(** [remove_empty_dir]: every error is only logged. *)
Definition remove_empty_dir (p : path) : M Os unit := os_remove_dir p ≫= fun _ => mret tt.

Definition disk_delete_objects (key : ObjectKey) : M Os unit :=
  dir ← lift (match object_id key with
              | Some _ => object_dir key
              | None => Ok (if is_all_sessions key then app_dir key else session_dir key)
              end);
  found ← os_exists dir;
  (if found : bool then io_try (os_remove_dir_all dir) else mret tt) ≫= fun _ =>
  remove_empty_dir (session_dir key) ≫= fun _ =>
  remove_empty_dir (app_dir key).

(** [for name in names { acc = body(name, acc)? }]. *)
Fixpoint for_names {A} (names : list string) (body : string -> A -> M Os A) (acc : A) : M Os A :=
  match names with
  | [] => mret acc
  | name :: names => acc ← body name acc; for_names names body acc
  end.

Definition scan_object (app ssn name : string) (object_path : path) (acc : list (ObjectKey * ObjectStat)) :
    M Os (list (ObjectKey * ObjectStat)) :=
  dir ← os_is_dir object_path;
  if negb dir then mret acc
  else if starts_with "." name then os_remove_dir_all object_path ≫= fun _ => mret acc
  else
    files ← files_open object_path;
    match files with
    | Some files => st ← files_stat files; mret (acc ++ [(mkKey app ssn (Some name), st)])
    | None => mret acc
    end.

Definition scan_session (app ssn : string) (session_path : path) (acc : list (ObjectKey * ObjectStat)) :
    M Os (list (ObjectKey * ObjectStat)) :=
  dir ← os_is_dir session_path;
  if negb dir then mret acc
  else
    names ← io_try (os_read_dir session_path);
    acc ← for_names names (fun name => scan_object app ssn name (session_path ++ [name])) acc;
    remove_empty_dir session_path ≫= fun _ => mret acc.

Definition scan_app (app : string) (app_path : path) (acc : list (ObjectKey * ObjectStat)) :
    M Os (list (ObjectKey * ObjectStat)) :=
  dir ← os_is_dir app_path;
  if negb dir || bool_decide (app = LOST_FOUND_DIR) then mret acc
  else
    names ← io_try (os_read_dir app_path);
    acc ← for_names names (fun name => scan_session app name (app_path ++ [name])) acc;
    remove_empty_dir app_path ≫= fun _ => mret acc.

Definition disk_scan : M Os (list (ObjectKey * ObjectStat)) :=
  found ← os_exists storage_path;
  if negb found then mret []
  else
    names ← io_try (os_read_dir storage_path);
    for_names names (fun name => scan_app name (storage_path ++ [name])) [].

Definition DiskStorage : StorageEngine ObjectFiles Os := {|
  write_stream := disk_write_stream;
  read_range := disk_read_range;
  open_object := disk_open;
  stat := disk_stat;
  patch_object := disk_patch_object;
  delete_objects := disk_delete_objects;
  scan := disk_scan;
  touch _ o := o
|}.
End storage.
End disk.
