(* ===== verification/Resident.v ===== *)
(** * Objects and open files in memory ([object_cache/src/storage/resident.rs])

    [ResidentStorage] keeps the open files of the objects of a file engine, or,
    over [NoStorage], the objects themselves.  The eviction policy bounds both.
    [run_eviction] is a loop that ends only when the policy has no victims left:
    it runs with a bound on its rounds, which is enough whenever any bound is,
    and a loop that does not end returns [Panic]. *)
From Stdlib Require Import Ascii.
From S2P Require Import Prelude Types Engine FsDisk FsRecord ObjKey ObjStore ObjOs ObjDisk Lru.
Local Open Scope Z_scope.

(** [EvictionPolicyPtr]. *)
Inductive EvictionPolicy := NoEvictionPolicy | LruPolicy (p : LRUPolicy).

(** The end of [new_policy], with the settings of the configuration and the
    environment resolved. *)
Definition new_policy (policy_name : string) (max_memory : Z) (max_objects : option Z) : EvictionPolicy :=
  if bool_decide (policy_name = "none") then NoEvictionPolicy else LruPolicy (new_lru max_memory max_objects).

Definition policy_do (o : lru_op) (p : EvictionPolicy) : EvictionPolicy :=
  match p with NoEvictionPolicy => NoEvictionPolicy | LruPolicy p => LruPolicy (lru_step p o) end.

Definition policy_victims (count : nat) (p : EvictionPolicy) : list string :=
  match p with NoEvictionPolicy => [] | LruPolicy p => victims count p end.

(** The keys the policy tracks. *)
Definition tracked (p : EvictionPolicy) : nat :=
  match p with NoEvictionPolicy => 0 | LruPolicy p => size (ll_nodes (lp_list p)) end.

Definition EVICTION_BATCH_SIZE : nat := 10.

Record Resident := mkResident {
  rs_objects : gmap string Object;
  rs_handles : gmap string ObjectFiles;
  rs_policy : EvictionPolicy;
  rs_os : Os
}.

Definition with_policy (p : EvictionPolicy) (r : Resident) : Resident :=
  mkResident (rs_objects r) (rs_handles r) p (rs_os r).
Definition with_objects (m : gmap string Object) (r : Resident) : Resident :=
  mkResident m (rs_handles r) (rs_policy r) (rs_os r).
Definition with_handles (m : gmap string ObjectFiles) (r : Resident) : Resident :=
  mkResident (rs_objects r) m (rs_policy r) (rs_os r).
Definition with_os (o : Os) (r : Resident) : Resident :=
  mkResident (rs_objects r) (rs_handles r) (rs_policy r) o.

Definition new_resident (policy : EvictionPolicy) (o : Os) : Resident := mkResident ∅ ∅ policy o.

Definition key_string (key : ObjectKey) : result string := ok_or (to_key key) EInternal.

(** The body of the inner loop of [run_eviction]. *)
Definition evict (r : Resident) (key : string) : Resident :=
  let removed := bool_decide (is_Some (rs_objects r !! key)) || bool_decide (is_Some (rs_handles r !! key)) in
  let r := with_handles (delete key (rs_handles r)) (with_objects (delete key (rs_objects r)) r) in
  if removed then with_policy (policy_do (Evict key) (rs_policy r)) r else r.

(** At most [fuel] rounds; the loop ended if [true]. *)
Fixpoint evict_loop (fuel : nat) (r : Resident) : bool * Resident :=
  match policy_victims EVICTION_BATCH_SIZE (rs_policy r) with
  | [] => (true, r)
  | keys => match fuel with O => (false, r) | S fuel => evict_loop fuel (foldl evict r keys) end
  end.

Definition run_eviction : M Resident unit := fun r =>
  match evict_loop (tracked (rs_policy r)) r with
  | (true, r) => (Ok tt, r)
  | (false, r) => (Panic, r)
  end.

Definition account (key : string) (n : Z) (existing : bool) : M Resident unit :=
  modify (fun r => with_policy (policy_do (if existing then Update key n else Add key n) (rs_policy r)) r) ≫= fun _ =>
  run_eviction.

Definition set_resident (key : string) (object : Object) : M Resident unit :=
  existing ← gets (fun r => bool_decide (is_Some (rs_objects r !! key)));
  modify (fun r => with_objects (<[key := object]> (rs_objects r)) r) ≫= fun _ =>
  account key (size_bytes object) existing.

Section resident.
Context `{Disk, Env, Json}.
Variable inner : StorageEngine ObjectFiles Os.
Variable cache_only : bool.

(** An operation of the inner engine or of open files. *)
Definition below {A} (m : M Os A) : M Resident A := zoom rs_os with_os m.

Definition resident_of (key : string) : M Resident (option Object) := gets (fun r => rs_objects r !! key).

Definition files (key : ObjectKey) : M Resident (option ObjectFiles) :=
  key_str ← lift (key_string key);
  cached ← gets (fun r => rs_handles r !! key_str);
  match cached with
  | Some files => mret (Some files)
  | None =>
      opened ← below (open_object inner key);
      match opened with
      | None => mret None
      | Some files =>
          existing ← gets (fun r => bool_decide (is_Some (rs_handles r !! key_str)));
          modify (fun r => with_handles (<[key_str := files]> (rs_handles r)) r) ≫= fun _ =>
          account key_str (memory_size files) existing ≫= fun _ =>
          mret (Some files)
      end
  end.

Definition resident_write_stream (key : ObjectKey) (meta : ObjectMetadata) (chunks : list (result bytes)) :
    M Resident ObjectMetadata :=
  key_str ← lift (key_string key);
  if negb cache_only then below (write_stream inner key meta chunks)
  else
    object ← resident_of key_str;
    match object with
    | Some _ => throw EAlreadyExist
    | None =>
        meta ← below (write_stream inner key meta chunks);
        (* The chunks that passed on their way to the inner engine. *)
        data ← lift (drain chunks);
        set_resident key_str (mkObject 0 (om_data_type meta) [mkData (om_creation_time meta) data]) ≫= fun _ =>
        mret meta
    end.

Definition resident_read_range (key : ObjectKey) (part : nat) (offset n : Z) : M Resident bytes :=
  key_str ← lift (key_string key);
  if cache_only then
    object ← resident_of key_str;
    object ← lift (ok_or object ENotFound);
    data ← lift (ok_or (ob_data object !! part) ENotFound);
    range ← lift (payload_range offset n (len (od_data data)));
    mret (slice range (od_data data))
  else
    opened ← files key;
    match opened with
    | Some files => below (files_read_range files part offset n)
    | None => below (read_range inner key part offset n)
    end.

Definition resident_stat (key : ObjectKey) : M Resident (option ObjectStat) :=
  if cache_only then
    key_str ← lift (key_string key);
    object ← resident_of key_str;
    mret (stat_of <$> object)
  else
    opened ← files key;
    match opened with
    | Some files => st ← below (files_stat files); mret (Some st)
    | None => below (stat inner key)
    end.

Definition resident_patch_object (key : ObjectKey) (data : ObjectData) : M Resident ObjectMetadata :=
  key_str ← lift (key_string key);
  if cache_only then
    metadata ← below (patch_object inner key data);
    object ← resident_of key_str;
    match object with
    | Some object => set_resident key_str (append_part data object) ≫= fun _ => mret metadata
    | None => mret metadata
    end
  else
    opened ← files key;
    match opened with
    | None => below (patch_object inner key data)
    | Some files =>
        metadata ← below (files_append files key_str data);
        account (om_key metadata) (memory_size files) true ≫= fun _ =>
        mret metadata
    end.

Definition resident_delete_objects (key : ObjectKey) : M Resident unit :=
  below (delete_objects inner key) ≫= fun _ =>
  removed ← gets (fun r => List.filter (matches key) ((hm_iter (rs_objects r)).*1 ++ (hm_iter (rs_handles r)).*1));
  modify (fun r =>
    with_handles (filter (fun kv : string * ObjectFiles => matches key kv.1 = false) (rs_handles r))
      (with_objects (filter (fun kv : string * Object => matches key kv.1 = false) (rs_objects r)) r)) ≫= fun _ =>
  modify (fun r => with_policy (foldl (fun p k => policy_do (Remove k) p) (rs_policy r) removed) r).

Definition resident_touch (key : ObjectKey) (r : Resident) : Resident :=
  match to_key key with
  | Some key => with_policy (policy_do (Access key) (rs_policy r)) r
  | None => r
  end.

Definition ResidentStorage : StorageEngine ObjectFiles Resident := {|
  write_stream := resident_write_stream;
  read_range := resident_read_range;
  open_object _ := mret None;
  stat := resident_stat;
  patch_object := resident_patch_object;
  delete_objects := resident_delete_objects;
  scan := below (scan inner);
  touch := resident_touch
|}.
End resident.

(** ** Eviction *)

(** The policy tracks exactly what is in memory, in the order [l]. *)
Record sound (r : Resident) (p : LRUPolicy) (l : entries) : Prop := {
  so_policy : rs_policy r = LruPolicy p;
  so_rep : lru_rep p l;
  so_keys : forall k, k ∈ l.*1 <-> is_Some (rs_objects r !! k) \/ is_Some (rs_handles r !! k)
}.

(** The counters of the policy have not wrapped; without a limit on their number
    the count of the objects may. *)
Record small (p : LRUPolicy) (l : entries) : Prop := {
  sm_sizes : Forall (fun e : string * Z => 0 <= e.2) l;
  sm_total : total_size l <= u64_max;
  sm_length : lp_max_objects p = None \/ Z.of_nat (length l) <= u64_max
}.

Definition over (p : LRUPolicy) (l : entries) : bool := over_limit (lp_max_memory p) (lp_max_objects p) l.

(** [r'] is [r] without [keys]; the policy is as it was otherwise. *)
Record evicted (keys : list string) (r r' : Resident) (p p' : LRUPolicy) : Prop := {
  ev_objects : forall k, rs_objects r' !! k = if decide (k ∈ keys) then None else rs_objects r !! k;
  ev_handles : forall k, rs_handles r' !! k = if decide (k ∈ keys) then None else rs_handles r !! k;
  ev_os : rs_os r' = rs_os r;
  ev_memory : lp_max_memory p' = lp_max_memory p;
  ev_count : lp_max_objects p' = lp_max_objects p
}.

Lemma total_size_nonneg l : Forall (fun e : string * Z => 0 <= e.2) l -> 0 <= total_size l.
Proof. induction 1; simpl; lia. Qed.

Lemma small_bounds p l : small p l ->
  is_u64 (total_size l) /\ (lp_max_objects p = None \/ is_u64 (Z.of_nat (length l))).
Proof. intros [Hs Ht Hl]. apply total_size_nonneg in Hs. split; [width|]. destruct Hl; [by left|right; width]. Qed.

Lemma small_drop p p' n l : lp_max_objects p' = lp_max_objects p -> small p l -> small p' (drop n l).
Proof.
  intros Hp [Hs Ht Hl]. rewrite <- (take_drop n l) in Hs, Ht, Hl. apply list.Forall_app in Hs as [H1 H2].
  rewrite total_size_app in Ht. rewrite length_app in Hl. apply total_size_nonneg in H1.
  split; [done|lia|]. rewrite Hp. destruct Hl; [by left|right; lia].
Qed.

Lemma evicted_trans k1 k2 r1 r2 r3 p1 p2 p3 :
  evicted k1 r1 r2 p1 p2 -> evicted k2 r2 r3 p2 p3 -> evicted (k1 ++ k2) r1 r3 p1 p3.
Proof.
  intros [O1 H1 S1 M1 C1] [O2 H2 S2 M2 C2]. split; [| |congruence..]; intros k.
  - rewrite O2, O1. repeat case_decide; set_solver.
  - rewrite H2, H1. repeat case_decide; set_solver.
Qed.

Lemma evicted_nil r p : evicted [] r r p p.
Proof. split; try done. Qed.

Lemma lru_rep_size p l : lru_rep p l -> size (ll_nodes (lp_list p)) = length l.
Proof.
  intros [[Hnd Hl _ _ Hdom] _ _].
  assert (Hd : dom (ll_nodes (lp_list p)) = list_to_set l.*1).
  { apply set_eq. intros k. rewrite elem_of_dom, elem_of_list_to_set. split.
    - intros [n Hn]. by eapply Hdom.
    - by apply linked_lookup with None None. }
  rewrite <- size_dom, Hd, size_list_to_set by done. apply length_fmap.
Qed.

Lemma evict_sound r p e l : sound r p (e :: l) ->
  exists p', sound (evict r e.1) p' l /\ evicted [e.1] r (evict r e.1) p p'.
Proof.
  intros [Hp Hr Hk]. set (p' := on_evict e.1 p).
  assert (He : bool_decide (is_Some (rs_objects r !! e.1)) || bool_decide (is_Some (rs_handles r !! e.1)) = true).
  { apply orb_true_iff. rewrite !bool_decide_eq_true. apply Hk. by left. }
  pose proof (lr_nodup _ _ (rep_list _ _ Hr)) as [Hnin Hnd]%list.NoDup_cons.
  assert (Hw : without e.1 (e :: l) = l).
  { unfold without. rewrite filter_cons_False by tauto. by apply without_fresh. }
  exists p'. unfold evict. rewrite He. split.
  - split; [simpl; by rewrite Hp|rewrite <- Hw; by apply on_evict_rep|]. intros k. simpl.
    pose proof (Hk k) as Hk'. rewrite fmap_cons, elem_of_cons in Hk'. destruct (decide (k = e.1)) as [->|Hne].
    + rewrite !lookup_delete_eq. split; [done|]. intros [[? [=]]|[? [=]]].
    + rewrite !lookup_delete_ne by done. rewrite <- Hk'. naive_solver.
  - destruct (lru_steps_limits p [Evict e.1]) as [Hm Hc].
    split; [| |done|exact Hm|exact Hc]; intros k; simpl; case_decide as Hd.
    1,3: apply list_elem_of_singleton in Hd; subst k; apply lookup_delete_eq.
    all: apply lookup_delete_ne; set_solver.
Qed.

Lemma evict_all_sound l1 l2 r p : sound r p (l1 ++ l2) ->
  exists p', sound (foldl evict r l1.*1) p' l2 /\ evicted l1.*1 r (foldl evict r l1.*1) p p'.
Proof.
  revert r p. induction l1 as [|e l1 IH]; intros r p Hs; simpl.
  { exists p. split; [done|apply evicted_nil]. }
  destruct (evict_sound _ _ _ _ Hs) as (p1 & Hs1 & He1). destruct (IH _ _ Hs1) as (p2 & Hs2 & He2).
  exists p2. split; [done|]. exact (evicted_trans [e.1] _ _ _ _ _ _ _ He1 He2).
Qed.

Lemma policy_victims_sound r p l n : sound r p l -> small p l ->
  policy_victims n (rs_policy r) = if over p l then take n l.*1 else [].
Proof. intros [-> Hr _] [H1 H2]%small_bounds. by apply victims_rep. Qed.

(** What [run_eviction] leaves of the queue: batches of ten are dropped from its
    front until it is within the limits or empty. *)
Record remains (p : LRUPolicy) (l : entries) (n : nat) : Prop := {
  rm_stop : over p (drop (EVICTION_BATCH_SIZE * n) l) = false \/ drop (EVICTION_BATCH_SIZE * n) l = [];
  rm_need : forall j, (j < n)%nat -> over p (drop (EVICTION_BATCH_SIZE * j) l) = true
}.

Lemma take_plus {A} n m (l : list A) : take (n + m) l = take n l ++ take m (drop n l).
Proof. revert l. induction n as [|n IH]; intros [|x l]; simpl; rewrite ?take_nil; [done..|by rewrite IH]. Qed.

Lemma evict_loop_sound fuel r p l : (length l <= fuel)%nat -> sound r p l -> small p l ->
  exists n r' p', evict_loop fuel r = (true, r') /\ remains p l n /\
    sound r' p' (drop (EVICTION_BATCH_SIZE * n) l) /\ evicted (take (EVICTION_BATCH_SIZE * n) l).*1 r r' p p'.
Proof.
  revert r p l. induction fuel as [|fuel IH]; intros r p l Hf Hs Hsm.
  { destruct l; [|simpl in Hf; lia]. exists 0%nat, r, p. simpl. rewrite (policy_victims_sound _ _ _ _ Hs Hsm).
    simpl. destruct (over p []); (split; [done|]; split; [split; [by right|lia]|by split; [|apply evicted_nil]]). }
  cbn [evict_loop]. rewrite (policy_victims_sound _ _ _ _ Hs Hsm). destruct (over p l) eqn:Hover.
  2:{ exists 0%nat, r, p. split; [done|]. split; [split; [by left|lia]|]. split; [done|apply evicted_nil]. }
  destruct (take EVICTION_BATCH_SIZE l.*1) as [|k ks] eqn:Hks.
  { destruct l; [|done]. exists 0%nat, r, p. split; [done|]. split; [split; [by right|lia]|]. split; [done|apply evicted_nil]. }
  change (foldl evict (evict r k) ks) with (foldl evict r (k :: ks)).
  rewrite <- Hks, <- fmap_take. rewrite <- (take_drop EVICTION_BATCH_SIZE l) in Hs.
  destruct (evict_all_sound _ _ _ _ Hs) as (p1 & Hs1 & He1).
  assert (Hlen : (length (drop EVICTION_BATCH_SIZE l) <= fuel)%nat).
  { rewrite length_drop. destruct l; simpl in *; [done|]. lia. }
  destruct (IH _ _ _ Hlen Hs1 (small_drop _ _ _ _ (ev_count _ _ _ _ _ He1) Hsm)) as (n & r' & p' & Hrun & [Hstop Hneed] & Hs' & He').
  assert (Hp1 : forall l, over p1 l = over p l) by (intros; unfold over; by rewrite (ev_memory _ _ _ _ _ He1), (ev_count _ _ _ _ _ He1)).
  rewrite drop_drop, Hp1 in Hstop. rewrite drop_drop in Hs'.
  replace (EVICTION_BATCH_SIZE + EVICTION_BATCH_SIZE * n)%nat with (EVICTION_BATCH_SIZE * S n)%nat in * by lia.
  exists (S n), r', p'. split; [exact Hrun|]. split; [split; [done|]|split; [done|]].
  - intros [|j] Hj; [by rewrite Nat.mul_0_r|]. rewrite <- Hp1. specialize (Hneed j ltac:(lia)).
    rewrite drop_drop in Hneed. by replace (EVICTION_BATCH_SIZE * S j)%nat with (EVICTION_BATCH_SIZE + EVICTION_BATCH_SIZE * j)%nat by lia.
  - assert (Hn : (EVICTION_BATCH_SIZE * S n = EVICTION_BATCH_SIZE + EVICTION_BATCH_SIZE * n)%nat) by lia.
    rewrite Hn, (take_plus EVICTION_BATCH_SIZE), fmap_app. exact (evicted_trans _ _ _ _ _ _ _ _ He1 He').
Qed.

Lemma run_eviction_sound r p l : sound r p l -> small p l ->
  exists n r' p', run_eviction r = (Ok tt, r') /\ remains p l n /\
    sound r' p' (drop (EVICTION_BATCH_SIZE * n) l) /\ evicted (take (EVICTION_BATCH_SIZE * n) l).*1 r r' p p'.
Proof.
  intros Hs Hsm. destruct (evict_loop_sound (length l) r p l ltac:(done) Hs Hsm) as (n & r' & p' & Hrun & Hr).
  exists n, r', p'. split; [|done]. unfold run_eviction, tracked. destruct Hs as [-> Hrep _].
  by rewrite (lru_rep_size _ _ Hrep), Hrun.
Qed.

(** *** The bound on the rounds

    A round that evicts nothing changes nothing, so a loop that has not ended
    when every tracked key could have been evicted never ends. *)

Lemma evict_rep r p l k : rs_policy r = LruPolicy p -> lru_rep p l -> k ∈ l.*1 ->
  evict r k = r \/ exists p', rs_policy (evict r k) = LruPolicy p' /\ lru_rep p' (without k l).
Proof.
  intros Hp Hr Hk. unfold evict.
  destruct (_ || _) eqn:Hrem; [right|left].
  - exists (on_evict k p). simpl. rewrite Hp. split; [done|by apply on_evict_rep].
  - apply orb_false_iff in Hrem as [H1 H2]. apply bool_decide_eq_false in H1, H2.
    apply eq_None_not_Some in H1, H2. destruct r as [o h pol os]. unfold with_handles, with_objects. simpl in *.
    by rewrite !delete_id.
Qed.

Lemma without_length k l : (length (without k l) <= length l)%nat.
Proof. apply length_filter. Qed.

Lemma without_length_lt k l : k ∈ l.*1 -> (length (without k l) < length l)%nat.
Proof.
  intros (e & -> & He)%list_elem_of_fmap. apply length_filter_lt with e; [done|]. tauto.
Qed.

Lemma evict_round r p l keys : rs_policy r = LruPolicy p -> lru_rep p l -> NoDup keys -> keys ⊆ l.*1 ->
  foldl evict r keys = r \/
  exists p' l', rs_policy (foldl evict r keys) = LruPolicy p' /\ lru_rep p' l' /\ (length l' < length l)%nat.
Proof.
  revert r p l. induction keys as [|k keys IH]; intros r p l Hp Hr Hnd Hsub; [by left|]. simpl.
  apply list.NoDup_cons in Hnd as [Hk Hnd]. assert (Hkl : k ∈ l.*1) by (apply Hsub; by left).
  destruct (evict_rep r p l k Hp Hr Hkl) as [->|(p1 & Hp1 & Hr1)].
  { apply (IH r p l Hp Hr Hnd). intros x Hx. apply Hsub. by right. }
  right. pose proof (without_length_lt k l Hkl) as Hlt.
  destruct (IH _ p1 _ Hp1 Hr1 Hnd) as [->|(p2 & l2 & ? & ? & ?)].
  - intros x Hx. apply elem_of_without. split; [by intros ->|]. apply Hsub. by right.
  - eauto.
  - exists p2, l2. split_and!; [done|done|lia].
Qed.

Lemma evict_loop_more fuel fuel' r r' : (fuel <= fuel')%nat ->
  evict_loop fuel r = (true, r') -> evict_loop fuel' r = (true, r').
Proof.
  revert fuel' r. induction fuel as [|fuel IH]; intros [|fuel'] r Hle; simpl;
    destruct (policy_victims _ _); try done; [lia|]. apply IH. lia.
Qed.

Lemma policy_victims_rep r p l : rs_policy r = LruPolicy p -> lru_rep p l ->
  policy_victims EVICTION_BATCH_SIZE (rs_policy r) = [] \/
  policy_victims EVICTION_BATCH_SIZE (rs_policy r) = take EVICTION_BATCH_SIZE l.*1.
Proof.
  intros -> [[_ Hl Hh _ _] _ _]. unfold policy_victims, victims. destruct (should_evict p); [right|by left].
  simpl negb. cbv iota. rewrite Hh. by eapply walk_linked.
Qed.

(** The bound of [run_eviction] is enough whenever some number of rounds is. *)
Lemma evict_loop_adequate fuel r r' p l : rs_policy r = LruPolicy p -> lru_rep p l ->
  evict_loop fuel r = (true, r') -> run_eviction r = (Ok tt, r').
Proof.
  intros Hp Hr Hrun. unfold run_eviction. rewrite Hp. simpl. rewrite (lru_rep_size _ _ Hr).
  enough (evict_loop (length l) r = (true, r')) as -> by done. revert r p l Hp Hr Hrun.
  induction fuel as [|fuel IH]; intros r p l Hp Hr Hrun.
  { apply evict_loop_more with 0%nat; [lia|done]. }
  cbn [evict_loop] in Hrun. destruct (policy_victims_rep r p l Hp Hr) as [Hv|Hv]; rewrite Hv in Hrun.
  { apply evict_loop_more with 0%nat; [lia|]. simpl. by rewrite Hv. }
  destruct (take EVICTION_BATCH_SIZE l.*1) as [|k ks] eqn:Hks.
  { apply evict_loop_more with 0%nat; [lia|]. simpl. by rewrite Hv. }
  destruct (evict_round r p l (k :: ks) Hp Hr) as [Hsame|(p1 & l1 & Hp1 & Hr1 & Hlt)].
  - rewrite <- Hks. eapply sublist_NoDup; [apply (lr_nodup _ _ (rep_list _ _ Hr))|apply sublist_take].
  - rewrite <- Hks. intros x Hx. eapply elem_of_take in Hx as (i & Hi & _). by eapply list_elem_of_lookup_2.
  - rewrite Hsame in Hrun. by eapply IH.
  - destruct (length l) as [|n]; [lia|]. cbn [evict_loop]. rewrite Hv.
    apply evict_loop_more with (length l1); [lia|]. by eapply IH.
Qed.

Lemma restricted {V} (m m' : gmap string V) (gone rest : list string) :
  (forall k, m' !! k = if decide (k ∈ gone) then None else m !! k) -> (forall k, k ∈ gone -> k ∉ rest) ->
  (forall k, is_Some (m' !! k) -> k ∈ rest) -> forall k v, m' !! k = Some v <-> k ∈ rest /\ m !! k = Some v.
Proof.
  intros Hm Hd Hr k v. specialize (Hr k). rewrite Hm in *. case_decide as Hk.
  - split; [done|]. intros [Hrest _]. by destruct (Hd k Hk).
  - split; [|by intros [_ ?]]. intros Hv. rewrite Hv in Hr. eauto.
Qed.

(** C34 [termination] As long as the policy tracks exactly what is in memory
    ([sound]) and its counters have not wrapped, eviction ends and evicts the
    objects used longest ago: [run_eviction] returns with batches of ten dropped
    from the front of the queue, as long as the memory or the count was over its
    limit, until it is within the limits or nothing is left.  What stays of the queue stays in memory, and nothing else does. *)
Theorem eviction_keeps_recent r p l :
  sound r p l -> small p l ->
  exists n r' p', run_eviction r = (Ok tt, r') /\
    let rest := drop (EVICTION_BATCH_SIZE * n) l in
    sound r' p' rest /\ (over p rest = false \/ rest = []) /\
    (forall j, (j < n)%nat -> over p (drop (EVICTION_BATCH_SIZE * j) l) = true) /\
    (forall k o, rs_objects r' !! k = Some o <-> k ∈ rest.*1 /\ rs_objects r !! k = Some o) /\
    (forall k f, rs_handles r' !! k = Some f <-> k ∈ rest.*1 /\ rs_handles r !! k = Some f).
Proof.
  intros Hs Hsm. destruct (run_eviction_sound r p l Hs Hsm) as (n & r' & p' & Hrun & [Hstop Hneed] & Hs' & He).
  exists n, r', p'. split; [done|]. cbv zeta. do 3 (split; [done|]).
  assert (Hd : forall k, k ∈ (take (EVICTION_BATCH_SIZE * n) l).*1 -> k ∉ (drop (EVICTION_BATCH_SIZE * n) l).*1).
  { pose proof (lr_nodup _ _ (rep_list _ _ (so_rep _ _ _ Hs))) as Hnd.
    rewrite <- (take_drop (EVICTION_BATCH_SIZE * n) l), fmap_app in Hnd. by apply list.NoDup_app in Hnd as (_ & ? & _). }
  destruct Hs' as [_ _ Hk']. destruct He as [Ho Hh _ _ _].
  split; [exact (restricted _ _ _ _ Ho Hd (fun k H => proj2 (Hk' k) (or_introl H)))|].
  exact (restricted _ _ _ _ Hh Hd (fun k H => proj2 (Hk' k) (or_intror H))).
Qed.

(** ** Accounting *)

Lemma remains_limits p p' l n :
  lp_max_memory p' = lp_max_memory p -> lp_max_objects p' = lp_max_objects p -> remains p' l n -> remains p l n.
Proof. intros Hm Ho [H1 H2]. unfold over in *. rewrite Hm, Ho in *. by split. Qed.

(** A key that has just been put in memory. *)
Lemma account_sound r p l k n existing :
  rs_policy r = LruPolicy p -> lru_rep p l -> existing = bool_decide (k ∈ l.*1) ->
  (forall j, is_Some (rs_objects r !! j) \/ is_Some (rs_handles r !! j) <-> j = k \/ j ∈ l.*1) ->
  small p (spec_add k n l) ->
  let queue := spec_add k n l in
  exists cnt r' p', account k n existing r = (Ok tt, r') /\ remains p queue cnt /\
    sound r' p' (drop (EVICTION_BATCH_SIZE * cnt) queue) /\
    evicted (take (EVICTION_BATCH_SIZE * cnt) queue).*1 r r' p p'.
Proof.
  intros Hp Hr -> Hk [Hs1 Hs2 Hs3] queue. set (o := if bool_decide (k ∈ l.*1) then Update k n else Add k n).
  set (r1 := with_policy (policy_do o (rs_policy r)) r). destruct (lru_steps_limits p [o]) as [Hm Hc]. simpl in Hm, Hc.
  assert (Hsound : sound r1 (lru_step p o) queue).
  { split; [simpl; by rewrite Hp| |].
    - replace queue with (spec_step l o) by (unfold o, queue; by case_bool_decide). by apply lru_step_rep.
    - intros j. unfold queue, spec_add. rewrite fmap_app, elem_of_app. simpl. rewrite Hk.
      rewrite elem_of_without, list_elem_of_singleton. destruct (decide (j = k)); tauto. }
  assert (Hsm : small (lru_step p o) queue) by (split; [done|done|by rewrite Hc]).
  destruct (run_eviction_sound _ _ _ Hsound Hsm) as (cnt & r' & p' & Hrun & Hrem & Hs' & [E1 E2 E3 E4 E5]).
  exists cnt, r', p'. split; [exact Hrun|]. split; [by eapply remains_limits|]. split; [done|].
  split; [exact E1|exact E2|exact E3|exact (eq_trans E4 Hm)|exact (eq_trans E5 Hc)].
Qed.

(** A batch takes everything when there are at most ten keys. *)
Lemma remains_batch p l n : over p l = true -> l <> [] -> (length l <= EVICTION_BATCH_SIZE)%nat ->
  remains p l n -> drop (EVICTION_BATCH_SIZE * n) l = [].
Proof.
  intros Ho Hne Hlen [Hstop _]. destruct n as [|n].
  - rewrite Nat.mul_0_r in Hstop |- *. change (drop 0 l) with l in *. destruct Hstop; congruence.
  - apply drop_ge. unfold EVICTION_BATCH_SIZE in *. lia.
Qed.

(** [safety] A put that exceeds a limit of a cache of fewer than ten objects
    loses all of them.  The batch of victims is not cut off where the limit is
    met, so [set_resident] returns successfully and leaves no object in memory,
    not even the one it stored, whatever one older object would have freed. *)
Theorem overfull_put_loses_all r p l k object :
  sound r p l -> rs_handles r = ∅ -> k ∉ l.*1 -> (length l < EVICTION_BATCH_SIZE)%nat ->
  small p (l ++ [(k, size_bytes object)]) -> over p (l ++ [(k, size_bytes object)]) = true ->
  exists r', set_resident k object r = (Ok tt, r') /\ rs_objects r' = ∅.
Proof.
  intros [Hp Hr Hk] Hh Hfresh Hlen Hsm Ho. assert (Hadd : spec_add k (size_bytes object) l = l ++ [(k, size_bytes object)])
    by (unfold spec_add; by rewrite without_fresh).
  assert (Hnone : rs_objects r !! k = None).
  { apply eq_None_not_Some. intros Hsome. apply Hfresh, Hk. by left. }
  set (r1 := with_objects (<[k := object]> (rs_objects r)) r).
  destruct (account_sound r1 p l k (size_bytes object) false) as (n & r' & p' & Hrun & Hrem & Hs' & _);
    [done|done|by rewrite bool_decide_eq_false_2| |by rewrite Hadd|].
  { intros j. simpl. rewrite lookup_insert_is_Some. rewrite (Hk j), Hh. destruct (decide (k = j)); naive_solver. }
  exists r'. split.
  - unfold set_resident, gets, modify, mbind, M_bind. rewrite Hnone. exact Hrun.
  - rewrite Hadd in *. rewrite (remains_batch _ _ _ Ho) in Hs'; [|by destruct l|rewrite length_app; simpl; lia|done].
    apply map_empty. intros j. apply eq_None_not_Some. intros Hj. destruct Hs' as [_ _ Hk'].
    exact (not_elem_of_nil _ (proj2 (Hk' j) (or_introl Hj))).
Qed.

(** Victims that are not in memory stay victims. *)
Lemma ghosts_stay r fuel :
  policy_victims EVICTION_BATCH_SIZE (rs_policy r) <> [] ->
  (forall k, k ∈ policy_victims EVICTION_BATCH_SIZE (rs_policy r) -> rs_objects r !! k = None /\ rs_handles r !! k = None) ->
  evict_loop fuel r = (false, r).
Proof.
  intros Hne Hghost. assert (Hround : foldl evict r (policy_victims EVICTION_BATCH_SIZE (rs_policy r)) = r).
  { revert Hghost. clear Hne. induction (policy_victims _ _) as [|k ks IH]; intros Hg; [done|]. simpl.
    destruct (Hg k ltac:(by left)) as [Ho Hh].
    assert (Hk : evict r k = r).
    { unfold evict. rewrite Ho, Hh. simpl. destruct r. unfold with_handles, with_objects. simpl in *. by rewrite !delete_id. }
    rewrite Hk. apply IH. intros j Hj. apply Hg. by right. }
  destruct (policy_victims EVICTION_BATCH_SIZE (rs_policy r)) as [|k ks] eqn:Hv; [done|].
  induction fuel as [|fuel IH]; cbn [evict_loop]; rewrite Hv; [done|].
  by rewrite Hround.
Qed.
