(* ===== verification/CacheOnly.v ===== *)
(** * The cache without a store

    [ResidentStorage] over [NoStorage] ([object_cache/src/storage/resident.rs],
    [cache_only]) meets the contract of a storage engine, except that eviction
    loses objects: after each operation it holds a part of the objects the
    contract asks for, with their contents. *)
From Stdlib Require Import Ascii.
From S2P Require Import Prelude Types Engine FsDisk FsRecord ObjKey ObjStore ObjOs ObjDisk Lru Resident.
Local Open Scope Z_scope.

(** ** Queues between operations *)

(** Limits that the counters can exceed by one object without wrapping. *)
Record limits_ok (p : LRUPolicy) : Prop := {
  lo_memory : 0 <= lp_max_memory p <= 2 ^ 63;
  lo_objects : match lp_max_objects p with Some n => 0 <= n < u64_max | None => True end
}.

(** A queue that eviction has left. *)
Record settled (p : LRUPolicy) (l : entries) : Prop := {
  st_limits : limits_ok p;
  st_sizes : Forall (fun e : string * Z => 0 <= e.2) l;
  st_within : over p l = false \/ l = []
}.

Lemma over_spec p l : over p l = false <->
  total_size l <= lp_max_memory p /\ match lp_max_objects p with Some n => Z.of_nat (length l) <= n | None => True end.
Proof.
  unfold over, over_limit. rewrite orb_false_iff, Z.ltb_ge. destruct (lp_max_objects p); [rewrite Z.ltb_ge|]; tauto.
Qed.

Lemma settled_bounds p l : settled p l ->
  total_size l <= lp_max_memory p /\ match lp_max_objects p with Some n => Z.of_nat (length l) <= n | None => True end.
Proof.
  intros [[Hm Ho] _ [Hw| ->]]; [by apply over_spec|]. simpl. split; [lia|]. destruct (lp_max_objects p); lia.
Qed.

Lemma total_size_perm l1 l2 : l1 ≡ₚ l2 -> total_size l1 = total_size l2.
Proof. induction 1; simpl; lia. Qed.

Lemma settled_perm p l1 l2 : l1 ≡ₚ l2 -> settled p l1 -> settled p l2.
Proof.
  intros Hl [Hm Hs Hw]. split; [done|by rewrite <- Hl|]. destruct Hw as [Hw| ->].
  - left. apply over_spec in Hw. apply over_spec. by rewrite <- (total_size_perm _ _ Hl), <- (Permutation_length Hl).
  - right. by apply Permutation_nil_l in Hl.
Qed.

Lemma total_size_without k l : Forall (fun e : string * Z => 0 <= e.2) l -> total_size (without k l) <= total_size l.
Proof.
  unfold without. induction 1 as [|e l He Hl IH]; simpl; [done|]. destruct (decide (e.1 = k)).
  - rewrite filter_cons_False by tauto. lia.
  - rewrite filter_cons_True by done. simpl. lia.
Qed.

Lemma sizes_without k l : Forall (fun e : string * Z => 0 <= e.2) l -> Forall (fun e : string * Z => 0 <= e.2) (without k l).
Proof. rewrite !list.Forall_forall. intros Hl e [_ He]%list_elem_of_filter. by apply Hl. Qed.

Lemma settled_without p k l : settled p l -> settled p (without k l).
Proof.
  intros Hst. pose proof (settled_bounds p l Hst) as [Hb Hc]. destruct Hst as [Hm Hs _].
  pose proof (total_size_without k l Hs). pose proof (without_length k l).
  split; [done|by apply sizes_without|]. left. apply over_spec. split; [lia|]. destruct (lp_max_objects p); lia.
Qed.

Lemma spec_access_perm k l : NoDup l.*1 -> spec_access k l ≡ₚ l.
Proof.
  intros Hnd. unfold spec_access. destruct (list_find _ l) as [[i e]|] eqn:Hf; [|done].
  apply list_find_Some in Hf as (Hi & He & _). apply list_elem_of_lookup_2, list_elem_of_split in Hi as (l1 & l2 & ->).
  destruct (NoDup_middle _ _ _ Hnd) as (_ & H1 & H2 & _). destruct e as [k' s]. simpl in He. subst k'.
  rewrite without_middle by done. solve_Permutation.
Qed.

Lemma settled_small_add p k n l : settled p l -> 0 <= n <= max_file_len -> small p (spec_add k n l).
Proof.
  intros Hst Hn. pose proof (settled_bounds p l Hst) as [Hb Hc]. destruct Hst as [[Hm Ho] Hs _].
  pose proof (total_size_without k l Hs). pose proof (without_length k l). unfold spec_add, max_file_len in *. split.
  - apply list.Forall_app. split; [by apply sizes_without|]. repeat constructor. simpl. lia.
  - rewrite total_size_app. simpl. unfold u64_max. lia.
  - destruct (lp_max_objects p); [right|by left]. rewrite length_app. simpl. lia.
Qed.

Lemma settled_rest p p' l n : limits_ok p -> Forall (fun e : string * Z => 0 <= e.2) l -> remains p l n ->
  lp_max_memory p' = lp_max_memory p -> lp_max_objects p' = lp_max_objects p ->
  settled p' (drop (EVICTION_BATCH_SIZE * n) l).
Proof.
  intros [Hm Ho] Hs [Hstop _] Em Eo. split.
  - split; by rewrite ?Em, ?Eo.
  - rewrite <- (take_drop (EVICTION_BATCH_SIZE * n) l) in Hs. by apply list.Forall_app in Hs as [_ ?].
  - unfold over in *. by rewrite Em, Eo.
Qed.

(** ** The objects in memory *)

Definition policy_ok (r : Resident) : Prop :=
  match rs_policy r with
  | NoEvictionPolicy => True
  | LruPolicy p => exists l, sound r p l /\ settled p l
  end.

Record cached (r : Resident) (m : objects) : Prop := {
  ca_objects : rs_objects r = m;
  ca_handles : rs_handles r = ∅;
  ca_fits : forall k o, m !! k = Some o -> fits o;
  ca_policy : policy_ok r
}.

Lemma run_eviction_none r : rs_policy r = NoEvictionPolicy -> run_eviction r = (Ok tt, r).
Proof. intros Hp. unfold run_eviction. rewrite Hp. simpl. by rewrite Hp. Qed.

Lemma set_resident_cached r m k o : cached r m -> fits o ->
  exists r' m', set_resident k o r = (Ok tt, r') /\ cached r' m' /\ m' ⊆ <[k := o]> m.
Proof.
  intros [<- Hh Hf Hp] Ho. set (r1 := with_objects (<[k := o]> (rs_objects r)) r).
  assert (Hset : set_resident k o r = account k (size_bytes o) (bool_decide (is_Some (rs_objects r !! k))) r1) by done.
  assert (Hf1 : forall j x, <[k := o]> (rs_objects r) !! j = Some x -> fits x).
  { intros j x [[<- <-]|[_ Hj]]%lookup_insert_Some; [done|by eapply Hf]. }
  rewrite Hset. unfold policy_ok in Hp. destruct (rs_policy r) as [|p] eqn:Hpol.
  - set (r2 := with_policy NoEvictionPolicy r1). exists r2, (<[k := o]> (rs_objects r)). split; [|split; [|done]].
    + unfold account, modify, mbind, M_bind. simpl. rewrite Hpol. exact (run_eviction_none r2 eq_refl).
    + split; [done|done|done|done].
  - destruct Hp as (l & [_ Hrep Hk] & Hst).
    destruct (account_sound r1 p l k (size_bytes o) (bool_decide (is_Some (rs_objects r !! k))))
      as (n & r' & p' & Hrun & Hrem & Hs' & [E1 E2 E3 E4 E5]).
    + done.
    + done.
    + apply bool_decide_ext. rewrite Hk, Hh. split; [by left|]. intros [?|[? [=]]]. done.
    + intros j. simpl. rewrite Hk, lookup_insert_is_Some. destruct (decide (k = j)); naive_solver.
    + apply settled_small_add; [done|]. apply fits_size in Ho as [_ ?]. done.
    + exists r', (rs_objects r'). split; [done|]. assert (Hsub : rs_objects r' ⊆ <[k := o]> (rs_objects r)).
      { apply map_subseteq_spec. intros j x. rewrite E1. case_decide; [done|]. by simpl. }
      split; [split|done].
      * done.
      * apply map_empty. intros j. rewrite E2. simpl. rewrite Hh. by case_decide.
      * intros j x Hj. eapply Hf1, lookup_weaken; done.
      * unfold policy_ok. rewrite (so_policy _ _ _ Hs'). eexists. split; [exact Hs'|].
        eapply settled_rest; [apply Hst| |done|done|done].
        apply fits_size in Ho as [_ Ho]. apply (sm_sizes p), settled_small_add; [done|lia].
Qed.

(** *** Deleting and touching *)

Lemma policy_ok_os r o : policy_ok r -> policy_ok (with_os o r).
Proof.
  unfold policy_ok. simpl. destruct (rs_policy r) as [|p] eqn:Hp; [done|]. intros (l & [_ Hr Hk] & Hst).
  exists l. split; [|done]. by split.
Qed.

Lemma settled_limits p p' l : lp_max_memory p' = lp_max_memory p -> lp_max_objects p' = lp_max_objects p ->
  settled p l -> settled p' l.
Proof. intros Hm Ho [[L1 L2] L3 L4]. split; [split; by rewrite ?Hm, ?Ho|done|]. unfold over in *. by rewrite Hm, Ho. Qed.

Lemma removes_rep ks p l : lru_rep p l -> settled p l -> exists p' l',
  foldl (fun q k => policy_do (Remove k) q) (LruPolicy p) ks = LruPolicy p' /\ lru_rep p' l' /\ settled p' l' /\
  lp_max_memory p' = lp_max_memory p /\ lp_max_objects p' = lp_max_objects p /\ l' ⊆ l /\
  forall k, k ∈ l'.*1 <-> k ∈ l.*1 /\ k ∉ ks.
Proof.
  revert p l. induction ks as [|k ks IH]; intros p l Hr Hst; simpl.
  - exists p, l. split_and!; try done. intros k. set_solver.
  - destruct (lru_steps_limits p [Evict k]) as [Hm Ho]. simpl in Hm, Ho.
    destruct (IH (on_evict k p) (without k l)) as (p' & l' & Hf & Hr' & Hst' & Hm' & Ho' & Hsub & Hk').
    + by apply on_evict_rep.
    + apply (settled_limits p); [done..|by apply settled_without].
    + exists p', l'. split_and!; [done..|congruence|congruence| |].
      * intros e He. apply Hsub in He. unfold without in He. by apply list_elem_of_filter in He as [_ ?].
      * intros j. rewrite Hk', elem_of_without. set_solver.
Qed.

Section forget.
Context `{Env}.

(** The keys in memory that a delete selects. *)
Definition selected (key : ObjectKey) (r : Resident) : list string :=
  List.filter (matches key) ((hm_iter (rs_objects r)).*1 ++ (hm_iter (rs_handles r)).*1).

Definition forget (key : ObjectKey) (r : Resident) : Resident :=
  with_policy (foldl (fun p k => policy_do (Remove k) p) (rs_policy r) (selected key r))
    (with_handles (filter (fun kv : string * ObjectFiles => matches key kv.1 = false) (rs_handles r))
      (with_objects (filter (fun kv : string * Object => matches key kv.1 = false) (rs_objects r)) r)).

Lemma hm_iter_key {V} (m : gmap string V) k : k ∈ (hm_iter m).*1 <-> is_Some (m !! k).
Proof.
  rewrite list_elem_of_fmap. split.
  - intros ([j v] & -> & Hj%hm_iter_elem). eauto.
  - intros [v Hv]. exists (k, v). by rewrite hm_iter_elem.
Qed.

Lemma selected_elem key r k : k ∈ selected key r <->
  matches key k = true /\ (is_Some (rs_objects r !! k) \/ is_Some (rs_handles r !! k)).
Proof.
  unfold selected. rewrite list_elem_of_In, filter_In, <- list_elem_of_In, elem_of_app, !hm_iter_key. tauto.
Qed.

Lemma filter_matches {V} key (m : gmap string V) k :
  is_Some (filter (fun kv : string * V => matches key kv.1 = false) m !! k) <-> is_Some (m !! k) /\ matches key k = false.
Proof. unfold is_Some. setoid_rewrite map_lookup_filter_Some. simpl. naive_solver. Qed.

Lemma forget_sound key r p l : sound r p l -> settled p l -> exists p' l',
  sound (forget key r) p' l' /\ settled p' l' /\ lp_max_memory p' = lp_max_memory p /\
  lp_max_objects p' = lp_max_objects p /\ l' ⊆ l.
Proof.
  intros [Hp Hr Hk] Hst.
  destruct (removes_rep (selected key r) p l Hr Hst) as (p' & l' & Hf & Hr' & Hst' & Hm & Ho & Hsub & Hk').
  exists p', l'. split; [|done]. split; [simpl; by rewrite Hp, Hf|done|]. intros k. simpl.
  rewrite !filter_matches, Hk', Hk, selected_elem. destruct (matches key k); [|naive_solver]. split; [tauto|].
  by intros [[_ ?]|[_ ?]].
Qed.

Lemma policy_dropped key r : policy_ok r -> policy_ok (forget key r).
Proof.
  intros Hp. unfold policy_ok in *. destruct (rs_policy r) as [|p] eqn:Hpol.
  - simpl. rewrite Hpol. induction (selected key r); done.
  - destruct Hp as (l & Hs & Hst). destruct (forget_sound key r p l Hs Hst) as (p' & l' & Hs' & Hst' & _).
    rewrite (so_policy _ _ _ Hs'). eauto.
Qed.
End forget.

Lemma access_sound k r p l : sound r p l -> settled p l -> exists p' l',
  sound (with_policy (policy_do (Access k) (rs_policy r)) r) p' l' /\ settled p' l' /\
  lp_max_memory p' = lp_max_memory p /\ lp_max_objects p' = lp_max_objects p /\ l' ≡ₚ l.
Proof.
  intros [Hp Hr Hk] Hst. pose proof (spec_access_perm k l (lr_nodup _ _ (rep_list _ _ Hr))) as Hperm.
  destruct (lru_steps_limits p [Access k]) as [Hm Hc]. simpl in Hm, Hc.
  exists (on_access k p), (spec_access k l). split_and!; [|by apply (settled_limits p), (settled_perm _ l)|done..].
  split; [simpl; by rewrite Hp|by apply on_access_rep|]. intros j. by rewrite Hperm, Hk.
Qed.

Lemma policy_touched key r : policy_ok r -> policy_ok (resident_touch key r).
Proof.
  intros Hp. unfold resident_touch. destruct (to_key key) as [k|]; [|done]. unfold policy_ok in *.
  destruct (rs_policy r) as [|p] eqn:Hpol; [done|]. destruct Hp as (l & Hs & Hst).
  destruct (access_sound k r p l Hs Hst) as (p' & l' & Hs' & Hst' & _). rewrite Hpol in Hs'. rewrite (so_policy _ _ _ Hs').
  eauto.
Qed.

Section instance.
Context `{Disk, Env, Json}.

Lemma key_string_object key k : object_key key k -> key_string key = Ok k.
Proof. intros [_ Hk _]. unfold key_string. by rewrite Hk. Qed.

Abbreviation E := (ResidentStorage NoStorage true).

Lemma cached_write s m key k meta chunks data :
  cached s m -> object_key key k -> m !! k = None -> drain chunks = Ok data -> fits (created meta data) ->
  exists s' m', write_stream E key meta chunks s = (Ok (with_size (len data) meta), s') /\
    cached s' m' /\ m' ⊆ <[k := created meta data]> m.
Proof.
  intros Hc Hk Hm Hd Hf.
  assert (Hlen : wrap_u64 (len data) = len data).
  { apply fits_size in Hf as [Hs Hb]. unfold created in Hs, Hb. simpl in Hs. unfold max_file_len in Hb.
    apply wrap_u64_small. unfold data_size in Hs. simpl in Hs. unfold len in *. width. }
  destruct (set_resident_cached s m k _ Hc Hf) as (s' & m' & Hrun & Hc' & Hsub).
  exists s', m'. split; [|done]. simpl. unfold resident_write_stream.
  rewrite (key_string_object _ _ Hk). unfold lift, mbind, M_bind. simpl.
  unfold resident_of, gets. rewrite (ca_objects _ _ Hc), Hm.
  unfold below, zoom. simpl. unfold mbind, M_bind, lift, mret, M_ret. rewrite chunks_size_0, Hd. simpl. rewrite Hlen.
  change (with_os (rs_os s) s) with (mkResident (rs_objects s) (rs_handles s) (rs_policy s) (rs_os s)).
  replace (mkResident (rs_objects s) (rs_handles s) (rs_policy s) (rs_os s)) with s by (by destruct s).
  unfold created in Hrun. by rewrite Hrun.
Qed.

Lemma cached_delete s m key : cached s m ->
  exists s', delete_objects E key s = (Ok tt, s') /\ cached s' (unmatched key m).
Proof.
  intros Hc. eexists. split; [reflexivity|]. destruct Hc as [<- Hh Hf Hp]. split; simpl; [done|rewrite Hh; apply map_filter_empty| |].
  - intros k o [Hk _]%lookup_unmatched. by eapply Hf.
  - exact (policy_dropped key (with_os (rs_os s) s) (policy_ok_os _ _ Hp)).
Qed.

Lemma cached_touch s m key : cached s m -> cached (touch E key s) m.
Proof.
  intros [Ho Hh Hf Hp]. pose proof (policy_touched key s Hp) as Hp'. simpl.
  unfold resident_touch in *. by destruct (to_key key).
Qed.

(** The contract of [cache_only]. *)
#[export] Instance CacheOnly : StoreSpec E.
Proof.
  refine (Build_StoreSpec _ _ E cached (fun _ => True) False _ _ _ _ _ _ _ _).
  - intros s m k o Hc. apply (ca_fits _ _ Hc).
  - intros s m key k meta chunks data Hc _ Hk Hm Hd Hf.
    destruct (cached_write s m key k meta chunks data Hc Hk Hm Hd Hf) as (s' & m' & ? & ? & ?).
    exists s', m'. split_and!; try done.
  - intros s m key k meta chunks e Hc _ Hk Hm Hd. exists s. simpl. unfold resident_write_stream.
    rewrite (key_string_object _ _ Hk). unfold lift, mbind, M_bind. simpl. unfold resident_of, gets.
    rewrite (ca_objects _ _ Hc), Hm. unfold below, zoom. simpl. unfold mbind, M_bind, lift.
    rewrite chunks_size_0, Hd. simpl. split; [by destruct s|done].
  - intros s m key k Hc _ Hk. exists s. simpl. unfold resident_stat. rewrite (key_string_object _ _ Hk).
    unfold lift, mbind, M_bind, resident_of, gets, mret, M_ret. by rewrite (ca_objects _ _ Hc).
  - intros s m key k o i d offset n Hc _ Hk Hm Hi Hoff Hn Hle. exists s. split; [|done]. simpl.
    unfold resident_read_range. rewrite (key_string_object _ _ Hk). unfold lift, mbind, M_bind, resident_of, gets, mret, M_ret.
    rewrite (ca_objects _ _ Hc), Hm. simpl. rewrite Hi. simpl. unfold payload_range. fold (data_size d).
    pose proof (fits_size o (ca_fits _ _ Hc _ _ Hm)) as [Hs Hb]. apply list_elem_of_lookup_2, list_elem_of_split in Hi as (l1 & l2 & Hl).
    rewrite Hl, Zsum_app in Hs. simpl in Hs. pose proof (Zsum_data_nonneg l1). pose proof (Zsum_data_nonneg l2).
    unfold max_file_len, u64_max in *. rewrite (proj2 (Z.leb_le _ _)) by lia. rewrite (proj2 (Z.leb_le _ _)) by lia. done.
  - intros s m key k o data Hc _ Hk Hm Hf.
    destruct (set_resident_cached s m k _ Hc Hf) as (s' & m' & Hrun & Hc' & Hsub).
    eexists _, s', m'. split; [|split_and!; [done|done|by intros []]]. simpl. unfold resident_patch_object.
    rewrite (key_string_object _ _ Hk). unfold lift, mbind, M_bind, below, zoom. simpl. unfold resident_of, gets, mret, M_ret.
    replace (with_os (rs_os s) s) with s by (by destruct s). rewrite (ca_objects _ _ Hc), Hm. by rewrite Hrun.
  - intros s m path key Hc _ _. by apply cached_delete.
  - intros s m key. apply cached_touch.
Defined.
End instance.
