(* ===== verification/ObjCache.v ===== *)
(** * The object cache ([object_cache/src/cache.rs], [cache/grpc.rs],
    [cache/response.rs])

    [ObjectCache] keeps the metadata of every object and calls a storage
    engine; the gRPC service reads requests as streams of messages and answers
    a [Get] with a stream that is a small state machine.  Calls for one key are
    serialised by its lock, so a call is one step; the locks are not modelled.
    A status the service builds itself is the error that converts to it. *)
From Stdlib Require Import Ascii.
From S2P Require Import Prelude FsDisk ObjKey ObjStore.
Local Open Scope Z_scope.

(** [current_time_millis()]: the [n]-th reading. *)
Class Millis := { current_time_millis : nat -> Z }.

Record ObjectCache (T : Type) := mkCache {
  oc_metadata : gmap string ObjectMetadata;
  oc_storage : T;
  oc_clock : nat;
  oc_uuids : nat
}.
Arguments mkCache {T}.
Arguments oc_metadata {T}.
Arguments oc_storage {T}.
Arguments oc_clock {T}.
Arguments oc_uuids {T}.

(** The messages of a [Put] or [Patch]. *)
Inductive CacheWriteRequest :=
| WriteHeader (key data_type : string)
| WriteData (chunk : bytes)
| WriteEmpty.

Definition CHUNK_SIZE : Z := 1024 * 1024.

Record WriteRequest := mkWrite { wr_key : ObjectKey; wr_data_type : string; wr_chunks : list (result bytes) }.

(** The closure of [try_unfold]: an error ends the stream. *)
Definition data_chunk (message : result CacheWriteRequest) : result bytes :=
  message ≫= fun message =>
  match message with
  | WriteData chunk => if CHUNK_SIZE <? len chunk then Err EInvalidConfig else Ok chunk
  | _ => Err EInvalidConfig
  end.

Definition write_request (messages : list (result CacheWriteRequest)) : result WriteRequest :=
  match messages with
  | [] => Err EInvalidConfig
  | first :: messages =>
      first ≫= fun first =>
      match first with
      | WriteHeader key data_type =>
          key ← from_path key;
          if bool_decide (data_type = "") || (128 <? String.length data_type)%nat then Err EInvalidConfig
          else Ok (mkWrite key data_type (data_chunk <$> messages))
      | _ => Err EInvalidConfig
      end
  end.

(** The messages of a [Get] response. *)
Inductive CacheGetResponse :=
| GetHeader (version : Z) (data_type : string)
| GetChunk (version : Z) (data : bytes).

Record ObjectPart := mkPart { pt_index : nat; pt_len : Z }.

Inductive ResponseStage := StageHeader | StageNext | StageReading | StageDone.

Record ResponseData := mkResponse {
  rd_stage : ResponseStage;
  rd_key : ObjectKey;
  rd_header : option CacheGetResponse;
  rd_parts : list ObjectPart;
  rd_current : option ObjectPart;
  rd_offset : Z
}.

Section cache.
Context `{Env, Millis} {F T : Type}.
Variable storage : StorageEngine F T.
(** [self.endpoint.to_uri()]. *)
Variable endpoint : string.

Abbreviation C := (M (ObjectCache T)).

Definition with_storage (s : T) (c : ObjectCache T) : ObjectCache T :=
  mkCache (oc_metadata c) s (oc_clock c) (oc_uuids c).
Definition with_metadata (m : gmap string ObjectMetadata) (c : ObjectCache T) : ObjectCache T :=
  mkCache m (oc_storage c) (oc_clock c) (oc_uuids c).
Definition engine {A} (m : M T A) : C A := zoom oc_storage with_storage m.

Definition now : C Z := fun c =>
  (Ok (current_time_millis (oc_clock c)), mkCache (oc_metadata c) (oc_storage c) (oc_clock c + 1)%nat (oc_uuids c)).
Definition draw_uuid : C string := fun c =>
  (Ok (new_uuid (oc_uuids c)), mkCache (oc_metadata c) (oc_storage c) (oc_clock c) (oc_uuids c + 1)%nat).

Definition new_cache (s : T) : ObjectCache T := mkCache ∅ s 0 0.

Definition stat_metadata (key : string) (st : ObjectStat) : result ObjectMetadata :=
  created ← stat_creation_time st;
  Ok (mkMeta endpoint key (stat_version st) (stat_size st) created (os_data_type st)).

Definition insert_metadata (key : string) (meta : ObjectMetadata) : C unit :=
  modify (fun c => with_metadata (<[key := meta]> (oc_metadata c)) c).

Definition load_from_storage : C unit :=
  items ← engine (scan storage);
  for_each items (fun item : ObjectKey * ObjectStat =>
    key_str ← lift (match to_key item.1 with Some k => Ok k | None => Panic end);
    meta ← lift (stat_metadata key_str item.2);
    insert_metadata key_str meta).

Definition metadata_of (key : string) : C (option ObjectMetadata) := gets (fun c => oc_metadata c !! key).

Definition put_stream (request : WriteRequest) : C ObjectMetadata :=
  key ← match object_id (wr_key request) with
        | Some _ => mret (wr_key request)
        | None => id ← draw_uuid; mret (with_generated_id id (wr_key request))
        end;
  key_str ← lift (ok_or (to_key key) EInternal);
  known ← gets (fun c => bool_decide (is_Some (oc_metadata c !! key_str)));
  exists_ ← (if known : bool then mret true
             else st ← engine (stat storage key); mret (bool_decide (is_Some st)));
  if exists_ : bool then throw EAlreadyExist
  else
    created ← now;
    let meta := mkMeta "" key_str 1 0 created (wr_data_type request) in
    meta ← engine (write_stream storage key meta (wr_chunks request));
    let meta := with_endpoint endpoint meta in
    insert_metadata key_str meta ≫= fun _ =>
    mret meta.

Definition patch (key : ObjectKey) (appended : Object) : C ObjectMetadata :=
  key_str ← lift (ok_or (to_key key) EInvalidConfig);
  st ← engine (stat storage key);
  st ← lift (ok_or st ENotFound);
  if negb (bool_decide (ob_data_type appended = os_data_type st)) then throw EInvalidConfig
  else
    let new_version := stat_version st + 1 in
    created ← now;
    first ← lift (match ob_data appended with d :: _ => Ok d | [] => Panic end);
    let part := mkData created (od_data first) in
    engine (patch_object storage key part) ≫= fun _ =>
    meta ← lift (stat_metadata key_str st);
    let meta := mkMeta (om_endpoint meta) (om_key meta) new_version
                  (wrap_u64 (stat_size st + data_size part)) (om_creation_time meta) (om_data_type meta) in
    insert_metadata key_str meta ≫= fun _ =>
    mret meta.

(** One step.  The code collects the matching keys, takes their locks in order and
    then deletes by prefix: what the locks exclude are the readers and writers of
    the objects it saw.  An object that is put under the prefix after the keys
    were collected has a lock of its own, and may be deleted between the steps of
    that put; such interleavings are not modelled. *)
Definition cache_delete (key : ObjectKey) : C unit :=
  engine (delete_objects storage key) ≫= fun _ =>
  modify (fun c => with_metadata (filter (fun kv : string * ObjectMetadata => matches key kv.1 = false) (oc_metadata c)) c).

Definition delete_if_unchanged (expected : ObjectMetadata) : C bool :=
  key ← lift (key_try_from (om_key expected));
  current ← metadata_of (om_key expected);
  let unchanged := is_some_and current (fun current =>
    (om_version current =? om_version expected) && (om_creation_time current =? om_creation_time expected)) in
  if negb unchanged then mret false
  else
    engine (delete_objects storage key) ≫= fun _ =>
    modify (fun c => with_metadata (delete (om_key expected) (oc_metadata c)) c) ≫= fun _ =>
    mret true.

Definition list_all : C (list ObjectMetadata) := gets (fun c => hm_values (oc_metadata c)).

(** ** The service *)

Definition grpc_put (messages : list (result CacheWriteRequest)) : C ObjectMetadata :=
  request ← lift (write_request messages);
  put_stream request.

Definition grpc_patch (messages : list (result CacheWriteRequest)) : C ObjectMetadata :=
  request ← lift (write_request messages);
  if bool_decide (object_id (wr_key request) = None) then throw EInvalidConfig
  else
    data ← lift (drain (wr_chunks request));
    created ← now;
    patch (wr_key request) (mkObject 0 (wr_data_type request) [mkData created data]).

(** The first state of the response stream. *)
Definition response_stream (key : ObjectKey) (header : CacheGetResponse) (parts : list ObjectPart) : ResponseData :=
  mkResponse StageHeader key (Some header) parts None 0.

Definition read_chunk (d : ResponseData) : C (option (result CacheGetResponse) * ResponseData) :=
  match rd_current d with
  | None => mret (None, d)
  | Some part =>
      let size := Z.min (wrap_u64 (pt_len part - rd_offset d)) CHUNK_SIZE in
      read ← attempt (engine (read_range storage (rd_key d) (pt_index part) (rd_offset d) size));
      match read with
      | Ok data =>
          let offset := wrap_u64 (rd_offset d + len data) in
          let d := if offset =? pt_len part
                   then mkResponse StageNext (rd_key d) (rd_header d) (rd_parts d) None offset
                   else mkResponse (rd_stage d) (rd_key d) (rd_header d) (rd_parts d) (Some part) offset in
          mret (Some (Ok (GetChunk (Z.of_nat (pt_index part) + 1) data)), d)
      | Err e => mret (Some (Err e), mkResponse StageDone (rd_key d) (rd_header d) [] None (rd_offset d))
      | Panic => lift Panic
      end
  end.

(** [State::execute] of the four states. *)
Definition execute (d : ResponseData) : C (option (result CacheGetResponse) * ResponseData) :=
  match rd_stage d with
  | StageHeader =>
      match rd_header d with
      | None => mret (None, d)
      | Some header =>
          mret (Some (Ok header), mkResponse StageNext (rd_key d) None (rd_parts d) (rd_current d) (rd_offset d))
      end
  | StageNext =>
      match rd_parts d with
      | [] => mret (None, mkResponse StageDone (rd_key d) (rd_header d) [] None 0)
      | part :: parts => read_chunk (mkResponse StageReading (rd_key d) (rd_header d) parts (Some part) 0)
      end
  | StageReading => read_chunk d
  | StageDone => mret (None, d)
  end.

(** The stream of [unfold], at most [fuel] messages of it; [None] if there are
    more. *)
Fixpoint messages (fuel : nat) (d : ResponseData) : C (option (list (result CacheGetResponse))) :=
  match fuel with
  | O => mret None
  | S fuel =>
      step ← execute d;
      match step with
      | (None, _) => mret (Some [])
      | (Some message, d) =>
          rest ← messages fuel d;
          mret (cons message <$> rest)
      end
  end.

(** The parts from index [first] on. *)
Definition parts_from (first : nat) (st : ObjectStat) : list ObjectPart :=
  imap (fun i r => mkPart (first + i) (rc_len r)) (drop first (os_records st)).

Definition grpc_get (key : string) (version : Z) : C ResponseData :=
  object_key ← lift (key_try_from key);
  metadata ← metadata_of key;
  metadata ← lift (ok_or metadata ENotFound);
  modify (fun c => with_storage (touch storage object_key (oc_storage c)) c) ≫= fun _ =>
  if negb (version =? 0) && (om_version metadata =? version)
  then mret (response_stream object_key (GetHeader version "") [])
  else
    st ← engine (stat storage object_key);
    st ← lift (ok_or st ENotFound);
    if stat_version st <? version then throw EInvalidVersion
    else
      let parts := parts_from (Z.to_nat version) st in
      mret (response_stream object_key (GetHeader (stat_version st) (os_data_type st)) parts).

Definition grpc_delete (path : string) : C unit :=
  key ← lift (from_path path);
  cache_delete key.

Definition grpc_get_metadata (key : string) : C ObjectMetadata :=
  lift (key_try_from key) ≫= fun _ =>
  meta ← metadata_of key;
  lift (ok_or meta ENotFound).

Definition grpc_list : C (list ObjectMetadata) := list_all.
End cache.
