(* ===== verification/ObjCacheInv.v ===== *)
(** * The object cache over an engine that meets its contract

    The metadata of the cache describes the objects of its engine.  Over an
    engine that loses nothing the cache implements a store of append-only
    versioned objects; over any engine, a [Get] of an object in memory or on
    disk answers with its type, its version and the bytes of each part after
    the version of the client. *)
From Stdlib Require Import Ascii.
From S2P Require Import Prelude Types Engine FsDisk FsRecord ObjKey ObjStore ObjCache.
Local Open Scope Z_scope.
#[local] Arguments engine : simpl never.

Section inv.
Context `{Env, Millis} {F T : Type} (E : StorageEngine F T) {spec : StoreSpec E}.
Variable endpoint : string.

(** The metadata of an object. *)
Definition first_time (o : Object) : Z :=
  match ob_data o with d :: _ => od_creation_time d | [] => 0 end.
Definition described (k : string) (o : Object) : ObjectMetadata :=
  mkMeta endpoint k (Z.of_nat (length (ob_data o))) (size_bytes o) (first_time o) (ob_data_type o).

Record cache_ok (c : ObjectCache T) (m : objects) : Prop := {
  co_holds : holds (oc_storage c) m;
  co_meta : forall k o, m !! k = Some o -> oc_metadata c !! k = Some (described k o);
  co_known : lossless -> forall k meta, oc_metadata c !! k = Some meta -> is_Some (m !! k);
  co_keys : forall k meta, oc_metadata c !! k = Some meta ->
    om_key meta = k /\ exists key, object_key key k /\ supported key
}.

(** ** Operations of the engine, from the cache *)

Lemma engine_run {A} (op : M T A) (c : ObjectCache T) r s' :
  op (oc_storage c) = (r, s') -> engine op c = (r, with_storage s' c).
Proof. intros Hop. unfold engine, zoom. by rewrite Hop. Qed.

Lemma cache_ok_storage c m s' : cache_ok c m -> holds s' m -> cache_ok (with_storage s' c) m.
Proof. intros [Hh Hm Hk Hn] Hs'. by split. Qed.

Lemma engine_stat c m key k : cache_ok c m -> supported key -> object_key key k ->
  exists c', engine (stat E key) c = (Ok (stat_of <$> m !! k), c') /\ cache_ok c' m /\
    oc_metadata c' = oc_metadata c /\ oc_clock c' = oc_clock c /\ oc_uuids c' = oc_uuids c.
Proof.
  intros Hc Hs Hk. destruct (spec_stat _ _ _ _ (co_holds _ _ Hc) Hs Hk) as (s' & Hrun & Hh).
  exists (with_storage s' c). split; [by apply engine_run|]. split; [by apply cache_ok_storage|done].
Qed.

Lemma stat_metadata_of k o : fits o -> stat_metadata endpoint k (stat_of o) = Ok (described k o).
Proof.
  intros Hf. unfold stat_metadata, stat_creation_time, described, first_time.
  rewrite stat_of_size, stat_of_version. unfold stat_of. simpl.
  destruct (ob_data o) as [|d ds] eqn:Hd; [by destruct (ft_parts _ Hf)|done].
Qed.

(** ** Writes *)

(** A put and a patch as the cache performs them, at the time [t]. *)
Definition new_meta (k : string) (t : Z) (data_type : string) : ObjectMetadata := mkMeta "" k 1 0 t data_type.

Lemma cache_ok_write c m m' c' key k o :
  cache_ok c m -> object_key key k -> supported key -> holds (oc_storage c') m' -> m' ⊆ <[k := o]> m -> (lossless -> m' = <[k := o]> m) ->
  oc_metadata c' = <[k := described k o]> (oc_metadata c) -> cache_ok c' m'.
Proof.
  intros [Hh Hm Hk Hn] Hkey Hsup Hh' Hsub Hall Hmeta. split; [done| | |].
  - intros j x Hj. rewrite Hmeta. apply (lookup_weaken _ _ _ _ Hj) in Hsub.
    apply lookup_insert_Some in Hsub as [[<- <-]|[Hne Hx]].
    + by rewrite lookup_insert_eq.
    + rewrite lookup_insert_ne by done. by apply Hm.
  - intros Hl j meta. rewrite (Hall Hl), Hmeta. rewrite lookup_insert_is_Some.
    intros [[<- _]|[Hne Hj]]%lookup_insert_Some; [by left|]. right. split; [done|]. by eapply Hk.
  - intros j meta. rewrite Hmeta. intros [[<- <-]|[_ Hj]]%lookup_insert_Some; [eauto|by apply Hn].
Qed.

Lemma put_new c m request key k data :
  cache_ok c m -> wr_key request = key -> supported key -> object_key key k ->
  oc_metadata c !! k = None -> drain (wr_chunks request) = Ok data ->
  let t := current_time_millis (oc_clock c) in
  let o := mkObject 0 (wr_data_type request) [mkData t data] in
  fits o ->
  exists c' m', put_stream E endpoint request c = (Ok (described k o), c') /\ cache_ok c' m' /\
    m' ⊆ <[k := o]> m /\ (lossless -> m' = <[k := o]> m).
Proof.
  intros Hc Hkey Hs Hk Hnone Hd t o Hf. destruct (object_key_object key k Hk) as (oid & Hoid & _).
  assert (Hm : m !! k = None).
  { destruct (m !! k) as [x|] eqn:Hx; [|done]. by rewrite (co_meta _ _ Hc _ _ Hx) in Hnone. }
  destruct (engine_stat c m key k Hc Hs Hk) as (c1 & Hstat & Hc1 & Em & Et & Eu). rewrite Hm in Hstat.
  set (c2 := mkCache (oc_metadata c1) (oc_storage c1) (oc_clock c + 1)%nat (oc_uuids c1)).
  destruct (spec_write (oc_storage c2) m key k (new_meta k t (wr_data_type request)) (wr_chunks request) data)
    as (s' & m' & Hw & Hh' & Hsub & Hall); [apply (co_holds _ _ Hc1)|done..|].
  set (c3 := with_metadata (<[k := described k o]> (oc_metadata c)) (with_storage s' c2)).
  exists c3, m'. split; [|split; [|done]].
  - unfold put_stream. rewrite Hkey, Hoid. unfold mret, M_ret, mbind, M_bind, lift, gets.
    destruct Hk as [_ Hk _]. rewrite Hk. simpl. rewrite bool_decide_eq_false_2 by (rewrite Hnone; by intros [? [=]]).
    rewrite Hstat. simpl. unfold now. rewrite Et. fold t. fold (new_meta k t (wr_data_type request)).
    fold c2. rewrite (engine_run _ c2 _ _ Hw). unfold insert_metadata, modify. simpl. rewrite Em.
    assert (Hdesc : with_endpoint endpoint (with_size (len data) (new_meta k t (wr_data_type request))) = described k o).
    { apply fits_size in Hf as [Hsz _]. unfold described. rewrite Hsz. unfold o, data_size, Zsum. simpl. by rewrite Z.add_0_r. }
    by rewrite Hdesc.
  - by apply (cache_ok_write c m m' c3 key k o).
Qed.

Lemma put_known c request key k :
  wr_key request = key -> object_key key k -> is_Some (oc_metadata c !! k) ->
  put_stream E endpoint request c = (Err EAlreadyExist, c).
Proof.
  intros Hkey Hk Hsome. destruct (object_key_object key k Hk) as (oid & Hoid & _).
  unfold put_stream. rewrite Hkey, Hoid. unfold mret, M_ret, mbind, M_bind, lift, gets.
  destruct Hk as [_ Hk _]. rewrite Hk. simpl. by rewrite bool_decide_eq_true_2.
Qed.

Lemma put_broken c m request key k e :
  cache_ok c m -> wr_key request = key -> supported key -> object_key key k ->
  oc_metadata c !! k = None -> drain (wr_chunks request) = Err e ->
  exists c', put_stream E endpoint request c = (Err e, c') /\ cache_ok c' m.
Proof.
  intros Hc Hkey Hs Hk Hnone Hd. destruct (object_key_object key k Hk) as (oid & Hoid & _).
  assert (Hm : m !! k = None).
  { destruct (m !! k) as [x|] eqn:Hx; [|done]. by rewrite (co_meta _ _ Hc _ _ Hx) in Hnone. }
  destruct (engine_stat c m key k Hc Hs Hk) as (c1 & Hstat & Hc1 & Em & Et & Eu). rewrite Hm in Hstat.
  set (t := current_time_millis (oc_clock c)).
  set (c2 := mkCache (oc_metadata c1) (oc_storage c1) (oc_clock c + 1)%nat (oc_uuids c1)).
  destruct (spec_write_broken (oc_storage c2) m key k (new_meta k t (wr_data_type request)) (wr_chunks request) e)
    as (s' & Hw & Hh'); [apply (co_holds _ _ Hc1)|done..|].
  exists (with_storage s' c2). split; [|destruct Hc1; by split].
  unfold put_stream. rewrite Hkey, Hoid. unfold mret, M_ret, mbind, M_bind, lift, gets.
  destruct Hk as [_ Hk _]. rewrite Hk. simpl. rewrite bool_decide_eq_false_2 by (rewrite Hnone; by intros [? [=]]).
  rewrite Hstat. simpl. unfold now. rewrite Et. fold t. fold (new_meta k t (wr_data_type request)).
  fold c2. by rewrite (engine_run _ c2 _ _ Hw).
Qed.

(** The part a patch appends. *)
Definition patched (c : ObjectCache T) (data : bytes) (o : Object) : Object :=
  append_part (mkData (current_time_millis (oc_clock c)) data) o.

Lemma patch_stored c m key k o d ds :
  cache_ok c m -> supported key -> object_key key k -> m !! k = Some o ->
  let appended := mkObject 0 (ob_data_type o) (d :: ds) in
  let o' := patched c (od_data d) o in
  fits o' ->
  exists c' m', patch E endpoint key appended c = (Ok (described k o'), c') /\ cache_ok c' m' /\
    m' ⊆ <[k := o']> m /\ (lossless -> m' = <[k := o']> m).
Proof.
  intros Hc Hs Hk Hm appended o' Hf. pose proof (spec_fits _ _ _ _ (co_holds _ _ Hc) Hm) as Hfo.
  destruct (engine_stat c m key k Hc Hs Hk) as (c1 & Hstat & Hc1 & Em & Et & Eu). rewrite Hm in Hstat. simpl in Hstat.
  set (c2 := mkCache (oc_metadata c1) (oc_storage c1) (oc_clock c + 1)%nat (oc_uuids c1)).
  set (part := mkData (current_time_millis (oc_clock c)) (od_data d)).
  destruct (spec_patch (oc_storage c2) m key k o part) as (meta & s' & m' & Hp & Hh' & Hsub & Hall);
    [apply (co_holds _ _ Hc1)|done..|].
  set (c3 := with_metadata (<[k := described k o']> (oc_metadata c)) (with_storage s' c2)).
  exists c3, m'. split; [|split; [|done]].
  - unfold patch. unfold mret, M_ret, mbind, M_bind, lift. pose proof Hk as [_ Hkk _]. rewrite Hkk. simpl ok_or. cbv iota beta.
    rewrite Hstat. simpl ok_or. cbv iota beta. simpl os_data_type. rewrite bool_decide_eq_true_2 by done. simpl negb. cbv iota.
    unfold now. cbv beta iota zeta delta [negb]. change (ob_data appended) with (d :: ds). cbv beta iota.
    rewrite Et. fold part. fold c2. rewrite (engine_run _ c2 _ _ Hp).
    rewrite (stat_metadata_of k o Hfo). cbv iota beta. unfold insert_metadata, modify. simpl om_endpoint.
    assert (Hdesc : mkMeta endpoint k (stat_version (stat_of o) + 1) (wrap_u64 (stat_size (stat_of o) + data_size part))
                      (first_time o) (ob_data_type o) = described k o').
    { unfold described, o', patched. f_equal.
      - rewrite stat_of_version. simpl. rewrite length_app. simpl. lia.
      - rewrite stat_of_size. unfold size_bytes. simpl. rewrite Zsum_app, wrap_u64_add_l. simpl. f_equal. unfold part. lia.
      - unfold first_time. simpl. destruct (ob_data o) eqn:Ho; [by destruct (ft_parts _ Hfo)|done]. }
    simpl. rewrite Hdesc. simpl. by rewrite Em.
  - by apply (cache_ok_write c m m' c3 key k o').
Qed.

Lemma patch_missing c m key k appended :
  cache_ok c m -> supported key -> object_key key k -> m !! k = None ->
  exists c', patch E endpoint key appended c = (Err ENotFound, c') /\ cache_ok c' m.
Proof.
  intros Hc Hs Hk Hm. destruct (engine_stat c m key k Hc Hs Hk) as (c1 & Hstat & Hc1 & _). rewrite Hm in Hstat.
  exists c1. split; [|done]. unfold patch, mbind, M_bind, lift. destruct Hk as [_ -> _]. simpl ok_or. cbv iota beta. by rewrite Hstat.
Qed.

Lemma patch_mismatch c m key k o appended :
  cache_ok c m -> supported key -> object_key key k -> m !! k = Some o -> ob_data_type appended <> ob_data_type o ->
  exists c', patch E endpoint key appended c = (Err EInvalidConfig, c') /\ cache_ok c' m.
Proof.
  intros Hc Hs Hk Hm Hne. destruct (engine_stat c m key k Hc Hs Hk) as (c1 & Hstat & Hc1 & _). rewrite Hm in Hstat.
  exists c1. split; [|done]. unfold patch, mbind, M_bind, lift. destruct Hk as [_ -> _]. simpl ok_or. cbv iota beta.
  rewrite Hstat. simpl. by rewrite bool_decide_eq_false_2.
Qed.

Lemma cache_delete_ok c m path key :
  cache_ok c m -> supported key -> from_path path = Ok key ->
  exists c', cache_delete E key c = (Ok tt, c') /\ cache_ok c' (unmatched key m).
Proof.
  intros [Hh Hm Hk Hn] Hs Hp. destruct (spec_delete _ _ _ _ Hh Hs Hp) as (s' & Hd & Hh').
  eexists. split.
  - unfold cache_delete, mbind, M_bind. rewrite (engine_run _ c _ _ Hd). reflexivity.
  - split; simpl; [done| | |].
    + intros k o [Hko Hu]%lookup_unmatched. apply map_lookup_filter_Some. split; [by apply Hm|done].
    + intros Hl k meta [Hkm Hu]%map_lookup_filter_Some. destruct (Hk Hl _ _ Hkm) as [o Ho].
      exists o. by apply lookup_unmatched.
    + intros k meta [Hkm _]%map_lookup_filter_Some. by apply Hn.
Qed.

Lemma delete_unchanged c m expected key k cur :
  cache_ok c m -> object_key key k -> supported key -> om_key expected = k ->
  oc_metadata c !! k = Some cur -> om_version cur = om_version expected ->
  om_creation_time cur = om_creation_time expected ->
  exists c', delete_if_unchanged E expected c = (Ok true, c') /\ cache_ok c' (delete k m) /\
    oc_metadata c' = delete k (oc_metadata c).
Proof.
  intros [Hh Hm Hk Hn] Hkey Hs <- Hcur Hv Ht.
  destruct (spec_delete _ _ _ _ Hh Hs (ok_path _ _ Hkey)) as (s' & Hd & Hh'). rewrite (unmatched_object _ _ _ Hkey) in Hh'.
  exists (with_metadata (delete (om_key expected) (oc_metadata c)) (with_storage s' c)). split; [|split; [|done]].
  - unfold delete_if_unchanged, metadata_of, mbind, M_bind, lift, gets, modify, mret, M_ret.
    rewrite (ok_parse _ _ Hkey), Hcur. simpl. rewrite Hv, Ht, !Z.eqb_refl. simpl. by rewrite (engine_run _ c _ _ Hd).
  - split; simpl; [done| | |].
    + intros j o [Hne Hj]%lookup_delete_Some. rewrite lookup_delete_ne by done. by apply Hm.
    + intros Hl j meta [Hne Hj]%lookup_delete_Some. rewrite lookup_delete_ne by done. by eapply Hk.
    + intros j meta [Hne Hj]%lookup_delete_Some. by apply Hn.
Qed.

Lemma delete_changed c expected key k :
  object_key key k -> om_key expected = k ->
  is_some_and (oc_metadata c !! k) (fun cur =>
    (om_version cur =? om_version expected) && (om_creation_time cur =? om_creation_time expected)) = false ->
  delete_if_unchanged E expected c = (Ok false, c).
Proof.
  intros Hkey <- Hc. unfold delete_if_unchanged, metadata_of, mbind, M_bind, lift, gets.
  rewrite (ok_parse _ _ Hkey). by rewrite Hc.
Qed.

(** ** The cache as a store of versioned objects *)

Inductive cache_call :=
| CallPut (request : WriteRequest)
| CallPatch (key : ObjectKey) (data_type : string) (data : bytes)
| CallDelete (path : string).

Definition call_run (call : cache_call) : M (ObjectCache T) (option ObjectMetadata) :=
  match call with
  | CallPut request => meta ← put_stream E endpoint request; mret (Some meta)
  | CallPatch key data_type data =>
      meta ← patch E endpoint key (mkObject 0 data_type [mkData 0 data]); mret (Some meta)
  | CallDelete path => grpc_delete E path ≫= fun _ => mret None
  end.

(** The key of a put: complete, or completed with an identifier. *)
Definition put_key (uuid : string) (request : WriteRequest) : ObjectKey :=
  match object_id (wr_key request) with
  | Some _ => wr_key request
  | None => with_generated_id uuid (wr_key request)
  end.

(** What a call returns and does to the objects at the time [t]. *)
Definition call_spec (t : Z) (uuid : string) (call : cache_call) (m : objects) :
    result (option ObjectMetadata) * objects :=
  match call with
  | CallPut request =>
      match to_key (put_key uuid request) with
      | None => (Err EInternal, m)
      | Some k =>
          match m !! k, drain (wr_chunks request) with
          | Some _, _ => (Err EAlreadyExist, m)
          | None, Ok data =>
              let o := mkObject 0 (wr_data_type request) [mkData t data] in
              (Ok (Some (described k o)), <[k := o]> m)
          | None, Err e => (Err e, m)
          | None, Panic => (Panic, m)
          end
      end
  | CallPatch key data_type data =>
      match to_key key with
      | None => (Err EInvalidConfig, m)
      | Some k =>
          match m !! k with
          | None => (Err ENotFound, m)
          | Some o =>
              if bool_decide (data_type = ob_data_type o) then
                let o := append_part (mkData t data) o in (Ok (Some (described k o)), <[k := o]> m)
              else (Err EInvalidConfig, m)
          end
      end
  | CallDelete path =>
      match from_path path with
      | Ok key => (Ok None, unmatched key m)
      | Err e => (Err e, m)
      | Panic => (Panic, m)
      end
  end.

(** The keys are ones the service accepts and the engine supports, and what the
    call stores is within the limits. *)
Definition call_ok (t : Z) (uuid : string) (call : cache_call) (m : objects) : Prop :=
  match call with
  | CallPut request =>
      drain (wr_chunks request) <> Panic /\
      exists k, object_key (put_key uuid request) k /\ supported (put_key uuid request) /\
        forall data, drain (wr_chunks request) = Ok data ->
          fits (mkObject 0 (wr_data_type request) [mkData t data])
  | CallPatch key data_type data =>
      exists k, object_key key k /\ supported key /\
        forall o, m !! k = Some o -> fits (append_part (mkData t data) o)
  | CallDelete path => forall key, from_path path = Ok key -> supported key
  end.

Lemma put_completed c request : object_id (wr_key request) = None ->
  put_stream E endpoint request c =
  put_stream E endpoint (mkWrite (put_key (new_uuid (oc_uuids c)) request) (wr_data_type request) (wr_chunks request))
    (mkCache (oc_metadata c) (oc_storage c) (oc_clock c) (oc_uuids c + 1)).
Proof. intros Ho. unfold put_key. rewrite Ho. unfold put_stream. simpl. by rewrite Ho. Qed.

(** A put with its complete key. *)
Lemma put_complete c m request : cache_ok c m -> object_id (wr_key request) <> None ->
  lossless -> let t := current_time_millis (oc_clock c) in
  let uuid := new_uuid (oc_uuids c) in
  call_ok t uuid (CallPut request) m ->
  exists c', call_run (CallPut request) c = ((call_spec t uuid (CallPut request) m).1, c') /\
    cache_ok c' (call_spec t uuid (CallPut request) m).2.
Proof.
  intros Hc Ho Hl t uuid (Hnp & k & Hk & Hs & Hf). assert (Hput : put_key uuid request = wr_key request).
  { unfold put_key. by destruct (object_id (wr_key request)). }
  rewrite Hput in Hk, Hs. unfold call_run, call_spec. rewrite Hput, (ok_key _ _ Hk).
  unfold mbind, M_bind, mret, M_ret. destruct (m !! k) as [o|] eqn:Hm.
  { exists c. rewrite (put_known c request _ k eq_refl Hk); [done|]. rewrite (co_meta _ _ Hc _ _ Hm). eauto. }
  assert (Hnone : oc_metadata c !! k = None).
  { destruct (oc_metadata c !! k) eqn:Hx; [|done]. destruct (co_known _ _ Hc Hl _ _ Hx). congruence. }
  destruct (drain (wr_chunks request)) as [data|e|] eqn:Hd; [| |done].
  - destruct (put_new c m request _ k data Hc eq_refl Hs Hk Hnone Hd (Hf _ eq_refl)) as (c' & m' & -> & Hc' & _ & Hall).
    rewrite (Hall Hl) in Hc'. by exists c'.
  - destruct (put_broken c m request _ k e Hc eq_refl Hs Hk Hnone Hd) as (c' & -> & Hc'). by exists c'.
Qed.

(** C4 [refinement] Over an engine that loses nothing, the object cache
    implements a store of append-only versioned objects: a put creates an
    object of one part under its key, or a generated one, unless there is one
    or the stream fails; a patch appends a part of the same data type; a delete
    removes exactly the objects its key covers.  Each call returns what the
    store returns, with the metadata of the object, and the metadata and the
    engine then describe the store's objects. *)
Theorem cache_refines_store c m call :
  lossless -> cache_ok c m ->
  let t := current_time_millis (oc_clock c) in
  let uuid := new_uuid (oc_uuids c) in
  call_ok t uuid call m ->
  exists c', call_run call c = ((call_spec t uuid call m).1, c') /\ cache_ok c' (call_spec t uuid call m).2.
Proof.
  intros Hl Hc t uuid Hok. destruct call as [request|key ty data|path].
  - destruct (object_id (wr_key request)) as [oid|] eqn:Ho; [apply (put_complete c m request Hc); [by rewrite Ho|done|done]|].
    set (c0 := mkCache (oc_metadata c) (oc_storage c) (oc_clock c) (oc_uuids c + 1)).
    set (request' := mkWrite (put_key uuid request) (wr_data_type request) (wr_chunks request)).
    assert (Hc0 : cache_ok c0 m) by (destruct Hc; by split).
    assert (Hput : put_key (new_uuid (oc_uuids c0)) request' = put_key uuid request) by (unfold request', put_key; simpl; rewrite Ho; done).
    destruct (put_complete c0 m request' Hc0) as (c' & Hrun & Hc'); [unfold request', put_key; simpl; rewrite Ho; done|done| |].
    + unfold call_ok. by rewrite Hput.
    + exists c'. unfold call_run in Hrun |- *. unfold mbind, M_bind in Hrun |- *. rewrite (put_completed c request Ho).
      unfold call_spec in Hrun, Hc'. by rewrite Hput in Hrun, Hc'.
  - destruct Hok as (k & Hk & Hs & Hf). unfold call_run, call_spec, mbind, M_bind, mret, M_ret. rewrite (ok_key _ _ Hk).
    destruct (m !! k) as [o|] eqn:Hm; [case_bool_decide as Ht; [subst ty|]|].
    + destruct (patch_stored c m key k o (mkData 0 data) [] Hc Hs Hk Hm (Hf _ eq_refl)) as (c' & m' & -> & Hc' & _ & Hall).
      rewrite (Hall Hl) in Hc'. by exists c'.
    + destruct (patch_mismatch c m key k o (mkObject 0 ty [mkData 0 data]) Hc Hs Hk Hm Ht) as (c' & -> & Hc'). by exists c'.
    + destruct (patch_missing c m key k (mkObject 0 ty [mkData 0 data]) Hc Hs Hk Hm) as (c' & -> & Hc'). by exists c'.
  - unfold call_run, call_spec, grpc_delete, mbind, M_bind, mret, M_ret, lift.
    destruct (from_path path) as [key|e|] eqn:Hp; [|by exists c..].
    destruct (cache_delete_ok c m path key Hc (Hok key Hp) Hp) as (c' & -> & Hc'). by exists c'.
Qed.

(** ** The response stream *)

(** [d] emits [ms] and becomes [d']. *)
Inductive emits : ResponseData -> ObjectCache T -> list CacheGetResponse -> ResponseData -> ObjectCache T -> Prop :=
| emits_nil d c : emits d c [] d c
| emits_step d c msg d1 c1 ms d2 c2 :
    execute E d c = (Ok (Some (Ok msg), d1), c1) -> emits d1 c1 ms d2 c2 -> emits d c (msg :: ms) d2 c2.

Lemma emits_app d1 c1 ms1 d2 c2 ms2 d3 c3 :
  emits d1 c1 ms1 d2 c2 -> emits d2 c2 ms2 d3 c3 -> emits d1 c1 (ms1 ++ ms2) d3 c3.
Proof. induction 1; intros; [done|]. econstructor; eauto. Qed.

Lemma messages_S fuel d : messages E (S fuel) d =
  (execute E d ≫= fun step =>
   match step with
   | (None, _) => mret (Some [])
   | (Some message, d) => messages E fuel d ≫= fun rest => mret (cons message <$> rest)
   end).
Proof. done. Qed.

Lemma emits_messages d c ms d' c' d'' c'' : emits d c ms d' c' -> execute E d' c' = (Ok (None, d''), c'') ->
  messages E (S (length ms)) d c = (Ok (Some (Ok <$> ms)), c'').
Proof.
  induction 1 as [d c|d c msg d1 c1 ms d2 c2 Hx Hem IH]; intros Hend.
  - simpl. unfold mbind, M_bind. by rewrite Hend.
  - change (length (msg :: ms)) with (S (length ms)). rewrite messages_S. unfold mbind, M_bind. rewrite Hx.
    rewrite (IH Hend). done.
Qed.

Definition reading (key : ObjectKey) (parts : list ObjectPart) (i : nat) (n offset : Z) : ResponseData :=
  mkResponse StageReading key None parts (Some (mkPart i n)) offset.
Definition between (key : ObjectKey) (parts : list ObjectPart) (offset : Z) : ResponseData :=
  mkResponse StageNext key None parts None offset.

(** The chunks of one part: its bytes in order, none longer than 1 MiB; none
    is empty, but an empty part has one empty chunk. *)
Definition pieces (ds : list bytes) (d : ObjectData) : Prop :=
  concat ds = od_data d /\ Forall (fun b => len b <= CHUNK_SIZE) ds /\
  (od_data d = [] -> ds = [[]]) /\ (od_data d <> [] -> ds <> [] /\ [] ∉ ds).

(** The parts of a response from index [i] on; their chunks, the parts in order
    and the chunks of a part together, under its version. *)
Fixpoint parts_at (i : nat) (rest : list ObjectData) : list ObjectPart :=
  match rest with [] => [] | d :: rest => mkPart i (data_size d) :: parts_at (S i) rest end.
Fixpoint numbered (i : nat) (dss : list (list bytes)) : list CacheGetResponse :=
  match dss with [] => [] | ds :: dss => (GetChunk (Z.of_nat i + 1) <$> ds) ++ numbered (S i) dss end.

Section response.
Context (m : objects) (key : ObjectKey) (k : string) (o : Object).
Hypothesis Hsup : supported key.
Hypothesis Hkey : object_key key k.
Hypothesis Hm : m !! k = Some o.

Lemma part_size i part : fits o -> ob_data o !! i = Some part -> 0 <= data_size part <= max_file_len.
Proof.
  intros Hf Hi. pose proof (ft_size _ Hf) as Hs. apply list_elem_of_lookup_2, list_elem_of_split in Hi as (l1 & l2 & Hl).
  rewrite Hl, Zsum_app in Hs. simpl in Hs. pose proof (Zsum_data_nonneg l1). pose proof (Zsum_data_nonneg l2).
  unfold data_size, len in *. lia.
Qed.

Lemma slice_len data a b : 0 <= a <= b -> b <= len data -> len (slice (a, b) data) = b - a.
Proof. unfold slice, len. simpl. rewrite length_take, length_drop. lia. Qed.

(** One chunk. *)
Lemma read_chunk_ok c i part parts offset :
  cache_ok c m -> ob_data o !! i = Some part -> 0 <= offset <= data_size part ->
  let n := data_size part in
  let next := offset + Z.min (n - offset) CHUNK_SIZE in
  exists c', cache_ok c' m /\ execute E (reading key parts i n offset) c =
    (Ok (Some (Ok (GetChunk (Z.of_nat i + 1) (slice (offset, next) (od_data part)))),
         if next =? n then between key parts next else reading key parts i n next), c').
Proof.
  intros Hc Hi Hoff n next. pose proof (spec_fits _ _ _ _ (co_holds _ _ Hc) Hm) as Hf.
  pose proof (part_size i part Hf Hi) as Hn. unfold max_file_len in Hn.
  assert (Hmin : 0 <= Z.min (n - offset) CHUNK_SIZE <= n - offset) by (unfold CHUNK_SIZE, n; lia).
  destruct (spec_read _ _ _ _ _ i part offset (Z.min (n - offset) CHUNK_SIZE) (co_holds _ _ Hc) Hsup Hkey Hm Hi)
    as (s' & Hread & Hh); [lia..|].
  exists (with_storage s' c). split; [by apply cache_ok_storage|].
  unfold execute, reading, read_chunk. simpl. rewrite wrap_u64_small by (unfold n in *; width).
  unfold mbind, M_bind, attempt. rewrite (engine_run _ c _ _ Hread). fold next.
  rewrite slice_len by (unfold next, data_size in *; lia).
  replace (wrap_u64 (offset + (next - offset))) with next by (rewrite wrap_u64_small; unfold next; width || lia).
  by destruct (next =? n).
Qed.

(** The chunks of one part from [offset] on. *)
Lemma read_part c i part parts offset :
  cache_ok c m -> ob_data o !! i = Some part -> 0 <= offset <= data_size part ->
  exists ds off' c', cache_ok c' m /\
    emits (reading key parts i (data_size part) offset) c (GetChunk (Z.of_nat i + 1) <$> ds) (between key parts off') c' /\
    concat ds = drop (Z.to_nat offset) (od_data part) /\ Forall (fun b => len b <= CHUNK_SIZE) ds /\
    (data_size part = 0 -> ds = [[]]) /\ (offset < data_size part -> ds <> [] /\ [] ∉ ds).
Proof.
  remember (Z.to_nat (data_size part - offset)) as n eqn:Hn. revert c offset Hn.
  induction n as [n IH] using lt_wf_ind. intros c offset -> Hc Hi Hoff.
  destruct (read_chunk_ok c i part parts offset Hc Hi Hoff) as (c1 & Hc1 & Hx). cbv zeta in Hx.
  set (next := offset + Z.min (data_size part - offset) CHUNK_SIZE) in *.
  assert (Hpiece : slice (offset, next) (od_data part) ++ drop (Z.to_nat next) (od_data part) = drop (Z.to_nat offset) (od_data part)).
  { unfold slice. simpl. rewrite <- (take_drop (Z.to_nat (next - offset)) (drop (Z.to_nat offset) (od_data part))) at 2.
    rewrite drop_drop. do 2 f_equal. unfold next, CHUNK_SIZE in *. lia. }
  assert (Hsize : len (slice (offset, next) (od_data part)) <= CHUNK_SIZE).
  { rewrite slice_len; unfold next, data_size, CHUNK_SIZE in *; lia. }
  assert (Hfull : offset < data_size part -> [] <> slice (offset, next) (od_data part)).
  { intros Hlt Heq. apply (f_equal len) in Heq. rewrite slice_len in Heq; unfold next, data_size, CHUNK_SIZE, len in *; simpl in *; lia. }
  destruct (Z.eqb_spec next (data_size part)) as [Hend|Hmore].
  - exists [slice (offset, next) (od_data part)], next, c1. split; [done|]. split; [|split_and!; [|by repeat constructor|..]].
    + simpl. econstructor; [exact Hx|constructor].
    + simpl. rewrite <- Hpiece. f_equal. symmetry. apply drop_ge. unfold data_size, len in Hend. lia.
    + intros Hz. unfold data_size, len in Hz. destruct (od_data part); [|done].
      unfold slice. simpl. by rewrite drop_nil, take_nil.
    + intros Hlt. split; [done|]. rewrite list_elem_of_singleton. by apply Hfull.
  - destruct (IH (Z.to_nat (data_size part - next))) with (c := c1) (offset := next)
      as (ds & off' & c2 & Hc2 & Hem & Hcat & Hall & _ & Hne); [unfold next, CHUNK_SIZE in *; lia|done|done|done|unfold next, CHUNK_SIZE in *; lia|].
    exists (slice (offset, next) (od_data part) :: ds), off', c2. split; [done|]. split; [|split_and!; [|by constructor|..]].
    + simpl. econstructor; [exact Hx|done].
    + simpl. by rewrite Hcat.
    + intros Hz. exfalso. apply Hmore. unfold next, CHUNK_SIZE. lia.
    + intros Hlt. split; [done|]. apply not_elem_of_cons. split; [by apply Hfull|].
      apply Hne. unfold next, CHUNK_SIZE in *. lia.
Qed.

(** Every part from index [i] on. *)
Lemma read_parts rest i c offset : cache_ok c m -> drop i (ob_data o) = rest ->
  exists dss off' c', cache_ok c' m /\
    emits (between key (parts_at i rest) offset) c (numbered i dss) (between key [] off') c' /\
    Forall2 pieces dss rest.
Proof.
  revert i c offset. induction rest as [|d rest IH]; intros i c offset Hc Hrest.
  { exists [], offset, c. split; [done|]. split; constructor. }
  assert (Hi : ob_data o !! i = Some d).
  { rewrite <- (Nat.add_0_r i), <- lookup_drop, Hrest. done. }
  assert (Hrest' : drop (S i) (ob_data o) = rest).
  { rewrite <- Nat.add_1_r, <- drop_drop, Hrest. done. }
  pose proof (part_size i d (spec_fits _ _ _ _ (co_holds _ _ Hc) Hm) Hi) as Hd.
  destruct (read_part c i d (parts_at (S i) rest) 0 Hc Hi ltac:(lia)) as (ds & off1 & c1 & Hc1 & Hem1 & Hcat & Hall & Hz & Hne).
  assert (Hp : pieces ds d).
  { split_and!; [done|done| |]; intros Hd0; [apply Hz|apply Hne]; unfold data_size, len; [by rewrite Hd0|].
    destruct (od_data d); [done|simpl; lia]. }
  destruct (IH (S i) c1 off1 Hc1 Hrest') as (dss & off2 & c2 & Hc2 & Hem2 & Hdss).
  exists (ds :: dss), off2, c2. split; [done|]. split; [|by constructor].
  cbn [numbered parts_at]. eapply emits_app; [|exact Hem2].
  destruct ds as [|b ds]; [by inversion Hem1|]. inversion Hem1 as [|? ? ? ? ? ? ? ? Hx Hem]; subst.
  econstructor; [exact Hx|exact Hem].
Qed.
End response.

Lemma records_from_lookup offset parts i :
  rc_len <$> records_from offset parts !! i = data_size <$> parts !! i.
Proof.
  revert offset i. induction parts as [|d parts IH]; intros offset [|i]; simpl; [done..|]. apply IH.
Qed.

Lemma parts_at_lookup i rest j : parts_at i rest !! j = (fun d => mkPart (i + j) (data_size d)) <$> rest !! j.
Proof.
  revert i j. induction rest as [|d rest IH]; intros i [|j]; simpl; [done..| |].
  - by rewrite Nat.add_0_r.
  - rewrite IH. by rewrite <- plus_n_Sm.
Qed.

Lemma parts_from_stat v o : parts_from v (stat_of o) = parts_at v (drop v (ob_data o)).
Proof.
  apply list_eq. intros j. unfold parts_from, stat_of. rewrite parts_at_lookup, list_lookup_imap, !lookup_drop.
  pose proof (records_from_lookup 0 (ob_data o) (v + j)) as Hl. simpl.
  destruct (records_from 0 (ob_data o) !! (v + j)%nat), (ob_data o !! (v + j)%nat); simpl in *; congruence.
Qed.

(** The stream a [Get] at version [v] returns. *)
Lemma get_stream c m key k o v : cache_ok c m -> supported key -> object_key key k -> m !! k = Some o ->
  0 <= v <= Z.of_nat (length (ob_data o)) ->
  exists c1 parts, grpc_get E k v c =
      (Ok (response_stream key (GetHeader (Z.of_nat (length (ob_data o)))
        (if v =? Z.of_nat (length (ob_data o)) then "" else ob_data_type o)) parts), c1) /\
    cache_ok c1 m /\ parts = parts_at (Z.to_nat v) (drop (Z.to_nat v) (ob_data o)).
Proof.
  intros Hc Hs Hk Hm Hv. pose proof (spec_fits _ _ _ _ (co_holds _ _ Hc) Hm) as Hf.
  set (c0 := with_storage (touch E key (oc_storage c)) c).
  assert (Hc0 : cache_ok c0 m) by (apply cache_ok_storage; [done|apply spec_touch, Hc]).
  destruct (engine_stat c0 m key k Hc0 Hs Hk) as (c1 & Hstat & Hc1 & _). rewrite Hm in Hstat. simpl in Hstat.
  unfold grpc_get, metadata_of, mbind, M_bind, lift, gets, modify, mret, M_ret. pose proof Hk as [-> _ _].
  rewrite (co_meta _ _ Hc _ _ Hm). simpl ok_or. cbv beta iota. fold c0.
  change (om_version (described k o)) with (Z.of_nat (length (ob_data o))).
  assert (Hpos : Z.of_nat (length (ob_data o)) <> 0).
  { pose proof (ft_parts _ Hf). destruct (ob_data o); simpl; [done|lia]. }
  destruct (Z.eqb_spec v (Z.of_nat (length (ob_data o)))) as [Hend|Hne].
  - exists c0, []. rewrite (proj2 (Z.eqb_neq v 0)) by lia. rewrite <- Hend, Z.eqb_refl. split; [done|].
    split; [done|]. rewrite drop_ge by lia. done.
  - exists c1, (parts_at (Z.to_nat v) (drop (Z.to_nat v) (ob_data o))).
    rewrite (proj2 (Z.eqb_neq (Z.of_nat (length (ob_data o))) v)) by lia. rewrite andb_false_r, Hstat. simpl ok_or. cbv beta iota.
    rewrite stat_of_version, (proj2 (Z.ltb_ge _ v)) by lia. by rewrite parts_from_stat.
Qed.

Lemma stream_messages key header parts c ms off c' :
  emits (between key parts 0) c ms (between key [] off) c' ->
  messages E (S (S (length ms))) (response_stream key header parts) c = (Ok (Some (Ok <$> header :: ms)), c').
Proof.
  intros Hem. apply (emits_messages _ c (header :: ms) (between key [] off) c' (mkResponse StageDone key None [] None 0));
    [|reflexivity]. by apply (emits_step (response_stream key header parts) c header (between key parts 0) c).
Qed.

(** C32 [functional] A [Get] returns the object.  Over any engine that meets its
    contract, for an object of [n] parts and a client that has version [v] of
    it, the response is one header with version [n] and the data type (no type
    if the client is up to date), then the parts the client does not have, in
    order: the chunks of a part follow one another under its version, are its
    bytes in order, and are at most 1 MiB and not empty, except that an empty
    part is sent as one empty chunk.  The stream ends, without an error, and
    leaves the objects as they are. *)
Theorem get_returns_parts c m key k o v :
  cache_ok c m -> supported key -> object_key key k -> m !! k = Some o ->
  0 <= v <= Z.of_nat (length (ob_data o)) ->
  exists d c1 fuel dss c2,
    grpc_get E k v c = (Ok d, c1) /\
    messages E fuel d c1 = (Ok (Some (Ok <$> GetHeader (Z.of_nat (length (ob_data o)))
      (if v =? Z.of_nat (length (ob_data o)) then "" else ob_data_type o) :: numbered (Z.to_nat v) dss)), c2) /\
    cache_ok c2 m /\ Forall2 pieces dss (drop (Z.to_nat v) (ob_data o)).
Proof.
  intros Hc Hs Hk Hm Hv. destruct (get_stream c m key k o v Hc Hs Hk Hm Hv) as (c1 & parts & Hget & Hc1 & ->).
  destruct (read_parts m key k o Hs Hk Hm _ (Z.to_nat v) c1 0 Hc1 eq_refl) as (dss & off & c2 & Hc2 & Hem & Hdss).
  eexists _, c1, _, dss, c2. split; [exact Hget|]. split; [|by split].
  exact (stream_messages _ _ _ _ _ _ _ Hem).
Qed.
End inv.
