(* ===== verification/ObjGc.v ===== *)
(** * The garbage collector of the object cache ([object_cache/src/gc.rs])

    Every interval the collector deletes the objects of applications that are
    gone or were created again.  It lists the objects, asks the session manager
    for the applications twice, and deletes each candidate only if it is as
    listed.  Between its calls other requests change the cache: [others] is what
    they do at each pause, so what is proved holds for every interleaving. *)
From Stdlib Require Import Ascii.
From S2P Require Import Prelude Types Engine Codes FsDisk FsRecord ObjKey ObjStore ObjCache ObjCacheInv.
Local Open Scope Z_scope.

Definition STALE_GRACE_MILLIS : Z := 10000.

Record ApplicationSnapshot := mkSnapshot { as_state : ApplicationState; as_creation_time : Z }.

Abbreviation ApplicationMap := (gmap string ApplicationSnapshot).

Inductive StaleReason := PreviousApplication | MissingApplication.

Record Candidate := mkCandidate {
  cd_application : string;
  cd_metadata : ObjectMetadata;
  cd_reason : StaleReason
}.

Record ReconcileStats := mkReconcile { rc_candidates : nat; rc_deleted : nat; rc_failures : nat }.

(** What the collector reads of an [Application] of the session manager: the
    name of its metadata, the creation time and the state of its status. *)
Record RpcApplication := mkRpcApp { ra_metadata : option string; ra_status : option (Z * Z) }.

Definition i64_max : Z := 2 ^ 63 - 1.
Definition i64_saturating_add (a b : Z) : Z := Z.min i64_max (Z.max (- 2 ^ 63) (a + b)).

(** The loop of [validate_applications]. *)
Fixpoint validate_from (applications : list RpcApplication) (acc : ApplicationMap) : result ApplicationMap :=
  match applications with
  | [] => Ok acc
  | application :: applications =>
      name ← ok_or (ra_metadata application) EInvalidState;
      if bool_decide (name = "") then Err EInvalidState
      else
        status ← ok_or (ra_status application) EInvalidState;
        if status.1 <=? 0 then Err EInvalidState
        else
          state ← application_state_try_from status.2;
          if bool_decide (is_Some (acc !! name)) then Err EInvalidState
          else validate_from applications (<[name := mkSnapshot state status.1]> acc)
  end.

Definition validate_applications (applications : list RpcApplication) : result ApplicationMap :=
  validate_from applications ∅.

Definition classify_stale (application : option ApplicationSnapshot) (object_creation_time now : Z) : option StaleReason :=
  match application with
  | Some snapshot =>
      match as_state snapshot with
      | AppEnabled =>
          if i64_saturating_add object_creation_time STALE_GRACE_MILLIS <? as_creation_time snapshot
          then Some PreviousApplication else None
      | _ => None
      end
  | None =>
      if i64_saturating_add object_creation_time STALE_GRACE_MILLIS <? now then Some MissingApplication else None
  end.

(** The candidates of one listing of the objects. *)
Definition candidate (applications : ApplicationMap) (now : Z) (metadata : ObjectMetadata) : option Candidate :=
  match key_try_from (om_key metadata) with
  | Ok key => mkCandidate (app_name key) metadata <$> classify_stale (applications !! app_name key) (om_creation_time metadata) now
  | _ => None
  end.

(** The closure of [retain_mut]. *)
Definition recheck (applications : ApplicationMap) (now : Z) (c : Candidate) : option Candidate :=
  mkCandidate (cd_application c) (cd_metadata c) <$>
    classify_stale (applications !! cd_application c) (om_creation_time (cd_metadata c)) now.

Section gc.
Context `{Env, Millis} {F T : Type} (E : StorageEngine F T).

(** What other requests do to the cache at the [n]-th pause of the collector. *)
Variable others : nat -> ObjectCache T -> ObjectCache T.
Definition pause (n : nat) : M (ObjectCache T) unit := modify (others n).

(** The last loop of [reconcile]. *)
Fixpoint delete_candidates (n : nat) (candidates : list Candidate) (stats : ReconcileStats) :
    M (ObjectCache T) ReconcileStats :=
  match candidates with
  | [] => mret stats
  | c :: candidates =>
      pause n ≫= fun _ =>
      r ← attempt (delete_if_unchanged E (cd_metadata c));
      let stats :=
        match r with
        | Ok true => mkReconcile (rc_candidates stats) (S (rc_deleted stats)) (rc_failures stats)
        | Ok false => stats
        | _ => mkReconcile (rc_candidates stats) (rc_deleted stats) (S (rc_failures stats))
        end in
      delete_candidates (S n) candidates stats
  end.

(** [first] and [second] are the answers of the session manager. *)
Definition reconcile (first second : result (list RpcApplication)) (now : Z) : M (ObjectCache T) ReconcileStats :=
  objects ← list_all;
  match objects with
  | [] => mret (mkReconcile 0 0 0)
  | _ =>
      pause 0 ≫= fun _ =>
      applications ← lift (first ≫= validate_applications);
      let candidates := omap (candidate applications now) objects in
      let stats := mkReconcile (length candidates) 0 0 in
      candidates ← match candidates with
                   | [] => mret []
                   | _ =>
                       pause 1 ≫= fun _ =>
                       current_applications ← lift (second ≫= validate_applications);
                       mret (omap (recheck current_applications now) candidates)
                   end;
      delete_candidates 2 candidates stats
  end.
End gc.

(** ** What is stale *)

(** The application of an object is gone, or is enabled and was created more
    than the grace period after the object; an object within the grace period
    of the current time counts only in the second case. *)
Lemma classify_stale_spec app created now : is_i64 created -> is_i64 now ->
  (forall s, app = Some s -> is_i64 (as_creation_time s)) ->
  classify_stale app created now <> None <->
  match app with
  | Some s => as_state s = AppEnabled /\ created + STALE_GRACE_MILLIS < as_creation_time s
  | None => created + STALE_GRACE_MILLIS < now
  end.
Proof.
  intros Hc Hn Hs. unfold classify_stale, i64_saturating_add, i64_max, STALE_GRACE_MILLIS, is_i64 in *.
  destruct app as [s|].
  - specialize (Hs s eq_refl). destruct (as_state s).
    + destruct (Z.ltb_spec (Z.min (2 ^ 63 - 1) (Z.max (- 2 ^ 63) (created + 10000))) (as_creation_time s)).
      * split; [intros _; split; [done|lia]|done].
      * split; [done|]. intros [_ ?]. lia.
    + split; [done|]. by intros [? _].
  - destruct (Z.ltb_spec (Z.min (2 ^ 63 - 1) (Z.max (- 2 ^ 63) (created + 10000))) now).
    + split; [intros _; lia|done].
    + split; [done|]. lia.
Qed.

(** The objects the collector may delete: stale by both answers. *)
Definition condemned (first second : result (list RpcApplication)) (now : Z) (meta : ObjectMetadata) : Prop :=
  exists key apps1 apps2, key_try_from (om_key meta) = Ok key /\
    first ≫= validate_applications = Ok apps1 /\ second ≫= validate_applications = Ok apps2 /\
    classify_stale (apps1 !! app_name key) (om_creation_time meta) now <> None /\
    classify_stale (apps2 !! app_name key) (om_creation_time meta) now <> None.

Lemma candidates_condemned first second now apps1 apps2 (listed : list ObjectMetadata) :
  first ≫= validate_applications = Ok apps1 -> second ≫= validate_applications = Ok apps2 ->
  forall c, c ∈ omap (recheck apps2 now) (omap (candidate apps1 now) listed) ->
  cd_metadata c ∈ listed /\ condemned first second now (cd_metadata c).
Proof.
  intros H1 H2 c (c1 & (meta & Hmeta & Hc1)%list_elem_of_omap & Hc)%list_elem_of_omap.
  unfold candidate in Hc1. destruct (key_try_from (om_key meta)) as [key| |] eqn:Hk; [|done..].
  destruct (classify_stale (apps1 !! app_name key) _ _) as [r1|] eqn:Hs1; [|done]. injection Hc1 as <-.
  unfold recheck in Hc. simpl in Hc. destruct (classify_stale (apps2 !! app_name key) _ _) as [r2|] eqn:Hs2; [|done].
  injection Hc as <-. simpl. split; [done|]. exists key, apps1, apps2. split_and!; try done; congruence.
Qed.

Lemma condemned_ext first second now meta meta' :
  om_key meta' = om_key meta -> om_creation_time meta' = om_creation_time meta ->
  condemned first second now meta -> condemned first second now meta'.
Proof. intros Hk Ht (key & a1 & a2 & H). exists key, a1, a2. by rewrite Hk, Ht. Qed.

Section safety.
Context `{Env, Millis} {F T : Type} (E : StorageEngine F T) {spec : StoreSpec E}.
Variable endpoint : string.
Variable others : nat -> ObjectCache T -> ObjectCache T.

(** The object [o] is stored under [k] with the metadata [meta]. *)
Definition present (k : string) (meta : ObjectMetadata) (o : Object) (c : ObjectCache T) : Prop :=
  exists m, cache_ok E endpoint c m /\ oc_metadata c !! k = Some meta /\ m !! k = Some o.

(** What happens to the cache during a collection that listed [listed]: other
    requests, whatever they do, and deletions of one listed object that both
    answers make stale and that still has the version and the creation time it
    was listed with. *)
Inductive collection_step (listed : list ObjectMetadata) (first second : result (list RpcApplication)) (now : Z) :
    ObjectCache T -> ObjectCache T -> Prop :=
  | meanwhile n c : collection_step listed first second now c (others n c)
  | collects c c' expected cur :
      expected ∈ listed -> condemned first second now expected ->
      oc_metadata c !! om_key expected = Some cur ->
      om_version cur = om_version expected -> om_creation_time cur = om_creation_time expected ->
      (forall m, cache_ok E endpoint c m -> cache_ok E endpoint c' (delete (om_key expected) m)) ->
      oc_metadata c' = delete (om_key expected) (oc_metadata c) ->
      collection_step listed first second now c c'.

Definition listed_ok (l : list ObjectMetadata) : Prop :=
  forall meta, meta ∈ l -> exists key, object_key key (om_key meta) /\ supported key.

Lemma list_all_ok c m : cache_ok E endpoint c m -> listed_ok (hm_values (oc_metadata c)).
Proof.
  intros Hc meta [k Hk]%hm_values_elem. destruct (co_keys _ _ _ _ Hc _ _ Hk) as (<- & key & Hkey). by exists key.
Qed.

(** The other requests leave a cache. *)
Definition requests_ok : Prop :=
  forall n c m, cache_ok E endpoint c m -> exists m', cache_ok E endpoint (others n c) m'.

Lemma delete_candidates_steps listed first second now cs n stats c m :
  requests_ok -> cache_ok E endpoint c m -> listed_ok listed ->
  (forall x, x ∈ cs -> cd_metadata x ∈ listed /\ condemned first second now (cd_metadata x)) ->
  rtc (collection_step listed first second now) c (delete_candidates E others n cs stats c).2.
Proof.
  intros Hoth. revert n stats c m. induction cs as [|x cs IH]; intros n stats c m Hc Hok Hcs; [apply rtc_refl|].
  cbn [delete_candidates]. unfold pause, modify, attempt, mbind, M_bind.
  eapply rtc_l; [apply (meanwhile _ _ _ _ n)|]. destruct (Hoth n c m Hc) as [m1 Hc1].
  destruct (Hcs x ltac:(by left)) as [Hin Hcond]. destruct (Hok _ Hin) as (key & Hkey & Hsup).
  assert (Hcs' : forall y, y ∈ cs -> cd_metadata y ∈ listed /\ condemned first second now (cd_metadata y))
    by (intros y Hy; apply Hcs; by right).
  destruct (is_some_and (oc_metadata (others n c) !! om_key (cd_metadata x)) (fun cur =>
    (om_version cur =? om_version (cd_metadata x)) && (om_creation_time cur =? om_creation_time (cd_metadata x)))) eqn:Hsame.
  - destruct (oc_metadata (others n c) !! om_key (cd_metadata x)) as [cur|] eqn:Hcur; [|done]. simpl in Hsame.
    apply andb_true_iff in Hsame as [Hv%Z.eqb_eq Ht%Z.eqb_eq].
    destruct (delete_unchanged E endpoint (others n c) m1 (cd_metadata x) key _ cur Hc1 Hkey Hsup eq_refl Hcur Hv Ht)
      as (c' & Hd & Hc' & Hm').
    rewrite Hd. eapply rtc_l; [eapply (collects _ _ _ _ _ c' (cd_metadata x) cur); try done|by eapply IH].
    intros m2 Hc2. destruct (delete_unchanged E endpoint (others n c) m2 (cd_metadata x) key _ cur Hc2 Hkey Hsup
      eq_refl Hcur Hv Ht) as (c2 & Hd2 & Hc2' & _). rewrite Hd in Hd2. by injection Hd2 as <-.
  - rewrite (delete_changed E (others n c) (cd_metadata x) key _ Hkey eq_refl Hsame). by eapply IH.
Qed.

Lemma reconcile_steps first second now c m :
  requests_ok -> cache_ok E endpoint c m ->
  rtc (collection_step (hm_values (oc_metadata c)) first second now) c (reconcile E others first second now c).2.
Proof.
  intros Hoth Hc. unfold reconcile.
  remember (first ≫= validate_applications) as r1 eqn:H1. remember (second ≫= validate_applications) as r2 eqn:H2.
  unfold list_all, gets, mbind, M_bind. pose proof (list_all_ok c m Hc) as Hlisted.
  destruct (hm_values (oc_metadata c)) as [|x l] eqn:Hl; [apply rtc_refl|]. unfold pause, modify, lift. rewrite <- Hl in *.
  eapply rtc_l; [apply (meanwhile _ _ _ _ 0)|]. destruct (Hoth 0%nat c m Hc) as [m1 Hc1].
  destruct r1 as [apps1| |]; [|apply rtc_refl..].
  destruct (omap (candidate apps1 now) (hm_values (oc_metadata c))) as [|y cs] eqn:Hcs; [apply rtc_refl|].
  eapply rtc_l; [apply (meanwhile _ _ _ _ 1)|]. destruct (Hoth 1%nat _ m1 Hc1) as [m2 Hc2].
  destruct r2 as [apps2| |]; [|apply rtc_refl..]. rewrite <- Hcs.
  eapply delete_candidates_steps; [done|done|done|]. by apply candidates_condemned.
Qed.

(** What a collection cannot take away. *)
Lemma collection_spares listed k meta o first second now c c' :
  (forall n c, present k meta o c -> present k meta o (others n c)) ->
  om_key meta = k -> ~ condemned first second now meta ->
  rtc (collection_step listed first second now) c c' -> present k meta o c -> present k meta o c'.
Proof.
  intros Hoth Hkey Hlive. induction 1 as [|c c1 c2 Hstep _ IH]; [done|]. intros Hp. apply IH.
  destruct Hstep as [n c|c c1 expected cur _ Hcond Hcur Hv Ht Hc' Hm']; [by apply Hoth|].
  destruct Hp as (m0 & Hc0 & Hmeta & Ho).
  assert (Hne : om_key expected <> k).
  { intros Hk. rewrite Hk, Hmeta in Hcur. injection Hcur as <-. apply Hlive.
    by eapply condemned_ext; [| |exact Hcond]; [congruence|]. }
  exists (delete (om_key expected) m0). split; [by apply Hc'|]. by rewrite Hm', !lookup_delete_ne by done.
Qed.

(** C17 [safety] The collector deletes nothing that is in use.  Other requests
    may do anything to the cache between its calls: create objects, patch them,
    delete them and create them again.  What the collector itself does is delete
    objects one at a time, each of them listed when the collection began, stale
    by both answers of the session manager (its application is gone and the
    object is older than ten seconds, or its application is enabled and was
    created more than ten seconds after it), and still of the version and the
    creation time it was listed with: an object written again in the meantime
    stays.  So an object that is not stale by both answers, and that other
    requests leave alone, is there with its metadata afterwards; an answer that
    fails or is malformed makes nothing stale. *)
Theorem collector_spares_live first second now c m :
  requests_ok -> cache_ok E endpoint c m ->
  rtc (collection_step (hm_values (oc_metadata c)) first second now) c
    (reconcile E others first second now c).2 /\
  forall k meta o,
    (forall n c, present k meta o c -> present k meta o (others n c)) ->
    present k meta o c -> om_key meta = k -> ~ condemned first second now meta ->
    present k meta o (reconcile E others first second now c).2.
Proof.
  intros Hoth Hc. pose proof (reconcile_steps first second now c m Hoth Hc) as Hsteps. split; [done|].
  intros k meta o Hkeep Hp Hkey Hlive. by eapply collection_spares.
Qed.

(** ** Collections without interference *)

Lemma delete_candidates_all cs n stats c m :
  cache_ok E endpoint c m -> NoDup ((fun x => om_key (cd_metadata x)) <$> cs) ->
  (forall x, x ∈ cs -> oc_metadata c !! om_key (cd_metadata x) = Some (cd_metadata x)) ->
  exists c' m', delete_candidates E (fun _ c => c) n cs stats c =
      (Ok (mkReconcile (rc_candidates stats) (rc_deleted stats + length cs) (rc_failures stats)), c') /\
    cache_ok E endpoint c' m' /\ oc_metadata c' ⊆ oc_metadata c /\ m' ⊆ m /\
    (forall k, k ∈ ((fun x => om_key (cd_metadata x)) <$> cs) -> oc_metadata c' !! k = None /\ m' !! k = None).
Proof.
  revert n stats c m. induction cs as [|x cs IH]; intros n stats c m Hc Hnd Hall.
  { exists c, m. destruct stats. simpl. rewrite Nat.add_0_r. split_and!; [done..|]. by intros k ?%not_elem_of_nil. }
  rewrite fmap_cons in Hnd. apply list.NoDup_cons in Hnd as [Hx Hnd]. pose proof (Hall x ltac:(by left)) as Hcur.
  destruct (co_keys _ _ _ _ Hc _ _ Hcur) as (_ & key & Hkey & Hsup).
  destruct (delete_unchanged E endpoint c m (cd_metadata x) key _ _ Hc Hkey Hsup eq_refl Hcur eq_refl eq_refl)
    as (c1 & Hd & Hc1 & Hm1).
  destruct (IH (S n) (mkReconcile (rc_candidates stats) (S (rc_deleted stats)) (rc_failures stats)) c1
    (delete (om_key (cd_metadata x)) m) Hc1 Hnd) as (c' & m' & Hrun & Hc' & Hsub1 & Hsub2 & Hgone).
  { intros y Hy. rewrite Hm1, lookup_delete_ne; [apply Hall; by right|].
    intros Heq. apply Hx. rewrite Heq. by apply (list_elem_of_fmap_2 (fun x => om_key (cd_metadata x))). }
  rewrite Hm1 in Hsub1. exists c', m'. split_and!; [|done|..].
  - cbn [delete_candidates]. unfold pause, modify, mbind, M_bind, attempt. rewrite Hd.
    etrans; [exact Hrun|]. simpl. do 3 f_equal. lia.
  - etrans; [exact Hsub1|]. apply delete_subseteq.
  - etrans; [exact Hsub2|]. apply delete_subseteq.
  - intros k. rewrite fmap_cons. intros [->|Hk]%elem_of_cons; [|by apply Hgone]. split.
    + apply (lookup_weaken_None _ _ _ (lookup_delete_eq (oc_metadata c) (om_key (cd_metadata x)))). done.
    + apply (lookup_weaken_None _ _ _ (lookup_delete_eq m (om_key (cd_metadata x)))). done.
Qed.

Lemma candidates_complete first second now apps1 apps2 (listed : list ObjectMetadata) meta :
  first ≫= validate_applications = Ok apps1 -> second ≫= validate_applications = Ok apps2 ->
  meta ∈ listed -> condemned first second now meta ->
  exists c, c ∈ omap (recheck apps2 now) (omap (candidate apps1 now) listed) /\ cd_metadata c = meta.
Proof.
  intros H1 H2 Hin (key & a1 & a2 & Hk & E1 & E2 & Hs1 & Hs2). rewrite H1 in E1. rewrite H2 in E2.
  injection E1 as <-. injection E2 as <-.
  destruct (classify_stale (apps1 !! app_name key) _ _) as [r1|] eqn:Hr1; [|done].
  destruct (classify_stale (apps2 !! app_name key) _ _) as [r2|] eqn:Hr2; [|done].
  exists (mkCandidate (app_name key) meta r2). split; [|done]. apply list_elem_of_omap.
  exists (mkCandidate (app_name key) meta r1). split.
  - apply list_elem_of_omap. exists meta. split; [done|]. unfold candidate. by rewrite Hk, Hr1.
  - unfold recheck. simpl. by rewrite Hr2.
Qed.

Lemma candidates_sublist now apps1 apps2 (listed : list ObjectMetadata) :
  (fun x => om_key (cd_metadata x)) <$> omap (recheck apps2 now) (omap (candidate apps1 now) listed)
    `sublist_of` om_key <$> listed.
Proof.
  induction listed as [|meta l IH]; [done|]. rewrite fmap_cons. cbn [omap list_omap].
  destruct (candidate apps1 now meta) as [c|] eqn:Hc; [|by apply sublist_cons]. cbn [omap list_omap].
  destruct (recheck apps2 now c) as [c'|] eqn:Hc'; [|by apply sublist_cons]. rewrite fmap_cons.
  assert (Heq : om_key (cd_metadata c') = om_key meta).
  { unfold recheck in Hc'. destruct (classify_stale _ _ _) in Hc'; [|done]. injection Hc' as <-. simpl.
    unfold candidate in Hc. destruct (key_try_from _); [|done..]. destruct (classify_stale _ _ _) in Hc; [|done].
    by injection Hc as <-. }
  rewrite Heq. by apply sublist_skip.
Qed.

Lemma listed_keys c m : cache_ok E endpoint c m -> om_key <$> hm_values (oc_metadata c) = (hm_iter (oc_metadata c)).*1.
Proof.
  intros Hc. unfold hm_values. rewrite <- list_fmap_compose. apply list_fmap_ext. intros i [k meta] Hi.
  apply list_elem_of_lookup_2, hm_iter_elem in Hi. by destruct (co_keys _ _ _ _ Hc _ _ Hi) as [? _].
Qed.

(** C33 [liveness] Stale objects do not stay: a collection that no other request
    interferes with, and for which the session manager answers twice, succeeds
    without failures, deletes from the metadata and from the engine every
    object that both answers make stale, and counts the ones it deleted. *)
Theorem collector_removes_stale first second now apps1 apps2 c m :
  cache_ok E endpoint c m ->
  first ≫= validate_applications = Ok apps1 -> second ≫= validate_applications = Ok apps2 ->
  exists stats c' m', reconcile E (fun _ c => c) first second now c = (Ok stats, c') /\ rc_failures stats = 0%nat /\
    cache_ok E endpoint c' m' /\ m' ⊆ m /\
    forall k meta, oc_metadata c !! k = Some meta -> condemned first second now meta ->
      oc_metadata c' !! k = None /\ m' !! k = None.
Proof.
  intros Hc H1 H2. unfold reconcile. rewrite H1, H2. unfold list_all, gets, pause, modify, lift, mbind, M_bind, mret, M_ret.
  pose proof (candidates_complete first second now apps1 apps2 (hm_values (oc_metadata c))) as Hcomplete.
  destruct (hm_values (oc_metadata c)) as [|x l] eqn:Hl.
  { exists (mkReconcile 0 0 0), c, m. split_and!; try done. intros k meta Hk _.
    assert (Hin : meta ∈ hm_values (oc_metadata c)) by (apply hm_values_elem; eauto).
    rewrite Hl in Hin. by apply not_elem_of_nil in Hin. }
  rewrite <- Hl in *. set (cands := omap (candidate apps1 now) (hm_values (oc_metadata c))) in *.
  destruct cands as [|y cs] eqn:Hcs.
  { exists (mkReconcile 0 0 0), c, m. split_and!; try done. intros k meta Hk Hcond.
    destruct (Hcomplete meta H1 H2) as (z & Hz & _); [apply hm_values_elem; eauto|done|]. by apply not_elem_of_nil in Hz. }
  rewrite <- Hcs in *. unfold cands in *.
  destruct (delete_candidates_all (omap (recheck apps2 now) (omap (candidate apps1 now) (hm_values (oc_metadata c)))) 2
    (mkReconcile (length (omap (candidate apps1 now) (hm_values (oc_metadata c)))) 0 0) c m Hc) as (c' & m' & Hrun & Hc' & _ & Hsub & Hgone).
  - eapply sublist_NoDup; [|apply candidates_sublist]. rewrite (listed_keys c m Hc). apply hm_iter_NoDup.
  - intros z Hz. destruct (candidates_condemned first second now apps1 apps2 _ H1 H2 z Hz) as [Hin _].
    apply hm_values_elem in Hin as [k Hk]. by destruct (co_keys _ _ _ _ Hc _ _ Hk) as [-> _].
  - eexists _, c', m'. split; [exact Hrun|]. split_and!; [done|done|done|]. intros k meta Hk Hcond.
    destruct (Hcomplete meta H1 H2) as (z & Hz & Hzm); [apply hm_values_elem; eauto|done|].
    destruct (co_keys _ _ _ _ Hc _ _ Hk) as [Hkey _]. apply Hgone. rewrite <- Hkey, <- Hzm.
    by apply (list_elem_of_fmap_2 (fun x => om_key (cd_metadata x))).
Qed.
End safety.
