(* ===== verification/ObjDiskInv.v ===== *)
(** * Objects on disk

    The files of an object ([object_cache/src/storage/disk.rs]) as a function of
    the object, and the operations of an open object and of the engine on a
    disk whose calls succeed. *)
From Stdlib Require Import Ascii.
From S2P Require Import Prelude Types Engine FsDisk FsRecord ObjKey ObjStore ObjOs ObjDisk.
Local Open Scope Z_scope.

(** ** The index *)

Definition index_bytes (o : Object) : bytes := concat (encode_record <$> records_from 0 (ob_data o)).
Definition payload (o : Object) : bytes := concat (od_data <$> ob_data o).

(** A record of machine integers. *)
Definition record_ok (r : Record_) : Prop := is_u64 (rc_offset r) /\ is_u64 (rc_len r) /\ is_i64 (rc_creation_time r).

Lemma le_bytes_len n z : 0 <= n -> length (le_bytes n z) = Z.to_nat n.
Proof. intros Hn. pose proof (le_bytes_length n z Hn) as Hl. unfold len in Hl. lia. Qed.

Lemma encode_record_length r : length (encode_record r) = Z.to_nat RECORD_LEN.
Proof. unfold encode_record. by rewrite !length_app, !le_bytes_len by lia. Qed.

Lemma decode_encode_record r : record_ok r -> decode_record (encode_record r) = r.
Proof.
  intros (Ho & Hl & Ht). destruct r as [off n t]. simpl in *. unfold decode_record, encode_record. simpl rc_offset. simpl rc_len. simpl rc_creation_time.
  rewrite drop_0, take_app_length' by (by rewrite le_bytes_len by lia).
  rewrite (drop_app_length' (le_bytes 8 off)) by (by rewrite le_bytes_len by lia).
  rewrite take_app_length' by (by rewrite le_bytes_len by lia).
  replace (drop 16 (le_bytes 8 off ++ le_bytes 8 n ++ le_bytes 8 t)) with (le_bytes 8 t).
  2:{ rewrite app_assoc, drop_app_length'; [done|]. rewrite length_app, !le_bytes_len by lia. done. }
  rewrite (firstn_all2 (n := 8)) by (rewrite le_bytes_len by lia; done).
  rewrite !le_value_bytes by lia. f_equal.
  - apply Z.mod_small. width.
  - apply Z.mod_small. width.
  - unfold wrap_i64, is_i64 in *. rewrite Zplus_mod_idemp_l, Z.mod_small by lia. lia.
Qed.

(** Chunks of one size, concatenated. *)
Lemma concat_fixed {A} n (ls : list (list A)) i x : Forall (fun l => length l = n) ls -> ls !! i = Some x ->
  take n (drop (i * n) (concat ls)) = x.
Proof.
  revert i. induction ls as [|y ls IH]; intros [|i] Hall; [done..| |]; apply list.Forall_cons in Hall as [Hy Hall]; simpl.
  - intros [= ->]. rewrite drop_0. by apply take_app_length'.
  - intros Hi. rewrite <- drop_drop, drop_app_length' by done. by apply IH.
Qed.

Lemma length_concat_fixed {A} n (ls : list (list A)) : Forall (fun l => length l = n) ls -> length (concat ls) = (length ls * n)%nat.
Proof. induction 1; simpl; [done|]. rewrite length_app. lia. Qed.

Lemma index_chunks rs : Forall (fun l => length l = Z.to_nat RECORD_LEN) (encode_record <$> rs).
Proof. apply list.Forall_forall. intros b (r & -> & _)%list_elem_of_fmap. apply encode_record_length. Qed.

Lemma index_len o : len (index_bytes o) = Z.of_nat (length (ob_data o)) * RECORD_LEN.
Proof.
  unfold index_bytes, len. rewrite (length_concat_fixed _ _ (index_chunks _)), length_fmap, records_from_length.
  unfold RECORD_LEN. lia.
Qed.

Lemma decode_records_fixed rs : Forall record_ok rs -> decode_records (length rs) (concat (encode_record <$> rs)) = rs.
Proof.
  induction 1 as [|r rs Hr Hrs IH]; [done|]. simpl length. cbn [decode_records fmap list_fmap concat].
  rewrite take_app_length' by (by rewrite encode_record_length). rewrite drop_app_length' by (by rewrite encode_record_length).
  by rewrite (decode_encode_record _ Hr), IH.
Qed.

Lemma payload_len o : len (payload o) = Zsum data_size (ob_data o).
Proof.
  unfold payload. induction (ob_data o) as [|d ds IH]; [done|]. rewrite fmap_cons. simpl. rewrite <- IH.
  unfold data_size, len. rewrite length_app. lia.
Qed.

(** The records of an object within the limits. *)
Lemma records_from_ok offset parts : 0 <= offset -> offset + Zsum data_size parts <= max_file_len ->
  Forall (fun d => is_i64 (od_creation_time d)) parts -> Forall record_ok (records_from offset parts).
Proof.
  revert offset. induction parts as [|d ds IH]; intros offset H0 Hsum; simpl; [constructor|].
  intros [Hd Hds]%list.Forall_cons. simpl in Hsum. pose proof (Zsum_data_nonneg ds) as Hn. unfold max_file_len in *.
  assert (0 <= data_size d) by (unfold data_size, len; lia). constructor.
  - unfold record_ok. simpl. split; [width|]. split; [width|done].
  - rewrite wrap_u64_small by width. apply IH; [lia|lia|done].
Qed.

Lemma records_from_at parts offset i d : 0 <= offset -> offset + Zsum data_size parts <= max_file_len ->
  parts !! i = Some d ->
  records_from offset parts !! i =
    Some (mkRecord (offset + Zsum data_size (take i parts)) (data_size d) (od_creation_time d)).
Proof.
  revert offset i. induction parts as [|x ds IH]; intros offset [|i] H0 Hsum; [done..| |]; simpl.
  - intros [= ->]. by rewrite Z.add_0_r.
  - intros Hi. pose proof (Zsum_data_nonneg ds) as Hn. simpl in Hsum. unfold max_file_len in *.
    assert (0 <= data_size x) by (unfold data_size, len; lia). rewrite wrap_u64_small by width.
    rewrite (IH _ i) by (lia || done). do 2 f_equal. lia.
Qed.

Lemma payload_at parts i d : parts !! i = Some d ->
  take (Z.to_nat (data_size d)) (drop (Z.to_nat (Zsum data_size (take i parts))) (concat (od_data <$> parts))) = od_data d.
Proof.
  revert i. induction parts as [|x ds IH]; intros [|i]; [done..| |]; simpl.
  - intros [= ->]. rewrite drop_0. apply take_app_length'. unfold data_size, len. lia.
  - intros Hi. pose proof (Zsum_data_nonneg (take i ds)). unfold data_size at 2, len.
    rewrite Z2Nat.inj_add by lia. rewrite Nat2Z.id, <- drop_drop, drop_app_length by done. by apply IH.
Qed.

Lemma records_from_snoc offset parts d : 0 <= offset -> offset + Zsum data_size parts <= max_file_len ->
  records_from offset (parts ++ [d]) =
  records_from offset parts ++ [mkRecord (offset + Zsum data_size parts) (data_size d) (od_creation_time d)].
Proof.
  revert offset. induction parts as [|x ds IH]; intros offset H0 Hsum; simpl; [by rewrite Z.add_0_r|].
  pose proof (Zsum_data_nonneg ds). simpl in Hsum. unfold max_file_len in *.
  assert (0 <= data_size x) by (unfold data_size, len; lia). rewrite wrap_u64_small by width.
  rewrite IH by lia. do 4 f_equal. lia.
Qed.

Lemma index_append o d : fits (append_part d o) ->
  index_bytes (append_part d o) =
  index_bytes o ++ encode_record (mkRecord (Zsum data_size (ob_data o)) (data_size d) (od_creation_time d)).
Proof.
  intros Hf. pose proof (ft_size _ Hf) as Hs. simpl in Hs. rewrite Zsum_app in Hs. simpl in Hs.
  assert (0 <= data_size d) by (unfold data_size, len; lia). unfold index_bytes. simpl.
  rewrite records_from_snoc, fmap_app, concat_app by lia. f_equal.
Qed.

Lemma payload_append o d : payload (append_part d o) = payload o ++ od_data d.
Proof. unfold payload. simpl. rewrite fmap_app, concat_app. f_equal. apply app_nil_r. Qed.

(** ** Open objects *)

(** States that differ in the number of calls only. *)
Record same (o o' : Os) : Prop := {
  sa_names : o_names o' = o_names o;
  sa_dirs : o_dirs o' = o_dirs o;
  sa_inodes : o_inodes o' = o_inodes o;
  sa_counts : o_counts o' = o_counts o;
  sa_fresh : o_fresh o' = o_fresh o
}.

Lemma same_refl o : same o o.
Proof. by split. Qed.
Lemma same_tick o o' : same o o' -> same o (tick_call o').
Proof. intros []. by split. Qed.
Lemma same_trans o1 o2 o3 : same o1 o2 -> same o2 o3 -> same o1 o3.
Proof. intros [] []. split; congruence. Qed.
#[local] Hint Resolve same_refl same_tick same_trans : flame.

(** [f] is open on the files of [x]. *)
Record handle_ok (f : ObjectFiles) (x : Object) (o : Os) : Prop := {
  ho_type : of_data_type f = ob_data_type x;
  ho_index : o_inodes o !! of_index f = Some (index_bytes x);
  ho_data : o_inodes o !! of_data f = Some (payload x);
  ho_count : o_counts o !! of_count f = Some (length (ob_data x))
}.

Lemma handle_ok_same f x o o' : same o o' -> handle_ok f x o -> handle_ok f x o'.
Proof. intros [_ _ Hi Hc _] []. split; congruence. Qed.

Section quiet.
Context `{Disk, Env, Json}.
Hypothesis quiet : forall n, io_fault n = None.

Lemma files_count_ok f x o : handle_ok f x o -> files_count f o = (Ok (length (ob_data x)), o).
Proof. intros Hh. unfold files_count, gets. by rewrite (ho_count _ _ _ Hh). Qed.

Lemma files_record_ok f x i o : handle_ok f x o -> fits x ->
  exists o', files_record f i o = (Ok (records_from 0 (ob_data x) !! i), o') /\ same o o'.
Proof.
  intros Hh Hf. unfold files_record. rewrite (bind_Ok _ _ _ _ _ (files_count_ok f x o Hh)).
  destruct (records_from 0 (ob_data x) !! i) as [r|] eqn:Hr.
  - pose proof (lookup_lt_Some _ _ _ Hr) as Hlt. rewrite records_from_length in Hlt.
    rewrite (proj2 (Nat.leb_gt _ _)) by done.
    rewrite (bind_Ok _ _ _ _ _ (os_read_exact_quiet quiet _ _ RECORD_LEN (Z.of_nat i * RECORD_LEN) o (ho_index _ _ _ Hh)
      ltac:(rewrite index_len; unfold RECORD_LEN; lia))).
    exists (tick_call o). split; [|auto with flame]. unfold mret, M_ret. do 3 f_equal.
    replace (Z.to_nat (Z.of_nat i * RECORD_LEN)) with (i * Z.to_nat RECORD_LEN)%nat by (unfold RECORD_LEN; lia).
    unfold index_bytes. rewrite (concat_fixed _ _ i (encode_record r) (index_chunks _)) by (by rewrite list_lookup_fmap, Hr).
    apply decode_encode_record. pose proof (ft_size _ Hf). pose proof (ft_times _ Hf).
    pose proof (records_from_ok 0 (ob_data x) ltac:(lia) ltac:(lia) ltac:(done)) as Hall.
    by eapply list.Forall_lookup_1 in Hall.
  - apply lookup_ge_None in Hr. rewrite records_from_length in Hr. rewrite (proj2 (Nat.leb_le _ _)) by done.
    exists o. split; [done|auto with flame].
Qed.

Lemma files_stat_ok f x o : handle_ok f x o -> fits x ->
  files_stat f o = (Ok (stat_of x), tick_call o).
Proof.
  intros Hh Hf. unfold files_stat, files_records, mbind, M_bind. rewrite (files_count_ok f x o Hh).
  rewrite (os_read_exact_quiet quiet _ _ (Z.of_nat (length (ob_data x)) * RECORD_LEN) 0 o (ho_index _ _ _ Hh)) by (rewrite index_len; lia).
  unfold mret, M_ret. rewrite (ho_type _ _ _ Hh). unfold stat_of. do 4 f_equal.
  rewrite drop_0, take_ge.
  2:{ pose proof (index_len x) as Hl. unfold len in Hl. lia. }
  rewrite <- (records_from_length 0 (ob_data x)). apply decode_records_fixed.
  pose proof (ft_size _ Hf). pose proof (ft_times _ Hf). apply records_from_ok; [lia|lia|done].
Qed.

Lemma slice_within (data all : bytes) start offset n :
  take (length data) (drop start all) = data -> 0 <= offset -> 0 <= n -> offset + n <= len data ->
  take (Z.to_nat n) (drop (start + Z.to_nat offset) all) = slice (offset, offset + n) data.
Proof.
  intros Hd Ho Hn Hle. unfold slice. cbn [fst snd]. replace (offset + n - offset) with n by lia.
  unfold len in Hle. rewrite <- Hd. rewrite (take_drop_commute (take _ _)), take_take.
  rewrite Nat.min_l by lia. rewrite <- take_drop_commute, drop_drop. done.
Qed.

Lemma files_read_range_ok f x i d offset n o : handle_ok f x o -> fits x -> ob_data x !! i = Some d ->
  0 <= offset -> 0 <= n -> offset + n <= data_size d ->
  exists o', files_read_range f i offset n o = (Ok (slice (offset, offset + n) (od_data d)), o') /\ same o o'.
Proof.
  intros Hh Hf Hi Ho Hn Hle. destruct (files_record_ok f x i o Hh Hf) as (o1 & Hrec & Hs1).
  pose proof (ft_size _ Hf) as Hsz. rewrite (records_from_at (ob_data x) 0 i d ltac:(lia) ltac:(lia) Hi) in Hrec.
  unfold files_read_range. rewrite (bind_Ok _ _ _ _ _ Hrec). unfold lift, mbind, M_bind. simpl.
  pose proof (Zsum_data_nonneg (take i (ob_data x))) as Hst.
  assert (Hend : Zsum data_size (take i (ob_data x)) + data_size d <= Zsum data_size (ob_data x)).
  { rewrite <- (take_drop_middle _ _ _ Hi) at 2. rewrite Zsum_app. simpl.
    pose proof (Zsum_data_nonneg (drop (S i) (ob_data x))). lia. }
  unfold payload_range, max_file_len, u64_max in *. rewrite (proj2 (Z.leb_le _ _)) by lia. rewrite (proj2 (Z.leb_le _ _)) by lia. simpl.
  rewrite wrap_u64_small by width.
  rewrite (os_read_exact_quiet quiet _ (payload x)).
  - exists (tick_call o1). split; [|auto with flame]. do 2 f_equal.
    rewrite Z2Nat.inj_add by lia. apply slice_within; [|done..].
    replace (length (od_data d)) with (Z.to_nat (data_size d)) by (unfold data_size, len; lia). by apply payload_at.
  - rewrite (sa_inodes _ _ Hs1). apply Hh.
  - rewrite payload_len. lia.
Qed.

(** What an append through [f] changes. *)
Record appended (f : ObjectFiles) (x : Object) (o o' : Os) : Prop := {
  ap_names : o_names o' = o_names o;
  ap_dirs : o_dirs o' = o_dirs o;
  ap_fresh : o_fresh o' = o_fresh o;
  ap_inodes : o_inodes o' = <[of_index f := index_bytes x]> (<[of_data f := payload x]> (o_inodes o));
  ap_counts : o_counts o' = <[of_count f := length (ob_data x)]> (o_counts o)
}.

Lemma appended_handle f x o o' : of_index f <> of_data f -> of_data_type f = ob_data_type x -> appended f x o o' -> handle_ok f x o'.
Proof.
  intros Hne Ht [_ _ _ Hi Hc]. split; [done|rewrite Hi|rewrite Hi|rewrite Hc].
  - apply lookup_insert_eq.
  - by rewrite lookup_insert_ne, lookup_insert_eq by done.
  - apply lookup_insert_eq.
Qed.

Lemma files_append_ok f x d key o : handle_ok f x o -> of_index f <> of_data f -> fits (append_part d x) ->
  exists meta o', files_append f key d o = (Ok meta, o') /\ om_key meta = key /\ appended f (append_part d x) o o'.
Proof.
  intros Hh Hne Hf. pose proof (ft_count _ Hf) as Hcount. simpl in Hcount. rewrite length_app in Hcount. simpl in Hcount.
  pose proof (ft_size _ Hf) as Hsz. simpl in Hsz. rewrite Zsum_app in Hsz. simpl in Hsz. rewrite Z.add_0_r in Hsz.
  unfold files_append. rewrite (bind_Ok _ _ _ _ _ (files_count_ok f x o Hh)).
  unfold MAX_APPENDS_PER_OBJECT. rewrite (proj2 (Z.ltb_ge _ _)) by lia.
  rewrite (bind_Ok _ _ _ _ _ (os_len_quiet quiet _ _ o (ho_data _ _ _ Hh))), payload_len. cbv zeta.
  set (o1 := tick_call o).
  rewrite (bind_Ok _ _ _ _ _ (os_append_quiet quiet _ (payload x) (od_data d) o1 (ho_data _ _ _ Hh)
    ltac:(rewrite payload_len; exact Hsz))).
  set (o2 := set_inode (of_data f) _ (tick_call o1)). rewrite (bind_Ok _ _ _ _ _ (os_sync_quiet quiet _ o2)).
  set (r := mkRecord (Zsum data_size (ob_data x)) (data_size d) (od_creation_time d)).
  assert (Hidx : o_inodes (tick_call o2) !! of_index f = Some (index_bytes x)).
  { simpl. rewrite lookup_insert_ne by done. apply Hh. }
  rewrite (bind_Ok _ _ _ _ _ (os_append_quiet quiet _ _ (encode_record r) _ Hidx
    ltac:(rewrite index_len; unfold len; rewrite encode_record_length; unfold RECORD_LEN, max_file_len; lia))).
  set (o3 := set_inode (of_index f) _ (tick_call (tick_call o2))).
  rewrite (bind_Ok _ _ _ _ _ (os_sync_quiet quiet _ o3)).
  set (o4 := set_count (of_count f) (S (default 0%nat (o_counts (tick_call o3) !! of_count f))) (tick_call o3)).
  assert (Hap : appended f (append_part d x) o o4).
  { split; [done|done|done| |].
    - simpl. rewrite (index_append x d Hf), payload_append. done.
    - simpl. rewrite (ho_count _ _ _ Hh). simpl. rewrite length_app. simpl. by rewrite Nat.add_1_r. }
  pose proof (appended_handle f (append_part d x) o o4 Hne (ho_type _ _ _ Hh) Hap) as Hh4.
  assert (Hmod : modify (fun o => set_count (of_count f) (S (default 0%nat (o_counts o !! of_count f))) o) (tick_call o3) = (Ok tt, o4)) by done.
  rewrite (bind_Ok _ _ _ _ _ Hmod), (bind_Ok _ _ _ _ _ (files_stat_ok f _ o4 Hh4 Hf)).
  assert (Htime : exists t, stat_creation_time (stat_of (append_part d x)) = Ok t).
  { unfold stat_creation_time, stat_of. simpl. destruct (ob_data x); simpl; eauto. }
  destruct Htime as [t Ht]. unfold lift, mbind, M_bind, mret, M_ret. rewrite Ht.
  eexists _, (tick_call o4). split; [done|]. split; [done|]. destruct Hap. by split.
Qed.

(** *** Opening *)

(** The files of [x] in [dir]. *)
Record object_at (o : Os) (dir : path) (x : Object) (i d : nat) : Prop := {
  oa_index : o_names o !! (dir ++ [INDEX_FILE]) = Some i;
  oa_data : o_names o !! (dir ++ [DATA_FILE]) = Some d;
  oa_meta : exists j b, o_names o !! (dir ++ [METADATA_FILE]) = Some j /\ o_inodes o !! j = Some b /\
    decode_metadata b = Some (ob_data_type x) /\ j <> i /\ j <> d;
  oa_index_bytes : o_inodes o !! i = Some (index_bytes x);
  oa_data_bytes : o_inodes o !! d = Some (payload x)
}.

Record opened (f : ObjectFiles) (x : Object) (o o' : Os) : Prop := {
  op_names : o_names o' = o_names o;
  op_dirs : o_dirs o' = o_dirs o;
  op_inodes : o_inodes o' = o_inodes o;
  op_fresh : o_fresh o' = S (o_fresh o);
  op_counts : o_counts o' = <[of_count f := length (ob_data x)]> (o_counts o);
  op_count : of_count f = o_fresh o
}.

Lemma files_open_ok o dir x i d : object_at o dir x i d -> fits x ->
  exists f o', files_open dir o = (Ok (Some f), o') /\ opened f x o o' /\ handle_ok f x o' /\ of_index f = i /\ of_data f = d.
Proof.
  intros [Hi Hd (j & b & Hj & Hb & Hdec & _ & _) Hib Hdb] Hf. unfold files_open.
  change (join_path dir INDEX_FILE) with (dir ++ [INDEX_FILE]). change (join_path dir METADATA_FILE) with (dir ++ [METADATA_FILE]).
  change (join_path dir DATA_FILE) with (dir ++ [DATA_FILE]).
  assert (Hopen : os_open (dir ++ [INDEX_FILE]) o = (Ok (OOk i), tick_call o)).
  { unfold os_open. rewrite (ocall_quiet quiet). simpl. by rewrite Hi. }
  rewrite (bind_Ok _ _ _ _ _ Hopen). set (o1 := tick_call o).
  rewrite (bind_Ok _ _ _ _ _ (os_read_quiet quiet _ j b o1 Hj Hb)). rewrite Hdec.
  assert (Hlift : forall o, @lift Os _ (ok_or (Some (ob_data_type x)) EInvalidState) o = (Ok (ob_data_type x), o)) by done.
  rewrite (bind_Ok _ _ _ _ _ (Hlift _)), (bind_Ok _ _ _ _ _ (os_open_quiet quiet _ d (tick_call o1) Hd)).
  rewrite (bind_Ok _ _ _ _ _ (os_len_quiet quiet i _ (tick_call (tick_call o1)) Hib)), index_len. cbv zeta.
  set (n := length (ob_data x)).
  assert (Hn : Z.to_nat (Z.of_nat n * RECORD_LEN / RECORD_LEN) = n).
  { rewrite Z.div_mul by (unfold RECORD_LEN; lia). lia. }
  rewrite Hn, (bind_Ok _ _ _ _ _ (os_set_len_quiet quiet i _ _ (tick_call (tick_call (tick_call o1))) Hib)).
  assert (Htake : take (Z.to_nat (Z.of_nat n * RECORD_LEN)) (index_bytes x) = index_bytes x).
  { apply take_ge. pose proof (index_len x) as Hl. unfold len in Hl. lia. }
  rewrite Htake. set (o2 := set_inode i (index_bytes x) _).
  assert (Hino : o_inodes o2 = o_inodes o) by (simpl; by apply insert_id).
  unfold gets, modify, mbind at 1 2, M_bind at 1 2.
  set (f := mkFiles (ob_data_type x) i d (o_fresh o2)). set (o3 := tick_fresh (set_count (o_fresh o2) n o2)).
  assert (Hh : handle_ok f x o3).
  { split; [done| | |]; simpl.
    - apply lookup_insert_eq.
    - change (o_inodes o2 !! d = Some (payload x)). by rewrite Hino.
    - apply lookup_insert_eq. }
  destruct (files_record_ok f x (if (n =? 0)%nat then n else n - 1) o3 Hh Hf) as (o4 & Hrec & Hs4).
  pose proof (ft_parts _ Hf) as Hne.
  assert (Hlast : exists last, ob_data x !! (n - 1)%nat = Some last).
  { apply lookup_lt_is_Some. unfold n. destruct (ob_data x); [done|]. simpl. lia. }
  destruct Hlast as [last Hlast]. pose proof (ft_size _ Hf) as Hsz.
  assert (Hn0 : (n =? 0)%nat = false) by (unfold n; by destruct (ob_data x)).
  rewrite Hn0, (records_from_at (ob_data x) 0 _ last ltac:(lia) ltac:(lia) Hlast) in Hrec. rewrite Hn0.
  rewrite (bind_Ok _ _ _ _ _ Hrec). cbv beta iota.
  assert (Hdb4 : o_inodes o4 !! d = Some (payload x)).
  { rewrite (sa_inodes _ _ Hs4). apply Hh. }
  rewrite (bind_Ok _ _ _ _ _ (os_len_quiet quiet d _ o4 Hdb4)), payload_len.
  assert (Hend : record_end (mkRecord (0 + Zsum data_size (take (n - 1) (ob_data x))) (data_size last) (od_creation_time last))
    <= Zsum data_size (ob_data x)).
  { unfold record_end. simpl. pose proof (Zsum_data_nonneg (take (n - 1) (ob_data x))).
    assert (Hsum : Zsum data_size (take (n - 1) (ob_data x)) + data_size last <= Zsum data_size (ob_data x)).
    { rewrite <- (take_drop_middle _ _ _ Hlast) at 2. rewrite Zsum_app. simpl.
      pose proof (Zsum_data_nonneg (drop (S (n - 1)) (ob_data x))). lia. }
    assert (0 <= data_size last) by (unfold data_size, len; lia). unfold max_file_len in *. rewrite wrap_u64_small by width. lia. }
  rewrite (proj2 (Z.leb_le _ _) Hend). exists f, (tick_call o4). split; [done|].
  destruct Hs4 as [E1 E2 E3 E4 E5]. split; [|split; [|done]].
  - split; simpl; rewrite ?E1, ?E2, ?E3, ?E4, ?E5; try done.
  - apply (handle_ok_same _ _ o3); [|done]. by split.
Qed.

Lemma files_open_none o dir : o_names o !! (dir ++ [INDEX_FILE]) = None -> files_open dir o = (Ok None, tick_call o).
Proof.
  intros Hi. unfold files_open, mbind, M_bind. change (join_path dir INDEX_FILE) with (dir ++ [INDEX_FILE]).
  unfold os_open. rewrite (ocall_quiet quiet). simpl. by rewrite Hi.
Qed.
End quiet.
