(* ===== verification/ObjTree.v ===== *)
(** * The directories of the object cache

    The disk under [DiskStorage] ([object_cache/src/storage/disk.rs]) holds a
    map of objects: every object has its three files in its own directory, and
    there are no other files or object directories.  Creating and deleting
    objects keeps this on a disk whose calls succeed. *)
From Stdlib Require Import Ascii.
From S2P Require Import Prelude Types Engine FsDisk FsRecord ObjKey ObjStore ObjOs ObjDisk ObjDiskInv.
Local Open Scope Z_scope.

(** ** Paths *)

Lemma parent_snoc (p : path) a : parent (p ++ [a]) = p.
Proof. unfold parent. rewrite length_app. simpl. rewrite Nat.add_sub. by apply take_app_length. Qed.

Lemma under_spec dir p : under dir p = true <-> exists r, p = dir ++ r.
Proof. unfold under. rewrite bool_decide_eq_true. done. Qed.

Lemma under_app dir r : under dir (dir ++ r) = true.
Proof. apply under_spec. eauto. Qed.

Lemma under_same_length dir p : length p = length dir -> under dir p = true -> p = dir.
Proof.
  intros Hl [r ->]%under_spec. rewrite length_app in Hl. destruct r; [by rewrite app_nil_r|simpl in Hl; lia].
Qed.

Lemma os_children_empty dir o :
  (forall r, r <> [] -> dir ++ r ∉ o_dirs o) -> (forall r i, r <> [] -> o_names o !! (dir ++ r) <> Some i) ->
  os_children dir o = ∅.
Proof.
  intros Hd Hn. unfold os_children. apply leibniz_equiv. intros s. rewrite elem_of_empty. split; [|done].
  rewrite elem_of_list_to_set, list_elem_of_omap. intros (p & Hp & Hc). unfold child_of in Hc.
  destruct (under dir p) eqn:Hu; [|done]. apply under_spec in Hu as [r ->].
  rewrite drop_app_length in Hc. destruct r as [|a r]; [done|].
  apply elem_of_app in Hp as [Hp%elem_of_elements|Hp]; [by apply (Hd (a :: r))|].
  apply list_elem_of_fmap in Hp as ([q i] & Hq & Hi%elem_of_map_to_list). simpl in Hq. subst q.
  exact (Hn (a :: r) i ltac:(done) Hi).
Qed.

Lemma os_children_elem dir a r o : (dir ++ a :: r ∈ o_dirs o \/ exists i, o_names o !! (dir ++ a :: r) = Some i) ->
  os_children dir o <> ∅.
Proof.
  intros Hp He. assert (Hin : a ∈ os_children dir o).
  { unfold os_children. apply elem_of_list_to_set, list_elem_of_omap. exists (dir ++ a :: r). split.
    - apply elem_of_app. destruct Hp as [Hp|[i Hi]]; [left; by apply elem_of_elements|right].
      apply list_elem_of_fmap. exists (dir ++ a :: r, i). by rewrite elem_of_map_to_list.
    - unfold child_of. by rewrite under_app, drop_app_length. }
  rewrite He in Hin. by apply elem_of_empty in Hin.
Qed.

(** *** Renaming a directory *)

Section move.
Context (src dst : path) (o : Os).
Hypothesis Hsrc : under src dst = false.
Hypothesis Hdst : under dst src = false.
Hypothesis Hnames : forall p i, o_names o !! p = Some i -> under dst p = false.
Hypothesis Hdirs : forall p, p ∈ o_dirs o -> under dst p = false.

Lemma relocate_in r : relocate src dst (src ++ r) = dst ++ r.
Proof. unfold relocate. by rewrite under_app, drop_app_length. Qed.
Lemma relocate_self : relocate src dst src = dst.
Proof. rewrite <- (app_nil_r src) at 2. rewrite relocate_in. apply app_nil_r. Qed.
Lemma relocate_out p : under src p = false -> relocate src dst p = p.
Proof. unfold relocate. by intros ->. Qed.

Lemma relocate_inj p q : under dst p = false -> under dst q = false -> relocate src dst p = relocate src dst q -> p = q.
Proof.
  intros Hp Hq. unfold relocate. destruct (under src p) eqn:Sp, (under src q) eqn:Sq; [| | |done].
  - apply under_spec in Sp as [r ->], Sq as [r' ->]. rewrite !drop_app_length. intros Heq. by apply app_inv_head in Heq as ->.
  - intros Heq. rewrite <- Heq, under_app in Hq. done.
  - intros Heq. rewrite Heq, under_app in Hp. done.
Qed.

Lemma move_lookup q i : o_names (move src dst o) !! q = Some i <->
  exists p, o_names o !! p = Some i /\ q = relocate src dst p.
Proof.
  unfold move. simpl. rewrite <- elem_of_list_to_map.
  - rewrite list_elem_of_fmap. split.
    + intros ([p j] & Hq & Hp%elem_of_map_to_list). simpl in Hq. injection Hq as -> ->. eauto.
    + intros (p & Hp & ->). exists (p, i). by rewrite elem_of_map_to_list.
  - replace (prod_map (relocate src dst) id <$> map_to_list (o_names o)).*1 with (relocate src dst <$> (map_to_list (o_names o)).*1)
      by (by rewrite <- !list_fmap_compose).
    apply NoDup_fmap_2_strong; [|apply NoDup_fst_map_to_list].
    intros p1 p2 ([p1' i1] & -> & Hp%elem_of_map_to_list)%list_elem_of_fmap ([p2' i2] & -> & Hq%elem_of_map_to_list)%list_elem_of_fmap.
    apply relocate_inj; [by eapply Hnames|by eapply Hnames].
Qed.

Lemma move_dirs q : q ∈ o_dirs (move src dst o) <-> exists p, p ∈ o_dirs o /\ q = relocate src dst p.
Proof. unfold move. simpl. rewrite elem_of_map. naive_solver. Qed.
End move.

(** ** The tree of the objects *)

(** The keys the disk can tell apart: no component is the directory itself, and
    no object looks like one that is being created. *)
Record plain (key : ObjectKey) : Prop := {
  pl_app : app_name key <> ".";
  pl_session : session_id key <> ".";
  pl_object : forall id, object_id key = Some id -> starts_with "." id = false
}.

Section tree.
Context `{Disk, Env, Json}.
Variable root : path.

Definition dir_of (key : ObjectKey) : path :=
  root ++ [app_name key; session_id key; default "" (object_id key)].

Lemma app_dir_plain key : plain key -> app_dir root key = root ++ [app_name key].
Proof. intros Hp. unfold app_dir, join_path. rewrite bool_decide_eq_false_2; [done|apply Hp]. Qed.

Lemma session_dir_plain key : plain key -> session_dir root key = root ++ [app_name key; session_id key].
Proof.
  intros Hp. unfold session_dir. rewrite (app_dir_plain key Hp). unfold join_path.
  rewrite bool_decide_eq_false_2 by apply Hp. by rewrite <- app_assoc.
Qed.

Lemma object_dir_plain key k : plain key -> object_key key k -> object_dir root key = Ok (dir_of key).
Proof.
  intros Hp Hk. destruct (object_key_object key k Hk) as (id & Hid & _). unfold object_dir, dir_of.
  rewrite Hid, (session_dir_plain key Hp). unfold join_path. rewrite bool_decide_eq_false_2.
  - by rewrite <- app_assoc.
  - intros ->. by pose proof (pl_object _ Hp _ Hid).
Qed.

Lemma dir_of_inj key1 key2 k1 k2 : object_key key1 k1 -> object_key key2 k2 -> dir_of key1 = dir_of key2 -> key1 = key2.
Proof.
  intros K1 K2 Hd. apply app_inv_head in Hd. destruct (object_key_object _ _ K1) as (id1 & Hid1 & _).
  destruct (object_key_object _ _ K2) as (id2 & Hid2 & _). rewrite Hid1, Hid2 in Hd. simpl in Hd.
  destruct key1, key2. simpl in *. by simplify_eq.
Qed.

(** An object of [m] and its key. *)
Definition stored (m : objects) (key : ObjectKey) (x : Object) : Prop :=
  exists k, object_key key k /\ plain key /\ m !! k = Some x.

Record tree_ok (o : Os) (m : objects) : Prop := {
  tr_inj : forall p q i, o_names o !! p = Some i -> o_names o !! q = Some i -> p = q;
  tr_live : forall p i, o_names o !! p = Some i -> (i < o_fresh o)%nat;
  tr_inodes : forall i c, o_inodes o !! i = Some c -> (i < o_fresh o)%nat;
  tr_counts : forall h n, o_counts o !! h = Some n -> (h < o_fresh o)%nat;
  tr_objects : forall k x, m !! k = Some x -> fits x /\
    exists key i d, object_key key k /\ plain key /\ object_at o (dir_of key) x i d;
  tr_dirs : forall key x, stored m key x ->
    root ++ [app_name key] ∈ o_dirs o /\ root ++ [app_name key; session_id key] ∈ o_dirs o /\ dir_of key ∈ o_dirs o;
  tr_names : forall r i, o_names o !! (root ++ r) = Some i ->
    exists key x file, stored m key x /\ root ++ r = dir_of key ++ [file];
  tr_above : forall p, p `prefix_of` root -> o_names o !! p = None;
  tr_deep : forall r, root ++ r ∈ o_dirs o -> (3 <= length r)%nat ->
    exists key x, stored m key x /\ root ++ r = dir_of key
}.

Lemma stored_key m key x k : stored m key x -> object_key key k -> m !! k = Some x.
Proof. intros (k' & Hk' & _ & Hm) Hk. destruct Hk, Hk'. by simplify_eq. Qed.

Lemma dir_of_length key : length (dir_of key) = (length root + 3)%nat.
Proof. unfold dir_of. by rewrite length_app. Qed.

(** *** Names and directories outside the objects *)

Lemma tree_no_file o m r i : tree_ok o m -> (length r < 4)%nat -> o_names o !! (root ++ r) <> Some i.
Proof.
  intros Ht Hl Hi. destruct (tr_names _ _ Ht _ _ Hi) as (key & x & file & _ & Heq).
  apply (f_equal length) in Heq. rewrite !length_app, dir_of_length in Heq. simpl in Heq. lia.
Qed.

Lemma tree_absent o m key k : tree_ok o m -> object_key key k -> m !! k = None -> path_exists (dir_of key) o = false.
Proof.
  intros Ht Hk Hm. unfold path_exists. apply orb_false_iff. split; apply bool_decide_eq_false.
  - intros Hin. destruct (tr_deep _ _ Ht _ Hin) as (key' & x & Hst & Hd); [done|].
    pose proof Hst as (k' & Hk' & _). rewrite (dir_of_inj _ _ _ _ Hk Hk' Hd) in Hk. by rewrite (stored_key _ _ _ _ Hst Hk) in Hm.
  - intros [i Hi]. by apply (tree_no_file o m _ i) in Hi; [|done|simpl; lia].
Qed.

Lemma tree_nothing_below o m key k r : tree_ok o m -> object_key key k -> m !! k = None ->
  dir_of key ++ r ∉ o_dirs o /\ forall i, o_names o !! (dir_of key ++ r) <> Some i.
Proof.
  intros Ht Hk Hm. unfold dir_of. rewrite <- app_assoc.
  assert (Hno : forall key' x, stored m key' x -> dir_of key = dir_of key' -> False).
  { intros key' x Hst Hd. pose proof Hst as (k' & Hk' & _). rewrite (dir_of_inj _ _ _ _ Hk Hk' Hd) in Hk.
    by rewrite (stored_key _ _ _ _ Hst Hk) in Hm. }
  assert (Hpre : forall r', root ++ [app_name key; session_id key; default "" (object_id key)] ++ r = root ++ r' ->
    forall key' t, root ++ r' = dir_of key' ++ t -> dir_of key = dir_of key').
  { intros r' Hr' key' t Ht'. rewrite <- Hr' in Ht'. unfold dir_of in *. rewrite <- app_assoc in Ht'.
    apply app_inv_head in Ht'. injection Ht' as E1 E2 E3 _. by rewrite E1, E2, E3. }
  split.
  - intros Hin. destruct (tr_deep _ _ Ht _ Hin) as (key' & x & Hst & Hd); [rewrite length_app; simpl; lia|].
    apply (Hno key' x Hst). apply (Hpre _ eq_refl key' []). by rewrite app_nil_r.
  - intros i Hi. destruct (tr_names _ _ Ht _ _ Hi) as (key' & x & file & Hst & Hd).
    apply (Hno key' x Hst). by apply (Hpre _ eq_refl key' [file]).
Qed.

(** *** Reading, opening and appending *)

Lemma object_at_frame o o' dir x i d : object_at o dir x i d ->
  (forall file, o_names o' !! (dir ++ [file]) = o_names o !! (dir ++ [file])) ->
  (forall file i, o_names o !! (dir ++ [file]) = Some i -> o_inodes o' !! i = o_inodes o !! i) ->
  object_at o' dir x i d.
Proof.
  intros [Hi Hd (j & b & Hj & Hb & Hrest) Hib Hdb] Hn Hin. split; [by rewrite Hn|by rewrite Hn| | |].
  - exists j, b. rewrite Hn, (Hin _ _ Hj). done.
  - by rewrite (Hin _ _ Hi).
  - by rewrite (Hin _ _ Hd).
Qed.

Lemma tree_frame o o' m : tree_ok o m -> o_names o' = o_names o ->
  (forall r, root ++ r ∈ o_dirs o' -> root ++ r ∈ o_dirs o \/ (length r < 3)%nat) -> o_dirs o ⊆ o_dirs o' ->
  (forall i, (i < o_fresh o)%nat -> o_inodes o' !! i = o_inodes o !! i) -> (o_fresh o <= o_fresh o')%nat ->
  (forall i c, o_inodes o' !! i = Some c -> (i < o_fresh o')%nat) ->
  (forall h n, o_counts o' !! h = Some n -> (h < o_fresh o')%nat) -> tree_ok o' m.
Proof.
  intros [T1 T0 T2 T3 T4 T5 T6 T7 T8] En Ed Ed' Ei Ef Hi' Hc. split; rewrite ?En; try done.
  - intros p i Hp. pose proof (T0 _ _ Hp). lia.
  - intros k x Hk. destruct (T4 k x Hk) as (Hf & key & i & d & Hkey & Hp & Hat). split; [done|]. exists key, i, d.
    split_and!; [done|done|]. eapply object_at_frame; [done|by rewrite En|]. intros file n Hn. by eapply Ei, T0.
  - intros key x Hs. destruct (T5 key x Hs) as (? & ? & ?). auto.
  - intros r [Hr|Hr]%Ed Hl; [by apply T8|lia].
Qed.

Lemma tree_same o o' m : same o o' -> tree_ok o m -> tree_ok o' m.
Proof.
  intros [E1 E2 E3 E4 E5] Ht. eapply tree_frame; [done|done| | | | | |]; rewrite ?E2, ?E3, ?E4, ?E5; auto.
  - apply (tr_inodes _ _ Ht).
  - apply (tr_counts _ _ Ht).
Qed.

Lemma tree_opened f x o o' m : opened f x o o' -> tree_ok o m -> tree_ok o' m.
Proof.
  intros [E1 E2 E3 E4 E5 E6] Ht. eapply tree_frame; [done|done| | | | | |]; rewrite ?E2, ?E3, ?E4; auto.
  - intros i c Hi. pose proof (tr_inodes _ _ Ht _ _ Hi). lia.
  - rewrite E5, E6. intros h n [[<- _]|[_ Hh]]%lookup_insert_Some; [lia|]. pose proof (tr_counts _ _ Ht _ _ Hh). lia.
Qed.

Lemma object_at_inodes o m dir x i d : tree_ok o m -> object_at o dir x i d -> i <> d.
Proof.
  intros Ht [Hi Hd _ _ _] ->. pose proof (tr_inj _ _ Ht _ _ _ Hi Hd) as Heq. by apply app_inv_head in Heq.
Qed.

Lemma stored_insert m k y key x : stored m key x -> exists x', stored (<[k := y]> m) key x'.
Proof.
  intros (k' & Hk & Hp & Hm). destruct (decide (k = k')) as [->|Hne].
  - exists y, k'. by rewrite lookup_insert_eq.
  - exists x, k'. by rewrite lookup_insert_ne.
Qed.

(** A write to the files of one object leaves the other directories alone. *)
Lemma appended_other o o' m f dir x x' dir' file i :
  tree_ok o m -> object_at o dir x (of_index f) (of_data f) -> appended f x' o o' -> dir' <> dir ->
  o_names o !! (dir' ++ [file]) = Some i -> o_inodes o' !! i = o_inodes o !! i.
Proof.
  intros Ht [Hi Hd _ _ _] Hap Hne Hf. rewrite (ap_inodes _ _ _ _ Hap), !lookup_insert_ne; [done| |]; intros <-; apply Hne.
  - pose proof (tr_inj _ _ Ht _ _ _ Hf Hd) as Heq. by apply app_inj_tail in Heq as [-> _].
  - pose proof (tr_inj _ _ Ht _ _ _ Hf Hi) as Heq. by apply app_inj_tail in Heq as [-> _].
Qed.

Lemma tree_appended f key k x x' o o' m :
  tree_ok o m -> object_key key k -> plain key -> m !! k = Some x ->
  object_at o (dir_of key) x (of_index f) (of_data f) -> (of_count f < o_fresh o)%nat -> fits x' -> ob_data_type x' = ob_data_type x ->
  appended f x' o o' -> tree_ok o' (<[k := x']> m).
Proof.
  intros Ht Hk Hp Hm Hat Hcnt Hf Hty Hap. pose proof Hap as [En Ed Ef Ei Ec]. pose proof (object_at_inodes _ _ _ _ _ _ Ht Hat) as Hne.
  pose proof Hat as [Hi Hd (j & b & Hj & Hb & Hdec & Hji & Hjd) Hib Hdb].
  assert (Hst : forall key' y, stored (<[k := x']> m) key' y -> exists y', stored m key' y').
  { intros key' y (k' & Hk' & Hp' & Hm'). apply lookup_insert_Some in Hm' as [[<- _]|[_ Hm']]; [|exists y; by exists k'].
    exists x. by exists k. }
  pose proof Ht as [T1 T0 T2 T3 T4 T5 T6 T7 T8]. split.
  - by rewrite En.
  - by rewrite En, Ef.
  - intros i c. rewrite Ei, Ef. intros [[<- _]|[_ [[<- _]|[_ Hic]]%lookup_insert_Some]]%lookup_insert_Some; [by eapply T2..].
  - intros h n. rewrite Ec, Ef. intros [[<- _]|[_ Hh]]%lookup_insert_Some; [done|by eapply T3].
  - intros k' y [[<- <-]|[Hkk Hk']]%lookup_insert_Some.
    + split; [done|]. exists key, (of_index f), (of_data f). split_and!; [done|done|]. split; rewrite ?En; [done|done| | |].
      * exists j, b. rewrite Hty. split_and!; try done. by rewrite Ei, !lookup_insert_ne.
      * rewrite Ei. apply lookup_insert_eq.
      * rewrite Ei, lookup_insert_ne by done. apply lookup_insert_eq.
    + destruct (T4 k' y Hk') as (Hfy & key' & i & d & Hkey' & Hp' & Hat'). split; [done|]. exists key', i, d.
      split_and!; [done|done|]. eapply object_at_frame; [done|by rewrite En|]. intros file n.
      apply (appended_other o o' m f (dir_of key) x x' _ _ _ Ht Hat Hap). intros Heq. apply Hkk.
      rewrite (dir_of_inj _ _ _ _ Hkey' Hk Heq) in Hkey'. destruct Hkey', Hk. by simplify_eq.
  - intros key' y Hs. destruct (Hst _ _ Hs) as [y' Hy']. rewrite Ed. by eapply T5.
  - intros r i. rewrite En. intros Hr. destruct (T6 r i Hr) as (key' & y & file & Hs & Heq).
    destruct (stored_insert m k x' key' y Hs) as [y' Hy']. by exists key', y', file.
  - by rewrite En.
  - intros r. rewrite Ed. intros Hr Hl. destruct (T8 r Hr Hl) as (key' & y & Hs & Heq).
    destruct (stored_insert m k x' key' y Hs) as [y' Hy']. by exists key', y'.
Qed.
End tree.
