(* ===== verification/ObjCreate.v ===== *)
(** * Creating objects on disk

    [write_stream] of [DiskStorage] ([object_cache/src/storage/disk.rs]) on a
    disk whose calls succeed: the tree of the objects gains exactly the object
    created, and a stream that fails leaves it as it was. *)
From Stdlib Require Import Ascii.
From S2P Require Import Prelude Types Engine FsDisk FsRecord ObjKey ObjStore ObjOs ObjDisk ObjDiskInv ObjTree.
Local Open Scope Z_scope.

(** Equality up to the number of calls lifts through the operations. *)
Lemma same_set_inode i c o o' : same o o' -> same (set_inode i c o) (set_inode i c o').
Proof. intros []. split; simpl; congruence. Qed.

Lemma same_move src dst o o' : same o o' -> same (move src dst o) (move src dst o').
Proof. intros [E1 E2 E3 E4 E5]. split; simpl; try done; by rewrite ?E1, ?E2. Qed.

Lemma same_prune dir keep o o' : same o o' -> same (prune dir keep o) (prune dir keep o').
Proof. intros [E1 E2 E3 E4 E5]. split; simpl; try done; by rewrite ?E1, ?E2. Qed.

Lemma same_set_set i c c' o : same (set_inode i c' (set_inode i c o)) (set_inode i c' o).
Proof. split; simpl; try done. by rewrite insert_insert_eq. Qed.

Section create.
Context `{Disk, Env, Json}.
Hypothesis quiet : forall n, io_fault n = None.

Lemma os_create_dir_quiet p o : parent p ∈ o_dirs o -> path_exists p o = false ->
  io_try (os_create_dir p) o = (Ok tt, set_dirs ({[p]} ∪ o_dirs o) (tick_call o)).
Proof.
  intros Hp He. apply (io_try_quiet quiet). simpl. rewrite bool_decide_eq_true_2 by done. simpl.
  change (path_exists p (tick_call o)) with (path_exists p o). by rewrite He.
Qed.

(** A new empty file. *)
Definition touched (p : path) (o : Os) : Os :=
  tick_fresh (set_inode (o_fresh o) [] (set_names (<[p := o_fresh o]> (o_names o)) o)).

Lemma os_create_new_quiet p o : parent p ∈ o_dirs o -> path_exists p o = false ->
  io_try (os_create_new p) o = (Ok (o_fresh o), touched p (tick_call o)).
Proof.
  intros Hp He. apply (io_try_quiet quiet). simpl. rewrite bool_decide_eq_true_2 by done. simpl.
  change (path_exists p (tick_call o)) with (path_exists p o). by rewrite He.
Qed.

(** A new file with its bytes. *)
Definition filled (p : path) (c : bytes) (o : Os) : Os := set_inode (o_fresh o) c (touched p o).

Lemma write_synced_quiet p data o : parent p ∈ o_dirs o -> path_exists p o = false -> len data <= max_file_len ->
  exists o', write_synced p data o = (Ok tt, o') /\ same (filled p data o) o'.
Proof.
  intros Hp He Hl. unfold write_synced. rewrite (bind_Ok _ _ _ _ _ (os_create_new_quiet p o Hp He)).
  assert (Hi : o_inodes (touched p (tick_call o)) !! o_fresh o = Some []) by (simpl; apply lookup_insert_eq).
  rewrite (bind_Ok _ _ _ _ _ (os_append_quiet quiet _ _ data _ Hi Hl)), (os_sync_quiet quiet).
  eexists. split; [done|]. split; simpl; done.
Qed.

Lemma receive_quiet i chunks : forall size c data o,
  o_inodes o !! i = Some c -> drain chunks = Ok data -> 0 <= size -> size + len data <= max_file_len ->
  len c + len data <= max_file_len ->
  exists o', receive i size chunks o = (Ok (size + len data), o') /\ same (set_inode i (c ++ data) o) o'.
Proof.
  induction chunks as [|ch chunks IH]; intros size c data o Hi Hd Hs Hle Hc.
  { injection Hd as <-. exists o. simpl. rewrite Z.add_0_r, app_nil_r. split; [done|]. split; simpl; try done.
    symmetry. by apply insert_id. }
  simpl in Hd. destruct ch as [b|e|]; [|done|done]. simpl in Hd. destruct (drain chunks) as [rest|e|] eqn:Hr; [|done|done].
  injection Hd as <-. unfold len in Hle, Hc. rewrite length_app in Hle, Hc. unfold max_file_len in *.
  cbn [receive]. rewrite (bind_Ok _ _ _ _ _ (os_append_quiet quiet i c b o Hi ltac:(unfold len, max_file_len; lia))).
  rewrite wrap_u64_small by (unfold len; width).
  destruct (IH (size + len b) (c ++ b) rest (set_inode i (c ++ b) (tick_call o))) as (o' & Hrun & Hsame).
  - simpl. apply lookup_insert_eq.
  - done.
  - unfold len. lia.
  - unfold len, max_file_len. lia.
  - unfold len, max_file_len. rewrite length_app. lia.
  - exists o'. rewrite Hrun. split; [unfold len; rewrite length_app; do 2 f_equal; lia|].
    eapply same_trans; [|exact Hsame]. rewrite app_assoc. split; simpl; try done. by rewrite insert_insert_eq.
Qed.

Lemma receive_broken i chunks : forall size c e o,
  o_inodes o !! i = Some c -> drain chunks = Err e ->
  exists err c' o', receive i size chunks o = (Err err, o') /\ same (set_inode i c' o) o'.
Proof.
  induction chunks as [|ch chunks IH]; intros size c e o Hi Hd; [done|]. simpl in Hd. cbn [receive].
  destruct ch as [b|e'|]; [|exists EInternal, c, o; split; [done|]; split; simpl; try done; symmetry; by apply insert_id|done].
  simpl in Hd. destruct (drain chunks) as [rest|e'|] eqn:Hr; [done| |done].
  destruct (Z.le_gt_cases (len c + len b) max_file_len) as [Hle|Hgt].
  - rewrite (bind_Ok _ _ _ _ _ (os_append_quiet quiet i c b o Hi Hle)).
    destruct (IH (wrap_u64 (size + len b)) (c ++ b) e' (set_inode i (c ++ b) (tick_call o))) as (err & c' & o' & Hrun & Hsame);
      [simpl; apply lookup_insert_eq|done|].
    exists err, c', o'. split; [done|]. eapply same_trans; [|exact Hsame]. split; simpl; try done. by rewrite insert_insert_eq.
  - exists EStorage, c, (tick_call o). split.
    + unfold io_try, os_append, mbind, M_bind. rewrite (ocall_quiet quiet). simpl. rewrite Hi.
      by rewrite (proj2 (Z.ltb_lt _ _) Hgt).
    + split; simpl; try done. symmetry. by apply insert_id.
Qed.

Lemma os_rename_quiet src dst o : src ∈ o_dirs o -> parent dst ∈ o_dirs o -> o_names o !! dst = None ->
  under src dst = false -> os_children dst o = ∅ ->
  os_rename_dir src dst o = (Ok (OOk tt), move src dst (tick_call o)).
Proof.
  intros H1' H2' H3 H4 H5. unfold os_rename_dir. rewrite (ocall_quiet quiet). simpl.
  rewrite !bool_decide_eq_true_2 by done. simpl. rewrite bool_decide_eq_false_2 by (rewrite H3; by intros [? [=]]).
  rewrite H4. simpl. change (os_children dst (tick_call o)) with (os_children dst o).
  rewrite bool_decide_eq_false_2 by (rewrite H5; by intros ?). done.
Qed.

(** The directory of a new object before it gets its name. *)
Definition staged (temp : path) (data index meta : bytes) (o : Os) : Os :=
  filled (temp ++ [METADATA_FILE]) meta (filled (temp ++ [INDEX_FILE]) index
    (filled (temp ++ [DATA_FILE]) data (set_dirs ({[temp]} ∪ o_dirs o) o))).

(** [temp] is free and [dst] can be taken. *)
Record can_create (temp dst : path) (o : Os) : Prop := {
  cc_parent : parent temp ∈ o_dirs o;
  cc_temp : path_exists temp o = false;
  cc_files : forall file, path_exists (temp ++ [file]) o = false;
  cc_dst_parent : parent dst ∈ o_dirs o;
  cc_dst : o_names o !! dst = None;
  cc_apart : under temp dst = false /\ under dst temp = false;
  cc_below : (forall r, r <> [] -> dst ++ r ∉ o_dirs o) /\ (forall r i, r <> [] -> o_names o !! (dst ++ r) <> Some i)
}.

Lemma path_exists_same p o o' : same o o' -> path_exists p o' = path_exists p o.
Proof. intros [E1 E2 _ _ _]. unfold path_exists. by rewrite E1, E2. Qed.

Lemma path_exists_filled p q c o : p <> q -> path_exists p o = false -> path_exists p (filled q c o) = false.
Proof. intros Hne He. unfold path_exists in *. simpl. by rewrite lookup_insert_ne. Qed.

Lemma staged_children temp dst data index meta o : can_create temp dst o ->
  os_children dst (staged temp data index meta o) = ∅.
Proof.
  intros [_ _ _ _ _ [_ Hap] [Hb1 Hb2]]. apply os_children_empty; simpl.
  - intros r Hr [Hin%elem_of_singleton|Hin]%elem_of_union; [|by apply (Hb1 r)].
    rewrite <- Hin, under_app in Hap. done.
  - intros r i Hr Hi.
    assert (Hne : forall file, dst ++ r <> temp ++ [file]).
    { intros file Heq. destruct (exists_last Hr) as (r' & a & ->). rewrite app_assoc in Heq.
      apply app_inj_tail in Heq as [Heq _]. rewrite <- Heq, under_app in Hap. done. }
    rewrite !lookup_insert_ne in Hi by (symmetry; apply Hne). by apply (Hb2 r i Hr).
Qed.

Lemma same_filled p c o o' : same o o' -> same (filled p c o) (filled p c o').
Proof. intros [E1 E2 E3 E4 E5]. split; simpl; congruence. Qed.

Lemma path_exists_added p d o : p <> d -> path_exists p o = false -> path_exists p (set_dirs ({[d]} ∪ o_dirs o) o) = false.
Proof.
  intros Hne He. unfold path_exists in *. simpl. apply orb_false_iff in He as [Hd Hn]. apply orb_false_iff. split; [|done].
  apply bool_decide_eq_false in Hd. apply bool_decide_eq_false. set_solver.
Qed.

Lemma snoc_ne (p : path) a : p ++ [a] <> p.
Proof. intros Heq. apply (f_equal length) in Heq. rewrite length_app in Heq. simpl in Heq. lia. Qed.

Lemma os_children_same dir o o' : same o o' -> os_children dir o' = os_children dir o.
Proof. intros [E1 E2 _ _ _]. unfold os_children. by rewrite E1, E2. Qed.

(** The payload file of a new object. *)
Lemma create_payload temp dst o :
  can_create temp dst o ->
  exists o', (io_try (os_create_dir temp) ≫= fun _ => io_try (os_create_new (join_path temp DATA_FILE))) o =
    (Ok (o_fresh o), o') /\ same (touched (temp ++ [DATA_FILE]) (set_dirs ({[temp]} ∪ o_dirs o) o)) o'.
Proof.
  intros [Hp Ht Hf _ _ _ _]. rewrite (bind_Ok _ _ _ _ _ (os_create_dir_quiet temp o Hp Ht)).
  change (join_path temp DATA_FILE) with (temp ++ [DATA_FILE]).
  rewrite os_create_new_quiet.
  - eexists. split; [done|]. by split.
  - rewrite parent_snoc. simpl. set_solver.
  - rewrite (path_exists_same _ (set_dirs ({[temp]} ∪ o_dirs o) o)) by (by split).
    apply path_exists_added; [apply snoc_ne|apply Hf].
Qed.

Lemma create_object_quiet temp dst meta chunks data b o :
  can_create temp dst o -> drain chunks = Ok data -> len data <= max_file_len ->
  encode_metadata (om_data_type meta) = Some b -> len b <= max_file_len ->
  exists o', create_object temp dst meta chunks o = (Ok (len data), o') /\
    same (move temp dst (staged temp data (encode_record (mkRecord 0 (len data) (om_creation_time meta))) b o)) o'.
Proof.
  intros Hcc Hd Hl Hb Hlb. pose proof Hcc as [Hp Ht Hf Hdp Hdst [Hap1 Hap2] Hbelow].
  destruct (create_payload temp dst o Hcc) as (o1 & Hpay & Hs1). unfold create_object.
  set (base := set_dirs ({[temp]} ∪ o_dirs o) o) in *. set (file := join_path temp DATA_FILE) in *.
  assert (Hfiles : forall g, path_exists (temp ++ [g]) base = false).
  { intros g. apply path_exists_added; [apply snoc_ne|apply Hf]. }
  apply bind_inv_Ok in Hpay as ([] & o0 & Hc1 & Hc2). rewrite (bind_Ok _ _ _ _ _ Hc1), (bind_Ok _ _ _ _ _ Hc2).
  destruct (receive_quiet (o_fresh o) chunks 0 [] data o1) as (o2 & Hrec & Hs2);
    [rewrite (sa_inodes _ _ Hs1); simpl; apply lookup_insert_eq|done|lia|lia|unfold len at 1; simpl; lia|].
  rewrite (bind_Ok _ _ _ _ _ Hrec), (bind_Ok _ _ _ _ _ (os_sync_quiet quiet _ _)). rewrite Z.add_0_l.
  assert (S2 : same (filled (temp ++ [DATA_FILE]) data base) (tick_call o2)).
  { apply same_tick. eapply same_trans; [|exact Hs2]. apply (same_set_inode (o_fresh o) data _ _ Hs1). }
  destruct (write_synced_quiet (temp ++ [INDEX_FILE]) (encode_record (mkRecord 0 (len data) (om_creation_time meta))) (tick_call o2))
    as (o3 & Hw1 & Hs3).
  { rewrite parent_snoc, (sa_dirs _ _ S2). simpl. set_solver. }
  { rewrite (path_exists_same _ _ _ S2). apply path_exists_filled; [intros ?%app_inv_head; done|apply Hfiles]. }
  { unfold len. rewrite encode_record_length. unfold RECORD_LEN, max_file_len. lia. }
  change (join_path temp INDEX_FILE) with (temp ++ [INDEX_FILE]). rewrite (bind_Ok _ _ _ _ _ Hw1), Hb.
  assert (S3 := same_trans _ _ _ (same_filled _ _ _ _ S2) Hs3).
  assert (Hlift : @lift Os _ (ok_or (Some b) EInternal) o3 = (Ok b, o3)) by done. rewrite (bind_Ok _ _ _ _ _ Hlift).
  destruct (write_synced_quiet (temp ++ [METADATA_FILE]) b o3) as (o4 & Hw2 & Hs4).
  { rewrite parent_snoc, (sa_dirs _ _ S3). simpl. set_solver. }
  { rewrite (path_exists_same _ _ _ S3).
    apply path_exists_filled; [intros ?%app_inv_head; done|]. apply path_exists_filled; [intros ?%app_inv_head; done|apply Hfiles]. }
  { done. }
  change (join_path temp METADATA_FILE) with (temp ++ [METADATA_FILE]). rewrite (bind_Ok _ _ _ _ _ Hw2).
  assert (S4 := same_trans _ _ _ (same_filled _ _ _ _ S3) Hs4). fold (staged temp data (encode_record (mkRecord 0 (len data) (om_creation_time meta))) b o) in S4.
  assert (Hren : os_rename_dir temp dst o4 = (Ok (OOk tt), move temp dst (tick_call o4))).
  { apply os_rename_quiet; [..|done|].
    - rewrite (sa_dirs _ _ S4). simpl. set_solver.
    - rewrite (sa_dirs _ _ S4). simpl. set_solver.
    - rewrite (sa_names _ _ S4). simpl.
      assert (Hne : forall g, temp ++ [g] <> dst) by (intros g <-; by rewrite under_app in Hap1).
      by rewrite !lookup_insert_ne by apply Hne.
    - rewrite (os_children_same _ _ _ S4). by apply staged_children. }
  rewrite (bind_Ok _ _ _ _ _ Hren). eexists. split; [done|]. apply same_move, same_tick, S4.
Qed.

(** ** The tree after a creation *)

Section created.
Context (root : path) (o : Os) (m : objects) (key : ObjectKey) (k t : string).
Hypothesis Htree : tree_ok root o m.
Hypothesis Hkey : object_key key k.
Hypothesis Hplain : plain key.
Hypothesis Hnew : m !! k = None.
Hypothesis Hdot : starts_with "." t = true.

Definition temp_of : path := root ++ [app_name key; session_id key; t].

Lemma dir_of_temp key' k' r s : object_key key' k' -> plain key' -> dir_of root key' ++ r <> temp_of ++ s.
Proof.
  intros Hk' Hp' Heq. unfold dir_of, temp_of in Heq. rewrite <- !app_assoc in Heq. apply app_inv_head in Heq.
  injection Heq as _ _ Hid _. destruct (object_key_object _ _ Hk') as (id & Hoid & _). rewrite Hoid in Hid. simpl in Hid.
  pose proof (pl_object _ Hp' _ Hoid). congruence.
Qed.

Lemma temp_free r : temp_of ++ r ∉ o_dirs o /\ forall i, o_names o !! (temp_of ++ r) <> Some i.
Proof.
  unfold temp_of. rewrite <- app_assoc. split.
  - intros Hin. destruct (tr_deep _ _ _ Htree _ Hin) as (key' & x & (k' & Hk' & Hp' & _) & Heq); [rewrite length_app; simpl; lia|].
    apply (dir_of_temp key' k' [] r Hk' Hp'). unfold temp_of. rewrite app_nil_r, <- Heq. by rewrite <- app_assoc.
  - intros i Hi. destruct (tr_names _ _ _ Htree _ _ Hi) as (key' & x & file & (k' & Hk' & Hp' & _) & Heq).
    apply (dir_of_temp key' k' [file] r Hk' Hp'). unfold temp_of. rewrite <- Heq. by rewrite <- app_assoc.
Qed.

Lemma temp_apart : under temp_of (dir_of root key) = false /\ under (dir_of root key) temp_of = false.
Proof.
  split; apply not_true_is_false; intros [r Hr]%under_spec.
  - apply (dir_of_temp key k [] r Hkey Hplain). by rewrite app_nil_r.
  - apply (dir_of_temp key k r [] Hkey Hplain). by rewrite app_nil_r.
Qed.

Lemma path_exists_no p : p ∉ o_dirs o -> (forall i, o_names o !! p <> Some i) -> path_exists p o = false.
Proof.
  intros Hd Hn. unfold path_exists. apply orb_false_iff. split; apply bool_decide_eq_false; [done|]. intros [i Hi]. by eapply Hn.
Qed.

Lemma tree_can_create : root ++ [app_name key; session_id key] ∈ o_dirs o -> can_create temp_of (dir_of root key) o.
Proof.
  intros Hs. destruct temp_apart as [A1 A2].
  assert (Hpar : forall a, root ++ [app_name key; session_id key; a] = (root ++ [app_name key; session_id key]) ++ [a])
    by (intros; by rewrite <- app_assoc).
  split; [unfold temp_of; by rewrite Hpar, parent_snoc| | |unfold dir_of; by rewrite Hpar, parent_snoc| |done|].
  - destruct (temp_free []) as [F1 F2]. rewrite app_nil_r in F1, F2. by apply path_exists_no.
  - intros file. destruct (temp_free [file]) as [F1 F2]. by apply path_exists_no.
  - destruct (tree_nothing_below root o m key k [] Htree Hkey Hnew) as [_ F]. rewrite app_nil_r in F.
    apply eq_None_not_Some. intros [i Hi]. by apply F in Hi.
  - split; intros r; intros; by apply (tree_nothing_below root o m key k r Htree Hkey Hnew).
Qed.

(** The renamed directory. *)
Context (x : Object) (b : bytes).
Hypothesis Hsession : root ++ [app_name key; session_id key] ∈ o_dirs o.
Let o1 := staged temp_of (payload x) (index_bytes x) b o.
Let o2 := move temp_of (dir_of root key) o1.

Definition new_file (q : path) (i : nat) : Prop :=
  (q = dir_of root key ++ [DATA_FILE] /\ i = o_fresh o) \/
  (q = dir_of root key ++ [INDEX_FILE] /\ i = S (o_fresh o)) \/
  (q = dir_of root key ++ [METADATA_FILE] /\ i = S (S (o_fresh o))).

Lemma staged_names p i : o_names o1 !! p = Some i <->
  (p = temp_of ++ [DATA_FILE] /\ i = o_fresh o) \/ (p = temp_of ++ [INDEX_FILE] /\ i = S (o_fresh o)) \/
  (p = temp_of ++ [METADATA_FILE] /\ i = S (S (o_fresh o))) \/ o_names o !! p = Some i.
Proof.
  assert (N : forall f g, f <> g -> temp_of ++ [f] <> temp_of ++ [g]).
  { intros f g Hfg Heq. apply app_inv_head in Heq. by simplify_eq. }
  assert (F : forall f, o_names o !! (temp_of ++ [f]) = None).
  { intros f. destruct (o_names o !! (temp_of ++ [f])) as [j|] eqn:Hj; [|done]. by apply (proj2 (temp_free [f])) in Hj. }
  simpl. rewrite !lookup_insert_Some. split.
  - intros [[<- <-]|[_ [[<- <-]|[_ [[<- <-]|[_ Hp]]]]]]; auto.
  - intros [[-> ->]|[[-> ->]|[[-> ->]|Hp]]].
    + right. split; [by apply N|]. right. split; [by apply N|]. by left.
    + right. split; [by apply N|]. by left.
    + by left.
    + right. split; [by intros <-; rewrite F in Hp|]. right. split; [by intros <-; rewrite F in Hp|].
      right. split; [by intros <-; rewrite F in Hp|done].
Qed.

Lemma not_below_dst p i : o_names o1 !! p = Some i -> under (dir_of root key) p = false.
Proof.
  intros Hp. apply not_true_is_false. intros [r ->]%under_spec. apply staged_names in Hp as [[Hp _]|[[Hp _]|[[Hp _]|Hp]]].
  1-3: by eapply dir_of_temp in Hp. by apply (tree_nothing_below root o m key k r Htree Hkey Hnew) in Hp.
Qed.

Lemma created_names q i : o_names o2 !! q = Some i <-> new_file q i \/ o_names o !! q = Some i.
Proof.
  unfold o2. rewrite (move_lookup _ _ _ not_below_dst). unfold new_file. setoid_rewrite staged_names. split.
  - intros (p & [[-> ->]|[[-> ->]|[[-> ->]|Hp]]] & ->); rewrite ?relocate_in; auto 6.
    right. rewrite relocate_out; [done|]. apply not_true_is_false. intros [r ->]%under_spec. by apply (proj2 (temp_free r)) in Hp.
  - intros [[[-> ->]|[[-> ->]|[-> ->]]]|Hq].
    + exists (temp_of ++ [DATA_FILE]). rewrite relocate_in. split; [tauto|done].
    + exists (temp_of ++ [INDEX_FILE]). rewrite relocate_in. split; [tauto|done].
    + exists (temp_of ++ [METADATA_FILE]). rewrite relocate_in. split; [tauto|done].
    + exists q. split; [auto|]. rewrite relocate_out; [done|]. apply not_true_is_false. intros [r ->]%under_spec.
      by apply (proj2 (temp_free r)) in Hq.
Qed.

Lemma created_dirs q : q ∈ o_dirs o2 <-> q = dir_of root key \/ q ∈ o_dirs o.
Proof.
  unfold o2. rewrite move_dirs. simpl. split.
  - intros (p & [->%elem_of_singleton|Hp]%elem_of_union & ->).
    + left. apply relocate_self.
    + right. rewrite relocate_out; [done|]. apply not_true_is_false. intros [r ->]%under_spec. by apply (proj1 (temp_free r)) in Hp.
  - intros [->|Hq].
    + exists temp_of. split; [set_solver|]. by rewrite relocate_self.
    + exists q. split; [set_solver|]. rewrite relocate_out; [done|]. apply not_true_is_false. intros [r ->]%under_spec.
      by apply (proj1 (temp_free r)) in Hq.
Qed.

Lemma created_inodes i : (i < o_fresh o)%nat -> o_inodes o2 !! i = o_inodes o !! i.
Proof. intros Hi. simpl. by rewrite !lookup_insert_ne by lia. Qed.

Lemma new_file_old q i j : new_file q i -> o_names o !! q = Some j -> False.
Proof.
  intros Hq Hj. assert (Hb : exists file, q = dir_of root key ++ [file]) by (unfold new_file in Hq; naive_solver).
  destruct Hb as [file ->]. by apply (tree_nothing_below root o m key k [file] Htree Hkey Hnew) in Hj.
Qed.

Lemma new_file_bounds q i : new_file q i -> (o_fresh o <= i < 3 + o_fresh o)%nat.
Proof. unfold new_file. intros [[_ ->]|[[_ ->]|[_ ->]]]; lia. Qed.

Lemma new_file_fun q p i : new_file q i -> new_file p i -> p = q.
Proof. unfold new_file. intros [[-> ->]|[[-> ->]|[-> ->]]] [[-> E]|[[-> E]|[-> E]]]; done || lia. Qed.

Lemma stored_old key' y : stored m key' y -> stored (<[k := x]> m) key' y.
Proof.
  intros (k' & Hk' & Hp' & Hm'). exists k'. split_and!; [done|done|]. rewrite lookup_insert_ne; [done|]. intros <-. congruence.
Qed.

Lemma created_object : decode_metadata b = Some (ob_data_type x) ->
  object_at o2 (dir_of root key) x (S (o_fresh o)) (o_fresh o).
Proof.
  intros Hb. split.
  - apply created_names. left. unfold new_file. tauto.
  - apply created_names. left. unfold new_file. tauto.
  - exists (S (S (o_fresh o))), b. split_and!; [|simpl; apply lookup_insert_eq|done|lia|lia].
    apply created_names. left. unfold new_file. tauto.
  - simpl. rewrite !lookup_insert_ne by lia. apply lookup_insert_eq.
  - simpl. rewrite !lookup_insert_ne by lia. apply lookup_insert_eq.
Qed.

Lemma tree_created : fits x -> decode_metadata b = Some (ob_data_type x) -> root ++ [app_name key] ∈ o_dirs o ->
  tree_ok root o2 (<[k := x]> m).
Proof.
  intros Hf Hb Happ. pose proof Htree as [T1 T0 T2 T3 T4 T5 T6 T7 T8]. split.
  - intros p q i [Hp|Hp]%created_names [Hq|Hq]%created_names.
    + by apply (new_file_fun _ _ i).
    + apply new_file_bounds in Hp. apply T0 in Hq. lia.
    + apply new_file_bounds in Hq. apply T0 in Hp. lia.
    + by eapply T1.
  - intros p i [Hp|Hp]%created_names; [by apply new_file_bounds in Hp; simpl; lia|]. apply T0 in Hp. simpl. lia.
  - intros i c. simpl. rewrite !lookup_insert_Some. intros Hi.
    assert (i = S (S (o_fresh o)) \/ i = S (o_fresh o) \/ i = o_fresh o \/ exists c, o_inodes o !! i = Some c) as Hcase by naive_solver.
    destruct Hcase as [->|[->|[->|[c' Hc']]]]; [lia..|]. pose proof (T2 _ _ Hc'). lia.
  - intros h n Hh. pose proof (T3 h n Hh). simpl. lia.
  - intros k' y [[<- <-]|[Hne Hk']]%lookup_insert_Some.
    + split; [done|]. exists key, (S (o_fresh o)), (o_fresh o). split_and!; [done|done|by apply created_object].
    + destruct (T4 k' y Hk') as (Hfy & key' & i & d & Hkey' & Hp' & Hat). split; [done|]. exists key', i, d.
      split_and!; [done|done|]. eapply object_at_frame; [done| |].
      * intros file. apply option_eq. intros j. rewrite created_names. split; [intros [Hj|Hj]; [|done]|by right]. exfalso.
        assert (Hd : dir_of root key = dir_of root key').
        { unfold new_file in Hj. destruct Hj as [[Hj _]|[[Hj _]|[Hj _]]]; by apply app_inj_tail in Hj as [-> _]. }
        apply (dir_of_inj _ _ _ _ _ Hkey Hkey') in Hd. subst key'.
        pose proof (ok_key _ _ Hkey). pose proof (ok_key _ _ Hkey'). congruence.
      * intros file j Hj. apply created_inodes. by eapply T0.
  - intros key' y (k' & Hk' & Hp' & Hm'). rewrite !created_dirs. apply lookup_insert_Some in Hm' as [[<- _]|[_ Hm']].
    + rewrite (object_key_inj _ _ _ Hk' Hkey). auto.
    + destruct (T5 key' y) as (? & ? & ?); [by exists k'|]. auto.
  - intros r i [Hr|Hr]%created_names.
    + assert (Hb' : exists file, root ++ r = dir_of root key ++ [file]) by (unfold new_file in Hr; naive_solver).
      destruct Hb' as [file Hfile]. exists key, x, file. split; [|done]. exists k. by rewrite lookup_insert_eq.
    + destruct (T6 r i Hr) as (key' & y & file & Hs & Heq). exists key', y, file. split; [by apply stored_old|done].
  - intros p Hp. apply eq_None_not_Some. intros [i [Hi|Hi]%created_names]; [|by rewrite T7 in Hi].
    assert (Hb' : exists file, p = dir_of root key ++ [file]) by (unfold new_file in Hi; naive_solver).
    destruct Hb' as [file ->]. apply prefix_length in Hp. rewrite length_app, dir_of_length in Hp. lia.
  - intros r [Hr|Hr]%created_dirs Hl.
    + exists key, x. split; [|done]. exists k. by rewrite lookup_insert_eq.
    + destruct (T8 r Hr Hl) as (key' & y & Hs & Heq). exists key', y. split; [by apply stored_old|done].
Qed.

End created.

(** ** [write_stream] *)

(** What was on disk is still there. *)
Record extends (o o' : Os) : Prop := {
  ex_names : forall p i, o_names o !! p = Some i -> o_names o' !! p = Some i;
  ex_inodes : forall i, (i < o_fresh o)%nat -> o_inodes o' !! i = o_inodes o !! i;
  ex_counts : o_counts o' = o_counts o
}.

Section write.
Context (root : path) (o : Os) (m : objects) (key : ObjectKey) (k : string).
Hypothesis Htree : tree_ok root o m.
Hypothesis Hkey : object_key key k.
Hypothesis Hplain : plain key.
Hypothesis Hnew : m !! k = None.

(** The session directory exists. *)
Definition session_made : Os := set_dirs (list_to_set (ancestors (session_dir root key)) ∪ o_dirs o) o.

Lemma ancestors_elem (p q : path) : p ∈ ancestors q <-> exists n, (1 <= n <= length q)%nat /\ p = take n q.
Proof.
  unfold ancestors. rewrite list_elem_of_fmap. setoid_rewrite elem_of_seq. split.
  - intros (n & -> & Hn). exists n. split; [lia|done].
  - intros (n & Hn & ->). exists n. split; [done|lia].
Qed.

Lemma session_ancestors p : p ∈ ancestors (session_dir root key) ->
  p `prefix_of` root \/ p = root ++ [app_name key] \/ p = root ++ [app_name key; session_id key].
Proof.
  rewrite (session_dir_plain root key Hplain), ancestors_elem. intros (n & Hn & ->). rewrite length_app in Hn. simpl in Hn.
  destruct (Nat.le_gt_cases n (length root)) as [Hle|Hgt].
  - left. rewrite take_app_le by done. apply prefix_take.
  - right. rewrite take_app_ge by lia. destruct (n - length root)%nat as [|[|[|j]]] eqn:Hj; [lia|by left|by right|lia].
Qed.

Lemma session_made_tree : tree_ok root session_made m.
Proof.
  eapply tree_frame; [exact Htree|done| |set_solver|done|done|apply (tr_inodes _ _ _ Htree)|apply (tr_counts _ _ _ Htree)].
  intros r [Hr|Hr]%elem_of_union; [right|by left]. apply elem_of_list_to_set, session_ancestors in Hr as [Hr|[Hr|Hr]].
  - apply prefix_length in Hr. rewrite length_app in Hr. lia.
  - apply app_inv_head in Hr as ->. simpl. lia.
  - apply app_inv_head in Hr as ->. simpl. lia.
Qed.

Lemma session_made_dirs : root ++ [app_name key] ∈ o_dirs session_made /\ root ++ [app_name key; session_id key] ∈ o_dirs session_made.
Proof.
  unfold session_made. simpl. rewrite (session_dir_plain root key Hplain). split; apply elem_of_union_l, elem_of_list_to_set, ancestors_elem.
  - exists (length root + 1)%nat. rewrite length_app. simpl. split; [lia|].
    rewrite take_app_ge by lia. by replace (length root + 1 - length root)%nat with 1%nat by lia.
  - exists (length root + 2)%nat. rewrite length_app. simpl. split; [lia|].
    rewrite take_app_ge by lia. by replace (length root + 2 - length root)%nat with 2%nat by lia.
Qed.

Lemma create_session_quiet : exists o', io_try (os_create_dir_all (session_dir root key)) o = (Ok tt, o') /\ same session_made o'.
Proof.
  exists (tick_call session_made). split; [|by split]. apply (io_try_quiet quiet). simpl.
  destruct (existsb _ _) eqn:He; [|done]. apply existsb_exists in He as (p & Hp%list_elem_of_In & Hsome).
  apply bool_decide_eq_true in Hsome as [i Hi]. exfalso. apply session_ancestors in Hp as [Hp|[->| ->]].
  - by rewrite (tr_above _ _ _ Htree _ Hp) in Hi.
  - by apply (tree_no_file root o m _ i Htree) in Hi; [|simpl; lia].
  - by apply (tree_no_file root o m _ i Htree) in Hi; [|simpl; lia].
Qed.

Lemma temp_path_quiet o' : same session_made o' -> exists t o'', unique_temp_path (dir_of root key) o' = (Ok (temp_of root key t), o'') /\
  starts_with "." t = true /\ same session_made o''.
Proof.
  intros Hs. unfold unique_temp_path, gets, modify, mbind, M_bind, mret, M_ret.
  assert (Hlast : dir_of root key !! pred (length (dir_of root key)) = Some (default "" (object_id key))).
  { unfold dir_of. rewrite length_app, lookup_app_r by (simpl; lia). simpl. by replace (pred (length root + 3) - length root)%nat with 2%nat by lia. }
  rewrite Hlast. eexists _, _. split; [|split].
  - unfold temp_of. unfold dir_of.
    replace (root ++ [app_name key; session_id key; default "" (object_id key)])
      with ((root ++ [app_name key; session_id key]) ++ [default "" (object_id key)]) by (by rewrite <- app_assoc).
    rewrite parent_snoc, <- app_assoc. reflexivity.
  - apply starts_with_iff. eexists. reflexivity.
  - destruct Hs. by split.
Qed.

Lemma extends_made o' : same session_made o' -> extends o o'.
Proof. intros [E1 E2 E3 E4 E5]. split; rewrite ?E1, ?E3, ?E4; done. Qed.
End write.

Lemma extends_same o o1 o2 : same o1 o2 -> extends o o1 -> extends o o2.
Proof. intros [E1 E2 E3 E4 E5] [X1 X2 X3]. split; rewrite ?E1, ?E3, ?E4; done. Qed.

Lemma extends_trans o1 o2 o3 : (o_fresh o1 <= o_fresh o2)%nat -> extends o1 o2 -> extends o2 o3 -> extends o1 o3.
Proof.
  intros Hf [X1 X2 X3] [Y1 Y2 Y3]. split; [auto| |congruence]. intros i Hi. rewrite Y2 by lia. by apply X2.
Qed.

Lemma index_created meta data : index_bytes (created meta data) = encode_record (mkRecord 0 (len data) (om_creation_time meta)).
Proof. apply (app_nil_r (encode_record (mkRecord 0 (len data) (om_creation_time meta)))). Qed.
Lemma payload_created meta data : payload (created meta data) = data.
Proof. apply (app_nil_r data). Qed.

Lemma fits_created meta data : fits (created meta data) -> len data <= max_file_len.
Proof. intros Hf. pose proof (ft_size _ Hf) as Hs. simpl in Hs. unfold data_size in Hs. simpl in Hs. lia. Qed.

(** The blocking closure of a write whose stream ends. *)
Lemma write_object_dir_ok root o m key k meta chunks data :
  tree_ok root o m -> object_key key k -> plain key -> m !! k = None ->
  drain chunks = Ok data -> fits (created meta data) ->
  exists o', write_object_dir root key (dir_of root key) meta chunks o = (Ok (len data), o') /\
    tree_ok root o' (<[k := created meta data]> m) /\ extends o o'.
Proof.
  intros Ht Hk Hp Hm Hd Hf. pose proof (fits_created _ _ Hf) as Hlen. unfold write_object_dir.
  destruct (create_session_quiet root o m key Ht Hp) as (o1 & Hc1 & S1). rewrite (bind_Ok _ _ _ _ _ Hc1).
  destruct (temp_path_quiet root o key o1 S1) as (t & o2 & Htmp & Hdot & S2). rewrite (bind_Ok _ _ _ _ _ Htmp).
  pose proof (tree_same root _ _ m S2 (session_made_tree root o m key k Ht Hk Hp Hm)) as Ht2.
  destruct (session_made_dirs root o key Hp) as [D1 D2]. rewrite <- (sa_dirs _ _ S2) in D1, D2.
  destruct (json_roundtrip (om_data_type meta)) as (b & Hb & Hdec). pose proof (json_size _ _ Hb) as Hbl.
  pose proof (ft_type _ Hf) as Hty. simpl in Hty.
  destruct (create_object_quiet (temp_of root key t) (dir_of root key) meta chunks data b o2) as (o3 & Hcr & S3);
    [by eapply tree_can_create|done|done|done|unfold max_file_len; lia|].
  unfold attempt, mbind, M_bind. rewrite Hcr. exists o3. split; [done|].
  rewrite <- (index_created meta data), <- (payload_created meta data) in S3 at 1. split.
  - eapply tree_same; [exact S3|]. by apply (tree_created root o2 m key k t Ht2 Hk Hp Hm Hdot).
  - apply (extends_trans _ o2); [destruct S2 as [_ _ _ _ ->]; done|by eapply extends_made|].
    eapply extends_same; [exact S3|]. split.
    + intros p i Hi. apply (created_names root o2 m key k t Ht2 Hk Hp Hm Hdot). by right.
    + intros i Hi. by apply created_inodes.
    + done.
Qed.

Lemma disk_write_ok root o m key k meta chunks data :
  tree_ok root o m -> object_key key k -> plain key -> m !! k = None ->
  drain chunks = Ok data -> fits (created meta data) ->
  exists o', disk_write_stream root key meta chunks o = (Ok (with_size (len data) meta), o') /\
    tree_ok root o' (<[k := created meta data]> m) /\ extends o o'.
Proof.
  intros Ht Hk Hp Hm Hd Hf. assert (Ht1 : tree_ok root (tick_call o) m) by (eapply tree_same; [|exact Ht]; by split).
  destruct (write_object_dir_ok root (tick_call o) m key k meta chunks data Ht1 Hk Hp Hm Hd Hf) as (o' & Hw & Ht' & [X1 X2 X3]).
  exists o'. split; [|split; [done|by split]]. unfold disk_write_stream. rewrite (object_dir_plain root key k Hp Hk).
  unfold mbind at 1 2, M_bind at 1 2, lift at 1. rewrite (os_exists_quiet quiet), (tree_absent root o m key k Ht Hk Hm).
  unfold fed, attempt, mbind, M_bind, lift, mret, M_ret. rewrite Hw, Hd. done.
Qed.

(** A write whose stream fails leaves the objects as they are. *)
Lemma create_object_broken temp dst meta chunks e o : can_create temp dst o -> drain chunks = Err e ->
  exists err c o', create_object temp dst meta chunks o = (Err err, o') /\
    same (filled (temp ++ [DATA_FILE]) c (set_dirs ({[temp]} ∪ o_dirs o) o)) o'.
Proof.
  intros Hcc Hd. destruct (create_payload temp dst o Hcc) as (o1 & Hpay & S1). unfold create_object.
  apply bind_inv_Ok in Hpay as ([] & o0 & Hc1 & Hc2). rewrite (bind_Ok _ _ _ _ _ Hc1), (bind_Ok _ _ _ _ _ Hc2).
  destruct (receive_broken (o_fresh o) chunks 0 [] e o1) as (err & c & o2 & Hrec & S2);
    [rewrite (sa_inodes _ _ S1); simpl; apply lookup_insert_eq|done|].
  exists err, c, o2. unfold mbind, M_bind. rewrite Hrec. split; [done|].
  eapply same_trans; [|exact S2]. apply (same_set_inode (o_fresh o) c _ _ S1).
Qed.

(** The temporary directory is gone. *)
Lemma tree_pruned root o m key t c o' : tree_ok root o m -> starts_with "." t = true ->
  same (filled (temp_of root key t ++ [DATA_FILE]) c (set_dirs ({[temp_of root key t]} ∪ o_dirs o) o)) o' ->
  tree_ok root (prune (temp_of root key t) (fun _ => false) o') m /\ extends o (prune (temp_of root key t) (fun _ => false) o').
Proof.
  intros Ht Hdot [E1 E2 E3 E4 E5]. set (temp := temp_of root key t) in *. pose proof (temp_free root o m key t Ht Hdot) as Hfree.
  assert (Hn : o_names (prune temp (fun _ => false) o') = o_names o).
  { apply map_eq. intros p. simpl. rewrite E1. simpl. apply option_eq. intros i. rewrite map_lookup_filter_Some. simpl.
    rewrite orb_false_r, negb_true_iff, lookup_insert_Some. split.
    - intros [[[<- _]|[_ Hp]] Hu]; [by rewrite under_app in Hu|done].
    - intros Hp. assert (Hu : under temp p = false).
      { apply not_true_is_false. intros [r ->]%under_spec. by apply (proj2 (Hfree r)) in Hp. }
      split; [right; split; [intros <-; by rewrite under_app in Hu|done]|done]. }
  assert (Hd : o_dirs (prune temp (fun _ => false) o') = o_dirs o).
  { apply set_eq. intros p. simpl. rewrite E2. simpl. rewrite elem_of_filter, orb_false_r, negb_true_iff. split.
    - intros [Hu [->%elem_of_singleton|Hp]%elem_of_union]; [|done].
      pose proof (under_app temp []) as Hself. rewrite app_nil_r in Hself. congruence.
    - intros Hp. split; [|set_solver]. apply not_true_is_false. intros [r ->]%under_spec. by apply (proj1 (Hfree r)) in Hp. }
  assert (Hi : forall i, (i < o_fresh o)%nat -> o_inodes o' !! i = o_inodes o !! i).
  { intros i Hi. rewrite E3. simpl. by rewrite !lookup_insert_ne by lia. }
  split; [|split; [by rewrite Hn|exact Hi|exact E4]].
  eapply tree_frame; [exact Ht|exact Hn|rewrite Hd; auto|by rewrite Hd|exact Hi|simpl; rewrite E5; simpl; lia| |].
  - intros i ci. simpl. rewrite E3, E5. simpl. intros Hic.
    assert (i = o_fresh o \/ exists c, o_inodes o !! i = Some c) as [->|[c' Hc']]
      by (rewrite !lookup_insert_Some in Hic; naive_solver); [lia|]. pose proof (tr_inodes _ _ _ Ht _ _ Hc'). lia.
  - intros h n. simpl. rewrite E4, E5. simpl. intros Hh. pose proof (tr_counts _ _ _ Ht _ _ Hh). lia.
Qed.

Lemma disk_write_broken root o m key k meta chunks e :
  tree_ok root o m -> object_key key k -> plain key -> m !! k = None -> drain chunks = Err e ->
  exists o', disk_write_stream root key meta chunks o = (Err e, o') /\ tree_ok root o' m /\ extends o o'.
Proof.
  intros Ht Hk Hp Hm Hd. assert (Ht1 : tree_ok root (tick_call o) m) by (eapply tree_same; [|exact Ht]; by split).
  destruct (create_session_quiet root (tick_call o) m key Ht1 Hp) as (o1 & Hc1 & S1).
  destruct (temp_path_quiet root (tick_call o) key o1 S1) as (t & o2 & Htmp & Hdot & S2).
  pose proof (tree_same root _ _ m S2 (session_made_tree root (tick_call o) m key k Ht1 Hk Hp Hm)) as Ht2.
  destruct (session_made_dirs root (tick_call o) key Hp) as [D1 D2]. rewrite <- (sa_dirs _ _ S2) in D2.
  destruct (create_object_broken (temp_of root key t) (dir_of root key) meta chunks e o2) as (err & c & o3 & Hcr & S3);
    [by eapply tree_can_create|done|].
  destruct (tree_pruned root o2 m key t c (tick_call o3) Ht2 Hdot (same_tick _ _ S3)) as [Ht3 X3].
  assert (Hrm : os_remove_dir_all (temp_of root key t) o3 = (Ok (OOk tt), prune (temp_of root key t) (fun _ => false) (tick_call o3))).
  { unfold os_remove_dir_all. rewrite (ocall_quiet quiet). simpl. rewrite bool_decide_eq_true_2; [done|].
    rewrite (sa_dirs _ _ S3). simpl. set_solver. }
  exists (prune (temp_of root key t) (fun _ => false) (tick_call o3)). split; [|split; [done|]].
  - unfold disk_write_stream. rewrite (object_dir_plain root key k Hp Hk).
    unfold mbind at 1 2, M_bind at 1 2, lift at 1. rewrite (os_exists_quiet quiet), (tree_absent root o m key k Ht Hk Hm).
    unfold write_object_dir, fed, attempt, mbind, M_bind, lift. rewrite Hc1, Htmp, Hcr, Hrm, Hd. done.
  - apply (extends_trans _ o2); [destruct S2 as [_ _ _ _ ->]; done| |done].
    by apply (extends_same _ (session_made root (tick_call o) key)); [|split].
Qed.
End create.
