(* ===== verification/ObjDelete.v ===== *)
(** * Deleting objects from the disk

    [DiskStorage::delete_objects] ([object_cache/src/storage/disk.rs]) removes
    the directory of a key and then the parents that have become empty.  On a
    disk whose calls succeed this is the deletion of the objects the key
    selects. *)
From S2P Require Import Prelude Types Engine FsDisk FsRecord ObjKey ObjStore ObjOs ObjDisk ObjDiskInv ObjTree ObjCreate.
Local Open Scope Z_scope.

Section delete.
Context `{Disk, Env, Json}.
Hypothesis quiet : forall n, io_fault n = None.
Variable root : path.

(** What a delete may change: names and directories go. *)
Record shrinks (o o' : Os) : Prop := {
  sh_names : o_names o' ⊆ o_names o;
  sh_inodes : o_inodes o' = o_inodes o;
  sh_counts : o_counts o' = o_counts o;
  sh_fresh : o_fresh o' = o_fresh o
}.

Lemma shrinks_trans o1 o2 o3 : shrinks o1 o2 -> shrinks o2 o3 -> shrinks o1 o3.
Proof. intros [] []. split; [by etrans|congruence..]. Qed.

Lemma shrinks_same o o' : same o o' -> shrinks o o'.
Proof. intros []. split; [|done..]. by replace (o_names o') with (o_names o). Qed.

(** The path of a key below [root]. *)
Definition target (key : ObjectKey) : path :=
  match object_id key with
  | Some id => [app_name key; session_id key; id]
  | None => if is_all_sessions key then [app_name key] else [app_name key; session_id key]
  end.

Lemma target_length key : (1 <= length (target key) <= 3)%nat.
Proof. unfold target. destruct (object_id key), (is_all_sessions key); simpl; lia. Qed.

Lemma delete_dir path key : plain key -> from_path path = Ok key ->
  match object_id key with
  | Some _ => object_dir root key
  | None => Ok (if is_all_sessions key then app_dir root key else session_dir root key)
  end = Ok (root ++ target key).
Proof.
  intros Hp Hpath. unfold target. destruct (object_id key) as [id|] eqn:Hid.
  - rewrite (object_dir_plain root key path Hp); [unfold dir_of; by rewrite Hid|].
    apply from_path_object_key; [done|by rewrite Hid].
  - destruct (is_all_sessions key); [by rewrite app_dir_plain|by rewrite session_dir_plain].
Qed.

(** The objects below that path are the selected ones. *)
Lemma target_covers path key key' k' : from_path path = Ok key -> object_key key' k' ->
  matches key k' = true <-> under (root ++ target key) (dir_of root key') = true.
Proof.
  intros Hp Hk'. rewrite (matches_covers path key k' key' Hp (ok_parse _ _ Hk')), under_spec. unfold dir_of, target, covers.
  setoid_rewrite <- app_assoc. destruct (object_key_object _ _ Hk') as (id' & Hid' & _). rewrite Hid'. simpl.
  destruct (object_id key) as [id|] eqn:Hid.
  - destruct (from_path_object path key id Hp Hid) as [_ ->]. split.
    + intros [Ha [?|[Hs [?|Ho]]]]; [done..|]. exists []. simplify_eq. by rewrite Ha, Hs.
    + intros [r Hr]. apply app_inv_head in Hr. simplify_eq/=. auto.
  - destruct (is_all_sessions key).
    + split; [intros [-> _]; by exists [session_id key'; id']|]. intros [r Hr]. apply app_inv_head in Hr. simplify_eq/=. auto.
    + split; [intros [-> [?|[-> _]]]; [done|by exists [id']]|]. intros [r Hr]. apply app_inv_head in Hr. simplify_eq/=. auto.
Qed.

Lemma prune_names dir o p i : o_names (prune dir (fun _ => false) o) !! p = Some i <-> o_names o !! p = Some i /\ under dir p = false.
Proof. simpl. rewrite map_lookup_filter_Some. simpl. by rewrite orb_false_r, negb_true_iff. Qed.

Lemma prune_dirs dir o p : p ∈ o_dirs (prune dir (fun _ => false) o) <-> p ∈ o_dirs o /\ under dir p = false.
Proof. simpl. rewrite elem_of_filter, orb_false_r, negb_true_iff. tauto. Qed.

Lemma under_false_prefix dir p q : under dir (p ++ q) = false -> under dir p = false.
Proof.
  intros Hf. apply not_true_is_false. intros [r ->]%under_spec. by rewrite <- app_assoc, under_app in Hf.
Qed.

Lemma under_snoc dir p a : (length dir <= length p)%nat -> under dir (p ++ [a]) = under dir p.
Proof.
  intros Hl. apply eq_bool_prop_intro. rewrite !Is_true_true, !under_spec. split.
  - intros [r Hr]. destruct r as [|b r _] using rev_ind.
    + rewrite app_nil_r in Hr. subst dir. rewrite length_app in Hl. simpl in Hl. lia.
    + rewrite app_assoc in Hr. apply app_inj_tail in Hr as [-> _]. eauto.
  - intros [r ->]. exists (r ++ [a]). by rewrite app_assoc.
Qed.

Lemma stored_unmatched key m key' x : stored (unmatched key m) key' x -> stored m key' x.
Proof. intros (k & Hk & Hp & [Hm _]%lookup_unmatched). by exists k. Qed.

Lemma stored_kept path key m key' x : from_path path = Ok key -> stored m key' x ->
  under (root ++ target key) (dir_of root key') = false <-> stored (unmatched key m) key' x.
Proof.
  intros Hp (k' & Hk' & Hp' & Hm). pose proof (target_covers path key key' k' Hp Hk') as Hc.
  rewrite <- not_true_iff_false, <- Hc. split.
  - intros Hno. exists k'. split_and!; [done..|]. apply lookup_unmatched. split; [done|by apply not_true_is_false].
  - intros (k2 & Hk2 & _ & [_ Hm2]%lookup_unmatched). destruct Hk', Hk2. simplify_eq. by rewrite Hm2.
Qed.

Lemma tree_prune o m path key : tree_ok root o m -> from_path path = Ok key ->
  tree_ok root (prune (root ++ target key) (fun _ => false) o) (unmatched key m).
Proof.
  intros Ht Hp. set (dir := root ++ target key). pose proof (target_length key) as Htl.
  assert (Hdl : (length dir <= length root + 3)%nat) by (unfold dir; rewrite length_app; lia).
  assert (Hkeep : forall key' x, stored (unmatched key m) key' x -> under dir (dir_of root key') = false).
  { intros key' x Hs. by apply (stored_kept path key m key' x Hp (stored_unmatched _ _ _ _ Hs)). }
  pose proof Ht as [T1 T0 T2 T3 T4 T5 T6 T7 T8]. split.
  - intros p q i [Hpi _]%prune_names [Hqi _]%prune_names. by eapply T1.
  - intros p i [Hpi _]%prune_names. by eapply T0.
  - exact T2.
  - exact T3.
  - intros k x [Hk Hmk]%lookup_unmatched. destruct (T4 k x Hk) as (Hf & key' & i & d & Hkey & Hpl & Hat). split; [done|].
    exists key', i, d. split_and!; [done..|]. eapply object_at_frame; [exact Hat| |done]. intros file.
    assert (Hu : under dir (dir_of root key' ++ [file]) = false).
    { rewrite under_snoc by (by rewrite dir_of_length). apply (Hkeep key' x). exists k. by rewrite lookup_unmatched. }
    apply option_eq. intros n. rewrite prune_names. tauto.
  - intros key' x Hs. destruct (T5 key' x (stored_unmatched _ _ _ _ Hs)) as (D1 & D2 & D3). pose proof (Hkeep _ _ Hs) as Hu.
    rewrite !prune_dirs. split_and!; try done; eapply (under_false_prefix _ _); unfold dir_of in Hu;
      [instantiate (1 := [session_id key'; default "" (object_id key')])|instantiate (1 := [default "" (object_id key')])];
      by rewrite <- app_assoc.
  - intros r i [Hr Hu]%prune_names. destruct (T6 r i Hr) as (key' & x & file & Hs & Heq). exists key', x, file. split; [|done].
    rewrite Heq, under_snoc in Hu by (by rewrite dir_of_length). by apply (stored_kept path key m key' x Hp Hs).
  - intros p Hpr. apply eq_None_not_Some. intros [i [Hi _]%prune_names]. by rewrite (T7 p Hpr) in Hi.
  - intros r [Hr Hu]%prune_dirs Hl. destruct (T8 r Hr Hl) as (key' & x & Hs & Heq). exists key', x. split; [|done].
    rewrite Heq in Hu. by apply (stored_kept path key m key' x Hp Hs).
Qed.

(** A directory that is not there selects nothing. *)
Lemma tree_no_target o m path key : tree_ok root o m -> from_path path = Ok key ->
  root ++ target key ∉ o_dirs o -> unmatched key m = m.
Proof.
  intros Ht Hp Hno. apply map_eq. intros k. unfold unmatched. rewrite map_lookup_filter.
  destruct (m !! k) as [x|] eqn:Hm; simpl; [|done]. rewrite option_guard_True; [done|]. apply not_true_is_false. intros Hk.
  destruct (tr_objects _ _ _ Ht k x Hm) as (_ & key' & i & d & Hkey & Hpl & _).
  destruct (tr_dirs _ _ _ Ht key' x) as (D1 & D2 & D3); [by exists k|]. apply Hno.
  apply (matches_covers path key k key' Hp (ok_parse _ _ Hkey)) in Hk. unfold covers, target in *.
  destruct (object_key_object _ _ Hkey) as (id' & Hid' & _). unfold dir_of in D3. rewrite Hid' in Hk, D3. simpl in D3.
  destruct (object_id key) as [id|] eqn:Hid.
  - destruct (from_path_object path key id Hp Hid) as [_ Hall]. rewrite Hall in Hk.
    destruct Hk as [<- [?|[<- [?|Ho]]]]; [done..|]. by simplify_eq.
  - destruct (is_all_sessions key); [destruct Hk as [<- _]; done|]. by destruct Hk as [<- [?|[<- _]]].
Qed.

(** Removing an empty directory. *)
Lemma tree_remove_dir o m r : tree_ok root o m -> (length r < 3)%nat -> os_children (root ++ r) o = ∅ ->
  tree_ok root (set_dirs (o_dirs o ∖ {[root ++ r]}) o) m.
Proof.
  intros Ht Hl He. assert (Hsub : forall a t, root ++ r ++ a :: t ∉ o_dirs o).
  { intros a t Hin. rewrite app_assoc in Hin. by apply (os_children_elem (root ++ r) a t o (or_introl Hin)). }
  pose proof Ht as [T1 T0 T2 T3 T4 T5 T6 T7 T8]. split; try done.
  - intros k x Hk. destruct (T4 k x Hk) as (Hf & key & i & d & Hkey & Hpl & Hat). split; [done|].
    exists key, i, d. split_and!; [done..|]. by eapply object_at_frame.
  - intros key x Hs. destruct (T5 key x Hs) as (D1 & D2 & D3). simpl.
    assert (Hne : forall t s, dir_of root key = root ++ t ++ s -> s <> [] -> t <> r).
    { intros t s Hd Hs' ->. destruct s as [|a s]; [done|]. apply (Hsub a s). by rewrite <- Hd. }
    rewrite !elem_of_difference, !not_elem_of_singleton. split_and!; try done; intros Heq%app_inv_head.
    + by apply (Hne [app_name key] [session_id key; default "" (object_id key)]).
    + by apply (Hne [app_name key; session_id key] [default "" (object_id key)]).
    + subst r. simpl in Hl. lia.
  - intros q [Hq _]%elem_of_difference. by apply T8.
Qed.

Lemma remove_empty_ok o m r : tree_ok root o m -> (length r < 3)%nat ->
  exists o', remove_empty_dir (root ++ r) o = (Ok tt, o') /\ tree_ok root o' m /\ shrinks o o'.
Proof.
  intros Ht Hl. unfold remove_empty_dir, os_remove_dir, mbind, M_bind. rewrite (ocall_quiet quiet).
  assert (Hs : same o (tick_call o)) by by split. pose proof (tree_same root _ _ m Hs Ht) as Ht'.
  destruct (bool_decide (root ++ r ∈ _)); simpl; [|exists (tick_call o); split_and!; [done..|by apply shrinks_same]].
  case_bool_decide as Hc; simpl; [exists (tick_call o); split; [done|split; [done|by apply shrinks_same]]|].
  eexists. split; [reflexivity|]. split; [apply (tree_remove_dir (tick_call o) m r Ht' Hl Hc)|]. by split.
Qed.

Lemma disk_delete_ok o m path key : tree_ok root o m -> plain key -> from_path path = Ok key ->
  exists o', disk_delete_objects root key o = (Ok tt, o') /\ tree_ok root o' (unmatched key m) /\ shrinks o o'.
Proof.
  intros Ht Hpl Hp. unfold disk_delete_objects. rewrite (delete_dir path key Hpl Hp).
  assert (Hs : same o (tick_call o)) by by split. pose proof (tree_same root _ _ m Hs Ht) as Ht1.
  assert (Hrm : exists o', (if path_exists (root ++ target key) o then io_try (os_remove_dir_all (root ++ target key)) else mret tt) (tick_call o)
      = (Ok tt, o') /\ tree_ok root o' (unmatched key m) /\ shrinks o o').
  { unfold path_exists. rewrite (bool_decide_eq_false_2 (is_Some _)), orb_false_r.
    2:{ intros [i Hi]. pose proof (target_length key). by apply (tree_no_file root o m _ i Ht) in Hi; [|lia]. }
    case_bool_decide as Hin.
    - exists (tick_call (prune (root ++ target key) (fun _ => false) (tick_call o))). split.
      + apply (io_try_quiet quiet). simpl. by rewrite bool_decide_eq_true_2.
      + split; [|by split; [apply map_filter_subseteq|..]].
        eapply tree_same; [|apply (tree_prune (tick_call o) m path key Ht1 Hp)]. by split.
    - exists (tick_call o). split; [done|]. split; [|by apply shrinks_same]. by rewrite (tree_no_target o m path key Ht Hp Hin). }
  destruct Hrm as (o1 & Hrm & Ht2 & S1). unfold mbind at 1 2, M_bind at 1 2, lift at 1.
  rewrite (os_exists_quiet quiet). rewrite (bind_Ok _ _ _ _ _ Hrm), session_dir_plain, app_dir_plain by done.
  destruct (remove_empty_ok o1 _ [app_name key; session_id key] Ht2) as (o2 & Hr2 & Ht3 & S2); [simpl; lia|].
  destruct (remove_empty_ok o2 _ [app_name key] Ht3) as (o3 & Hr3 & Ht4 & S3); [simpl; lia|].
  rewrite (bind_Ok _ _ _ _ _ Hr2), Hr3. exists o3. split_and!; [done..|]. eapply shrinks_trans, shrinks_trans; done.
Qed.
End delete.
