(* ===== verification/FileStore.v ===== *)
(** * The cache over a disk

    [ResidentStorage] over [DiskStorage] ([object_cache/src/storage/resident.rs]
    and [disk.rs]) meets the contract of a storage engine without losses, on a
    disk whose calls succeed and when the policy has room for ten open objects:
    eviction closes files and no object leaves the disk. *)
From Stdlib Require Import Ascii.
From S2P Require Import Prelude Types Engine FsDisk FsRecord ObjKey ObjStore ObjOs ObjDisk Lru Resident CacheOnly ObjDiskInv ObjTree ObjCreate ObjDelete.
Local Open Scope Z_scope.

Section file_store.
Context `{Disk, Env, Json}.
Hypothesis quiet : forall n, io_fault n = None.
Variable root : path.

Abbreviation E := (ResidentStorage (DiskStorage root) false).

(** ** Open files and the policy *)

Definition file_bound : Z := object_files_size + 128.

(** A policy that has room for a batch of open objects. *)
Record roomy (p : LRUPolicy) (l : entries) : Prop := {
  ro_memory : 10 * file_bound <= lp_max_memory p;
  ro_objects : match lp_max_objects p with Some n => 10 <= n | None => True end;
  ro_sizes : Forall (fun e : string * Z => e.2 <= file_bound) l
}.

Definition policy_roomy (r : Resident) : Prop :=
  match rs_policy r with
  | NoEvictionPolicy => True
  | LruPolicy p => exists l, sound r p l /\ settled p l /\ roomy p l
  end.

Lemma policy_roomy_os r o : policy_roomy r -> policy_roomy (with_os o r).
Proof.
  unfold policy_roomy. simpl. destruct (rs_policy r) as [|p] eqn:Hp; [done|]. intros (l & [_ Hr Hk] & Hrest).
  exists l. split; [|done]. by split.
Qed.

Lemma total_size_bound (b : Z) (l : entries) : Forall (fun e : string * Z => e.2 <= b) l -> total_size l <= Z.of_nat (length l) * b.
Proof. induction 1 as [|e l He _ IH]; simpl; [lia|]. lia. Qed.

(** Eviction never reaches the object used last. *)
Lemma roomy_keeps_last p l e cnt : roomy p (l ++ [e]) -> remains p (l ++ [e]) cnt ->
  e ∈ drop (EVICTION_BATCH_SIZE * cnt) (l ++ [e]).
Proof.
  intros [Hm Ho Hs] [_ Hneed]. unfold EVICTION_BATCH_SIZE in *.
  destruct (Nat.le_gt_cases (10 * cnt) (length l)) as [Hle|Hgt].
  { rewrite drop_app_le by done. apply elem_of_app. right. by left. }
  exfalso. set (j := (length l / 10)%nat). pose proof (Nat.div_mod_eq (length l) 10) as Hdiv.
  pose proof (Nat.mod_upper_bound (length l) 10 ltac:(lia)) as Hmod. fold j in Hdiv.
  assert (Hlen : (length (drop (10 * j) (l ++ [e])) <= 10)%nat) by (rewrite length_drop, length_app; simpl; lia).
  assert (Hb : total_size (drop (10 * j) (l ++ [e])) <= Z.of_nat (length (drop (10 * j) (l ++ [e]))) * file_bound).
  { apply total_size_bound. rewrite <- (take_drop (10 * j) (l ++ [e])) in Hs. by apply list.Forall_app in Hs as [_ ?]. }
  assert (Hpos : 0 < file_bound) by (pose proof object_files_size_pos; unfold file_bound; lia).
  specialize (Hneed j ltac:(lia)). assert (Hok : over p (drop (10 * j) (l ++ [e])) = false); [|congruence].
  apply over_spec. split; [nia|]. destruct (lp_max_objects p); lia.
Qed.

Lemma memory_size_bound f x o : handle_ok f x o -> fits x -> 0 <= memory_size f <= file_bound.
Proof.
  intros Hh Hf. pose proof object_files_size_pos. unfold memory_size, file_bound.
  rewrite (ho_type _ _ _ Hh). pose proof (ft_type _ Hf). lia.
Qed.

Lemma roomy_limits p p' l : lp_max_memory p' = lp_max_memory p -> lp_max_objects p' = lp_max_objects p -> roomy p l -> roomy p' l.
Proof. intros Hm Ho []. by split; rewrite ?Hm, ?Ho. Qed.

Lemma roomy_sub p l l' : l' ⊆ l -> roomy p l -> roomy p l'.
Proof. intros Hsub [Hm Ho Hs]. split; [done..|]. rewrite list.Forall_forall in *. auto. Qed.

(** Accounting for an object that has just been opened or written to. *)
Lemma account_open r k f : policy_roomy r -> rs_objects r = ∅ -> 0 <= memory_size f <= file_bound ->
  exists r', account k (memory_size f) (bool_decide (is_Some (rs_handles r !! k))) (with_handles (<[k := f]> (rs_handles r)) r) = (Ok tt, r') /\
    policy_roomy r' /\ rs_objects r' = ∅ /\ rs_os r' = rs_os r /\
    rs_handles r' ⊆ <[k := f]> (rs_handles r) /\ rs_handles r' !! k = Some f.
Proof.
  intros Hp Hno Hf. set (r1 := with_handles _ r). unfold policy_roomy in Hp. destruct (rs_policy r) as [|p] eqn:Hpol.
  { exists (with_policy NoEvictionPolicy r1). unfold account, modify, mbind, M_bind. simpl. rewrite Hpol. split.
    - by apply run_eviction_none.
    - split_and!; [done..|apply lookup_insert_eq]. }
  destruct Hp as (l & [_ Hrep Hk] & Hst & Hroom). pose proof Hst as [[Hmem _] _ _]. pose proof Hroom as [Hm Ho Hs].
  assert (Hroom' : roomy p (spec_add k (memory_size f) l)).
  { split; [done..|]. apply list.Forall_app. split; [|constructor; [simpl; lia|constructor]].
    rewrite list.Forall_forall in *. intros e [_ He]%list_elem_of_filter. auto. }
  assert (Hsm : small p (spec_add k (memory_size f) l)).
  { apply settled_small_add; [done|]. unfold max_file_len. lia. }
  destruct (account_sound r1 p l k (memory_size f) (bool_decide (is_Some (rs_handles r !! k))))
    as (n & r' & p' & Hrun & Hrem & Hs' & [E1 E2 E3 E4 E5]); [done|done| | |done|].
  { apply bool_decide_ext. rewrite Hk, Hno, lookup_empty. unfold is_Some. naive_solver. }
  { intros j. simpl. rewrite Hk, Hno, lookup_empty, lookup_insert_is_Some. unfold is_Some. destruct (decide (k = j)); naive_solver. }
  assert (Hlast : (k, memory_size f) ∈ drop (EVICTION_BATCH_SIZE * n) (spec_add k (memory_size f) l)) by by apply (roomy_keeps_last p).
  exists r'. split; [done|]. split_and!.
  - unfold policy_roomy. rewrite (so_policy _ _ _ Hs'). eexists. split; [exact Hs'|]. split.
    + eapply settled_rest; [apply Hst|apply (sm_sizes p _ Hsm)|done..].
    + eapply (roomy_limits p); [done..|]. eapply roomy_sub; [|exact Hroom']. intros e He. 
      rewrite <- (take_drop (EVICTION_BATCH_SIZE * n) (spec_add k (memory_size f) l)). apply elem_of_app. by right.
  - apply map_empty. intros j. rewrite E1. simpl. rewrite Hno. by case_decide.
  - done.
  - apply map_subseteq_spec. intros j g. rewrite E2. by case_decide.
  - assert (Hin : k ∈ (drop (EVICTION_BATCH_SIZE * n) (spec_add k (memory_size f) l)).*1).
    { apply list_elem_of_fmap. by exists (k, memory_size f). }
    apply (so_keys _ _ _ Hs') in Hin. rewrite E1, E2 in *. simpl in Hin. rewrite Hno, lookup_empty, lookup_insert_eq in Hin.
    simpl. rewrite lookup_insert_eq. case_decide; [|done]. unfold is_Some in Hin. naive_solver.
Qed.

(** ** The objects on disk and their open files *)

Record opens (o : Os) (m : objects) (h : gmap string ObjectFiles) : Prop := {
  on_handle : forall k f, h !! k = Some f -> exists key x, object_key key k /\ plain key /\ m !! k = Some x /\
    object_at o (dir_of root key) x (of_index f) (of_data f) /\ handle_ok f x o;
  on_counts : forall k1 k2 f1 f2, h !! k1 = Some f1 -> h !! k2 = Some f2 -> of_count f1 = of_count f2 -> k1 = k2
}.

Record filed (r : Resident) (m : objects) : Prop := {
  fl_objects : rs_objects r = ∅;
  fl_tree : tree_ok root (rs_os r) m;
  fl_opens : opens (rs_os r) m (rs_handles r);
  fl_policy : policy_roomy r
}.

Lemma opens_sub o m h h' : h' ⊆ h -> opens o m h -> opens o m h'.
Proof.
  intros Hsub [Hh Hc]. split.
  - intros k f Hk. apply (Hh k f). by eapply lookup_weaken.
  - intros k1 k2 f1 f2 H1' H2'. apply Hc; by eapply lookup_weaken.
Qed.

Lemma opens_extends o o' m m' h : tree_ok root o m -> extends o o' -> m ⊆ m' -> opens o m h -> opens o' m' h.
Proof.
  intros Ht [Xn Xi Xc] Hm [Hh Hc]. split; [|done]. intros k f Hk. destruct (Hh k f Hk) as (key & x & Hkey & Hp & Hx & Hat & Hok).
  exists key, x. split_and!; [done..|by eapply lookup_weaken| |].
  - destruct Hat as [Hi Hd (j & b & Hj & Hb & Hrest) Hib Hdb].
    split; [auto|auto| |rewrite Xi; [done|by eapply tr_live]|rewrite Xi; [done|by eapply tr_live]].
    exists j, b. split; [auto|]. split; [|done]. rewrite Xi; [done|by eapply tr_live].
  - destruct Hat as [Hi Hd _ _ _]. destruct Hok as [K1 K2 K3 K4].
    split; [done|rewrite Xi; [done|by eapply tr_live]|rewrite Xi; [done|by eapply tr_live]|by rewrite Xc].
Qed.

Lemma extends_refl_same o o' : same o o' -> extends o o'.
Proof. intros [E1 E2 E3 E4 E5]. by split; rewrite ?E1, ?E3, ?E4. Qed.

Lemma opens_same o o' m h : tree_ok root o m -> same o o' -> opens o m h -> opens o' m h.
Proof. intros Ht Hs. apply opens_extends; [done|by apply extends_refl_same|done]. Qed.

Lemma opens_opened o o' m h k f key x : tree_ok root o m -> opens o m h -> h !! k = None ->
  object_key key k -> plain key -> m !! k = Some x -> opened f x o o' -> handle_ok f x o' ->
  object_at o (dir_of root key) x (of_index f) (of_data f) -> opens o' m (<[k := f]> h).
Proof.
  intros Ht [Hh Hc] Hk Hkey Hp Hx [E1 E2 E3 E4 E5 E6] Hok Hat.
  assert (Hold : forall j g, h !! j = Some g -> of_count g <> of_count f).
  { intros j g Hj Heq. destruct (Hh j g Hj) as (key' & y & _ & _ & _ & _ & Hoky). pose proof (ho_count _ _ _ Hoky) as Hcnt.
    apply (tr_counts _ _ _ Ht) in Hcnt. lia. }
  assert (Hframe : forall dir y i d, object_at o dir y i d -> object_at o' dir y i d).
  { intros dir y i d Hy. eapply object_at_frame; [done|by rewrite E1|by rewrite E3]. }
  split.
  - intros j g [[<- <-]|[Hne Hj]]%lookup_insert_Some; [exists key, x; by split_and!; auto|].
    destruct (Hh j g Hj) as (key' & y & Hkey' & Hp' & Hy & Haty & [K1 K2 K3 K4]). exists key', y. split_and!; auto.
    split; [done|by rewrite E3|by rewrite E3|]. rewrite E5, lookup_insert_ne; [done|]. intros Heq. by apply (Hold j g Hj).
  - intros k1 k2 f1 f2 [[<- <-]|[N1 J1]]%lookup_insert_Some [[<- <-]|[N2 J2]]%lookup_insert_Some Heq; [done| | |by eapply Hc].
    + by destruct (Hold k2 f2 J2).
    + by destruct (Hold k1 f1 J1).
Qed.

Lemma opens_appended o o' m h k f key x x' : tree_ok root o m -> opens o m h -> h !! k = Some f ->
  object_key key k -> object_at o (dir_of root key) x (of_index f) (of_data f) -> of_data_type f = ob_data_type x' ->
  appended f x' o o' -> tree_ok root o' (<[k := x']> m) -> opens o' (<[k := x']> m) h.
Proof.
  intros Ht [Hh Hc] Hk Hkey Hat Hty Hap Ht'. pose proof (object_at_inodes _ _ _ _ _ _ _ Ht Hat) as Hne.
  split; [|done]. intros j g Hj. destruct (Hh j g Hj) as (key' & y & Hkey' & Hp' & Hy & Haty & Hoky).
  destruct (decide (j = k)) as [->|Hjk].
  - assert (g = f) as -> by congruence. exists key, x'. rewrite lookup_insert_eq.
    rewrite (object_key_inj _ _ _ Hkey' Hkey) in *. split_and!; [done..| |by eapply appended_handle].
    destruct (tr_objects _ _ _ Ht' k x') as (_ & key2 & i & d & Hkey2 & _ & Hat2); [apply lookup_insert_eq|].
    rewrite (object_key_inj _ _ _ Hkey2 Hkey) in Hat2. pose proof Hat2 as [Hi Hd _ _ _]. rewrite (ap_names _ _ _ _ Hap) in Hi, Hd.
    rewrite (oa_index _ _ _ _ _ Hat) in Hi. rewrite (oa_data _ _ _ _ _ Hat) in Hd. by simplify_eq.
  - exists key', y. rewrite lookup_insert_ne by done.
    assert (Hdir : dir_of root key' <> dir_of root key).
    { intros Heq. apply Hjk. rewrite (dir_of_inj root _ _ _ _ Hkey' Hkey Heq) in Hkey'. destruct Hkey', Hkey. by simplify_eq. }
    assert (Hin : forall file i, o_names o !! (dir_of root key' ++ [file]) = Some i -> o_inodes o' !! i = o_inodes o !! i).
    { intros file i. by apply (appended_other root o o' m f (dir_of root key) x x'). }
    split_and!; [done..| |].
    + eapply object_at_frame; [done|by rewrite (ap_names _ _ _ _ Hap)|done].
    + destruct Hoky as [K1 K2 K3 K4]. split; [done| | |].
      * by rewrite (Hin _ _ (oa_index _ _ _ _ _ Haty)).
      * by rewrite (Hin _ _ (oa_data _ _ _ _ _ Haty)).
      * rewrite (ap_counts _ _ _ _ Hap), lookup_insert_ne; [done|]. intros Heq. apply Hjk. by eapply Hc.
Qed.

Lemma opens_shrinks o o' m h key : tree_ok root o' (unmatched key m) -> shrinks o o' -> opens o m h ->
  opens o' (unmatched key m) (filter (fun kv : string * ObjectFiles => matches key kv.1 = false) h).
Proof.
  intros Ht' [Sn Si Sc Sf] [Hh Hc]. split.
  - intros k f [Hk Hmk]%map_lookup_filter_Some. simpl in Hmk. destruct (Hh k f Hk) as (key' & x & Hkey & Hp & Hx & Hat & [K1 K2 K3 K4]).
    assert (Hx' : unmatched key m !! k = Some x) by by apply lookup_unmatched.
    exists key', x. split_and!; [done..| |by split; rewrite ?Si, ?Sc].
    destruct (tr_objects _ _ _ Ht' k x Hx') as (_ & key2 & i & d & Hkey2 & _ & Hat2).
    rewrite (object_key_inj _ _ _ Hkey2 Hkey) in Hat2. pose proof Hat2 as [Hi Hd _ _ _].
    pose proof (lookup_weaken _ _ _ _ Hi Sn) as Hi'. pose proof (lookup_weaken _ _ _ _ Hd Sn) as Hd'.
    rewrite (oa_index _ _ _ _ _ Hat) in Hi'. rewrite (oa_data _ _ _ _ _ Hat) in Hd'. by simplify_eq.
  - intros k1 k2 f1 f2 [J1 _]%map_lookup_filter_Some [J2 _]%map_lookup_filter_Some. by apply Hc.
Qed.

Lemma filed_os r m o : filed r m -> tree_ok root o m -> opens o m (rs_handles r) -> filed (with_os o r) m.
Proof.
  intros [Ho _ _ Hp] Ht Hop. split; [done..|]. by apply policy_roomy_os.
Qed.

Lemma filed_same r m o : filed r m -> same (rs_os r) o -> filed (with_os o r) m.
Proof.
  intros Hf Hs. apply filed_os; [done|eapply tree_same; [done|apply Hf]|].
  eapply opens_same; [apply Hf|done|apply Hf].
Qed.

(** ** [files] *)

Lemma files_absent r m key k : filed r m -> object_key key k -> plain key -> m !! k = None ->
  exists r', files (DiskStorage root) key r = (Ok None, r') /\ filed r' m.
Proof.
  intros Hf Hk Hp Hm. exists (with_os (tick_call (rs_os r)) r). split; [|apply filed_same; [done|by split]].
  assert (Hh : rs_handles r !! k = None).
  { apply eq_None_not_Some. intros [f Hh]. destruct (on_handle _ _ _ (fl_opens _ _ Hf) k f Hh) as (? & x & _ & _ & Hx & _). congruence. }
  unfold files. rewrite (key_string_object _ _ Hk). unfold lift, gets, mbind, M_bind. rewrite Hh.
  unfold below, zoom. simpl. unfold disk_open. rewrite (object_dir_plain root key k Hp Hk). unfold lift, mbind, M_bind.
  rewrite (files_open_none quiet); [done|]. apply eq_None_not_Some. intros [i Hi].
  by apply (tree_nothing_below root (rs_os r) m key k [INDEX_FILE] (fl_tree _ _ Hf) Hk Hm) in Hi.
Qed.

Lemma files_present r m key k x : filed r m -> object_key key k -> plain key -> m !! k = Some x ->
  exists f r', files (DiskStorage root) key r = (Ok (Some f), r') /\ filed r' m /\ rs_handles r' !! k = Some f.
Proof.
  intros Hf Hk Hp Hm. unfold files. rewrite (key_string_object _ _ Hk). unfold lift, gets, mbind, M_bind.
  destruct (rs_handles r !! k) as [f|] eqn:Hh; [by exists f, r|].
  destruct (tr_objects _ _ _ (fl_tree _ _ Hf) k x Hm) as (Hfits & key' & i & d & Hkey & _ & Hat).
  rewrite (object_key_inj _ _ _ Hkey Hk) in Hat.
  destruct (files_open_ok quiet (rs_os r) _ x i d Hat Hfits) as (f & o' & Hopen & Hop & Hok & Hi & Hd).
  pose proof (opens_opened (rs_os r) o' m (rs_handles r) k f key x (fl_tree _ _ Hf) (fl_opens _ _ Hf) Hh Hk Hp Hm Hop Hok
    ltac:(by subst i d)) as Hopens.
  destruct (account_open (with_os o' r) k f (policy_roomy_os r o' (fl_policy _ _ Hf)) (fl_objects _ _ Hf) (memory_size_bound f x o' Hok Hfits))
    as (r' & Hacc & Hroom' & Hno & Hos & Hsub & Hlast).
  exists f, r'. unfold below, zoom. simpl. unfold disk_open. rewrite (object_dir_plain root key k Hp Hk). unfold lift, mbind, M_bind.
  rewrite Hopen. simpl. rewrite Hh. unfold modify. simpl in Hacc. rewrite Hh in Hacc. rewrite Hacc. split; [done|]. split; [|done].
  split; [done| | |done]; rewrite Hos; simpl; [eapply tree_opened; [done|apply Hf]|by eapply opens_sub].
Qed.

Lemma filed_handle r m key k f x : filed r m -> object_key key k -> m !! k = Some x -> rs_handles r !! k = Some f ->
  fits x /\ handle_ok f x (rs_os r) /\ object_at (rs_os r) (dir_of root key) x (of_index f) (of_data f).
Proof.
  intros Hf Hk Hm Hh. destruct (on_handle _ _ _ (fl_opens _ _ Hf) k f Hh) as (key' & y & Hkey & _ & Hy & Hat & Hok).
  rewrite (object_key_inj _ _ _ Hkey Hk) in Hat. assert (y = x) as -> by congruence. split; [|done].
  by destruct (tr_objects _ _ _ (fl_tree _ _ Hf) k x Hm).
Qed.

(** ** The contract *)

Lemma filed_write s m key k meta chunks data : filed s m -> plain key -> object_key key k -> m !! k = None ->
  drain chunks = Ok data -> fits (created meta data) ->
  exists s', write_stream E key meta chunks s = (Ok (with_size (len data) meta), s') /\ filed s' (<[k := created meta data]> m).
Proof.
  intros Hf Hp Hk Hm Hd Hfit.
  destruct (disk_write_ok quiet root (rs_os s) m key k meta chunks data (fl_tree _ _ Hf) Hk Hp Hm Hd Hfit) as (o' & Hw & Ht & Hx).
  exists (with_os o' s). split.
  - simpl. unfold resident_write_stream. rewrite (key_string_object _ _ Hk). unfold lift, mbind, M_bind, below, zoom. simpl. by rewrite Hw.
  - assert (Hop : opens o' (<[k := created meta data]> m) (rs_handles s)).
    { eapply opens_extends; [apply Hf|done|by apply insert_subseteq|apply Hf]. }
    destruct Hf as [Ho _ _ Hpol]. split; [done..|]. by apply policy_roomy_os.
Qed.

Lemma filed_broken s m key k meta chunks e : filed s m -> plain key -> object_key key k -> m !! k = None -> drain chunks = Err e ->
  exists s', write_stream E key meta chunks s = (Err e, s') /\ filed s' m.
Proof.
  intros Hf Hp Hk Hm Hd.
  destruct (disk_write_broken quiet root (rs_os s) m key k meta chunks e (fl_tree _ _ Hf) Hk Hp Hm Hd) as (o' & Hw & Ht & Hx).
  exists (with_os o' s). split.
  - simpl. unfold resident_write_stream. rewrite (key_string_object _ _ Hk). unfold lift, mbind, M_bind, below, zoom. simpl. by rewrite Hw.
  - apply filed_os; [done..|]. eapply opens_extends; [apply Hf|done|done|apply Hf].
Qed.

Lemma filed_stat s m key k : filed s m -> plain key -> object_key key k ->
  exists s', stat E key s = (Ok (stat_of <$> m !! k), s') /\ filed s' m.
Proof.
  intros Hf Hp Hk. simpl. unfold resident_stat. destruct (m !! k) as [x|] eqn:Hm.
  - destruct (files_present s m key k x Hf Hk Hp Hm) as (f & r & Hfiles & Hf' & Hh).
    destruct (filed_handle r m key k f x Hf' Hk Hm Hh) as (Hfit & Hok & _). unfold mbind, M_bind. rewrite Hfiles.
    unfold below, zoom. rewrite (files_stat_ok quiet f x _ Hok Hfit). eexists. split; [done|]. apply filed_same; [done|by split].
  - destruct (files_absent s m key k Hf Hk Hp Hm) as (r & Hfiles & Hf'). unfold mbind, M_bind. rewrite Hfiles.
    unfold below, zoom. simpl. unfold disk_stat, disk_open. rewrite (object_dir_plain root key k Hp Hk). unfold lift, mbind, M_bind.
    rewrite (files_open_none quiet).
    + eexists. split; [done|]. apply filed_same; [done|by split].
    + apply eq_None_not_Some. intros [i Hi]. by apply (tree_nothing_below root (rs_os r) m key k [INDEX_FILE] (fl_tree _ _ Hf') Hk Hm) in Hi.
Qed.

Lemma filed_read s m key k x i d offset n : filed s m -> plain key -> object_key key k -> m !! k = Some x -> ob_data x !! i = Some d ->
  0 <= offset -> 0 <= n -> offset + n <= data_size d ->
  exists s', read_range E key i offset n s = (Ok (slice (offset, offset + n) (od_data d)), s') /\ filed s' m.
Proof.
  intros Hf Hp Hk Hm Hi Ho Hn Hle. simpl. unfold resident_read_range. rewrite (key_string_object _ _ Hk).
  destruct (files_present s m key k x Hf Hk Hp Hm) as (f & r & Hfiles & Hf' & Hh).
  destruct (filed_handle r m key k f x Hf' Hk Hm Hh) as (Hfit & Hok & _).
  destruct (files_read_range_ok quiet f x i d offset n _ Hok Hfit Hi Ho Hn Hle) as (o' & Hread & Hs).
  unfold lift, mbind, M_bind. rewrite Hfiles. unfold below, zoom. rewrite Hread. eexists. split; [done|]. by apply filed_same.
Qed.

Lemma filed_patch s m key k x data : filed s m -> plain key -> object_key key k -> m !! k = Some x -> fits (append_part data x) ->
  exists meta s', patch_object E key data s = (Ok meta, s') /\ filed s' (<[k := append_part data x]> m).
Proof.
  intros Hf Hp Hk Hm Hfit. simpl. unfold resident_patch_object. rewrite (key_string_object _ _ Hk).
  destruct (files_present s m key k x Hf Hk Hp Hm) as (f & r & Hfiles & Hf' & Hh).
  destruct (filed_handle r m key k f x Hf' Hk Hm Hh) as (_ & Hok & Hat). pose proof (fl_tree _ _ Hf') as Ht.
  pose proof (object_at_inodes _ _ _ _ _ _ _ Ht Hat) as Hne.
  destruct (files_append_ok quiet f x data k (rs_os r) Hok Hne Hfit) as (meta & o' & Happ & Hkey & Hap).
  assert (Ht' : tree_ok root o' (<[k := append_part data x]> m)).
  { eapply (tree_appended root f key k x); [done..|eapply (tr_counts _ _ _ Ht), Hok|done|done|done]. }
  assert (Hop : opens o' (<[k := append_part data x]> m) (rs_handles r)).
  { eapply opens_appended; [done|apply Hf'|done..|apply Hok|done|done]. }
  assert (Hok' : handle_ok f (append_part data x) o') by (eapply appended_handle; [done|apply Hok|done]).
  destruct (account_open (with_os o' r) k f (policy_roomy_os r o' (fl_policy _ _ Hf')) (fl_objects _ _ Hf')
    (memory_size_bound f _ o' Hok' Hfit)) as (r' & Hacc & Hroom & Hno & Hos & Hsub & _).
  simpl in Hacc, Hsub. rewrite Hh in Hacc. rewrite insert_id in Hacc, Hsub by done. rewrite bool_decide_eq_true_2 in Hacc by eauto.
  unfold lift, mbind, M_bind. rewrite Hfiles. unfold below, zoom. rewrite Happ, Hkey.
  change (with_handles (rs_handles r) (with_os o' r)) with (with_os o' r) in Hacc. rewrite Hacc.
  exists meta, r'. split; [done|]. split; [done| | |done]; rewrite Hos; [done|by eapply opens_sub].
Qed.

Lemma filed_delete s m path key : filed s m -> plain key -> from_path path = Ok key ->
  exists s', delete_objects E key s = (Ok tt, s') /\ filed s' (unmatched key m).
Proof.
  intros Hf Hp Hpath. destruct (disk_delete_ok quiet root (rs_os s) m path key (fl_tree _ _ Hf) Hp Hpath) as (o' & Hd & Ht & Hs).
  exists (forget key (with_os o' s)). split.
  - simpl. unfold resident_delete_objects, mbind, M_bind, below, zoom. simpl. by rewrite Hd.
  - pose proof (policy_roomy_os s o' (fl_policy _ _ Hf)) as Hpol. split; [| |by eapply opens_shrinks, Hf|].
    + simpl. rewrite (fl_objects _ _ Hf). apply map_filter_empty.
    + done.
    + unfold policy_roomy in *. simpl in Hpol. destruct (rs_policy s) as [|p] eqn:Hpp.
      { simpl. rewrite Hpp. by induction (selected key _). }
      destruct Hpol as (l & Hso & Hst & Hroom).
      destruct (forget_sound key _ p l Hso Hst) as (p' & l' & Hso' & Hst' & Hm & Ho & Hsub).
      rewrite (so_policy _ _ _ Hso'). exists l'. split_and!; [done..|]. by eapply roomy_limits, roomy_sub.
Qed.

Lemma filed_touch s m key : filed s m -> filed (touch E key s) m.
Proof.
  intros Hf. simpl. unfold resident_touch. destruct (to_key key) as [k|]; [|done]. destruct Hf as [Ho Ht Hop Hp].
  split; [done..|]. unfold policy_roomy in *. destruct (rs_policy s) as [|p] eqn:Hpp; [done|]. destruct Hp as (l & Hs & Hst & Hroom).
  destruct (access_sound k s p l Hs Hst) as (p' & l' & Hs' & Hst' & Hm & Hc & Hl). rewrite Hpp in Hs'. rewrite (so_policy _ _ _ Hs').
  exists l'. split_and!; [done..|]. eapply roomy_limits; [done..|]. eapply roomy_sub; [|done]. intros e. by rewrite Hl.
Qed.

(** The contract of the file-backed cache. *)
Definition FileStore : StoreSpec E.
Proof.
  refine (Build_StoreSpec _ _ E filed plain True _ _ _ _ _ _ _ _).
  - intros s m k x Hf Hm. by destruct (tr_objects _ _ _ (fl_tree _ _ Hf) k x Hm).
  - intros s m key k meta chunks data Hf Hp Hk Hm Hd Hfit.
    destruct (filed_write s m key k meta chunks data Hf Hp Hk Hm Hd Hfit) as (s' & ? & ?). exists s', (<[k := created meta data]> m).
    split_and!; done.
  - intros s m key k meta chunks e Hf Hp Hk. by apply filed_broken.
  - intros s m key k Hf Hp Hk. by apply filed_stat.
  - intros s m key k x i d offset n Hf Hp Hk Hm Hi. by apply (filed_read s m key k x).
  - intros s m key k x data Hf Hp Hk Hm Hfit. destruct (filed_patch s m key k x data Hf Hp Hk Hm Hfit) as (meta & s' & ? & ?).
    exists meta, s', (<[k := append_part data x]> m). split_and!; done.
  - exact filed_delete.
  - exact filed_touch.
Defined.
End file_store.
