(* ===== verification/ObjScan.v ===== *)
(** * Starting on a used disk

    [DiskStorage::scan] ([object_cache/src/storage/disk.rs]) lists the objects
    of the disk and [ObjectCache::load_from_storage] ([cache.rs]) builds the
    metadata from them.  A cache that is started on the disk of another one
    serves the same objects. *)
From Stdlib Require Import Ascii.
From S2P Require Import Prelude Types Engine FsDisk FsRecord ObjKey ObjStore ObjOs ObjDisk Lru Resident CacheOnly ObjCache ObjCacheInv ObjDiskInv ObjTree ObjCreate ObjDelete FileStore.
Local Open Scope Z_scope.
#[local] Arguments engine : simpl never.

Section scan.
Context `{Disk, Env, Json}.
Hypothesis quiet : forall n, io_fault n = None.
Variable root : path.
Variable m : objects.

(** [l] lists the objects whose keys satisfy [P]. *)
Definition found (P : ObjectKey -> Prop) (l : list (ObjectKey * ObjectStat)) : Prop :=
  forall key st, (key, st) ∈ l <-> P key /\ exists x, stored m key x /\ st = stat_of x.

Lemma found_iff (P Q : ObjectKey -> Prop) l : (forall key x, stored m key x -> P key <-> Q key) -> found P l -> found Q l.
Proof. intros Hpq Hf key st. rewrite (Hf key st). split; intros (Hk & x & Hx & Hst); (split; [by eapply Hpq|eauto]). Qed.

Lemma found_nil (P : ObjectKey -> Prop) : (forall key x, stored m key x -> ~ P key) -> found P [].
Proof. intros Hno key st. rewrite elem_of_nil. split; [done|]. intros (Hk & x & Hx & _). by eapply Hno. Qed.

(** A scan of one level. *)
Definition lists (body : list (ObjectKey * ObjectStat) -> M Os (list (ObjectKey * ObjectStat))) (P : ObjectKey -> Prop) : Prop :=
  forall acc o, tree_ok root o m -> exists l o', body acc o = (Ok (acc ++ l), o') /\ found P l /\ tree_ok root o' m.

Lemma for_names_lists names (body : string -> list (ObjectKey * ObjectStat) -> M Os (list (ObjectKey * ObjectStat))) P :
  (forall name, lists (body name) (P name)) -> lists (for_names names body) (fun key => exists name, name ∈ names /\ P name key).
Proof.
  intros Hb. induction names as [|name names IH]; intros acc o Ht; simpl.
  { exists [], o. rewrite app_nil_r. split; [done|]. split; [|done]. apply found_nil. intros key x _ (name & Hn & _). by apply elem_of_nil in Hn. }
  destruct (Hb name acc o Ht) as (l1 & o1 & H1' & F1 & Ht1). destruct (IH (acc ++ l1) o1 Ht1) as (l2 & o2 & H2' & F2 & Ht2).
  exists (l1 ++ l2), o2. unfold mbind, M_bind. rewrite H1', H2', app_assoc. split; [done|]. split; [|done].
  intros key st. rewrite elem_of_app, (F1 key st), (F2 key st). setoid_rewrite elem_of_cons. naive_solver.
Qed.

Lemma os_is_dir_quiet p o : os_is_dir p o = (Ok (bool_decide (p ∈ o_dirs o)), tick_call o).
Proof. unfold os_is_dir, mbind, M_bind. by rewrite (ocall_quiet quiet). Qed.

Lemma os_read_dir_quiet p o : p ∈ o_dirs o -> io_try (os_read_dir p) o = (Ok (dir_order (os_children p o)), tick_call o).
Proof. intros Hp. apply (io_try_quiet quiet). simpl. by rewrite bool_decide_eq_true_2. Qed.

Lemma tree_tick o : tree_ok root o m -> tree_ok root (tick_call o) m.
Proof. apply tree_same. by split. Qed.

Lemma listed_child dir a r o : dir ++ a :: r ∈ o_dirs o -> a ∈ dir_order (os_children dir o).
Proof.
  intros Hin. rewrite dir_order_perm, elem_of_elements. unfold os_children. apply elem_of_list_to_set, list_elem_of_omap.
  exists (dir ++ a :: r). split; [apply elem_of_app; left; by apply elem_of_elements|].
  unfold child_of. by rewrite under_app, drop_app_length.
Qed.

Lemma stored_object key x : stored m key x -> key = mkKey (app_name key) (session_id key) (Some (default "" (object_id key))).
Proof. intros (k & Hk & _). destruct (object_key_object _ _ Hk) as (id & Hid & _). destruct key. simpl in *. by subst. Qed.

Lemma scan_object_lists a s n : lists (scan_object a s n (root ++ [a; s; n])) (fun key => key = mkKey a s (Some n)).
Proof.
  intros acc o Ht. unfold scan_object. unfold mbind at 1, M_bind at 1. rewrite os_is_dir_quiet. case_bool_decide as Hin; simpl.
  2:{ exists [], (tick_call o). rewrite app_nil_r. split; [done|]. split; [|by apply tree_tick].
      apply found_nil. intros key x Hst ->. by destruct (tr_dirs _ _ _ Ht _ _ Hst) as (_ & _ & ?). }
  destruct (tr_deep _ _ _ Ht _ Hin ltac:(done)) as (key & x & Hst & Hd). pose proof (stored_object _ _ Hst) as Hkey.
  apply app_inv_head in Hd. injection Hd as E1 E2 E3. rewrite <- E1, <- E2, <- E3 in Hkey. subst key.
  pose proof Hst as (k & Hk & Hp & Hm). rewrite (pl_object _ Hp n eq_refl).
  destruct (tr_objects _ _ _ Ht k x Hm) as (Hfit & key' & i & d & Hk' & _ & Hat). rewrite (object_key_inj _ _ _ Hk' Hk) in Hat.
  assert (Hat' : object_at (tick_call o) (root ++ [a; s; n]) x i d) by by eapply object_at_frame.
  destruct (files_open_ok quiet _ _ _ _ _ Hat' Hfit) as (f & o' & Hopen & Hop & Hok & _ & _).
  unfold mbind, M_bind. rewrite Hopen, (files_stat_ok quiet f x o' Hok Hfit). eexists _, _. split; [done|]. split.
  - intros key st. rewrite list_elem_of_singleton. split; [intros [= -> ->]; eauto|]. intros (-> & y & Hy & ->).
    by rewrite (stored_key m _ _ _ Hy Hk) in Hm; simplify_eq.
  - apply tree_tick. eapply tree_opened; [done|by apply tree_tick].
Qed.

(** A level is the names of its directory. *)
Lemma names_lists r (P : ObjectKey -> Prop) (Q : string -> ObjectKey -> Prop) body o :
  tree_ok root o m -> (forall name, lists (body name) (Q name)) ->
  (forall key x, stored m key x -> P key <-> exists name, Q name key) ->
  (forall name key x, stored m key x -> Q name key -> exists t, dir_of root key = root ++ r ++ name :: t) ->
  lists (for_names (dir_order (os_children (root ++ r) o)) body) P.
Proof.
  intros Ht Hb HP HQ acc o1 Ht1.
  destruct (for_names_lists (dir_order (os_children (root ++ r) o)) body Q Hb acc o1 Ht1) as (l & o2 & Hrun & Hf & Ht2).
  exists l, o2. split; [done|]. split; [|done]. eapply found_iff; [|exact Hf]. intros key x Hst. rewrite (HP key x Hst).
  split; [naive_solver|]. intros (name & Hq). exists name. split; [|done]. destruct (HQ name key x Hst Hq) as [t Ht'].
  destruct (tr_dirs _ _ _ Ht key x Hst) as (_ & _ & Hin). rewrite Ht', app_assoc in Hin. by apply listed_child in Hin.
Qed.

(** A directory that has become empty goes. *)
Lemma scan_dir_lists r (P : ObjectKey -> Prop) (Q : string -> ObjectKey -> Prop) body acc o :
  tree_ok root o m -> root ++ r ∈ o_dirs o -> (length r < 3)%nat -> (forall name, lists (body name) (Q name)) ->
  (forall key x, stored m key x -> P key <-> exists name, Q name key) ->
  (forall name key x, stored m key x -> Q name key -> exists t, dir_of root key = root ++ r ++ name :: t) ->
  exists l o', (names ← io_try (os_read_dir (root ++ r)); acc ← for_names names body acc; remove_empty_dir (root ++ r) ≫= fun _ => mret acc) o
    = (Ok (acc ++ l), o') /\ found P l /\ tree_ok root o' m.
Proof.
  intros Ht Hin Hl Hb HP HQ. rewrite (bind_Ok _ _ _ _ _ (os_read_dir_quiet _ _ Hin)).
  destruct (names_lists r P Q body o Ht Hb HP HQ acc (tick_call o) (tree_tick o Ht)) as (l & o1 & Hrun & Hf & Ht1).
  destruct (remove_empty_ok quiet root o1 m r Ht1 Hl) as (o2 & Hrm & Ht2 & _).
  rewrite (bind_Ok _ _ _ _ _ Hrun), (bind_Ok _ _ _ _ _ Hrm). by exists l, o2.
Qed.

Lemma scan_session_lists a s : lists (scan_session a s (root ++ [a; s])) (fun key => app_name key = a /\ session_id key = s).
Proof.
  intros acc o Ht. unfold scan_session. rewrite (bind_Ok _ _ _ _ _ (os_is_dir_quiet _ _)). case_bool_decide as Hin; simpl negb; cbv iota.
  2:{ exists [], (tick_call o). rewrite app_nil_r. split; [done|]. split; [|by apply tree_tick].
      apply found_nil. intros key x Hst [<- <-]. by destruct (tr_dirs _ _ _ Ht _ _ Hst) as (_ & ? & _). }
  apply (scan_dir_lists [a; s] _ (fun n key => key = mkKey a s (Some n))).
  - by apply tree_tick.
  - done.
  - simpl. lia.
  - intros n. rewrite <- app_assoc. apply scan_object_lists.
  - intros key x Hst. split; [|by intros [n ->]]. intros [<- <-]. exists (default "" (object_id key)). by eapply stored_object.
  - intros n key x _ ->. by exists [].
Qed.

(** No object is of an application named as the directory of [fsck]. *)
Hypothesis no_lost : forall key x, stored m key x -> app_name key <> LOST_FOUND_DIR.

Lemma scan_app_lists a : lists (scan_app a (root ++ [a])) (fun key => app_name key = a).
Proof.
  intros acc o Ht. unfold scan_app. rewrite (bind_Ok _ _ _ _ _ (os_is_dir_quiet _ _)).
  destruct (negb _ || _) eqn:Hskip.
  - exists [], (tick_call o). rewrite app_nil_r. split; [done|]. split; [|by apply tree_tick].
    apply found_nil. intros key x Hst <-. apply orb_true_iff in Hskip as [Hd%negb_true_iff%bool_decide_eq_false|Hl%bool_decide_eq_true].
    + by destruct (tr_dirs _ _ _ Ht _ _ Hst).
    + by eapply no_lost.
  - apply orb_false_iff in Hskip as [Hin%negb_false_iff%bool_decide_eq_true _].
    apply (scan_dir_lists [a] _ (fun s key => app_name key = a /\ session_id key = s)).
    + by apply tree_tick.
    + done.
    + simpl. lia.
    + intros s. rewrite <- app_assoc. apply scan_session_lists.
    + intros key x _. naive_solver.
    + intros s key x _ [<- <-]. by eexists.
Qed.

Lemma disk_scan_lists o : tree_ok root o m -> root ∈ o_dirs o ->
  exists l o', disk_scan root o = (Ok l, o') /\ found (fun _ => True) l /\ tree_ok root o' m.
Proof.
  intros Ht Hin. unfold disk_scan. rewrite (bind_Ok _ _ _ _ _ (os_exists_quiet quiet _ _)).
  assert (Hex : path_exists root o = true) by (unfold path_exists; by rewrite bool_decide_eq_true_2).
  rewrite Hex. cbn [negb].
  rewrite (bind_Ok _ _ _ _ _ (os_read_dir_quiet root (tick_call o) Hin)).
  assert (Hl : lists (for_names (dir_order (os_children root (tick_call o))) (fun name => scan_app name (root ++ [name]))) (fun _ => True)).
  { rewrite <- (app_nil_r root) at 1. apply (names_lists [] _ (fun a key => app_name key = a)).
    - by apply tree_tick.
    - apply scan_app_lists.
    - intros key x _. naive_solver.
    - intros a key x _ <-. by eexists. }
  by apply Hl, tree_tick, tree_tick.
Qed.
End scan.

(** ** Loading the metadata *)

Section restart.
Context `{Disk, Env, Json, Millis}.
Hypothesis quiet : forall n, io_fault n = None.
Variable root : path.
Variable endpoint : string.

Abbreviation E := (ResidentStorage (DiskStorage root) false).

(** The metadata of [m]. *)
Definition metadata_map (m : objects) : gmap string ObjectMetadata :=
  map_imap (fun k x => Some (described endpoint k x)) m.

Lemma metadata_map_lookup m k : metadata_map m !! k = described endpoint k <$> m !! k.
Proof. unfold metadata_map. rewrite map_lookup_imap. by destruct (m !! k). Qed.

(** An item of the list is an object of [m]. *)
Definition item_of (m : objects) (item : ObjectKey * ObjectStat) (k : string) (x : Object) : Prop :=
  object_key item.1 k /\ m !! k = Some x /\ item.2 = stat_of x /\ fits x.

Lemma load_items m items (c : ObjectCache Resident) :
  Forall (fun item => exists k x, item_of m item k x) items -> oc_metadata c ⊆ metadata_map m ->
  exists M, for_each items (fun item : ObjectKey * ObjectStat =>
      key_str ← lift (match to_key item.1 with Some k => Ok k | None => Panic end);
      meta ← lift (stat_metadata endpoint key_str item.2);
      insert_metadata key_str meta) c = (Ok tt, with_metadata M c) /\
    oc_metadata c ⊆ M /\ M ⊆ metadata_map m /\ (forall item k x, item ∈ items -> item_of m item k x -> is_Some (M !! k)).
Proof.
  intros Hall. revert c. induction Hall as [|item items (k & x & Hk & Hx & Hst & Hf) Hall IH]; intros c Hc.
  { exists (oc_metadata c). split; [by destruct c|]. split_and!; [done..|]. intros ? ? ? []%elem_of_nil. }
  set (c1 := with_metadata (<[k := described endpoint k x]> (oc_metadata c)) c).
  assert (Hc1 : oc_metadata c1 ⊆ metadata_map m).
  { apply insert_subseteq_l; [|done]. by rewrite metadata_map_lookup, Hx. }
  destruct (IH c1 Hc1) as (M & Hrun & Hsub & HM & Hdone). exists M.
  simpl for_each. unfold mbind, M_bind, lift. rewrite (ok_key _ _ Hk), Hst, (stat_metadata_of endpoint k x Hf).
  unfold insert_metadata, modify. fold c1. split; [exact Hrun|]. split; [|split; [done|]].
  - etrans; [|exact Hsub]. apply map_subseteq_spec. intros j y Hj. simpl. destruct (decide (j = k)) as [->|Hne].
    + rewrite lookup_insert_eq. apply (lookup_weaken _ _ _ _ Hj) in Hc. by rewrite metadata_map_lookup, Hx in Hc.
    + by rewrite lookup_insert_ne.
  - intros i j y [->|Hi]%elem_of_cons Hij; [|by eapply Hdone]. destruct Hij as (Hk' & _). pose proof (ok_key _ _ Hk) as K1.
    rewrite (ok_key _ _ Hk') in K1. injection K1 as ->. exists (described endpoint k x). eapply lookup_weaken; [|exact Hsub].
    apply lookup_insert_eq.
Qed.

(** A policy that nothing has been added to. *)
Definition policy_fresh (policy : EvictionPolicy) : Prop :=
  match policy with
  | NoEvictionPolicy => True
  | LruPolicy p => lru_rep p [] /\ settled p [] /\ roomy p []
  end.

Lemma fresh_filed policy o m : policy_fresh policy -> tree_ok root o m -> filed root (new_resident policy o) m.
Proof.
  intros Hp Ht. split; [done|done|by split|]. unfold policy_roomy. simpl. destruct policy as [|p]; [done|].
  destruct Hp as (Hr & Hs & Hro). exists []. split; [|done]. split; [done..|]. intros k. simpl. rewrite lookup_empty, elem_of_nil.
  unfold is_Some. naive_solver.
Qed.

(** C16 [roundtrip] A restart finds what was stored, when the disk works and the
    names are ones the scan sees.  A cache that is started on the disk of a
    file-backed cache finds exactly its objects: the scan reads every object
    back from its directory, loading succeeds, and the new cache, with an empty
    memory, describes and serves the same objects.  The conditions: no I/O call
    fails; no application is called lost+found, which the scan leaves out; no
    application or session is called . and no object identifier starts with a
    dot ([plain], part of [filed]), as such objects are not told apart from
    directories and unfinished writes; and the eviction policy, if there is
    one, has room for a batch of open objects. *)
Theorem restart_recovers r m policy :
  filed root r m -> root ∈ o_dirs (rs_os r) -> policy_fresh policy ->
  (forall key x, stored m key x -> app_name key <> LOST_FOUND_DIR) ->
  exists c, load_from_storage E endpoint (new_cache (new_resident policy (rs_os r))) = (Ok tt, c) /\
    oc_metadata c = metadata_map m /\ cache_ok (spec := FileStore quiet root) E endpoint c m.
Proof.
  intros Hf Hin Hp Hlost.
  destruct (disk_scan_lists quiet root m Hlost (rs_os r) (fl_tree _ _ _ Hf) Hin) as (l & o' & Hscan & Hfound & Ht).
  set (c1 := mkCache ∅ (new_resident policy o') 0 0 : ObjectCache Resident).
  assert (Hitems : Forall (fun item => exists k x, item_of m item k x) l).
  { apply list.Forall_forall. intros [key st] Hl. apply Hfound in Hl as (_ & x & (k & Hk & _ & Hx) & ->).
    exists k, x. split_and!; [done..|]. by destruct (tr_objects _ _ _ Ht k x Hx). }
  destruct (load_items m l c1 Hitems ltac:(apply map_empty_subseteq)) as (M & Hrun & _ & HM & Hdone).
  assert (HMm : M = metadata_map m).
  { apply (anti_symm (⊆)); [done|]. apply map_subseteq_spec. intros k y Hy. pose proof Hy as Hx. rewrite metadata_map_lookup in Hx.
    destruct (m !! k) as [x|] eqn:Hm; [|done]. destruct (tr_objects _ _ _ Ht k x Hm) as (Hfit & key & _ & _ & Hk & Hpl & _).
    destruct (Hdone (key, stat_of x) k x) as [z Hz]; [apply Hfound; split; [done|]; exists x; split; [by exists k|done]|done|].
    pose proof (lookup_weaken _ _ _ _ Hz HM). congruence. }
  exists (with_metadata M c1). split; [|split; [done|]].
  - unfold load_from_storage. rewrite (bind_Ok _ _ _ _ _ (engine_run (scan E) (new_cache (new_resident policy (rs_os r))) (Ok l) (new_resident policy o')
      ltac:(simpl; unfold below, zoom; simpl; by rewrite Hscan))). exact Hrun.
  - split; simpl.
    + by apply fresh_filed.
    + intros k x Hx. by rewrite HMm, metadata_map_lookup, Hx.
    + intros _ k meta. rewrite HMm, metadata_map_lookup. destruct (m !! k); [eauto|done].
    + intros k meta. rewrite HMm, metadata_map_lookup. destruct (m !! k) as [x|] eqn:Hx; [|done]. intros [= <-]. split; [done|].
      destruct (tr_objects _ _ _ Ht k x Hx) as (_ & key & _ & _ & Hk & Hpl & _). by exists key.
Qed.
End restart.
