(* ===== verification/ObjDemo.v ===== *)
(** * A concrete object cache

    Instances of what the object cache takes from other crates, a cache over
    the memory and one over a disk, and runs of both: the theorems on the cache
    applied to them, and a run in which eviction never ends. *)
From Stdlib Require Import Ascii.
From S2P Require Import Prelude Types Engine Snapshot FsDisk FsRecord FsDemo ObjKey ObjStore ObjOs ObjDisk Lru Resident CacheOnly ObjCache ObjCacheInv ObjGc ObjDiskInv ObjTree ObjCreate ObjDelete FileStore ObjScan.
Local Open Scope Z_scope.
#[local] Existing Instances demo_env.

(** A disk without faults, metadata as plain text, a clock that ticks. *)
#[local] Instance still_disk : Disk := demo_disk [].
#[local] Instance text_json : Json.
Proof.
  refine {| encode_metadata t := Some (String.list_ascii_of_string t); decode_metadata b := Some (String.string_of_list_ascii b);
            object_files_size := 64 |}.
  - intros t. eexists. split; [done|]. by rewrite String.string_of_list_ascii_of_string.
  - intros t b [= <-]. unfold len. assert (Hl : length (String.list_ascii_of_string t) = String.length t) by (induction t; simpl; congruence).
    rewrite Hl. lia.
  - lia.
Defined.
#[local] Instance tick_millis : Millis := {| current_time_millis n := Z.of_nat n |}.

Lemma still_quiet n : io_fault n = None.
Proof. done. Qed.

(** ** Over the memory *)

Definition demo_bytes : bytes := String.list_ascii_of_string "abc".
Definition demo_object : Object := mkObject 0 "bytes" [mkData 7 demo_bytes].
Definition demo_key : ObjectKey := mkKey "app" "ssn" (Some "o1").
Definition demo_path : string := "app/ssn/o1".
Definition no_files : Os := mkOs ∅ ∅ ∅ ∅ 0 0 0.

Definition demo_queue (max_objects : Z) (keys : list string) : LRUPolicy :=
  foldl lru_step (new_lru 100 (Some max_objects)) ((fun k => Add k 3) <$> keys).
Definition demo_resident (max_objects : Z) (keys : list string) : Resident :=
  mkResident (list_to_map ((fun k => (k, demo_object)) <$> keys)) ∅ (LruPolicy (demo_queue max_objects keys)) no_files.

Lemma demo_sound n keys l : foldl spec_step [] ((fun k => Add k 3) <$> keys) = l -> l.*1 = keys ->
  sound (demo_resident n keys) (demo_queue n keys) l.
Proof.
  intros <- Hk. split; [done|apply lru_steps_rep, new_lru_rep|]. intros k. rewrite Hk. simpl. rewrite lookup_empty, <- elem_of_dom.
  rewrite dom_list_to_map_L, elem_of_list_to_set, <- list_fmap_compose, list_fmap_id. unfold is_Some. naive_solver.
Qed.

Lemma eviction_keeps_recent_witness :
  let keys := ["a"; "b"; "c"; "d"; "e"; "f"; "g"; "h"; "i"; "j"; "k"; "l"] in
  exists r', run_eviction (demo_resident 11 keys) = (Ok tt, r') /\ rs_objects r' !! "l" = Some demo_object.
Proof.
  intros keys. set (l := foldl spec_step [] ((fun k => Add k 3) <$> keys)).
  destruct (eviction_keeps_recent (demo_resident 11 keys) (demo_queue 11 keys) l) as (n & r' & p' & Hrun & Hs & Hstop & Hneed & Ho & _).
  - by apply demo_sound.
  - split; [by repeat constructor|vm_compute; done|right; vm_compute; done].
  - exists r'. split; [done|]. apply Ho. split; [|by vm_compute].
    destruct n as [|[|n]].
    + apply (bool_decide_unpack _). by vm_compute.
    + apply (bool_decide_unpack _). by vm_compute.
    + specialize (Hneed 1%nat ltac:(lia)). by vm_compute in Hneed.
Defined.

Lemma overfull_put_loses_all_witness : exists r', set_resident "c" demo_object (demo_resident 2 ["a"; "b"]) = (Ok tt, r') /\ rs_objects r' = ∅.
Proof.
  apply (overfull_put_loses_all (demo_resident 2 ["a"; "b"]) (demo_queue 2 ["a"; "b"]) [("a", 3); ("b", 3)]).
  - by apply demo_sound.
  - done.
  - apply (bool_decide_unpack _). by vm_compute.
  - unfold EVICTION_BATCH_SIZE. simpl. lia.
  - split; [by repeat constructor|vm_compute; done|right; vm_compute; done].
  - by vm_compute.
Defined.

(** A cache that holds one object. *)
Definition demo_cache_of (o : Object) : ObjectCache Resident :=
  mkCache {[demo_path := described "grpc://here" demo_path o]}
    (mkResident {[demo_path := o]} ∅ NoEvictionPolicy no_files) 0 0.

Definition demo_objects : objects := {[demo_path := demo_object]}.
Definition demo_cache : ObjectCache Resident := demo_cache_of demo_object.

Lemma demo_object_key : object_key demo_key demo_path.
Proof. split; vm_compute; reflexivity. Qed.

Lemma demo_fits : fits demo_object.
Proof. split; simpl; try done; [constructor; [unfold is_i64; simpl; lia|constructor]|lia..]. Qed.

Lemma demo_cache_of_ok o : fits o ->
  cache_ok (ResidentStorage NoStorage true) "grpc://here" (demo_cache_of o) {[demo_path := o]}.
Proof.
  intros Ho. unfold demo_cache_of. split; simpl.
  - split; [done|done| |done]. intros k x [_ <-]%lookup_singleton_Some. done.
  - intros k x [<- <-]%lookup_singleton_Some. apply lookup_singleton_eq.
  - intros [].
  - intros k meta [<- <-]%lookup_singleton_Some. split; [done|]. exists demo_key. split; [apply demo_object_key|done].
Qed.

Lemma demo_cache_ok : cache_ok (ResidentStorage NoStorage true) "grpc://here" demo_cache demo_objects.
Proof. apply demo_cache_of_ok, demo_fits. Qed.

(** The object after an append. *)
Definition demo_appended : Object := mkObject 0 "bytes" [mkData 7 demo_bytes; mkData 9 demo_bytes].

Lemma demo_appended_fits : fits demo_appended.
Proof. split; simpl; try done; [repeat (constructor; [unfold is_i64; simpl; lia|]); constructor|lia..]. Qed.

Definition demo_header : CacheGetResponse := GetHeader 2 "bytes".

(** A client that has the first part gets the one appended since. *)
Lemma get_returns_parts_witness : exists d c1 fuel dss c2,
  grpc_get (ResidentStorage NoStorage true) demo_path 1 (demo_cache_of demo_appended) = (Ok d, c1) /\
  messages (ResidentStorage NoStorage true) fuel d c1 = (Ok (Some (Ok <$> demo_header :: numbered 1 dss)), c2) /\
  Forall2 pieces dss [mkData 9 demo_bytes].
Proof.
  destruct (get_returns_parts (ResidentStorage NoStorage true) "grpc://here" (demo_cache_of demo_appended)
    {[demo_path := demo_appended]} demo_key demo_path demo_appended 1)
    as (d & c1 & fuel & dss & c2 & Hget & Hms & _ & Hparts);
    [apply demo_cache_of_ok, demo_appended_fits|done|apply demo_object_key|apply lookup_singleton_eq|simpl; lia|].
  exists d, c1, fuel, dss, c2. split_and!; [exact Hget|exact Hms|exact Hparts].
Defined.

(** The application is enabled and older than the object. *)
Definition demo_answer : result (list RpcApplication) := Ok [mkRpcApp (Some "app") (Some (5, 0))].

(** Between the listing and the deletions another request appends to the
    object. *)
Definition append_meanwhile (n : nat) (c : ObjectCache Resident) : ObjectCache Resident :=
  if (n =? 2)%nat then demo_cache_of demo_appended else c.

(** An object whose application is gone but that is appended to in the meantime
    stays, and so does one whose application is enabled and older. *)
Lemma collector_spares_live_witness :
  rtc (collection_step (ResidentStorage NoStorage true) "grpc://here" append_meanwhile
      (hm_values (oc_metadata demo_cache)) (Ok []) (Ok []) 50000) demo_cache
    (reconcile (ResidentStorage NoStorage true) append_meanwhile (Ok []) (Ok []) 50000 demo_cache).2 /\
  oc_metadata (reconcile (ResidentStorage NoStorage true) append_meanwhile (Ok []) (Ok []) 50000 demo_cache).2
    = {[demo_path := described "grpc://here" demo_path demo_appended]} /\
  present (ResidentStorage NoStorage true) "grpc://here" demo_path (described "grpc://here" demo_path demo_object) demo_object
    (reconcile (ResidentStorage NoStorage true) (fun _ c => c) demo_answer demo_answer 50000 demo_cache).2.
Proof.
  split_and!.
  - eapply (proj1 (collector_spares_live _ _ append_meanwhile (Ok []) (Ok []) 50000 demo_cache demo_objects _ _)).
    Unshelve. 2: apply demo_cache_ok.
    intros n c m Hc. unfold append_meanwhile. destruct (n =? 2)%nat; [|by exists m].
    eexists. apply demo_cache_of_ok, demo_appended_fits.
  - by vm_compute.
  - eapply (proj2 (collector_spares_live (ResidentStorage NoStorage true) "grpc://here" (fun _ c => c)
      demo_answer demo_answer 50000 demo_cache demo_objects ltac:(by intros n c m Hc; exists m) demo_cache_ok)).
    + done.
    + exists demo_objects. split; [apply demo_cache_ok|]. split; apply lookup_singleton_eq.
    + done.
    + intros (key & apps1 & apps2 & Hk & H1 & _ & Hs & _). vm_compute in Hk. injection Hk as <-.
      assert (Happ : match demo_answer ≫= validate_applications with Ok apps => apps !! "app" | _ => None end
        = Some (mkSnapshot AppEnabled 5)) by by vm_compute.
      rewrite H1 in Happ. simpl in Hs. by rewrite Happ in Hs.
Defined.

(** Later the application is gone. *)
Lemma collector_removes_stale_witness : exists stats c' m',
  reconcile (ResidentStorage NoStorage true) (fun _ c => c) (Ok []) (Ok []) 50000 demo_cache = (Ok stats, c') /\
  cache_ok (ResidentStorage NoStorage true) "grpc://here" c' m' /\ m' !! demo_path = None.
Proof.
  destruct (collector_removes_stale (ResidentStorage NoStorage true) "grpc://here" (Ok []) (Ok []) 50000 ∅ ∅ demo_cache demo_objects)
    as (stats & c' & m' & Hrun & _ & Hc & _ & Hgone); [apply demo_cache_ok|reflexivity..|].
  exists stats, c', m'. split_and!; [done..|]. eapply Hgone; [apply lookup_singleton_eq|].
  exists demo_key, ∅, ∅. split_and!; [by vm_compute|done|done|by vm_compute|by vm_compute].
Defined.

(** ** Over a disk *)

Definition demo_root : path := ["data"].
Definition empty_disk : Os := mkOs ∅ {[demo_root]} ∅ ∅ 0 0 0.
Abbreviation FileCache := (ResidentStorage (DiskStorage demo_root) false).

Lemma empty_tree : tree_ok demo_root empty_disk ∅.
Proof.
  split; try done.
  - intros key x (k & _ & _ & Hx). by rewrite lookup_empty in Hx.
  - intros r Hin Hl. simpl in Hin. apply elem_of_singleton in Hin. injection Hin as ->. simpl in Hl. lia.
Qed.

Definition demo_policy : EvictionPolicy := new_policy "lru" 1000000 (Some 100).

Lemma demo_policy_fresh : policy_fresh demo_policy.
Proof.
  split_and!; [apply new_lru_rep| |].
  - split; [split; simpl; [lia|unfold u64_max; lia]|constructor|by right].
  - split; simpl; [unfold file_bound; simpl; lia|lia|constructor].
Qed.

Lemma demo_filed : filed demo_root (new_resident demo_policy empty_disk) ∅.
Proof. apply (fresh_filed demo_root); [apply demo_policy_fresh|apply empty_tree]. Qed.

Definition demo_request : WriteRequest := mkWrite demo_key "bytes" [Ok demo_bytes; Ok demo_bytes].

Lemma cache_refines_store_witness : exists c',
  call_run FileCache "grpc://here" (CallPut demo_request) (new_cache (new_resident demo_policy empty_disk)) =
    (Ok (Some (mkMeta "grpc://here" demo_path 1 6 0 "bytes")), c').
Proof.
  destruct (cache_refines_store (spec := FileStore still_quiet demo_root) FileCache "grpc://here"
    (new_cache (new_resident demo_policy empty_disk)) ∅ (CallPut demo_request)) as (c' & Hrun & _).
  - done.
  - split; [apply demo_filed|done..].
  - split; [done|]. exists demo_path. split; [apply demo_object_key|]. split; [by split; try done; intros id [= <-]|].
    intros data [= <-]. split; simpl; try done; [constructor; [unfold is_i64; simpl; lia|constructor]|lia..].
  - exists c'. exact Hrun.
Defined.

Lemma demo_plain : plain demo_key.
Proof. split; [done..|]. by intros id [= <-]. Qed.

Definition demo_meta : ObjectMetadata := mkMeta "" demo_path 1 0 7 "bytes".
Definition demo_written : Resident :=
  (write_stream FileCache demo_key demo_meta [Ok demo_bytes] (new_resident demo_policy empty_disk)).2.

Lemma demo_written_filed : filed demo_root demo_written {[demo_path := demo_object]}.
Proof.
  destruct (filed_write still_quiet demo_root _ ∅ demo_key demo_path demo_meta [Ok demo_bytes] demo_bytes
    demo_filed demo_plain demo_object_key (lookup_empty _) eq_refl demo_fits) as (s' & Hw & Hf).
  unfold demo_written. by rewrite Hw.
Qed.

Lemma restart_recovers_witness : exists c,
  load_from_storage FileCache "grpc://here" (new_cache (new_resident demo_policy (rs_os demo_written))) = (Ok tt, c) /\
  oc_metadata c !! demo_path = Some (mkMeta "grpc://here" demo_path 1 3 7 "bytes").
Proof.
  destruct (restart_recovers still_quiet demo_root "grpc://here" demo_written {[demo_path := demo_object]} demo_policy)
    as (c & Hrun & Hmeta & _).
  - apply demo_written_filed.
  - apply (bool_decide_unpack _). by vm_compute.
  - apply demo_policy_fresh.
  - intros key x (k & Hk & _ & [<- _]%lookup_singleton_Some). by rewrite (object_key_inj _ _ _ Hk demo_object_key).
  - exists c. split; [done|]. by rewrite Hmeta, metadata_map_lookup, lookup_singleton_eq.
Defined.

(** ** Eviction that does not end *)

Definition ghost_ids : list string := ["a"; "b"; "c"; "d"; "e"; "f"].
Definition ghost_key (id : string) : ObjectKey := mkKey "app" "ssn" (Some id).

Definition ghost_puts : M Resident unit :=
  for_each ghost_ids (fun id =>
    write_stream FileCache (ghost_key id) (mkMeta "" ("app/ssn/" +:+ id) 1 0 7 "bytes") [Ok demo_bytes] ≫= fun _ => mret tt).

(** The two calls of [ObjectCache::patch] to the engine, of six patches that run
    at once: each holds the lock of its own key. *)
Definition ghost_stats : M Resident unit :=
  for_each ghost_ids (fun id => stat FileCache (ghost_key id) ≫= fun _ => mret tt).
Definition ghost_patches : M Resident unit :=
  for_each ghost_ids (fun id => patch_object FileCache (ghost_key id) (mkData 8 demo_bytes) ≫= fun _ => mret tt).

Definition ghost_start : Resident := new_resident (new_policy "lru" 1000000 (Some 2)) empty_disk.
Definition ghost_ready : Resident := ((ghost_puts ≫= fun _ => ghost_stats) ghost_start).2.
Definition ghost_end : Resident := (ghost_patches ghost_ready).2.

(** [liveness] A cache over a disk can hang.  With room for two open objects,
    six patches of different objects that run at once leave the policy with
    keys that are not in memory: a batch of victims takes the object that was
    opened for the patch, and accounting for the patch tracks it again.  Once
    these keys alone exceed the limit, [run_eviction] finds the same victims in
    every round, removes none of them, and no number of rounds is enough. *)
Theorem patches_hang_eviction :
  ((ghost_puts ≫= fun _ => ghost_stats) ghost_start).1 = Ok tt /\ (ghost_patches ghost_ready).1 = Panic /\
  forall fuel, evict_loop fuel ghost_end = (false, ghost_end).
Proof.
  split; [by vm_compute|]. split; [by vm_compute|].
  assert (Hv : policy_victims EVICTION_BATCH_SIZE (rs_policy ghost_end) = ["app/ssn/c"; "app/ssn/e"; "app/ssn/f"]) by by vm_compute.
  assert (Hgone : Forall (fun k => rs_objects ghost_end !! k = None /\ rs_handles ghost_end !! k = None)
    ["app/ssn/c"; "app/ssn/e"; "app/ssn/f"]) by (repeat constructor; vm_compute; reflexivity).
  intros fuel. apply ghosts_stay; rewrite Hv; [done|]. by apply list.Forall_forall.
Qed.
